(* ===== verification/_CoqProject ===== *)
-Q . S2P
Prelude.v
GoTime.v
GoString.v
Paths.v
Sha256.v
RecordID.v
Api.v
Status.v
Duration.v
Bounds.v
Utf8.v
Regexp.v
Names.v
Sanitize.v
Settings.v
Objects.v
Render.v
Pcapng.v
Manifest.v
CaptureState.v
TapStatus.v
Protocol.v
Observation.v
Correlate.v
Analyzers.v
SensorDedup.v
PacketMeter.v
Policy.v
Template.v
Fabric.v
RouterOS.v
Prog.v
Content.v
Certificates.v
Tailer.v
SensorAgent.v
Mikrotik.v
MikrotikSSH.v
Storage.v
S3Store.v
Runner.v
RunnerHost.v
Reporter.v
AuditModel.v
AuditSink.v
AuditReplay.v
Engine.v
Admission.v
PortMirror.v
TapWebhook.v
ContentInit.v
TapWorkload.v
CaptureWorkload.v
Kube.v
Witness.v
PolicyStatus.v
PolicyLedger.v
CursorStore.v
AuditTransport.v
Loki.v
Hubble.v
EventWorker.v
HubbleReplay.v
MirrorController.v
MirrorFleet.v
MirrorContract.v
MirrorDevice.v
MirrorDrivers.v
TapController.v
TapContract.v
TapSettles.v
Custody.v
Cluster.v
CaptureController.v
CaptureEdge.v
CaptureConforms.v
Retention.v
Gateway.v
Trawlctl.v
Deployment.v
