(* ===== verification/Prelude.v ===== *)
(** * Trawl: a verification library for the control plane

    Trawl watches cluster networks: NetworkTaps run sensors on nodes,
    PortMirrors make switches copy traffic to them, CapturePolicies turn what
    the sensors report into CaptureJobs, and an audit ledger in an object store
    records every step on the way to a downloaded packet capture.  This library
    models the Go code under src/ that decides all of this, and proves what
    makes it correct, or where it is not.

    ** How the program is modelled

    - A Go value is a Gallina value: machine integers are [Z] with their wrap
      written out (Prelude), strings and byte slices are byte strings
      (GoString), instants and durations are nanoseconds (GoTime), UTF-8 and
      regular expressions are executed as the standard library does (Utf8,
      Regexp), SHA-256 is FIPS 180-4 (Sha256).  API objects are the records of
      Api with the struct fields the program reads.
    - Code that talks to something else is a program of calls (Prog): a tree
      with a continuation for every answer.  A theorem over such a program
      quantifies over the answers: over all of them ([any_answer]), over those
      a contract allows (the object store of Storage, the switch of RouterOS),
      or over those a concrete cluster gives (Cluster, MirrorFleet, used for
      examples and for the executions that exhibit a defect).  [wp] speaks of
      the end of a run, [always] of every point of it, crashes included, [safe]
      of runs interleaved with others, [partial] and [accepts] of the calls a
      run makes against a contract.  [interp] runs a program over the programs
      that serve its calls, which is how components are composed.
    - An error is its sentinel where callers branch on it, and its text where
      they only forward it; [None] is nil.
    - Where a service's own rules matter, they are a step relation stated from
      its documentation: a bucket behind the MinIO library (S3Store), a file
      system others write to (Content, Trawlctl, Certificates), a capture host
      (RunnerHost), a relay (HubbleReplay), an API server that refuses stale
      writes (PolicyLedger), a network that loses requests or replies
      (AuditTransport).
    - Third-party code is a parameter with its documented behaviour as named
      hypotheses: YAML, fmt's quoting, the token bucket, the quantity parser,
      the label selector matcher, the order of a map range.  So is the text
      that encoding/json gives a value: a theorem that needs a value to come
      back from it supposes no more than that a text that was written decodes to
      what JSON carries of the value, in which invalid UTF-8 is replaced
      ([Utf8.json_text]), and that some values are not written at all.
    - Loops over data that is not structurally smaller carry fuel: the length
      of the stream in Pcapng, the runes left in Regexp, the size of the ledger
      in AuditReplay, eight groups in the IPv6 parser of Template.  Each comes
      with a theorem that its fuel is never exhausted.  A loop that the code
      runs for ever (a worker, a stream, a listener) is given as any number of
      its rounds, and the theorems are about every number.
    - A successful write to the API server answers the object as sent: the
      server refuses stale copies, and every handler rereads before it writes.
      The tap controller goes on with the object it was answered.  A list
      through a manager's cache may be old and incomplete (PolicyLedger).

    ** The parts

    Foundations: Prelude, GoTime, GoString, Utf8, Regexp, Names (the anchored
    expressions names and digests are held to), Sha256, Paths (path.Clean and
    Join, and in its module GoUrl url.JoinPath and the segments of a mux), Prog.

    API types (api/v1alpha1): Api, and PortMirror for its own kind; Status is
    internal/status/conditions.go, Sanitize internal/sanitize.

    Configuration (internal/config): Duration is the duration grammar,
    Settings the defaults, the validation and [Load].

    Captures: Bounds (capture/bounds.go, filter.go), Pcapng and Manifest
    (capture/manifest.go), CaptureState (capture/state.go, the pure lifecycle),
    Protocol (capture/protocol.go, what runner and reporter leave on disk).
    CaptureWorkload renders the objects of a capture
    (controller/capturejob_workload.go); Runner is capture/runner.go, RunnerHost
    the host it runs on and what a run may do there, Reporter capture/reporter.
    CaptureController and Retention are the two reconcilers
    (controller/capturejob_controller.go, retention.go) over the calls of Kube.
    Custody is the contract they keep together of the captures in the system
    namespace; CaptureConforms and Retention prove that they do, CaptureEdge
    where the controller falls short, captures elsewhere included.

    Policies: Observation, Policy (policy/suricata.go, hubble.go, dedup.go,
    rate_limit.go), Template (policy/template.go) and Engine
    (controller/capturepolicy_engine.go).  PolicyStatus is the status tracker
    and its reconciler (controller/capturepolicy_status.go,
    capturepolicy_controller.go), PolicyLedger the tracker among other writers,
    Witness the heartbeat between worker and reconciler.

    Event sources (internal/events, cmd/event-worker): RecordID the identities
    of records, CursorStore the ConfigMap cursors are kept in, Loki and Hubble
    the two clients, EventWorker the loops of worker.go over both and the
    engine, HubbleReplay a flow stream over any number of processes.

    Sensors (internal/sensor, internal/observation, cmd/sensor-agent): Analyzers
    normalizes the records of Suricata and Zeek, Correlate pairs them, Tailer
    follows the logs, SensorDedup and PacketMeter keep duplicates and packet
    counts, SensorAgent assembles and reports them.  Content and ContentInit are
    the analyzers' rules and scripts (internal/content, cmd/content-init).

    Admission (internal/admission): Admission has the gate and the webhooks of
    CaptureJob and CapturePolicy, PortMirror and TapWebhook the other two.

    The ledger (internal/audit): AuditModel is the record, AuditSink the
    commit and AuditReplay the forwarding, over the interface of Storage;
    AuditTransport is the way to the sink from other processes, and the replay
    cursor.

    The object store (internal/storage): Storage has the interface as a
    relation and a type class, with the in-memory store as one instance;
    S3Store is the MinIO store, another.

    The gateway (internal/gateway): Gateway is the mux, the download route and
    its limiter; Trawlctl the client and the command (cmd/trawlctl), run against
    that mux; Deployment the route with the collaborators
    cmd/artifact-gateway gives it (internal/authz, kube.go, the presigner, the
    audit client); Certificates the certificates of its listener
    (internal/tlsutil).

    Mirrors (internal/fabric, controller/portmirror_controller.go): Fabric is
    the provider interface, RouterOS the switch, Mikrotik and MikrotikSSH the
    two drivers, with module SshTransport for the connection under the second
    (fabric/sshtransport), MirrorController the reconciler.  MirrorContract is what the
    reconciler may do and when; MirrorDevice states the drivers' interface as a
    type class and MirrorDrivers instantiates it; MirrorFleet runs everything
    together.

    Taps (controller/networktap_*.go): TapStatus projects a tap's status,
    TapWorkload renders its objects (those of Objects, with what Render shares
    with the captures' renderer), TapController is the reconciler, TapContract
    what it may do and when, TapSettles what a second pass does.

    ** What is proved

    - Refinement: both capture controllers refine the custody contract, the
      mirror and the tap controller their own, for every answer of every
      collaborator and every point at which a pass may be cut off; the runner
      stores only what its host bears out; the S3 store keeps the promise of
      the store interface, the remote commit that of the sink.
    - Safety over effects: nothing is captured, downloaded, mutated, mirrored
      or deleted without an acknowledged record; no URL outlives its deadline;
      a redirect of the deployed gateway stands on a review of the token, a
      review of the access and a live read, and a file the command leaves on
      the granted capture's digest; what a status claims of a switch is so; the
      privilege of a sensor pod is split.
    - Once, and not lost: alerts are handed to the policies once over failed
      polls, flows once within the horizon of the replay window over restarts,
      the decisions of a policy that a flush lists are counted once over failed
      writes, every line that is read of a log and every run of an analyzer is
      accounted for, a listing misses no object that stays.
    - Function against specification: the pcapng walk accepts the well-formed
      files, admission and configuration accept exactly the valid objects, the
      lifecycle is a strict order, framing, counters, thresholds, limits,
      deduplication and projections compute what they describe; what the
      runner stored the manager accepts.
    - Crashes and time: content is swapped whole, a second pass of a settled
      tap writes nothing, a renewed certificate is served, if file times tell
      it from the old one, and no handshake fails meanwhile.
    - Concurrency: commits of one action may interleave in any way.
    - Defects: the theorems of kind error, and others the manifest's findings
      name, exhibit executions in which the code does what it does not mean to.

    ** What is not modelled

    - Transports: HTTP and SSH exchanges, TLS handshakes, file-system events,
      processes and signals are calls whose answers the theorems quantify over.
      The listener of internal/audit/server.go holds no state of the program's
      own; to the drivers and their theorems a command over SSH is one call.
    - Metrics, logging and the closed label sets (internal/telemetry): nothing
      reads them back; counters that feed a status are modelled where they do.
    - The wiring in cmd/: flags, schemes and construction, but for the loops
      and assemblies named above.
    - Generated code, test doubles and harnesses (internal/authz/fake.go,
      internal/storage/storagetest, src/test).
    - Encodings, clocks and randomness are parameters: no JSON or YAML parser,
      no token bucket, no label selector is modelled.
    - Memory: a Go value is copied where the code shares it, except where
      sharing is the point, as in Correlate, SensorDedup and the reconcilers'
      objects.  Goroutines are programs interleaved at their calls. *)

From stdpp Require Export base tactics numbers option list gmap strings.
From Stdlib Require Export ZArith Lia.
From Stdlib Require Import DecimalString DecimalZ DecimalN DecimalPos.

#[global] Open Scope Z_scope.

(** ** Results

    A Go function that returns [(T, error)] returns a [result E T]: the error
    type is a message where callers only forward it, and an inductive type of
    sentinels where callers branch on it. *)

Inductive result (E A : Type) : Type :=
  | Ok (a : A)
  | Err (e : E).
Arguments Ok {E A} a.
Arguments Err {E A} e.

#[global] Instance result_eq_dec {E A} `{EqDecision E, EqDecision A} :
  EqDecision (result E A).
Proof. solve_decision. Defined.

Definition result_bind {E A B} (m : result E A) (k : A → result E B) : result E B :=
  match m with Ok a => k a | Err e => Err e end.

Definition result_map_err {E F A} (f : E → F) (m : result E A) : result F A :=
  match m with Ok a => Ok a | Err e => Err (f e) end.

Definition is_ok {E A} (m : result E A) : bool :=
  match m with Ok _ => true | Err _ => false end.

Declare Scope golang_scope.
Delimit Scope golang_scope with golang.
Notation "'let?' x ':=' m 'in' k" := (result_bind m (λ x, k))
  (at level 10, x pattern, m at level 100, k at level 200,
   format "'let?'  x  ':='  m  'in' '//' k") : golang_scope.
#[global] Open Scope golang_scope.

Lemma result_bind_Ok {E A B} (m : result E A) (k : A → result E B) b :
  result_bind m k = Ok b ↔ ∃ a, m = Ok a ∧ k a = Ok b.
Proof. destruct m; naive_solver. Qed.

(** ** Automation

    [golang] holds the lemmas that decide the common arithmetic and lookup
    goals.  [go_cases] splits every [match] and [if] of the goal and of the
    hypotheses and discards the impossible branches. *)

Create HintDb golang discriminated.
#[export] Hint Constants Transparent : golang.

Ltac go_simp :=
  repeat first
    [ progress simplify_eq/=
    | match goal with
      | H : bool_decide _ = true |- _ => apply bool_decide_eq_true in H
      | H : bool_decide _ = false |- _ => apply bool_decide_eq_false in H
      | H : (_ <=? _) = true |- _ => apply Z.leb_le in H
      | H : (_ <=? _) = false |- _ => apply Z.leb_gt in H
      | H : (_ <? _) = true |- _ => apply Z.ltb_lt in H
      | H : (_ <? _) = false |- _ => apply Z.ltb_ge in H
      | H : (_ =? _) = true |- _ => apply Z.eqb_eq in H
      | H : (_ =? _) = false |- _ => apply Z.eqb_neq in H
      | H : negb _ = true |- _ => apply negb_true_iff in H
      | H : negb _ = false |- _ => apply negb_false_iff in H
      | H : andb _ _ = true |- _ => apply andb_true_iff in H as [? ?]
      | H : orb _ _ = false |- _ => apply orb_false_iff in H as [? ?]
      | H : orb _ _ = true |- _ => apply orb_true_iff in H
      | H : andb _ _ = false |- _ => apply andb_false_iff in H
      | H : _ ∧ _ |- _ => destruct H as [? ?]
      | H : ∃ _, _ |- _ => destruct H as [? ?]
      end ].

Ltac go_cases :=
  repeat (go_simp; try case_match); go_simp.

(** A branch that returned an error never meets a success condition. *)
Ltac refute_err :=
  split; [discriminate|intros; go_simp; lia || congruence].

(** ** Machine integers

    Go's [int], [int64] and [time.Duration] are 64-bit, [int32] 32-bit; an
    operation wraps around two's complement. *)

Definition wrap (w : Z) (z : Z) : Z := (z + 2 ^ (w - 1)) mod 2 ^ w - 2 ^ (w - 1).
Definition wrap64 : Z → Z := wrap 64.
Definition wrap32 : Z → Z := wrap 32.
Definition max_int64 : Z := 9223372036854775807.
Definition min_int64 : Z := -9223372036854775808.
Definition max_int32 : Z := 2147483647.
Definition min_int32 : Z := -2147483648.

Definition in_int64 (z : Z) : Prop := min_int64 ≤ z ≤ max_int64.
Definition in_int32 (z : Z) : Prop := min_int32 ≤ z ≤ max_int32.

Lemma wrap64_id z : in_int64 z → wrap64 z = z.
Proof.
  unfold in_int64, min_int64, max_int64, wrap64, wrap; intros H.
  change (2 ^ (64 - 1)) with (2 ^ 63). rewrite Z.mod_small; lia.
Qed.

Lemma wrap32_id z : in_int32 z → wrap32 z = z.
Proof.
  unfold in_int32, max_int32, min_int32, wrap32, wrap; intros H.
  change (2 ^ (32 - 1)) with (2 ^ 31). rewrite Z.mod_small; lia.
Qed.

Lemma wrap64_range z : in_int64 (wrap64 z).
Proof.
  unfold in_int64, min_int64, max_int64, wrap64, wrap.
  change (2 ^ (64 - 1)) with (2 ^ 63).
  pose proof (Z.mod_pos_bound (z + 2 ^ 63) (2 ^ 64) ltac:(lia)). lia.
Qed.

#[export] Hint Resolve wrap64_range : golang.

(** ** Options and lists *)

(** [p != nil] *)
Definition is_Some_b {A} (o : option A) : bool :=
  match o with Some _ => true | None => false end.

Lemma is_Some_b_spec {A} (o : option A) : is_Some_b o = true ↔ ∃ a, o = Some a.
Proof. destruct o; naive_solver. Qed.

Lemma option_not_None {A} (o : option A) : o ≠ None → ∃ a, o = Some a.
Proof. destruct o; naive_solver. Qed.

Lemma list_find_app_None {A} (P : A → Prop) `{∀ x, Decision (P x)} l k :
  Forall (λ x, ¬ P x) l → filter P (l ++ k) = filter P k.
Proof.
  intros Hl. rewrite filter_app.
  assert (filter P l = []) as ->; [|done].
  induction Hl as [|x l Hx _ IH]; [done|]. by rewrite filter_cons_False.
Qed.

Lemma NoDup_map_inj_in {A B} (f : A → B) l x y :
  NoDup (f <$> l) → x ∈ l → y ∈ l → f x = f y → x = y.
Proof.
  induction l as [|a l IH]; [by intros ? ?%elem_of_nil|].
  rewrite fmap_cons, NoDup_cons, !elem_of_cons, list_elem_of_fmap.
  intros [Hnot Hnd] [->|Hx] [->|Hy] Hf; [done|exfalso..|by auto].
  - apply Hnot. exists y. auto.
  - apply Hnot. exists x. auto.
Qed.

Lemma filter_perm {A} (p : A → bool) l l' :
  l ≡ₚ l' → List.filter p l ≡ₚ List.filter p l'.
Proof.
  induction 1 as [|x l l' _ IH|x y l|l1 l2 l3 _ IH1 _ IH2]; simpl; [done| | |by rewrite IH1].
  - destruct (p x); [by constructor|done].
  - destruct (p x), (p y); try done. constructor.
Qed.

Lemma foldl_max_ge (z : Z) l x : x ∈ l → x ≤ foldl Z.max z l.
Proof.
  revert z. assert (∀ l z, z ≤ foldl Z.max z l) as Hz.
  { clear. induction l as [|y l IH]; intros z; simpl; [lia|]. pose proof (IH (Z.max z y)). lia. }
  induction l as [|y l IH]; intros z; [by intros ?%elem_of_nil|].
  intros [->|Hin]%elem_of_cons; simpl; [|by apply IH]. pose proof (Hz l (Z.max z y)). lia.
Qed.
