(* ===== verification/GoTime.v ===== *)
(** * Go's clock arithmetic

    [time.Time] is an instant, counted in nanoseconds from Go's zero time
    (January 1 of year 1, UTC), so the zero value is [0] and [IsZero] is a test
    against it.  [time.Duration] is an int64 of nanoseconds.  [Sub] saturates
    at the int64 bounds and [Truncate]/[Round] work on the time since the zero
    time, as the Go documentation says.  Instants are unbounded here: Go's own
    representation reaches year 292277022365, which nothing in the program
    approaches.  The monotonic reading of [time.Now] is not modelled, so two
    instants compare on one timeline. *)

From S2P Require Import Prelude.

Abbreviation time := Z (only parsing).
Abbreviation duration := Z (only parsing).

Definition nanosecond : duration := 1.
Definition microsecond : duration := 1000.
Definition millisecond : duration := 1000000.
Definition second : duration := 1000000000.
Definition minute : duration := 60 * second.
Definition hour : duration := 60 * minute.

(** Seconds from Go's zero time to the Unix epoch. *)
Definition unix_to_zero : Z := 62135596800.

Definition is_zero (t : time) : bool := t =? 0.
Definition t_add (t : time) (d : duration) : time := t + d.
Definition t_sub (t u : time) : duration :=
  Z.max min_int64 (Z.min max_int64 (t - u)).
Definition t_after (t u : time) : bool := u <? t.
Definition t_before (t u : time) : bool := t <? u.

(** [Truncate(d)] rounds down to a multiple of [d] since the zero time, and
    leaves the instant alone when [d <= 0]. *)
Definition t_truncate (t : time) (d : duration) : time :=
  if d <=? 0 then t else t - t mod d.

(** [Round(d)] rounds to the nearest multiple, half away from the zero time. *)
Definition t_round (t : time) (d : duration) : time :=
  if d <=? 0 then t
  else let r := t mod d in if r + r <? d then t - r else t + (d - r).

(** [Unix()]: whole seconds since the epoch, rounded down. *)
Definition t_unix (t : time) : Z := t / second - unix_to_zero.
(** [UnixNano()] wraps around int64 outside the years 1678 to 2262. *)
Definition t_unix_nano (t : time) : Z := wrap64 (t - unix_to_zero * second).

(** [Duration.Abs] maps the least int64 to the greatest. *)
Definition d_abs (d : duration) : duration :=
  if d =? min_int64 then max_int64 else Z.abs d.

(** [int64(d.Seconds())]: whole plus fractional seconds are added as float64
    and truncated toward zero; up to 2^23 seconds, some 97 days, the sum of
    less than a second's nanoseconds does not round up, so this is the
    quotient. *)
Definition d_seconds_int (d : duration) : Z := Z.quot d second.

(** [metav1.Time] is a pointer in most status fields; [metaTime] returns nil
    for the zero time. *)

Lemma t_sub_exact t u : in_int64 (t - u) → t_sub t u = t - u.
Proof. unfold in_int64, t_sub. lia. Qed.

Lemma t_sub_le_mono t1 t2 u : t1 ≤ t2 → t_sub t1 u ≤ t_sub t2 u.
Proof. unfold t_sub. lia. Qed.

Lemma t_sub_range t u : in_int64 (t_sub t u).
Proof. unfold in_int64, t_sub, min_int64, max_int64. lia. Qed.

Lemma t_sub_gt t u d : in_int64 d → d < max_int64 → (d < t_sub t u ↔ d < t - u).
Proof. unfold in_int64, t_sub, min_int64, max_int64. intros. split; lia. Qed.

Lemma t_sub_le t u d : in_int64 d → d < max_int64 → (t_sub t u ≤ d ↔ t - u ≤ d).
Proof. unfold in_int64, t_sub, min_int64, max_int64. intros. split; lia. Qed.

Lemma t_truncate_bounds t d :
  0 < d → t_truncate t d ≤ t < t_truncate t d + d.
Proof.
  intros Hd. unfold t_truncate. destruct (Z.leb_spec d 0); [lia|].
  pose proof (Z.mod_pos_bound t d Hd). lia.
Qed.

Lemma t_truncate_idem t d : t_truncate (t_truncate t d) d = t_truncate t d.
Proof.
  unfold t_truncate. destruct (Z.leb_spec d 0) as [|Hd]; [done|].
  rewrite Zminus_mod_idemp_r, Z.sub_diag, Z.mod_0_l; lia.
Qed.

#[export] Hint Resolve t_sub_range : golang.

(** ** Calendar dates

    [time.Date] of an instant in UTC: year, month and day of the proleptic
    Gregorian calendar, from the days since March 1 of year 0 in cycles of 400
    years. *)

Definition day : duration := 24 * hour.

Record date := mkDate { dt_year : Z; dt_month : Z; dt_day : Z }.

(** The date of day [doe] of a cycle, its year counted from March. *)
Definition cycle_date (doe : Z) : date :=
  let yoe := (doe - doe / 1460 + doe / 36524 - doe / 146096) / 365 in
  let doy := doe - (365 * yoe + yoe / 4 - yoe / 100) in
  let mp := (5 * doy + 2) / 153 in
  let d := doy - (153 * mp + 2) / 5 + 1 in
  let m := if mp <? 10 then mp + 3 else mp - 9 in
  mkDate (yoe + if m <=? 2 then 1 else 0) m d.

(** Go's zero time, January 1 of year 1, is 306 days after March 1 of year 0. *)
Definition civil (t : time) : date :=
  let z := t / day + 306 in
  let c := cycle_date (z mod 146097) in
  mkDate (dt_year c + 400 * (z / 146097)) (dt_month c) (dt_day c).

(** Nanoseconds into the UTC day. *)
Definition day_ns (t : time) : Z := t mod day.

Example civil_zero : civil 0 = mkDate 1 1 1.
Proof. reflexivity. Qed.

Example civil_epoch : civil (unix_to_zero * second) = mkDate 1970 1 1.
Proof. reflexivity. Qed.

Example civil_leap : civil ((unix_to_zero + 951782400) * second) = mkDate 2000 2 29.
Proof. reflexivity. Qed.

(** ** The calendar is in order *)

Definition year_start (y : Z) : Z := 365 * y + y / 4 - y / 100.
Definition cycle_year (doe : Z) : Z := (doe - doe / 1460 + doe / 36524 - doe / 146096) / 365.

Lemma cycle_year_mono d1 d2 : 0 ≤ d1 ≤ d2 → d2 < 146097 → cycle_year d1 ≤ cycle_year d2.
Proof.
  intros. unfold cycle_year. apply Z.div_le_mono; [lia|].
  Z.to_euclidean_division_equations. lia.
Qed.

Lemma year_start_range y : 0 ≤ y ≤ 400 → 0 ≤ year_start y ≤ 146097.
Proof. unfold year_start. intros. Z.to_euclidean_division_equations. lia. Qed.

Fixpoint cycle_years_ok (n : nat) : bool :=
  match n with
  | O => true
  | S n' => let y := Z.of_nat n' in
      (cycle_year (year_start y) =? y) &&
      (cycle_year (Z.min 146096 (year_start (y + 1) - 1)) =? y) && cycle_years_ok n'
  end.

Lemma cycle_years_ok_spec n y :
  cycle_years_ok n = true → 0 ≤ y < Z.of_nat n →
  cycle_year (year_start y) = y ∧ cycle_year (Z.min 146096 (year_start (y + 1) - 1)) = y.
Proof.
  induction n as [|n IH]; [lia|]. cbn [cycle_years_ok].
  rewrite !andb_true_iff, !Z.eqb_eq. intros [[H1 H2] H] Hy.
  destruct (Z.eq_dec y (Z.of_nat n)) as [->|]; [done|]. apply IH; [done|lia].
Qed.

(** The day of a cycle lies in the year computed for it. *)
Lemma cycle_year_spec doe :
  0 ≤ doe < 146097 → let y := cycle_year doe in
  0 ≤ y < 400 ∧ year_start y ≤ doe < year_start (y + 1) + (if y =? 399 then 1 else 0).
Proof.
  intros Hd y. assert (cycle_years_ok 400 = true) as Hok by reflexivity.
  pose proof (cycle_year_mono 0 doe ltac:(lia) ltac:(lia)) as H0.
  pose proof (cycle_year_mono doe 146096 ltac:(lia) ltac:(lia)) as H1. fold y in H0, H1.
  change (cycle_year 0) with 0 in H0. change (cycle_year 146096) with 399 in H1.
  split; [lia|].
  destruct (cycle_years_ok_spec 400 y Hok ltac:(lia)) as [Hs He].
  split.
  - destruct (Z.le_gt_cases (year_start y) doe) as [|Hlt]; [done|exfalso].
    destruct (Z.eq_dec y 0) as [Hy0|]; [rewrite Hy0 in Hlt; change (year_start 0) with 0 in Hlt; lia|].
    destruct (cycle_years_ok_spec 400 (y - 1) Hok ltac:(lia)) as [_ He'].
    replace (y - 1 + 1) with y in He' by lia.
    pose proof (year_start_range y ltac:(lia)).
    pose proof (cycle_year_mono doe (Z.min 146096 (year_start y - 1)) ltac:(lia) ltac:(lia)) as Hm.
    fold y in Hm. lia.
  - destruct (Z.eqb_spec y 399) as [->|]; [change (year_start (399 + 1)) with 146096; lia|].
    destruct (Z.lt_ge_cases doe (year_start (y + 1))) as [|Hge]; [lia|exfalso].
    destruct (cycle_years_ok_spec 400 (y + 1) Hok ltac:(lia)) as [Hs' _].
    pose proof (year_start_range (y + 1) ltac:(lia)).
    pose proof (cycle_year_mono (year_start (y + 1)) doe ltac:(lia) ltac:(lia)) as Hm.
    fold y in Hm. lia.
Qed.

(** Months counted from year 0, and the day. *)
Definition month_index (d : date) : Z := 12 * dt_year d + dt_month d - 1.
Definition date_ltb (a b : date) : bool :=
  (month_index a <? month_index b) || (month_index a =? month_index b) && (dt_day a <? dt_day b).
Definition date_ok (d : date) : Prop := 1 ≤ dt_month d ≤ 12 ∧ 1 ≤ dt_day d ≤ 31.

Definition day_of_year (doe : Z) : Z := doe - year_start (cycle_year doe).
Definition shifted_month (doy : Z) : Z := (5 * doy + 2) / 153.
Definition month_day (doy : Z) : Z := doy - (153 * shifted_month doy + 2) / 5 + 1.

Lemma cycle_date_index doe :
  0 ≤ doe < 146097 →
  month_index (cycle_date doe) = 12 * cycle_year doe + shifted_month (day_of_year doe) + 2 ∧
  dt_day (cycle_date doe) = month_day (day_of_year doe) ∧ date_ok (cycle_date doe) ∧
  0 ≤ day_of_year doe < 366.
Proof.
  intros Hd. pose proof (cycle_year_spec doe Hd) as [Hy Hr].
  assert (0 ≤ day_of_year doe < 366) as Hdoy.
  { unfold day_of_year. destruct (Z.eqb_spec (cycle_year doe) 399) as [E|].
    - rewrite E in *. change (year_start 399) with 145731 in *.
      change (year_start (399 + 1)) with 146096 in Hr. lia.
    - assert (year_start (cycle_year doe + 1) ≤ year_start (cycle_year doe) + 366) as H1
        by (unfold year_start; Z.to_euclidean_division_equations; lia).
      lia. }
  assert (cycle_date doe = (let mp := shifted_month (day_of_year doe) in
    let m := if mp <? 10 then mp + 3 else mp - 9 in
    mkDate (cycle_year doe + if m <=? 2 then 1 else 0) m (month_day (day_of_year doe)))) as ->.
  { unfold cycle_date, shifted_month, month_day, shifted_month, day_of_year, year_start, cycle_year. reflexivity. }
  assert (0 ≤ shifted_month (day_of_year doe) < 12) as Hm
    by (unfold shifted_month; Z.to_euclidean_division_equations; lia).
  assert (1 ≤ month_day (day_of_year doe) ≤ 31) as Hmd
    by (unfold month_day, shifted_month; Z.to_euclidean_division_equations; lia).
  cbv zeta. unfold month_index, date_ok. cbn [dt_year dt_month dt_day].
  set (mp := shifted_month (day_of_year doe)) in *. destruct (Z.ltb_spec mp 10).
  - destruct (Z.leb_spec (mp + 3) 2); lia.
  - destruct (Z.leb_spec (mp - 9) 2); lia.
Qed.

Lemma date_ltb_lt a b :
  date_ltb a b = true ↔
  month_index a < month_index b ∨ month_index a = month_index b ∧ dt_day a < dt_day b.
Proof. unfold date_ltb. rewrite orb_true_iff, andb_true_iff, Z.eqb_eq, !Z.ltb_lt. done. Qed.

Lemma cycle_date_mono d1 d2 :
  0 ≤ d1 < d2 → d2 < 146097 → date_ltb (cycle_date d1) (cycle_date d2) = true.
Proof.
  intros H1 H2. apply date_ltb_lt.
  destruct (cycle_date_index d1 ltac:(lia)) as (-> & -> & _ & Hr1).
  destruct (cycle_date_index d2 ltac:(lia)) as (-> & -> & _ & Hr2).
  pose proof (cycle_year_mono d1 d2 ltac:(lia) H2) as Hm.
  assert (∀ doy, 0 ≤ doy < 366 → 0 ≤ shifted_month doy < 12) as Hsm
    by (intros; unfold shifted_month; Z.to_euclidean_division_equations; lia).
  pose proof (Hsm _ Hr1). pose proof (Hsm _ Hr2).
  destruct (Z.eq_dec (cycle_year d1) (cycle_year d2)) as [E|]; [|left; lia].
  assert (day_of_year d1 < day_of_year d2) as Hlt by (unfold day_of_year; rewrite E; lia).
  rewrite E. unfold month_day. 
  assert (shifted_month (day_of_year d1) ≤ shifted_month (day_of_year d2)) as Hle
    by (unfold shifted_month; apply Z.div_le_mono; lia).
  destruct (Z.eq_dec (shifted_month (day_of_year d1)) (shifted_month (day_of_year d2))) as [->|]; [right|left]; lia.
Qed.

Lemma civil_ok t : date_ok (civil t).
Proof.
  unfold civil, date_ok. cbn. apply cycle_date_index. apply Z.mod_pos_bound. lia.
Qed.

Lemma civil_mono t1 t2 : t1 / day < t2 / day → date_ltb (civil t1) (civil t2) = true.
Proof.
  intros Hlt. unfold civil.
  set (z1 := t1 / day + 306). set (z2 := t2 / day + 306). assert (z1 < z2) as Hz by lia.
  pose proof (Z.mod_pos_bound z1 146097 ltac:(lia)) as B1.
  pose proof (Z.mod_pos_bound z2 146097 ltac:(lia)) as B2.
  pose proof (Z.div_mod z1 146097 ltac:(lia)). pose proof (Z.div_mod z2 146097 ltac:(lia)).
  apply date_ltb_lt. unfold month_index. cbn [dt_year dt_month dt_day].
  destruct (Z.eq_dec (z1 / 146097) (z2 / 146097)) as [E|].
  - pose proof (cycle_date_mono (z1 mod 146097) (z2 mod 146097) ltac:(lia) ltac:(lia)) as Hc.
    apply date_ltb_lt in Hc. unfold month_index in Hc. lia.
  - destruct (cycle_date_index _ B1) as (I1 & _ & _ & R1). destruct (cycle_date_index _ B2) as (I2 & _ & _ & R2).
    unfold month_index in I1, I2. destruct (cycle_year_spec _ B1) as [Y1 _]. destruct (cycle_year_spec _ B2) as [Y2 _].
    assert (∀ doy, 0 ≤ doy < 366 → 0 ≤ shifted_month doy < 12) as Hsm
      by (intros; unfold shifted_month; Z.to_euclidean_division_equations; lia).
    pose proof (Hsm _ R1). pose proof (Hsm _ R2). left. lia.
Qed.

Lemma civil_year_nonneg t : 0 ≤ t → 0 ≤ dt_year (civil t).
Proof.
  intros Ht. unfold civil. cbn [dt_year]. set (z := t / day + 306).
  assert (0 ≤ z) as Hz by (unfold z; pose proof (Z.div_pos t day Ht ltac:(done)); lia).
  pose proof (Z.div_pos z 146097 Hz ltac:(lia)).
  destruct (cycle_date_index _ (Z.mod_pos_bound z 146097 ltac:(lia))) as (I & _ & [Hm _] & Hr).
  unfold month_index in I.
  destruct (cycle_year_spec _ (Z.mod_pos_bound z 146097 ltac:(lia))) as [Hy _].
  assert (0 ≤ shifted_month (day_of_year (z mod 146097)))
    by (unfold shifted_month; apply Z.div_pos; lia).
  lia.
Qed.
