(* ===== verification/GoString.v ===== *)
(** * Go strings and formatting

    A Go [string] or [[]byte] is a sequence of bytes, a [string] of [ascii]
    here.  Indexing and slicing are by byte, [<] is the bytewise order. *)

From Stdlib Require Import Ascii DecimalString DecimalFacts DecimalZ DecimalN DecimalPos Sorted.
From S2P Require Import Prelude.

Abbreviation str := string (only parsing).
#[global] Arguments String.append : simpl nomatch.

Definition byte_of (c : Ascii.ascii) : Z := Z.of_N (Ascii.N_of_ascii c).
Definition ascii_of (z : Z) : Ascii.ascii := Ascii.ascii_of_N (Z.to_N z).

(** [len(s)] *)
Definition slen (s : str) : Z := Z.of_nat (String.length s).

(** [s[:n]] and [s[n:]] for [0 <= n <= len(s)]. *)
Fixpoint str_take (n : nat) (s : str) : str :=
  match n, s with
  | S n', String c s' => String c (str_take n' s')
  | _, _ => EmptyString
  end.

Fixpoint str_drop (n : nat) (s : str) : str :=
  match n, s with
  | S n', String _ s' => str_drop n' s'
  | O, _ => s
  | _, EmptyString => EmptyString
  end.

(** [strings.HasPrefix] and [strings.TrimPrefix]. *)
Fixpoint has_prefix (s p : str) : bool :=
  match p, s with
  | EmptyString, _ => true
  | String a p', String b s' => bool_decide (a = b) && has_prefix s' p'
  | String _ _, EmptyString => false
  end.

Definition trim_prefix (s p : str) : str :=
  if has_prefix s p then str_drop (String.length p) s else s.

(** The bytewise order, [a < b]. *)
Definition str_ltb (a b : str) : bool := String.ltb a b.

Fixpoint str_forallb (p : Ascii.ascii → bool) (s : str) : bool :=
  match s with EmptyString => true | String c s' => p c && str_forallb p s' end.

(** [strings.Contains] *)
Fixpoint str_contains (s sub : str) : bool :=
  has_prefix s sub ||
  match s with EmptyString => false | String _ s' => str_contains s' sub end.

(** [strings.Join] *)
Fixpoint str_join (l : list str) (sep : str) : str :=
  match l with
  | [] => ""
  | [x] => x
  | x :: l' => x +:+ sep +:+ str_join l' sep
  end.

(** [strconv.FormatInt(z, 10)], [fmt.Sprintf("%d", z)]. *)
Definition itoa (z : Z) : str := NilZero.string_of_int (Z.to_int z).

(** [fmt.Sprintf("%0wd", z)] for [0 <= z], and the last [w] digits. *)
Fixpoint pad0 (w : nat) (z : Z) : str :=
  match w with
  | O => ""
  | S w' => pad0 w' (z / 10) +:+ String (ascii_of (48 + z mod 10)) ""
  end.

(** The value of a string of decimal digits, from a prefix worth [acc]. *)
Fixpoint digits_value (acc : Z) (s : str) : Z :=
  match s with
  | EmptyString => acc
  | String c s' => digits_value (acc * 10 + (byte_of c - 48)) s'
  end.

(** Lower-case hexadecimal of a byte sequence, [hex.EncodeToString]. *)
Definition hex_digit (n : Z) : Ascii.ascii :=
  ascii_of (if n <? 10 then 48 + n else 87 + n).

Fixpoint hex_bytes (l : list Z) : str :=
  match l with
  | [] => ""
  | b :: l' => String (hex_digit (b / 16)) (String (hex_digit (b mod 16)) (hex_bytes l'))
  end.

(** Lower-casing of ASCII letters ([strings.ToLower] on an ASCII string). *)
Definition ascii_lower (c : Ascii.ascii) : Ascii.ascii :=
  let b := byte_of c in
  if (65 <=? b) && (b <=? 90) then ascii_of (b + 32) else c.

Fixpoint str_lower (s : str) : str :=
  match s with EmptyString => "" | String c s' => String (ascii_lower c) (str_lower s') end.

Definition is_digit (c : Ascii.ascii) : bool := (48 <=? byte_of c) && (byte_of c <=? 57).
Definition is_hex_lower (c : Ascii.ascii) : bool :=
  is_digit c || (97 <=? byte_of c) && (byte_of c <=? 102).

(** The length-prefixed field ["%d:%s"] the digests of the program hash. *)
Definition len_prefixed (s : str) : str := itoa (slen s) +:+ ":" +:+ s.

Fixpoint len_prefixed_all (l : list str) : str :=
  match l with [] => "" | s :: l' => len_prefixed s +:+ len_prefixed_all l' end.

(** ** Lemmas *)

Lemma byte_of_range c : 0 ≤ byte_of c < 256.
Proof. unfold byte_of. pose proof (Ascii.N_ascii_bounded c). lia. Qed.

Lemma ascii_of_byte c : ascii_of (byte_of c) = c.
Proof. unfold ascii_of, byte_of. by rewrite N2Z.id, Ascii.ascii_N_embedding. Qed.

Lemma byte_of_ascii z : 0 ≤ z < 256 → byte_of (ascii_of z) = z.
Proof. intros. unfold ascii_of, byte_of. rewrite Ascii.N_ascii_embedding; lia. Qed.

Lemma byte_of_inj c d : byte_of c = byte_of d → c = d.
Proof. intros H. by rewrite <-(ascii_of_byte c), <-(ascii_of_byte d), H. Qed.

Lemma str_app_nil_r s : s +:+ "" = s.
Proof. induction s; simpl; congruence. Qed.

Lemma str_app_assoc s t u : (s +:+ t) +:+ u = s +:+ t +:+ u.
Proof. induction s; simpl; congruence. Qed.

Lemma str_length_app s t : String.length (s +:+ t) = (String.length s + String.length t)%nat.
Proof. induction s; simpl; lia. Qed.

Lemma slen_app s t : slen (s +:+ t) = slen s + slen t.
Proof. unfold slen. rewrite str_length_app. lia. Qed.

Lemma slen_nonneg s : 0 ≤ slen s.
Proof. unfold slen. lia. Qed.

Lemma str_app_inj_len s1 s2 t1 t2 :
  String.length s1 = String.length s2 →
  s1 +:+ t1 = s2 +:+ t2 → s1 = s2 ∧ t1 = t2.
Proof.
  revert s2. induction s1 as [|c s1 IH]; intros [|d s2]; simpl; try done.
  intros [= Hl] [= -> Heq]. by destruct (IH s2 Hl Heq) as [-> ->].
Qed.

Lemma str_app_inj_r s t1 t2 : s +:+ t1 = s +:+ t2 → t1 = t2.
Proof. intros H. by apply str_app_inj_len in H as [_ ?]. Qed.

Lemma str_app_inj_l s1 s2 t : s1 +:+ t = s2 +:+ t → s1 = s2.
Proof.
  intros H. assert (String.length s1 = String.length s2) as Hl.
  { apply (f_equal String.length) in H. rewrite !str_length_app in H. lia. }
  by destruct (str_app_inj_len _ _ _ _ Hl H).
Qed.

Lemma str_take_drop n s : str_take n s +:+ str_drop n s = s.
Proof. revert n; induction s; intros [|n]; simpl; congruence. Qed.

Lemma str_take_length n s : String.length (str_take n s) = Nat.min n (String.length s).
Proof. revert n; induction s; intros [|n]; simpl; auto. Qed.

Lemma str_drop_length n s : String.length (str_drop n s) = (String.length s - n)%nat.
Proof. revert n; induction s; intros [|n]; simpl; auto. Qed.

Lemma str_take_app s t : str_take (String.length s) (s +:+ t) = s.
Proof. induction s; simpl; [by destruct t|congruence]. Qed.

Lemma str_drop_app s t : str_drop (String.length s) (s +:+ t) = t.
Proof. induction s; simpl; auto. Qed.

Lemma str_take_app_n n s t : String.length s = n → str_take n (s +:+ t) = s.
Proof. intros <-. apply str_take_app. Qed.

Lemma str_drop_app_n n s t : String.length s = n → str_drop n (s +:+ t) = t.
Proof. intros <-. apply str_drop_app. Qed.

Lemma str_drop_drop n m s : str_drop m (str_drop n s) = str_drop (n + m) s.
Proof. revert n; induction s; intros [|n]; simpl; auto. by destruct m. Qed.

Lemma str_take_app_add s t k :
  str_take (String.length s + k) (s +:+ t) = s +:+ str_take k t.
Proof. induction s; simpl; congruence. Qed.

Lemma str_take_app_le n s t :
  (n ≤ String.length s)%nat → str_take n (s +:+ t) = str_take n s.
Proof. revert n; induction s; intros [|n] H; simpl in *; try done; [lia|]. f_equal; auto with lia. Qed.

Lemma str_take_ge n s : (String.length s ≤ n)%nat → str_take n s = s.
Proof. revert n; induction s; intros [|n]; simpl; intros; f_equal; auto with lia. Qed.

Lemma has_prefix_app p t : has_prefix (p +:+ t) p = true.
Proof. induction p; simpl; [by destruct t|]. by rewrite bool_decide_eq_true_2. Qed.

Lemma has_prefix_spec s p : has_prefix s p = true ↔ ∃ t, s = p +:+ t.
Proof.
  split; [|intros [t ->]; apply has_prefix_app].
  revert s; induction p as [|a p IH]; intros s; simpl; [by exists s|].
  destruct s as [|b s]; [done|]. intros [Hab Hp]%andb_true_iff.
  apply bool_decide_eq_true in Hab as ->. apply IH in Hp as [t ->].
  by exists t.
Qed.

Lemma trim_prefix_app p t : trim_prefix (p +:+ t) p = t.
Proof. unfold trim_prefix. by rewrite has_prefix_app, str_drop_app. Qed.

Lemma str_forallb_app p s t : str_forallb p (s +:+ t) = str_forallb p s && str_forallb p t.
Proof. induction s; simpl; [done|]. by rewrite IHs, andb_assoc. Qed.

Lemma str_forallb_impl (p q : Ascii.ascii → bool) s :
  (∀ c, p c = true → q c = true) → str_forallb p s = true → str_forallb q s = true.
Proof. intros Hpq. induction s; simpl; [done|]. rewrite !andb_true_iff. naive_solver. Qed.

Lemma str_forallb_take p n s : str_forallb p s = true → str_forallb p (str_take n s) = true.
Proof.
  revert n. induction s as [|c s IH]; intros [|n]; simpl; try done.
  rewrite !andb_true_iff. naive_solver.
Qed.

(** The order is the strict part of a total order. *)
Lemma str_ltb_irrefl a : str_ltb a a = false.
Proof.
  unfold str_ltb, String.ltb. assert (String.compare a a = Eq) as ->; [|done].
  induction a as [|c a IH]; [done|]. simpl. unfold Ascii.compare.
  by rewrite N.compare_refl.
Qed.

Lemma str_ltb_cons c a d b :
  str_ltb (String c a) (String d b) = true ↔
  (Ascii.N_of_ascii c < Ascii.N_of_ascii d)%N ∨ c = d ∧ str_ltb a b = true.
Proof.
  unfold str_ltb, String.ltb. simpl. unfold Ascii.compare.
  destruct (N.compare_spec (Ascii.N_of_ascii c) (Ascii.N_of_ascii d)) as [He|Hl|Hg].
  - assert (c = d) as -> by (rewrite <-(Ascii.ascii_N_embedding c), He; apply Ascii.ascii_N_embedding).
    naive_solver lia.
  - naive_solver.
  - split; [done|]. intros [?|[-> _]]; lia.
Qed.

Lemma str_ltb_trans a b c : str_ltb a b = true → str_ltb b c = true → str_ltb a c = true.
Proof.
  revert b c. induction a as [|x a IH]; intros [|y b] [|z c]; try done.
  rewrite !str_ltb_cons. intros [?|[-> ?]] [?|[-> ?]]; [left; lia|by left|by left|].
  right. split; [done|]. by eapply IH.
Qed.

Lemma str_ltb_asym a b : str_ltb a b = true → str_ltb b a = true → False.
Proof. intros H1 H2. pose proof (str_ltb_trans _ _ _ H1 H2) as H. by rewrite str_ltb_irrefl in H. Qed.

Lemma str_ltb_empty a : a ≠ "" → str_ltb "" a = true.
Proof. by destruct a. Qed.

Lemma str_ltb_flip a b : a ≠ b → str_ltb b a = negb (str_ltb a b).
Proof.
  intros Hne. unfold str_ltb, String.ltb.
  pose proof (String.compare_antisym a b) as Ha.
  destruct (String.compare a b) eqn:E, (String.compare b a) eqn:E'; simpl in *; try done.
  apply String.compare_eq_iff in E. by subst.
Qed.

(** ** Decimal numerals *)

Lemma string_of_uint_digits d :
  str_forallb is_digit (NilEmpty.string_of_uint d) = true.
Proof. induction d; simpl; done || (rewrite IHd; reflexivity). Qed.

Lemma itoa_nonneg z : 0 ≤ z → itoa z = NilZero.string_of_uint (N.to_uint (Z.to_N z)).
Proof. intros. destruct z; [reflexivity|reflexivity|lia]. Qed.

Lemma itoa_digits z : 0 ≤ z → str_forallb is_digit (itoa z) = true.
Proof.
  intros Hz. rewrite itoa_nonneg by done. unfold NilZero.string_of_uint.
  destruct (N.to_uint (Z.to_N z)) as [|d|d|d|d|d|d|d|d|d|d];
    [reflexivity|simpl; by rewrite string_of_uint_digits..].
Qed.

Lemma itoa_inj_nonneg y z : 0 ≤ y → 0 ≤ z → itoa y = itoa z → y = z.
Proof.
  intros Hy Hz. rewrite !itoa_nonneg by done. intros H.
  apply (f_equal NilZero.uint_of_string) in H.
  assert (∀ n : N, N.to_uint n ≠ Decimal.Nil) as Hnn.
  { intros [|p]; [done|]. apply DecimalPos.Unsigned.to_uint_nonnil. }
  rewrite !NilZero.usu in H by apply Hnn. simplify_eq.
  apply DecimalN.Unsigned.to_uint_inj in H. lia.
Qed.

(** The sign is kept, so the decimal form is injective on all integers. *)
Lemma itoa_neg z : z < 0 → itoa z = String "-"%char (itoa (- z)).
Proof.
  intros Hz. unfold itoa. destruct z as [|p|p]; [lia..|].
  pose proof (DecimalPos.Unsigned.to_uint_nonnil p) as Hp.
  change (- Z.neg p) with (Z.pos p). cbn [Z.to_int]. unfold NilZero.string_of_int, NilEmpty.string_of_int.
  destruct (Pos.to_uint p); [done|reflexivity..].
Qed.

Lemma is_digit_not_minus s : str_forallb is_digit (String "-"%char s) = false.
Proof. reflexivity. Qed.

Lemma itoa_inj y z : itoa y = itoa z → y = z.
Proof.
  destruct (Z.neg_nonneg_cases y) as [Hy|Hy], (Z.neg_nonneg_cases z) as [Hz|Hz].
  - rewrite (itoa_neg y), (itoa_neg z) by done. intros [= H]. apply itoa_inj_nonneg in H; lia.
  - rewrite (itoa_neg y) by done. intros H. pose proof (itoa_digits z Hz) as Hd.
    by rewrite <-H, is_digit_not_minus in Hd.
  - rewrite (itoa_neg z) by done. intros H. pose proof (itoa_digits y Hy) as Hd.
    by rewrite H, is_digit_not_minus in Hd.
  - by apply itoa_inj_nonneg.
Qed.

(** A common prefix does not matter, and numbers written in one width compare
    as numbers. *)
Lemma str_ltb_app p a b : str_ltb (p +:+ a) (p +:+ b) = str_ltb a b.
Proof.
  apply Bool.eq_iff_eq_true. induction p as [|c p IH]; [done|]. simpl. rewrite str_ltb_cons, IH.
  split; [intros [?|[_ ?]]; [lia|done]|by right].
Qed.

Lemma digit_ltb a b r1 r2 :
  0 ≤ a < 10 → 0 ≤ b < 10 →
  str_ltb (String (ascii_of (48 + a)) r1) (String (ascii_of (48 + b)) r2) = true ↔
  a < b ∨ a = b ∧ str_ltb r1 r2 = true.
Proof.
  intros Ha Hb. rewrite str_ltb_cons. unfold ascii_of. rewrite !Ascii.N_ascii_embedding by lia.
  split.
  - intros [?|[He ?]]; [left; lia|right]. split; [|done].
    apply (f_equal Ascii.N_of_ascii) in He. rewrite !Ascii.N_ascii_embedding in He by lia. lia.
  - intros [?|[-> ?]]; [left; lia|by right].
Qed.

Lemma pad0_ltb w a b r1 r2 :
  0 ≤ a < 10 ^ Z.of_nat w → 0 ≤ b < 10 ^ Z.of_nat w →
  str_ltb (pad0 w a +:+ r1) (pad0 w b +:+ r2) = true ↔ a < b ∨ a = b ∧ str_ltb r1 r2 = true.
Proof.
  revert a b r1 r2. induction w as [|w IH]; intros a b r1 r2 Ha Hb.
  { simpl in *. split; [right; split; [lia|done]|intros [?|[_ ?]]; [lia|done]]. }
  rewrite Nat2Z.inj_succ, Z.pow_succ_r in Ha, Hb by lia. cbn [pad0]. rewrite !str_app_assoc.
  rewrite IH by (split; [apply Z.div_pos; lia|apply Z.div_lt_upper_bound; lia]). cbn [String.append].
  pose proof (Z.mod_pos_bound a 10 ltac:(lia)). pose proof (Z.mod_pos_bound b 10 ltac:(lia)).
  rewrite digit_ltb by done.
  pose proof (Z.div_mod a 10 ltac:(lia)). pose proof (Z.div_mod b 10 ltac:(lia)).
  split.
  - intros [?|[? [?|[? ?]]]]; [left; lia|left; lia|right; split; [lia|done]].
  - intros [?|[-> ?]]; [|by right; split; [done|right]].
    destruct (Z.lt_trichotomy (a / 10) (b / 10)) as [?|[?|?]]; [by left| |lia].
    right. split; [done|left; lia].
Qed.

(** A string without the byte [c] ends at its last occurrence. *)
Definition lacks (c : Ascii.ascii) (s : str) : bool :=
  str_forallb (λ d, negb (bool_decide (d = c))) s.

Lemma lacks_app c s t : lacks c (s +:+ String c t) = false.
Proof.
  unfold lacks. rewrite str_forallb_app. simpl. rewrite bool_decide_eq_true_2 by done.
  simpl. apply andb_false_r.
Qed.

Lemma split_last c a b s t :
  lacks c s = true → lacks c t = true → a +:+ String c s = b +:+ String c t → a = b ∧ s = t.
Proof.
  intros Hs Ht. revert b. induction a as [|x a IH]; intros [|y b]; simpl.
  - by intros [= ->].
  - intros [= -> ->]. by rewrite lacks_app in Hs.
  - intros [= -> <-]. by rewrite lacks_app in Ht.
  - intros [= -> H]. by destruct (IH b H) as [-> ->].
Qed.

Lemma split_first c a b s t :
  lacks c a = true → lacks c b = true → a +:+ String c s = b +:+ String c t → a = b ∧ s = t.
Proof.
  unfold lacks. revert b. induction a as [|x a IH]; intros [|y b]; simpl.
  - by intros _ _ [= ->].
  - intros _ Hb [= <- _]. by rewrite bool_decide_eq_true_2 in Hb.
  - intros Ha _ [= -> _]. by rewrite bool_decide_eq_true_2 in Ha.
  - intros [_ Ha]%andb_true_iff [_ Hb]%andb_true_iff [= -> H].
    by destruct (IH b Ha Hb H) as [-> ->].
Qed.

Lemma itoa_chars z (p : Ascii.ascii → bool) :
  p "-"%char = true → (∀ c, is_digit c = true → p c = true) → str_forallb p (itoa z) = true.
Proof.
  intros Hm Hd. destruct (Z.neg_nonneg_cases z) as [Hz|Hz].
  - rewrite itoa_neg by done. simpl. rewrite Hm. simpl.
    eapply str_forallb_impl; [exact Hd|]. apply itoa_digits. lia.
  - eapply str_forallb_impl; [exact Hd|]. by apply itoa_digits.
Qed.

Lemma itoa_nonempty z : itoa z ≠ "".
Proof.
  unfold itoa, NilZero.string_of_int. destruct (Z.to_int z) as [d|d]; [|done].
  by destruct d.
Qed.

Lemma digits_value_acc d p :
  digits_value (Z.pos p) (NilEmpty.string_of_uint d) = Z.pos (Pos.of_uint_acc d p).
Proof.
  revert p. induction d; intros p; [done|..]; cbn -[Z.mul Z.add Pos.mul Pos.add];
    rewrite <-IHd; f_equal; cbn -[Z.mul Z.add Pos.mul Pos.add];
    change (byte_of _ - 48) with 0 || change (byte_of _ - 48) with 1 ||
    change (byte_of _ - 48) with 2 || change (byte_of _ - 48) with 3 ||
    change (byte_of _ - 48) with 4 || change (byte_of _ - 48) with 5 ||
    change (byte_of _ - 48) with 6 || change (byte_of _ - 48) with 7 ||
    change (byte_of _ - 48) with 8 || change (byte_of _ - 48) with 9; lia.
Qed.

Lemma digits_value_uint d :
  digits_value 0 (NilEmpty.string_of_uint d) = Z.of_N (Pos.of_uint d).
Proof.
  induction d; [done|exact IHd|..]; cbn -[digits_value];
    match goal with |- digits_value 0 (String ?c _) = _ =>
      cbn [digits_value]; apply (digits_value_acc d) end.
Qed.

Lemma digits_value_itoa z : 0 ≤ z → digits_value 0 (itoa z) = z.
Proof.
  intros Hz. rewrite itoa_nonneg by done.
  assert (∀ d, d ≠ Decimal.Nil →
    NilZero.string_of_uint d = NilEmpty.string_of_uint d) as -> by (by intros []).
  2: { destruct (Z.to_N z); [done|]. apply DecimalPos.Unsigned.to_uint_nonnil. }
  rewrite digits_value_uint. change (Z.of_N (N.of_uint (N.to_uint (Z.to_N z))) = z).
  rewrite DecimalN.Unsigned.of_to. lia.
Qed.

(** A run of digits followed by a non-digit splits in one way. *)
Lemma digits_split d1 d2 c s1 s2 :
  str_forallb is_digit d1 = true → str_forallb is_digit d2 = true →
  is_digit c = false →
  d1 +:+ String c s1 = d2 +:+ String c s2 → d1 = d2 ∧ s1 = s2.
Proof.
  intros H1 H2 Hc. revert d2 H2. induction d1 as [|a d1 IH]; intros [|b d2] H2; simpl in *.
  - by intros [= ->].
  - intros [= -> _]. simpl in H2. by rewrite Hc in H2.
  - intros [= -> _]. by rewrite Hc in H1.
  - intros [= -> Heq]. apply andb_true_iff in H1 as [_ H1], H2 as [_ H2].
    destruct (IH H1 d2 H2 Heq) as [-> ->]. done.
Qed.

(** The length prefix makes the field boundary part of the bytes. *)
Lemma len_prefixed_inj s1 s2 r1 r2 :
  len_prefixed s1 +:+ r1 = len_prefixed s2 +:+ r2 → s1 = s2 ∧ r1 = r2.
Proof.
  unfold len_prefixed. rewrite !str_app_assoc. simpl. intros H.
  apply digits_split in H as [Hl Hs]; [|by apply itoa_digits, slen_nonneg..|done].
  apply itoa_inj_nonneg in Hl; [|apply slen_nonneg..].
  apply str_app_inj_len in Hs; [done|]. unfold slen in Hl. lia.
Qed.

Lemma len_prefixed_cons_ne s r : len_prefixed s +:+ r ≠ "".
Proof.
  unfold len_prefixed. rewrite !str_app_assoc. destruct (itoa (slen s)); done.
Qed.

Lemma len_prefixed_all_inj l1 l2 :
  length l1 = length l2 → ∀ r1 r2,
  len_prefixed_all l1 +:+ r1 = len_prefixed_all l2 +:+ r2 → l1 = l2 ∧ r1 = r2.
Proof.
  revert l2. induction l1 as [|s l1 IH]; intros [|t l2] Hl r1 r2; simpl; try done.
  rewrite !str_app_assoc. intros [-> H]%len_prefixed_inj.
  destruct (IH l2 ltac:(simpl in Hl; lia) r1 r2 H) as [-> ->]. done.
Qed.

(** ** Sorting, [slices.Sort] on strings *)

(** The bytewise order on strings, reflexive. *)
Definition str_leb (a b : str) : bool := negb (str_ltb b a).

Fixpoint insert_key (k : str) (l : list str) : list str :=
  match l with
  | [] => [k]
  | x :: l' => if str_leb k x then k :: x :: l' else x :: insert_key k l'
  end.

Definition sort_keys (l : list str) : list str := foldr insert_key [] l.

Lemma insert_key_perm k l : insert_key k l ≡ₚ k :: l.
Proof.
  induction l as [|x l IH]; [done|]. simpl. destruct (str_leb k x); [done|].
  rewrite IH. apply perm_swap.
Qed.

Lemma sort_keys_perm l : sort_keys l ≡ₚ l.
Proof. induction l as [|k l IH]; [done|]. simpl. by rewrite insert_key_perm, IH. Qed.

Lemma insert_key_sorted k l :
  k ∉ l → StronglySorted str_ltb l → StronglySorted str_ltb (insert_key k l).
Proof.
  induction l as [|x l IH]; intros Hk Hs; simpl.
  { repeat constructor. }
  apply not_elem_of_cons in Hk as [Hne Hk]. inversion Hs as [|? ? Hs' Hx]; subst.
  unfold str_leb. destruct (str_ltb x k) eqn:Exk; simpl.
  - constructor; [by apply IH|]. rewrite insert_key_perm. by constructor; [rewrite Exk|].
  - assert (str_ltb k x = true) as Hkx.
    { rewrite (str_ltb_flip x k) by done. by rewrite Exk. }
    constructor; [done|]. constructor; [by rewrite Hkx|].
    eapply Forall_impl; [exact Hx|]. simpl. intros y Hy. apply Is_true_true.
    eapply str_ltb_trans; [done|]. by apply Is_true_true.
Qed.

Lemma sort_keys_sorted l : NoDup l → StronglySorted str_ltb (sort_keys l).
Proof.
  induction 1 as [|k l Hk _ IH]; [constructor|]. simpl. apply insert_key_sorted; [|done].
  by rewrite sort_keys_perm.
Qed.

(** Where equal strings are indistinguishable, the result depends on the
    elements only. *)
Lemma insert_key_comm a b l : insert_key a (insert_key b l) = insert_key b (insert_key a l).
Proof.
  destruct (decide (a = b)) as [->|Hab]; [done|].
  pose proof (str_ltb_flip a b Hab) as Hflip. destruct (str_ltb a b) eqn:Eab; simpl in Hflip;
    (induction l as [|x l IH];
     [|destruct (str_ltb x b) eqn:Exb, (str_ltb x a) eqn:Exa;
       try (by rewrite (str_ltb_trans _ _ _ Exa Eab) in Exb);
       try (by rewrite (str_ltb_trans _ _ _ Exb Hflip) in Exa)]);
    repeat progress (simpl; unfold str_leb; rewrite ?Exb, ?Exa, ?Eab, ?Hflip); by rewrite ?IH.
Qed.

Lemma sort_keys_eq l1 l2 : sort_keys l1 = sort_keys l2 ↔ l1 ≡ₚ l2.
Proof.
  split; [intros E; by rewrite <-(sort_keys_perm l1), E, sort_keys_perm|].
  induction 1 as [|x l1 l2 _ IH|x y l|l1 l2 l3 _ IH1 _ IH2]; simpl; [done|by rewrite IH|apply insert_key_comm|by rewrite IH1].
Qed.
