(* ===== verification/Paths.v ===== *)
(** * Slash-separated paths, of file systems and of URLs

    The standard library's Clean, Join and Dir, as the content code uses them:
    a path is cleaned component by component, on a stack.  A cleaned path is
    kept as its key, the list of its components, so that a file system is a
    map from keys.  Module GoUrl has the paths of URLs, as net/url and net/http
    give them. *)

From Stdlib Require Import Ascii.
From S2P Require Import Prelude GoString.

Module Paths.

Definition slash : ascii := "/"%char.

Fixpoint split_slash (s : str) : list str :=
  match s with
  | EmptyString => [""]
  | String c s =>
      if bool_decide (c = slash) then "" :: split_slash s
      else match split_slash s with [] => [String c ""] | w :: l => String c w :: l end
  end.

Definition IsAbs (s : str) : bool := has_prefix s "/".

(** One component; the stack's top is the path's end. *)
Definition clean_step (rooted : bool) (stack : list str) (c : str) : list str :=
  if bool_decide (c = "") || bool_decide (c = ".") then stack
  else if bool_decide (c = "..") then
    match stack with
    | [] => if rooted then [] else [".."]
    | top :: below => if bool_decide (top = "..") then ".." :: stack else below
    end
  else c :: stack.

Definition clean_stack (s : str) : list str := foldl (clean_step (IsAbs s)) [] (split_slash s).

Definition clean_parts (s : str) : list str := reverse (clean_stack s).

Definition unparse (rooted : bool) (parts : list str) : str :=
  if rooted then "/" +:+ str_join parts "/" else match parts with [] => "." | _ => str_join parts "/" end.

Definition Clean (s : str) : str := unparse (IsAbs s) (clean_parts s).

(** [filepath.Join]: empty elements are ignored. *)
Definition Join (elems : list str) : str :=
  match filter (λ e, e ≠ "") elems with [] => "" | l => Clean (str_join l "/") end.

(** [filepath.Dir]: the path up to its last slash, cleaned. *)
Definition Dir (s : str) : str :=
  let dir := str_join (removelast (split_slash s)) "/" in
  if IsAbs s then Clean ("/" +:+ dir) else Clean dir.

(** Where a path leads; a rooted one starts with the root. *)
Definition key (s : str) : list str := (if IsAbs s then ["/"] else []) ++ clean_parts s.

(** ** Lemmas *)

Lemma split_slash_nonempty s : split_slash s ≠ [].
Proof. destruct s as [|c s]; [done|]. simpl. case_bool_decide; [done|]. by destruct (split_slash s). Qed.

Lemma split_slash_app a b : split_slash (a +:+ String slash b) = split_slash a ++ split_slash b.
Proof.
  induction a as [|c a IH]; [done|]. simpl. rewrite IH. case_bool_decide; [done|].
  pose proof (split_slash_nonempty a). by destruct (split_slash a).
Qed.

(** Above a bottom of dot-dots there are none. *)
Definition dots_below (stack : list str) : Prop := ∃ own k, stack = own ++ replicate k ".." ∧ ".." ∉ own.

Lemma clean_step_below r stack c : dots_below stack → dots_below (clean_step r stack c).
Proof.
  intros (own & k & -> & Hown). unfold clean_step.
  destruct (bool_decide (c = "") || bool_decide (c = ".")); [by exists own, k|].
  case_bool_decide as Hc; [|exists (c :: own), k; split; [done|set_solver]].
  destruct own as [|top own]; simpl; [|case_bool_decide as Ht; [subst; set_solver|exists own, k; set_solver]].
  destruct k as [|k]; simpl; [destruct r; [by exists [], 0%nat|by exists [], 1%nat; split; [|set_solver]]|].
  exists [], (S (S k)). split; [done|set_solver].
Qed.

Lemma clean_below r l : ∀ stack, dots_below stack → dots_below (foldl (clean_step r) stack l).
Proof. induction l as [|c l IH]; intros stack H; [done|]. simpl. by apply IH, clean_step_below. Qed.

Lemma dots_stay r l : ∀ stack, ".." ∈ stack → ".." ∈ foldl (clean_step r) stack l.
Proof.
  induction l as [|c l IH]; intros stack H; [done|]. simpl. apply IH. unfold clean_step.
  destruct (bool_decide (c = "") || bool_decide (c = ".")); [done|].
  case_bool_decide; [|set_solver]. destruct stack as [|top below]; [set_solver|].
  case_bool_decide; [set_solver|]. apply elem_of_cons in H as [?|?]; [congruence|done].
Qed.

Lemma clean_step_onto r own base c :
  (own ≠ [] ∨ c ≠ "..") → clean_step r (own ++ base) c = clean_step false own c ++ base.
Proof.
  intros H. unfold clean_step. destruct (bool_decide (c = "") || bool_decide (c = ".")); [done|].
  case_bool_decide; [|done]. destruct own as [|top own]; [naive_solver|]. simpl. by case_bool_decide.
Qed.

(** A path that never climbs above its start is appended to where it starts. *)
Lemma clean_onto r base l : ∀ own,
  ".." ∉ foldl (clean_step false) own l → foldl (clean_step r) (own ++ base) l = foldl (clean_step false) own l ++ base.
Proof.
  induction l as [|c l IH]; intros own H; [done|]. cbn [foldl] in *.
  rewrite <- IH by done. f_equal. apply clean_step_onto.
  destruct own; [|by left]. right. intros ->. apply H, dots_stay. set_solver.
Qed.

Definition climbs (s : str) : bool := bool_decide (s = "..") || has_prefix s "../".

Lemma str_join_cons x y l : str_join (x :: y :: l) "/" = x +:+ "/" +:+ str_join (y :: l) "/".
Proof. done. Qed.

(** What [Clean] does not show climbing holds no dot-dot. *)
Lemma clean_inside s : IsAbs s = false → climbs (Clean s) = false → ".." ∉ clean_stack s.
Proof.
  intros Ha Hc Hin. unfold Clean, clean_parts, clean_stack in *. rewrite Ha in *. simpl in Hc.
  destruct (clean_below false (split_slash s) []) as (own & k & Heq & Hown); [by exists [], 0%nat; split; [|set_solver]|].
  rewrite Heq in *. destruct k as [|k]; [simpl in Hin; rewrite app_nil_r in Hin; done|].
  assert (reverse (own ++ replicate (S k) "..") = ".." :: replicate k ".." ++ reverse own) as Hr.
  { rewrite reverse_app, reverse_replicate. done. }
  rewrite Hr in Hc. cbn [app] in Hc. destruct (replicate k ".." ++ reverse own) as [|y l] eqn:E.
  - simpl in Hc. discriminate Hc.
  - unfold unparse in Hc. rewrite str_join_cons in Hc. unfold climbs in Hc. apply orb_false_iff in Hc as [_ Hc].
    rewrite <- str_app_assoc in Hc. by rewrite has_prefix_app in Hc.
Qed.

Lemma IsAbs_app a b : a ≠ "" → IsAbs (a +:+ b) = IsAbs a.
Proof. destruct a as [|c a]; [done|]. intros _. unfold IsAbs. simpl. by rewrite !andb_true_r || by destruct (a +:+ b), a. Qed.

(** The key of a cleaned path is the path's. *)
Definition plain (c : str) : Prop := lacks slash c = true ∧ c ≠ "" ∧ c ≠ ".".

Lemma plain_dots : plain "..".
Proof. by split. Qed.
#[local] Hint Resolve plain_dots : core.

Lemma split_slash_plain s : Forall (λ c, lacks slash c = true) (split_slash s).
Proof.
  induction s as [|c s IH]; simpl; [by repeat constructor|]. case_bool_decide as Hc; [by constructor|].
  destruct (split_slash s) as [|w l]; [constructor; [|done]|inversion IH; subst; constructor; [|done]];
    unfold lacks in *; simpl; rewrite bool_decide_eq_false_2 by done; done.
Qed.

Lemma clean_plain r l : ∀ stack,
  Forall (λ c, lacks slash c = true) l → Forall plain stack → Forall plain (foldl (clean_step r) stack l).
Proof.
  induction l as [|c l IH]; intros stack Hl Hs; [done|]. inversion Hl as [|? ? Hc Hl']; subst. simpl. apply IH; [done|].
  unfold clean_step. repeat case_bool_decide; simpl; try done.
  - destruct stack as [|top below]; [destruct r; [done|by constructor]|].
    case_bool_decide; [by constructor|by inversion Hs].
  - by constructor.
Qed.

Lemma lacks_split c : lacks slash c = true → split_slash c = [c].
Proof.
  induction c as [|d c IH]; [done|]. unfold lacks. simpl. case_bool_decide; [done|]. simpl. intros Hl.
  by rewrite IH.
Qed.

Lemma split_join parts : parts ≠ [] → Forall (λ c, lacks slash c = true) parts → split_slash (str_join parts "/") = parts.
Proof.
  induction parts as [|x parts IH]; [done|]. intros _ H. inversion H as [|? ? Hx Hp]; subst.
  destruct parts as [|y parts]; [by apply lacks_split|].
  rewrite str_join_cons. change ("/" +:+ str_join (y :: parts) "/") with (String slash (str_join (y :: parts) "/")).
  rewrite split_slash_app, lacks_split by done. rewrite IH by done. done.
Qed.

Lemma clean_parts_plain s : Forall plain (clean_parts s).
Proof. unfold clean_parts. apply Forall_reverse, clean_plain; [apply split_slash_plain|constructor]. Qed.

Lemma clean_again r l : ∀ own k,
  ".." ∉ l → Forall plain l → (r = true → k = 0%nat) → ".." ∉ own →
  foldl (clean_step r) (own ++ replicate k "..") l = reverse l ++ own ++ replicate k "..".
Proof.
  induction l as [|c l IH]; intros own k Hl Hp Hr Hown; [done|]. inversion Hp as [|? ? (_ & Hc1 & Hc2) Hp']; subst.
  cbn [foldl]. unfold clean_step at 2. rewrite !bool_decide_eq_false_2 by set_solver. cbn [orb].
  change (c :: own ++ replicate k "..") with ((c :: own) ++ replicate k ".."). rewrite IH by set_solver.
  by rewrite reverse_cons, <- app_assoc.
Qed.

Lemma clean_dots k : foldl (clean_step false) [] (replicate k "..") = replicate k "..".
Proof.
  assert (∀ j, foldl (clean_step false) (replicate j "..") (replicate k "..") = replicate (k + j) "..") as H.
  { induction k as [|k IH]; intros j; [done|]. simpl. replace (clean_step false (replicate j "..") "..") with (replicate (S j) ".."); [|by destruct j].
    rewrite IH. by rewrite <- Nat.add_succ_comm. }
  etrans; [exact (H 0%nat)|]. f_equal. lia.
Qed.

Lemma rooted_inside l : ∀ stack, ".." ∉ stack → ".." ∉ foldl (clean_step true) stack l.
Proof.
  induction l as [|c l IH]; intros stack H; [done|]. cbn [foldl]. apply IH. unfold clean_step.
  destruct (bool_decide (c = "") || bool_decide (c = ".")); [done|]. case_bool_decide; [|set_solver].
  destruct stack as [|top below]; [set_solver|]. case_bool_decide; [subst|]; set_solver.
Qed.

(** A cleaned path is clean. *)
Lemma clean_parts_again s : foldl (clean_step (IsAbs s)) [] (clean_parts s) = clean_stack s.
Proof.
  unfold clean_parts, clean_stack. destruct (IsAbs s).
  - set (st := foldl _ [] (split_slash s)). assert (".." ∉ st) as Hd by (apply rooted_inside; set_solver).
    assert (Forall plain st) as Hp by (apply clean_plain; [apply split_slash_plain|constructor]).
    etrans; [apply (clean_again true (reverse st) [] 0); [by rewrite elem_of_reverse|by apply Forall_reverse|done|set_solver]|].
    by rewrite reverse_involutive, app_nil_r.
  - set (st := foldl _ [] (split_slash s)).
    assert (dots_below st) as (own & k & Heq & Hown) by (apply clean_below; by exists [], 0%nat; split; [|set_solver]).
    assert (Forall plain st) as Hp by (apply clean_plain; [apply split_slash_plain|constructor]).
    rewrite Heq in *. apply Forall_app in Hp as [Hp _].
    rewrite reverse_app, reverse_replicate, foldl_app, clean_dots.
    etrans; [apply (clean_again false (reverse own) [] k); [by rewrite elem_of_reverse|by apply Forall_reverse|done|set_solver]|].
    by rewrite reverse_involutive.
Qed.

Lemma unparse_abs r parts : Forall plain parts → IsAbs (unparse r parts) = r.
Proof.
  intros Hp. destruct r; [apply (has_prefix_app "/")|]. destruct parts as [|x parts]; [done|].
  apply Forall_cons in Hp as [(Hl & Hn & _) _].
  assert (∀ t, IsAbs (x +:+ t) = false) as Hx.
  { intros t. destruct x as [|c x]; [done|]. unfold lacks in Hl. simpl in Hl. unfold IsAbs. simpl.
    apply andb_true_iff in Hl as [Hl _]. apply negb_true_iff, bool_decide_eq_false in Hl. by rewrite bool_decide_eq_false_2. }
  destruct parts as [|y parts]; [|apply Hx]. specialize (Hx ""). by rewrite str_app_nil_r in Hx.
Qed.

(** Components as they are read off [unparse]. *)
Lemma split_unparse (r : bool) parts : Forall plain parts → parts ≠ [] →
  split_slash (unparse r parts) = (if r then [""] else []) ++ parts.
Proof.
  intros Hp Hn. assert (Forall (λ c, lacks slash c = true) parts) as Hl by (eapply Forall_impl; [exact Hp|by intros ? []]).
  unfold unparse. destruct r.
  - change ("/" +:+ str_join parts "/") with ("" +:+ String slash (str_join parts "/")). by rewrite split_slash_app, split_join.
  - destruct parts; [done|]. by rewrite split_join.
Qed.

Lemma key_Clean s : key (Clean s) = key s.
Proof.
  pose proof (clean_parts_plain s) as Hp. pose proof (clean_parts_again s) as Ha.
  unfold key, Clean. rewrite unparse_abs by done. f_equal.
  unfold clean_parts at 1, clean_stack. rewrite unparse_abs by done.
  destruct (decide (clean_parts s = [])) as [E|E]; [rewrite E; by destruct (IsAbs s)|].
  rewrite split_unparse by done. rewrite foldl_app.
  replace (foldl (clean_step (IsAbs s)) [] (if IsAbs s then [""] else [])) with (@nil str) by (by destruct (IsAbs s)).
  by rewrite Ha.
Qed.

Lemma split_suffix sfx : ∀ a, lacks slash sfx = true →
  ∃ l w, split_slash a = l ++ [w] ∧ split_slash (a +:+ sfx) = l ++ [w +:+ sfx].
Proof.
  intros a Hs. induction a as [|c a (l & w & E1 & E2)]; [exists [], ""; split; [done|by apply lacks_split]|].
  simpl. rewrite E1, E2. case_bool_decide; [by exists ("" :: l), w|].
  destruct l as [|x l]; simpl; [by exists [], (String c w)|by exists (String c x :: l), w].
Qed.

(** A path with a last component: its parts, and those before it clean. *)
Lemma key_last s parent n :
  key s = parent ++ [n] → n ≠ ".." → n ≠ "/" →
  ∃ ps, clean_parts s = ps ++ [n] ∧ parent = (if IsAbs s then ["/"] else []) ++ ps ∧ foldl (clean_step (IsAbs s)) [] ps = reverse ps.
Proof.
  intros Hk Hn Hroot. unfold key in Hk. pose proof (clean_parts_plain s) as Hp. pose proof (clean_parts_again s) as Ha.
  assert (∃ ps, clean_parts s = ps ++ [n] ∧ parent = (if IsAbs s then ["/"] else []) ++ ps) as (ps & Hps & ->).
  { destruct (decide (clean_parts s = [])) as [E|E]; [rewrite E, app_nil_r in Hk; destruct (IsAbs s);
      [apply (app_inj_tail [] parent "/" n) in Hk as [_ Hk]; congruence|by destruct parent]|].
    destruct (exists_last E) as (ps & x & Ex). rewrite Ex in *. rewrite app_assoc in Hk.
    apply app_inj_tail in Hk as [<- <-]. by exists ps. }
  exists ps. split; [done|]. split; [done|]. rewrite Hps in *.
  apply Forall_app in Hp as [_ Hp]. apply Forall_singleton in Hp as (_ & Hne & Hdot).
  unfold clean_parts in Hps. rewrite foldl_app in Ha. cbn [foldl] in Ha.
  rewrite <- (reverse_involutive (clean_stack s)), Hps, reverse_app in Ha.
  unfold clean_step at 1 in Ha. rewrite !bool_decide_eq_false_2 in Ha by done. cbn [orb] in Ha. simpl in Ha. by injection Ha.
Qed.

Lemma skip_root (r : bool) : foldl (clean_step r) [] (if r then [""] else []) = [].
Proof. by destruct r. Qed.

(** The parts, as they stand in the cleaned path. *)
Lemma split_Clean s : clean_parts s ≠ [] → split_slash (Clean s) = (if IsAbs s then [""] else []) ++ clean_parts s.
Proof. intros H. unfold Clean. by rewrite split_unparse by (done || apply clean_parts_plain). Qed.

Lemma IsAbs_Clean s : IsAbs (Clean s) = IsAbs s.
Proof. unfold Clean. apply unparse_abs, clean_parts_plain. Qed.

Lemma Clean_nonempty s : Clean s ≠ "".
Proof.
  pose proof (clean_parts_plain s) as Hp. unfold Clean, unparse. destruct (IsAbs s); [done|].
  destruct (clean_parts s) as [|x l]; [done|]. apply Forall_cons in Hp as [(_ & Hn & _) _].
  destruct x; [done|]. by destruct l.
Qed.

(** A sibling of a cleaned path, named after it. *)
Lemma key_sibling s parent n sfx :
  key s = parent ++ [n] → n ≠ ".." → n ≠ "/" → lacks slash sfx = true → (2 ≤ String.length sfx)%nat →
  key (Clean s +:+ sfx) = parent ++ [n +:+ sfx].
Proof.
  intros Hk Hn Hroot Hs Hlen. destruct (key_last s parent n Hk Hn Hroot) as (ps & Hps & -> & Hpre).
  pose proof (clean_parts_plain s) as Hp. rewrite Hps in Hp. apply Forall_app in Hp as [_ Hp]. apply Forall_singleton in Hp as (_ & Hne & _).
  destruct (split_suffix sfx (Clean s) Hs) as (l & w & E1 & E2).
  rewrite split_Clean in E1 by (rewrite Hps; by destruct ps). rewrite Hps, app_assoc in E1. apply app_inj_tail in E1 as [<- <-].
  unfold key, clean_parts, clean_stack. rewrite IsAbs_app, IsAbs_Clean by apply Clean_nonempty.
  rewrite <- app_assoc. f_equal. rewrite E2, !foldl_app, skip_root, Hpre. cbn [foldl]. unfold clean_step.
  assert (∀ t, (String.length t ≤ 2)%nat → n +:+ sfx ≠ t) as Hlong.
  { intros t Ht E. apply (f_equal String.length) in E. rewrite str_length_app in E.
    assert (String.length n ≠ 0)%nat by (by destruct n). lia. }
  rewrite !bool_decide_eq_false_2 by (apply Hlong; simpl; lia). cbn [orb]. by rewrite reverse_cons, reverse_involutive.
Qed.

(** The directory of a cleaned path. *)
Lemma key_Dir s parent n : key s = parent ++ [n] → n ≠ ".." → n ≠ "/" → key (Dir (Clean s)) = parent.
Proof.
  intros Hk Hn Hroot. destruct (key_last s parent n Hk Hn Hroot) as (ps & Hps & -> & Hpre).
  pose proof (clean_parts_plain s) as Hp. rewrite Hps in Hp. apply Forall_app in Hp as [Hp _].
  unfold Dir. rewrite IsAbs_Clean, split_Clean by (rewrite Hps; by destruct ps).
  rewrite Hps, app_assoc, removelast_last. destruct (IsAbs s) eqn:EA; rewrite key_Clean; unfold key, clean_parts, clean_stack.
  - assert (IsAbs ("/" +:+ str_join ([""] ++ ps) "/") = true) as -> by apply (has_prefix_app "/"). f_equal.
    change ("/" +:+ ?t) with ("" +:+ String slash t). rewrite split_slash_app, split_join.
    + change (reverse (foldl (clean_step true) [] ps) = ps). by rewrite Hpre, reverse_involutive.
    + done.
    + constructor; [done|]. eapply Forall_impl; [exact Hp|by intros ? []].
  - cbn [app]. destruct ps as [|x ps]; [done|].
    pose proof (unparse_abs false (x :: ps) Hp) as HA. unfold unparse in HA. rewrite HA. cbn [app].
    rewrite split_join, Hpre; [by rewrite reverse_involutive|done|]. eapply Forall_impl; [exact Hp|by intros ? []].
Qed.

(** A path below [dir]: its parts are those of [dir] and its own. *)
Lemma parts_below dir name :
  dir ≠ "" → IsAbs name = false → climbs (Clean name) = false →
  clean_parts (dir +:+ String slash name) = clean_parts dir ++ clean_parts name.
Proof.
  intros Hd Ha Hc. unfold clean_parts. rewrite <- reverse_app. f_equal.
  pose proof (clean_inside name Ha Hc) as Hin. unfold clean_stack in *. rewrite Ha in *.
  rewrite IsAbs_app by done. rewrite split_slash_app, foldl_app.
  by apply (clean_onto _ _ _ []).
Qed.

Lemma key_below dir name :
  dir ≠ "" → IsAbs name = false → climbs (Clean name) = false →
  key (dir +:+ String slash name) = key dir ++ clean_parts name.
Proof. intros Hd Ha Hc. unfold key. by rewrite parts_below, IsAbs_app, app_assoc. Qed.

End Paths.

(** * URL paths, as net/url and net/http give them

    The client of the gateway builds its request with [url.JoinPath], and the
    server routes it with [http.ServeMux]: the escaping of a path, the
    cleaning on both sides, and the segments a pattern is matched against.  A
    URL is its escaped path; scheme, host and query are fixed by the caller. *)

Module GoUrl.
Import Paths.

(** ** Escaping *)

Definition unhex (c : ascii) : option Z :=
  let b := byte_of c in
  if is_digit c then Some (b - 48)
  else if (97 <=? b) && (b <=? 102) then Some (b - 87)
  else if (65 <=? b) && (b <=? 70) then Some (b - 55)
  else None.

Fixpoint unescape (s : str) : option str :=
  match s with
  | EmptyString => Some ""
  | String c rest =>
      if bool_decide (c = "%"%char) then
        match rest with
        | String a (String b rest) =>
            match unhex a, unhex b with
            | Some x, Some y => String (ascii_of (16 * x + y)) <$> unescape rest
            | _, _ => None
            end
        | _ => None
        end
      else String c <$> unescape rest
  end.

Definition one_of (l : str) (c : ascii) : bool := negb (lacks c l).

(** The bytes [shouldEscape] leaves alone in a path. *)
Definition path_byte (c : ascii) : bool :=
  let b := byte_of c in
  is_digit c || (97 <=? b) && (b <=? 122) || (65 <=? b) && (b <=? 90) || one_of "-_.~$&+,/:;=@" c.

Definition upper_hex (n : Z) : ascii := ascii_of (if n <? 10 then 48 + n else 55 + n).

Fixpoint escape (s : str) : str :=
  match s with
  | EmptyString => ""
  | String c s =>
      if path_byte c then String c (escape s)
      else String "%"%char (String (upper_hex (byte_of c / 16)) (String (upper_hex (byte_of c mod 16)) (escape s)))
  end.

Definition validEncoded (s : str) : bool := str_forallb (λ c, path_byte c || one_of "!'()*[]%" c) s.

(** ** The client

    [JoinPath] of a URL with a host, and the path its string is requested by.
    An element is taken as escaped; what does not unescape leaves the URL as
    it was.  The last element here has no slash at its end. *)
Definition JoinPath (base : str) (elems : list str) : str :=
  let p := Join ((if IsAbs base then base else "/" +:+ base) :: elems) in
  match unescape p with
  | None => if bool_decide (base = "") then "/" else base
  | Some q => if validEncoded p then p else escape q
  end.

(** ** The server *)

Definition ends_in_slash (p : str) : bool := bool_decide (last (split_slash p) = Some "").

Definition cleanPath (p : str) : str :=
  if bool_decide (p = "") then "/" else
  let p := if IsAbs p then p else "/" +:+ p in
  let np := Clean p in
  if ends_in_slash p && negb (bool_decide (np = "/")) then np +:+ "/" else np.

Definition pathUnescape (s : str) : str := default s (unescape s).

(** The segments of a path, each unescaped on its own. *)
Definition segments (p : str) : list str := pathUnescape <$> tail (split_slash p).

(** ** Lemmas *)

Lemma unescape_cons c s : c ≠ "%"%char → unescape (String c s) = String c <$> unescape s.
Proof. intros H. simpl. by rewrite bool_decide_eq_false_2. Qed.

Lemma unhex_slash : unhex slash = None.
Proof. reflexivity. Qed.

(** A slash is never a part of an escape. *)
Lemma unescape_slash a b :
  unescape (a +:+ String slash b) = x ← unescape a; y ← unescape b; Some (x +:+ String slash y).
Proof.
  remember (String.length a) as n eqn:Hn. revert a Hn. induction (lt_wf n) as [n _ IH]. intros a ->.
  destruct a as [|c a].
  - change ("" +:+ String slash b) with (String slash b). rewrite unescape_cons by done. simpl. by destruct (unescape b).
  - destruct (decide (c = "%"%char)) as [->|Hc].
    + change (String "%" a +:+ String slash b) with (String "%"%char (a +:+ String slash b)).
      cbn [unescape]. rewrite bool_decide_eq_true_2 by done.
      destruct a as [|h a].
      * cbn [String.append]. destruct b as [|d b]; [done|]. by rewrite unhex_slash.
      * destruct a as [|l a]; [cbn [String.append]; rewrite unhex_slash; by destruct (unhex h)|].
        change (String h (String l a) +:+ String slash b) with (String h (String l (a +:+ String slash b))). cbv iota.
        destruct (unhex h); [|done]. destruct (unhex l); [|done].
        rewrite (IH (String.length a)) by (simpl; lia || done).
        destruct (unescape a); [|done]. simpl. by destruct (unescape b).
    + change (String c a +:+ String slash b) with (String c (a +:+ String slash b)). rewrite !unescape_cons by done.
      rewrite (IH (String.length a)) by (simpl; lia || done). destruct (unescape a); [|done]. simpl. by destruct (unescape b).
Qed.

Lemma path_byte_percent : path_byte "%" = false.
Proof. reflexivity. Qed.

Lemma unescape_plain s : str_forallb path_byte s = true → unescape s = Some s.
Proof.
  induction s as [|c s IH]; [done|]. cbn [str_forallb]. intros [Hc Hs]%andb_true_iff.
  rewrite unescape_cons by (intros ->; by rewrite path_byte_percent in Hc). by rewrite IH.
Qed.

Lemma escape_plain s : str_forallb path_byte s = true → escape s = s.
Proof. induction s as [|c s IH]; [done|]. cbn [str_forallb escape]. intros [-> Hs]%andb_true_iff. by rewrite IH. Qed.

Lemma escape_app a b : escape (a +:+ b) = escape a +:+ escape b.
Proof. induction a as [|c a IH]; [done|]. cbn. rewrite IH. by destruct (path_byte c). Qed.

(** A path unescapes exactly if every one of its components does. *)
Lemma unescape_split s : is_Some (unescape s) ↔ Forall (λ c, is_Some (unescape c)) (split_slash s).
Proof.
  remember (split_slash s) as l eqn:Hl. revert s Hl. induction l as [|w l IH]; intros s Hl; [by destruct (split_slash_nonempty s)|].
  assert ((l = [] ∧ s = w) ∨ ∃ rest, s = w +:+ String slash rest ∧ split_slash rest = l) as [[-> ->]|(rest & -> & Hr)].
  { clear IH. revert w l Hl. induction s as [|c s IH]; intros w l Hl; [injection Hl as -> ->; by left|].
    cbn [split_slash] in Hl. case_bool_decide as Hc.
    - injection Hl as -> ->. right. exists s. subst c. done.
    - destruct (split_slash s) as [|v m] eqn:E; [by destruct (split_slash_nonempty s)|]. injection Hl as -> ->.
      destruct (IH v m eq_refl) as [[-> ->]|(rest & -> & Hr)]; [by left|right; by exists rest]. }
  - by rewrite Forall_singleton.
  - rewrite unescape_slash, Forall_cons, <- (IH rest) by done.
    destruct (unescape w), (unescape rest); simpl; split; intros H; try (by destruct H as [? H]); try done;
      try (destruct H as [H1 H2]; try (by destruct H1); try (by destruct H2)).
Qed.

Lemma clean_step_all (P : str → Prop) r stack c : P ".." → Forall P stack → P c → Forall P (clean_step r stack c).
Proof.
  intros Hd Hs Hc. unfold clean_step. destruct (_ || _); [done|]. case_bool_decide; [|by constructor].
  destruct stack as [|top below]; [destruct r; repeat constructor; done|].
  case_bool_decide; [by constructor|by inversion Hs].
Qed.

(** What holds of the components of a path holds of the cleaned one's. *)
Lemma clean_all (P : str → Prop) r l : P ".." → Forall P l → ∀ stack, Forall P stack → Forall P (foldl (clean_step r) stack l).
Proof. intros Hd. induction 1 as [|c l Hc Hl IH]; intros stack Hs; [done|]. cbn [foldl]. by apply IH, clean_step_all. Qed.

(** A component that is neither cleaned nor escaped. *)
Definition segment (c : str) : Prop := plain c ∧ c ≠ ".." ∧ str_forallb path_byte c = true.

Lemma segments_join elems : Forall segment elems → str_forallb path_byte (str_join elems "/") = true.
Proof.
  induction 1 as [|x elems (_ & _ & Hx) He IH]; [done|]. destruct elems as [|y elems]; [done|].
  rewrite str_join_cons, str_forallb_app, Hx. exact IH.
Qed.

Lemma clean_segments elems r : ∀ stack, Forall segment elems → foldl (clean_step r) stack elems = reverse elems ++ stack.
Proof.
  induction elems as [|x elems IH]; intros stack H; [done|]. inversion H as [|? ? ((_ & H1 & H2) & H3 & _) He]; subst.
  cbn [foldl]. rewrite IH by done. unfold clean_step. rewrite !bool_decide_eq_false_2 by done. cbn [orb].
  by rewrite reverse_cons, <- app_assoc.
Qed.

Lemma str_join_app l x m : str_join (l ++ x :: m) "/" = match l with [] => "" | _ => str_join l "/" +:+ "/" end +:+ str_join (x :: m) "/".
Proof.
  induction l as [|y l IH]; [done|]. cbn [app]. destruct l as [|z l]; [cbn [app]; by rewrite str_join_cons, str_app_assoc|].
  change ((z :: l) ++ x :: m) with (z :: (l ++ x :: m)) in *. rewrite str_join_cons. cbn [app] in IH. rewrite IH. rewrite (str_join_cons y z l).
  by rewrite <- !str_app_assoc.
Qed.

(** The cleaned base, then the elements as they are. *)
Lemma Join_segments base elems :
  base ≠ "" → IsAbs base = true → elems ≠ [] → Forall segment elems →
  let A := clean_parts base in
  Join (base :: elems) = match A with [] => "" | _ => "/" +:+ str_join A "/" end +:+ String slash (str_join elems "/").
Proof.
  intros Hb Ha Hne He A.
  assert (filter (λ e, e ≠ "") (base :: elems) = base :: elems) as Hf.
  { rewrite filter_cons_True by done. f_equal. clear -He.
    induction He as [|x l ((_ & Hx & _) & _) _ IH]; [done|]. by rewrite filter_cons_True, IH. }
  unfold Join. rewrite Hf. destruct elems as [|x elems]; [done|]. rewrite str_join_cons.
  change (base +:+ "/" +:+ str_join (x :: elems) "/") with (base +:+ String slash (str_join (x :: elems) "/")).
  unfold Clean. rewrite IsAbs_app, Ha by done. unfold unparse.
  assert (clean_parts (base +:+ String slash (str_join (x :: elems) "/")) = A ++ x :: elems) as ->.
  { unfold clean_parts, clean_stack. rewrite IsAbs_app, Ha, split_slash_app, foldl_app by done.
    rewrite split_join; [|done|eapply Forall_impl; [exact He|by intros ? ((? & _) & _)]].
    rewrite clean_segments by done. rewrite reverse_app, reverse_involutive. unfold A, clean_parts, clean_stack. by rewrite Ha. }
  rewrite str_join_app. destruct A as [|a A]; [done|]. by rewrite !str_app_assoc.
Qed.

(** The elements end the path that is requested, whatever the base. *)
Lemma JoinPath_ends base elems :
  is_Some (unescape base) → elems ≠ [] → Forall segment elems →
  ∃ X, X ≠ [] ∧ split_slash (JoinPath base elems) = X ++ elems.
Proof.
  intros Hu Hne He. unfold JoinPath. set (b := if IsAbs base then base else "/" +:+ base).
  assert (b ≠ "" ∧ IsAbs b = true ∧ is_Some (unescape b)) as (Hb & Ha & Hub).
  { unfold b. destruct (IsAbs base) eqn:E; [split; [by intros ->|done]|]. split; [done|]. split; [apply (has_prefix_app "/")|].
    change ("/" +:+ base) with (String slash base). rewrite unescape_cons by done. destruct Hu as [u ->]. by eexists. }
  rewrite Join_segments by done. set (P := match clean_parts b with [] => "" | _ => _ end). set (J := str_join elems "/").
  pose proof (segments_join elems He) as HJ. fold J in HJ.
  assert (split_slash J = elems) as HsJ by (apply split_join; [done|]; eapply Forall_impl; [exact He|by intros ? ((? & _) & _)]).
  assert (is_Some (unescape P)) as [Q HQ].
  { unfold P. pose proof (clean_parts_plain b) as Hpl.
    assert (Forall (λ c, is_Some (unescape c)) (clean_parts b)) as Hall.
    { unfold clean_parts, clean_stack. apply Forall_reverse, clean_all; [by eexists|by apply unescape_split|constructor]. }
    destruct (clean_parts b) as [|a A]; [by eexists|]. apply unescape_split.
    change ("/" +:+ str_join (a :: A) "/") with ("" +:+ String slash (str_join (a :: A) "/")).
    rewrite split_slash_app, split_join; [constructor; [by eexists|done]|done|eapply Forall_impl; [exact Hpl|by intros ? []]]. }
  rewrite unescape_slash, HQ, (unescape_plain J HJ). cbn [mbind option_bind].
  destruct (validEncoded _).
  - exists (split_slash P). split; [apply split_slash_nonempty|]. by rewrite split_slash_app, HsJ.
  - exists (split_slash (escape Q)). split; [apply split_slash_nonempty|].
    rewrite escape_app. change (escape (String slash J)) with (String slash (escape J)).
    by rewrite (escape_plain J HJ), split_slash_app, HsJ.
Qed.

End GoUrl.
