(* ===== verification/Sha256.v ===== *)
(** * SHA-256

    The program derives every stable identity (deduplication keys, audit
    stable keys, duplicate fingerprints, artifact digests) with
    [crypto/sha256].  This file is FIPS 180-4 on byte strings, executable, and
    checked against the standard's test vectors.  Nothing here claims that two
    inputs cannot collide: the theorems that use it conclude either equal
    inputs or an explicit pair of distinct inputs with one digest. *)

From S2P Require Import Prelude GoString.

Definition w32 (z : Z) : Z := z mod 2 ^ 32.
Definition rotr (n x : Z) : Z :=
  Z.lor (Z.shiftr x n) (w32 (Z.shiftl x (32 - n))).

Definition ch (x y z : Z) : Z := Z.lxor (Z.land x y) (Z.land (2 ^ 32 - 1 - x) z).
Definition maj (x y z : Z) : Z :=
  Z.lxor (Z.lxor (Z.land x y) (Z.land x z)) (Z.land y z).
Definition big_sigma0 (x : Z) : Z := Z.lxor (Z.lxor (rotr 2 x) (rotr 13 x)) (rotr 22 x).
Definition big_sigma1 (x : Z) : Z := Z.lxor (Z.lxor (rotr 6 x) (rotr 11 x)) (rotr 25 x).
Definition small_sigma0 (x : Z) : Z :=
  Z.lxor (Z.lxor (rotr 7 x) (rotr 18 x)) (Z.shiftr x 3).
Definition small_sigma1 (x : Z) : Z :=
  Z.lxor (Z.lxor (rotr 17 x) (rotr 19 x)) (Z.shiftr x 10).

(** FIPS 180-4 derives its constants: the round constants are the first 32
    bits of the fractional parts of the cube roots of the first 64 primes, the
    initial hash those of the square roots of the first eight. *)
Definition is_prime (n : Z) : bool :=
  (1 <? n) && forallb (λ d, negb (n mod Z.of_nat d =? 0)) (seq 2 (Z.to_nat n - 2)).

Definition primes : list Z :=
  Eval vm_compute in List.filter is_prime (map Z.of_nat (seq 2 310)).

(** The integer cube root of [n], one bit of the root after the other. *)
Fixpoint cube_root (bits : nat) (root n : Z) : Z :=
  match bits with
  | O => root
  | S b =>
      let root' := root + 2 ^ Z.of_nat b in
      cube_root b (if root' * root' * root' <=? n then root' else root) n
  end.

Definition round_constants : list Z :=
  Eval vm_compute in map (λ p, cube_root 40 0 (p * 2 ^ 96) mod 2 ^ 32) (take 64 primes).

Definition initial_hash : list Z :=
  Eval vm_compute in map (λ p, Z.sqrt (p * 2 ^ 64) mod 2 ^ 32) (take 8 primes).

(** The message schedule, newest word first. *)
Fixpoint schedule (n : nat) (ws : list Z) : list Z :=
  match n with
  | O => ws
  | S n' =>
      let wt := w32 (small_sigma1 (nth 1 ws 0) + nth 6 ws 0
                     + small_sigma0 (nth 14 ws 0) + nth 15 ws 0) in
      schedule n' (wt :: ws)
  end.

Definition sha_round (st : list Z) (kw : Z * Z) : list Z :=
  match st with
  | [a; b; c; d; e; f; g; h] =>
      let t1 := h + big_sigma1 e + ch e f g + kw.1 + kw.2 in
      let t2 := big_sigma0 a + maj a b c in
      [w32 (t1 + t2); a; b; c; w32 (d + t1); e; f; g]
  | _ => st
  end.

Definition compress (st block : list Z) : list Z :=
  let ws := reverse (schedule 48 (reverse block)) in
  zip_with (λ x y, w32 (x + y)) st (foldl sha_round st (zip round_constants ws)).

Fixpoint bytes_to_words (l : list Z) : list Z :=
  match l with
  | a :: b :: c :: d :: l' =>
      (a * 2 ^ 24 + b * 2 ^ 16 + c * 2 ^ 8 + d) :: bytes_to_words l'
  | _ => []
  end.

Definition word_bytes (w : Z) : list Z :=
  [w / 2 ^ 24 mod 256; w / 2 ^ 16 mod 256; w / 2 ^ 8 mod 256; w mod 256].

Fixpoint string_bytes (s : str) : list Z :=
  match s with EmptyString => [] | String c s' => byte_of c :: string_bytes s' end.

Definition sha_pad (m : list Z) : list Z :=
  let n := Z.of_nat (length m) in
  let zeros := (55 - n) mod 64 in
  m ++ [128] ++ replicate (Z.to_nat zeros) 0 ++
  word_bytes (n * 8 / 2 ^ 32) ++ word_bytes (n * 8 mod 2 ^ 32).

(** Fold the compression function over the 16-word blocks; [n] bounds their
    number. *)
Fixpoint sha_blocks (n : nat) (st ws : list Z) : list Z :=
  match n, ws with
  | S n', _ :: _ => sha_blocks n' (compress st (take 16 ws)) (drop 16 ws)
  | _, _ => st
  end.

(** [sha256.Sum256], as its 32 bytes. *)
Definition sha256_sum (s : str) : list Z :=
  let ws := bytes_to_words (sha_pad (string_bytes s)) in
  sha_blocks (length ws) initial_hash ws ≫= word_bytes.

(** [hex.EncodeToString(sum[:])] *)
Definition sha256_hex (s : str) : str := hex_bytes (sha256_sum s).

(** ** Test vectors of FIPS 180-4 *)

Example sha256_empty :
  sha256_hex "" = "e3b0c44298fc1c149afbf4c8996fb92427ae41e4649b934ca495991b7852b855".
Proof. vm_compute. reflexivity. Qed.

Example sha256_abc :
  sha256_hex "abc" = "ba7816bf8f01cfea414140de5dae2223b00361a396177a9cb410ff61f20015ad".
Proof. vm_compute. reflexivity. Qed.

Example sha256_two_blocks :
  sha256_hex "abcdbcdecdefdefgefghfghighijhijkijkljklmklmnlmnomnopnopq" =
  "248d6a61d20638b8e5c026930c3e6039a33ce45964ff2167f6ecedd419db06c1".
Proof. vm_compute. reflexivity. Qed.

(** ** The digest is 64 lower-case hexadecimal digits *)

Lemma hex_bytes_length l : String.length (hex_bytes l) = (2 * length l)%nat.
Proof. induction l; simpl; lia. Qed.

Lemma hex_digit_lower n : 0 ≤ n < 16 → is_hex_lower (hex_digit n) = true.
Proof.
  intros Hn. unfold hex_digit, is_hex_lower, is_digit.
  destruct (Z.ltb_spec n 10); rewrite byte_of_ascii by lia.
  - rewrite (proj2 (Z.leb_le 48 _)), (proj2 (Z.leb_le _ 57)) by lia. done.
  - rewrite (proj2 (Z.leb_le 97 _)), (proj2 (Z.leb_le _ 102)) by lia.
    by rewrite orb_true_r.
Qed.

Lemma hex_bytes_lower l :
  Forall (λ b, 0 ≤ b < 256) l → str_forallb is_hex_lower (hex_bytes l) = true.
Proof.
  induction 1 as [|b l Hb _ IH]; [done|]. cbn [hex_bytes str_forallb].
  rewrite !hex_digit_lower, IH; [done|..].
  - apply Z.mod_pos_bound. lia.
  - split; [apply Z.div_pos; lia|apply Z.div_lt_upper_bound; lia].
Qed.

Lemma word_bytes_range w : Forall (λ b, 0 ≤ b < 256) (word_bytes w).
Proof. unfold word_bytes. repeat constructor; apply Z.mod_pos_bound; lia. Qed.

Lemma sha_round_length st kw : length st = 8%nat → length (sha_round st kw) = 8%nat.
Proof. intros H. do 9 (destruct st as [|? st]; try done). Qed.

Lemma sha_rounds_length l st :
  length st = 8%nat → length (foldl sha_round st l) = 8%nat.
Proof. revert st. induction l; simpl; auto using sha_round_length. Qed.

Lemma sha_blocks_length n st ws :
  length st = 8%nat → length (sha_blocks n st ws) = 8%nat.
Proof.
  revert st ws. induction n as [|n IH]; intros st [|w ws] Hst; [done..|].
  cbn [sha_blocks]. apply IH. unfold compress.
  rewrite length_zip_with, sha_rounds_length by done. lia.
Qed.

Lemma sha256_sum_length s : length (sha256_sum s) = 32%nat.
Proof.
  unfold sha256_sum. assert (∀ l, length (l ≫= word_bytes) = (4 * length l)%nat) as ->.
  { intros l. induction l as [|w l IH]; [done|].
    rewrite bind_cons, length_app, IH. simpl. lia. }
  by rewrite sha_blocks_length.
Qed.

Lemma sha256_sum_range s : Forall (λ b, 0 ≤ b < 256) (sha256_sum s).
Proof.
  unfold sha256_sum. generalize (sha_blocks (length (bytes_to_words (sha_pad (string_bytes s))))
    initial_hash (bytes_to_words (sha_pad (string_bytes s)))) as l.
  induction l as [|w l IH]; [constructor|]. rewrite bind_cons.
  apply Forall_app. eauto using word_bytes_range.
Qed.

Lemma sha256_hex_length s : String.length (sha256_hex s) = 64%nat.
Proof. unfold sha256_hex. by rewrite hex_bytes_length, sha256_sum_length. Qed.

Lemma sha256_hex_lower s : str_forallb is_hex_lower (sha256_hex s) = true.
Proof. apply hex_bytes_lower, sha256_sum_range. Qed.

(** A pair of different inputs with one digest. *)
Definition sha256_collision (x y : str) : Prop := x ≠ y ∧ sha256_hex x = sha256_hex y.

Lemma sha256_hex_eq x y : sha256_hex x = sha256_hex y → x = y ∨ sha256_collision x y.
Proof. intros H. destruct (decide (x = y)); [by left|by right]. Qed.

#[global] Opaque sha256_hex.
#[export] Hint Resolve sha256_hex_length sha256_hex_lower : golang.
