(* ===== verification/RecordID.v ===== *)
(** * Record identities, internal/observation/id.go and internal/events/hubble/id.go

    An identity is the first 32 hex digits of the SHA-256 of a text made of
    its components, every free component behind its length.  The texts are
    kept apart from the digest: they are what the identity means. *)

From Stdlib Require Import Ascii.
From S2P Require Import Prelude GoTime GoString Sha256.

Module RecordID.

Definition idLen : nat := 32.

Definition digest_id (text : str) : str := str_take idLen (sha256_hex text).

(** Two texts with one identity. *)
Definition id_collision (x y : str) : Prop := x ≠ y ∧ digest_id x = digest_id y.

Definition bar : ascii := "|".

Definition record_text (kind correlator : str) (discriminator : Z) (eventTime : time) : str :=
  len_prefixed_all [kind; correlator] +:+ itoa discriminator +:+ "|" +:+ itoa (t_unix_nano eventTime).

Definition recordID (kind correlator : str) (discriminator : Z) (eventTime : time) : str :=
  digest_id (record_text kind correlator discriminator eventTime).

Definition parts_text (kind : str) (eventTime : time) (parts : list str) : str :=
  len_prefixed_all (kind :: parts) +:+ "|" +:+ itoa (t_unix_nano eventTime).

Definition recordIDFromParts (kind : str) (eventTime : time) (parts : list str) : str :=
  digest_id (parts_text kind eventTime parts).

(** The components of a flow's identity: node, addresses, verdict, observation
    point and protocol; the ports there are; the event time. *)
Definition port_text (name : str) (port : option Z) : str :=
  match port with Some p => "|" +:+ name +:+ "=" +:+ itoa p | None => "" end.

Definition flow_text (parts : list str) (sp dp : option Z) (eventTime : time) : str :=
  len_prefixed_all parts +:+ port_text "sp" sp +:+ port_text "dp" dp +:+ "|" +:+ itoa (t_unix_nano eventTime).

(** ** Lemmas *)

Lemma digest_id_eq x y : digest_id x = digest_id y → x = y ∨ id_collision x y.
Proof. intros H. destruct (decide (x = y)); [by left|by right]. Qed.

Lemma itoa_lacks c z : is_digit c = false → c ≠ "-"%char → lacks c (itoa z) = true.
Proof.
  intros Hd Hm. unfold lacks. apply itoa_chars.
  - apply negb_true_iff, bool_decide_eq_false. congruence.
  - intros d Hdig. apply negb_true_iff, bool_decide_eq_false. intros ->. congruence.
Qed.

Lemma itoa_lacks_bar z : lacks bar (itoa z) = true.
Proof. by apply itoa_lacks. Qed.

Lemma itoa_head z : ∃ c r, itoa z = String c r ∧ (is_digit c || bool_decide (c = "-"%char)) = true.
Proof.
  pose proof (itoa_chars z (λ c, is_digit c || bool_decide (c = "-"%char)) eq_refl) as H.
  destruct (itoa z) as [|c r] eqn:E; [by apply itoa_nonempty in E|]. exists c, r. split; [done|].
  assert (str_forallb (λ c, is_digit c || bool_decide (c = "-"%char)) (String c r) = true) as Hall
    by (apply H; intros d ->; done).
  simpl in Hall. by apply andb_true_iff in Hall as [? _].
Qed.

(** A list of length-prefixed parts ends at the first bar: no part's text
    begins with one. *)
Lemma len_prefixed_all_bar l1 : ∀ l2 r1 r2,
  len_prefixed_all l1 +:+ String bar r1 = len_prefixed_all l2 +:+ String bar r2 → l1 = l2 ∧ r1 = r2.
Proof.
  assert (∀ s r t, len_prefixed s +:+ r ≠ String bar t) as Hne.
  { intros s r t. unfold len_prefixed. rewrite !str_app_assoc.
    pose proof (itoa_digits (slen s) (slen_nonneg s)) as Hd. pose proof (itoa_nonempty (slen s)) as Hn.
    destruct (itoa (slen s)) as [|c u]; [done|]. simpl in *. intros [= -> _]. discriminate Hd. }
  induction l1 as [|s l1 IH]; intros [|t l2] r1 r2; simpl; rewrite ?str_app_assoc.
  - by intros [= ->].
  - intros H. symmetry in H. by apply Hne in H.
  - intros H. by apply Hne in H.
  - intros [-> H]%len_prefixed_inj. by destruct (IH l2 r1 r2 H) as [-> ->].
Qed.

(** What follows the parts of a flow. *)
Definition flow_tail (sp dp : option Z) (n : Z) : str := port_text "sp" sp +:+ port_text "dp" dp +:+ "|" +:+ itoa n.

Lemma dp_tail_bar dp n : ∃ u, port_text "dp" dp +:+ "|" +:+ itoa n = String bar u.
Proof. destruct dp as [p|]; simpl; by eexists. Qed.

Lemma itoa_ne_letter c z r : is_digit c || bool_decide (c = "-"%char) = false → itoa z ≠ String c r.
Proof. intros Hc He. destruct (itoa_head z) as (d & u & Hd & Hok). rewrite He in Hd. simplify_eq. congruence. Qed.

Lemma dp_tail_inj dp1 dp2 n1 n2 :
  port_text "dp" dp1 +:+ "|" +:+ itoa n1 = port_text "dp" dp2 +:+ "|" +:+ itoa n2 → dp1 = dp2 ∧ n1 = n2.
Proof.
  destruct dp1 as [p1|], dp2 as [p2|]; simpl; rewrite ?str_app_assoc.
  - intros [= H]. apply (split_first bar) in H as [H1%itoa_inj H2]; [|apply itoa_lacks_bar..].
    by apply itoa_inj in H2; subst.
  - intros [= H]. symmetry in H. by apply itoa_ne_letter in H.
  - intros [= H]. by apply itoa_ne_letter in H.
  - intros [= H%itoa_inj]. by subst.
Qed.

Lemma flow_tail_inj sp1 sp2 dp1 dp2 n1 n2 :
  flow_tail sp1 dp1 n1 = flow_tail sp2 dp2 n2 → sp1 = sp2 ∧ dp1 = dp2 ∧ n1 = n2.
Proof.
  unfold flow_tail. destruct (dp_tail_bar dp1 n1) as [u1 E1], (dp_tail_bar dp2 n2) as [u2 E2].
  destruct sp1 as [p1|], sp2 as [p2|].
  - unfold port_text at 1 3. rewrite !str_app_assoc, E1, E2. intros H. simpl in H. injection H as H.
    apply (split_first bar) in H as [H1%itoa_inj H2]; [|apply itoa_lacks_bar..]. subst u2 p2.
    rewrite <-E1 in E2. apply dp_tail_inj in E2 as [-> ->]. done.
  - intros H. exfalso. destruct dp2 as [q|]; simpl in H; [done|]. injection H as H. symmetry in H. by apply itoa_ne_letter in H.
  - intros H. exfalso. destruct dp1 as [q|]; simpl in H; [done|]. injection H as H. by apply itoa_ne_letter in H.
  - intros H. by apply dp_tail_inj in H as [-> ->].
Qed.

Lemma flow_text_tail parts sp dp t : flow_text parts sp dp t = len_prefixed_all parts +:+ flow_tail sp dp (t_unix_nano t).
Proof. done. Qed.

(** ** Theorem *)

(** an identity means one record.  Two analyzer records, two records of
    free parts, or two flows with the same identity agree in every component
    the identity is made of - kind, correlator and discriminator; kind and all
    parts, however many; node, addresses, verdict, point, protocol and ports -
    and in the event time to the nanosecond, or else 128 bits of SHA-256
    collide on two texts that are given: the boundaries between components
    cannot be forged by their content. *)
Theorem identities_injective kind kind' c c' d d' t t' ps ps' fs fs' sp sp' dp dp' :
  length fs = length fs' →
  (recordID kind c d t = recordID kind' c' d' t' →
    (kind = kind' ∧ c = c' ∧ d = d' ∧ t_unix_nano t = t_unix_nano t') ∨
    id_collision (record_text kind c d t) (record_text kind' c' d' t')) ∧
  (recordIDFromParts kind t ps = recordIDFromParts kind' t' ps' →
    (kind = kind' ∧ ps = ps' ∧ t_unix_nano t = t_unix_nano t') ∨
    id_collision (parts_text kind t ps) (parts_text kind' t' ps')) ∧
  (digest_id (flow_text fs sp dp t) = digest_id (flow_text fs' sp' dp' t') →
    (fs = fs' ∧ sp = sp' ∧ dp = dp' ∧ t_unix_nano t = t_unix_nano t') ∨
    id_collision (flow_text fs sp dp t) (flow_text fs' sp' dp' t')).
Proof.
  intros Hlen. split_and!; (intros [H|H]%digest_id_eq; [left|by right]).
  - unfold record_text in H. apply len_prefixed_all_inj in H as [[= -> ->] H]; [|done].
    apply (split_first bar) in H as [->%itoa_inj ->%itoa_inj]; [done|apply itoa_lacks_bar..].
  - apply len_prefixed_all_bar in H as [[= -> ->] ->%itoa_inj]. done.
  - rewrite !flow_text_tail in H. apply len_prefixed_all_inj in H as [-> (-> & -> & ->)%flow_tail_inj]; done.
Qed.

Lemma identities_injective_witness :
  flow_text ["n"; "1.2.3.4"; "5.6.7.8"; "DROPPED"; "p"; "tcp"] (Some 1) (Some 2) 0 ≠
  flow_text ["n"; "1.2.3.4"; "5.6.7.8"; "DROPPED"; "p"; "tcp"] None (Some 2) 0 ∧
  (recordIDFromParts "Zeek" 0 ["a"; "b"] = recordIDFromParts "Zeek" 0 ["ab"] →
   id_collision (parts_text "Zeek" 0 ["a"; "b"]) (parts_text "Zeek" 0 ["ab"])).
Proof.
  destruct (identities_injective "Zeek" "Zeek" "" "" 0 0 0 0 ["a"; "b"] ["ab"] [] [] None None None None eq_refl)
    as (_ & H & _).
  split; [vm_compute; discriminate|]. intros He. destruct (H He) as [(_ & Hp & _)|Hc]; [discriminate Hp|exact Hc].
Defined.

End RecordID.
