(* ===== verification/Api.v ===== *)
(** * The API types, [api/v1alpha1]

    One record per Go struct and one inductive per string enum, with the
    source's names behind a prefix for the struct (a Rocq projection is global
    to its file).  A Go pointer is an [option].  An enum that the code also
    compares with [""] has a constructor for the empty value.  [metav1] and
    [corev1] types keep the fields the program reads; a [resource.Quantity] is
    what its methods answer about it. *)

From S2P Require Import Prelude GoTime GoString.

(** ** metav1 and corev1 data *)

Inductive ConditionStatus := ConditionTrue | ConditionFalse | ConditionUnknown.

Record Condition := mkCondition {
  cond_Type : str;
  cond_Status : ConditionStatus;
  cond_ObservedGeneration : Z;
  cond_LastTransitionTime : time;
  cond_Reason : str;
  cond_Message : str;
}.

Record ObjectMeta := mkMeta {
  m_Name : str;
  m_Namespace : str;
  m_UID : str;
  m_Generation : Z;
  m_CreationTimestamp : time;
  (** nil while the object is not being deleted *)
  m_DeletionTimestamp : option time;
  m_Annotations : gmap string string;
  m_Finalizers : list str;
}.

(** A [resource.Quantity]: its exact value in nano-units, the precision the
    library keeps, what [AsInt64] answers, and its canonical text. *)
Record Quantity := mkQuantity { q_nano : Z; q_int64 : option Z; q_text : str }.

(** A whole number of bytes within an int64. *)
Definition bytes_quantity (n : Z) : Quantity := mkQuantity (n * 1000000000) (Some n) (itoa n).

(** What the library documents: an answer of [AsInt64] is the value. *)
Definition quantity_exact (q : Quantity) : Prop :=
  ∀ n, q_int64 q = Some n → q_nano q = n * 1000000000.

Definition q_Cmp (a b : Quantity) : comparison := q_nano a ?= q_nano b.

(** [DeletionTimestamp.IsZero()]: a nil pointer or the zero time. *)
Definition deletion_is_zero (m : ObjectMeta) : bool :=
  match m_DeletionTimestamp m with None => true | Some t => is_zero t end.

(** ** capturejob_types.go *)

Definition AnnotationRequester : str := "trawl.cloud/requester".

Inductive CaptureRequestType := CaptureRequestUnset | CaptureRequestManual | CaptureRequestPolicy.

Inductive CapturePhase :=
  | CapturePhaseUnset
  | CapturePhasePending
  | CapturePhaseCapturing
  | CapturePhaseStoring
  | CapturePhaseCompleted
  | CapturePhaseFailed
  | CapturePhaseExpired.

Inductive FailureReason :=
  | FailureUnset
  | FailureInvalidFilter
  | FailureInvalidBounds
  | FailureTapInactive
  | FailureTargetUnavailable
  | FailureInterfaceUnavailable
  | FailureRunnerCreateFailed
  | FailureCaptureFailed
  | FailureSizeExceeded
  | FailureUploadFailed
  | FailureArtifactMissing
  | FailureArtifactMismatch
  | FailureRetentionDeleteFailed
  | FailureInternalError.

(** A stop reason also arrives from a stored manifest, where it is any
    (sanitized) string; the constants are the closed enum. *)
Abbreviation CaptureStopReason := str (only parsing).
Definition CaptureStopDuration : str := "Duration".
Definition CaptureStopSize : str := "Size".
Definition CaptureStopCancelled : str := "Cancelled".
Definition CaptureStopError : str := "Error".

Inductive RunnerOutcome := RunnerOutcomeSucceeded | RunnerOutcomeFailed.

Inductive TriggerSource := TriggerSourceSuricataAlert | TriggerSourceHubbleDrop.

Record ImmutablePolicyReference := mkPolicyRef {
  pr_Name : str;
  pr_UID : str;
  pr_Generation : Z;
}.

Record FlowSnapshot := mkFlowSnapshot {
  fs_SourceIP : str;
  fs_SourcePort : Z;
  fs_DestinationIP : str;
  fs_DestinationPort : Z;
  fs_Protocol : str;
  fs_CommunityID : str;
}.

Record SuricataTriggerContext := mkSuricataContext {
  stc_RuleID : Z;
  stc_Revision : Z;
  stc_Severity : Z;
  stc_Category : str;
  stc_Message : str;
}.

Record HubbleTriggerContext := mkHubbleContext {
  htc_Reason : str;
  htc_SourceNamespace : str;
  htc_DestinationNamespace : str;
  htc_Count : Z;
}.

Record TriggerSnapshot := mkTriggerSnapshot {
  ts_Source : TriggerSource;
  ts_Fingerprint : str;
  ts_EventTime : time;
  ts_ObservedAt : time;
  ts_Flow : option FlowSnapshot;
  ts_Suricata : option SuricataTriggerContext;
  ts_Hubble : option HubbleTriggerContext;
}.

Record CaptureJobSpec := mkCaptureJobSpec {
  cjs_RequestType : CaptureRequestType;
  cjs_TapRef : str;
  cjs_TargetNode : str;
  cjs_Filter : str;
  cjs_Duration : str;
  cjs_Snaplen : Z;
  cjs_MaxSize : Quantity;
  cjs_Retention : str;
  cjs_PolicyRef : option ImmutablePolicyReference;
  cjs_Trigger : option TriggerSnapshot;
  cjs_DeduplicationKey : str;
}.

Record ArtifactReference := mkArtifactReference {
  ar_Profile : str;
  ar_Key : str;
  ar_ETag : str;
  ar_VersionID : str;
  ar_VerifiedAt : time;
}.

Record CaptureFailure := mkCaptureFailure {
  cf_Reason : FailureReason;
  cf_Message : str;
  cf_FailedPhase : CapturePhase;
  cf_Attempts : Z;
}.

Record RunnerResult := mkRunnerResult {
  rr_Outcome : RunnerOutcome;
  rr_Reason : FailureReason;
  rr_StopReason : CaptureStopReason;
  rr_PacketCount : option Z;
  rr_SizeBytes : option Z;
  rr_SHA256 : str;
  rr_ExitCode : Z;
  rr_Message : str;
}.

Record CaptureJobStatus := mkCaptureJobStatus {
  cst_ObservedGeneration : Z;
  cst_Phase : CapturePhase;
  cst_ResolvedTapUID : str;
  cst_ResolvedInterface : str;
  cst_RunnerJobRef : option str;
  cst_RequestedAt : option time;
  cst_StartedAt : option time;
  cst_CaptureEndedAt : option time;
  cst_CompletedAt : option time;
  cst_PacketCount : option Z;
  cst_SizeBytes : option Z;
  cst_SHA256 : str;
  cst_Artifact : option ArtifactReference;
  cst_RetentionDeadline : option time;
  cst_Failure : option CaptureFailure;
  cst_RunnerResult : option RunnerResult;
  cst_Conditions : list Condition;
}.

Record CaptureJob := mkCaptureJob {
  cj_Meta : ObjectMeta;
  cj_Spec : CaptureJobSpec;
  cj_Status : CaptureJobStatus;
}.

(** ** capturepolicy_types.go *)

Inductive CaptureTriggerType := CaptureTriggerSuricataAlert | CaptureTriggerHubbleDrop.

Record SuricataAlertTrigger := mkSuricataTrigger {
  sat_Severities : list Z;
  sat_RuleIDs : list Z;
  sat_Categories : list str;
}.

Record DropThreshold := mkDropThreshold {
  dt_Count : Z;
  dt_Window : duration;
}.

Record HubbleDropTrigger := mkHubbleTrigger {
  hdt_Reasons : list str;
  hdt_SourceNamespaces : list str;
  hdt_Threshold : option DropThreshold;
}.

Record CapturePolicyTrigger := mkPolicyTrigger {
  cpt_Type : CaptureTriggerType;
  cpt_SuricataAlert : option SuricataAlertTrigger;
  cpt_HubbleDrop : option HubbleDropTrigger;
}.

Record CaptureRateLimit := mkRateLimit {
  crl_MaxCapturesPerHour : Z;
  crl_Cooldown : duration;
}.

Record PolicyCaptureBounds := mkPolicyBounds {
  pcb_Duration : str;
  pcb_FilterTemplate : str;
  pcb_Snaplen : Z;
  pcb_MaxSize : Quantity;
}.

Record CapturePolicySpec := mkCapturePolicySpec {
  cps_TapRef : str;
  cps_Armed : bool;
  cps_Trigger : CapturePolicyTrigger;
  cps_Capture : PolicyCaptureBounds;
  cps_Retention : str;
  cps_RateLimit : CaptureRateLimit;
}.

(** The object without its status, which the engine and admission do not
    read. *)
Record CapturePolicy := mkCapturePolicy {
  cp_Meta : ObjectMeta;
  cp_Spec : CapturePolicySpec;
}.

Inductive CapturePolicyPhase := CapturePolicyUnset | CapturePolicyDisarmed | CapturePolicyArmed
  | CapturePolicyDegraded | CapturePolicyRateLimited.

Record PolicyDecisionCounters := mkCounters {
  pdc_Matched : Z;
  pdc_NotMatched : Z;
  pdc_Duplicate : Z;
  pdc_RateLimited : Z;
  pdc_Failed : Z;
}.

Record CapturePolicyStatus := mkPolicyStatus {
  cpst_ObservedGeneration : Z;
  cpst_Phase : CapturePolicyPhase;
  cpst_ResolvedTapUID : str;
  cpst_TotalCaptures : Z;
  cpst_ActiveCaptures : Z;
  cpst_LastTriggerTime : option time;
  cpst_LastCaptureRef : option str;
  cpst_Decisions : PolicyDecisionCounters;
  cpst_Conditions : list Condition;
}.

(** ** networktap_types.go *)

Inductive TapPhase := TapPhaseUnset | TapPhasePending | TapPhaseActive
  | TapPhaseDegraded | TapPhaseError.

Inductive DuplicationState :=
  | DuplicationUnknown | DuplicationNotDetected | DuplicationSuspected.

Definition TapModePassive : str := "Passive".
Definition TapSourceMirrorInterface : str := "MirrorInterface".
Definition TapSourceNodeInterface : str := "NodeInterface".
Definition AnalyzerSuricata : str := "Suricata".
Definition AnalyzerZeek : str := "Zeek".

(** A [metav1.LabelSelector]; an expression is its key, operator and values. *)
Record LabelSelectorRequirement := mkRequirement { lr_Key : str; lr_Operator : str; lr_Values : list str }.

Record LabelSelector := mkSelector {
  ls_MatchLabels : gmap string string;
  ls_MatchExpressions : list LabelSelectorRequirement;
}.

Record InterfaceSource := mkInterfaceSource {
  is_Interface : str;
  is_Promiscuous : bool;
  is_NodeSelector : LabelSelector;
}.

Record ResourceRequirements := mkResources {
  rr_Requests : gmap string Quantity;
  rr_Limits : gmap string Quantity;
}.

(** [ac_CustomContent] is the reference's text. *)
Record AnalyzerConfig := mkAnalyzerConfig {
  ac_Enabled : bool;
  ac_Resources : option ResourceRequirements;
  ac_CustomContent : option str;
}.

Record AnalyzerSelection := mkAnalyzers { as_Suricata : AnalyzerConfig; as_Zeek : AnalyzerConfig }.

Record NetworkTapSpec := mkNetworkTapSpec {
  tps_Mode : str;
  tps_Type : str;
  tps_MirrorInterface : option InterfaceSource;
  tps_NodeInterface : option InterfaceSource;
  tps_Analyzers : AnalyzerSelection;
}.

Record AnalyzerStatus := mkAnalyzerStatus {
  ans_Name : str;
  ans_Healthy : bool;
  ans_Version : str;
  ans_LastRecordTime : option time;
  ans_UpstreamFetchedAt : option time;
  ans_CustomContentDigest : str;
  ans_Reason : str;
}.

Record TargetStatus := mkTargetStatus {
  tgt_NodeName : str;
  tgt_Interface : str;
  tgt_PodRef : option str;
  tgt_ReporterInstance : str;
  tgt_HeartbeatTime : time;
  tgt_LastPacketTime : option time;
  tgt_PacketsObserved : Z;
  tgt_KernelDrops : option Z;
  tgt_BytesObserved : option Z;
  tgt_Duplication : DuplicationState;
  tgt_RejectedRecords : Z;
  tgt_Analyzers : list AnalyzerStatus;
}.

Record NetworkTapStatus := mkNetworkTapStatus {
  nts_ObservedGeneration : Z;
  nts_Phase : TapPhase;
  nts_MatchedTargets : Z;
  nts_ReadyTargets : Z;
  nts_LastPacketTime : option time;
  nts_Targets : list TargetStatus;
  nts_Conditions : list Condition;
}.

Record NetworkTap := mkNetworkTap {
  nt_Meta : ObjectMeta;
  nt_Spec : NetworkTapSpec;
  nt_Status : NetworkTapStatus;
}.

(** ** Go zero values *)

Definition zero_source : InterfaceSource := mkInterfaceSource "" false (mkSelector ∅ []).

Definition zero_meta : ObjectMeta := mkMeta "" "" "" 0 0 None ∅ [].

Definition zero_status : CaptureJobStatus :=
  mkCaptureJobStatus 0 CapturePhaseUnset "" "" None None None None None None None
    "" None None None None [].

(** ** Names of the enum values, as the API spells them *)

Definition phase_string (p : CapturePhase) : str :=
  match p with
  | CapturePhaseUnset => ""
  | CapturePhasePending => "Pending"
  | CapturePhaseCapturing => "Capturing"
  | CapturePhaseStoring => "Storing"
  | CapturePhaseCompleted => "Completed"
  | CapturePhaseFailed => "Failed"
  | CapturePhaseExpired => "Expired"
  end.

Definition reason_string (r : FailureReason) : str :=
  match r with
  | FailureUnset => ""
  | FailureInvalidFilter => "InvalidFilter"
  | FailureInvalidBounds => "InvalidBounds"
  | FailureTapInactive => "TapInactive"
  | FailureTargetUnavailable => "TargetUnavailable"
  | FailureInterfaceUnavailable => "InterfaceUnavailable"
  | FailureRunnerCreateFailed => "RunnerCreateFailed"
  | FailureCaptureFailed => "CaptureFailed"
  | FailureSizeExceeded => "SizeExceeded"
  | FailureUploadFailed => "UploadFailed"
  | FailureArtifactMissing => "ArtifactMissing"
  | FailureArtifactMismatch => "ArtifactMismatch"
  | FailureRetentionDeleteFailed => "RetentionDeleteFailed"
  | FailureInternalError => "InternalError"
  end.

(** ** Decidable equality *)

#[global] Instance condition_status_eq_dec : EqDecision ConditionStatus.
Proof. solve_decision. Defined.
#[global] Instance condition_eq_dec : EqDecision Condition.
Proof. solve_decision. Defined.
#[global] Instance request_type_eq_dec : EqDecision CaptureRequestType.
Proof. solve_decision. Defined.
#[global] Instance phase_eq_dec : EqDecision CapturePhase.
Proof. solve_decision. Defined.
#[global] Instance failure_reason_eq_dec : EqDecision FailureReason.
Proof. solve_decision. Defined.
#[global] Instance runner_outcome_eq_dec : EqDecision RunnerOutcome.
Proof. solve_decision. Defined.
#[global] Instance policy_phase_eq_dec : EqDecision CapturePolicyPhase.
Proof. solve_decision. Defined.
#[global] Instance counters_eq_dec : EqDecision PolicyDecisionCounters.
Proof. solve_decision. Defined.
#[global] Instance policy_status_eq_dec : EqDecision CapturePolicyStatus.
Proof. solve_decision. Defined.
#[global] Instance trigger_type_eq_dec : EqDecision CaptureTriggerType.
Proof. solve_decision. Defined.
#[global] Instance tap_phase_eq_dec : EqDecision TapPhase.
Proof. solve_decision. Defined.
#[global] Instance duplication_eq_dec : EqDecision DuplicationState.
Proof. solve_decision. Defined.
#[global] Instance artifact_reference_eq_dec : EqDecision ArtifactReference.
Proof. solve_decision. Defined.
#[global] Instance capture_failure_eq_dec : EqDecision CaptureFailure.
Proof. solve_decision. Defined.
#[global] Instance runner_result_eq_dec : EqDecision RunnerResult.
Proof. solve_decision. Defined.
#[global] Instance capture_job_status_eq_dec : EqDecision CaptureJobStatus.
Proof. solve_decision. Defined.
#[global] Instance analyzer_status_eq_dec : EqDecision AnalyzerStatus.
Proof. solve_decision. Defined.
#[global] Instance target_status_eq_dec : EqDecision TargetStatus.
Proof. solve_decision. Defined.
#[global] Instance tap_status_eq_dec : EqDecision NetworkTapStatus.
Proof. solve_decision. Defined.

Lemma phase_string_inj p q : phase_string p = phase_string q → p = q.
Proof. by destruct p, q. Qed.
