(* ===== verification/Status.v ===== *)
(** * Conditions, [internal/status/conditions.go]

    A condition list is keyed by type.  [now] is the package's indirected
    clock, an argument here; [sanitize.String] is the [msg] function the
    callers pass, since [New] applies it to the message. *)

From S2P Require Import Prelude GoTime GoString Api.

Module Status.

Definition TypeAccepted : str := "Accepted".
Definition TypeTapResolved : str := "TapResolved".
Definition TypeWithinRateLimit : str := "WithinRateLimit".
Definition TypeTargetReady : str := "TargetReady".
Definition TypeArtifactVerified : str := "ArtifactVerified".
Definition TypeDownloadable : str := "Downloadable".

Definition ReasonInvalidSpec : str := "InvalidSpec".
Definition ReasonAuditUnavailable : str := "AuditUnavailable".
Definition ReasonDependencyUnavailable : str := "DependencyUnavailable".
Definition ReasonTapNotFound : str := "TapNotFound".
Definition ReasonTapNotActive : str := "TapNotActive".
Definition ReasonFilterInvalid : str := "FilterInvalid".
Definition ReasonFilterValid : str := "FilterValid".
Definition ReasonCaptureStarted : str := "CaptureStarted".
Definition ReasonCaptureFailed : str := "CaptureFailed".
Definition TypeFilterValid : str := "FilterValid".
Definition TypeCaptureStarted : str := "CaptureStarted".
Definition TypeRetentionEnforced : str := "RetentionEnforced".
Definition ReasonAccepted : str := "Accepted".
Definition ReasonWrongNamespace : str := "WrongNamespace".
Definition ReasonTargetReady : str := "TargetReady".
Definition ReasonTargetUnavailable : str := "TargetUnavailable".
Definition ReasonArtifactVerified : str := "ArtifactVerified".
Definition ReasonArtifactMissing : str := "ArtifactMissing".
Definition ReasonChecksumMismatch : str := "ChecksumMismatch".
Definition ReasonStorageFailure : str := "StorageFailure".
Definition ReasonDownloadable : str := "Downloadable".
Definition ReasonNotDownloadable : str := "NotDownloadable".
Definition ReasonRetentionEnforced : str := "RetentionEnforced".
Definition ReasonRetentionFailed : str := "RetentionFailed".
Definition ReasonExpired : str := "Expired".
Definition ReasonPending : str := "Pending".
Definition TypeTargetsResolved : str := "TargetsResolved".
Definition TypeWorkloadReady : str := "WorkloadReady".
Definition TypeAnalyzersHealthy : str := "AnalyzersHealthy".
Definition TypePacketsObserved : str := "PacketsObserved".
Definition ReasonTargetsResolved : str := "TargetsResolved".
Definition ReasonNoEligibleTargets : str := "NoEligibleTargets".
Definition ReasonAmbiguousTargets : str := "AmbiguousTargets".
Definition ReasonProbePortConflict : str := "ProbePortConflict".
Definition ReasonWorkloadReady : str := "WorkloadReady".
Definition ReasonWorkloadProgressing : str := "WorkloadProgressing".
Definition ReasonAnalyzersHealthy : str := "AnalyzersHealthy".
Definition ReasonAnalyzerDegraded : str := "AnalyzerDegraded".
Definition ReasonProbeUnavailable : str := "ProbeUnavailable".
Definition ReasonPacketsObserved : str := "PacketsObserved".
Definition ReasonNoPacketsObserved : str := "NoPacketsObserved".
Definition TypeDeviceReachable : str := "DeviceReachable".
Definition TypeMirrorConfigured : str := "MirrorConfigured".
Definition ReasonDeviceReachable : str := "DeviceReachable".
Definition ReasonDeviceUnreachable : str := "DeviceUnreachable".
Definition ReasonDeviceUnsupported : str := "DeviceUnsupported".
Definition ReasonDeviceUntrusted : str := "DeviceUntrusted".
Definition ReasonDeviceRefused : str := "DeviceRefused".
Definition ReasonMirrorConfigured : str := "MirrorConfigured".
Definition ReasonMirrorDrifted : str := "MirrorDrifted".
Definition ReasonDeviceConflict : str := "DeviceConflict".
Definition ReasonCredentialMissing : str := "CredentialMissing".
Definition TypeSourceConnected : str := "SourceConnected".
Definition TypeReady : str := "Ready".
Definition ReasonTapResolved : str := "TapResolved".
Definition ReasonSourceConnected : str := "SourceConnected".
Definition ReasonSourceDisconnected : str := "SourceDisconnected".
Definition ReasonWorkerStale : str := "WorkerStale".
Definition ReasonSourceGap : str := "SourceGap".
Definition ReasonWithinRateLimit : str := "WithinRateLimit".
Definition ReasonRateLimited : str := "RateLimited".
Definition ReasonDisarmed : str := "Disarmed".

(** [New], with the sanitizer and the clock as arguments. *)
Definition New (sanitize : str → str) (now : time) (condType : str)
    (condStatus : ConditionStatus) (reason message : str) (generation : Z) : Condition :=
  {| cond_Type := condType;
     cond_Status := condStatus;
     cond_Reason := reason;
     cond_Message := sanitize message;
     cond_ObservedGeneration := generation;
     cond_LastTransitionTime := now |}.

Definition with_transition (c : Condition) (t : time) : Condition :=
  {| cond_Type := cond_Type c;
     cond_Status := cond_Status c;
     cond_Reason := cond_Reason c;
     cond_Message := cond_Message c;
     cond_ObservedGeneration := cond_ObservedGeneration c;
     cond_LastTransitionTime := t |}.

Definition with_generation (c : Condition) (g : Z) : Condition :=
  {| cond_Type := cond_Type c;
     cond_Status := cond_Status c;
     cond_Reason := cond_Reason c;
     cond_Message := cond_Message c;
     cond_ObservedGeneration := g;
     cond_LastTransitionTime := cond_LastTransitionTime c |}.

(** [Set]: replace the condition of the same type in place, or append. *)
Fixpoint Set_ (conditions : list Condition) (cond : Condition) : list Condition :=
  match conditions with
  | [] => [cond]
  | existing :: rest =>
      if bool_decide (cond_Type existing = cond_Type cond) then
        let cond' :=
          if bool_decide (cond_Status existing = cond_Status cond)
          then with_transition cond (cond_LastTransitionTime existing) else cond in
        cond' :: rest
      else existing :: Set_ rest cond
  end.

(** [Get] returns the first condition of the type. *)
Fixpoint Get (conditions : list Condition) (condType : str) : option Condition :=
  match conditions with
  | [] => None
  | c :: rest =>
      if bool_decide (cond_Type c = condType) then Some c else Get rest condType
  end.

Definition IsStale (conditions : list Condition) (condType : str) (generation : Z) : bool :=
  match Get conditions condType with
  | None => true
  | Some c => cond_ObservedGeneration c <? generation
  end.

(** [CarryForward] returns the list it leaves behind and whether it moved. *)
Fixpoint CarryForward (conditions : list Condition) (condType : str) (generation : Z)
    : list Condition * bool :=
  match conditions with
  | [] => ([], false)
  | c :: rest =>
      if bool_decide (cond_Type c = condType) then
        if generation <=? cond_ObservedGeneration c then (c :: rest, false)
        else (with_generation c generation :: rest, true)
      else
        let '(rest', moved) := CarryForward rest condType generation in
        (c :: rest', moved)
  end.

Definition IsTrue (conditions : list Condition) (condType : str) (generation : Z) : bool :=
  match Get conditions condType with
  | None => false
  | Some c =>
      bool_decide (cond_Status c = ConditionTrue) &&
      (generation <=? cond_ObservedGeneration c)
  end.

(** A list is keyed when no type occurs twice; every list the program builds
    with [Set] is. *)
Definition keyed (conditions : list Condition) : Prop := NoDup (cond_Type <$> conditions).

(** ** Lemmas *)

Lemma Set_types conds c :
  cond_Type <$> Set_ conds c =
  if bool_decide (cond_Type c ∈ cond_Type <$> conds) then cond_Type <$> conds
  else (cond_Type <$> conds) ++ [cond_Type c].
Proof.
  induction conds as [|e conds IH]; [done|]. cbn [Set_].
  destruct (decide (cond_Type e = cond_Type c)) as [Heq|Hne].
  - rewrite (bool_decide_eq_true_2 (cond_Type e = _)) by done.
    rewrite (bool_decide_eq_true_2 (_ ∈ _)) by (rewrite fmap_cons, Heq; left).
    destruct (bool_decide (cond_Status e = cond_Status c)); simpl; by rewrite Heq.
  - rewrite (bool_decide_eq_false_2 (cond_Type e = _)) by done.
    rewrite !fmap_cons, IH. repeat case_bool_decide; try done; set_solver.
Qed.

Lemma Set_keyed conds c : keyed conds → keyed (Set_ conds c).
Proof.
  unfold keyed. rewrite Set_types. case_bool_decide; [done|].
  intros. apply NoDup_app; split_and!; [done| |apply NoDup_singleton]. set_solver.
Qed.

Lemma Get_Some conds ty c : Get conds ty = Some c → c ∈ conds ∧ cond_Type c = ty.
Proof.
  induction conds as [|e conds IH]; [done|]. simpl. case_bool_decide.
  - intros [= ->]. split; [left|done].
  - intros [? ?]%IH. split; [by right|done].
Qed.

Lemma Get_Set_same conds c :
  ∃ t, Get (Set_ conds c) (cond_Type c) = Some (with_transition c t) ∧
       (t = cond_LastTransitionTime c ∨
        ∃ e, Get conds (cond_Type c) = Some e ∧ cond_Status e = cond_Status c ∧
             t = cond_LastTransitionTime e).
Proof.
  induction conds as [|e conds IH].
  { exists (cond_LastTransitionTime c). simpl. rewrite bool_decide_eq_true_2 by done.
    split; [by destruct c|by left]. }
  cbn [Set_ Get]. destruct (decide (cond_Type e = cond_Type c)) as [Heq|Hne].
  2: { rewrite !(bool_decide_eq_false_2 (cond_Type e = _)) by done. cbn [Get].
       by rewrite !(bool_decide_eq_false_2 (cond_Type e = _)) by done. }
  rewrite !(bool_decide_eq_true_2 (cond_Type e = _)) by done.
  case_bool_decide as Hst; cbn [Get with_transition cond_Type].
  - rewrite bool_decide_eq_true_2 by done. eexists; split; [done|]. right.
    by exists e.
  - rewrite bool_decide_eq_true_2 by done. exists (cond_LastTransitionTime c).
    split; [by destruct c|by left].
Qed.

Lemma Get_Set_other conds c ty :
  ty ≠ cond_Type c → Get (Set_ conds c) ty = Get conds ty.
Proof.
  intros Hne. induction conds as [|e conds IH].
  { simpl. by rewrite bool_decide_eq_false_2. }
  cbn [Set_]. case_bool_decide as He; cbn [Get]; [|by rewrite IH].
  destruct (bool_decide (cond_Status e = cond_Status c)); cbn [Get with_transition cond_Type];
    by rewrite !bool_decide_eq_false_2 by congruence.
Qed.

(** Setting what is already there changes nothing. *)
Lemma Set_idle conds c t :
  Get conds (cond_Type c) = Some (with_transition c t) → Set_ conds c = conds.
Proof.
  induction conds as [|e conds IH]; cbn [Get Set_]; [done|]. case_bool_decide as He; [|by intros ->%IH].
  intros [= ->]. simpl. by rewrite bool_decide_eq_true_2.
Qed.

Lemma IsTrue_Set_same conds c gen :
  IsTrue (Set_ conds c) (cond_Type c) gen =
  bool_decide (cond_Status c = ConditionTrue) && (gen <=? cond_ObservedGeneration c).
Proof. unfold IsTrue. destruct (Get_Set_same conds c) as (t & -> & _). done. Qed.

Lemma IsTrue_not_stale conds ty gen : IsTrue conds ty gen = true → IsStale conds ty gen = false.
Proof.
  unfold IsTrue, IsStale. destruct (Get conds ty); [|done].
  rewrite andb_true_iff, Z.leb_le, Z.ltb_ge. naive_solver.
Qed.

Lemma IsTrue_mono conds ty g1 g2 :
  g1 ≤ g2 → IsTrue conds ty g2 = true → IsTrue conds ty g1 = true.
Proof.
  unfold IsTrue. destruct (Get conds ty); [|done].
  rewrite !andb_true_iff, !Z.leb_le. intuition lia.
Qed.

Lemma CarryForward_Get conds ty gen :
  Get (CarryForward conds ty gen).1 ty =
  (λ c, if cond_ObservedGeneration c <? gen then with_generation c gen else c) <$> Get conds ty.
Proof.
  induction conds as [|e conds IH]; [done|]. cbn [CarryForward Get].
  case_bool_decide as Heq.
  2: { destruct (CarryForward conds ty gen) as [rest moved]. cbn [fst Get] in *.
       by rewrite bool_decide_eq_false_2. }
  - simpl. destruct (Z.leb_spec gen (cond_ObservedGeneration e)); cbn [fst Get with_generation cond_Type];
      rewrite bool_decide_eq_true_2 by done.
    + by rewrite (proj2 (Z.ltb_ge _ _)).
    + by rewrite (proj2 (Z.ltb_lt _ _)).
Qed.

End Status.
