(* ===== verification/Duration.v ===== *)
(** * Duration strings, [config.ParseDuration]

    [ParseDuration] of internal/config/config.go accepts Go's own syntax and a
    whole number of days.  Go's [time.ParseDuration] is transcribed from the
    standard library: a sequence of decimal numbers with units, accumulated in
    a uint64, the fraction scaled in float64 (IEEE binary64 of [SpecFloat]). *)

From Stdlib Require Import Ascii Floats.SpecFloat.
From S2P Require Import Prelude GoTime GoString.

(** ** The standard library's parser *)

Module GoDuration.

Definition two63 : Z := 9223372036854775808.
Definition two64 : Z := 18446744073709551616.

(** [leadingInt]: the value and the rest, or nothing on overflow. *)
Fixpoint leadingInt (x : Z) (s : str) : option (Z * str) :=
  match s with
  | EmptyString => Some (x, s)
  | String c s' =>
      if negb (is_digit c) then Some (x, s)
      else if two63 / 10 <? x then None
      else
        let x' := x * 10 + (byte_of c - 48) in
        if two63 <? x' then None else leadingInt x' s'
  end.

(** [leadingFraction]: the value, the power of ten that scales it, the rest.
    Digits beyond the uint64 range are consumed and ignored. *)
Fixpoint leadingFraction (x scale : Z) (overflow : bool) (s : str) : Z * Z * str :=
  match s with
  | EmptyString => (x, scale, s)
  | String c s' =>
      if negb (is_digit c) then (x, scale, s)
      else if overflow then leadingFraction x scale true s'
      else if (two63 - 1) / 10 <? x then leadingFraction x scale true s'
      else
        let y := x * 10 + (byte_of c - 48) in
        if two63 <? y then leadingFraction x scale true s'
        else leadingFraction y (scale * 10) false s'
  end.

(** The unit is everything up to the next digit or point. *)
Fixpoint unit_span (s : str) : str * str :=
  match s with
  | EmptyString => ("", "")
  | String c s' =>
      if is_digit c || bool_decide (c = "."%char) then ("", s)
      else let '(u, r) := unit_span s' in (String c u, r)
  end.

Definition micro_sign : str := String (ascii_of 194) (String (ascii_of 181) "s").
Definition greek_mu : str := String (ascii_of 206) (String (ascii_of 188) "s").

Definition unitMap (u : str) : option Z :=
  if bool_decide (u = "ns") then Some nanosecond
  else if bool_decide (u = "us") then Some microsecond
  else if bool_decide (u = micro_sign) then Some microsecond
  else if bool_decide (u = greek_mu) then Some microsecond
  else if bool_decide (u = "ms") then Some millisecond
  else if bool_decide (u = "s") then Some second
  else if bool_decide (u = "m") then Some minute
  else if bool_decide (u = "h") then Some hour
  else None.

Definition f64_of (z : Z) : spec_float := binary_normalize 53 1024 z 0 false.

(** [uint64(x)] of a nonnegative finite float64. *)
Definition f64_trunc (x : spec_float) : Z :=
  match x with
  | S754_finite false m e => if 0 <=? e then Z.pos m * 2 ^ e else Z.pos m / 2 ^ (- e)
  | _ => 0
  end.

(** [uint64(float64(f) * (float64(unit) / scale))] *)
Definition fraction_ns (f unit scale : Z) : Z :=
  f64_trunc (SFmul 53 1024 (f64_of f) (SFdiv 53 1024 (f64_of unit) (f64_of scale))).

Definition starts_number (s : str) : bool :=
  match s with
  | EmptyString => false
  | String c _ => bool_decide (c = "."%char) || is_digit c
  end.

(** One iteration of the loop: the nanoseconds of the leading number and
    unit, and the rest of the string. *)
Definition component (s : str) : option (Z * str) :=
  if negb (starts_number s) then None else
  match leadingInt 0 s with
  | None => None
  | Some (v, s1) =>
      let pre := negb (bool_decide (String.length s1 = String.length s)) in
      let '(f, scale, s2, post) :=
        match s1 with
        | EmptyString => (0, 1, s1, false)
        | String c s1' =>
            if bool_decide (c = "."%char) then
              let '(f, scale, r) := leadingFraction 0 1 false s1' in
              (f, scale, r, negb (bool_decide (String.length r = String.length s1')))
            else (0, 1, s1, false)
        end in
      if negb pre && negb post then None else
      let '(u, s3) := unit_span s2 in
      if bool_decide (u = "") then None else
      match unitMap u with
      | None => None
      | Some unit =>
          if two63 / unit <? v then None else
          let v1 := v * unit in
          if 0 <? f then
            let v2 := (v1 + fraction_ns f unit scale) mod two64 in
            if two63 <? v2 then None else Some (v2, s3)
          else Some (v1, s3)
      end
  end.

Fixpoint components (fuel : nat) (d : Z) (s : str) : option Z :=
  match s, fuel with
  | EmptyString, _ => Some d
  | _, O => None
  | _, S n =>
      match component s with
      | None => None
      | Some (v, s') =>
          let d' := (d + v) mod two64 in
          if two63 <? d' then None else components n d' s'
      end
  end.

(** The optional leading sign. *)
Definition sign (s : str) : bool * str :=
  match s with
  | EmptyString => (false, s)
  | String c s' =>
      if bool_decide (c = "-"%char) then (true, s')
      else if bool_decide (c = "+"%char) then (false, s')
      else (false, s)
  end.

Definition ParseDuration (s : str) : option duration :=
  let '(neg, s1) := sign s in
  if bool_decide (s1 = "0") then Some 0
  else if bool_decide (s1 = "") then None
  else
    match components (String.length s1) 0 s1 with
    | None => None
    | Some d =>
        if neg then Some (wrap64 (- d))
        else if max_int64 <? d then None else Some d
    end.

(** *** [Duration.String] *)

(** [fmtFrac] omits trailing zeros. *)
Fixpoint trim_zeros (s : str) : str :=
  match s with
  | EmptyString => ""
  | String c s' =>
      let t := trim_zeros s' in
      if bool_decide (t = "") && bool_decide (c = "0"%char) then "" else String c t
  end.

(** [v/10^w] in decimal: the integer part, and the fraction when it is not zero. *)
Definition fmt_frac (v : Z) (w : nat) : str :=
  let scale := 10 ^ Z.of_nat w in
  let frac := trim_zeros (pad0 w (v mod scale)) in
  itoa (v / scale) +:+ (if bool_decide (frac = "") then "" else "." +:+ frac).

(** The magnitude, a uint64: fractions of a second in one unit, the rest in
    hours, minutes and seconds. *)
Definition format (u : Z) : str :=
  if u =? 0 then "0s"
  else if u <? microsecond then itoa u +:+ "ns"
  else if u <? millisecond then fmt_frac u 3 +:+ micro_sign
  else if u <? second then fmt_frac u 6 +:+ "ms"
  else
    let secs := fmt_frac (u mod minute) 9 +:+ "s" in
    if u <? minute then secs else
    let mins := itoa (u / minute mod 60) +:+ "m" +:+ secs in
    if u <? hour then mins else itoa (u / hour) +:+ "h" +:+ mins.

Definition String_ (d : duration) : str := if d <? 0 then "-" +:+ format (- d) else format d.

Example string_examples :
  String_ (36 * hour) = "36h0m0s" /\ String_ (90 * second) = "1m30s" /\
  String_ (1500 * millisecond) = "1.5s" /\ String_ (- microsecond) = "-1" +:+ micro_sign /\
  String_ 0 = "0s".
Proof. by vm_compute. Qed.

End GoDuration.

(** ** internal/config/config.go *)

Module Config.

Inductive duration_error :=
  | EmptyDuration
  | InvalidDayCount
  | InvalidDuration
  | DurationNotPositive.

#[global] Instance duration_error_eq_dec : EqDecision duration_error.
Proof. solve_decision. Defined.

(** [durationRE], [^(\d+)d$]: the digits of a day count. *)
Fixpoint day_digits (s : str) : option str :=
  match s with
  | EmptyString => None
  | String c s' =>
      if is_digit c then
        if bool_decide (s' = "d") then Some (String c "")
        else String c <$> day_digits s'
      else None
  end.

(** [strconv.Atoi] of a string of digits fails out of the int64 range. *)
Definition atoi_digits (s : str) : option Z :=
  let v := digits_value 0 s in if max_int64 <? v then None else Some v.

(** [ParseDuration].  The day branch multiplies int64s, with no check. *)
Definition ParseDuration (s : str) : result duration_error duration :=
  if bool_decide (s = "") then Err EmptyDuration else
  match day_digits s with
  | Some ds =>
      match atoi_digits ds with
      | None => Err InvalidDayCount
      | Some days => Ok (wrap64 (wrap64 (days * 24) * hour))
      end
  | None =>
      match GoDuration.ParseDuration s with
      | None => Err InvalidDuration
      | Some d => if d <=? 0 then Err DurationNotPositive else Ok d
      end
  end.

Definition DefaultCaptureRetentionCeiling : duration := 30 * 24 * hour.

End Config.

(** ** Examples *)

Example parse_1h30m : Config.ParseDuration "1h30m" = Ok 5400000000000.
Proof. vm_compute. reflexivity. Qed.
Example parse_fraction : Config.ParseDuration "1.5s" = Ok 1500000000.
Proof. vm_compute. reflexivity. Qed.
Example parse_third : Config.ParseDuration "0.3333333333333333333h" = Ok 1200000000000.
Proof. vm_compute. reflexivity. Qed.
Example parse_30d : Config.ParseDuration "30d" = Ok 2592000000000000.
Proof. vm_compute. reflexivity. Qed.
Example parse_bad_unit : Config.ParseDuration "3x" = Err Config.InvalidDuration.
Proof. vm_compute. reflexivity. Qed.
Example parse_negative : Config.ParseDuration "-3s" = Err Config.DurationNotPositive.
Proof. vm_compute. reflexivity. Qed.

(** ** Lemmas *)

Module ConfigLemmas.
Import Config.

Lemma day_digits_app ds :
  ds ≠ "" → str_forallb is_digit ds = true → day_digits (ds +:+ "d") = Some ds.
Proof.
  induction ds as [|c ds IH]; [done|]. intros _. simpl.
  rewrite andb_true_iff. intros [-> Hds]. destruct ds as [|c' ds]; [done|].
  rewrite IH by done. case_bool_decide as Heq; [|done].
  by destruct ds.
Qed.

Lemma day_form_value days :
  0 ≤ days ≤ 106751 → wrap64 (wrap64 (days * 24) * hour) = days * 24 * hour.
Proof.
  intros. assert (in_int64 (days * 24)) by (unfold in_int64, min_int64, max_int64; lia).
  rewrite (wrap64_id (days * 24)) by done. apply wrap64_id.
  unfold in_int64, min_int64, max_int64, hour, minute, second. lia.
Qed.

Lemma ParseDuration_days_raw days :
  0 ≤ days ≤ max_int64 →
  ParseDuration (itoa days +:+ "d") = Ok (wrap64 (wrap64 (days * 24) * hour)).
Proof.
  intros Hd. unfold ParseDuration.
  rewrite bool_decide_eq_false_2 by (destruct (itoa days); done).
  rewrite day_digits_app by (auto using itoa_nonempty, itoa_digits with lia).
  unfold atoi_digits. rewrite digits_value_itoa by lia.
  destruct (Z.ltb_spec max_int64 days); [lia|done].
Qed.

Lemma ParseDuration_not_days s d :
  ParseDuration s = Ok d → day_digits s = None → 0 < d ≤ max_int64.
Proof.
  unfold ParseDuration. case_bool_decide; [done|]. intros Hp Hnone.
  rewrite Hnone in Hp. destruct (GoDuration.ParseDuration s) as [d'|] eqn:Hg; [|done].
  destruct (Z.leb_spec d' 0); simplify_eq/=. split; [done|].
  unfold GoDuration.ParseDuration in Hg. go_cases; try lia;
    match goal with |- wrap64 ?x ≤ _ => destruct (wrap64_range x); done | _ => idtac end.
Qed.

Lemma day_digits_inv s ds :
  day_digits s = Some ds → s = ds +:+ "d" ∧ ds ≠ "" ∧ str_forallb is_digit ds = true.
Proof.
  revert ds. induction s as [|c s IH]; intros ds; [done|]. cbn [day_digits].
  destruct (is_digit c) eqn:Hc; [|done]. case_bool_decide as Hs.
  - intros [= <-]. subst. split; [done|]. split; [done|]. cbn [str_forallb]. by rewrite Hc.
  - destruct (day_digits s) as [ds'|]; [|done]. intros [= <-].
    destruct (IH ds' eq_refl) as (-> & _ & Hds). split; [done|]. split; [done|].
    cbn [str_forallb]. by rewrite Hc.
Qed.

Lemma ParseDuration_int64 s d : ParseDuration s = Ok d → in_int64 d.
Proof.
  intros Hp. destruct (day_digits s) as [ds|] eqn:Hd.
  - unfold ParseDuration in Hp. rewrite Hd in Hp. go_cases. apply wrap64_range.
  - pose proof (ParseDuration_not_days s d Hp Hd). unfold in_int64, min_int64. lia.
Qed.

End ConfigLemmas.

(** ** A duration of whole seconds survives its own text *)

Module DurationText.
Import GoDuration.

Lemma digits_value_ge ds x : 0 ≤ x → str_forallb is_digit ds = true → x ≤ digits_value x ds.
Proof.
  revert x. induction ds as [|c ds IH]; intros x Hx; simpl; [lia|].
  rewrite andb_true_iff. intros [Hc Hds]. unfold is_digit in Hc. go_simp.
  pose proof (IH (x * 10 + (byte_of c - 48)) ltac:(lia) Hds). lia.
Qed.

(** The rest of the string does not continue a number. *)
Definition no_digit (s : str) : Prop :=
  match s with EmptyString => True | String c _ => is_digit c = false end.

Lemma leadingInt_digits ds x r :
  0 ≤ x → str_forallb is_digit ds = true → no_digit r → digits_value x ds ≤ two63 →
  leadingInt x (ds +:+ r) = Some (digits_value x ds, r).
Proof.
  revert x. induction ds as [|c ds IH]; intros x Hx Hds Hr Hle.
  { destruct r as [|c r]; [done|]. simpl in *. by rewrite Hr. }
  simpl in Hds. apply andb_true_iff in Hds as [Hc Hds]. cbn [String.append leadingInt digits_value] in *.
  rewrite Hc. cbn [negb]. pose proof Hc as Hc'. unfold is_digit in Hc'. go_simp.
  pose proof (digits_value_ge ds (x * 10 + (byte_of c - 48)) ltac:(lia) Hds).
  rewrite (proj2 (Z.ltb_ge _ _)) by (apply Z.div_le_lower_bound; lia).
  rewrite (proj2 (Z.ltb_ge _ _)) by lia. apply IH; [lia|done..].
Qed.

(** A unit name, and what may follow it. *)
Definition unit_name (u : str) : Prop :=
  u ≠ "" ∧ str_forallb (λ c, negb (is_digit c || bool_decide (c = "."%char))) u = true.

Definition after_unit (s : str) : Prop :=
  match s with EmptyString => True | String c _ => is_digit c = true end.

Lemma unit_span_app u r :
  str_forallb (λ c, negb (is_digit c || bool_decide (c = "."%char))) u = true →
  after_unit r → unit_span (u +:+ r) = (u, r).
Proof.
  induction u as [|c u IH]; intros Hu Hr.
  - destruct r as [|c r]; [done|]. cbn in *. by rewrite Hr.
  - simpl in *. apply andb_true_iff in Hu as [Hc Hu]. apply negb_true_iff in Hc.
    rewrite Hc, IH by done. done.
Qed.

Lemma component_unit v u unit r :
  0 ≤ v → unit_name u → unitMap u = Some unit → 0 < unit → v * unit ≤ two63 → after_unit r →
  component (itoa v +:+ u +:+ r) = Some (v * unit, r).
Proof.
  intros Hv [Hu0 Hu] Hm Hunit Hle Hr.
  pose proof (itoa_digits v Hv) as Hd.
  destruct u as [|c u]; [done|]. pose proof Hu as Hcu. simpl in Hcu.
  apply andb_true_iff in Hcu as [Hc _]. apply negb_true_iff, orb_false_iff in Hc as [Hc Hdot].
  apply bool_decide_eq_false in Hdot.
  unfold component.
  assert (starts_number (itoa v +:+ String c u +:+ r) = true) as ->.
  { pose proof (itoa_nonempty v). destruct (itoa v) as [|d ds]; [done|]. simpl in *.
    apply andb_true_iff in Hd as [-> _]. apply orb_true_r. }
  rewrite leadingInt_digits; [|lia|done|done|rewrite digits_value_itoa by done; nia].
  rewrite digits_value_itoa by done. cbn [negb]. cbn [String.append].
  rewrite (bool_decide_eq_false_2 (c = _)) by done.
  change (String c (u +:+ r)) with (String c u +:+ r). rewrite unit_span_app by done.
  rewrite (bool_decide_eq_false_2 (String c u = "")) by done. rewrite Hm.
  rewrite bool_decide_eq_false_2.
  2: { intros E. pose proof (itoa_nonempty v). rewrite !str_length_app in E.
       destruct (itoa v); [done|]. simpl in E. lia. }
  cbn [negb andb]. rewrite (proj2 (Z.ltb_ge _ _)) by (apply Z.div_le_lower_bound; lia). done.
Qed.

Lemma components_step n d v u unit r :
  0 ≤ d → 0 ≤ v → unit_name u → unitMap u = Some unit → 0 < unit → d + v * unit ≤ two63 → after_unit r →
  components (S n) d (itoa v +:+ u +:+ r) = components n (d + v * unit) r.
Proof.
  intros Hd Hv Hu Hm Hunit Hle Hr.
  pose proof (component_unit v u unit r Hv Hu Hm Hunit ltac:(nia) Hr) as Hcomp.
  pose proof (itoa_nonempty v). destruct (itoa v +:+ u +:+ r) as [|c s] eqn:E.
  { destruct (itoa v); done. }
  cbn [components]. rewrite Hcomp. rewrite Z.mod_small by (change two63 with (2^63) in *; change two64 with (2^64); nia).
  by rewrite (proj2 (Z.ltb_ge _ _)) by lia.
Qed.

Lemma after_itoa v s : 0 ≤ v → after_unit (itoa v +:+ s).
Proof.
  intros Hv. pose proof (itoa_digits v Hv). pose proof (itoa_nonempty v).
  destruct (itoa v) as [|c ds]; [done|]. simpl in *. by go_simp.
Qed.


(** The same, for any fuel that covers the string. *)
Lemma components_unit n d v u unit r :
  0 ≤ d → 0 ≤ v → unit_name u → unitMap u = Some unit → 0 < unit → d + v * unit ≤ two63 → after_unit r →
  (String.length (itoa v +:+ u +:+ r) ≤ n)%nat →
  ∃ n', (String.length r ≤ n')%nat ∧ components n d (itoa v +:+ u +:+ r) = components n' (d + v * unit) r.
Proof.
  intros Hd Hv Hu Hm Hunit Hle Hr Hn. pose proof (itoa_nonempty v). rewrite !str_length_app in Hn.
  destruct n as [|n]; [destruct (itoa v); [done|simpl in *; lia]|].
  exists n. split; [destruct (itoa v); [done|simpl in *; lia]|]. by apply components_step.
Qed.

Lemma fmt_secs v : 0 ≤ v → v mod second = 0 → fmt_frac v 9 = itoa (v / second).
Proof.
  intros Hv E. unfold fmt_frac. change (10 ^ Z.of_nat 9) with second. rewrite E.
  change (trim_zeros (pad0 9 0)) with "". by rewrite bool_decide_eq_true_2, str_app_nil_r.
Qed.


Lemma ParseDuration_unsigned v s d :
  0 ≤ v → 0 < d ≤ max_int64 → s ≠ "" →
  components (String.length (itoa v +:+ s)) 0 (itoa v +:+ s) = Some d →
  GoDuration.ParseDuration (itoa v +:+ s) = Some d.
Proof.
  intros Hv Hd Hs Hc. unfold GoDuration.ParseDuration, sign.
  pose proof (itoa_digits v Hv) as Hdig. pose proof (itoa_nonempty v).
  destruct (itoa v) as [|c ds] eqn:E; [done|]. cbn [String.append] in *.
  simpl in Hdig. apply andb_true_iff in Hdig as [Hc' _].
  rewrite (bool_decide_eq_false_2 (c = "-"%char)), (bool_decide_eq_false_2 (c = "+"%char))
    by (intros ->; done).
  rewrite bool_decide_eq_false_2, bool_decide_eq_false_2; [|done|].
  2: { intros [= _ E']. destruct ds; [|done]. by destruct s. }
  rewrite Hc. by rewrite (proj2 (Z.ltb_ge _ _)) by lia.
Qed.

Lemma units_known :
  unit_name "s" ∧ unit_name "m" ∧ unit_name "h" ∧
  unitMap "s" = Some second ∧ unitMap "m" = Some minute ∧ unitMap "h" = Some hour.
Proof. by repeat split. Qed.

Definition secs_form (s : Z) : str := itoa s +:+ "s".
Definition mins_form (m s : Z) : str := itoa m +:+ "m" +:+ secs_form s.
Definition hours_form (h m s : Z) : str := itoa h +:+ "h" +:+ mins_form m s.

Lemma components_secs n d s :
  0 ≤ d → 0 ≤ s → d + s * second ≤ two63 → (String.length (secs_form s) ≤ n)%nat →
  components n d (secs_form s) = Some (d + s * second).
Proof.
  intros Hd Hs Hle Hn. destruct units_known as (Us & _ & _ & Ms & _). unfold secs_form in *.
  destruct (components_unit n d s "s" second "" Hd Hs Us Ms ltac:(done) Hle I Hn) as (n' & _ & E).
  etrans; [exact E|]. by destruct n'.
Qed.

Lemma components_mins n d m s :
  0 ≤ d → 0 ≤ m → 0 ≤ s → d + m * minute + s * second ≤ two63 → (String.length (mins_form m s) ≤ n)%nat →
  components n d (mins_form m s) = Some (d + m * minute + s * second).
Proof.
  intros Hd Hm Hs Hle Hn. destruct units_known as (_ & Um & _ & _ & Mm & _). unfold mins_form in *.
  assert (0 < second ∧ 0 < minute) as [? ?] by done.
  destruct (components_unit n d m "m" minute (secs_form s) Hd Hm Um Mm ltac:(done) ltac:(nia)
    (after_itoa s "s" Hs) Hn) as (n' & Hn' & E).
  etrans; [exact E|]. apply components_secs; nia.
Qed.

Lemma components_hours n d h m s :
  0 ≤ d → 0 ≤ h → 0 ≤ m → 0 ≤ s → d + h * hour + m * minute + s * second ≤ two63 →
  (String.length (hours_form h m s) ≤ n)%nat →
  components n d (hours_form h m s) = Some (d + h * hour + m * minute + s * second).
Proof.
  intros Hd Hh Hm Hs Hle Hn. destruct units_known as (_ & _ & Uh & _ & _ & Mh). unfold hours_form in *.
  assert (0 < second ∧ 0 < minute ∧ 0 < hour) as (? & ? & ?) by done.
  destruct (components_unit n d h "h" hour (mins_form m s) Hd Hh Uh Mh ltac:(done) ltac:(nia)
    (after_itoa m _ Hm) Hn) as (n' & Hn' & E).
  etrans; [exact E|]. apply components_mins; nia.
Qed.

Theorem String_roundtrip d :
  0 < d ≤ max_int64 → d mod second = 0 → GoDuration.ParseDuration (String_ d) = Some d.
Proof.
  intros Hd Hs. destruct units_known as (Us & Um & Uh & Ms & Mm & Mh).
  unfold String_. rewrite (proj2 (Z.ltb_ge _ _)) by lia.
  assert (second ≤ d) as Hd1.
  { apply Z.mod_divide in Hs as [k ->]; [|done]. change second with 1000000000 in *. nia. }
  assert (0 ≤ d mod minute < minute) as Hm by (apply Z.mod_pos_bound; done).
  assert ((d mod minute) mod second = 0) as Hsm.
  { rewrite Z.mod_mod_divide by (by exists 60). done. }
  assert (d mod minute = d mod minute / second * second) as Es
    by (rewrite (Z.div_mod (d mod minute) second) at 1 by done; lia).
  assert (0 ≤ d mod minute / second) as Hs0 by (apply Z.div_pos; [lia|done]).
  assert (d = d / minute * minute + d mod minute) as Ed by (rewrite (Z.div_mod d minute) at 1 by done; lia).
  assert (0 ≤ d / minute) as Hq by (apply Z.div_pos; [lia|done]).
  assert (0 ≤ d / minute mod 60 < 60) as Hq60 by (apply Z.mod_pos_bound; done).
  assert (d / minute = d / hour * 60 + d / minute mod 60) as Eh.
  { change hour with (minute * 60). rewrite <-Z.div_div by done. rewrite (Z.div_mod (d / minute) 60) at 1 by done. lia. }
  assert (0 ≤ d / hour) by (apply Z.div_pos; [lia|done]).
  unfold format. rewrite (proj2 (Z.eqb_neq _ _)) by lia.
  change microsecond with 1000. change millisecond with 1000000. change second with 1000000000 in *.
  rewrite !(proj2 (Z.ltb_ge _ _)) by lia. rewrite fmt_secs by (done || lia).
  change second with 1000000000 in *. change minute with 60000000000 in *. change hour with 3600000000000 in *.
  unfold max_int64 in *.
  pose proof (components_secs) as Cs. pose proof components_mins as Cm. pose proof components_hours as Ch.
  unfold hours_form, mins_form, secs_form in *.
  change second with 1000000000 in *. change minute with 60000000000 in *. change hour with 3600000000000 in *.
  change two63 with 9223372036854775808 in *.
  case_match eqn:Hlt1; [|case_match eqn:Hlt2]; go_simp;
    apply ParseDuration_unsigned; try done; try (unfold max_int64; lia).
  - rewrite Cs by lia. f_equal. rewrite Z.mod_small by lia. rewrite Z.mod_small in Es by lia. lia.
  - rewrite Cm by lia. f_equal. assert (d / 3600000000000 = 0) by (apply Z.div_small; lia). lia.
  - rewrite Ch by lia. f_equal. lia.
Qed.

(** The day form is not Go's, so Go's parser and this one agree where Go's
    accepts a positive duration. *)
Lemma leadingInt_some_rest ds x r v s :
  str_forallb is_digit ds = true → no_digit r → leadingInt x (ds +:+ r) = Some (v, s) → s = r.
Proof.
  revert x. induction ds as [|c ds IH]; intros x Hds Hr; cbn [String.append leadingInt].
  { destruct r as [|c r]; cbn [leadingInt]; [by intros [= _ <-]|]. simpl in Hr. rewrite Hr. by intros [= _ <-]. }
  simpl in Hds. apply andb_true_iff in Hds as [-> Hds]. cbn [negb].
  destruct (_ <? x); [done|]. destruct (_ <? _); [done|]. by apply IH.
Qed.

Lemma ParseDuration_day_form ds :
  ds ≠ "" → str_forallb is_digit ds = true → GoDuration.ParseDuration (ds +:+ "d") = None.
Proof.
  intros Hne Hds. destruct ds as [|c ds]; [done|]. pose proof Hds as Hc. simpl in Hc.
  apply andb_true_iff in Hc as [Hc _]. unfold GoDuration.ParseDuration, sign. cbn [String.append].
  rewrite (bool_decide_eq_false_2 (c = "-"%char)), (bool_decide_eq_false_2 (c = "+"%char)) by (intros ->; done).
  rewrite bool_decide_eq_false_2 by (intros [= _ E]; by destruct ds).
  rewrite bool_decide_eq_false_2 by done. cbn [String.length components].
  assert (component (String c (ds +:+ "d")) = None) as ->; [|done].
  unfold component. destruct (starts_number _); [|done]. cbn [negb].
  destruct (leadingInt 0 _) as [[v s]|] eqn:E; [|done].
  apply (leadingInt_some_rest (String c ds) 0 "d") in E as ->; [|done..].
  rewrite (bool_decide_eq_false_2 ("d"%char = _)) by done. cbn. by case_match.
Qed.

Lemma ParseDuration_config s d :
  GoDuration.ParseDuration s = Some d → 0 < d → Config.ParseDuration s = Ok d.
Proof.
  intros Hp Hd. unfold Config.ParseDuration.
  destruct (decide (s = "")) as [->|Hs]; [done|]. rewrite bool_decide_eq_false_2 by done.
  destruct (Config.day_digits s) as [ds|] eqn:E.
  - apply ConfigLemmas.day_digits_inv in E as (-> & Hne & Hds). by rewrite ParseDuration_day_form in Hp.
  - rewrite Hp. by rewrite (proj2 (Z.leb_gt _ _)).
Qed.

End DurationText.
