(* ===== verification/Bounds.v ===== *)
(** * Capture limits and the dumpcap command line

    internal/capture/bounds.go and internal/capture/filter.go: the bounds a
    spec carries, the arguments they become, and the checks the runner makes
    on the file that results.  An error is its message. *)

From S2P Require Import Prelude GoTime GoString Api Duration.

Module Bounds.

Definition MinDuration : duration := second.
Definition MaxDuration : duration := hour.
Definition MinSizeBytes : Z := 1048576.
Definition MaxSizeBytes : Z := 1073741824.
Definition MinSnaplen : Z := 64.
Definition MaxSnaplen : Z := 262144.
Definition MaxOvershootBytes : Z := 1048576.
Definition WorkVolumeHeadroomBytes : Z := 16777216.

Record Bounds := mkBounds {
  b_Duration : duration;
  b_MaxSizeBytes : Z;
  b_Snaplen : Z;
}.

Definition ParseBounds (spec : CaptureJobSpec) : result str Bounds :=
  match Config.ParseDuration (cjs_Duration spec) with
  | Err _ => Err "duration: not a valid duration"
  | Ok d =>
      if (d <? MinDuration) || (MaxDuration <? d)
      then Err "duration: must be between 1s and 1h0m0s" else
      match q_int64 (cjs_MaxSize spec) with
      | None => Err "maxSize: must be a whole number of bytes"
      | Some size =>
          if (size <? MinSizeBytes) || (MaxSizeBytes <? size)
          then Err "maxSize: must be between 1048576 and 1073741824 bytes"
          else if negb (cjs_Snaplen spec =? 0) &&
                  ((cjs_Snaplen spec <? MinSnaplen) || (MaxSnaplen <? cjs_Snaplen spec))
          then Err "snaplen: must be 0 or between 64 and 262144"
          else Ok {| b_Duration := d; b_MaxSizeBytes := size; b_Snaplen := cjs_Snaplen spec |}
      end
  end.

(** int64 division truncates toward zero. *)
Definition DumpcapFilesizeKB (maxSize : Z) : Z := Z.quot maxSize 1024.

Definition Overshoot (size maxSize : Z) : bool :=
  wrap64 (maxSize + MaxOvershootBytes) <? size.

Definition ActiveDeadline (b : Bounds) (startupBudget uploadBudget : duration) : duration :=
  wrap64 (wrap64 (startupBudget + b_Duration b) + uploadBudget).

Definition WorkVolumeBytes (b : Bounds) : Z :=
  wrap64 (b_MaxSizeBytes b + WorkVolumeHeadroomBytes).

(** ** filter.go *)

Definition MaxFilterBytes : Z := 1024.

Definition printable (c : Ascii.ascii) : bool :=
  negb ((byte_of c <? 32) || (126 <? byte_of c)).

Definition ValidateFilterSyntax (filter : str) : result str unit :=
  if MaxFilterBytes <? slen filter then Err "filter: longer than 1024 bytes"
  else if str_forallb printable filter then Ok tt
  else Err "filter: must be printable ASCII without control characters".

Definition DumpcapArgs (iface filter : str) (b : Bounds) (output : str) : list str :=
  let args := ["-i"; iface] in
  let args := if bool_decide (filter ≠ "") then args ++ ["-f"; filter] else args in
  let args := args ++
    ["-a"; "duration:" +:+ itoa (d_seconds_int (b_Duration b));
     "-a"; "filesize:" +:+ itoa (DumpcapFilesizeKB (b_MaxSizeBytes b))] in
  let args := if negb (b_Snaplen b =? 0) then args ++ ["-s"; itoa (b_Snaplen b)] else args in
  args ++ ["-n"; "-q"; "-w"; output].

Definition DryRunArgs (iface filter : str) : list str :=
  let args := ["-i"; iface] in
  let args := if bool_decide (filter ≠ "") then args ++ ["-f"; filter] else args in
  args ++ ["-d"].

(** What the capture contract asks of bounds. *)
Definition valid_bounds (b : Bounds) : Prop :=
  MinDuration ≤ b_Duration b ≤ MaxDuration ∧
  MinSizeBytes ≤ b_MaxSizeBytes b ≤ MaxSizeBytes ∧
  (b_Snaplen b = 0 ∨ MinSnaplen ≤ b_Snaplen b ≤ MaxSnaplen).

(** The values of the flag [flag] in an argument list, the way a command line
    is read: the argument after each occurrence at an option position. *)
Fixpoint flag_values (flag : str) (args : list str) : list str :=
  match args with
  | [] => []
  | a :: rest =>
      if bool_decide (a = "-n") || bool_decide (a = "-q") then flag_values flag rest
      else match rest with
           | [] => []
           | b :: rest' =>
               if bool_decide (a = flag) then b :: flag_values flag rest'
               else flag_values flag rest'
           end
  end.

(** ** Lemmas *)

Lemma ParseBounds_Ok spec b :
  ParseBounds spec = Ok b ↔
  Config.ParseDuration (cjs_Duration spec) = Ok (b_Duration b) ∧
  q_int64 (cjs_MaxSize spec) = Some (b_MaxSizeBytes b) ∧ cjs_Snaplen spec = b_Snaplen b ∧
  valid_bounds b.
Proof.
  unfold ParseBounds, valid_bounds. split.
  - intros H. go_cases; repeat match goal with H : _ ∨ _ |- _ => destruct H end;
      go_simp; (split_and!; [done..|lia|lia|lia|lia|auto with lia]).
  - intros (-> & -> & -> & Hd & Hs & Hn). destruct b as [d size n]. simpl in *.
    rewrite (proj2 (Z.ltb_ge d _)), (proj2 (Z.ltb_ge _ d)),
      (proj2 (Z.ltb_ge size _)), (proj2 (Z.ltb_ge _ size)) by lia. simpl.
    destruct Hn as [->|Hn]; [done|].
    rewrite (proj2 (Z.ltb_ge n _)), (proj2 (Z.ltb_ge _ n)), andb_false_r by lia. done.
Qed.

Lemma ParseBounds_valid spec b : ParseBounds spec = Ok b → valid_bounds b.
Proof. rewrite ParseBounds_Ok. naive_solver. Qed.

Ltac bounds_lia :=
  unfold valid_bounds, MinDuration, MaxDuration, MinSizeBytes, MaxSizeBytes,
    MaxOvershootBytes, WorkVolumeHeadroomBytes, in_int64, min_int64, max_int64,
    hour, minute, second in *; lia.

Lemma WorkVolumeBytes_exact b :
  valid_bounds b → WorkVolumeBytes b = b_MaxSizeBytes b + WorkVolumeHeadroomBytes.
Proof. intros. apply wrap64_id. bounds_lia. Qed.

Lemma Overshoot_spec size b :
  valid_bounds b →
  Overshoot size (b_MaxSizeBytes b) = false ↔ size ≤ b_MaxSizeBytes b + MaxOvershootBytes.
Proof.
  intros. unfold Overshoot. rewrite wrap64_id by bounds_lia. by rewrite Z.ltb_ge.
Qed.

Lemma ValidateFilterSyntax_Ok f :
  ValidateFilterSyntax f = Ok tt ↔ slen f ≤ MaxFilterBytes ∧ str_forallb printable f = true.
Proof.
  unfold ValidateFilterSyntax. destruct (Z.ltb_spec MaxFilterBytes (slen f)); [naive_solver lia|].
  destruct (str_forallb printable f); naive_solver.
Qed.

(** ** Theorems *)

(** [ParseBounds] accepts a spec exactly when its duration, size and
    snaplen parse and lie within the contract's limits, and the bounds it
    returns are those values; in particular no accepted capture runs for more
    than an hour of parsed duration or keeps more than a gibibyte. *)
Theorem ParseBounds_spec spec b :
  ParseBounds spec = Ok b ↔
  Config.ParseDuration (cjs_Duration spec) = Ok (b_Duration b) ∧
  q_int64 (cjs_MaxSize spec) = Some (b_MaxSizeBytes b) ∧ cjs_Snaplen spec = b_Snaplen b ∧
  (1 * second ≤ b_Duration b ≤ 3600 * second) ∧
  (2 ^ 20 ≤ b_MaxSizeBytes b ≤ 2 ^ 30) ∧
  (b_Snaplen b = 0 ∨ 64 ≤ b_Snaplen b ≤ 262144).
Proof. exact (ParseBounds_Ok spec b). Qed.

(** The dumpcap command line carries every bound: the only duration
    autostop is a whole number of seconds between 1 and 3600 that does not
    exceed the bound, the only size autostop names a positive number of kB
    that stays within the bound whether a kB is 1000 or 1024 bytes, and a file
    the runner does not discard as an overshoot fits the work volume. *)
Theorem DumpcapArgs_bounded iface filter spec b output size :
  ParseBounds spec = Ok b →
  Overshoot size (b_MaxSizeBytes b) = false →
  ∃ n kb,
    flag_values "-a" (DumpcapArgs iface filter b output) =
      ["duration:" +:+ itoa n; "filesize:" +:+ itoa kb] ∧
    1 ≤ n ≤ 3600 ∧ n * second ≤ b_Duration b < (n + 1) * second ∧
    1024 ≤ kb ∧ kb * 1000 ≤ kb * 1024 ≤ b_MaxSizeBytes b ∧
    size ≤ WorkVolumeBytes b.
Proof.
  intros Hv%ParseBounds_valid Ho. apply Overshoot_spec in Ho; [|done].
  rewrite WorkVolumeBytes_exact by done.
  exists (b_Duration b / second), (b_MaxSizeBytes b / 1024). split.
  - unfold DumpcapArgs, d_seconds_int, DumpcapFilesizeKB.
    rewrite !Z.quot_div_nonneg by bounds_lia.
    destruct (bool_decide (filter ≠ "")), (negb (b_Snaplen b =? 0)); reflexivity.
  - pose proof (Z.div_mod (b_Duration b) second ltac:(done)).
    pose proof (Z.mod_pos_bound (b_Duration b) second ltac:(done)).
    pose proof (Z.div_mod (b_MaxSizeBytes b) 1024 ltac:(done)).
    pose proof (Z.mod_pos_bound (b_MaxSizeBytes b) 1024 ltac:(done)).
    bounds_lia.
Qed.

Definition example_spec : CaptureJobSpec :=
  mkCaptureJobSpec CaptureRequestManual "tap" "node" "tcp" "30s" 96 (bytes_quantity 10485760) "24h" None None "".

Lemma DumpcapArgs_bounded_witness :
  ParseBounds example_spec = Ok (mkBounds (30 * second) 10485760 96) ∧
  ∃ n kb, flag_values "-a" (DumpcapArgs "eth0" "tcp" (mkBounds (30 * second) 10485760 96) "/w") =
    ["duration:" +:+ itoa n; "filesize:" +:+ itoa kb] ∧ 1 ≤ n ≤ 3600.
Proof.
  split; [vm_compute; reflexivity|].
  destruct (DumpcapArgs_bounded "eth0" "tcp" example_spec (mkBounds (30 * second) 10485760 96) "/w" 10485760)
    as (n & kb & H & Hn & _); [vm_compute; reflexivity|vm_compute; reflexivity|].
  exists n, kb. split; [exact H|exact Hn].
Defined.

(** The day form of a duration is multiplied out in int64 without an
    overflow check, so a count of days far beyond any limit wraps around to a
    short duration: ["213504d"] (584 years) parses as about 25 minutes and
    passes the range check of [ParseBounds], while ["0d"] is accepted as a
    zero duration although every other form must be positive. *)
Theorem day_count_overflow spec :
  Config.ParseDuration "213504d" = Ok 1526290448384 ∧
  Config.ParseDuration "0d" = Ok 0 ∧
  Config.ParseDuration "0s" = Err Config.DurationNotPositive ∧
  ParseBounds (mkCaptureJobSpec (cjs_RequestType spec) (cjs_TapRef spec) (cjs_TargetNode spec)
    (cjs_Filter spec) "213504d" 0 (bytes_quantity 1048576) (cjs_Retention spec) (cjs_PolicyRef spec)
    (cjs_Trigger spec) (cjs_DeduplicationKey spec)) =
  Ok {| b_Duration := 1526290448384; b_MaxSizeBytes := 1048576; b_Snaplen := 0 |}.
Proof. split_and!; vm_compute; reflexivity. Qed.

End Bounds.
