(* ===== verification/Utf8.v ===== *)
(** * UTF-8, as [unicode/utf8] and [range] over a string decode it

    [runes] is the sequence a [for _, r := range s] loop sees, with the bytes
    each rune came from: an invalid byte yields U+FFFD and consumes one byte.
    The accepted second-byte ranges are Go's table, so overlong forms and
    surrogates are invalid. *)

From S2P Require Import Prelude GoString.

Definition rune_error : Z := 65533.

Definition between (lo hi : Z) (c : Ascii.ascii) : bool :=
  (lo <=? byte_of c) && (byte_of c <=? hi).
Definition continuation : Ascii.ascii → bool := between 128 191.

(** The range of the second byte for a leading byte of a longer sequence, and
    the number of continuation bytes after it. *)
Definition lead_info (x : Z) : option (Z * Z * nat) :=
  if (194 <=? x) && (x <=? 223) then Some (128, 191, 0%nat)
  else if x =? 224 then Some (160, 191, 1%nat)
  else if x =? 237 then Some (128, 159, 1%nat)
  else if (225 <=? x) && (x <=? 239) then Some (128, 191, 1%nat)
  else if x =? 240 then Some (144, 191, 2%nat)
  else if (241 <=? x) && (x <=? 243) then Some (128, 191, 2%nat)
  else if x =? 244 then Some (128, 143, 2%nat)
  else None.

Record rune_tok := mkRune { r_value : Z; r_bytes : str; r_ok : bool }.

Definition bad_rune (a : Ascii.ascii) : rune_tok := mkRune rune_error (String a "") false.
Definition low6 (c : Ascii.ascii) : Z := Z.land (byte_of c) 63.

Fixpoint runes (s : str) : list rune_tok :=
  match s with
  | EmptyString => []
  | String a s1 =>
      let x := byte_of a in
      if x <? 128 then mkRune x (String a "") true :: runes s1 else
      match lead_info x, s1 with
      | Some (lo, hi, n), String b s2 =>
          if negb (between lo hi b) then bad_rune a :: runes s1 else
          match n, s2 with
          | O, _ =>
              mkRune (Z.land x 31 * 64 + low6 b) (String a (String b "")) true :: runes s2
          | S O, String c s3 =>
              if continuation c then
                mkRune (Z.land x 15 * 4096 + low6 b * 64 + low6 c)
                  (String a (String b (String c ""))) true :: runes s3
              else bad_rune a :: runes s1
          | S (S O), String c (String d s4) =>
              if continuation c && continuation d then
                mkRune (Z.land x 7 * 262144 + low6 b * 4096 + low6 c * 64 + low6 d)
                  (String a (String b (String c (String d "")))) true :: runes s4
              else bad_rune a :: runes s1
          | _, _ => bad_rune a :: runes s1
          end
      | _, _ => bad_rune a :: runes s1
      end
  end.

Fixpoint rune_concat (l : list rune_tok) : str :=
  match l with [] => "" | t :: l' => r_bytes t +:+ rune_concat l' end.

(** [utf8.ValidString] *)
Definition valid_string (s : str) : bool := forallb r_ok (runes s).

(** A string written by [json.Marshal] and read back: every byte that is not
    part of valid UTF-8 is U+FFFD, which is three bytes. *)
Definition replacement : str := String (Ascii.ascii_of_nat 239) (String (Ascii.ascii_of_nat 191) (String (Ascii.ascii_of_nat 189) "")).
Definition json_rune (t : rune_tok) : rune_tok := if r_ok t then t else mkRune rune_error replacement true.
Definition json_text (s : str) : str := rune_concat (json_rune <$> runes s).

(** [utf8.RuneStart]: not a continuation byte. *)
Definition rune_start (c : Ascii.ascii) : bool := negb (Z.land (byte_of c) 192 =? 128).

(** [unicode.IsSpace] *)
Definition is_space (r : Z) : bool :=
  ((9 <=? r) && (r <=? 13)) || (r =? 32) || (r =? 133) || (r =? 160) || (r =? 5760) ||
  ((8192 <=? r) && (r <=? 8202)) || (r =? 8232) || (r =? 8233) || (r =? 8239) ||
  (r =? 8287) || (r =? 12288).

Fixpoint drop_spaces (l : list rune_tok) : list rune_tok :=
  match l with
  | t :: l' => if is_space (r_value t) then drop_spaces l' else l
  | [] => []
  end.

(** [strings.TrimSpace] *)
Definition trim_space (s : str) : str :=
  rune_concat (reverse (drop_spaces (reverse (drop_spaces (runes s))))).

(** ** Lemmas *)

(** Case analysis on one step of the decoder; [H] collects the facts. *)
Ltac rune_cases :=
  repeat match goal with
  | |- context [if ?b then _ else _] => destruct b eqn:?
  | |- context [match ?x with _ => _ end] =>
      match type of x with
      | option (Z * Z * nat) => destruct x as [[[? ?] ?]|] eqn:?
      | string => destruct x as [|? ?] eqn:?
      | nat => destruct x as [|?] eqn:?
      end
  end.

Lemma runes_concat s : rune_concat (runes s) = s.
Proof.
  induction s as [s IH] using (induction_ltof1 _ String.length). unfold ltof in IH.
  destruct s as [|a s1]; [done|]. cbn [runes].
  rune_cases; subst; cbn [rune_concat r_bytes bad_rune]; rewrite IH by (simpl; lia); done.
Qed.

Lemma rune_concat_app l k : rune_concat (l ++ k) = rune_concat l +:+ rune_concat k.
Proof. induction l; simpl; [done|]. by rewrite IHl, str_app_assoc. Qed.

(** A token produced by the decoder re-decodes to itself in any context it is
    followed by, provided it was valid. *)
Definition good_tok (t : rune_tok) : Prop :=
  r_ok t = true ∧ ∀ s, runes (r_bytes t +:+ s) = t :: runes s.

Lemma runes_good s : Forall (λ t, r_ok t = true → good_tok t) (runes s).
Proof.
  induction s as [s IH] using (induction_ltof1 _ String.length). unfold ltof in IH.
  destruct s as [|a s1]; [constructor|]. cbn [runes].
  rune_cases; subst; (constructor; [|apply IH; simpl; lia]); cbn [r_ok bad_rune]; try done;
    intros _; (split; [done|]); intros r; cbn [r_bytes String.append runes];
    repeat match goal with H : ?x = _ |- context [?x] => rewrite H end; done.
Qed.

Lemma runes_good_concat l : Forall good_tok l → runes (rune_concat l) = l.
Proof.
  induction 1 as [|t l [Hok Ht] Hl IH]; [done|]. cbn [rune_concat]. by rewrite Ht, IH.
Qed.

Lemma good_concat_valid l : Forall good_tok l → valid_string (rune_concat l) = true.
Proof.
  intros Hl. unfold valid_string. rewrite runes_good_concat by done.
  apply forallb_forall. intros t Ht%list_elem_of_In.
  rewrite Forall_forall in Hl. by destruct (Hl t Ht) as [-> _].
Qed.

Lemma valid_good s : valid_string s = true → Forall good_tok (runes s).
Proof.
  intros Hv. pose proof (runes_good s) as Hg. unfold valid_string in Hv.
  rewrite forallb_forall in Hv.
  apply Forall_forall. intros t Ht. rewrite Forall_forall in Hg.
  apply Hg; [done|]. by apply Hv, list_elem_of_In.
Qed.

Lemma drop_spaces_suffix l : ∃ k, l = k ++ drop_spaces l.
Proof.
  induction l as [|t l [k Hk]]; [by exists []|]. simpl.
  destruct (is_space (r_value t)); [|by exists []].
  exists (t :: k). by rewrite Hk at 1.
Qed.

Lemma trim_space_runes s :
  ∃ l1 l2 l3, runes s = l1 ++ l2 ++ l3 ∧ trim_space s = rune_concat l2.
Proof.
  unfold trim_space. destruct (drop_spaces_suffix (runes s)) as [k1 H1].
  set (m := drop_spaces (runes s)) in *.
  destruct (drop_spaces_suffix (reverse m)) as [k2 H2].
  set (m' := drop_spaces (reverse m)) in *.
  exists k1, (reverse m'), (reverse k2). split; [|done].
  rewrite H1. f_equal. apply (f_equal reverse) in H2.
  by rewrite reverse_involutive, reverse_app in H2.
Qed.


(** Valid tokens are one start byte and continuation bytes. *)
Definition tok_shape (t : rune_tok) : Prop :=
  ∃ c r, r_bytes t = String c r ∧ str_forallb (λ d, negb (rune_start d)) r = true.

Lemma between_not_start lo hi c :
  128 ≤ lo → hi ≤ 191 → between lo hi c = true → negb (rune_start c) = true.
Proof.
  unfold between, rune_start. intros Hlo Hhi [H1 H2]%andb_true_iff.
  apply Z.leb_le in H1, H2. rewrite negb_involutive. apply Z.eqb_eq.
  assert (128 ≤ byte_of c ≤ 191) as Hc by lia. clear -Hc.
  destruct c as [[] [] [] [] [] [] [] []]; first [reflexivity | exfalso; unfold byte_of in Hc; simpl in Hc; lia].
Qed.

Lemma lead_info_range x lo hi n : lead_info x = Some (lo, hi, n) → 128 ≤ lo ∧ hi ≤ 191.
Proof. unfold lead_info. intros. go_cases; lia. Qed.

Lemma runes_shape s : Forall tok_shape (runes s).
Proof.
  assert (∀ c, continuation c = true → negb (rune_start c) = true) as Hcont.
  { intros c. by apply between_not_start. }
  assert (∀ lo hi n x c, lead_info x = Some (lo, hi, n) → negb (between lo hi c) = false →
    negb (rune_start c) = true) as Hlead.
  { intros lo hi n x c [? ?]%lead_info_range Hb%negb_false_iff. by eapply between_not_start. }
  induction s as [s IH] using (induction_ltof1 _ String.length). unfold ltof in IH.
  destruct s as [|a s1]; [constructor|]. cbn [runes].
  rune_cases; subst; (constructor; [|apply IH; simpl; lia]);
    (eexists _, _; split; [reflexivity|]); cbn [str_forallb];
    repeat match goal with H : _ && _ = true |- _ => apply andb_true_iff in H as [? ?] end;
    rewrite ?(Hlead _ _ _ _ _ ltac:(eassumption) ltac:(eassumption)), ?Hcont by done; done.
Qed.

(** Cutting before a rune start keeps whole runes. *)
Lemma str_take_at_start l i :
  Forall tok_shape l →
  (∀ c r, str_drop i (rune_concat l) = String c r → rune_start c = true) →
  ∃ l1 l2, l = l1 ++ l2 ∧ str_take i (rune_concat l) = rune_concat l1.
Proof.
  intros Hl. revert i. induction Hl as [|t l (c & r & Hb & Hr) Hl IH]; intros i Hstart.
  { exists [], []. split; [done|]. by destruct i. }
  destruct i as [|i].
  { by exists [], (t :: l). }
  cbn [rune_concat] in *. rewrite Hb in *.
  destruct (decide (i < String.length r)%nat) as [Hi|Hi].
  - exfalso. clear -Hr Hi Hstart. simpl in Hstart. revert i Hi Hstart.
    induction r as [|d r IHr]; intros i Hi Hstart; simpl in *; [lia|].
    apply andb_true_iff in Hr as [Hd Hr]. destruct i as [|i].
    + by rewrite (Hstart d (r +:+ rune_concat l) eq_refl) in Hd.
    + apply (IHr Hr i); [lia|]. done.
  - destruct (IH (i - String.length r)%nat) as (l1 & l2 & -> & Htake).
    { intros d q Hq. apply (Hstart d q). simpl.
      replace i with (String.length r + (i - String.length r))%nat by lia.
      rewrite <-str_drop_drop, str_drop_app. done. }
    exists (t :: l1), l2. split; [done|]. cbn [rune_concat]. rewrite Hb, <-Htake. simpl. f_equal.
    replace i with (String.length r + (i - String.length r))%nat at 1 by lia.
    apply str_take_app_add.
Qed.

(** An invalid token is U+FFFD. *)
Lemma runes_bad s : Forall (λ t, r_ok t = false → r_value t = rune_error) (runes s).
Proof.
  induction s as [s IH] using (induction_ltof1 _ String.length). unfold ltof in IH.
  destruct s as [|a s1]; [constructor|]. cbn [runes].
  rune_cases; subst; (constructor; [|apply IH; simpl; lia]); done.
Qed.

(** The first byte of a valid token starts a rune. *)
Lemma runes_first_start t c r :
  (∀ s, runes (r_bytes t +:+ s) = t :: runes s) → r_bytes t = String c r → r_ok t = true →
  rune_start c = true.
Proof.
  intros Ht Hb Hok. specialize (Ht ""). rewrite Hb in Ht. clear Hb. revert Ht.
  assert (∀ x, lead_info x ≠ None → x < 128 ∨ 194 <= x) as Hlead.
  { intros x. unfold lead_info. intros Hx. go_cases; lia. }
  assert (byte_of c < 128 ∨ 192 ≤ byte_of c → rune_start c = true) as Hc.
  { clear. intros H. destruct c as [[] [] [] [] [] [] [] []];
      first [reflexivity | exfalso; unfold byte_of in H; simpl in H; lia]. }
  cbn [String.append runes]. destruct (byte_of c <? 128) eqn:E; [intros _; apply Hc; lia|].
  destruct (lead_info (byte_of c)) as [[[lo hi] n]|] eqn:El.
  - intros _. apply Hc. destruct (Hlead (byte_of c)); [by rewrite El|lia|lia].
  - intros [= <- _]. done.
Qed.

(** ** ASCII *)

Lemma lead_value x lo hi n b :
  0 ≤ b < 256 → lead_info x = Some (lo, hi, n) → between lo hi (ascii_of b) = true →
  match n with
  | O => 128 ≤ Z.land x 31 * 64
  | S O => 2048 ≤ Z.land x 15 * 4096 + Z.land b 63 * 64
  | _ => 65536 ≤ Z.land x 7 * 262144 + Z.land b 63 * 4096
  end.
Proof.
  intros Hb Hl [Hlo Hhi]%andb_true_iff. rewrite byte_of_ascii in Hlo, Hhi by done.
  apply Z.leb_le in Hlo, Hhi. revert Hl. unfold lead_info.
  change 31 with (Z.ones 5). change 15 with (Z.ones 4). change 7 with (Z.ones 3). change 63 with (Z.ones 6).
  rewrite !Z.land_ones by lia.
  change (2 ^ 5) with 32. change (2 ^ 4) with 16. change (2 ^ 3) with 8. change (2 ^ 6) with 64.
  intros Hl. go_cases; Z.to_euclidean_division_equations; lia.
Qed.

Lemma low6_range c : 0 ≤ low6 c < 64.
Proof.
  unfold low6. change 63 with (Z.ones 6). rewrite Z.land_ones by lia. apply Z.mod_pos_bound. lia.
Qed.

Lemma land_nonneg x y : 0 ≤ y → 0 ≤ Z.land x y.
Proof. intros. apply Z.land_nonneg. by right. Qed.

(** A rune below 128 is its byte. *)
Lemma runes_ascii s :
  Forall (λ t, r_value t < 128 → ∃ c, r_bytes t = String c "" ∧ r_value t = byte_of c) (runes s).
Proof.
  induction s as [s IH] using (induction_ltof1 _ String.length). unfold ltof in IH.
  destruct s as [|a s1]; [constructor|]. cbn [runes].
  assert (∀ b lo hi n, lead_info (byte_of a) = Some (lo, hi, n) → negb (between lo hi b) = false →
    match n with
    | O => 128 ≤ Z.land (byte_of a) 31 * 64
    | S O => 2048 ≤ Z.land (byte_of a) 15 * 4096 + low6 b * 64
    | _ => 65536 ≤ Z.land (byte_of a) 7 * 262144 + low6 b * 4096
    end) as Hlead.
  { intros b lo hi n Hl Hb%negb_false_iff. unfold low6.
    apply (lead_value (byte_of a) lo hi n (byte_of b)); [apply byte_of_range|done|by rewrite ascii_of_byte]. }
  rune_cases; subst; (constructor; [|apply IH; simpl; lia]); cbn [r_value r_bytes bad_rune];
    intros Hlt; try (by exfalso; clear -Hlt; vm_compute in Hlt); try (by eexists); exfalso;
    match goal with
    | Hb : negb (between _ _ ?b) = false |- _ =>
        pose proof (Hlead _ _ _ _ eq_refl Hb); pose proof (low6_range b)
    end;
    repeat match goal with c : Ascii.ascii |- _ => lazymatch goal with
      | _ : 0 ≤ low6 c < 64 |- _ => fail
      | _ => pose proof (low6_range c) end end;
    cbn in *; lia.
Qed.

Definition ascii_tok (c : Ascii.ascii) : rune_tok := mkRune (byte_of c) (String c "") true.

(** A prefix of ASCII bytes is decoded byte by byte. *)
Lemma runes_ascii_app m r :
  str_forallb (λ c, byte_of c <? 128) m = true →
  runes (m +:+ r) = (ascii_tok <$> String.list_ascii_of_string m) ++ runes r.
Proof.
  induction m as [|c m IH]; [done|]. cbn [str_forallb]. intros [Hc Hs]%andb_true_iff.
  cbn [String.append runes String.list_ascii_of_string fmap list_fmap app]. rewrite Hc. f_equal. by apply IH.
Qed.

(** Runes below 128 spell the bytes they came from. *)
Lemma ascii_concat (p : Z → bool) s l :
  (∀ t, t ∈ l → t ∈ runes s) → (∀ z, p z = true → z < 128) →
  Forall (λ t, p (r_value t) = true) l → str_forallb (λ c, p (byte_of c)) (rune_concat l) = true.
Proof.
  intros Hin Hp. induction l as [|t l IH]; [done|]. intros [Ht Hl]%Forall_cons. cbn [rune_concat].
  pose proof (runes_ascii s) as Ha. rewrite Forall_forall in Ha.
  destruct (Ha t (Hin t ltac:(left)) (Hp _ Ht)) as (c & Ec & Ev). rewrite Ec. cbn [String.append str_forallb].
  rewrite <-Ev, Ht. apply IH; [|done]. intros t' Ht'. apply Hin. by right.
Qed.

(** A byte that is no part of an ASCII character. *)
Definition high_byte (c : Ascii.ascii) : bool := 128 <=? byte_of c.

(** What a decoded rune is made of: one ASCII byte, or high bytes only. *)
Definition tok_form (t : rune_tok) : Prop :=
  (∃ c, t = ascii_tok c ∧ byte_of c < 128) ∨
  (128 ≤ r_value t ∧ r_bytes t ≠ "" ∧ str_forallb high_byte (r_bytes t) = true).

Lemma between_high lo hi c : 128 ≤ lo → between lo hi c = true → high_byte c = true.
Proof. unfold between, high_byte. intros Hlo [H1 _]%andb_true_iff. lia. Qed.

Lemma runes_form s : Forall tok_form (runes s).
Proof.
  assert (∀ c, continuation c = true → high_byte c = true) as Hcont.
  { intros c. by apply between_high. }
  assert (∀ lo hi n x c, lead_info x = Some (lo, hi, n) → negb (between lo hi c) = false → high_byte c = true) as Hlead.
  { intros lo hi n x c [? ?]%lead_info_range Hb%negb_false_iff. by eapply between_high. }
  assert (∀ t, (r_value t < 128 → ∃ c, r_bytes t = String c "" ∧ r_value t = byte_of c) →
    r_bytes t ≠ "" → str_forallb high_byte (r_bytes t) = true → tok_form t) as Hhigh.
  { intros t Hv Hne Hb. right. split_and!; [|done..]. destruct (decide (r_value t < 128)) as [Hlt|]; [|lia].
    destruct (Hv Hlt) as (c & E & Ev). rewrite E in Hb. cbn in Hb. unfold high_byte in Hb. lia. }
  pose proof (runes_ascii s) as Ha. revert Ha.
  induction s as [s IH] using (induction_ltof1 _ String.length). unfold ltof in IH.
  destruct s as [|a s1]; [constructor|]. cbn [runes].
  rune_cases; subst; intros [Ht Ha]%Forall_cons; (constructor; [|apply IH; [simpl; lia|exact Ha]]).
  1: left; exists a; split; [done|by apply Z.ltb_lt].
  all: apply Hhigh; [exact Ht|done|]; cbn [r_bytes bad_rune str_forallb];
    repeat match goal with H : _ && _ = true |- _ => apply andb_true_iff in H as [? ?] end;
    rewrite ?(Hlead _ _ _ _ _ ltac:(eassumption) ltac:(eassumption));
    repeat match goal with H : continuation ?c = true |- _ => rewrite (Hcont c H); clear H end; rewrite ?andb_true_r;
    unfold high_byte; by apply Z.leb_le, Z.ltb_ge.
Qed.

(** Decoded runes that spell an ASCII text are its bytes. *)
Lemma ascii_toks l s :
  Forall tok_form l → rune_concat l = s → str_forallb (λ c, byte_of c <? 128) s = true →
  l = ascii_tok <$> String.list_ascii_of_string s.
Proof.
  intros Hl. revert s. induction Hl as [|t l Ht Hl IH]; intros s <-; [done|]. cbn [rune_concat].
  rewrite str_forallb_app, andb_true_iff. intros [Hb Hs].
  destruct Ht as [(c & -> & Hc)|(Hv & Hne & Hh)].
  - cbn. f_equal. by apply IH.
  - exfalso. destruct (r_bytes t) as [|c r]; [done|]. cbn in Hh, Hb. apply andb_true_iff in Hh as [Hh _], Hb as [Hb _].
    unfold high_byte in Hh. lia.
Qed.

(** A class of runes that has every non-ASCII one, on runes and on bytes. *)
Lemma class_bytes (p : Z → bool) l :
  (∀ r, 128 ≤ r → p r = true) → Forall tok_form l →
  Forall (λ t, p (r_value t) = true) l ↔ str_forallb (λ c, p (byte_of c)) (rune_concat l) = true.
Proof.
  intros Hp. induction 1 as [|t l Ht Hl IH]; [done|]. rewrite Forall_cons. cbn [rune_concat].
  rewrite str_forallb_app, andb_true_iff, IH. apply and_iff_compat_r. destruct Ht as [(c & -> & Hc)|(Hv & Hne & Hh)].
  - cbn. by rewrite andb_true_r.
  - split; intros _; [|by apply Hp]. eapply str_forallb_impl; [|exact Hh]. intros c Hc. apply Hp.
    unfold high_byte in Hc. lia.
Qed.

Lemma json_text_valid s : valid_string s = true → json_text s = s.
Proof.
  intros Hv%valid_good. unfold json_text. rewrite <- (runes_concat s) at 2. f_equal.
  induction Hv as [|t l [Hok _] _ IH]; [done|]. rewrite fmap_cons, IH. unfold json_rune. by rewrite Hok.
Qed.

Lemma json_text_good s : valid_string (json_text s) = true.
Proof.
  apply good_concat_valid. pose proof (runes_good s) as Hg.
  induction Hg as [|t l Ht _ IH]; [constructor|]. rewrite fmap_cons. constructor; [|done].
  unfold json_rune. destruct (r_ok t) eqn:E; [by apply Ht|]. by split.
Qed.

Lemma json_text_idemp s : json_text (json_text s) = json_text s.
Proof. apply json_text_valid, json_text_good. Qed.

Lemma valid_ascii s : str_forallb (λ c, byte_of c <? 128) s = true → valid_string s = true.
Proof.
  intros Hs. unfold valid_string. rewrite <- (str_app_nil_r s), runes_ascii_app by done.
  simpl. rewrite app_nil_r. by induction (String.list_ascii_of_string s).
Qed.

