(* ===== verification/Regexp.v ===== *)
(** * Regular expressions, as [regexp] searches them

    The program uses Go's [regexp] for redaction, for template placeholders
    and for name shapes.  This is its leftmost-first semantics on the runes of
    a string: alternatives in order, repetitions greedy or lazy, submatches
    captured, found by backtracking.  A match inside a [Star] must consume
    input, so a search always terminates; [fuel] in the loop is the number of
    runes left, which no chain of consuming matches can exceed. *)

From S2P Require Import Prelude GoString Utf8.

Inductive regexp :=
  | Eps
  | Any (p : Z → bool)
  | Seq (a b : regexp)
  | Alt (a b : regexp)
  | Star (greedy : bool) (a : regexp)
  | Group (n : nat) (a : regexp)
  | WordBoundary
  | TextStart
  | TextEnd.

(** Where a match stands: the rune before, the runes left, the submatches. *)
Record mstate := mkState {
  ms_prev : option Z;
  ms_rest : list rune_tok;
  ms_caps : list (nat * str);
}.

Definition is_word (r : Z) : bool :=
  ((48 <=? r) && (r <=? 57)) || ((65 <=? r) && (r <=? 90)) ||
  ((97 <=? r) && (r <=? 122)) || (r =? 95).

Definition word_at (o : option Z) : bool := match o with Some r => is_word r | None => false end.
Definition next_rune (st : mstate) : option Z := r_value <$> head (ms_rest st).

(** [go r st k]: the first way, in priority order, to match [r] at [st] after
    which [k] succeeds. *)
Fixpoint go (r : regexp) (st : mstate) (k : mstate → option mstate) : option mstate :=
  match r with
  | Eps => k st
  | Any p =>
      match ms_rest st with
      | t :: rest =>
          if p (r_value t) then k (mkState (Some (r_value t)) rest (ms_caps st)) else None
      | [] => None
      end
  | Seq a b => go a st (λ st', go b st' k)
  | Alt a b => match go a st k with Some x => Some x | None => go b st k end
  | Star greedy a =>
      (fix loop (fuel : nat) (st : mstate) {struct fuel} : option mstate :=
         match fuel with
         | O => k st
         | S n =>
             let more := go a st (λ st',
               if bool_decide (length (ms_rest st') < length (ms_rest st))%nat
               then loop n st' else None) in
             if greedy then match more with Some x => Some x | None => k st end
             else match k st with Some x => Some x | None => more end
         end) (length (ms_rest st)) st
  | Group n a =>
      go a st (λ st',
        let taken := take (length (ms_rest st) - length (ms_rest st')) (ms_rest st) in
        k (mkState (ms_prev st') (ms_rest st') ((n, rune_concat taken) :: ms_caps st')))
  | WordBoundary =>
      if xorb (word_at (ms_prev st)) (word_at (next_rune st)) then k st else None
  | TextStart => match ms_prev st with None => k st | Some _ => None end
  | TextEnd => match ms_rest st with [] => k st | _ => None end
  end.

Definition match_at (r : regexp) (prev : option Z) (rest : list rune_tok) : option mstate :=
  go r (mkState prev rest []) Some.

(** [MatchString]: a match at any position. *)
Fixpoint search (r : regexp) (prev : option Z) (rest : list rune_tok) : bool :=
  match match_at r prev rest with
  | Some _ => true
  | None => match rest with [] => false | t :: rest' => search r (Some (r_value t)) rest' end
  end.

Definition match_string (r : regexp) (s : str) : bool := search r None (runes s).

Definition cap (caps : list (nat * str)) (n : nat) : str :=
  match list_find (λ c, c.1 = n) caps with Some (_, (_, s)) => s | None => "" end.

(** [ReplaceAllString] for an expression that never matches the empty string:
    copy up to the leftmost match, emit the replacement computed from the
    submatches (submatch 0 is the whole match), go on after the match. *)
Fixpoint replace_runes (fuel : nat) (r : regexp) (repl : list (nat * str) → str)
    (prev : option Z) (l : list rune_tok) : str :=
  match fuel, l with
  | S n, t :: l' =>
      match match_at (Group 0 r) prev l with
      | Some st =>
          if bool_decide (length (ms_rest st) < length l)%nat
          then repl (ms_caps st) +:+ replace_runes n r repl (ms_prev st) (ms_rest st)
          else r_bytes t +:+ replace_runes n r repl (Some (r_value t)) l'
      | None => r_bytes t +:+ replace_runes n r repl (Some (r_value t)) l'
      end
  | _, _ => ""
  end.

Definition replace_all (r : regexp) (repl : list (nat * str) → str) (s : str) : str :=
  let l := runes s in replace_runes (length l) r repl None l.

(** ** Building expressions *)

Definition in_range (lo hi r : Z) : bool := (lo <=? r) && (r <=? hi).
Definition in_chars (s : str) (r : Z) : bool :=
  existsb (λ t, r_value t =? r) (runes s).
Definition alnum (r : Z) : bool := in_range 48 57 r || in_range 65 90 r || in_range 97 122 r.
(** [\s] of Go's syntax: [[\t\n\f\r ]]. *)
Definition re_space (r : Z) : bool := (r =? 9) || (r =? 10) || (r =? 12) || (r =? 13) || (r =? 32).
Definition not_ (p : Z → bool) (r : Z) : bool := negb (p r).

(** Simple case folding of ASCII: k and s have a third spelling, the Kelvin
    sign and the long s. *)
Definition fold_rune (r : Z) : Z :=
  if in_range 65 90 r then r + 32
  else if r =? 8490 then 107
  else if r =? 383 then 115
  else r.
(** [(?i)p], for a [p] that is a union of case-closed ranges and points. *)
Definition folded (p : Z → bool) (r : Z) : bool := p r || p (fold_rune r).

Definition lit_with (f : Z → Z) (s : str) : regexp :=
  foldr (λ t k, Seq (Any (λ r, f r =? r_value t)) k) Eps (runes s).
Definition lit : str → regexp := lit_with (λ r, r).
Definition lit_i : str → regexp := lit_with fold_rune.

Definition star (p : Z → bool) : regexp := Star true (Any p).
Definition plus (p : Z → bool) : regexp := Seq (Any p) (star p).
Definition opt (a : regexp) : regexp := Alt a Eps.
Fixpoint times (n : nat) (a : regexp) : regexp :=
  match n with O => Eps | S n' => Seq a (times n' a) end.
Fixpoint seqs (l : list regexp) : regexp :=
  match l with [] => Eps | [a] => a | a :: l' => Seq a (seqs l') end.
Fixpoint alts (l : list regexp) : regexp :=
  match l with [] => Eps | [a] => a | a :: l' => Alt a (alts l') end.

(** ** The search stays inside the input *)

Definition suffix_of (st st1 : mstate) : Prop := ∃ l, ms_rest st = l ++ ms_rest st1.

Lemma suffix_of_refl st : suffix_of st st.
Proof. by exists []. Qed.

Lemma suffix_of_trans st1 st2 st3 : suffix_of st1 st2 → suffix_of st2 st3 → suffix_of st1 st3.
Proof. intros [l1 H1] [l2 H2]. exists (l1 ++ l2). by rewrite H1, H2, app_assoc. Qed.

#[local] Hint Resolve suffix_of_refl : golang.

(** A successful search hands a suffix of the input to its continuation. *)
Lemma go_suffix r st k st' :
  go r st k = Some st' → ∃ st1, k st1 = Some st' ∧ suffix_of st st1.
Proof.
  revert st k. induction r as [|p|a IHa b IHb|a IHa b IHb|greedy a IHa|n a IHa| | |];
    intros st k; cbn [go].
  - eauto with golang.
  - destruct (ms_rest st) as [|t rest] eqn:E; [done|]. destruct (p (r_value t)); [|done].
    intros H. exists (mkState (Some (r_value t)) rest (ms_caps st)). split; [done|]. by exists [t].
  - intros (st1 & H1 & E1)%IHa. apply IHb in H1 as (st2 & H2 & E2).
    eauto using suffix_of_trans.
  - destruct (go a st k) eqn:E; [intros [= ->]; by apply IHa|apply IHb].
  - generalize (length (ms_rest st)) as fuel. intros fuel. revert st.
    induction fuel as [|fuel IH]; intros st; cbn; [eauto with golang|].
    set (m := go a st _). intros H. assert (k st = Some st' ∨ m = Some st') as [Hk|Hgo].
    { destruct greedy; case_match; simplify_eq; auto. }
    + eauto with golang.
    + apply IHa in Hgo as (st1 & H1 & E1). case_bool_decide; [|done].
      apply IH in H1 as (st2 & H2 & E2). eauto using suffix_of_trans.
  - intros (st1 & H1 & E1)%IHa. by exists (mkState (ms_prev st1) (ms_rest st1)
      ((n, rune_concat (take (length (ms_rest st) - length (ms_rest st1)) (ms_rest st))) :: ms_caps st1)).
  - destruct (xorb _ _); [|done]. eauto with golang.
  - destruct (ms_prev st); [done|]. eauto with golang.
  - destruct (ms_rest st) eqn:E; [|done]. eauto with golang.
Qed.

Lemma match_at_suffix r prev l st :
  match_at r prev l = Some st → ∃ k, l = k ++ ms_rest st.
Proof. by intros (st1 & [= ->] & H)%go_suffix. Qed.

(** ** What a greedy run of one class matches *)

(** The state after the runes [l1], with [l2] left. *)
Definition advance (st : mstate) (l1 l2 : list rune_tok) : mstate :=
  mkState (match last l1 with Some t => Some (r_value t) | None => ms_prev st end) l2 (ms_caps st).

Lemma star_spec p st (k : mstate → option mstate) :
  go (star p) st k ≠ None ↔
  ∃ l1 l2, ms_rest st = l1 ++ l2 ∧ Forall (λ t, p (r_value t) = true) l1 ∧ k (advance st l1 l2) ≠ None.
Proof.
  unfold star. cbn [go]. set (loop := fix loop (fuel : nat) (st : mstate) {struct fuel} : option mstate := _).
  assert (∀ fuel st, (length (ms_rest st) ≤ fuel)%nat → loop fuel st ≠ None ↔
    ∃ l1 l2, ms_rest st = l1 ++ l2 ∧ Forall (λ t, p (r_value t) = true) l1 ∧ k (advance st l1 l2) ≠ None)
    as Hloop; [|by apply Hloop].
  clear st. assert (∀ st, advance st [] (ms_rest st) = st) as Hadv by by intros [].
  induction fuel as [|fuel IH]; intros st Hlen.
  - assert (ms_rest st = []) as Er by (apply nil_length_inv; lia).
    pose proof (Hadv st) as Hst. rewrite Er in Hst. cbn [loop]. split.
    + intros Hk. exists [], []. rewrite Er. split_and!; [done|done|]. by rewrite Hst.
    + intros (l1 & l2 & Hl & _ & Hk). rewrite Er in Hl. symmetry in Hl. apply app_nil in Hl as [-> ->].
      by rewrite Hst in Hk.
  - change (loop (S fuel) st) with
      (match (match ms_rest st with
              | t :: rest => if p (r_value t) then
                  (if bool_decide (length rest < length (ms_rest st))%nat
                   then loop fuel (mkState (Some (r_value t)) rest (ms_caps st)) else None) else None
              | [] => None end) with Some x => Some x | None => k st end).
    pose proof (Hadv st) as Hst. destruct (ms_rest st) as [|t rest] eqn:Er.
    { split.
      - intros Hk. exists [], []. split_and!; [done|done|]. by rewrite Hst.
      - intros (l1 & l2 & Hl & _ & Hk). symmetry in Hl. apply app_nil in Hl as [-> ->]. by rewrite Hst in Hk. }
    rewrite bool_decide_eq_true_2 by (simpl; lia). simpl in Hlen.
    set (st1 := mkState (Some (r_value t)) rest (ms_caps st)).
    pose proof (IH st1 ltac:(simpl; lia)) as IH1. simpl in IH1.
    assert (∀ l1 l2, advance st1 l1 l2 = advance st (t :: l1) l2) as Hcons.
    { intros l1 l2. unfold advance. rewrite last_cons. by destruct (last l1). }
    split.
    + destruct (p (r_value t)) eqn:Ep; [destruct (loop fuel st1) eqn:El|].
      * intros _. destruct (proj1 IH1 ltac:(done)) as (l1 & l2 & -> & Hp & Hk).
        exists (t :: l1), l2. split_and!; [done|by constructor|]. by rewrite <-Hcons.
      * intros Hk. exists [], (t :: rest). split_and!; [done|done|]. by rewrite Hst.
      * intros Hk. exists [], (t :: rest). split_and!; [done|done|]. by rewrite Hst.
    + intros (l1 & l2 & Hl & Hp & Hk). destruct l1 as [|t' l1].
      * simpl in Hl. subst l2. rewrite Hst in Hk. by destruct (if p (r_value t) then _ else _).
      * injection Hl as <- ->. apply Forall_cons in Hp as [Ht Hp]. rewrite Ht.
        destruct (loop fuel st1) eqn:El; [done|]. exfalso. apply (proj2 IH1); [|done].
        exists l1, l2. split_and!; [done..|]. by rewrite Hcons.
Qed.
