(* ===== verification/Names.v ===== *)
(** * Names and digests

    The anchored regular expressions several components hold names to, and
    what each accepts, byte by byte: the DNS label, the dotted name, and the
    digest-pinned reference. *)

From S2P Require Import Prelude GoString Utf8 Regexp.

Module Names.

Definition name_first (r : Z) : bool := in_range 97 122 r || in_range 48 57 r.
Definition label_rune (r : Z) : bool := name_first r || (r =? 45).
Definition name_rune (r : Z) : bool := label_rune r || (r =? 46).

(** Anchored: a first character, then optionally more ending in a last one. *)
Definition anchored (inner : Z → bool) : regexp :=
  Seq TextStart (Seq (Any name_first)
    (Seq (opt (Group 1 (Seq (star inner) (Any name_first)))) TextEnd)).

Lemma search_TextStart r prev l : search (Seq TextStart r) (Some prev) l = false.
Proof. revert prev. induction l as [|t l IH]; intros prev; [done|]. cbn. apply IH. Qed.

(** What the anchored expression accepts, rune by rune. *)
Lemma anchored_spec inner s :
  match_string (anchored inner) s = true ↔
  ∃ t rest, runes s = t :: rest ∧ name_first (r_value t) = true ∧
    (rest = [] ∨ ∃ l t2, rest = l ++ [t2] ∧ Forall (λ t, inner (r_value t) = true) l ∧ name_first (r_value t2) = true).
Proof.
  unfold match_string. assert (search (anchored inner) None (runes s) = is_Some_b (match_at (anchored inner) None (runes s))) as ->.
  { destruct (runes s) as [|t l]; cbn [search]; (destruct (match_at _ _ _); [done|]); [done|]. apply search_TextStart. }
  unfold match_at, anchored, opt. cbn [go ms_prev ms_rest].
  destruct (runes s) as [|t rest]; [split; [done|by intros (? & ? & ? & _)]|].
  destruct (name_first (r_value t)) eqn:Et.
  2: { split; [done|]. intros (t' & rest' & [= <- <-] & Ht & _). by rewrite Et in Ht. }
  match goal with |- context [match ?a with Some x => Some x | None => _ end] => set (more := a) end.
  assert (more ≠ None ↔ ∃ l t2, rest = l ++ [t2] ∧ Forall (λ t, inner (r_value t) = true) l ∧ name_first (r_value t2) = true) as Hmore.
  { unfold more. rewrite star_spec. cbn [ms_rest]. split.
    - intros (l1 & l2 & -> & Hl1 & Hk). cbn [advance ms_rest] in Hk.
      destruct l2 as [|t2 l2]; [done|]. destruct (name_first (r_value t2)) eqn:E2; [|done].
      destruct l2; [|done]. by exists l1, t2.
    - intros (l & t2 & -> & Hl & E2). exists l, [t2]. split_and!; [done|done|]. cbn [advance ms_rest]. by rewrite E2. }
  destruct more as [st|].
  - split; [intros _|done]. destruct (proj1 Hmore ltac:(done)) as (l & t2 & -> & ? & ?).
    exists t. eexists. split; [done|]. split; [done|]. right. by exists l, t2.
  - destruct rest as [|t1 rest]; cbn.
    + split; [intros _|done]. exists t, []. auto.
    + split; [done|]. intros (t' & rest' & [= <- <-] & _ & [?|Hex]); [done|]. by apply Hmore in Hex.
Qed.

(** Letters, digits and the inner characters of a name, by byte. *)
Definition name_shape (inner : Z → bool) (s : str) : Prop :=
  ∃ c, name_first (byte_of c) = true ∧
    (s = String c "" ∨ ∃ m d, s = String c (m +:+ String d "") ∧
       str_forallb (λ x, inner (byte_of x)) m = true ∧ name_first (byte_of d) = true).

Lemma name_first_ascii r : name_first r = true → r < 128.
Proof. unfold name_first, in_range. rewrite orb_true_iff, !andb_true_iff. lia. Qed.

Lemma anchored_shape inner s :
  (∀ r, inner r = true → r < 128) → match_string (anchored inner) s = true ↔ name_shape inner s.
Proof.
  intros Hinner. rewrite anchored_spec. split.
  - intros (t & rest & Er & Ht & Hrest).
    assert (∀ t', t' ∈ t :: rest → name_first (r_value t') = true →
      ∃ c, r_bytes t' = String c "" ∧ name_first (byte_of c) = true) as Hbyte.
    { intros t' Hin Hf. pose proof (runes_ascii s) as Ha. rewrite Er, Forall_forall in Ha.
      destruct (Ha t' Hin (name_first_ascii _ Hf)) as (c & Ec & Ev). exists c. by rewrite <-Ev. }
    destruct (Hbyte t ltac:(left) Ht) as (c & Ec & Hc). exists c. split; [done|].
    rewrite <-(runes_concat s), Er. cbn [rune_concat]. rewrite Ec.
    destruct Hrest as [->|(l & t2 & -> & Hl & Ht2)]; [by left|right].
    destruct (Hbyte t2) as (d & Ed & Hd); [set_solver|done|].
    exists (rune_concat l), d. rewrite rune_concat_app. cbn [rune_concat]. rewrite Ed. split; [done|].
    split; [|done]. apply (ascii_concat inner s); [|done|done]. intros t' Ht'. rewrite Er. set_solver.
  - intros (c & Hc & Hs).
    assert (∀ r, runes (String c r) = ascii_tok c :: runes r) as Hcons.
    { intros r. apply (runes_ascii_app (String c "") r). cbn. apply name_first_ascii in Hc. lia. }
    destruct Hs as [->|(m & d & -> & Hm & Hd)].
    { exists (ascii_tok c), []. rewrite Hcons. auto. }
    exists (ascii_tok c), (runes (m +:+ String d "")). rewrite Hcons. split_and!; [done|done|right].
    exists (ascii_tok <$> String.list_ascii_of_string m), (ascii_tok d).
    rewrite runes_ascii_app.
    2: { eapply str_forallb_impl; [|exact Hm]. intros x Hx. apply Z.ltb_lt, Hinner, Hx. }
    split.
    { f_equal. apply (runes_ascii_app (String d "") ""). cbn. apply name_first_ascii in Hd. lia. }
    split; [|done]. apply Forall_fmap. clear -Hm. induction m as [|x m IH]; [constructor|].
    cbn [str_forallb] in Hm. apply andb_true_iff in Hm as [Hx Hm]. constructor; [done|by apply IH].
Qed.

(** ** Digest-pinned references *)

(** What the repository of a reference is made of: [[^@\s]]. *)
Definition repo_rune (r : Z) : bool := negb ((r =? 64) || re_space r).
Definition hex_rune (r : Z) : bool := in_range 48 57 r || in_range 97 102 r.

(** [^[^@\s]+@sha256:[0-9a-f]{64}$] *)
Definition digest_pinned : regexp :=
  Seq TextStart (Seq (plus repo_rune) (Seq (lit "@sha256:") (Seq (times 64 (Any hex_rune)) TextEnd))).

(** One class after the other. *)
Definition each (ps : list (Z → bool)) : regexp := foldr (λ p k, Seq (Any p) k) Eps ps.

Lemma advance_advance st l1 l2 l3 : advance (advance st l1 (l2 ++ l3)) l2 l3 = advance st (l1 ++ l2) l3.
Proof. unfold advance. rewrite last_app. cbn. by destruct (last l2). Qed.

Lemma advance_nil st : advance st [] (ms_rest st) = st.
Proof. by destruct st. Qed.

Lemma each_spec ps st (k : mstate → option mstate) :
  go (each ps) st k ≠ None ↔
  ∃ l1 l2, ms_rest st = l1 ++ l2 ∧ Forall2 (λ p t, p (r_value t) = true) ps l1 ∧ k (advance st l1 l2) ≠ None.
Proof.
  revert st. induction ps as [|p ps IH]; intros st; cbn [each foldr go].
  - split.
    + intros Hk. exists [], (ms_rest st). split_and!; [done|constructor|by rewrite advance_nil].
    + intros (l1 & l2 & E & ->%Forall2_nil_inv_l & Hk). simpl in E. subst l2. by rewrite advance_nil in Hk.
  - destruct (ms_rest st) as [|t rest] eqn:Er.
    { split; [done|]. intros (l1 & l2 & E & (x & l & _ & _ & ->)%Forall2_cons_inv_l & _). done. }
    assert (mkState (Some (r_value t)) rest (ms_caps st) = advance st [t] rest) as -> by done.
    destruct (p (r_value t)) eqn:Ep.
    2: { split; [done|]. intros (l1 & l2 & E & (x & l & Hx & _ & ->)%Forall2_cons_inv_l & _).
         injection E as -> _. by rewrite Ep in Hx. }
    rewrite (IH (advance st [t] rest)). cbn [advance ms_rest]. split.
    + intros (l1 & l2 & -> & Hf & Hk). exists (t :: l1), l2. split_and!; [done|by constructor|].
      by rewrite (advance_advance st [t] l1 l2) in Hk.
    + intros (l1 & l2 & E & (x & l & Hx & Hf & ->)%Forall2_cons_inv_l & Hk). injection E as <- ->.
      exists l, l2. split_and!; [done|done|]. by rewrite (advance_advance st [t] l l2).
Qed.

Lemma lit_each s :
  str_forallb (λ c, byte_of c <? 128) s = true →
  lit s = each ((λ c r, r =? byte_of c) <$> String.list_ascii_of_string s).
Proof.
  intros Hs. unfold lit, lit_with. pose proof (runes_ascii_app s "" Hs) as E. rewrite str_app_nil_r in E. rewrite E.
  cbn [runes]. rewrite app_nil_r. clear. unfold each. induction (String.list_ascii_of_string s) as [|c l IH]; [done|].
  cbn [fmap list_fmap foldr]. by rewrite IH.
Qed.

Lemma times_each n p : times n (Any p) = each (replicate n p).
Proof. induction n as [|n IH]; [done|]. cbn. by rewrite IH. Qed.

Lemma plus_spec p st (k : mstate → option mstate) :
  go (plus p) st k ≠ None ↔
  ∃ l1 l2, ms_rest st = l1 ++ l2 ∧ l1 ≠ [] ∧ Forall (λ t, p (r_value t) = true) l1 ∧ k (advance st l1 l2) ≠ None.
Proof.
  unfold plus. cbn [go]. destruct (ms_rest st) as [|t rest] eqn:Er.
  { split; [done|]. intros (l1 & l2 & E & Hne & _). by destruct l1. }
  assert (mkState (Some (r_value t)) rest (ms_caps st) = advance st [t] rest) as -> by done.
  destruct (p (r_value t)) eqn:Ep.
  - rewrite star_spec. cbn [advance ms_rest]. split.
    + intros (l1 & l2 & -> & Hf & Hk). exists (t :: l1), l2. split_and!; [done|done|by constructor|].
      by rewrite (advance_advance st [t] l1 l2) in Hk.
    + intros (l1 & l2 & E & Hne & Hf & Hk). destruct l1 as [|t' l1]; [done|]. injection E as <- ->.
      apply Forall_cons in Hf as [_ Hf]. exists l1, l2. split_and!; [done|done|]. by rewrite (advance_advance st [t] l1 l2).
  - split; [done|]. intros (l1 & l2 & E & Hne & Hf & _). destruct l1 as [|t' l1]; [done|]. injection E as <- ->.
    apply Forall_cons in Hf as [Hf _]. by rewrite Ep in Hf.
Qed.

Lemma replicate_each n (p : Z → bool) l :
  Forall2 (λ p t, p (r_value t) = true) (replicate n p) l ↔ length l = n ∧ Forall (λ t, p (r_value t) = true) l.
Proof.
  revert l. induction n as [|n IH]; intros l; cbn.
  - split; [by intros ->%Forall2_nil_inv_l|]. by intros [->%nil_length_inv _].
  - destruct l as [|t l].
    + split; [intros H; by inv H|]. by intros [[=] _].
    + rewrite Forall2_cons, Forall_cons, IH. cbn. intuition lia.
Qed.

Lemma digest_pinned_runes s :
  match_string digest_pinned s = true ↔
  ∃ l1 l2 l3, runes s = l1 ++ l2 ++ l3 ∧ l1 ≠ [] ∧ Forall (λ t, repo_rune (r_value t) = true) l1 ∧
    Forall2 (λ c t, r_value t = byte_of c) (String.list_ascii_of_string "@sha256:") l2 ∧
    length l3 = 64%nat ∧ Forall (λ t, hex_rune (r_value t) = true) l3.
Proof.
  assert (match_string digest_pinned s = true ↔ match_at digest_pinned None (runes s) ≠ None) as ->.
  { unfold match_string. assert (search digest_pinned None (runes s) = is_Some_b (match_at digest_pinned None (runes s))) as ->.
    { destruct (runes s) as [|t l]; cbn [search]; (destruct (match_at _ _ _); [done|]); [done|]. apply search_TextStart. }
    by destruct (match_at _ _ _). }
  unfold match_at, digest_pinned. rewrite times_each, lit_each by done. cbn [go]. cbn [ms_prev].
  rewrite plus_spec. cbn [ms_rest]. split.
  - intros (l1 & r1 & E & Hne & H1 & (l2 & r2 & E2 & H2 & (l3 & r3 & E3 & H3 & Hk)%each_spec)%each_spec).
    cbn [advance ms_rest] in *. destruct r3 as [|]; [|done]. rewrite app_nil_r in E3. subst.
    exists l1, l2, l3. apply Forall2_fmap_l in H2. split_and!; [done|done|done| | |].
    + eapply Forall2_impl; [exact H2|]. intros c t Ht. by apply Z.eqb_eq in Ht.
    + by apply replicate_each in H3 as [].
    + by apply replicate_each in H3 as [].
  - intros (l1 & l2 & l3 & E & Hne & H1 & H2 & Hlen & H3). exists l1, (l2 ++ l3). split_and!; [done..|].
    apply each_spec. exists l2, l3. split_and!; [done| |].
    { apply Forall2_fmap_l. eapply Forall2_impl; [exact H2|]. intros c t Ht. cbn. by apply Z.eqb_eq. }
    apply each_spec. exists l3, []. cbn [advance ms_rest]. split_and!; [by rewrite app_nil_r| |done].
    by apply replicate_each.
Qed.

(** A repository of any bytes but white space and the at sign, and a lower-case
    SHA-256. *)
Definition pinned (s : str) : Prop :=
  ∃ repo hex, s = repo +:+ "@sha256:" +:+ hex ∧ repo ≠ "" ∧
    str_forallb (λ c, repo_rune (byte_of c)) repo = true ∧ slen hex = 64 ∧ str_forallb is_hex_lower hex = true.

Lemma hex_bytes_runes c : hex_rune (byte_of c) = is_hex_lower c.
Proof. reflexivity. Qed.

Lemma ascii_hex s : str_forallb is_hex_lower s = true → str_forallb (λ c, byte_of c <? 128) s = true.
Proof.
  apply str_forallb_impl. intros c. unfold is_hex_lower, is_digit. rewrite orb_true_iff, !andb_true_iff. lia.
Qed.

Lemma toks_hex s : Forall (λ t, hex_rune (r_value t) = true) (ascii_tok <$> String.list_ascii_of_string s) ↔
  str_forallb is_hex_lower s = true.
Proof.
  rewrite Forall_fmap. induction s as [|c s IH]; [done|]. cbn [String.list_ascii_of_string str_forallb].
  rewrite Forall_cons, andb_true_iff, IH. done.
Qed.

Lemma repo_rune_high r : 128 ≤ r → repo_rune r = true.
Proof. unfold repo_rune, re_space. intros. apply negb_true_iff. rewrite !orb_false_iff. lia. Qed.

Lemma bytes_length s : length (String.list_ascii_of_string s) = String.length s.
Proof. induction s; simpl; auto. Qed.

Lemma digest_pinned_spec s : match_string digest_pinned s = true ↔ pinned s.
Proof.
  rewrite digest_pinned_runes. pose proof (runes_form s) as Hf. split.
  - intros (l1 & l2 & l3 & E & Hne & H1 & H2 & Hlen & H3). rewrite E in Hf. apply Forall_app in Hf as [F1 [F2 F3]%Forall_app].
    assert (l2 = ascii_tok <$> String.list_ascii_of_string "@sha256:") as ->.
    { clear -H2 F2. set (w := String.list_ascii_of_string _) in *.
      assert (Forall (λ c, byte_of c < 128) w) as Hw by (unfold w; repeat constructor).
      clearbody w. revert l2 H2 F2. induction Hw as [|c w Hc Hw IH]; intros l2 H2 F2; inv H2; [done|].
      apply Forall_cons in F2 as [Ft F2]. cbn. f_equal; [|by apply IH].
      destruct Ft as [(d & -> & _)|(Hv & _)]; [|lia]. f_equal. by apply byte_of_inj. }
    assert (l3 = ascii_tok <$> String.list_ascii_of_string (rune_concat l3)) as E3.
    { apply ascii_toks; [done|done|]. clear -H3 F3. induction F3 as [|t l Ft F3 IH]; [done|]. apply Forall_cons in H3 as [Ht H3].
      cbn [rune_concat]. rewrite str_forallb_app, IH, andb_true_r by done.
      destruct Ft as [(d & -> & Hd)|(Hv & _)]; [cbn; by rewrite (proj2 (Z.ltb_lt _ _) Hd)|].
      unfold hex_rune, in_range in Ht. rewrite orb_true_iff, !andb_true_iff in Ht. lia. }
    exists (rune_concat l1), (rune_concat l3). split_and!.
    + rewrite <-(runes_concat s), E, !rune_concat_app. done.
    + destruct l1 as [|t l1]; [done|]. apply Forall_cons in F1 as [[(d & -> & _)|(_ & Hb & _)] _]; [done|].
      cbn [rune_concat]. by destruct (r_bytes t).
    + apply (class_bytes repo_rune); [apply repo_rune_high|done|done].
    + rewrite E3 in Hlen. rewrite length_fmap, bytes_length in Hlen. unfold slen. lia.
    + apply toks_hex. by rewrite <-E3.
  - intros (repo & hex & -> & Hne & Hr & Hlen & Hh).
    set (tail := "@sha256:" +:+ hex) in *.
    destruct (str_take_at_start (runes (repo +:+ tail)) (String.length repo)) as (l1 & l2 & E & Htake).
    { apply runes_shape. }
    { intros c r. rewrite runes_concat, str_drop_app. intros [= <- _]. done. }
    rewrite runes_concat, str_take_app in Htake. rewrite E in Hf. apply Forall_app in Hf as [F1 F2].
    assert (rune_concat l2 = tail) as Et.
    { apply (str_app_inj_r repo). rewrite Htake at 1. rewrite <-rune_concat_app, <-E. apply runes_concat. }
    apply (ascii_toks l2) in Et; [|done|].
    2: { unfold tail. rewrite str_forallb_app. by apply andb_true_iff; split; [|apply ascii_hex]. }
    assert (ascii_tok <$> String.list_ascii_of_string tail =
      (ascii_tok <$> String.list_ascii_of_string "@sha256:") ++ (ascii_tok <$> String.list_ascii_of_string hex)) as Es by done.
    rewrite Es in Et. exists l1, (ascii_tok <$> String.list_ascii_of_string "@sha256:"), (ascii_tok <$> String.list_ascii_of_string hex).
    split_and!.
    + by rewrite E, Et.
    + intros ->. by rewrite Htake in Hne.
    + apply (class_bytes repo_rune); [apply repo_rune_high|done|]. by rewrite <-Htake.
    + apply Forall2_fmap_r, Forall_Forall2_diag, Forall_forall. done.
    + rewrite length_fmap, bytes_length. unfold slen in Hlen. lia.
    + by apply toks_hex.
Qed.

End Names.
