(* ===== verification/Settings.v ===== *)
(** * Installation configuration, internal/config/config.go

    The settings an operator installs with: their defaults, their validation
    and how a duration is read.  YAML and JSON decoding and the quantity
    grammar are the libraries' and are parameters; a range over a Go map
    visits its entries in any order, which is a parameter too.  The duration
    grammar itself is in Duration. *)

From S2P Require Import Prelude GoTime GoString Utf8 Regexp Names Duration Sanitize Api.

Module Settings.
Import Names.

Definition DefaultSystemNamespace : str := "trawl-system".
Definition DefaultAuditRetention : duration := 365 * 24 * hour.
Definition DefaultAuditSinkListenAddr : str := ":9444".
Definition DefaultGatewayListenAddr : str := ":8443".
Definition DefaultGatewayTokenAudience : str := "trawl-artifact-gateway".
Definition DefaultCaptureStartupBudget : duration := 5 * minute.
Definition DefaultCaptureUploadBudget : duration := 15 * minute.
Definition DefaultAlertPollInterval : duration := 15 * second.
Definition DefaultPolicyStatusInterval : duration := 15 * second.
Definition DefaultEventWorkerServiceAccount : str := "event-worker".
Definition DefaultCaptureCredentialsSecret : str := "trawl-artifact-credentials".
Definition DefaultContentRefreshInterval : duration := 24 * hour.

Definition MinAuditRetention : duration := 90 * 24 * hour.
Definition MaxAuditRetention : duration := 730 * 24 * hour.

(** ** The configuration *)

Record ResourceRequirements := mkResources {
  rr_RequestsCPU : str; rr_RequestsMemory : str; rr_LimitsCPU : str; rr_LimitsMemory : str;
}.

Record AuditClientConfig := mkAuditClient {
  acc_Endpoint : str; acc_ServerName : str; acc_CAFile : str; acc_CertFile : str; acc_KeyFile : str;
}.

Record LokiConfig := mkLoki { lk_Endpoint : str; lk_TenantID : str }.

Record HubbleConfig := mkHubble {
  hb_Endpoint : str; hb_CAFile : str; hb_CertFile : str; hb_KeyFile : str; hb_ServerName : str;
}.

Record BucketConfig := mkBucket {
  bk_Endpoint : str; bk_Bucket : str; bk_Region : str; bk_CredentialsPath : str; bk_UseTLS : bool;
}.

Record AuditSinkConfig := mkAuditSink { ask_ListenAddr : str; ask_CertFile : str; ask_KeyFile : str; ask_CAFile : str }.

Record CaptureConfig := mkCapture {
  cap_EventWorkerServiceAccount : str;
  cap_RetentionAdminGroups : list str;
  cap_RetentionAdminUsers : list str;
  cap_CredentialsSecret : str;
  cap_StartupBudget : duration;
  cap_UploadBudget : duration;
  cap_RunnerResources : ResourceRequirements;
  cap_ReporterResources : ResourceRequirements;
}.

Record GatewayConfig := mkGateway {
  gw_ListenAddr : str;
  gw_TokenAudience : str;
  gw_CertFile : str;
  gw_KeyFile : str;
  gw_DownloadsPerMinute : Z;
  gw_DownloadBurst : Z;
  gw_AuthAttemptsPerMinute : Z;
  gw_AuthAttemptBurst : Z;
  gw_AuditClient : AuditClientConfig;
}.

Record EventWorkerConfig := mkEventWorker {
  ew_AuditClient : AuditClientConfig;
  ew_AlertPollInterval : duration;
  ew_StatusInterval : duration;
}.

Record ContentConfig := mkContent {
  ct_SuricataFeedURL : str; ct_ZeekScriptRepo : str; ct_RefreshInterval : duration;
}.

Record ImageConfig := mkImages {
  im_Suricata : str; im_Zeek : str; im_SensorAgent : str;
  im_CaptureRunner : str; im_CaptureReporter : str; im_ContentInit : str;
}.

Record Config := mkConfig {
  c_ClusterID : str;
  c_SystemNamespace : str;
  c_Loki : LokiConfig;
  c_Hubble : HubbleConfig;
  c_Artifacts : BucketConfig;
  c_AuditLedger : BucketConfig;
  c_AuditRetention : duration;
  c_AuditClientIdentities : list str;
  c_AuditSink : AuditSinkConfig;
  c_CaptureRetentionCeiling : duration;
  c_SensorAgentResources : ResourceRequirements;
  c_Capture : CaptureConfig;
  c_Gateway : GatewayConfig;
  c_EventWorker : EventWorkerConfig;
  c_Content : ContentConfig;
  c_Images : ImageConfig;
}.

#[export] Instance ResourceRequirements_eq : EqDecision ResourceRequirements.
Proof. solve_decision. Defined.

Definition defaultRunnerResources : ResourceRequirements := mkResources "100m" "128Mi" "1" "1Gi".
Definition defaultReporterResources : ResourceRequirements := mkResources "10m" "32Mi" "100m" "128Mi".
Definition no_resources : ResourceRequirements := mkResources "" "" "" "".

Definition namespaceRE : regexp := anchored label_rune.
Definition digestRE : regexp := digest_pinned.

(** ** Durations *)

Inductive unmarshal_error := BadDuration (e : Config.duration_error) | NotADuration.

(** [json.Unmarshal] into a string, and into an int64, and [json.Marshal] of a
    string. *)
Section json.
Context (as_string : str → option str) (as_int64 : str → option Z) (marshal : str → str).

(** The value the field holds afterwards. *)
Definition UnmarshalJSON (d : duration) (data : str) : result unmarshal_error duration :=
  if bool_decide (data = "null") then Ok d else
  match as_string data with
  | Some s => result_map_err BadDuration (Config.ParseDuration s)
  | None =>
      match as_int64 data with
      | Some n => Ok n
      | None => Err NotADuration
      end
  end.

Definition MarshalJSON (d : duration) : str := marshal (GoDuration.String_ d).
End json.

(** ** Defaults *)

Definition or_default (s d : str) : str := if bool_decide (s = "") then d else s.
Definition or_duration (v d : duration) : duration := if v =? 0 then d else v.
Definition or_resources (v d : ResourceRequirements) : ResourceRequirements := if bool_decide (v = no_resources) then d else v.

Definition applyDefaults_EventWorker (w : EventWorkerConfig) : EventWorkerConfig :=
  mkEventWorker (ew_AuditClient w) (or_duration (ew_AlertPollInterval w) DefaultAlertPollInterval)
    (or_duration (ew_StatusInterval w) DefaultPolicyStatusInterval).

Definition applyDefaults_Gateway (g : GatewayConfig) : GatewayConfig :=
  mkGateway (or_default (gw_ListenAddr g) DefaultGatewayListenAddr)
    (or_default (gw_TokenAudience g) DefaultGatewayTokenAudience)
    (gw_CertFile g) (gw_KeyFile g) (gw_DownloadsPerMinute g) (gw_DownloadBurst g)
    (gw_AuthAttemptsPerMinute g) (gw_AuthAttemptBurst g) (gw_AuditClient g).

Definition applyDefaults_Capture (c : CaptureConfig) : CaptureConfig :=
  mkCapture (or_default (cap_EventWorkerServiceAccount c) DefaultEventWorkerServiceAccount)
    (cap_RetentionAdminGroups c) (cap_RetentionAdminUsers c)
    (or_default (cap_CredentialsSecret c) DefaultCaptureCredentialsSecret)
    (or_duration (cap_StartupBudget c) DefaultCaptureStartupBudget)
    (or_duration (cap_UploadBudget c) DefaultCaptureUploadBudget)
    (or_resources (cap_RunnerResources c) defaultRunnerResources)
    (or_resources (cap_ReporterResources c) defaultReporterResources).

Definition ApplyDefaults (c : Config) : Config :=
  mkConfig (c_ClusterID c) (or_default (c_SystemNamespace c) DefaultSystemNamespace)
    (c_Loki c) (c_Hubble c) (c_Artifacts c) (c_AuditLedger c)
    (or_duration (c_AuditRetention c) DefaultAuditRetention) (c_AuditClientIdentities c)
    (let s := c_AuditSink c in
     mkAuditSink (or_default (ask_ListenAddr s) DefaultAuditSinkListenAddr) (ask_CertFile s) (ask_KeyFile s) (ask_CAFile s))
    (or_duration (c_CaptureRetentionCeiling c) Config.DefaultCaptureRetentionCeiling)
    (c_SensorAgentResources c) (applyDefaults_Capture (c_Capture c)) (applyDefaults_Gateway (c_Gateway c))
    (applyDefaults_EventWorker (c_EventWorker c))
    (let t := c_Content c in
     mkContent (ct_SuricataFeedURL t) (ct_ZeekScriptRepo t) (or_duration (ct_RefreshInterval t) DefaultContentRefreshInterval))
    (c_Images c).

(** ** Validation *)

(** The insertion sort of [sorted]: one key moves left past greater ones.  The
    part already placed is held in reverse. *)
Fixpoint move_left (k : str) (placed : list str) : list str :=
  match placed with
  | p :: rest => if str_ltb k p then p :: move_left k rest else k :: placed
  | [] => [k]
  end.

Definition sorted (l : list str) : list str := rev (foldl (λ placed k, move_left k placed) [] l).

Definition req (field value : str) : list str :=
  if bool_decide (trim_space value = "") then [field +:+ " is required"] else [].

(** [if b { errs = append(errs, msg) }] *)
Definition when (b : bool) (msg : str) : list str := if b then [msg] else [].

Definition validateBucket (prefix : str) (b : BucketConfig) : list str :=
  req (prefix +:+ ".endpoint") (bk_Endpoint b) ++
  req (prefix +:+ ".bucket") (bk_Bucket b) ++
  req (prefix +:+ ".credentialsPath") (bk_CredentialsPath b).

Section validate.
(** The quantity parser, and the order in which a range visits a map. *)
Context (ParseQuantity : str → option Quantity) (range : list (str * str) → list (str * str)).

Definition check_quantity (e : str * str) : list str :=
  if bool_decide (trim_space e.2 = "") then [e.1 +:+ " is required"]
  else when (negb (is_Some_b (ParseQuantity e.2))) (e.1 +:+ " is not a valid Kubernetes quantity").

Definition resource_fields (prefix : str) (r : ResourceRequirements) : list (str * str) :=
  [(prefix +:+ ".requestsCPU", rr_RequestsCPU r); (prefix +:+ ".requestsMemory", rr_RequestsMemory r);
   (prefix +:+ ".limitsCPU", rr_LimitsCPU r); (prefix +:+ ".limitsMemory", rr_LimitsMemory r)].

Definition validateResources (prefix : str) (r : ResourceRequirements) : list str :=
  concat (check_quantity <$> range (resource_fields prefix r)).

Definition image_fields (i : ImageConfig) : list (str * str) :=
  [("images.suricata", im_Suricata i); ("images.zeek", im_Zeek i); ("images.sensorAgent", im_SensorAgent i);
   ("images.captureRunner", im_CaptureRunner i); ("images.captureReporter", im_CaptureReporter i);
   ("images.contentInit", im_ContentInit i)].

Definition check_image (e : str * str) : list str :=
  when (negb (match_string digestRE e.2)) (e.1 +:+ " must be digest-pinned (repository@sha256:...)").

Definition check_audit_retention (d : duration) : list str :=
  if d <=? 0 then ["auditRetention must be positive"]
  else if d <? MinAuditRetention then ["auditRetention must be at least 90d"]
  else when (MaxAuditRetention <? d) "auditRetention must be at most 730d".

Definition check_client (prefix : str) (a : AuditClientConfig) : list str :=
  req (prefix +:+ ".auditClient.endpoint") (acc_Endpoint a) ++
  req (prefix +:+ ".auditClient.serverName") (acc_ServerName a) ++
  req (prefix +:+ ".auditClient.caFile") (acc_CAFile a) ++
  req (prefix +:+ ".auditClient.certFile") (acc_CertFile a) ++
  req (prefix +:+ ".auditClient.keyFile") (acc_KeyFile a).

(** The problems, in the order they are found. *)
Definition problems (c : Config) : list str :=
  req "clusterID" (c_ClusterID c) ++
  when (63 <? slen (c_ClusterID c)) "clusterID must be at most 63 characters" ++
  when (negb (match_string namespaceRE (c_SystemNamespace c)) || (63 <? slen (c_SystemNamespace c)))
    "systemNamespace must be a valid RFC 1123 label" ++
  req "loki.endpoint" (lk_Endpoint (c_Loki c)) ++
  req "hubble.endpoint" (hb_Endpoint (c_Hubble c)) ++
  req "hubble.caFile" (hb_CAFile (c_Hubble c)) ++
  req "hubble.certFile" (hb_CertFile (c_Hubble c)) ++
  req "hubble.keyFile" (hb_KeyFile (c_Hubble c)) ++
  req "hubble.serverName" (hb_ServerName (c_Hubble c)) ++
  req "auditSink.certFile" (ask_CertFile (c_AuditSink c)) ++
  req "auditSink.keyFile" (ask_KeyFile (c_AuditSink c)) ++
  req "auditSink.caFile" (ask_CAFile (c_AuditSink c)) ++
  req "auditSink.listenAddr" (ask_ListenAddr (c_AuditSink c)) ++
  validateBucket "artifacts" (c_Artifacts c) ++
  validateBucket "auditLedger" (c_AuditLedger c) ++
  when (negb (bool_decide (bk_Bucket (c_Artifacts c) = "")) &&
        bool_decide (bk_Bucket (c_Artifacts c) = bk_Bucket (c_AuditLedger c)))
    "auditLedger.bucket must differ from artifacts.bucket" ++
  when (negb (bool_decide (bk_CredentialsPath (c_Artifacts c) = "")) &&
        bool_decide (bk_CredentialsPath (c_Artifacts c) = bk_CredentialsPath (c_AuditLedger c)))
    "auditLedger.credentialsPath must differ from artifacts.credentialsPath" ++
  check_audit_retention (c_AuditRetention c) ++
  when (c_CaptureRetentionCeiling c <=? 0) "captureRetentionCeiling must be positive" ++
  when ((0 <? c_AuditRetention c) && (0 <? c_CaptureRetentionCeiling c) &&
        (c_AuditRetention c <=? c_CaptureRetentionCeiling c))
    "auditRetention must exceed captureRetentionCeiling" ++
  when (bool_decide (length (c_AuditClientIdentities c) = 0%nat))
    "auditClientIdentities must list at least one mTLS client identity" ++
  validateResources "sensorAgentResources" (c_SensorAgentResources c) ++
  req "capture.eventWorkerServiceAccount" (cap_EventWorkerServiceAccount (c_Capture c)) ++
  req "capture.credentialsSecret" (cap_CredentialsSecret (c_Capture c)) ++
  when (cap_StartupBudget (c_Capture c) <=? 0) "capture.startupBudget must be positive" ++
  when (cap_UploadBudget (c_Capture c) <=? 0) "capture.uploadBudget must be positive" ++
  req "gateway.listenAddr" (gw_ListenAddr (c_Gateway c)) ++
  req "gateway.tokenAudience" (gw_TokenAudience (c_Gateway c)) ++
  req "gateway.certFile" (gw_CertFile (c_Gateway c)) ++
  req "gateway.keyFile" (gw_KeyFile (c_Gateway c)) ++
  check_client "gateway" (gw_AuditClient (c_Gateway c)) ++
  check_client "eventWorker" (ew_AuditClient (c_EventWorker c)) ++
  when (ew_AlertPollInterval (c_EventWorker c) <=? 0) "eventWorker.alertPollInterval must be positive" ++
  when (ew_StatusInterval (c_EventWorker c) <=? 0) "eventWorker.statusInterval must be positive" ++
  when (gw_DownloadsPerMinute (c_Gateway c) <? 0) "gateway.downloadsPerMinute must not be negative" ++
  when (gw_DownloadBurst (c_Gateway c) <? 0) "gateway.downloadBurst must not be negative" ++
  when (gw_AuthAttemptsPerMinute (c_Gateway c) <? 0) "gateway.authAttemptsPerMinute must not be negative" ++
  when (gw_AuthAttemptBurst (c_Gateway c) <? 0) "gateway.authAttemptBurst must not be negative" ++
  validateResources "capture.runnerResources" (cap_RunnerResources (c_Capture c)) ++
  validateResources "capture.reporterResources" (cap_ReporterResources (c_Capture c)) ++
  req "content.suricataFeedURL" (ct_SuricataFeedURL (c_Content c)) ++
  req "content.zeekScriptRepo" (ct_ZeekScriptRepo (c_Content c)) ++
  when (ct_RefreshInterval (c_Content c) <=? 0) "content.refreshInterval must be positive" ++
  concat (check_image <$> range (image_fields (c_Images c))).

Definition Validate (c : Config) : option str :=
  match problems c with
  | [] => None
  | errs => Some ("invalid installation configuration: " +:+ str_join (sorted errs) "; ")
  end.

(** [yaml.UnmarshalStrict], with the text of its error. *)
Context (unmarshal : str → result str Config).

Definition Load (data : str) : result str Config :=
  match unmarshal data with
  | Err text => Err (Sanitize.Errorf "parsing installation configuration: " text)
  | Ok c =>
      match Validate (ApplyDefaults c) with
      | Some text => Err text
      | None => Ok (ApplyDefaults c)
      end
  end.

End validate.

(** ** What a valid configuration is *)

Definition given (s : str) : Prop := trim_space s ≠ "".

Definition valid_bucket (b : BucketConfig) : Prop := given (bk_Endpoint b) ∧ given (bk_Bucket b) ∧ given (bk_CredentialsPath b).

Definition valid_client (a : AuditClientConfig) : Prop :=
  given (acc_Endpoint a) ∧ given (acc_ServerName a) ∧ given (acc_CAFile a) ∧ given (acc_CertFile a) ∧ given (acc_KeyFile a).

Definition valid_images (i : ImageConfig) : Prop :=
  pinned (im_Suricata i) ∧ pinned (im_Zeek i) ∧ pinned (im_SensorAgent i) ∧
  pinned (im_CaptureRunner i) ∧ pinned (im_CaptureReporter i) ∧ pinned (im_ContentInit i).

(** Audit records outlive every capture, within the permitted range. *)
Definition valid_retention (audit ceiling : duration) : Prop :=
  MinAuditRetention ≤ audit ≤ MaxAuditRetention ∧ 0 < ceiling < audit.

(** The two buckets are two, and so are their credentials. *)
Definition separate (a l : BucketConfig) : Prop :=
  bk_Bucket a ≠ bk_Bucket l ∧ bk_CredentialsPath a ≠ bk_CredentialsPath l.

Section valid.
Context (ParseQuantity : str → option Quantity).

Definition quantity (s : str) : Prop := given s ∧ is_Some (ParseQuantity s).

Definition valid_resources (r : ResourceRequirements) : Prop :=
  quantity (rr_RequestsCPU r) ∧ quantity (rr_RequestsMemory r) ∧ quantity (rr_LimitsCPU r) ∧ quantity (rr_LimitsMemory r).

Definition valid_capture (c : CaptureConfig) : Prop :=
  given (cap_EventWorkerServiceAccount c) ∧ given (cap_CredentialsSecret c) ∧
  0 < cap_StartupBudget c ∧ 0 < cap_UploadBudget c ∧
  valid_resources (cap_RunnerResources c) ∧ valid_resources (cap_ReporterResources c).

Definition valid_gateway (g : GatewayConfig) : Prop :=
  given (gw_ListenAddr g) ∧ given (gw_TokenAudience g) ∧ given (gw_CertFile g) ∧ given (gw_KeyFile g) ∧
  valid_client (gw_AuditClient g) ∧
  0 ≤ gw_DownloadsPerMinute g ∧ 0 ≤ gw_DownloadBurst g ∧ 0 ≤ gw_AuthAttemptsPerMinute g ∧ 0 ≤ gw_AuthAttemptBurst g.

Definition valid_config (c : Config) : Prop :=
  (given (c_ClusterID c) ∧ slen (c_ClusterID c) ≤ 63) ∧
  (name_shape label_rune (c_SystemNamespace c) ∧ slen (c_SystemNamespace c) ≤ 63) ∧
  given (lk_Endpoint (c_Loki c)) ∧
  (given (hb_Endpoint (c_Hubble c)) ∧ given (hb_CAFile (c_Hubble c)) ∧ given (hb_CertFile (c_Hubble c)) ∧
   given (hb_KeyFile (c_Hubble c)) ∧ given (hb_ServerName (c_Hubble c))) ∧
  (given (ask_CertFile (c_AuditSink c)) ∧ given (ask_KeyFile (c_AuditSink c)) ∧ given (ask_CAFile (c_AuditSink c)) ∧
   given (ask_ListenAddr (c_AuditSink c))) ∧
  (valid_bucket (c_Artifacts c) ∧ valid_bucket (c_AuditLedger c) ∧ separate (c_Artifacts c) (c_AuditLedger c)) ∧
  valid_retention (c_AuditRetention c) (c_CaptureRetentionCeiling c) ∧
  c_AuditClientIdentities c ≠ [] ∧
  valid_resources (c_SensorAgentResources c) ∧ valid_capture (c_Capture c) ∧ valid_gateway (c_Gateway c) ∧
  (valid_client (ew_AuditClient (c_EventWorker c)) ∧ 0 < ew_AlertPollInterval (c_EventWorker c) ∧
   0 < ew_StatusInterval (c_EventWorker c)) ∧
  (given (ct_SuricataFeedURL (c_Content c)) ∧ given (ct_ZeekScriptRepo (c_Content c)) ∧
   0 < ct_RefreshInterval (c_Content c)) ∧
  valid_images (c_Images c).
End valid.

(** ** Lemmas *)

Lemma req_nil field value : req field value = [] ↔ given value.
Proof. unfold req, given. by case_bool_decide. Qed.

Lemma when_nil b msg : when b msg = [] ↔ b = false.
Proof. by destruct b. Qed.

Lemma when_positive x msg : when (x <=? 0) msg = [] ↔ 0 < x.
Proof. by rewrite when_nil, Z.leb_gt. Qed.

Lemma when_not_negative x msg : when (x <? 0) msg = [] ↔ 0 ≤ x.
Proof. by rewrite when_nil, Z.ltb_ge. Qed.

Lemma when_at_most n x msg : when (n <? x) msg = [] ↔ x ≤ n.
Proof. by rewrite when_nil, Z.ltb_ge. Qed.

Lemma apps_nil {A} (l k : list A) (P Q : Prop) : (l = [] ↔ P) → (k = [] ↔ Q) → l ++ k = [] ↔ P ∧ Q.
Proof. rewrite app_nil. tauto. Qed.

Lemma given_not_empty s : given s → s ≠ "".
Proof. intros Hg ->. by apply Hg. Qed.

(** What a range over a map says does not depend on its order when it says
    nothing. *)
Lemma concat_nil_perm {A B} (f : A → list B) l l' : l ≡ₚ l' → concat (f <$> l) = [] ↔ Forall (λ a, f a = []) l'.
Proof.
  intros <-. induction l as [|a l IH]; [done|]. cbn [fmap list_fmap concat]. by rewrite app_nil, Forall_cons, IH.
Qed.

Lemma validateBucket_nil prefix b : validateBucket prefix b = [] ↔ valid_bucket b.
Proof. unfold validateBucket, valid_bucket. by rewrite !app_nil, !req_nil. Qed.

Lemma check_client_nil prefix a : check_client prefix a = [] ↔ valid_client a.
Proof. unfold check_client, valid_client. by rewrite !app_nil, !req_nil. Qed.

Lemma check_quantity_nil pq e : check_quantity pq e = [] ↔ quantity pq e.2.
Proof.
  unfold check_quantity, quantity, given. case_bool_decide; [naive_solver|]. rewrite when_nil.
  destruct (pq e.2); naive_solver eauto.
Qed.

Lemma validateResources_nil pq range prefix r :
  (∀ l, range l ≡ₚ l) → validateResources pq range prefix r = [] ↔ valid_resources pq r.
Proof.
  intros Hr. unfold validateResources, valid_resources. rewrite (concat_nil_perm _ _ _ (Hr _)). unfold resource_fields.
  rewrite !Forall_cons, Forall_nil, !check_quantity_nil. cbn. tauto.
Qed.

Lemma check_images_nil range i :
  (∀ l, range l ≡ₚ l) → concat (check_image <$> range (image_fields i)) = [] ↔ valid_images i.
Proof.
  intros Hr. rewrite (concat_nil_perm _ _ _ (Hr _)). unfold image_fields, check_image, valid_images.
  rewrite !Forall_cons, Forall_nil, !when_nil, !negb_false_iff. unfold digestRE. rewrite !digest_pinned_spec. cbn. tauto.
Qed.

Lemma check_audit_retention_nil audit : check_audit_retention audit = [] ↔ MinAuditRetention ≤ audit ≤ MaxAuditRetention.
Proof.
  assert (0 < MinAuditRetention) by done. unfold check_audit_retention.
  destruct (Z.leb_spec audit 0); [split; [done|lia]|].
  destruct (Z.ltb_spec audit MinAuditRetention); [split; [done|lia]|]. rewrite when_nil. lia.
Qed.

Lemma retention_checked audit ceiling :
  MinAuditRetention ≤ audit ≤ MaxAuditRetention ∧ 0 < ceiling ∧
  ((0 <? audit) && (0 <? ceiling) && (audit <=? ceiling)) = false ↔ valid_retention audit ceiling.
Proof. assert (0 < MinAuditRetention) by done. unfold valid_retention. rewrite !andb_false_iff. lia. Qed.

Lemma separate_checked a l :
  valid_bucket a →
  (negb (bool_decide (bk_Bucket a = "")) && bool_decide (bk_Bucket a = bk_Bucket l)) = false ∧
  (negb (bool_decide (bk_CredentialsPath a = "")) && bool_decide (bk_CredentialsPath a = bk_CredentialsPath l)) = false
  ↔ separate a l.
Proof.
  intros (_ & Hb%given_not_empty & Hp%given_not_empty). unfold separate.
  rewrite (bool_decide_eq_false_2 _ Hb), (bool_decide_eq_false_2 _ Hp). simpl. by rewrite !bool_decide_eq_false.
Qed.

Lemma system_namespace_nil s msg :
  when (negb (match_string namespaceRE s) || (63 <? slen s)) msg = [] ↔ name_shape label_rune s ∧ slen s ≤ 63.
Proof.
  rewrite when_nil, orb_false_iff, negb_false_iff, Z.ltb_ge. unfold namespaceRE. rewrite anchored_shape; [done|].
  intros r. unfold label_rune. rewrite orb_true_iff. intros [H|H]; [by apply name_first_ascii|lia].
Qed.

Lemma when_empty {A} (l : list A) msg : when (bool_decide (length l = 0%nat)) msg = [] ↔ l ≠ [].
Proof. rewrite when_nil, bool_decide_eq_false. by destruct l. Qed.

Lemma problems_nil pq range c : (∀ l, range l ≡ₚ l) → problems pq range c = [] ↔ valid_config pq c.
Proof.
  intros Hr. etrans.
  - unfold problems. repeat apply apps_nil;
      first [apply req_nil|apply when_positive|apply when_not_negative|apply when_at_most|apply when_empty
            |apply system_namespace_nil|by apply validateResources_nil|by apply check_images_nil|apply validateBucket_nil
            |apply check_client_nil|apply check_audit_retention_nil|apply when_nil].
  - unfold valid_config, valid_capture, valid_gateway, valid_client. rewrite <-retention_checked.
    pose proof (separate_checked (c_Artifacts c) (c_AuditLedger c)) as Hs.
    unfold valid_bucket in *. tauto.
Qed.

(** *** The report *)

Lemma move_left_comm a b l : move_left a (move_left b l) = move_left b (move_left a l).
Proof.
  destruct (decide (a = b)) as [->|Hab]; [done|].
  pose proof (str_ltb_flip a b Hab) as Hflip. destruct (str_ltb a b) eqn:Eab; simpl in Hflip;
    (induction l as [|x l IH];
     [|destruct (str_ltb b x) eqn:Exb, (str_ltb a x) eqn:Exa;
       try (by rewrite (str_ltb_trans _ _ _ Eab Exb) in Exa);
       try (by rewrite (str_ltb_trans _ _ _ Hflip Exa) in Exb)]);
    repeat progress (simpl; rewrite ?Exb, ?Exa, ?Eab, ?Hflip); by rewrite ?IH.
Qed.

Lemma move_left_perm k l : move_left k l ≡ₚ k :: l.
Proof. induction l as [|x l IH]; [done|]. simpl. destruct (str_ltb k x); [|done]. by rewrite IH, perm_swap. Qed.

(** [sorted] keeps the entries, and its result depends on nothing else. *)
Lemma sorted_perm l : sorted l ≡ₚ l.
Proof.
  unfold sorted. rewrite <-Permutation_rev. assert (∀ acc, foldl (λ p k, move_left k p) acc l ≡ₚ l ++ acc) as H.
  { induction l as [|k l IH]; intros acc; [done|]. simpl. rewrite IH, move_left_perm. by rewrite Permutation_middle. }
  by rewrite H, app_nil_r.
Qed.

Lemma sorted_eq l l' : l ≡ₚ l' → sorted l = sorted l'.
Proof.
  intros Hp. unfold sorted. f_equal. generalize (@nil str).
  induction Hp as [|k l l' _ IH|a b l|l1 l2 l3 _ IH1 _ IH2]; intros acc; simpl; [done|apply IH| |by rewrite IH1, IH2].
  by rewrite move_left_comm.
Qed.

Lemma concat_perm {A B} (f : A → list B) l l' : l ≡ₚ l' → concat (f <$> l) ≡ₚ concat (f <$> l').
Proof. intros Hp. induction Hp as [|a l l' _ IH|a b l|l1 l2 l3 _ IH1 _ IH2]; simpl; [done|by rewrite IH| |by rewrite IH1].
  rewrite !app_assoc. by rewrite (app_Permutation_comm (f b)).
Qed.

Lemma problems_perm pq range range' c :
  (∀ l, range l ≡ₚ l) → (∀ l, range' l ≡ₚ l) → problems pq range c ≡ₚ problems pq range' c.
Proof.
  intros Hr Hr'. assert (∀ l, range l ≡ₚ range' l) as Hl by (intros; by rewrite Hr, Hr').
  unfold problems, validateResources.
  repeat match goal with |- ?a ++ _ ≡ₚ ?a ++ _ => apply Permutation_app_head
    | |- _ ++ _ ≡ₚ _ ++ _ => apply Permutation_app; [by apply concat_perm|] end.
  by apply concat_perm.
Qed.

Lemma problems_range pq range range' c :
  (∀ l, range l ≡ₚ l) → (∀ l, range' l ≡ₚ l) → Validate pq range c = Validate pq range' c.
Proof.
  intros Hr Hr'. pose proof (problems_perm pq range range' c Hr Hr') as Hp. unfold Validate.
  destruct (problems pq range c), (problems pq range' c);
    [done|by apply Permutation_nil_l in Hp|by symmetry in Hp; apply Permutation_nil_l in Hp|].
  by rewrite (sorted_eq _ _ Hp).
Qed.

Lemma or_default_idem s d : d ≠ "" → or_default (or_default s d) d = or_default s d.
Proof. intros Hd. unfold or_default. by repeat case_bool_decide. Qed.

Lemma or_duration_idem v d : or_duration (or_duration v d) d = or_duration v d.
Proof. unfold or_duration. by destruct (v =? 0) eqn:E; [case_match|rewrite E]. Qed.

Lemma or_resources_idem v d : or_resources (or_resources v d) d = or_resources v d.
Proof. unfold or_resources. by repeat case_bool_decide. Qed.

Lemma ApplyDefaults_idem c : ApplyDefaults (ApplyDefaults c) = ApplyDefaults c.
Proof.
  unfold ApplyDefaults, applyDefaults_Capture, applyDefaults_Gateway, applyDefaults_EventWorker. cbn.
  by rewrite !or_default_idem, !or_duration_idem, !or_resources_idem by done.
Qed.

(** What a report may say: a field's name, and what is wrong with it. *)
Definition fields : list str :=
  ["clusterID"; "systemNamespace"; "loki.endpoint"; "hubble.endpoint"; "hubble.caFile"; "hubble.certFile";
   "hubble.keyFile"; "hubble.serverName"; "auditSink.certFile"; "auditSink.keyFile"; "auditSink.caFile";
   "auditSink.listenAddr"; "artifacts.endpoint"; "artifacts.bucket"; "artifacts.credentialsPath";
   "auditLedger.endpoint"; "auditLedger.bucket"; "auditLedger.credentialsPath"; "auditRetention";
   "captureRetentionCeiling"; "auditClientIdentities"; "capture.eventWorkerServiceAccount";
   "capture.credentialsSecret"; "capture.startupBudget"; "capture.uploadBudget"; "gateway.listenAddr";
   "gateway.tokenAudience"; "gateway.certFile"; "gateway.keyFile"; "gateway.downloadsPerMinute";
   "gateway.downloadBurst"; "gateway.authAttemptsPerMinute"; "gateway.authAttemptBurst";
   "eventWorker.alertPollInterval"; "eventWorker.statusInterval"; "content.suricataFeedURL";
   "content.zeekScriptRepo"; "content.refreshInterval"] ++
  (image_fields (mkImages "" "" "" "" "" "")).*1 ++
  concat ((λ p, (resource_fields p no_resources).*1) <$>
    ["sensorAgentResources"; "capture.runnerResources"; "capture.reporterResources"]) ++
  concat ((λ p, (λ f, p +:+ ".auditClient." +:+ f) <$> ["endpoint"; "serverName"; "caFile"; "certFile"; "keyFile"]) <$>
    ["gateway"; "eventWorker"]).

Definition complaints : list str :=
  [" is required"; " is not a valid Kubernetes quantity"; " must be digest-pinned (repository@sha256:...)";
   " must be at most 63 characters"; " must be a valid RFC 1123 label"; " must differ from artifacts.bucket";
   " must differ from artifacts.credentialsPath"; " must be positive"; " must be at least 90d"; " must be at most 730d";
   " must exceed captureRetentionCeiling"; " must list at least one mTLS client identity"; " must not be negative"].

Definition said (m : str) : bool :=
  existsb (λ f, existsb (λ s, String.eqb m (f +:+ s)) complaints) fields.

Lemma said_when b m : said m = true → Forall (λ m, said m = true) (when b m).
Proof. destruct b; repeat constructor. done. Qed.

Lemma said_req f v : said (f +:+ " is required") = true → Forall (λ m, said m = true) (req f v).
Proof. unfold req. case_bool_decide; repeat constructor. done. Qed.

Lemma said_concat {A} (f : A → list str) l l' :
  l ≡ₚ l' → Forall (λ a, Forall (λ m, said m = true) (f a)) l' → Forall (λ m, said m = true) (concat (f <$> l)).
Proof. intros <-. induction 1 as [|a k Ha _ IH]; [constructor|]. cbn [fmap list_fmap concat]. by apply Forall_app_2. Qed.

Lemma said_quantity pq f v :
  said (f +:+ " is required") && said (f +:+ " is not a valid Kubernetes quantity") = true →
  Forall (λ m, said m = true) (check_quantity pq (f, v)).
Proof.
  intros [H1 H2]%andb_true_iff. unfold check_quantity. cbn [fst snd].
  case_bool_decide; [repeat constructor; done|by apply said_when].
Qed.

Lemma problems_said pq range c : (∀ l, range l ≡ₚ l) → Forall (λ m, said m = true) (problems pq range c).
Proof.
  intros Hr. unfold problems, validateBucket, check_client, validateResources, check_audit_retention.
  repeat apply Forall_app_2;
    first [by apply said_when|by apply said_req
          |eapply said_concat; [apply Hr|]; repeat constructor; first [by apply said_quantity|by apply said_when]
          |repeat case_match; first [by apply said_when|by repeat constructor]].
Qed.

(** ** Theorems *)

(** What an installation may run with.  Whatever order the ranges over its
    maps visit, validation accepts exactly the configurations in which every
    endpoint, certificate and credential is named, the audit ledger has a
    bucket and a credential of its own, audit records live between 90 and 730
    days and strictly longer than any capture, every budget and interval is
    positive, every resource is a quantity, and every image is pinned by its
    digest.  The report is the same text in every order, and says field names
    and fixed complaints only, never a value. *)
Theorem Validate_spec pq range c :
  (∀ l, range l ≡ₚ l) →
  (Validate pq range c = None ↔ valid_config pq c) ∧
  Validate pq range c = Validate pq (λ l, l) c ∧
  ∀ text, Validate pq range c = Some text →
    ∃ errs, text = "invalid installation configuration: " +:+ str_join errs "; " ∧
      Forall (λ m, said m = true) errs.
Proof.
  intros Hr. split_and!.
  - rewrite <-(problems_nil pq range c Hr). unfold Validate. by destruct (problems pq range c).
  - by apply problems_range.
  - intros text Ht. exists (sorted (problems pq range c)). unfold Validate in Ht. split.
    + destruct (problems pq range c); [done|]. by injection Ht as <-.
    + apply Forall_forall. intros m. rewrite sorted_perm. revert m. by apply Forall_forall, problems_said.
Qed.

(** Defaults.  Loading answers the configuration that was written with its
    unset optional fields filled in, and only if that is valid; a field that is
    set keeps its value, nothing is filled in twice, and no bucket, credential,
    certificate, client identity, sensor sizing or image ever comes from a
    default. *)
Theorem Load_spec pq range unmarshal data c :
  (∀ l, range l ≡ₚ l) → Load pq range unmarshal data = Ok c →
  ∃ written, unmarshal data = Ok written ∧ c = ApplyDefaults written ∧ valid_config pq c ∧ ApplyDefaults c = c ∧
    (c_Artifacts c = c_Artifacts written ∧ c_AuditLedger c = c_AuditLedger written ∧ c_Hubble c = c_Hubble written ∧
     ask_CertFile (c_AuditSink c) = ask_CertFile (c_AuditSink written) ∧
     ask_CAFile (c_AuditSink c) = ask_CAFile (c_AuditSink written) ∧
     gw_CertFile (c_Gateway c) = gw_CertFile (c_Gateway written) ∧
     gw_AuditClient (c_Gateway c) = gw_AuditClient (c_Gateway written) ∧
     ew_AuditClient (c_EventWorker c) = ew_AuditClient (c_EventWorker written) ∧
     c_AuditClientIdentities c = c_AuditClientIdentities written ∧
     c_SensorAgentResources c = c_SensorAgentResources written ∧ c_Images c = c_Images written) ∧
    (c_AuditRetention written ≠ 0 → c_AuditRetention c = c_AuditRetention written) ∧
    (c_CaptureRetentionCeiling written ≠ 0 → c_CaptureRetentionCeiling c = c_CaptureRetentionCeiling written).
Proof.
  intros Hr. unfold Load. destruct (unmarshal data) as [written|]; [|done].
  destruct (Validate pq range (ApplyDefaults written)) eqn:Ev; [done|]. intros [= <-]. exists written.
  assert (problems pq range (ApplyDefaults written) = []) as Ep.
  { unfold Validate in Ev. by destruct (problems _ _ _). }
  split_and!; try done.
  - by apply (problems_nil pq range _ Hr).
  - apply ApplyDefaults_idem.
  - intros Hne. cbn. unfold or_duration. by rewrite (proj2 (Z.eqb_neq _ _) Hne).
  - intros Hne. cbn. unfold or_duration. by rewrite (proj2 (Z.eqb_neq _ _) Hne).
Qed.

(** ** Witnesses *)

Definition example_digest (name : str) : str :=
  name +:+ "@sha256:" +:+ "0123456789abcdef0123456789abcdef0123456789abcdef0123456789abcdef".

Definition example_client : AuditClientConfig := mkAuditClient "https://audit:9444" "audit" "/tls/ca" "/tls/cert" "/tls/key".

(** What an operator writes. *)
Definition example_written : Config :=
  mkConfig "lab" "" (mkLoki "http://loki:3100" "") (mkHubble "hubble:443" "/h/ca" "/h/cert" "/h/key" "relay")
    (mkBucket "s3:9000" "artifacts" "" "/creds/artifacts" true) (mkBucket "s3:9000" "ledger" "" "/creds/ledger" true)
    0 ["gateway"; "event-worker"] (mkAuditSink "" "/s/cert" "/s/key" "/s/ca") 0 (mkResources "50m" "64Mi" "200m" "256Mi")
    (mkCapture "" [] [] "" 0 0 no_resources no_resources) (mkGateway "" "" "/g/cert" "/g/key" 0 0 0 0 example_client)
    (mkEventWorker example_client 0 0) (mkContent "https://feed" "https://scripts" 0)
    (mkImages (example_digest "suricata") (example_digest "zeek") (example_digest "sensor") (example_digest "runner")
       (example_digest "reporter") (example_digest "content")).

(** A parser that knows the quantities of the example and of the defaults. *)
Definition example_quantities (s : str) : option Quantity :=
  if bool_decide (s ∈ ["50m"; "64Mi"; "200m"; "256Mi"; "100m"; "128Mi"; "1"; "1Gi"; "10m"; "32Mi"])
  then Some (mkQuantity 1 None s) else None.

Lemma rev_perm (l : list (str * str)) : rev l ≡ₚ l.
Proof. symmetry. apply Permutation_rev. Qed.

Lemma Validate_spec_witness :
  Validate example_quantities (@rev _) (ApplyDefaults example_written) = None ∧
  valid_config example_quantities (ApplyDefaults example_written).
Proof.
  assert (Validate example_quantities (@rev _) (ApplyDefaults example_written) = None) as H by (vm_compute; reflexivity).
  split; [exact H|]. apply (Validate_spec example_quantities (@rev _) (ApplyDefaults example_written) rev_perm). exact H.
Defined.

Lemma Load_spec_witness :
  let c := ApplyDefaults example_written in
  Load example_quantities (@rev _) (λ _, Ok example_written) "" = Ok c ∧ ApplyDefaults c = c ∧
  c_AuditRetention c = DefaultAuditRetention.
Proof.
  assert (Load example_quantities (@rev _) (λ _, Ok example_written) "" = Ok (ApplyDefaults example_written)) as H
    by (vm_compute; reflexivity).
  split; [exact H|]. split; [|reflexivity].
  destruct (Load_spec example_quantities (@rev _) (λ _, Ok example_written) "" _ rev_perm H) as (w & _ & _ & _ & Hi & _). exact Hi.
Defined.

End Settings.
