(* ===== verification/Objects.v ===== *)
(** * The Kubernetes objects the operator renders

    Pods and what surrounds them, with the fields the renderers set: a field
    they leave nil or zero is not here.  Quantities come from the resource
    library, whose parser, constructor and addition are an interface; a
    renderer that calls [resource.MustParse] on text the parser refuses
    panics, so rendering answers nothing in that case. *)

From S2P Require Import Prelude GoTime GoString Api Settings.

(** The resource library. *)
Class Quantities := {
  ParseQuantity : str → option Quantity;
  (** [resource.NewQuantity(n, resource.BinarySI)] *)
  NewQuantity : Z → Quantity;
  (** [a.Add(b)] leaves this in [a]. *)
  AddQuantity : Quantity → Quantity → Quantity;
}.

(** What it documents of the last two. *)
Class QuantityLaws (q : Quantities) := {
  NewQuantity_value n : q_nano (NewQuantity n) = n * 1000000000;
  AddQuantity_value a b : q_nano (AddQuantity a b) = q_nano a + q_nano b;
}.

Module Objects.

Record SecurityContext := mkSecurityContext {
  sc_Add : list str;
  sc_Drop : list str;
  sc_Privileged : bool;
  sc_AllowPrivilegeEscalation : bool;
  sc_ReadOnlyRootFilesystem : bool;
  sc_RunAsNonRoot : bool;
  sc_RunAsUser : option Z;
  sc_SeccompProfile : str;
}.

Record VolumeMount := mkMount { vm_Name : str; vm_MountPath : str; vm_ReadOnly : bool }.

Inductive VolumeProjection :=
  | ServiceAccountToken (path : str) (expirationSeconds : Z)
  | ProjectedConfigMap (name : str) (items : list (str * str)).

Inductive VolumeSource :=
  | EmptyDir (sizeLimit : Quantity)
  | ConfigMapVolume (name : str)
  | SecretVolume (secretName : str) (defaultMode : Z)
  | Projected (sources : list VolumeProjection).

Record Volume := mkVolume { vol_Name : str; vol_Source : VolumeSource }.

(** An environment variable taken from a field of the pod. *)
Record EnvVar := mkEnv { env_Name : str; env_FieldPath : str }.

(** An HTTP probe. *)
Record Probe := mkProbe { pr_Path : str; pr_Port : Z; pr_InitialDelaySeconds : Z; pr_PeriodSeconds : Z }.

Record Container := mkContainer {
  co_Name : str;
  co_Image : str;
  co_Args : list str;
  co_Env : list EnvVar;
  co_SecurityContext : SecurityContext;
  co_Resources : ResourceRequirements;
  co_VolumeMounts : list VolumeMount;
  co_ReadinessProbe : option Probe;
  co_LivenessProbe : option Probe;
  co_RestartPolicy : option str;
}.

Record Toleration := mkToleration { tol_Operator : str }.

Record PodSpec := mkPodSpec {
  ps_ServiceAccountName : str;
  ps_HostNetwork : bool;
  ps_DNSPolicy : str;
  ps_RestartPolicy : str;
  ps_SeccompProfile : str;
  ps_AutomountServiceAccountToken : bool;
  ps_TerminationGracePeriodSeconds : option Z;
  ps_Volumes : list Volume;
  ps_InitContainers : list Container;
  ps_Containers : list Container;
  ps_NodeSelector : gmap string string;
  ps_Tolerations : list Toleration;
}.

Record ObjectMeta_ := mkObjectMeta { om_Name : str; om_Namespace : str; om_Labels : gmap string string }.

Record PodTemplate := mkPodTemplate {
  pt_Labels : gmap string string; pt_Annotations : gmap string string; pt_Spec : PodSpec;
}.

Record PolicyRule := mkRule {
  pl_APIGroups : list str; pl_Resources : list str; pl_ResourceNames : list str; pl_Verbs : list str;
}.

Record Subject := mkSubject { sb_Kind : str; sb_Name : str; sb_Namespace : str }.
Record RoleRef := mkRoleRef { rf_APIGroup : str; rf_Kind : str; rf_Name : str }.

(** The object kinds, each with its spec. *)
Inductive Object_ :=
  | ServiceAccountObject (m : ObjectMeta_) (automount : bool)
  | RoleObject (m : ObjectMeta_) (rules : list PolicyRule)
  | RoleBindingObject (m : ObjectMeta_) (subjects : list Subject) (ref : RoleRef)
  | ConfigMapObject (m : ObjectMeta_) (data : gmap string string)
  | DeploymentObject (m : ObjectMeta_) (replicas : Z) (selector : gmap string string) (strategy : str) (t : PodTemplate)
  | DaemonSetObject (m : ObjectMeta_) (selector : gmap string string) (strategy : str) (maxUnavailable : Z) (t : PodTemplate)
  | JobObject (m : ObjectMeta_) (backoffLimit completions parallelism activeDeadlineSeconds : Z)
      (podReplacementPolicy : str) (t : PodTemplate).

Definition object_meta (o : Object_) : ObjectMeta_ :=
  match o with
  | ServiceAccountObject m _ | RoleObject m _ | RoleBindingObject m _ _ | ConfigMapObject m _
  | DeploymentObject m _ _ _ _ | DaemonSetObject m _ _ _ _ | JobObject m _ _ _ _ _ _ => m
  end.

Definition object_template (o : Object_) : option PodTemplate :=
  match o with
  | DeploymentObject _ _ _ _ t | DaemonSetObject _ _ _ _ t | JobObject _ _ _ _ _ _ t => Some t
  | _ => None
  end.

(** ** What a role lets its subject do *)

(** A rule with resource names covers those objects only. *)
Definition rule_allows (r : PolicyRule) (verb group resource name : str) : bool :=
  bool_decide (verb ∈ pl_Verbs r) && bool_decide (group ∈ pl_APIGroups r) && bool_decide (resource ∈ pl_Resources r) &&
  (bool_decide (pl_ResourceNames r = []) || bool_decide (name ∈ pl_ResourceNames r)).

Definition role_allows (rules : list PolicyRule) (verb group resource name : str) : bool :=
  existsb (λ r, rule_allows r verb group resource name) rules.

(** ** Privilege *)

(** A volume a service account token can be read from, and a Secret. *)
Definition holds_token (v : Volume) : bool :=
  match vol_Source v with
  | Projected sources => existsb (λ p, match p with ServiceAccountToken _ _ => true | _ => false end) sources
  | _ => false
  end.

Definition holds_secret (v : Volume) : bool :=
  match vol_Source v with SecretVolume _ _ => true | _ => false end.

Definition mounts (p : Volume → bool) (pod : PodSpec) (c : Container) : bool :=
  existsb (λ v, p v && existsb (λ m, bool_decide (vm_Name m = vol_Name v)) (co_VolumeMounts c)) (ps_Volumes pod).

(** Not privileged, no way up, nothing of its image writable, every capability
    dropped but the listed ones. *)
Definition confined (allowed : list str) (c : Container) : Prop :=
  let s := co_SecurityContext c in
  sc_Privileged s = false ∧ sc_AllowPrivilegeEscalation s = false ∧ sc_ReadOnlyRootFilesystem s = true ∧
  sc_Drop s = ["ALL"] ∧ sc_SeccompProfile s = "RuntimeDefault" ∧ sc_Add s ⊆ allowed.

(** Nobody: no capability at all and no root. *)
Definition unprivileged (c : Container) : Prop :=
  confined [] c ∧ sc_RunAsNonRoot (co_SecurityContext c) = true.

(** What the API server checks of a pod: its volumes and containers are named
    apart, and every mount names a volume. *)
Definition pod_well_formed (p : PodSpec) : Prop :=
  NoDup (vol_Name <$> ps_Volumes p) ∧
  NoDup (co_Name <$> ps_InitContainers p ++ ps_Containers p) ∧
  ∀ c m, c ∈ ps_InitContainers p ++ ps_Containers p → m ∈ co_VolumeMounts c → vm_Name m ∈ (vol_Name <$> ps_Volumes p).

End Objects.
