(* ===== verification/Render.v ===== *)
(** * What the two renderers share

    The security contexts, the resource blocks and the names of
    internal/controller/networktap_workload.go and capturejob_workload.go. *)

From S2P Require Import Prelude GoTime GoString Api Settings Objects.

Module Render.
Import Objects.

Definition capNetRaw : str := "NET_RAW".
Definition capNetAdmin : str := "NET_ADMIN".
Definition rootCAConfigMap : str := "kube-root-ca.crt".
Definition rootCAKey : str := "ca.crt".
Definition tokenPath : str := "/var/run/secrets/trawl".
Definition tokenExpirationSeconds : Z := 3600.
Definition verbGet : str := "get".
Definition verbPatch : str := "patch".

Definition shortUID (uid : str) : str := str_take 8 uid.

(** [CaptureNames]: the runner Job's, the account's and the role's. *)
Definition runner_name (job : CaptureJob) : str := "trawl-capture-" +:+ shortUID (m_UID (cj_Meta job)).
Definition CaptureNames (job : CaptureJob) : str * str * str :=
  (runner_name job, runner_name job, runner_name job +:+ "-status").

Definition analyzerSecurityContext : SecurityContext :=
  mkSecurityContext [capNetRaw; capNetAdmin] ["ALL"] false false true false None "RuntimeDefault".

Definition restrictedSecurityContext : SecurityContext :=
  mkSecurityContext [] ["ALL"] false false true true (Some 65532) "RuntimeDefault".

(** The token and the authority it is checked against, projected as one
    volume. *)
Definition token_volume (name : str) : Volume :=
  mkVolume name (Projected [ServiceAccountToken "token" tokenExpirationSeconds;
                            ProjectedConfigMap rootCAConfigMap [(rootCAKey, rootCAKey)]]).

Section resources.
Context `{Quantities}.

(** [resource.MustParse]: nothing is a panic. *)
Definition MustParse (s : str) : option Quantity := ParseQuantity s.

Definition resource_lists (requestsCPU requestsMemory limitsCPU limitsMemory : str) : option ResourceRequirements :=
  rc ← MustParse requestsCPU; rm ← MustParse requestsMemory; lc ← MustParse limitsCPU; lm ← MustParse limitsMemory;
  Some (mkResources (<["cpu" := rc]> (<["memory" := rm]> ∅)) (<["cpu" := lc]> (<["memory" := lm]> ∅))).

Definition resourcesFrom (rr : Settings.ResourceRequirements) : option ResourceRequirements :=
  resource_lists (Settings.rr_RequestsCPU rr) (Settings.rr_RequestsMemory rr) (Settings.rr_LimitsCPU rr)
    (Settings.rr_LimitsMemory rr).

Lemma resource_lists_Some a b c d :
  is_Some (ParseQuantity a) → is_Some (ParseQuantity b) → is_Some (ParseQuantity c) → is_Some (ParseQuantity d) →
  is_Some (resource_lists a b c d).
Proof. intros [? E1] [? E2] [? E3] [? E4]. unfold resource_lists, MustParse. rewrite E1, E2, E3, E4. by eexists. Qed.

(** Validated sizing never panics the renderer. *)
Lemma resourcesFrom_Some rr : Settings.valid_resources ParseQuantity rr → is_Some (resourcesFrom rr).
Proof. intros ((_ & ?) & (_ & ?) & (_ & ?) & (_ & ?)). by apply resource_lists_Some. Qed.

End resources.

Lemma analyzer_confined c : co_SecurityContext c = analyzerSecurityContext → confined [capNetRaw; capNetAdmin] c.
Proof. intros E. unfold confined. by rewrite E. Qed.

Lemma restricted_unprivileged c : co_SecurityContext c = restrictedSecurityContext → unprivileged c.
Proof. intros E. unfold unprivileged, confined. by rewrite E. Qed.

End Render.
