(* ===== verification/Pcapng.v ===== *)
(** * The pcapng walk, [CountAndHash] of internal/capture/manifest.go

    The stream is a byte string.  [io.ReadFull] and [io.CopyN] are [read_full];
    the tee into the hash is the accumulated string [h], which is what the
    digest is taken of.  The loop has fuel, the length of the stream: every
    iteration consumes at least twelve bytes, and [CountAndHash_spec] shows
    that the fuel error is never returned.  The counters are int64 in the
    source; they are bounded by the length of the stream, which is far below
    2^63, so they are plain integers here. *)

From S2P Require Import Prelude GoString Sha256.

Module Pcapng.

Definition blockSectionHeader : Z := 0x0A0D0D0A.
Definition blockPacketObsolete : Z := 2.
Definition blockSimplePacket : Z := 3.
Definition blockEnhancedPacket : Z := 6.
Definition byteOrderMagic : Z := 0x1A2B3C4D.
Definition minBlockLength : Z := 12.

Inductive byte_order := LittleEndian | BigEndian.

(** [order.Uint32] of a four-byte slice. *)
Definition u32_of (a b c d : Ascii.ascii) : Z :=
  byte_of a + 256 * (byte_of b + 256 * (byte_of c + 256 * byte_of d)).

Definition get_u32 (o : byte_order) (s : str) : Z :=
  match s with
  | String a (String b (String c (String d _))) =>
      match o with LittleEndian => u32_of a b c d | BigEndian => u32_of d c b a end
  | _ => 0
  end.

(** [io.ReadFull] of [n] bytes: the bytes and the rest, or a short read. *)
Definition read_full (n : nat) (s : str) : option (str * str) :=
  if (n <=? String.length s)%nat then Some (str_take n s, str_drop n s) else None.

Definition checkTrailer (s : str) (o : byte_order) (total : Z) : result str (str * str) :=
  match read_full 4 s with
  | None => Err "pcapng: truncated block trailer"
  | Some (buf, s') =>
      if get_u32 o buf =? total then Ok (buf, s')
      else Err "pcapng: block trailer does not match header"
  end.

(** The loop's state: the byte order of the section, the counters, the bytes
    hashed so far. *)
Record walk := mkWalk {
  w_order : option byte_order;
  w_packets : Z;
  w_size : Z;
  w_hashed : str;
}.

Definition is_packet_block (typ : Z) : bool :=
  (typ =? blockEnhancedPacket) || (typ =? blockSimplePacket) || (typ =? blockPacketObsolete).

(** The section header branch, after its first eight bytes. *)
Definition walk_section (w : walk) (hdr s : str) : result str (walk * str) :=
  match read_full 4 s with
  | None => Err "pcapng: truncated section header"
  | Some (magic, s1) =>
      let order :=
        if get_u32 LittleEndian magic =? byteOrderMagic then Some LittleEndian
        else if get_u32 BigEndian magic =? byteOrderMagic then Some BigEndian
        else None in
      match order with
      | None => Err "pcapng: bad byte-order magic"
      | Some o =>
          let total := get_u32 o (str_drop 4 hdr) in
          if (total <? minBlockLength + 4) || negb (total mod 4 =? 0)
          then Err "pcapng: bad section header length" else
          let rest := total - 16 in
          match read_full (Z.to_nat rest) s1 with
          | None => Err "pcapng: truncated section header"
          | Some (body, s2) =>
              let? (trailer, s3) := checkTrailer s2 o total in
              Ok (mkWalk (Some o) (w_packets w) (w_size w + 8 + 4 + rest + 4)
                    (w_hashed w +:+ hdr +:+ magic +:+ body +:+ trailer), s3)
          end
      end
  end.

(** Any other block, after its first eight bytes. *)
Definition walk_block (w : walk) (hdr s : str) : result str (walk * str) :=
  match w_order w with
  | None => Err "pcapng: stream does not start with a section header"
  | Some o =>
      let typ := get_u32 o (str_take 4 hdr) in
      let total := get_u32 o (str_drop 4 hdr) in
      if (total <? minBlockLength) || negb (total mod 4 =? 0)
      then Err "pcapng: bad block length" else
      let body_len := total - minBlockLength in
      match read_full (Z.to_nat body_len) s with
      | None => Err "pcapng: truncated block"
      | Some (body, s1) =>
          let? (trailer, s2) := checkTrailer s1 o total in
          Ok (mkWalk (Some o) (w_packets w + if is_packet_block typ then 1 else 0)
                (w_size w + 8 + body_len + 4) (w_hashed w +:+ hdr +:+ body +:+ trailer), s2)
      end
  end.

Definition walk_step (w : walk) (hdr s : str) : result str (walk * str) :=
  if get_u32 LittleEndian (str_take 4 hdr) =? blockSectionHeader
  then walk_section w hdr s else walk_block w hdr s.

Fixpoint walk_loop (fuel : nat) (w : walk) (s : str) : result str walk :=
  match s, fuel with
  | EmptyString, _ => Ok w
  | _, O => Err "out of fuel"
  | _, S n =>
      match read_full 8 s with
      | None => Err "pcapng: truncated block header"
      | Some (hdr, s1) =>
          let? (w', s') := walk_step w hdr s1 in walk_loop n w' s'
      end
  end.

Definition CountAndHash (r : str) : result str (Z * Z * str) :=
  let? w := walk_loop (String.length r) (mkWalk None 0 0 "") r in
  match w_order w with
  | None => Err "pcapng: empty stream"
  | Some _ => Ok (w_packets w, w_size w, sha256_hex (w_hashed w))
  end.

(** ** The file format, as a specification

    A stream is a sequence of sections, each with its own byte order; a
    section is its header's content and its blocks. *)

Record block := mkBlock { blk_type : Z; blk_body : str }.
Record section := mkSection { sec_order : byte_order; sec_rest : str; sec_blocks : list block }.

Definition put_u32 (o : byte_order) (z : Z) : str :=
  let b0 := ascii_of (z mod 256) in
  let b1 := ascii_of (z / 256 mod 256) in
  let b2 := ascii_of (z / 65536 mod 256) in
  let b3 := ascii_of (z / 16777216 mod 256) in
  match o with
  | LittleEndian => String b0 (String b1 (String b2 (String b3 "")))
  | BigEndian => String b3 (String b2 (String b1 (String b0 "")))
  end.

Definition block_total (b : block) : Z := 12 + slen (blk_body b).
Definition header_total (s : section) : Z := 16 + slen (sec_rest s).

Definition encode_block (o : byte_order) (b : block) : str :=
  put_u32 o (blk_type b) +:+ put_u32 o (block_total b) +:+ blk_body b +:+
  put_u32 o (block_total b).

Definition encode_header (s : section) : str :=
  put_u32 LittleEndian blockSectionHeader +:+ put_u32 (sec_order s) (header_total s) +:+
  put_u32 (sec_order s) byteOrderMagic +:+ sec_rest s +:+
  put_u32 (sec_order s) (header_total s).

Fixpoint encode_blocks (o : byte_order) (l : list block) : str :=
  match l with [] => "" | b :: l' => encode_block o b +:+ encode_blocks o l' end.

Definition encode_section (s : section) : str :=
  encode_header s +:+ encode_blocks (sec_order s) (sec_blocks s).

Fixpoint encode_stream (l : list section) : str :=
  match l with [] => "" | s :: l' => encode_section s +:+ encode_stream l' end.

Definition wf_block (b : block) : Prop :=
  0 ≤ blk_type b < 2 ^ 32 ∧ blk_type b ≠ blockSectionHeader ∧
  block_total b < 2 ^ 32 ∧ slen (blk_body b) mod 4 = 0.

Definition wf_section (s : section) : Prop :=
  header_total s < 2 ^ 32 ∧ slen (sec_rest s) mod 4 = 0 ∧ Forall wf_block (sec_blocks s).

Definition packets_in (l : list section) : Z :=
  Z.of_nat (length (filter (λ b, is_packet_block (blk_type b) = true) (l ≫= sec_blocks))).

(** ** Words *)

Lemma div_65536 z : z / 65536 = z / 256 / 256.
Proof. by rewrite Z.div_div. Qed.

Lemma div_16777216 z : z / 16777216 = z / 256 / 256 / 256.
Proof. by rewrite !Z.div_div. Qed.

Lemma horner_div x y : 0 ≤ x < 256 → (x + 256 * y) / 256 = y.
Proof. intros. rewrite Z.mul_comm, Z.div_add by lia. rewrite Z.div_small by lia. lia. Qed.

Lemma horner_mod x y : 0 ≤ x < 256 → (x + 256 * y) mod 256 = x.
Proof. intros. rewrite Z.mul_comm, Z.mod_add by lia. by apply Z.mod_small. Qed.

Lemma horner_expand z :
  0 ≤ z < 2 ^ 32 →
  z mod 256 + 256 * (z / 256 mod 256 + 256 * (z / 65536 mod 256 + 256 * (z / 16777216 mod 256))) = z.
Proof.
  intros Hz. change (2 ^ 32) with 4294967296 in Hz. rewrite div_65536, div_16777216.
  Z.div_mod_to_equations. lia.
Qed.

Lemma put_u32_length o z : String.length (put_u32 o z) = 4%nat.
Proof. by destruct o. Qed.

Lemma get_put_u32 o z r : 0 ≤ z < 2 ^ 32 → get_u32 o (put_u32 o z +:+ r) = z.
Proof.
  intros Hz. assert (∀ x, 0 ≤ x mod 256 < 256) as Hm by (intros; apply Z.mod_pos_bound; lia).
  destruct o; cbn [put_u32 String.append get_u32]; unfold u32_of;
    rewrite !byte_of_ascii by auto; by apply horner_expand.
Qed.

Lemma get_u32_range o s : 0 ≤ get_u32 o s < 2 ^ 32.
Proof.
  change (2 ^ 32) with 4294967296.
  destruct s as [|a [|b [|c [|d s]]]]; try (simpl; lia).
  pose proof (byte_of_range a). pose proof (byte_of_range b).
  pose proof (byte_of_range c). pose proof (byte_of_range d).
  destruct o; cbn [get_u32]; unfold u32_of; lia.
Qed.

Lemma put_get_u32 o s : String.length s = 4%nat → put_u32 o (get_u32 o s) = s.
Proof.
  destruct s as [|a [|b [|c [|d [|e s]]]]]; try done. intros _.
  pose proof (byte_of_range a). pose proof (byte_of_range b).
  pose proof (byte_of_range c). pose proof (byte_of_range d).
  destruct o; cbn [get_u32 put_u32]; unfold u32_of;
    rewrite div_65536, div_16777216, !horner_div, !horner_mod by done;
    rewrite !Z.mod_small, !ascii_of_byte by done; done.
Qed.

Lemma get_u32_app o s t : String.length s = 4%nat → get_u32 o (s +:+ t) = get_u32 o s.
Proof. destruct s as [|a [|b [|c [|d [|e s]]]]]; done. Qed.

(** The magic number of the section header reads the same in both orders, and
    the byte-order magic does not. *)
Lemma block_type_not_header o z :
  0 ≤ z < 2 ^ 32 → z ≠ blockSectionHeader →
  get_u32 LittleEndian (put_u32 o z) ≠ blockSectionHeader.
Proof.
  intros Hz Hne. rewrite <-(str_app_nil_r (put_u32 o z)).
  destruct o; [by rewrite get_put_u32|]. intros Heq. apply Hne.
  apply (f_equal (put_u32 LittleEndian)) in Heq.
  rewrite put_get_u32 in Heq by (by rewrite str_app_nil_r).
  rewrite str_app_nil_r in Heq. apply (f_equal (get_u32 BigEndian)) in Heq.
  rewrite <-(str_app_nil_r (put_u32 BigEndian z)), get_put_u32 in Heq by done.
  rewrite Heq. reflexivity.
Qed.

Lemma big_magic_not_little r :
  (get_u32 LittleEndian (put_u32 BigEndian byteOrderMagic +:+ r) =? byteOrderMagic) = false.
Proof. reflexivity. Qed.

(** ** Reads *)

Lemma read_full_app n s t : String.length s = n → read_full n (s +:+ t) = Some (s, t).
Proof.
  intros <-. unfold read_full. rewrite str_length_app, (proj2 (Nat.leb_le _ _)) by lia.
  by rewrite str_take_app, str_drop_app.
Qed.

Lemma read_full_Some n s a b :
  read_full n s = Some (a, b) ↔ s = a +:+ b ∧ String.length a = n.
Proof.
  split; [|intros [-> Hl]; by apply read_full_app].
  unfold read_full. destruct (Nat.leb_spec n (String.length s)); [|done].
  intros [= <- <-]. rewrite str_take_drop, str_take_length. split; [done|lia].
Qed.

Lemma checkTrailer_Ok s o total buf s' :
  0 ≤ total < 2 ^ 32 →
  checkTrailer s o total = Ok (buf, s') ↔ s = buf +:+ s' ∧ buf = put_u32 o total.
Proof.
  intros Ht. unfold checkTrailer. split.
  - destruct (read_full 4 s) as [[b r]|] eqn:E; [|done]. apply read_full_Some in E as [-> Hl].
    destruct (Z.eqb_spec (get_u32 o b) total) as [<-|]; [|done]. intros [= -> ->].
    by rewrite put_get_u32.
  - intros [-> ->]. rewrite read_full_app by apply put_u32_length.
    rewrite <-(str_app_nil_r (put_u32 o total)) at 1. rewrite get_put_u32 by done.
    by rewrite Z.eqb_refl.
Qed.

(** ** One step is one header or one block *)

Definition add_header (w : walk) (s : section) : walk :=
  mkWalk (Some (sec_order s)) (w_packets w) (w_size w + slen (encode_header s))
    (w_hashed w +:+ encode_header s).

Definition add_block (w : walk) (o : byte_order) (b : block) : walk :=
  mkWalk (Some o) (w_packets w + if is_packet_block (blk_type b) then 1 else 0)
    (w_size w + slen (encode_block o b)) (w_hashed w +:+ encode_block o b).

Definition wf_header (s : section) : Prop :=
  header_total s < 2 ^ 32 ∧ slen (sec_rest s) mod 4 = 0.

Lemma slen_put_u32 o z : slen (put_u32 o z) = 4.
Proof. unfold slen. by rewrite put_u32_length. Qed.

Lemma slen_encode_header s : slen (encode_header s) = header_total s.
Proof. unfold encode_header, header_total. rewrite !slen_app, !slen_put_u32. lia. Qed.

Lemma slen_encode_block o b : slen (encode_block o b) = block_total b.
Proof. unfold encode_block, block_total. rewrite !slen_app, !slen_put_u32. lia. Qed.

Lemma total_mod k n : k mod 4 = 0 → (k + n) mod 4 = n mod 4.
Proof. intros H. by rewrite <-Z.add_mod_idemp_l, H. Qed.

Lemma mod4_sub k : k mod 4 = 0 → (k - 16) mod 4 = 0 ∧ (k - 12) mod 4 = 0.
Proof. intros. Z.div_mod_to_equations. lia. Qed.

Lemma read_full_prefix n s t : n = String.length s → read_full n (s +:+ t) = Some (s, t).
Proof. intros ->. by apply read_full_app. Qed.

Lemma slen_inj_nat s n : slen s = n → String.length s = Z.to_nat n.
Proof. unfold slen. lia. Qed.

Lemma slen_eq s n : 0 ≤ n → String.length s = Z.to_nat n → slen s = n.
Proof. unfold slen. lia. Qed.

Lemma get_put_u32' o z : 0 ≤ z < 2 ^ 32 → get_u32 o (put_u32 o z) = z.
Proof. intros. by rewrite <-(str_app_nil_r (put_u32 o z)), get_put_u32. Qed.

(** The two words of a block's first eight bytes. *)
Lemma split_words hdr :
  String.length hdr = 8%nat →
  String.length (str_take 4 hdr) = 4%nat ∧ String.length (str_drop 4 hdr) = 4%nat ∧
  str_take 4 hdr +:+ str_drop 4 hdr = hdr.
Proof. intros H. rewrite str_take_length, str_drop_length, str_take_drop, H. done. Qed.

Lemma total_check n t :
  ((t <? n) || negb (t mod 4 =? 0)) = false ↔ n ≤ t ∧ t mod 4 = 0.
Proof. rewrite orb_false_iff, negb_false_iff, Z.ltb_ge, Z.eqb_eq. done. Qed.

Lemma magic_order magic o :
  String.length magic = 4%nat →
  (if get_u32 LittleEndian magic =? byteOrderMagic then Some LittleEndian
   else if get_u32 BigEndian magic =? byteOrderMagic then Some BigEndian else None) = Some o ↔
  magic = put_u32 o byteOrderMagic.
Proof.
  intros Hl. split.
  - destruct (Z.eqb_spec (get_u32 LittleEndian magic) byteOrderMagic) as [<-|];
      [intros [= <-]; by rewrite put_get_u32|].
    destruct (Z.eqb_spec (get_u32 BigEndian magic) byteOrderMagic) as [<-|];
      [intros [= <-]; by rewrite put_get_u32|done].
  - intros ->. by destruct o.
Qed.

Lemma walk_section_iff w hdr s w' s' :
  String.length hdr = 8%nat → str_take 4 hdr = put_u32 LittleEndian blockSectionHeader →
  walk_section w hdr s = Ok (w', s') ↔
  ∃ sec, wf_header sec ∧ hdr +:+ s = encode_header sec +:+ s' ∧ w' = add_header w sec.
Proof.
  intros H8 Hty. destruct (split_words hdr H8) as (H4 & H4' & Hhdr). split.
  - unfold walk_section. destruct (read_full 4 s) as [[magic s1]|] eqn:E1; [|done].
    apply read_full_Some in E1 as [-> Hm].
    destruct (if _ =? byteOrderMagic then _ else _) as [o|] eqn:Eo; [|done].
    apply (magic_order _ _ Hm) in Eo as ->.
    pose proof (get_u32_range o (str_drop 4 hdr)) as Ht.
    pose proof (put_get_u32 o _ H4') as Hlen.
    set (total := get_u32 o (str_drop 4 hdr)) in *.
    destruct (_ || _) eqn:Ec; [done|]. apply total_check in Ec as [Hmin Hmod].
    destruct (read_full (Z.to_nat (total - 16)) s1) as [[body s2]|] eqn:E2; [|done].
    apply read_full_Some in E2 as [-> Hb]. apply slen_eq in Hb; [|unfold minBlockLength in *; lia].
    intros ([trailer s3] & Htr & [= <- <-])%result_bind_Ok.
    apply checkTrailer_Ok in Htr as [-> ->]; [|done].
    assert (header_total (mkSection o body []) = total) as Htot by (unfold header_total; simpl; lia).
    exists (mkSection o body []). unfold wf_header, add_header. rewrite slen_encode_header.
    unfold encode_header. rewrite Htot. cbn [sec_rest sec_order]. rewrite Hb. split_and!.
    + lia.
    + by apply mod4_sub.
    + rewrite <-Hhdr at 1. by rewrite Hty, <-Hlen, !str_app_assoc.
    + f_equal; [lia|]. rewrite <-Hhdr at 1. by rewrite Hty, <-Hlen, !str_app_assoc.
  - intros ([o body bs] & [Ht Hm] & Heq & ->). unfold encode_header in Heq.
    change (sec_rest (mkSection o body bs)) with body in *.
    change (sec_order (mkSection o body bs)) with o in *.
    pose proof (slen_nonneg body) as Hnn.
    assert (header_total (mkSection o body bs) = 16 + slen body) as Htot by done.
    assert (0 ≤ 16 + slen body < 2 ^ 32) as Hrng by (rewrite Htot in Ht; lia).
    rewrite Htot in *.
    rewrite <-str_app_assoc, (str_app_assoc _ _ s') in Heq.
    apply str_app_inj_len in Heq as [-> ->]; [|by rewrite H8, str_length_app, !put_u32_length].
    rewrite !str_app_assoc. unfold walk_section.
    rewrite read_full_app by apply put_u32_length.
    rewrite (proj2 (magic_order _ o (put_u32_length _ _)) eq_refl).
    rewrite str_drop_app_n by apply put_u32_length. rewrite get_put_u32' by lia.
    rewrite (proj2 (total_check _ _)).
    2:{ split; [unfold minBlockLength; lia|]. by rewrite Z.add_comm, total_mod. }
    rewrite read_full_prefix by (unfold slen; lia).
    rewrite (proj2 (checkTrailer_Ok _ o _ (put_u32 o (16 + slen body)) s' Hrng)) by done.
    cbn [result_bind]. unfold add_header. rewrite slen_encode_header. unfold encode_header.
    rewrite Htot. cbn [sec_rest sec_order].
    rewrite !str_app_assoc. f_equal. f_equal. f_equal. lia.
Qed.

Lemma walk_block_iff w hdr s w' s' :
  String.length hdr = 8%nat → str_take 4 hdr ≠ put_u32 LittleEndian blockSectionHeader →
  walk_block w hdr s = Ok (w', s') ↔
  ∃ o b, w_order w = Some o ∧ wf_block b ∧ hdr +:+ s = encode_block o b +:+ s' ∧
    w' = add_block w o b.
Proof.
  intros H8 Hty. destruct (split_words hdr H8) as (H4 & H4' & Hhdr). split.
  - unfold walk_block. destruct (w_order w) as [o|]; [|done].
    pose proof (get_u32_range o (str_drop 4 hdr)) as Ht.
    pose proof (get_u32_range o (str_take 4 hdr)) as Hyr.
    pose proof (put_get_u32 o _ H4') as Hlen. pose proof (put_get_u32 o _ H4) as Hty'.
    set (total := get_u32 o (str_drop 4 hdr)) in *. set (typ := get_u32 o (str_take 4 hdr)) in *.
    destruct (_ || _) eqn:Ec; [done|]. apply total_check in Ec as [Hmin Hmod].
    destruct (read_full (Z.to_nat _) s) as [[body s1]|] eqn:E2; [|done].
    apply read_full_Some in E2 as [-> Hb]. unfold minBlockLength in *.
    apply slen_eq in Hb; [|lia].
    intros ([trailer s3] & Htr & [= <- <-])%result_bind_Ok.
    apply checkTrailer_Ok in Htr as [-> ->]; [|done].
    assert (block_total (mkBlock typ body) = total) as Htot by (unfold block_total; simpl; lia).
    exists o, (mkBlock typ body). unfold wf_block, add_block. rewrite slen_encode_block.
    unfold encode_block. rewrite Htot. cbn [blk_type blk_body]. rewrite Hb.
    split_and!; try lia; [done|..].
    + intros E. apply Hty. rewrite <-Hty', E. by destruct o.
    + by apply mod4_sub.
    + rewrite <-Hhdr at 1. by rewrite <-Hty', <-Hlen, !str_app_assoc.
    + f_equal; [lia|]. rewrite <-Hhdr at 1. by rewrite <-Hty', <-Hlen, !str_app_assoc.
  - intros (o & [typ body] & Ho & (Hy & Hne & Ht & Hm) & Heq & ->). unfold encode_block in Heq.
    change (blk_body (mkBlock typ body)) with body in *.
    change (blk_type (mkBlock typ body)) with typ in *.
    pose proof (slen_nonneg body) as Hnn.
    assert (block_total (mkBlock typ body) = 12 + slen body) as Htot by done.
    assert (0 ≤ 12 + slen body < 2 ^ 32) as Hrng by (rewrite Htot in Ht; lia).
    rewrite Htot in *.
    rewrite <-str_app_assoc, (str_app_assoc _ _ s') in Heq.
    apply str_app_inj_len in Heq as [-> ->]; [|by rewrite H8, str_length_app, !put_u32_length].
    rewrite !str_app_assoc. unfold walk_block. rewrite Ho.
    rewrite str_drop_app_n, str_take_app_n by apply put_u32_length.
    rewrite !get_put_u32' by lia. rewrite (proj2 (total_check _ _)).
    2:{ split; [unfold minBlockLength; lia|]. by rewrite Z.add_comm, total_mod. }
    rewrite read_full_prefix by (unfold slen, minBlockLength; lia).
    rewrite (proj2 (checkTrailer_Ok _ o _ (put_u32 o (12 + slen body)) s' Hrng)) by done.
    cbn [result_bind]. unfold add_block. rewrite slen_encode_block. unfold encode_block.
    rewrite Htot. cbn [blk_type blk_body].
    rewrite !str_app_assoc. f_equal. f_equal. f_equal. unfold minBlockLength. lia.
Qed.

Lemma header_test hdr :
  String.length hdr = 8%nat →
  (get_u32 LittleEndian (str_take 4 hdr) =? blockSectionHeader) = true ↔
  str_take 4 hdr = put_u32 LittleEndian blockSectionHeader.
Proof.
  intros (H4 & _ & _)%split_words. rewrite Z.eqb_eq. split; [|by intros ->].
  intros <-. by rewrite put_get_u32.
Qed.

Lemma walk_step_iff w hdr s w' s' :
  String.length hdr = 8%nat →
  walk_step w hdr s = Ok (w', s') ↔
  (∃ sec, wf_header sec ∧ hdr +:+ s = encode_header sec +:+ s' ∧ w' = add_header w sec) ∨
  (∃ o b, w_order w = Some o ∧ wf_block b ∧ hdr +:+ s = encode_block o b +:+ s' ∧
    w' = add_block w o b).
Proof.
  intros H8. unfold walk_step. pose proof (header_test hdr H8) as Ht.
  assert (∀ sec, hdr +:+ s = encode_header sec +:+ s' →
    str_take 4 hdr = put_u32 LittleEndian blockSectionHeader) as Hs.
  { intros sec Heq. apply (f_equal (str_take 4)) in Heq.
    rewrite str_take_app_le in Heq by lia. by rewrite Heq. }
  assert (∀ o b, wf_block b → hdr +:+ s = encode_block o b +:+ s' →
    str_take 4 hdr ≠ put_u32 LittleEndian blockSectionHeader) as Hb.
  { intros o b (Hr & Hne & _) Heq. apply (f_equal (str_take 4)) in Heq.
    rewrite str_take_app_le in Heq by lia. unfold encode_block in Heq.
    rewrite !str_app_assoc, (str_take_app_n 4) in Heq by apply put_u32_length.
    rewrite Heq. intros E. apply (block_type_not_header o (blk_type b) Hr Hne). by rewrite E. }
  destruct (get_u32 LittleEndian (str_take 4 hdr) =? blockSectionHeader).
  - pose proof (proj1 Ht eq_refl) as E. rewrite walk_section_iff by done. split; [by left|].
    intros [?|(o & b & _ & Hwf & Heq & _)]; [done|]. by destruct (Hb o b Hwf Heq).
  - assert (str_take 4 hdr ≠ put_u32 LittleEndian blockSectionHeader) as E'.
    { intros E'. by apply Ht in E'. }
    rewrite walk_block_iff by done. split; [by right|].
    intros [(sec & _ & Heq & _)|?]; [|done]. by destruct (E' (Hs sec Heq)).
Qed.

Lemma walk_step_consumes w hdr s w' s' :
  String.length hdr = 8%nat → walk_step w hdr s = Ok (w', s') →
  (String.length s' < String.length (hdr +:+ s))%nat.
Proof.
  intros H8 [(sec & _ & -> & _)|(o & b & _ & _ & -> & _)]%walk_step_iff; [..|done];
    rewrite str_length_app; unfold encode_header, encode_block;
    rewrite !str_length_app, !put_u32_length; lia.
Qed.

(** ** The loop reads a sequence of sections *)

Definition count_packets (l : list block) : Z :=
  Z.of_nat (length (filter (λ b, is_packet_block (blk_type b) = true) l)).

(** From state [w], the input continues the current section with [bs] and goes
    on with whole sections. *)
Definition continues (w : walk) (bs : list block) (secs : list section) (s : str) : Prop :=
  Forall wf_block bs ∧ Forall wf_section secs ∧
  match w_order w with
  | Some o => s = encode_blocks o bs +:+ encode_stream secs
  | None => bs = [] ∧ s = encode_stream secs
  end.

(** What the loop has accumulated at its end. *)
Definition accumulates (w : walk) (bs : list block) (secs : list section) (s : str) (w' : walk) : Prop :=
  w_packets w' = w_packets w + count_packets bs + packets_in secs ∧
  w_size w' = w_size w + slen s ∧ w_hashed w' = w_hashed w +:+ s ∧
  (w_order w' = None ↔ w_order w = None ∧ secs = []).

Lemma count_packets_cons b l :
  count_packets (b :: l) = (if is_packet_block (blk_type b) then 1 else 0) + count_packets l.
Proof.
  unfold count_packets. rewrite filter_cons. destruct (is_packet_block _); simpl; lia.
Qed.

Lemma packets_in_cons sec secs :
  packets_in (sec :: secs) = count_packets (sec_blocks sec) + packets_in secs.
Proof. unfold packets_in, count_packets. csimpl. rewrite filter_app, length_app. lia. Qed.

Lemma accumulates_block w o b bs secs s w' :
  w_order w = Some o →
  accumulates (add_block w o b) bs secs s w' →
  accumulates w (b :: bs) secs (encode_block o b +:+ s) w'.
Proof.
  intros Ho (Hp & Hs & Hh & Hn). unfold accumulates. simpl in *.
  rewrite Hp, Hs, Hh, Hn, Ho, count_packets_cons, slen_app, str_app_assoc.
  split_and!; [lia|lia|done|]. naive_solver.
Qed.

Lemma accumulates_header w o rest bs secs s w' :
  accumulates (add_header w (mkSection o rest bs)) bs secs s w' →
  accumulates w [] (mkSection o rest bs :: secs)
    (encode_header (mkSection o rest bs) +:+ s) w'.
Proof.
  intros (Hp & Hs & Hh & Hn). unfold accumulates. cbn [add_header w_packets w_size w_hashed w_order] in *.
  rewrite Hp, Hs, Hh, Hn, packets_in_cons, slen_app, str_app_assoc.
  split_and!; [cbn [sec_blocks]; unfold count_packets; simpl; lia|lia|done|]. naive_solver.
Qed.

Lemma walk_loop_step n w s :
  (8 ≤ String.length s)%nat →
  walk_loop (S n) w s =
  let? (w', s') := walk_step w (str_take 8 s) (str_drop 8 s) in walk_loop n w' s'.
Proof.
  intros H8. destruct s as [|c s]; [simpl in H8; lia|].
  cbn [walk_loop]. unfold read_full. by rewrite (proj2 (Nat.leb_le _ _)).
Qed.

Lemma walk_loop_sound_nil w : continues w [] [] "" ∧ accumulates w [] [] "" w.
Proof.
  unfold continues, accumulates. rewrite str_app_nil_r. split_and!; try done.
  - by destruct (w_order w).
  - unfold count_packets, packets_in. simpl. lia.
  - change (slen "") with 0; lia.
  - naive_solver.
Qed.

Lemma encode_header_blocks o rest bs bs' :
  encode_header (mkSection o rest bs) = encode_header (mkSection o rest bs').
Proof. done. Qed.

Lemma walk_loop_sound fuel w s w' :
  walk_loop fuel w s = Ok w' →
  ∃ bs secs, continues w bs secs s ∧ accumulates w bs secs s w'.
Proof.
  revert w s. induction fuel as [|n IH]; intros w s.
  { destruct s; [|done]. intros [= <-]. exists [], []. apply walk_loop_sound_nil. }
  destruct (decide (8 ≤ String.length s)%nat) as [H8|H8].
  - rewrite walk_loop_step by done. intros ([w1 s1] & Hst & Hl)%result_bind_Ok.
    assert (String.length (str_take 8 s) = 8%nat) as Hl8 by (rewrite str_take_length; lia).
    apply IH in Hl as (bs & secs & (Hbs & Hsecs & Hc) & Hacc).
    apply walk_step_iff in Hst as [([o rest bs0] & [Ht Hm] & Heq & ->)|(o & b & Ho & Hb & Heq & ->)]; [..|done];
      rewrite str_take_drop in Heq; subst s; simpl in Hc; subst s1.
    + exists [], (mkSection o rest bs :: secs). split.
      * split_and!; [done|by constructor|]. rewrite (encode_header_blocks o rest bs0 bs).
        destruct (w_order w); cbn [encode_blocks encode_stream String.append]; [|split; [done|]];
          unfold encode_section; by rewrite str_app_assoc.
      * rewrite (encode_header_blocks o rest bs0 bs). by apply accumulates_header.
    + exists (b :: bs), secs. split; [|by apply accumulates_block].
      split_and!; [by constructor|done|]. rewrite Ho. simpl. by rewrite str_app_assoc.
  - destruct s as [|c s].
    + intros [= <-]. exists [], []. apply walk_loop_sound_nil.
    + cbn [walk_loop]. unfold read_full. by rewrite (proj2 (Nat.leb_gt _ _)) by lia.
Qed.

Lemma encode_block_length o b : (12 ≤ String.length (encode_block o b))%nat.
Proof. unfold encode_block. rewrite !str_length_app, !put_u32_length. lia. Qed.

Lemma encode_header_length sec : (16 ≤ String.length (encode_header sec))%nat.
Proof. unfold encode_header. rewrite !str_length_app, !put_u32_length. lia. Qed.

Lemma str_split8 s p t :
  s = p +:+ t → (8 ≤ String.length p)%nat →
  (8 ≤ String.length s)%nat ∧ String.length (str_take 8 s) = 8%nat ∧
  str_take 8 s +:+ str_drop 8 s = p +:+ t.
Proof. intros -> Hp. rewrite str_take_length, str_take_drop, str_length_app. split_and!; lia || done. Qed.

Lemma walk_loop_block fuel w o b t :
  w_order w = Some o → wf_block b →
  walk_loop (S fuel) w (encode_block o b +:+ t) = walk_loop fuel (add_block w o b) t.
Proof.
  intros Ho Hb. assert (8 ≤ String.length (encode_block o b))%nat as Hlen
    by (pose proof (encode_block_length o b); lia).
  destruct (str_split8 _ (encode_block o b) t eq_refl Hlen) as (H8 & Hl & Heq).
  rewrite walk_loop_step by done.
  rewrite (proj2 (walk_step_iff w _ _ (add_block w o b) t Hl)); [done|].
  right. by exists o, b.
Qed.

Lemma walk_loop_header fuel w sec t :
  wf_header sec →
  walk_loop (S fuel) w (encode_header sec +:+ t) = walk_loop fuel (add_header w sec) t.
Proof.
  intros Hs. assert (8 ≤ String.length (encode_header sec))%nat as Hlen
    by (pose proof (encode_header_length sec); lia).
  destruct (str_split8 _ (encode_header sec) t eq_refl Hlen) as (H8 & Hl & Heq).
  rewrite walk_loop_step by done.
  rewrite (proj2 (walk_step_iff w _ _ (add_header w sec) t Hl)); [done|].
  left. by exists sec.
Qed.

Lemma walk_loop_complete bs secs fuel w s :
  (String.length s ≤ fuel)%nat → continues w bs secs s →
  ∃ w', walk_loop fuel w s = Ok w' ∧ accumulates w bs secs s w'.
Proof.
  revert fuel w bs s. induction secs as [|[o' rest bs'] secs IHs]; intros fuel w bs;
    revert fuel w; induction bs as [|b bs IHb]; intros fuel w s Hf (Hbs & Hsecs & Hc).
  1: { assert (s = "") as -> by (destruct (w_order w); naive_solver).
    exists w. split; [by destruct fuel|apply walk_loop_sound_nil]. }
  2: { assert (s = encode_header (mkSection o' rest bs') +:+ encode_blocks o' bs' +:+ encode_stream secs) as ->.
    { rewrite <-str_app_assoc. by destruct (w_order w); [|destruct Hc as [_ Hc]]; rewrite Hc. }
    apply Forall_cons in Hsecs as [(Ht & Hm & Hbs') Hsecs].
    pose proof (encode_header_length (mkSection o' rest bs')). rewrite str_length_app in Hf.
    destruct fuel as [|fuel]; [lia|]. rewrite walk_loop_header by done.
    destruct (IHs fuel (add_header w (mkSection o' rest bs')) bs'
      (encode_blocks o' bs' +:+ encode_stream secs)) as (w' & Hl & Ha); [lia|done|].
    exists w'. split; [done|]. by apply accumulates_header. }
  all: destruct (w_order w) as [o|] eqn:Ho; [|by destruct Hc]; cbn [encode_blocks] in Hc;
    rewrite str_app_assoc in Hc; subst s; apply Forall_cons in Hbs as [Hb Hbs];
    pose proof (encode_block_length o b); rewrite str_length_app in Hf;
    destruct fuel as [|fuel]; [lia|]; rewrite walk_loop_block by done;
    edestruct (IHb fuel (add_block w o b)) as (w' & Hl & Ha);
      [|split_and!; [done|done|reflexivity]|exists w'; split; [exact Hl|by apply accumulates_block]]; lia.
Qed.

Definition fuel_error {A} (r : result str A) : Prop := r = Err "out of fuel".

Lemma walk_step_error w hdr s : ¬ fuel_error (walk_step w hdr s).
Proof.
  unfold fuel_error, walk_step, walk_section, walk_block, checkTrailer.
  repeat case_match; simpl; repeat case_match; simplify_eq/=; done.
Qed.

Lemma walk_loop_fuel fuel w s :
  (String.length s ≤ fuel)%nat → ¬ fuel_error (walk_loop fuel w s).
Proof.
  revert w s. induction fuel as [|n IH]; intros w s Hf; [by destruct s; simpl in *; [|lia]|].
  destruct (decide (8 ≤ String.length s)%nat) as [H8|H8].
  - rewrite walk_loop_step by done. pose proof (walk_step_error w (str_take 8 s) (str_drop 8 s)) as He.
    destruct (walk_step _ _ _) as [[w1 s1]|e] eqn:E; [|unfold fuel_error in *; simpl; congruence].
    simpl. apply IH. apply walk_step_consumes in E; [|rewrite str_take_length; lia].
    rewrite str_take_drop in E. lia.
  - destruct s as [|c s]; [done|]. cbn [walk_loop]. unfold read_full.
    by rewrite (proj2 (Nat.leb_gt _ _)) by lia.
Qed.

(** What a successful walk returns besides the count. *)
Lemma CountAndHash_Ok r p size h :
  CountAndHash r = Ok (p, size, h) → size = slen r ∧ h = sha256_hex r.
Proof.
  unfold CountAndHash. intros (w & Hl & Hw)%result_bind_Ok.
  destruct (walk_loop_sound _ _ _ _ Hl) as (bs & secs & _ & (_ & Hs & Hh & _)).
  destruct (w_order w); [|done]. simplify_eq. rewrite Hs, Hh. done.
Qed.

Lemma CountAndHash_packets r p size h : CountAndHash r = Ok (p, size, h) → 0 ≤ p.
Proof.
  unfold CountAndHash. intros (w & Hl & Hw)%result_bind_Ok.
  destruct (walk_loop_sound _ _ _ _ Hl) as (bs & secs & _ & (Hp & _)). destruct (w_order w); [|done]. simplify_eq.
  rewrite Hp. unfold count_packets, packets_in. simpl. lia.
Qed.

(** C22: [CountAndHash] accepts a byte stream exactly when it is a well-formed
    pcapng file - one section at least, each section in its own byte order,
    every block framed by two equal lengths - and then the packet count is the
    number of packet blocks of that file, the size is the length of the stream
    and the digest is the SHA-256 of every byte.  A truncated or corrupt file
    is an error, never a short count. *)
Theorem CountAndHash_spec r p size h :
  CountAndHash r = Ok (p, size, h) ↔
  ∃ secs, secs ≠ [] ∧ Forall wf_section secs ∧ r = encode_stream secs ∧
    p = packets_in secs ∧ size = slen r ∧ h = sha256_hex r.
Proof.
  unfold CountAndHash. split.
  - intros (w & Hl & Hw)%result_bind_Ok.
    destruct (walk_loop_sound _ _ _ _ Hl) as (bs & secs & (_ & Hwf & -> & ->) & (Hp & Hs & Hh & Hn)).
    destruct (w_order w); [|done]. simplify_eq. exists secs. simpl in *.
    rewrite Hp, Hs, Hh. split_and!; try done. naive_solver.
  - intros (secs & Hne & Hwf & -> & -> & -> & ->).
    destruct (walk_loop_complete [] secs (String.length (encode_stream secs)) (mkWalk None 0 0 "")
      (encode_stream secs)) as (w & Hl & (Hp & Hs & Hh & Hn)); [done|by split_and!|].
    rewrite Hl. simpl in *. rewrite Hp, Hs, Hh.
    destruct (w_order w); [done|]. by destruct Hn as [[_ ?] _].
Qed.

(** the walk terminates with a verdict on every stream: the loop's fuel,
    the length of the stream, is never exhausted. *)
Theorem CountAndHash_total r : ¬ fuel_error (CountAndHash r).
Proof.
  unfold fuel_error, CountAndHash.
  pose proof (walk_loop_fuel (String.length r) (mkWalk None 0 0 "") r (le_n _)) as H.
  destruct (walk_loop _ _ _) as [w|e]; simpl; [by destruct (w_order w)|].
  unfold fuel_error in H. congruence.
Qed.

(** A file of two sections of opposite byte orders, three packet blocks. *)
Definition example_file : list section :=
  [mkSection LittleEndian "" [mkBlock 1 "abcd"; mkBlock 6 "packet01"; mkBlock 3 ""];
   mkSection BigEndian "opts" [mkBlock 6 ""; mkBlock 5 "stat"]].

Example CountAndHash_example :
  CountAndHash (encode_stream example_file) =
  Ok (3, slen (encode_stream example_file), sha256_hex (encode_stream example_file)).
Proof. vm_compute. reflexivity. Qed.

Example CountAndHash_truncated :
  CountAndHash (str_take 40 (encode_stream example_file)) = Err "pcapng: truncated block".
Proof. vm_compute. reflexivity. Qed.

End Pcapng.
