(* ===== verification/Manifest.v ===== *)
(** * The artifact manifest, internal/capture/manifest.go

    The manifest is what ties a stored object to a capture.  Its JSON decoder
    ([json.Decoder] with [DisallowUnknownFields]) is the argument [decode] of
    [ParseManifest]; everything the code does with the decoded value is here.
    The walk over the artifact's bytes is in Pcapng. *)

From Stdlib Require Import Ascii.
From S2P Require Import Prelude GoTime GoString Sha256 Utf8 Names Api Sanitize Pcapng.

Module Manifest.

Definition ManifestSchemaVersion : str := "trawl.capture-manifest/v1".
Definition MaxManifestBytes : Z := 16384.
Definition MetadataSHA256 : str := "sha256".
Definition MetadataCaptureJobUID : str := "capturejob-uid".
Definition MetadataPacketCount : str := "packet-count".

Definition ObjectKey (namespace uid : str) : str :=
  "captures/" +:+ namespace +:+ "/" +:+ uid +:+ "/capture.pcapng".

Definition ManifestKey (namespace uid : str) : str :=
  "captures/" +:+ namespace +:+ "/" +:+ uid +:+ "/manifest.json".

Record Manifest := mkManifest {
  mf_SchemaVersion : str;
  mf_CaptureJobUID : str;
  mf_Namespace : str;
  mf_Name : str;
  mf_Interface : str;
  mf_Filter : str;
  mf_Snaplen : Z;
  mf_RequestedDuration : str;
  mf_RequestedMaxSize : Z;
  mf_StartedAt : time;
  mf_EndedAt : time;
  mf_StopReason : CaptureStopReason;
  mf_PacketCount : Z;
  mf_SizeBytes : Z;
  mf_SHA256 : str;
  mf_DumpcapVersion : str;
  mf_RunnerVersion : str;
}.

(** A manifest as its JSON decodes: the text of every field in valid UTF-8. *)
Definition json_manifest (m : Manifest) : Manifest :=
  let c := json_text in
  {| mf_SchemaVersion := c (mf_SchemaVersion m);
     mf_CaptureJobUID := c (mf_CaptureJobUID m);
     mf_Namespace := c (mf_Namespace m);
     mf_Name := c (mf_Name m);
     mf_Interface := c (mf_Interface m);
     mf_Filter := c (mf_Filter m);
     mf_Snaplen := mf_Snaplen m;
     mf_RequestedDuration := c (mf_RequestedDuration m);
     mf_RequestedMaxSize := mf_RequestedMaxSize m;
     mf_StartedAt := mf_StartedAt m;
     mf_EndedAt := mf_EndedAt m;
     mf_StopReason := c (mf_StopReason m);
     mf_PacketCount := mf_PacketCount m;
     mf_SizeBytes := mf_SizeBytes m;
     mf_SHA256 := c (mf_SHA256 m);
     mf_DumpcapVersion := c (mf_DumpcapVersion m);
     mf_RunnerVersion := c (mf_RunnerVersion m) |}.

Definition isSHA256Hex (s : str) : bool :=
  (slen s =? 64) && str_forallb is_hex_lower s.

(** The loop over the string fields, and the stop reason after it. *)
Definition sanitize_manifest (m : Manifest) : Manifest :=
  {| mf_SchemaVersion := mf_SchemaVersion m;
     mf_CaptureJobUID := Sanitize.String_ (mf_CaptureJobUID m);
     mf_Namespace := Sanitize.String_ (mf_Namespace m);
     mf_Name := Sanitize.String_ (mf_Name m);
     mf_Interface := Sanitize.String_ (mf_Interface m);
     mf_Filter := Sanitize.String_ (mf_Filter m);
     mf_Snaplen := mf_Snaplen m;
     mf_RequestedDuration := Sanitize.String_ (mf_RequestedDuration m);
     mf_RequestedMaxSize := mf_RequestedMaxSize m;
     mf_StartedAt := mf_StartedAt m;
     mf_EndedAt := mf_EndedAt m;
     mf_StopReason := Sanitize.String_ (mf_StopReason m);
     mf_PacketCount := mf_PacketCount m;
     mf_SizeBytes := mf_SizeBytes m;
     mf_SHA256 := mf_SHA256 m;
     mf_DumpcapVersion := Sanitize.String_ (mf_DumpcapVersion m);
     mf_RunnerVersion := Sanitize.String_ (mf_RunnerVersion m) |}.

Definition ParseManifest (decode : str → option Manifest) (raw : str) : result str Manifest :=
  if MaxManifestBytes <? slen raw then Err "manifest: larger than 16384 bytes" else
  match decode raw with
  | None => Err "manifest: not valid JSON for the manifest schema"
  | Some m =>
      if bool_decide (mf_SchemaVersion m = ManifestSchemaVersion) then
        if negb (isSHA256Hex (mf_SHA256 m))
        then Err "manifest: sha256 is not 64 lowercase hex digits" else
        if (mf_SizeBytes m <? 0) || (mf_PacketCount m <? 0) || (mf_Snaplen m <? 0) ||
           (mf_RequestedMaxSize m <? 0)
        then Err "manifest: negative counter"
        else Ok (sanitize_manifest m)
      else Err "manifest: unsupported schema version"
  end.

(** The object's metadata is the map storage returned. *)
Definition VerifyArtifact (m : Manifest) (captureJobUID : str) (size : Z)
    (metadata : gmap string string) : result str unit :=
  if negb (bool_decide (mf_CaptureJobUID m = captureJobUID))
  then Err "manifest belongs to a different capture" else
  if match metadata !! MetadataCaptureJobUID with
     | Some uid => negb (bool_decide (uid = captureJobUID))
     | None => false
     end
  then Err "object belongs to a different capture" else
  if negb (size =? mf_SizeBytes m)
  then Err ("object size " +:+ itoa size +:+ " does not match manifest size "
            +:+ itoa (mf_SizeBytes m)) else
  match metadata !! MetadataSHA256 with
  | None => Err "object carries no checksum metadata"
  | Some sum =>
      if negb (bool_decide (sum = mf_SHA256 m))
      then Err "object checksum does not match manifest" else Ok tt
  end.

(** ** Lemmas *)

Lemma isSHA256Hex_spec s :
  isSHA256Hex s = true ↔ slen s = 64 ∧ str_forallb is_hex_lower s = true.
Proof. unfold isSHA256Hex. by rewrite andb_true_iff, Z.eqb_eq. Qed.

Lemma sha256_hex_is_hex s : isSHA256Hex (sha256_hex s) = true.
Proof.
  apply isSHA256Hex_spec. split; [|apply sha256_hex_lower].
  unfold slen. by rewrite sha256_hex_length.
Qed.

(** JSON changes nothing in what the parser checks. *)
Lemma json_sum s : json_text (sha256_hex s) = sha256_hex s.
Proof. apply json_text_valid, valid_ascii, Names.ascii_hex, sha256_hex_lower. Qed.

Definition no_slash (s : str) : bool := lacks "/"%char s.

(** A path component without a slash ends at the first slash. *)
Lemma slash_split a b s t :
  no_slash a = true → no_slash b = true →
  a +:+ "/" +:+ s = b +:+ "/" +:+ t → a = b ∧ s = t.
Proof. apply split_first. Qed.

Lemma VerifyArtifact_Ok m uid size md :
  VerifyArtifact m uid size md = Ok tt ↔
  mf_CaptureJobUID m = uid ∧ (∀ u, md !! MetadataCaptureJobUID = Some u → u = uid) ∧
  size = mf_SizeBytes m ∧ md !! MetadataSHA256 = Some (mf_SHA256 m).
Proof.
  unfold VerifyArtifact. case_bool_decide as Hu; [|naive_solver]. simpl.
  destruct (md !! MetadataCaptureJobUID) as [u|].
  - case_bool_decide as Hu'; [|naive_solver]. simpl.
    destruct (Z.eqb_spec size (mf_SizeBytes m)); [|naive_solver]. simpl.
    destruct (md !! MetadataSHA256) as [h|]; [|naive_solver].
    case_bool_decide; naive_solver.
  - destruct (Z.eqb_spec size (mf_SizeBytes m)); [|naive_solver]. simpl.
    destruct (md !! MetadataSHA256) as [h|]; [|naive_solver].
    case_bool_decide; naive_solver.
Qed.

Lemma ParseManifest_Ok decode raw m :
  ParseManifest decode raw = Ok m ↔
  ∃ m0, decode raw = Some m0 ∧ m = sanitize_manifest m0 ∧ slen raw ≤ MaxManifestBytes ∧
    mf_SchemaVersion m0 = ManifestSchemaVersion ∧ isSHA256Hex (mf_SHA256 m0) = true ∧
    0 ≤ mf_SizeBytes m0 ∧ 0 ≤ mf_PacketCount m0 ∧ 0 ≤ mf_Snaplen m0 ∧
    0 ≤ mf_RequestedMaxSize m0.
Proof.
  unfold ParseManifest. destruct (Z.ltb_spec MaxManifestBytes (slen raw)); [by refute_err|].
  destruct (decode raw) as [m0|]; [|naive_solver].
  case_bool_decide; [|naive_solver].
  destruct (isSHA256Hex (mf_SHA256 m0)) eqn:Eh; simpl; [|by refute_err].
  destruct (Z.ltb_spec (mf_SizeBytes m0) 0); [by refute_err|].
  destruct (Z.ltb_spec (mf_PacketCount m0) 0); [by refute_err|].
  destruct (Z.ltb_spec (mf_Snaplen m0) 0); [by refute_err|].
  destruct (Z.ltb_spec (mf_RequestedMaxSize m0) 0); [by refute_err|].
  split; [intros [= <-]; by exists m0|]. by intros (? & [= <-] & -> & _).
Qed.

(** ** Theorems *)

(** Two captures never share an object: for namespaces without a slash
    (every Kubernetes name), the artifact and manifest keys are injective in
    the namespace and the UID, and an artifact key is never a manifest key. *)
Theorem ObjectKey_injective ns ns' uid uid' :
  no_slash ns = true → no_slash ns' = true →
  (ObjectKey ns uid = ObjectKey ns' uid' → ns = ns' ∧ uid = uid') ∧
  (ManifestKey ns uid = ManifestKey ns' uid' → ns = ns' ∧ uid = uid') ∧
  (no_slash uid = true → no_slash uid' = true → ObjectKey ns uid ≠ ManifestKey ns' uid').
Proof.
  intros Hn Hn'. unfold ObjectKey, ManifestKey.
  assert (∀ s t, "captures/" +:+ ns +:+ "/" +:+ s = "captures/" +:+ ns' +:+ "/" +:+ t →
    ns = ns' ∧ s = t) as Hsplit.
  { intros s t H%str_app_inj_r. by apply slash_split. }
  split_and!.
  - intros [-> H]%Hsplit. split; [done|]. by apply str_app_inj_l in H.
  - intros [-> H]%Hsplit. split; [done|]. by apply str_app_inj_l in H.
  - intros Hu Hu' [_ H]%Hsplit.
    apply (slash_split uid uid' "capture.pcapng" "manifest.json") in H as [_ H]; done.
Qed.

Lemma ObjectKey_injective_witness :
  no_slash "prod" = true ∧ ObjectKey "prod" "u1" ≠ ObjectKey "prod" "u2".
Proof.
  split; [reflexivity|]. intros H.
  destruct (ObjectKey_injective "prod" "prod" "u1" "u2" eq_refl eq_refl) as [Hinj _].
  by destruct (Hinj H).
Defined.

(** What a capture completes on.  A manifest accepted by [ParseManifest]
    and then by [VerifyArtifact] for a capture names that capture, carries a
    well-formed digest equal to the object's checksum metadata, the object's
    own size, non-negative counters, and strings that are safe to publish,
    whatever bytes the bucket held and whatever the decoder made of them. *)
Theorem accepted_manifest decode raw m uid size md :
  ParseManifest decode raw = Ok m → VerifyArtifact m uid size md = Ok tt →
  mf_CaptureJobUID m = uid ∧ md !! MetadataSHA256 = Some (mf_SHA256 m) ∧
  isSHA256Hex (mf_SHA256 m) = true ∧ size = mf_SizeBytes m ∧ 0 ≤ size ∧
  0 ≤ mf_PacketCount m ∧ mf_SchemaVersion m = ManifestSchemaVersion ∧
  Forall Sanitize.boundary_safe
    [uid; mf_Namespace m; mf_Name m; mf_Interface m; mf_Filter m;
     mf_RequestedDuration m; mf_StopReason m; mf_DumpcapVersion m; mf_RunnerVersion m].
Proof.
  intros (m0 & _ & -> & _ & Hv & Hh & Hs & Hp & _)%ParseManifest_Ok.
  intros (<- & _ & -> & Hm)%VerifyArtifact_Ok. simpl in *.
  split_and!; try done. repeat constructor; apply Sanitize.String_safe.
Qed.

Definition example_manifest (stream : str) : Manifest :=
  mkManifest ManifestSchemaVersion "u1" "prod" "job" "eth0" "tcp port 443" 96 "30s" 1048576
    1 2 CaptureStopDuration 3 (slen stream) (sha256_hex stream) "4.2" "v1".

Lemma accepted_manifest_witness :
  let m := example_manifest "x" in
  ∃ m', ParseManifest (λ _, Some m) "{}" = Ok m' ∧
    mf_CaptureJobUID m' = "u1" ∧ isSHA256Hex (mf_SHA256 m') = true.
Proof.
  eexists. split; [vm_compute; reflexivity|].
  edestruct (accepted_manifest (λ _, Some (example_manifest "x")) "{}"
    (sanitize_manifest (example_manifest "x")) "u1" 1
    {[ MetadataSHA256 := sha256_hex "x" ]}) as (H1 & _ & H2 & _);
    [vm_compute; reflexivity|vm_compute; reflexivity|].
  split; [vm_compute; reflexivity|vm_compute; reflexivity].
Defined.

(** The integrity check ends at the bytes.  When a verified manifest's
    digest is that of an artifact the runner walked, any other byte string
    with that digest and size is a SHA-256 collision; and every manifest the
    runner builds from a walk is accepted for its own capture. *)
Theorem verified_bytes r p size h m uid md r' :
  Pcapng.CountAndHash r = Ok (p, size, h) →
  mf_CaptureJobUID m = uid → mf_SizeBytes m = size → mf_SHA256 m = h →
  md !! MetadataSHA256 = Some h → md !! MetadataCaptureJobUID = Some uid →
  VerifyArtifact m uid (slen r) md = Ok tt ∧ isSHA256Hex (mf_SHA256 m) = true ∧
  (mf_SHA256 m = sha256_hex r' → r' = r ∨ sha256_collision r' r).
Proof.
  intros Hwalk <- Hs Hh Hm Hu. apply Pcapng.CountAndHash_Ok in Hwalk as [-> ->].
  rewrite VerifyArtifact_Ok, Hh, Hs, Hm, Hu. split_and!; [done|naive_solver|done|done|..].
  - apply sha256_hex_is_hex.
  - intros Heq. by apply sha256_hex_eq.
Qed.

Lemma verified_bytes_witness :
  let r := Pcapng.encode_stream Pcapng.example_file in
  VerifyArtifact (example_manifest r) "u1" (slen r)
    {[ MetadataSHA256 := sha256_hex r; MetadataCaptureJobUID := "u1" ]} = Ok tt.
Proof.
  intros r. eapply (verified_bytes r 3 (slen r) (sha256_hex r) (example_manifest r) "u1" _ "");
    vm_compute; reflexivity.
Defined.

End Manifest.
