(* ===== verification/CaptureState.v ===== *)
(** * The CaptureJob lifecycle, internal/capture/state.go

    [Evaluate] turns what the controller observed into one outcome.  The
    lifecycle it moves along is [CanTransition]; the download decision reads
    the status it leaves behind. *)

From S2P Require Import Prelude GoTime GoString Api Status Duration Manifest.

Module CaptureState.

(** ** Exit codes *)

Definition ExitOK : Z := 0.
Definition ExitInvalidBounds : Z := 10.
Definition ExitInterfaceUnavailable : Z := 11.
Definition ExitInvalidFilter : Z := 12.
Definition ExitCaptureFailed : Z := 13.
Definition ExitSizeExceeded : Z := 14.
Definition ExitUploadFailed : Z := 15.
Definition ExitInternalError : Z := 16.

(** The map, in one of the orders a range over it may take. *)
Definition exitCodes : list (FailureReason * Z) :=
  [(FailureInvalidBounds, ExitInvalidBounds);
   (FailureInterfaceUnavailable, ExitInterfaceUnavailable);
   (FailureInvalidFilter, ExitInvalidFilter);
   (FailureCaptureFailed, ExitCaptureFailed);
   (FailureSizeExceeded, ExitSizeExceeded);
   (FailureUploadFailed, ExitUploadFailed);
   (FailureInternalError, ExitInternalError)].

Fixpoint code_of (codes : list (FailureReason * Z)) (reason : FailureReason) : Z :=
  match codes with
  | [] => 0
  | (r, c) :: rest => if bool_decide (r = reason) then c else code_of rest reason
  end.

Definition ExitCodeFor (reason : FailureReason) : Z := code_of exitCodes reason.

(** The loop over the map, for a given iteration order. *)
Fixpoint reason_of (codes : list (FailureReason * Z)) (code : Z) : FailureReason :=
  match codes with
  | [] => FailureCaptureFailed
  | (r, c) :: rest => if c =? code then r else reason_of rest code
  end.

Definition FailureReasonForExitCode_in (codes : list (FailureReason * Z)) (code : Z) :
    FailureReason :=
  if code =? ExitOK then FailureUnset else reason_of codes code.

Definition FailureReasonForExitCode (code : Z) : FailureReason :=
  FailureReasonForExitCode_in exitCodes code.

(** ** The lifecycle *)

Definition IsTerminal (p : CapturePhase) : bool :=
  match p with
  | CapturePhaseCompleted | CapturePhaseFailed | CapturePhaseExpired => true
  | _ => false
  end.

Definition phaseOrder (p : CapturePhase) : Z :=
  match p with
  | CapturePhasePending => 1
  | CapturePhaseCapturing => 2
  | CapturePhaseStoring => 3
  | CapturePhaseCompleted => 4
  | CapturePhaseExpired => 5
  | _ => 0
  end.

Definition CanTransition (from to : CapturePhase) : bool :=
  if bool_decide (to = CapturePhaseFailed) then negb (IsTerminal from) else
  if IsTerminal from
  then bool_decide (from = CapturePhaseCompleted) && bool_decide (to = CapturePhaseExpired)
  else phaseOrder from <? phaseOrder to.

Definition TransitionStep (p : CapturePhase) : str := "phase:" +:+ phase_string p.

(** ** Observations and outcomes *)

Inductive JobState := JobAbsent | JobActive | JobSucceeded | JobFailed.

Record JobObservation := mkJobObservation {
  jo_State : JobState;
  jo_Reason : str;
  jo_ExitCode : option Z;
}.

Inductive ArtifactState :=
  | ArtifactUnknown | ArtifactAbsent | ArtifactPresent | ArtifactVerified
  | ArtifactMismatch | ArtifactUnavailable.

Record ArtifactObservation := mkArtifactObservation {
  ao_State : ArtifactState;
  ao_Manifest : option Manifest.Manifest;
  ao_Key : str;
  ao_ETag : str;
  ao_VersionID : str;
}.

Inductive TargetState :=
  | TargetUnknown | TargetEligible | TargetTapMissing | TargetTapDeleting
  | TargetTapInactive | TargetUnavailable.

Record TargetObservation := mkTargetObservation {
  to_State : TargetState;
  to_TapUID : str;
  to_Interface : str;
}.

Record Observation := mkObservation {
  obs_Now : time;
  obs_Target : TargetObservation;
  obs_Job : JobObservation;
  obs_Artifact : ArtifactObservation;
}.

Inductive Action := ActionNone | ActionCreateJob | ActionCleanupArtifact.

Record Completion := mkCompletion {
  cmp_StartedAt : time;
  cmp_EndedAt : time;
  cmp_CompletedAt : time;
  cmp_PacketCount : Z;
  cmp_SizeBytes : Z;
  cmp_SHA256 : str;
  cmp_Interface : str;
  cmp_StopReason : CaptureStopReason;
  cmp_Artifact : ArtifactReference;
  cmp_RetentionDeadline : time;
}.

Record Outcome := mkOutcome {
  o_Phase : CapturePhase;
  o_Failure : option CaptureFailure;
  o_Completion : option Completion;
  o_ResolvedTapUID : str;
  o_ResolvedInterface : str;
  o_Action : Action;
  o_StorageUnavailable : bool;
  o_RequeueAfter : duration;
}.

(** [Outcome{Phase: p}], the other fields zero. *)
Definition phase_only (p : CapturePhase) : Outcome :=
  mkOutcome p None None "" "" ActionNone false 0.

Definition storageRetry : duration := 30 * second.
Definition jobReasonDeadlineExceeded : str := "DeadlineExceeded".
Definition StaleHeartbeat : duration := 90 * second.

(** ** Evaluate *)

Definition rank (p : CapturePhase) : Z :=
  match p with
  | CapturePhasePending => 1
  | CapturePhaseCapturing => 2
  | CapturePhaseStoring => 3
  | _ => 0
  end.

Definition livePhase (job : CaptureJob) : CapturePhase :=
  let derived :=
    match cst_CaptureEndedAt (cj_Status job), cst_StartedAt (cj_Status job) with
    | Some _, _ => CapturePhaseStoring
    | None, Some _ => CapturePhaseCapturing
    | None, None => CapturePhasePending
    end in
  if rank derived <? rank (cst_Phase (cj_Status job)) then cst_Phase (cj_Status job)
  else derived.

Definition fail (phase : CapturePhase) (reason : FailureReason) (message : str)
    (action : Action) : Outcome :=
  let phase := if bool_decide (phase = CapturePhaseUnset) then CapturePhasePending else phase in
  mkOutcome CapturePhaseFailed (Some (mkCaptureFailure reason message phase 1)) None "" ""
    action false 0.

Definition remedy (reason : FailureReason) : str :=
  match reason with
  | FailureInvalidFilter => "correct the BPF filter and create a new capture"
  | FailureInvalidBounds => "the bounds could not be applied; create a new capture"
  | FailureInterfaceUnavailable =>
      "the interface could not be opened on the target node; check the tap's targets"
  | FailureSizeExceeded =>
      "the capture overshot its size bound and was discarded; lower the filter's scope"
  | FailureUploadFailed =>
      "the artifact could not be stored; check the artifact bucket and credentials"
  | FailureCaptureFailed =>
      "dumpcap ended abnormally; check the runner pod's termination state"
  | _ => "inspect the runner pod's termination state"
  end.

Definition RetentionDeadline (completedAt : time) (retention : str) : result str time :=
  match Config.ParseDuration retention with
  | Err _ => Err "retention: invalid duration"
  | Ok d => Ok (t_add completedAt d)
  end.

Definition complete (job : CaptureJob) (obs : Observation) : result str Outcome :=
  match ao_Manifest (obs_Artifact obs) with
  | None => Err "artifact reported verified without a manifest"
  | Some m =>
      let? deadline := RetentionDeadline (obs_Now obs) (cjs_Retention (cj_Spec job)) in
      Ok (mkOutcome CapturePhaseCompleted None
        (Some {| cmp_StartedAt := Manifest.mf_StartedAt m;
                 cmp_EndedAt := Manifest.mf_EndedAt m;
                 cmp_CompletedAt := obs_Now obs;
                 cmp_PacketCount := Manifest.mf_PacketCount m;
                 cmp_SizeBytes := Manifest.mf_SizeBytes m;
                 cmp_SHA256 := Manifest.mf_SHA256 m;
                 cmp_Interface := Manifest.mf_Interface m;
                 cmp_StopReason := Manifest.mf_StopReason m;
                 cmp_Artifact := mkArtifactReference "" (ao_Key (obs_Artifact obs))
                   (ao_ETag (obs_Artifact obs)) (ao_VersionID (obs_Artifact obs)) (obs_Now obs);
                 cmp_RetentionDeadline := deadline |})
        "" "" ActionNone false 0)
  end.

(** The failure of a Job that ended with nothing verifiable in storage, once
    storage was read: the reporter's result, then the exit code, then the Job's
    own condition. *)
Definition exit_message (code : Z) (reason : FailureReason) : str :=
  "the runner exited with code " +:+ itoa code +:+ " (" +:+ reason_string reason +:+ "); "
  +:+ remedy reason.

Definition finishWithoutArtifact (job : CaptureJob) (obs : Observation) : result str Outcome :=
  let phase := livePhase job in
  let job_condition :=
    match jo_State (obs_Job obs) with
    | JobSucceeded =>
        Ok (fail phase FailureArtifactMissing
          "the runner exited successfully but no artifact exists in storage" ActionNone)
    | _ =>
        if bool_decide (jo_Reason (obs_Job obs) = jobReasonDeadlineExceeded) then
          match cst_StartedAt (cj_Status job) with
          | None => Ok (fail phase FailureInternalError
              "the runner did not start capturing within the startup budget; check image pulls and node scheduling" ActionNone)
          | Some _ => Ok (fail phase FailureCaptureFailed
              "the runner exceeded its active deadline before storing the artifact" ActionNone)
          end
        else Ok (fail phase FailureInternalError
          "the runner Job failed without a reported reason; inspect the Job's conditions" ActionNone)
    end in
  let exit_code :=
    match jo_ExitCode (obs_Job obs) with
    | Some code =>
        if negb (code =? ExitOK) then
          let reason := FailureReasonForExitCode code in
          Ok (fail phase reason (exit_message code reason) ActionNone)
        else job_condition
    | None => job_condition
    end in
  match ao_State (obs_Artifact obs) with
  | ArtifactUnknown => Err "the runner Job ended but the artifact was not observed"
  | ArtifactPresent =>
      Ok (fail phase FailureUploadFailed
        "the runner stored an object without a manifest; it was removed" ActionCleanupArtifact)
  | _ =>
      match cst_RunnerResult (cj_Status job) with
      | Some r =>
          if bool_decide (rr_Outcome r = RunnerOutcomeFailed) &&
             negb (bool_decide (rr_Reason r = FailureUnset))
          then Ok (fail phase (rr_Reason r)
                 ("the runner reported " +:+ reason_string (rr_Reason r) +:+ "; "
                  +:+ remedy (rr_Reason r)) ActionNone)
          else exit_code
      | None => exit_code
      end
  end.

(** No runner exists and none was recorded. *)
Definition admit_runner (job : CaptureJob) (obs : Observation) (staleHeartbeat : duration) :
    result str Outcome :=
  match to_State (obs_Target obs) with
  | TargetEligible =>
      Ok (mkOutcome CapturePhasePending None None (to_TapUID (obs_Target obs))
            (to_Interface (obs_Target obs)) ActionCreateJob false 0)
  | TargetUnknown => Err "no runner exists and the target was not observed"
  | st =>
      let grace := wrap64 (2 * staleHeartbeat) in
      let waited := t_sub (obs_Now obs) (m_CreationTimestamp (cj_Meta job)) in
      if waited <? grace
      then Ok (mkOutcome CapturePhasePending None None "" "" ActionNone false (wrap64 (grace - waited)))
      else
        match st with
        | TargetUnavailable => Ok (fail CapturePhasePending FailureTargetUnavailable
            "the target node is not an active target of the tap; check the tap's targets and the node's heartbeat" ActionNone)
        | _ => Ok (fail CapturePhasePending FailureTapInactive
            "the tap is not active; a capture needs an Active or Degraded tap with the target node reporting" ActionNone)
        end
  end.

Definition Evaluate (job : CaptureJob) (obs : Observation) (staleHeartbeat : duration) :
    result str Outcome :=
  let current := cst_Phase (cj_Status job) in
  if IsTerminal current then Ok (phase_only current) else
  match ao_State (obs_Artifact obs) with
  | ArtifactVerified => complete job obs
  | ArtifactMismatch =>
      Ok (fail current FailureArtifactMismatch
        "the stored object does not match its manifest; it was removed" ActionCleanupArtifact)
  | ArtifactUnavailable =>
      Ok (mkOutcome (livePhase job) None None "" "" ActionNone true storageRetry)
  | _ =>
      match jo_State (obs_Job obs) with
      | JobSucceeded | JobFailed => finishWithoutArtifact job obs
      | JobActive => Ok (phase_only (livePhase job))
      | JobAbsent =>
          match cst_RunnerJobRef (cj_Status job) with
          | Some _ => Ok (fail current FailureInternalError
              "the runner Job disappeared before it finished; the capture cannot be resumed" ActionNone)
          | None => admit_runner job obs staleHeartbeat
          end
      end
  end.

(** ** Downloads *)

Inductive DownloadDecision := DownloadAllowed | DownloadNotReady | DownloadExpired.

#[global] Instance download_decision_eq_dec : EqDecision DownloadDecision.
Proof. solve_decision. Defined.

(** [now] is at or past the deadline, when there is one. *)
Definition deadline_passed (deadline : option time) (now : time) : bool :=
  match deadline with Some d => negb (t_before now d) | None => false end.

Definition DecideDownload (job : CaptureJob) (now : time) : DownloadDecision :=
  let s := cj_Status job in
  if deadline_passed (cst_RetentionDeadline s) now then DownloadExpired else
  if bool_decide (cst_Phase s = CapturePhaseExpired) then DownloadExpired else
  if negb (bool_decide (cst_Phase s = CapturePhaseCompleted)) || is_Some_b (cst_Failure s)
  then DownloadNotReady else
  if negb (is_Some_b (cst_Artifact s)) || bool_decide (cst_SHA256 s = "") ||
     negb (is_Some_b (cst_RetentionDeadline s)) then DownloadNotReady else
  if negb (cst_ObservedGeneration s =? m_Generation (cj_Meta job)) then DownloadNotReady else
  if negb (Status.IsTrue (cst_Conditions s) Status.TypeArtifactVerified (m_Generation (cj_Meta job)))
  then DownloadNotReady else DownloadAllowed.

Definition Downloadable (job : CaptureJob) (now : time) : bool :=
  bool_decide (DecideDownload job now = DownloadAllowed).

(** ** Lemmas *)

Lemma reason_of_spec codes code :
  NoDup (snd <$> codes) →
  (∀ r, (r, code) ∈ codes → reason_of codes code = r) ∧
  (code ∉ snd <$> codes → reason_of codes code = FailureCaptureFailed).
Proof.
  induction codes as [|[r0 c0] codes IH]; simpl; [set_solver|].
  intros [Hnot Hnd]%NoDup_cons. destruct (IH Hnd) as [IH1 IH2].
  destruct (Z.eqb_spec c0 code) as [->|Hne].
  - split; [|set_solver]. intros r [[= ->]|Hin]%elem_of_cons; [done|].
    destruct Hnot. apply list_elem_of_fmap. by exists (r, code).
  - split; [|set_solver]. intros r [[= -> ->]|Hin]%elem_of_cons; [done|auto].
Qed.

Lemma exitCodes_NoDup : NoDup (snd <$> exitCodes).
Proof. apply (bool_decide_unpack _). vm_compute. done. Qed.

Lemma reason_of_order codes code :
  codes ≡ₚ exitCodes → reason_of codes code = reason_of exitCodes code.
Proof.
  intros Hp. pose proof exitCodes_NoDup as Hnd.
  assert (NoDup (snd <$> codes)) as Hnd' by by rewrite Hp.
  destruct (reason_of_spec codes code Hnd') as [Hin Hout].
  destruct (reason_of_spec exitCodes code Hnd) as [Hin' Hout'].
  destruct (decide (code ∈ snd <$> exitCodes)) as [Hc|Hc].
  - pose proof Hc as ([r c] & -> & Hrc)%list_elem_of_fmap. simpl in *.
    rewrite (Hin' r Hrc). apply Hin. by rewrite Hp.
  - rewrite Hout', Hout; [done| |done]. by rewrite Hp.
Qed.

(** A height that every transition climbs; it bounds the lifecycle's length. *)
Definition height (p : CapturePhase) : nat :=
  match p with
  | CapturePhaseUnset => 0
  | CapturePhasePending => 1
  | CapturePhaseCapturing => 2
  | CapturePhaseStoring => 3
  | CapturePhaseCompleted => 4
  | CapturePhaseExpired => 5
  | CapturePhaseFailed => 5
  end.

Lemma CanTransition_height a b : CanTransition a b = true → (height a < height b)%nat.
Proof. destruct a, b; vm_compute; done || lia. Qed.

(** A history of phases is a list in which every step is a transition. *)
Fixpoint history (p : CapturePhase) (ps : list CapturePhase) : Prop :=
  match ps with [] => True | q :: qs => CanTransition p q = true ∧ history q qs end.

Lemma history_bound p ps : history p ps → (height p + length ps ≤ 5)%nat.
Proof.
  revert p. induction ps as [|q ps IH]; intros p; simpl.
  - intros _. destruct p; simpl; lia.
  - intros [Hc%CanTransition_height Hh%IH]. lia.
Qed.

(** A live phase past Pending has a recorded runner. *)
Definition consistent (job : CaptureJob) : Prop :=
  cst_RunnerJobRef (cj_Status job) = None → cst_Phase (cj_Status job) ∉ [CapturePhaseCapturing; CapturePhaseStoring].

(** Staying is always lawful, moving only along the lifecycle. *)
Definition lawful (from to : CapturePhase) : Prop := from = to ∨ CanTransition from to = true.

Lemma livePhase_live job :
  IsTerminal (cst_Phase (cj_Status job)) = false →
  IsTerminal (livePhase job) = false ∧ lawful (cst_Phase (cj_Status job)) (livePhase job) ∧
  livePhase job ≠ CapturePhaseUnset.
Proof.
  unfold livePhase, lawful. destruct job as [mt sp [og ph ? ? ? ? started ended ? ? ? ? ? ? ? ? ?]]; simpl.
  destruct ph, started, ended; simpl; intros; split_and!; first [done|by left|by right].
Qed.

Lemma FailureReasonForExitCode_set code :
  code ≠ ExitOK → FailureReasonForExitCode code ≠ FailureUnset.
Proof.
  intros Hc. unfold FailureReasonForExitCode, FailureReasonForExitCode_in.
  rewrite (proj2 (Z.eqb_neq _ _) Hc). cbn [reason_of exitCodes]. by repeat case_match.
Qed.

(** A well-formed failure outcome: a reason, a non-terminal failed phase, and
    nothing but a clean-up asked for. *)
Definition failed_outcome (o : Outcome) : Prop :=
  o_Phase o = CapturePhaseFailed ∧ o_Completion o = None ∧ o_Action o ≠ ActionCreateJob ∧
  o_StorageUnavailable o = false ∧
  ∃ f, o_Failure o = Some f ∧ cf_Reason f ≠ FailureUnset ∧ IsTerminal (cf_FailedPhase f) = false ∧
    cf_FailedPhase f ≠ CapturePhaseUnset ∧ cf_Attempts f = 1.

Lemma fail_failed phase reason msg action :
  IsTerminal phase = false → reason ≠ FailureUnset → action ≠ ActionCreateJob →
  failed_outcome (fail phase reason msg action).
Proof.
  intros. unfold failed_outcome, fail. simpl. split_and!; try done. eexists; split_and!; try done;
    simpl; case_bool_decide; done.
Qed.

Lemma finishWithoutArtifact_spec job obs :
  IsTerminal (cst_Phase (cj_Status job)) = false →
  match finishWithoutArtifact job obs with
  | Ok o => ao_State (obs_Artifact obs) ≠ ArtifactUnknown ∧ failed_outcome o
  | Err _ => ao_State (obs_Artifact obs) = ArtifactUnknown
  end.
Proof.
  intros (Hl & _ & _)%livePhase_live. unfold finishWithoutArtifact.
  pose proof (FailureReasonForExitCode_set) as Hset. unfold ExitOK in *.
  repeat case_match; simplify_eq; try done; (split; [done|]); apply fail_failed; try done;
    go_simp; auto.
Qed.

Lemma admit_runner_spec job obs stale :
  match admit_runner job obs stale with
  | Ok o =>
      to_State (obs_Target obs) ≠ TargetUnknown ∧
      (failed_outcome o ∨
       o_Phase o = CapturePhasePending ∧ o_Failure o = None ∧ o_Completion o = None ∧
       (o_Action o = ActionCreateJob ↔ to_State (obs_Target obs) = TargetEligible))
  | Err _ => to_State (obs_Target obs) = TargetUnknown
  end.
Proof.
  unfold admit_runner. repeat case_match; simplify_eq; simpl; try done;
    (split; [done|]); (left; apply fail_failed; done) || (right; naive_solver).
Qed.

(** ** Theorems *)

(** Exit codes and failure reasons correspond one to one: every reason the
    runner produces comes back from its code, the code is never zero, any other
    non-zero code is a failed capture, and the answer does not depend on the
    order in which the map is ranged over. *)
Theorem exit_code_roundtrip codes :
  codes ≡ₚ exitCodes →
  (∀ r, ExitCodeFor r ≠ 0 → FailureReasonForExitCode_in codes (ExitCodeFor r) = r) ∧
  (∀ code, code ≠ 0 → code ∉ snd <$> exitCodes →
    FailureReasonForExitCode_in codes code = FailureCaptureFailed) ∧
  (∀ code, FailureReasonForExitCode_in codes code = FailureUnset ↔ code = 0) ∧
  (∀ code, FailureReasonForExitCode_in codes code = FailureReasonForExitCode code).
Proof.
  intros Hp.
  assert (∀ code, FailureReasonForExitCode_in codes code = FailureReasonForExitCode code) as Hord.
  { intros code. unfold FailureReasonForExitCode, FailureReasonForExitCode_in.
    by rewrite (reason_of_order codes code Hp). }
  split_and!; [..|done].
  - intros r. rewrite Hord. by destruct r; vm_compute.
  - intros code Hc Hout. rewrite Hord. unfold FailureReasonForExitCode, FailureReasonForExitCode_in.
    rewrite (proj2 (Z.eqb_neq code ExitOK) Hc). by apply (reason_of_spec exitCodes code exitCodes_NoDup).
  - intros code. rewrite Hord. split; [|by intros ->].
    destruct (decide (code = 0)); [done|]. by intros ?%FailureReasonForExitCode_set.
Qed.

Lemma exit_code_roundtrip_witness :
  FailureReasonForExitCode_in (rev exitCodes) (ExitCodeFor FailureUploadFailed) = FailureUploadFailed.
Proof.
  destruct (exit_code_roundtrip (rev exitCodes)) as [H _].
  - symmetry. apply Permutation_rev.
  - by apply H.
Defined.

(** C37: The lifecycle is a strict order with no way back: transitions are
    irreflexive and transitive, nothing leaves Failed or Expired, Completed
    leads only to Expired, Failed is reachable from exactly the live phases,
    and no history of an object has more than five transitions. *)
Theorem lifecycle_strict_order p ps :
  history p ps →
  (length ps ≤ 5)%nat ∧ NoDup (p :: ps) ∧
  (∀ a, CanTransition a a = false) ∧
  (∀ a b c, CanTransition a b = true → CanTransition b c = true → CanTransition a c = true) ∧
  (∀ a, CanTransition a CapturePhaseFailed = negb (IsTerminal a)) ∧
  (∀ a b, IsTerminal a = true → CanTransition a b = true →
    a = CapturePhaseCompleted ∧ b = CapturePhaseExpired).
Proof.
  intros Hh. split_and!.
  - apply history_bound in Hh. lia.
  - assert (∀ ps p q, history p ps → q ∈ ps → (height p < height q)%nat) as Hlt.
    { clear. induction ps as [|x ps IH]; intros p q; [set_solver|].
      intros [Hc%CanTransition_height Hh] [->|Hin]%elem_of_cons; [done|].
      pose proof (IH x q Hh Hin). lia. }
    revert p Hh. induction ps as [|q ps IH]; intros p Hh; [apply NoDup_singleton|].
    apply NoDup_cons. split; [|by apply IH, Hh]. intros Hin.
    pose proof (Hlt _ _ _ Hh Hin). lia.
  - by intros [].
  - by intros [] [] [].
  - by intros [].
  - by intros [] [].
Qed.

Lemma lifecycle_strict_order_witness :
  let ps := [CapturePhasePending; CapturePhaseCapturing; CapturePhaseStoring;
             CapturePhaseCompleted; CapturePhaseExpired] in
  (length ps ≤ 5)%nat ∧ NoDup (CapturePhaseUnset :: ps).
Proof.
  intros ps. destruct (lifecycle_strict_order CapturePhaseUnset ps) as (H1 & H2 & _).
  - by vm_compute.
  - done.
Defined.

(** The one proposal off the lifecycle: an object past Pending that has no
    runner, recorded or found, nor anything in storage that settles it, is taken
    for one that was not started. *)
Definition starts_over (job : CaptureJob) (obs : Observation) (o : Outcome) : Prop :=
  ¬ consistent job ∧ jo_State (obs_Job obs) = JobAbsent ∧
  ao_State (obs_Artifact obs) ∉ [ArtifactVerified; ArtifactMismatch; ArtifactUnavailable] ∧
  o_Phase o = CapturePhasePending ∧ CanTransition (cst_Phase (cj_Status job)) (o_Phase o) = false.

(** What an outcome may be, given the object and what was observed. *)
Definition lawful_outcome (job : CaptureJob) (obs : Observation) (o : Outcome) : Prop :=
  let current := cst_Phase (cj_Status job) in
  (lawful current (o_Phase o) ∨ starts_over job obs o) ∧
  (IsTerminal current = true → o = phase_only current) ∧
  (IsTerminal current = false → o_Phase o = CapturePhaseFailed → failed_outcome o) ∧
  (o_Action o = ActionCreateJob →
    jo_State (obs_Job obs) = JobAbsent ∧ cst_RunnerJobRef (cj_Status job) = None ∧
    to_State (obs_Target obs) = TargetEligible ∧ o_Phase o = CapturePhasePending).

Lemma failed_lawful job obs o :
  IsTerminal (cst_Phase (cj_Status job)) = false → failed_outcome o → lawful_outcome job obs o.
Proof.
  intros Ht Hf. pose proof Hf as (Hp & _ & Ha & _). unfold lawful_outcome. rewrite Hp, Ht.
  split_and!; try done. left. right. unfold CanTransition. by rewrite bool_decide_eq_true_2, Ht.
Qed.

Lemma live_lawful job obs su rq :
  IsTerminal (cst_Phase (cj_Status job)) = false →
  lawful_outcome job obs (mkOutcome (livePhase job) None None "" "" ActionNone su rq).
Proof.
  intros Ht. destruct (livePhase_live job Ht) as (Hl & Hlaw & _).
  unfold lawful_outcome. rewrite Ht. split_and!; simpl; try done; [by left|]. intros _ E. by rewrite E in Hl.
Qed.

Lemma complete_phase job obs o :
  complete job obs = Ok o →
  o_Phase o = CapturePhaseCompleted ∧ o_Action o = ActionNone ∧ o_Failure o = None.
Proof. unfold complete. destruct (ao_Manifest _); [|done]. by intros (dl & _ & [= <-])%result_bind_Ok. Qed.

(** What each kind of outcome presupposes. *)
Lemma Evaluate_completed job obs stale o :
  IsTerminal (cst_Phase (cj_Status job)) = false →
  Evaluate job obs stale = Ok o → o_Phase o = CapturePhaseCompleted →
  ao_State (obs_Artifact obs) = ArtifactVerified ∧ complete job obs = Ok o.
Proof.
  intros Ht. unfold Evaluate. rewrite Ht.
  destruct (livePhase_live job Ht) as (Hl & _ & _).
  pose proof (finishWithoutArtifact_spec job obs Ht) as Hfin.
  pose proof (admit_runner_spec job obs stale) as Hadm.
  destruct (ao_State (obs_Artifact obs)), (jo_State (obs_Job obs)), (cst_RunnerJobRef (cj_Status job));
    intros E Hp; rewrite ?E in Hfin; rewrite ?E in Hadm; simplify_eq/=; try done;
    try (by rewrite Hp in Hl); unfold failed_outcome in *; naive_solver congruence.
Qed.

Lemma Evaluate_terminal job obs stale : IsTerminal (cst_Phase (cj_Status job)) = true → Evaluate job obs stale = Ok (phase_only (cst_Phase (cj_Status job))).
Proof. intros Ht. unfold Evaluate. by rewrite Ht. Qed.

(** The phases proposed for a live object. *)
Lemma Evaluate_phases job obs stale o :
  IsTerminal (cst_Phase (cj_Status job)) = false → Evaluate job obs stale = Ok o →
  o_Phase o = livePhase job ∨ o_Phase o ∈ [CapturePhasePending; CapturePhaseFailed; CapturePhaseCompleted].
Proof.
  intros Ht. unfold Evaluate. rewrite Ht.
  pose proof (finishWithoutArtifact_spec job obs Ht) as Hfin.
  pose proof (admit_runner_spec job obs stale) as Hadm.
  destruct (ao_State (obs_Artifact obs)).
  4: { intros (-> & _)%complete_phase. right. set_solver. }
  all: destruct (jo_State (obs_Job obs)), (cst_RunnerJobRef (cj_Status job));
    intros E; rewrite ?E in Hfin; rewrite ?E in Hadm; simplify_eq/=; try (by left); try (right; set_solver).
  all: try (destruct Hfin as [_ (-> & _)]; right; set_solver).
  all: destruct Hadm as (_ & [(-> & _)|(-> & _)]); right; set_solver.
Qed.

Lemma admit_runner_action job obs stale o :
  admit_runner job obs stale = Ok o → o_Action o ≠ ActionCleanupArtifact.
Proof. unfold admit_runner. repeat case_match; intros; by simplify_eq/=. Qed.

Lemma Evaluate_actions job obs stale o :
  IsTerminal (cst_Phase (cj_Status job)) = false → Evaluate job obs stale = Ok o →
  o_Phase o ≠ CapturePhaseExpired ∧
  (o_Action o = ActionCleanupArtifact → o_Phase o = CapturePhaseFailed) ∧
  (o_Action o = ActionCreateJob →
   jo_State (obs_Job obs) = JobAbsent ∧ cst_RunnerJobRef (cj_Status job) = None).
Proof.
  intros Ht. unfold Evaluate. rewrite Ht.
  destruct (livePhase_live job Ht) as (Hl & _ & _).
  pose proof (finishWithoutArtifact_spec job obs Ht) as Hfin.
  pose proof (admit_runner_spec job obs stale) as Hadm.
  assert (∀ P : Prop, failed_outcome o → o_Phase o ≠ CapturePhaseExpired ∧
    (o_Action o = ActionCleanupArtifact → o_Phase o = CapturePhaseFailed) ∧ (o_Action o = ActionCreateJob → P)) as Hfailed.
  { intros P (Hp & _ & Ha & _). by rewrite Hp. }
  destruct (ao_State (obs_Artifact obs)).
  4: { intros (Hp & Ha & _)%complete_phase. by rewrite Hp, Ha. }
  all: destruct (jo_State (obs_Job obs)), (cst_RunnerJobRef (cj_Status job));
    intros E; rewrite ?E in Hfin; rewrite ?E in Hadm; simplify_eq/=; try done;
    try (split_and!; try done; intros E'; rewrite E' in Hl; done);
    try (by destruct Hfin as [_ Hf]; apply Hfailed).
  all: pose proof (admit_runner_action job obs stale o E);
    destruct Hadm as (_ & [Hf|(Hp & _ & _ & _)]); [by apply Hfailed|by rewrite Hp].
Qed.

(** C21: [Evaluate] stays on the lifecycle.  The proposed phase is the current
    one or a lawful transition from it, with one exception: an object past
    Pending with no runner recorded, no Job found and nothing in storage that
    settles it is proposed for Pending again, which no transition allows and
    [persist] does not write.  For an object that records its runner whenever
    it is Capturing or Storing, as the controller keeps it unless a start or an
    end is reported of a capture without a runner
    ([CaptureConforms.consistent_kept]), there is no exception.  A terminal
    object is left alone; a failure always has a reason and the live phase it happened in; a runner is created
    only for an eligible target with no Job and none recorded before. *)
Theorem Evaluate_lawful job obs stale o :
  Evaluate job obs stale = Ok o →
  lawful_outcome job obs o ∧ (consistent job → lawful (cst_Phase (cj_Status job)) (o_Phase o)).
Proof.
  intros HE. assert (lawful_outcome job obs o) as Hl; [|split; [done|]; by destruct Hl as [[?|[? _]] _]].
  revert HE. unfold Evaluate.
  destruct (IsTerminal (cst_Phase (cj_Status job))) eqn:Et.
  { intros [= <-]. unfold lawful_outcome. rewrite Et. split_and!; try done. left. by left. }
  assert (∀ o, admit_runner job obs stale = Ok o → jo_State (obs_Job obs) = JobAbsent →
    ao_State (obs_Artifact obs) ∉ [ArtifactVerified; ArtifactMismatch; ArtifactUnavailable] →
    cst_RunnerJobRef (cj_Status job) = None → lawful_outcome job obs o) as Hadmit.
  { intros o' Had Hj Hs Hr. pose proof (admit_runner_spec job obs stale) as Ha. rewrite Had in Ha.
    destruct Ha as (_ & [Hf|(Hp & Hf & _ & Ha)]); [by apply failed_lawful|].
    unfold lawful_outcome. rewrite Et, Hp. split_and!; try done; [|naive_solver].
    unfold lawful, starts_over, consistent. rewrite Hp. destruct (cst_Phase (cj_Status job)); try done; [left; by right|left; by left|right..];
      (split_and!; try done; intros Hc; by destruct (Hc Hr); set_solver). }
  assert (∀ o, finishWithoutArtifact job obs = Ok o → lawful_outcome job obs o) as Hfinish.
  { intros o' Hf. pose proof (finishWithoutArtifact_spec job obs Et) as Hs. rewrite Hf in Hs.
    destruct Hs. by apply failed_lawful. }
  destruct (ao_State (obs_Artifact obs)) eqn:Ea.
  4: { intros (Hp & Ha & _)%complete_phase. unfold lawful_outcome. rewrite Et, Hp, Ha.
       split_and!; try done. left. right. by destruct (cst_Phase (cj_Status job)). }
  4: { intros [= <-]. by apply failed_lawful, fail_failed. }
  4: { intros [= <-]. by apply live_lawful. }
  all: destruct (jo_State (obs_Job obs)) eqn:Ej; [|intros [= <-]; by apply live_lawful|apply Hfinish..];
    destruct (cst_RunnerJobRef (cj_Status job)) eqn:Er; [|intros Had; apply Hadmit; (done || set_solver)];
    intros [= <-]; by apply failed_lawful, fail_failed.
Qed.

Definition example_job (phase : CapturePhase) (ref : option str) : CaptureJob :=
  mkCaptureJob (mkMeta "job" "prod" "u1" 1 1000000000000 None ∅ [])
    (mkCaptureJobSpec CaptureRequestManual "tap" "node-1" "" "30s" 0 (bytes_quantity 1048576) "24h" None None "")
    (mkCaptureJobStatus 1 phase "" "" ref None None None None None None "" None None None None []).

Definition example_obs (artifact : ArtifactState) (manifest : option Manifest.Manifest)
    (job : JobState) (target : TargetState) : Observation :=
  mkObservation 1000000000001 (mkTargetObservation target "tap-uid" "eth0")
    (mkJobObservation job "" None) (mkArtifactObservation artifact manifest "k" "e" "v").

Lemma Evaluate_lawful_witness :
  ∃ o, Evaluate (example_job CapturePhaseUnset None)
    (example_obs ArtifactAbsent None JobAbsent TargetEligible) StaleHeartbeat = Ok o ∧
  o_Action o = ActionCreateJob ∧
  lawful_outcome (example_job CapturePhaseUnset None)
    (example_obs ArtifactAbsent None JobAbsent TargetEligible) o.
Proof.
  eexists. split_and!; [reflexivity|reflexivity|].
  apply (Evaluate_lawful _ _ StaleHeartbeat). reflexivity.
Defined.

(** C29: A capture completes exactly on evidence.  A live object is completed
    if and only if storage holds a verified object with its manifest and the
    retention parses, whatever the Job says; the facts recorded are the
    manifest's, the deadline is the completion time plus the retention.  While
    storage cannot be read the capture is neither completed nor failed and no
    runner is created, and a successful exit alone never completes it. *)
Theorem Evaluate_completes_on_evidence job obs stale :
  IsTerminal (cst_Phase (cj_Status job)) = false →
  ((∃ o, Evaluate job obs stale = Ok o ∧ o_Phase o = CapturePhaseCompleted) ↔
   ao_State (obs_Artifact obs) = ArtifactVerified ∧
   ∃ m d, ao_Manifest (obs_Artifact obs) = Some m ∧
     Config.ParseDuration (cjs_Retention (cj_Spec job)) = Ok d) ∧
  (∀ o, Evaluate job obs stale = Ok o → o_Phase o = CapturePhaseCompleted →
   ∃ m d c, ao_Manifest (obs_Artifact obs) = Some m ∧
     Config.ParseDuration (cjs_Retention (cj_Spec job)) = Ok d ∧ o_Completion o = Some c ∧
     cmp_SHA256 c = Manifest.mf_SHA256 m ∧ cmp_SizeBytes c = Manifest.mf_SizeBytes m ∧
     cmp_PacketCount c = Manifest.mf_PacketCount m ∧
     cmp_RetentionDeadline c = obs_Now obs + d ∧ cmp_CompletedAt c = obs_Now obs ∧
     ar_Key (cmp_Artifact c) = ao_Key (obs_Artifact obs)) ∧
  (ao_State (obs_Artifact obs) = ArtifactUnavailable →
   ∃ o, Evaluate job obs stale = Ok o ∧ IsTerminal (o_Phase o) = false ∧
     o_Action o = ActionNone ∧ o_StorageUnavailable o = true).
Proof.
  intros Ht.
  pose proof (λ o, Evaluate_completed job obs stale o Ht) as Hcomp.
  split_and!.
  - split.
    + intros (o & Ho & Hp). destruct (Hcomp o Ho Hp) as [Hv Hc]. split; [done|].
      unfold complete in Hc. destruct (ao_Manifest _) as [m|]; [|done].
      unfold RetentionDeadline in Hc. destruct (Config.ParseDuration _) as [d|]; [|done]. by exists m, d.
    + intros (Hv & m & d & Hm & Hd). unfold Evaluate, complete, RetentionDeadline.
      rewrite Ht, Hv, Hm, Hd. simpl. eexists. split; [done|]. done.
  - intros o Ho Hp. destruct (Hcomp o Ho Hp) as [Hv Hc]. unfold complete in Hc.
    destruct (ao_Manifest _) as [m|]; [|done]. unfold RetentionDeadline in Hc.
    destruct (Config.ParseDuration _) as [d|]; [|done]. simplify_eq/=.
    eexists m, d, _. split_and!; done.
  - intros Hu. unfold Evaluate. rewrite Ht, Hu. eexists. split_and!; try done.
    by destruct (livePhase_live job Ht).
Qed.

Lemma Evaluate_completes_on_evidence_witness :
  ∃ o, Evaluate (example_job CapturePhaseCapturing (Some "job"))
    (example_obs ArtifactVerified (Some (Manifest.example_manifest "x")) JobFailed TargetUnknown)
    StaleHeartbeat = Ok o ∧ o_Phase o = CapturePhaseCompleted.
Proof.
  edestruct (Evaluate_completes_on_evidence (example_job CapturePhaseCapturing (Some "job"))
    (example_obs ArtifactVerified (Some (Manifest.example_manifest "x")) JobFailed TargetUnknown)
    StaleHeartbeat) as ([_ H] & _); [reflexivity|].
  apply H. split; [reflexivity|]. eexists _, (86400 * second). split; reflexivity.
Defined.

(** Waiting for a target is bounded.  With no runner and an ineligible
    target, the capture waits only while less than the grace of two heartbeat
    intervals has passed since creation, the requeue hint never overshoots
    that grace, and any evaluation at or after it fails the capture. *)
Theorem Evaluate_waiting_bounded job obs stale :
  IsTerminal (cst_Phase (cj_Status job)) = false →
  ao_State (obs_Artifact obs) = ArtifactAbsent → jo_State (obs_Job obs) = JobAbsent →
  cst_RunnerJobRef (cj_Status job) = None →
  to_State (obs_Target obs) ≠ TargetUnknown → to_State (obs_Target obs) ≠ TargetEligible →
  0 < stale ≤ hour → m_CreationTimestamp (cj_Meta job) ≤ obs_Now obs →
  let waited := obs_Now obs - m_CreationTimestamp (cj_Meta job) in
  ∃ o, Evaluate job obs stale = Ok o ∧
    (if waited <? 2 * stale
     then o_Phase o = CapturePhasePending ∧ o_Action o = ActionNone ∧
          0 < o_RequeueAfter o ∧ waited + o_RequeueAfter o = 2 * stale
     else failed_outcome o).
Proof.
  intros Ht Ha Hj Hr Hu He Hs Hn waited. unfold Evaluate. rewrite Ht, Ha, Hj, Hr.
  unfold admit_runner. unfold hour, minute, second in *.
  rewrite (wrap64_id (2 * stale)) by (unfold in_int64, min_int64, max_int64; lia).
  assert ((t_sub (obs_Now obs) (m_CreationTimestamp (cj_Meta job)) <? 2 * stale) = (waited <? 2 * stale)) as ->.
  { unfold waited, t_sub, max_int64, min_int64. apply eq_bool_prop_intro. rewrite !Is_true_true, !Z.ltb_lt. lia. }
  destruct (Z.ltb_spec waited (2 * stale)) as [Hw|Hw].
  - assert (t_sub (obs_Now obs) (m_CreationTimestamp (cj_Meta job)) = waited) as ->.
    { apply t_sub_exact. unfold in_int64, min_int64, max_int64. lia. }
    rewrite wrap64_id by (unfold in_int64, min_int64, max_int64; lia).
    destruct (to_State (obs_Target obs)); try done; eexists; (split; [done|]); simpl; split_and!; lia || done.
  - destruct (to_State (obs_Target obs)); try done; eexists; (split; [done|]); by apply fail_failed.
Qed.

Lemma Evaluate_waiting_bounded_witness :
  ∃ o, Evaluate (example_job CapturePhasePending None)
    (example_obs ArtifactAbsent None JobAbsent TargetTapMissing) StaleHeartbeat = Ok o ∧
  o_Phase o = CapturePhasePending ∧ o_RequeueAfter o = 180 * second - 1.
Proof.
  destruct (Evaluate_waiting_bounded (example_job CapturePhasePending None)
    (example_obs ArtifactAbsent None JobAbsent TargetTapMissing) StaleHeartbeat) as (o & Ho & H);
    try reflexivity; try discriminate; [split; by vm_compute|].
  exists o. split; [done|]. destruct H as (Hp & _ & _ & Hq). split; [done|].
  vm_compute in Ho. by injection Ho as <-.
Defined.

(** When a capture may be served. *)
Definition servable (job : CaptureJob) (now : time) : Prop :=
  let s := cj_Status job in
  cst_Phase s = CapturePhaseCompleted ∧ cst_Failure s = None ∧ cst_Artifact s ≠ None ∧
  cst_SHA256 s ≠ "" ∧ (∃ d, cst_RetentionDeadline s = Some d ∧ now < d) ∧
  cst_ObservedGeneration s = m_Generation (cj_Meta job) ∧
  Status.IsTrue (cst_Conditions s) Status.TypeArtifactVerified (m_Generation (cj_Meta job)) = true.

Lemma deadline_passed_spec deadline now :
  deadline_passed deadline now = true ↔ ∃ d, deadline = Some d ∧ d ≤ now.
Proof.
  unfold deadline_passed, t_before. destruct deadline as [d|]; [|naive_solver].
  rewrite negb_true_iff, Z.ltb_ge. naive_solver.
Qed.

Lemma DecideDownload_expired job now :
  DecideDownload job now = DownloadExpired ↔
  (∃ d, cst_RetentionDeadline (cj_Status job) = Some d ∧ d ≤ now) ∨
  cst_Phase (cj_Status job) = CapturePhaseExpired.
Proof.
  unfold DecideDownload. rewrite <-deadline_passed_spec.
  destruct (deadline_passed _ now); [naive_solver|].
  case_bool_decide; [naive_solver|]. repeat case_match; naive_solver.
Qed.

Lemma DecideDownload_allowed job now :
  DecideDownload job now = DownloadAllowed ↔ servable job now.
Proof.
  unfold servable, DecideDownload. destruct (deadline_passed _ now) eqn:Ed.
  { apply deadline_passed_spec in Ed as (d & Hd & Hle). rewrite Hd.
    split; [done|]. intros (_ & _ & _ & _ & (d' & [= <-] & Hlt) & _). lia. }
  assert (∀ d, cst_RetentionDeadline (cj_Status job) = Some d → now < d) as Hlive.
  { intros d Hd. rewrite Hd in Ed. simpl in Ed. unfold t_before in Ed. go_simp. done. }
  destruct (cj_Status job) as [og ph ? ? ? ? ? ? ? ? ? sum artifact deadline failure ? conds]; simpl in *.
  destruct (decide (ph = CapturePhaseCompleted)) as [->|Hne].
  2: { case_bool_decide; [naive_solver|]. rewrite (bool_decide_eq_false_2 (ph = _)) by done. naive_solver. }
  rewrite (bool_decide_eq_false_2 (CapturePhaseCompleted = CapturePhaseExpired)) by done.
  rewrite (bool_decide_eq_true_2 (CapturePhaseCompleted = _)) by done.
  cbn. destruct failure, artifact, deadline; cbn;
    try (case_bool_decide; cbn); try by (split; [done|intros; go_simp; congruence]).
  destruct (Z.eqb_spec og (m_Generation (cj_Meta job))); cbn;
    [|by (split; [done|intros; destruct_and!; congruence])].
  destruct (Status.IsTrue _ _ _); cbn; [|by (split; [done|intros; destruct_and!; congruence])].
  split; [intros _; split_and!; eauto|done].
Qed.

(** A download is allowed exactly while the capture is completed without
    failure, verified for the current generation and strictly before its
    retention deadline.  Expiry dominates every other answer and is final:
    once the answer is "expired" it stays so at any later time, and a decision
    that was "allowed" can only turn into "expired" as time passes. *)
Theorem DecideDownload_spec job now later :
  now ≤ later →
  (Downloadable job now = true ↔ servable job now) ∧
  (DecideDownload job now = DownloadExpired → DecideDownload job later = DownloadExpired) ∧
  (DecideDownload job now = DownloadAllowed →
   DecideDownload job later = DownloadAllowed ∨ DecideDownload job later = DownloadExpired) ∧
  (∀ d, cst_RetentionDeadline (cj_Status job) = Some d →
   DecideDownload job d = DownloadExpired).
Proof.
  intros Hle. unfold Downloadable. rewrite bool_decide_eq_true. split_and!.
  - apply DecideDownload_allowed.
  - rewrite !DecideDownload_expired. intros [(d & ? & ?)|?]; [|by right]. left. exists d. split; [done|lia].
  - rewrite !DecideDownload_allowed, DecideDownload_expired. unfold servable.
    intros (? & ? & ? & ? & (d & Hd & Hlt) & ? & ?).
    destruct (Z.lt_ge_cases later d); [left|right; left; exists d; by split].
    split_and!; try done. by exists d.
  - intros d Hd. apply DecideDownload_expired. left. by exists d.
Qed.

Definition served_job : CaptureJob :=
  mkCaptureJob (cj_Meta (example_job CapturePhaseCompleted None))
    (cj_Spec (example_job CapturePhaseCompleted None))
    (mkCaptureJobStatus 1 CapturePhaseCompleted "" "" (Some "job") None None None (Some 10)
       (Some 1) (Some 100) "abc" (Some (mkArtifactReference "" "k" "e" "v" 10)) (Some 50) None None
       [mkCondition Status.TypeArtifactVerified ConditionTrue 1 10 "Verified" ""]).

Lemma DecideDownload_spec_witness :
  20 ≤ 50 ∧ Downloadable served_job 20 = true ∧ DecideDownload served_job 50 = DownloadExpired.
Proof.
  split; [lia|]. destruct (DecideDownload_spec served_job 20 50) as (H1 & _ & _ & H4); [lia|].
  split; [reflexivity|]. by apply H4.
Defined.

End CaptureState.
