(* ===== verification/TapStatus.v ===== *)
(** * A tap's aggregate status, internal/controller/networktap_status.go

    The projection of what a reconcile observed onto the tap's status, with
    the enum helpers of networktap_controller.go.  [rfc3339] is how
    [time.Format] writes the last packet's time.  The sensors own the target
    reports; the projection owns everything else. *)

From S2P Require Import Prelude GoTime GoString Sanitize Api Status CaptureState.

Module TapStatus.

Definition staleHeartbeat : duration := CaptureState.StaleHeartbeat.

Record networkTapStatusFacts := mkFacts {
  fa_generation : Z;
  fa_matchedTargets : Z;
  fa_workloadReady : ConditionStatus;
  fa_workloadMessage : str;
  fa_now : time;
}.

(** ** networktap_controller.go: the enum helpers *)

Definition boolCondition (b : bool) : ConditionStatus := if b then ConditionTrue else ConditionFalse.

Definition targetsReason (matched : Z) : str :=
  if 0 <? matched then Status.ReasonTargetsResolved else Status.ReasonNoEligibleTargets.

Definition workloadReasonEnum (ready : ConditionStatus) : str :=
  match ready with
  | ConditionTrue => Status.ReasonWorkloadReady
  | ConditionUnknown => Status.ReasonDependencyUnavailable
  | ConditionFalse => Status.ReasonWorkloadProgressing
  end.

Definition analyzerReasonEnum (s : ConditionStatus) : str :=
  match s with
  | ConditionTrue => Status.ReasonAnalyzersHealthy
  | ConditionUnknown => Status.ReasonProbeUnavailable
  | ConditionFalse => Status.ReasonAnalyzerDegraded
  end.

Definition packetsReason (seen : bool) : str :=
  if seen then Status.ReasonPacketsObserved else Status.ReasonNoPacketsObserved.

Definition allAnalyzersHealthy (target : TargetStatus) : bool :=
  if bool_decide (tgt_Analyzers target = []) then false else forallb ans_Healthy (tgt_Analyzers target).

(** An [int32] count against the number of nodes. *)
Definition derivePhase (matched ready : Z) (workloadReady analyzers : ConditionStatus) : TapPhase :=
  if matched =? 0 then TapPhaseError
  else if negb (bool_decide (workloadReady = ConditionTrue)) || bool_decide (analyzers = ConditionUnknown) || (ready =? 0)
  then TapPhasePending
  else if (ready <? matched) || bool_decide (analyzers = ConditionFalse) then TapPhaseDegraded
  else TapPhaseActive.

(** ** networktap_status.go *)

Definition targetIsFresh (target : TargetStatus) (now : time) : bool :=
  t_before now (t_add (tgt_HeartbeatTime target) staleHeartbeat).

Definition later_packet (target : TargetStatus) (lastPacket : option time) : option time :=
  match tgt_LastPacketTime target with
  | Some t => match lastPacket with
              | None => Some t
              | Some l => if t_after t l then Some t else lastPacket
              end
  | None => lastPacket
  end.

Definition summarizeTargetStatus (targets : list TargetStatus) (now : time) : Z * option time :=
  foldl (λ '(ready, lastPacket) target,
           ((if targetIsFresh target now && allAnalyzersHealthy target then wrap32 (ready + 1) else ready),
            later_packet target lastPacket))
    (0, None) targets.

(** The smallest remaining lifetime of a fresh report. *)
Definition nextHeartbeatExpiry (targets : list TargetStatus) (now : time) : duration :=
  foldl (λ next target,
           let expires := t_add (tgt_HeartbeatTime target) staleHeartbeat in
           if negb (t_after expires now) then next else
           let until := t_sub expires now in
           if (next =? 0) || (until <? next) then until else next)
    0 targets.

Definition unhealthy_of (target : TargetStatus) : list str :=
  (λ a, tgt_NodeName target +:+ "/" +:+ ans_Name a) <$> filter (λ a, ans_Healthy a = false) (tgt_Analyzers target).

Definition projectedAnalyzerHealth (targets : list TargetStatus) (now : time) : ConditionStatus * str :=
  if bool_decide (targets = []) then (ConditionUnknown, "no sensor has reported yet") else
  let fresh := filter (λ t, targetIsFresh t now = true) targets in
  let incomplete := existsb (λ t, bool_decide (tgt_Analyzers t = [])) fresh in
  match concat (unhealthy_of <$> fresh) with
  | [] =>
      if bool_decide (fresh = []) then (ConditionUnknown, "all sensor reports are stale")
      else if incomplete then (ConditionUnknown, "a current sensor has not reported analyzer health")
      else (ConditionTrue, "all current analyzers healthy")
  | unhealthy => (ConditionFalse, Sanitize.String_ ("unhealthy: [" +:+ str_join unhealthy " " +:+ "]"))
  end.

Definition setTapCondition (conditions : list Condition) (now : time) (ty : str) (st : ConditionStatus)
    (reason message : str) (generation : Z) : list Condition :=
  Status.Set_ conditions (mkCondition ty st generation now reason (Sanitize.String_ message)).

Section project.
Context (rfc3339 : time → str).

Definition packetsMessage (last : option time) : str :=
  match last with
  | None => "no packets observed yet"
  | Some t => "last packet at " +:+ rfc3339 t
  end.

Definition project_conditions (conds : list Condition) (facts : networkTapStatusFacts) (analyzers : ConditionStatus * str)
    (lastPacket : option time) : list Condition :=
  let now := fa_now facts in
  let gen := fa_generation facts in
  let conds := setTapCondition conds now Status.TypeAccepted ConditionTrue Status.ReasonAccepted "spec accepted" gen in
  let conds := setTapCondition conds now Status.TypeTargetsResolved (boolCondition (0 <? fa_matchedTargets facts))
                 (targetsReason (fa_matchedTargets facts)) (itoa (fa_matchedTargets facts) +:+ " eligible node(s)") gen in
  let conds := setTapCondition conds now Status.TypeWorkloadReady (fa_workloadReady facts)
                 (workloadReasonEnum (fa_workloadReady facts)) (fa_workloadMessage facts) gen in
  let conds := setTapCondition conds now Status.TypeAnalyzersHealthy analyzers.1 (analyzerReasonEnum analyzers.1)
                 analyzers.2 gen in
  setTapCondition conds now Status.TypePacketsObserved (boolCondition (is_Some_b lastPacket))
    (packetsReason (is_Some_b lastPacket)) (packetsMessage lastPacket) gen.

Definition projectNetworkTapStatus (current : NetworkTapStatus) (facts : networkTapStatusFacts) : NetworkTapStatus :=
  let '(ready, lastPacket) := summarizeTargetStatus (nts_Targets current) (fa_now facts) in
  let analyzers := projectedAnalyzerHealth (nts_Targets current) (fa_now facts) in
  mkNetworkTapStatus (fa_generation facts)
    (derivePhase (fa_matchedTargets facts) ready (fa_workloadReady facts) analyzers.1)
    (wrap32 (fa_matchedTargets facts)) ready lastPacket (nts_Targets current)
    (project_conditions (nts_Conditions current) facts analyzers lastPacket).

End project.

(** ** When the projection changes *)

Definition expiry (t : TargetStatus) : time := t_add (tgt_HeartbeatTime t) staleHeartbeat.

Lemma fresh_spec t now : targetIsFresh t now = true ↔ now < expiry t.
Proof. apply Z.ltb_lt. Qed.

(** The requeue interval: zero when every report is stale, and never past the
    expiry of one that is fresh. *)
Lemma nextHeartbeatExpiry_spec targets now :
  let r := nextHeartbeatExpiry targets now in
  0 ≤ r ∧ ∀ t, t ∈ targets → targetIsFresh t now = true → 0 < r ≤ expiry t - now.
Proof.
  induction targets as [|t targets IH] using rev_ind; [split; [done|]; by intros t ?%elem_of_nil|].
  unfold nextHeartbeatExpiry in *. rewrite foldl_app. cbn [foldl]. set (r := foldl _ 0 targets) in *.
  fold (expiry t). destruct IH as [Hr IH]. unfold t_after, t_sub.
  assert (∀ x, now < expiry x → 0 < max_int64 ∧ 0 < Z.max min_int64 (Z.min max_int64 (expiry x - now)) ≤ expiry x - now) as Hsub.
  { intros x Hx. unfold max_int64, min_int64. lia. }
  destruct (Z.ltb_spec now (expiry t)) as [Hf|Hf]; simpl.
  - specialize (Hsub t Hf). set (u := Z.max _ _) in *.
    destruct (Z.eqb_spec r 0) as [E|E]; [|destruct (Z.ltb_spec u r)]; simpl; (split; [lia|]);
      intros x [Hx|Hx%list_elem_of_singleton]%elem_of_app Hfx; subst; try lia; specialize (IH x Hx Hfx); lia.
  - split; [done|]. intros x [Hx|Hx%list_elem_of_singleton]%elem_of_app Hfx; [by apply IH|].
    subst. apply fresh_spec in Hfx. lia.
Qed.

Definition same_fresh (targets : list TargetStatus) (a b : time) : Prop :=
  ∀ t, t ∈ targets → targetIsFresh t a = targetIsFresh t b.

(** Before the requeue nothing becomes stale. *)
Lemma fresh_until targets now now' :
  now ≤ now' → (nextHeartbeatExpiry targets now = 0 ∨ now' < now + nextHeartbeatExpiry targets now) →
  same_fresh targets now now'.
Proof.
  intros Hle Hw t Hin. destruct (nextHeartbeatExpiry_spec targets now) as [_ Hr]. specialize (Hr t Hin).
  apply Bool.eq_true_iff_eq. split; intros Hf.
  - specialize (Hr Hf). apply fresh_spec. lia.
  - apply fresh_spec in Hf. apply fresh_spec. lia.
Qed.

Lemma summarize_fresh targets a b : same_fresh targets a b → summarizeTargetStatus targets a = summarizeTargetStatus targets b.
Proof.
  intros Hs. unfold summarizeTargetStatus. generalize (0, @None time). induction targets as [|t targets IH]; intros [r l]; [done|].
  cbn [foldl]. rewrite (Hs t) by left. apply IH. intros x Hx. apply Hs. by right.
Qed.

Lemma filter_fresh targets a b :
  same_fresh targets a b → filter (λ t, targetIsFresh t a = true) targets = filter (λ t, targetIsFresh t b = true) targets.
Proof.
  intros Hs. induction targets as [|t targets IH]; [done|]. rewrite !filter_cons, (Hs t) by left.
  rewrite IH by (intros x Hx; apply Hs; by right). done.
Qed.

Lemma health_fresh targets a b : same_fresh targets a b → projectedAnalyzerHealth targets a = projectedAnalyzerHealth targets b.
Proof. intros Hs. unfold projectedAnalyzerHealth. by rewrite (filter_fresh targets a b Hs). Qed.

(** ** Projecting twice *)

(** A condition as the projection sets it, at any time. *)
Lemma set_again conds now' ty st reason msg gen :
  (∃ t, Status.Get conds ty = Some (mkCondition ty st gen t reason (Sanitize.String_ msg))) →
  setTapCondition conds now' ty st reason msg gen = conds.
Proof. intros [t Ht]. eapply Status.Set_idle. cbn [cond_Type]. rewrite Ht. reflexivity. Qed.

Lemma set_there conds now ty st reason msg gen :
  ∃ t, Status.Get (setTapCondition conds now ty st reason msg gen) ty = Some (mkCondition ty st gen t reason (Sanitize.String_ msg)).
Proof.
  destruct (Status.Get_Set_same conds (mkCondition ty st gen now reason (Sanitize.String_ msg))) as (t & Ht & _).
  exists t. exact Ht.
Qed.

Lemma set_other conds now ty ty' st reason msg gen :
  ty' ≠ ty → Status.Get (setTapCondition conds now ty st reason msg gen) ty' = Status.Get conds ty'.
Proof. intros Hne. by apply Status.Get_Set_other. Qed.

Section facts.
Context (rfc3339 : time → str).

(** The five conditions of a projected list. *)
Lemma project_conditions_again conds facts now' analyzers lastPacket :
  let facts' := mkFacts (fa_generation facts) (fa_matchedTargets facts) (fa_workloadReady facts)
                  (fa_workloadMessage facts) now' in
  project_conditions rfc3339 (project_conditions rfc3339 conds facts analyzers lastPacket) facts' analyzers lastPacket =
  project_conditions rfc3339 conds facts analyzers lastPacket.
Proof.
  cbv zeta. set (l := project_conditions rfc3339 conds facts analyzers lastPacket). unfold project_conditions. cbn [fa_now fa_generation fa_matchedTargets fa_workloadReady fa_workloadMessage].
  rewrite !set_again; [done|..]; subst l; unfold project_conditions.
  all: repeat first [apply set_there | rewrite set_other by done].
Qed.

(** The projection reads the clock through the freshness of the reports. *)
Lemma project_fresh current facts now' :
  same_fresh (nts_Targets current) (fa_now facts) now' →
  let facts' := mkFacts (fa_generation facts) (fa_matchedTargets facts) (fa_workloadReady facts)
                  (fa_workloadMessage facts) now' in
  projectNetworkTapStatus rfc3339 (projectNetworkTapStatus rfc3339 current facts) facts' =
  projectNetworkTapStatus rfc3339 current facts.
Proof.
  intros Hs. unfold projectNetworkTapStatus. cbn [fa_now fa_matchedTargets fa_workloadReady].
  destruct (summarizeTargetStatus (nts_Targets current) (fa_now facts)) as [ready last] eqn:E.
  cbn [nts_Targets nts_Conditions]. rewrite <-(summarize_fresh _ _ _ Hs), <-(health_fresh _ _ _ Hs), E.
  f_equal. apply (project_conditions_again _ facts now').
Qed.

End facts.

(** ** Counting ready targets *)

Definition healthy_now (now : time) (t : TargetStatus) : bool := targetIsFresh t now && allAnalyzersHealthy t.

Lemma summarize_count targets now :
  Z.of_nat (length targets) ≤ max_int32 →
  (summarizeTargetStatus targets now).1 = Z.of_nat (length (List.filter (healthy_now now) targets)).
Proof.
  induction targets as [|t targets IH] using rev_ind; [done|]. rewrite length_app. simpl. intros Hl.
  unfold summarizeTargetStatus in *. rewrite foldl_app. cbn [foldl].
  specialize (IH ltac:(lia)). destruct (foldl _ _ targets) as [r l]. simpl in IH. subst r.
  rewrite List.filter_app, length_app. pose proof (List.filter_length_le (healthy_now now) targets) as Hle.
  set (n := length (List.filter (healthy_now now) targets)) in *. cbn [List.filter].
  change (targetIsFresh t now && allAnalyzersHealthy t) with (healthy_now now t).
  destruct (healthy_now now t); simpl; [|lia].
  rewrite wrap32_id; [lia|]. unfold in_int32, min_int32, max_int32 in *. lia.
Qed.

Lemma unhealthy_nil (l : list TargetStatus) :
  concat (unhealthy_of <$> l) = [] ↔ ∀ t a, t ∈ l → a ∈ tgt_Analyzers t → ans_Healthy a = true.
Proof.
  induction l as [|t l IH]; [split; [|done]; intros _ t a ?%elem_of_nil; done|].
  rewrite fmap_cons. simpl. rewrite app_nil, IH. unfold unhealthy_of. split.
  - intros [Hn Hl] x a [->|Hx]%elem_of_cons Ha; [|by eapply Hl].
    apply fmap_nil_inv in Hn. destruct (ans_Healthy a) eqn:E; [done|].
    assert (a ∈ filter (λ a, ans_Healthy a = false) (tgt_Analyzers t)) as Hin by by apply list_elem_of_filter.
    rewrite Hn in Hin. by apply elem_of_nil in Hin.
  - intros Hall. split; [|intros x a Hx; apply Hall; by right].
    destruct (filter _ _) as [|a k] eqn:E; [done|]. exfalso.
    assert (a ∈ filter (λ a, ans_Healthy a = false) (tgt_Analyzers t)) as Hin by (rewrite E; left).
    apply list_elem_of_filter in Hin as [Hf Ha]. rewrite (Hall t a) in Hf; [done|left|done].
Qed.

Lemma healthy_spec t :
  allAnalyzersHealthy t = true ↔ tgt_Analyzers t ≠ [] ∧ ∀ a, a ∈ tgt_Analyzers t → ans_Healthy a = true.
Proof.
  unfold allAnalyzersHealthy. case_bool_decide; [naive_solver|]. rewrite forallb_forall.
  setoid_rewrite <-list_elem_of_In. naive_solver.
Qed.

(** When the analyzers count as healthy. *)
Lemma health_true targets now :
  (projectedAnalyzerHealth targets now).1 = ConditionTrue ↔
  (∃ t, t ∈ targets ∧ targetIsFresh t now = true) ∧
  ∀ t, t ∈ targets → targetIsFresh t now = true → allAnalyzersHealthy t = true.
Proof.
  unfold projectedAnalyzerHealth. case_bool_decide as Hn.
  { subst. split; [done|]. by intros [(t & Hin%elem_of_nil & _) _]. }
  set (fresh := filter (λ t, targetIsFresh t now = true) targets).
  assert (∀ t, t ∈ fresh ↔ t ∈ targets ∧ targetIsFresh t now = true) as Hf.
  { intros t. unfold fresh. rewrite list_elem_of_filter. naive_solver. }
  pose proof (unhealthy_nil fresh) as Hu. destruct (concat (unhealthy_of <$> fresh)) as [|u us] eqn:Eu.
  - case_bool_decide as Hfn.
    { split; [done|]. intros [(t & Hin & Ht) _]. assert (t ∈ fresh) as Hin' by by apply Hf.
      rewrite Hfn in Hin'. by apply elem_of_nil in Hin'. }
    destruct (existsb _ fresh) eqn:Ee; simpl.
    + split; [done|]. intros [_ Hall]. apply existsb_exists in Ee as (t & Hin%list_elem_of_In & He%bool_decide_eq_true).
      apply Hf in Hin as [Hin Ht]. by destruct (proj1 (healthy_spec t) (Hall t Hin Ht)).
    + split; [intros _|done]. split.
      { destruct fresh as [|t k] eqn:Ef; [done|]. exists t. apply Hf. left. }
      intros t Hin Ht. apply healthy_spec. assert (t ∈ fresh) as Hin' by by apply Hf.
      split; [|intros a Ha; by eapply (proj1 Hu eq_refl)]. intros E.
      apply not_true_iff_false in Ee. apply Ee, existsb_exists. exists t. split; [by apply list_elem_of_In|by apply bool_decide_eq_true].
  - split; [done|]. intros [_ Hall]. exfalso. assert (u :: us = []) as ?; [|done]. apply Hu.
    intros t a [Hin Ht]%Hf Ha. by apply (proj1 (healthy_spec t) (Hall t Hin Ht)).
Qed.

(** ** Theorems *)

(** A settled tap is left alone.  Until the moment the controller asked to
    be woken, or for ever when it did not ask, projecting the same facts again
    gives the stored status back, to the last condition and timestamp: so a
    pass woken by its own write writes nothing more. *)
Theorem projection_settles rfc3339 current facts now' :
  let wake := nextHeartbeatExpiry (nts_Targets current) (fa_now facts) in
  fa_now facts ≤ now' → (wake = 0 ∨ now' < fa_now facts + wake) →
  let facts' := mkFacts (fa_generation facts) (fa_matchedTargets facts) (fa_workloadReady facts)
                  (fa_workloadMessage facts) now' in
  projectNetworkTapStatus rfc3339 (projectNetworkTapStatus rfc3339 current facts) facts' =
  projectNetworkTapStatus rfc3339 current facts.
Proof. intros wake Hle Hw. by apply project_fresh, fresh_until. Qed.

(** Active means that every report that counts is healthy.  A tap is
    reported Active exactly when its selector matched nodes, its workload is
    ready, every report that is still fresh lists analyzers and all of them
    healthy, and there are at least as many such reports as nodes. *)
Theorem Active_spec rfc3339 current facts :
  0 ≤ fa_matchedTargets facts → Z.of_nat (length (nts_Targets current)) ≤ max_int32 →
  let now := fa_now facts in
  let fresh := filter (λ t, targetIsFresh t now = true) (nts_Targets current) in
  nts_Phase (projectNetworkTapStatus rfc3339 current facts) = TapPhaseActive ↔
  0 < fa_matchedTargets facts ≤ Z.of_nat (length fresh) ∧ fa_workloadReady facts = ConditionTrue ∧
  ∀ t, t ∈ fresh → tgt_Analyzers t ≠ [] ∧ ∀ a, a ∈ tgt_Analyzers t → ans_Healthy a = true.
Proof.
  intros Hm Hl. cbv zeta. unfold projectNetworkTapStatus.
  destruct (summarizeTargetStatus (nts_Targets current) (fa_now facts)) as [ready last] eqn:E.
  pose proof (summarize_count (nts_Targets current) (fa_now facts) Hl) as Hc. rewrite E in Hc. cbn [fst] in Hc.
  cbn [nts_Phase]. set (targets := nts_Targets current) in *. set (now := fa_now facts) in *.
  pose proof (health_true targets now) as Hh. set (an := (projectedAnalyzerHealth targets now).1) in *.
  setoid_rewrite <-healthy_spec.
  assert (∀ t, t ∈ filter (λ t, targetIsFresh t now = true) targets ↔ t ∈ targets ∧ targetIsFresh t now = true) as Hf.
  { intros t. rewrite list_elem_of_filter. naive_solver. }
  assert ((∀ t, t ∈ targets → targetIsFresh t now = true → allAnalyzersHealthy t = true) →
    length (List.filter (healthy_now now) targets) = length (filter (λ t, targetIsFresh t now = true) targets)) as Hsame.
  { intros Hall. clear -Hall. induction targets as [|t l IH]; [done|]. rewrite filter_cons.
    specialize (IH ltac:(intros x Hx; apply Hall; by right)). cbn [List.filter]. unfold healthy_now at 1.
    destruct (targetIsFresh t now) eqn:Ef; simpl; [|exact IH]. rewrite (Hall t) by (done || left). simpl. by rewrite IH. }
  unfold derivePhase. split.
  - destruct (Z.eqb_spec (fa_matchedTargets facts) 0); [done|].
    case_bool_decide as Hw; simpl; [|done]. case_bool_decide as Hun; simpl; [done|].
    destruct (Z.eqb_spec ready 0); [done|]. destruct (Z.ltb_spec ready (fa_matchedTargets facts)); simpl; [done|].
    case_bool_decide as Hfa; [done|]. intros _.
    assert (an = ConditionTrue) as Han by by destruct an. apply Hh in Han as [_ Hall].
    rewrite Hsame in Hc by done. split_and!; [lia|lia|done|]. intros t [Hin Ht]%Hf. by apply Hall.
  - intros ([Hpos Hle] & Hw & Hall).
    assert (∀ t, t ∈ targets → targetIsFresh t now = true → allAnalyzersHealthy t = true) as Hall'.
    { intros t Hin Ht. apply Hall, Hf. by split. }
    rewrite Hsame in Hc by done.
    assert (an = ConditionTrue) as ->.
    { apply Hh. split; [|done]. destruct (filter (λ t, targetIsFresh t now = true) targets) as [|t k] eqn:Ef; [simpl in Hle; lia|].
      exists t. apply Hf. left. }
    rewrite (proj2 (Z.eqb_neq _ _)) by lia. rewrite bool_decide_eq_true_2 by done. simpl.
    rewrite (proj2 (Z.eqb_neq ready 0)) by lia. by rewrite (proj2 (Z.ltb_ge ready (fa_matchedTargets facts))) by lia.
Qed.

(** *** Which nodes reported *)

Definition on_node (f : str → str) (t : TargetStatus) : TargetStatus :=
  mkTargetStatus (f (tgt_NodeName t)) (tgt_Interface t) (tgt_PodRef t) (tgt_ReporterInstance t) (tgt_HeartbeatTime t)
    (tgt_LastPacketTime t) (tgt_PacketsObserved t) (tgt_KernelDrops t) (tgt_BytesObserved t) (tgt_Duplication t)
    (tgt_RejectedRecords t) (tgt_Analyzers t).

Definition on_nodes (f : str → str) (s : NetworkTapStatus) : NetworkTapStatus :=
  mkNetworkTapStatus (nts_ObservedGeneration s) (nts_Phase s) (nts_MatchedTargets s) (nts_ReadyTargets s)
    (nts_LastPacketTime s) (on_node f <$> nts_Targets s) (nts_Conditions s).

Lemma summarize_on_node f (targets : list TargetStatus) now : summarizeTargetStatus (on_node f <$> targets) now = summarizeTargetStatus targets now.
Proof.
  unfold summarizeTargetStatus. generalize (0, @None time). induction targets as [|t targets IH]; [done|].
  intros [r l]. rewrite fmap_cons. apply IH.
Qed.

Lemma filter_on_node f (targets : list TargetStatus) now :
  filter (λ t, targetIsFresh t now = true) (on_node f <$> targets) = on_node f <$> filter (λ t, targetIsFresh t now = true) targets.
Proof.
  induction targets as [|t targets IH]; [done|]. rewrite fmap_cons, !filter_cons, IH.
  change (targetIsFresh (on_node f t) now) with (targetIsFresh t now). by destruct (decide _).
Qed.

Lemma health_on_node f (targets : list TargetStatus) now :
  (projectedAnalyzerHealth (on_node f <$> targets) now).1 = (projectedAnalyzerHealth targets now).1.
Proof.
  unfold projectedAnalyzerHealth. rewrite filter_on_node. set (fresh := filter _ targets).
  assert (∀ l : list TargetStatus, bool_decide (on_node f <$> l = []) = bool_decide (l = [])) as Hnil.
  { intros l. apply bool_decide_ext. split; [by intros ?%fmap_nil_inv|by intros ->]. }
  rewrite !Hnil. destruct (bool_decide (targets = [])); [done|].
  assert (concat (unhealthy_of <$> (on_node f <$> fresh)) = [] ↔ concat (unhealthy_of <$> fresh) = []) as Hu.
  { rewrite !unhealthy_nil. split.
    - intros Hall t a Ht Ha. apply (Hall (on_node f t)); [by apply list_elem_of_fmap_2|done].
    - intros Hall t a (t' & -> & Ht')%list_elem_of_fmap Ha. by apply (Hall t'). }
  assert (existsb (λ t, bool_decide (tgt_Analyzers t = [])) (on_node f <$> fresh) =
          existsb (λ t, bool_decide (tgt_Analyzers t = [])) fresh) as ->.
  { clear. induction fresh as [|t l IH]; [done|]. rewrite fmap_cons. simpl. by rewrite IH. }
  destruct (concat (unhealthy_of <$> (on_node f <$> fresh))), (concat (unhealthy_of <$> fresh)); try naive_solver.
Qed.

(** The phase does not ask which nodes reported.  Renaming the nodes of the
    reports in any way leaves the phase and the number of ready targets as they
    are: a fresh report of a node the selector no longer matches stands in for
    one it does match, and a tap with two matched nodes of which one never
    reported is Active. *)
Theorem phase_ignores_nodes rfc3339 f current facts :
  let s := projectNetworkTapStatus rfc3339 current facts in
  let s' := projectNetworkTapStatus rfc3339 (on_nodes f current) facts in
  nts_Phase s' = nts_Phase s ∧ nts_ReadyTargets s' = nts_ReadyTargets s ∧ nts_MatchedTargets s' = nts_MatchedTargets s.
Proof.
  cbv zeta. unfold projectNetworkTapStatus, on_nodes. cbn [nts_Targets nts_Conditions].
  rewrite summarize_on_node. destruct (summarizeTargetStatus (nts_Targets current) (fa_now facts)) as [ready last].
  cbn [nts_Phase nts_ReadyTargets nts_MatchedTargets]. by rewrite health_on_node.
Qed.

(** ** Witnesses *)

Definition example_target (node : str) (heartbeat : time) : TargetStatus :=
  mkTargetStatus node "eth0" None "pod-1" heartbeat (Some heartbeat) 10 None None DuplicationUnknown 0
    [mkAnalyzerStatus AnalyzerZeek true "" None None "" ""].

Definition example_status : NetworkTapStatus :=
  mkNetworkTapStatus 0 TapPhaseUnset 0 0 None [example_target "node-a" (10 * second); example_target "node-b" (40 * second)] [].

Definition example_facts : networkTapStatusFacts := mkFacts 1 2 ConditionTrue "workload ready" (50 * second).

Lemma projection_settles_witness :
  nextHeartbeatExpiry (nts_Targets example_status) (50 * second) = 50 * second ∧
  let s := projectNetworkTapStatus (λ _, "") example_status example_facts in
  nts_Phase s = TapPhaseActive ∧
  projectNetworkTapStatus (λ _, "") s (mkFacts 1 2 ConditionTrue "workload ready" (99 * second)) = s.
Proof.
  split; [reflexivity|]. split; [reflexivity|].
  apply (projection_settles (λ _, "") example_status example_facts (99 * second)); [vm_compute; discriminate|].
  right. vm_compute. reflexivity.
Defined.

Lemma Active_spec_witness :
  nts_Phase (projectNetworkTapStatus (λ _, "") example_status example_facts) = TapPhaseActive ∧
  2 ≤ Z.of_nat (length (filter (λ t, targetIsFresh t (50 * second) = true) (nts_Targets example_status))).
Proof.
  assert (nts_Phase (projectNetworkTapStatus (λ _, "") example_status example_facts) = TapPhaseActive) as Ha by reflexivity.
  split; [exact Ha|]. apply (Active_spec (λ _, "") example_status example_facts) in Ha as ((_ & Hle) & _); [exact Hle|..];
    vm_compute; discriminate.
Defined.

End TapStatus.
