(* ===== verification/Protocol.v ===== *)
(** * The runner/reporter progress protocol, internal/capture/protocol.go

    The progress directory is what the reader's system calls answer about each
    entry; the writer's view of it is a map from file names to contents, with
    every system call free to fail.  [json.Marshal] and the strict decoder are
    the arguments [encode] and [decode].  [ReadRecords] filters its slice in
    place ([kept := recs[:0]]), so the array under both slices is explicit. *)

From Stdlib Require Import Sorted.
From S2P Require Import Prelude GoTime GoString Api Sanitize.

Module Protocol.

Definition ProgressSchemaVersion : str := "trawl.capture-progress/v1".
Definition MaxRecordBytes : Z := 16384.
Definition MaxRecordFiles : Z := 16.

Abbreviation RecordKind := str (only parsing).
Definition RecordFilter : RecordKind := "filter".
Definition RecordStarted : RecordKind := "started".
Definition RecordEnded : RecordKind := "ended".
Definition RecordResult : RecordKind := "result".

Definition recordFiles : list (RecordKind * str) :=
  [(RecordFilter, "01-filter.json"); (RecordStarted, "02-started.json");
   (RecordEnded, "03-ended.json"); (RecordResult, "09-result.json")].

Definition recordSeq : list (RecordKind * Z) :=
  [(RecordFilter, 1); (RecordStarted, 2); (RecordEnded, 3); (RecordResult, 9)].

(** A Go map literal's lookup. *)
Fixpoint map_get {A} (m : list (str * A)) (k : str) : option A :=
  match m with
  | [] => None
  | (k', v) :: m' => if bool_decide (k' = k) then Some v else map_get m' k
  end.

Definition SeqFor (k : RecordKind) : Z := default 0 (map_get recordSeq k).
Definition RecordFileName (k : RecordKind) : str := default "" (map_get recordFiles k).

Record Fields := mkFields {
  f_Interface : str;
  f_StartedAt : option time;
  f_EndedAt : option time;
  f_StopReason : str;
  f_PacketCount : option Z;
  f_SizeBytes : option Z;
  f_Outcome : str;
  f_Reason : str;
  f_SHA256 : str;
  f_ExitCode : option Z;
  f_Message : str;
}.

(** Called [Record] in the source. *)
Record Record_ := mkRecord {
  rec_SchemaVersion : str;
  rec_Kind : RecordKind;
  rec_Seq : Z;
  rec_CaptureJobUID : str;
  rec_RecordedAt : time;
  rec_RunnerInstance : str;
  rec_Fields : Fields;
}.

Record Problem := mkProblem { p_File : str; p_Reason : str }.

(** ** Writing *)

Record RecordWriter := mkRecordWriter {
  w_CaptureJobUID : str;
  w_RunnerInstance : str;
  w_Now : time;
}.

(** The progress directory as the writer sees it. *)
Abbreviation directory := (gmap string string) (only parsing).

(** Which system calls of one [Write] fail; a failed write leaves the bytes it
    got to. *)
Record faults := mkFaults {
  flt_create : bool;
  flt_write : option nat;
  flt_sync : bool;
  flt_close : bool;
  flt_rename : bool;
  flt_remove : bool;
  flt_syncdir : bool;
}.

(** [os.Remove] of the temporary file, its error ignored. *)
Definition remove_tmp (flt : faults) (tmp : str) (dir : directory) : directory :=
  if flt_remove flt then dir else delete tmp dir.

Definition with_message (f : Fields) (msg : str) : Fields :=
  mkFields (f_Interface f) (f_StartedAt f) (f_EndedAt f) (f_StopReason f) (f_PacketCount f)
    (f_SizeBytes f) (f_Outcome f) (f_Reason f) (f_SHA256 f) (f_ExitCode f) msg.

Definition new_record (w : RecordWriter) (kind : RecordKind) (fields : Fields) : Record_ :=
  {| rec_SchemaVersion := ProgressSchemaVersion;
     rec_Kind := kind;
     rec_Seq := SeqFor kind;
     rec_CaptureJobUID := w_CaptureJobUID w;
     rec_RecordedAt := w_Now w;
     rec_RunnerInstance := w_RunnerInstance w;
     rec_Fields := with_message fields (Sanitize.String_ (f_Message fields)) |}.

(** [Write]: the error or success, and every state of the directory from the
    first change on, the last one being where the call leaves it; a crash
    leaves one of the others. *)
Definition Write (encode : Record_ → option str) (w : RecordWriter) (flt : faults)
    (kind : RecordKind) (fields : Fields) (dir : directory) : result str unit * list directory :=
  match map_get recordFiles kind with
  | None => (Err "unknown record kind", [])
  | Some name =>
      match encode (new_record w kind fields) with
      | None => (Err "marshal", [])
      | Some raw =>
          let final := name in
          if is_Some_b (dir !! final) then (Err ("record " +:+ name +:+ " already written"), []) else
          let tmp := final +:+ ".tmp" in
          if flt_create flt || is_Some_b (dir !! tmp) then (Err "open", []) else
          let created := <[tmp := ""]> dir in
          match flt_write flt with
          | Some n =>
              let partial := <[tmp := str_take n raw]> dir in
              (Err "write", [created; partial; remove_tmp flt tmp partial])
          | None =>
              let written := <[tmp := raw]> dir in
              if flt_sync flt then (Err "sync", [created; written; remove_tmp flt tmp written]) else
              if flt_close flt then (Err "close", [created; written; remove_tmp flt tmp written]) else
              if flt_rename flt then (Err "rename", [created; written; remove_tmp flt tmp written]) else
              let renamed := <[final := raw]> (delete tmp written) in
              if flt_syncdir flt then (Err "syncdir", [created; written; renamed])
              else (Ok tt, [created; written; renamed])
          end
      end
  end.

(** ** Reading *)

(** What [Lstat], [OpenFile] and [ReadAll] answer about one entry. *)
Record dir_entry := mkDirEntry {
  e_Name : str;
  e_Lstat : option (bool * Z);
  e_Open : bool;
  e_Read : option str;
}.

Fixpoint kind_for (files : list (RecordKind * str)) (name : str) : option RecordKind :=
  match files with
  | [] => None
  | (k, f) :: rest => if bool_decide (f = name) then Some k else kind_for rest name
  end.

Definition kindForFile (name : str) : option RecordKind := kind_for recordFiles name.

Definition sanitize_record (rec : Record_) : Record_ :=
  let f := rec_Fields rec in
  {| rec_SchemaVersion := rec_SchemaVersion rec;
     rec_Kind := rec_Kind rec;
     rec_Seq := rec_Seq rec;
     rec_CaptureJobUID := Sanitize.String_ (rec_CaptureJobUID rec);
     rec_RecordedAt := rec_RecordedAt rec;
     rec_RunnerInstance := Sanitize.String_ (rec_RunnerInstance rec);
     rec_Fields :=
       {| f_Interface := Sanitize.String_ (f_Interface f);
          f_StartedAt := f_StartedAt f;
          f_EndedAt := f_EndedAt f;
          f_StopReason := Sanitize.String_ (f_StopReason f);
          f_PacketCount := f_PacketCount f;
          f_SizeBytes := f_SizeBytes f;
          f_Outcome := Sanitize.String_ (f_Outcome f);
          f_Reason := Sanitize.String_ (f_Reason f);
          f_SHA256 := Sanitize.String_ (f_SHA256 f);
          f_ExitCode := f_ExitCode f;
          f_Message := Sanitize.String_ (f_Message f) |} |}.

Definition readRecord (decode : str → option Record_) (e : dir_entry) : result str Record_ :=
  match e_Lstat e with
  | None => Err "cannot stat"
  | Some (regular, size) =>
      if negb regular then Err "not a regular file" else
      if MaxRecordBytes <? size then Err "record too large" else
      if negb (e_Open e) then Err "cannot open" else
      match e_Read e with
      | None => Err "cannot read"
      | Some content =>
          let raw := str_take (Z.to_nat (MaxRecordBytes + 1)) content in
          if MaxRecordBytes <? slen raw then Err "record too large" else
          match decode raw with
          | None => Err "malformed record"
          | Some rec =>
              if bool_decide (rec_SchemaVersion rec = ProgressSchemaVersion)
              then Ok (sanitize_record rec) else Err "unsupported schema version"
          end
      end
  end.

(** One iteration of the first loop: the record, or why it was refused. *)
Definition admit_entry (decode : str → option Record_) (uid : str) (e : dir_entry) :
    result Problem Record_ :=
  match kindForFile (e_Name e) with
  | None => Err (mkProblem (e_Name e) "not a record file")
  | Some kind =>
      match readRecord decode e with
      | Err perr => Err (mkProblem (e_Name e) perr)
      | Ok rec =>
          if negb (bool_decide (rec_Kind rec = kind)) || negb (rec_Seq rec =? SeqFor kind)
          then Err (mkProblem (e_Name e) "kind or seq does not match file name") else
          if negb (bool_decide (rec_CaptureJobUID rec = uid))
          then Err (mkProblem (e_Name e) "record belongs to another capture")
          else Ok rec
      end
  end.

Fixpoint read_entries (decode : str → option Record_) (uid : str) (seen : Z)
    (entries : list dir_entry) : list Record_ * list Problem :=
  match entries with
  | [] => ([], [])
  | e :: rest =>
      let seen := seen + 1 in
      if MaxRecordFiles <? seen then ([], [mkProblem "" "too many files"]) else
      let '(recs, problems) := read_entries decode uid seen rest in
      match admit_entry decode uid e with
      | Ok rec => (rec :: recs, problems)
      | Err p => (recs, p :: problems)
      end
  end.

(** [slices.SortFunc] by sequence number; the numbers are distinct, so the
    order is the only one. *)
Fixpoint insert_by_seq (r : Record_) (l : list Record_) : list Record_ :=
  match l with
  | [] => [r]
  | x :: l' => if rec_Seq r - rec_Seq x <=? 0 then r :: x :: l' else x :: insert_by_seq r l'
  end.

Fixpoint sort_by_seq (l : list Record_) : list Record_ :=
  match l with [] => [] | r :: l' => insert_by_seq r (sort_by_seq l') end.

Definition has (array : list Record_) (k : RecordKind) : bool :=
  existsb (λ r, bool_decide (rec_Kind r = k)) array.

(** The second loop, at index [i] of [array] with [n] records kept in its
    first [n] cells: [r] is read from the array, [has] looks at the array as
    it is now, and [append] writes cell [n]. *)
Fixpoint keep_loop (todo i n : nat) (array : list Record_) (problems : list Problem) :
    list Record_ * list Problem :=
  match todo with
  | O => (take n array, problems)
  | S todo' =>
      match array !! i with
      | None => (take n array, problems)
      | Some r =>
          if bool_decide (rec_Kind r = RecordStarted) && negb (has array RecordFilter) then
            keep_loop todo' (S i) n array
              (problems ++ [mkProblem (RecordFileName (rec_Kind r)) "started without filter"])
          else if bool_decide (rec_Kind r = RecordEnded) && negb (has array RecordStarted) then
            keep_loop todo' (S i) n array
              (problems ++ [mkProblem (RecordFileName (rec_Kind r)) "ended without started"])
          else keep_loop todo' (S i) (S n) (<[n := r]> array) problems
      end
  end.

(** [ReadRecords]; a directory that cannot be listed is [None]. *)
Definition ReadRecords (decode : str → option Record_) (dir : option (list dir_entry))
    (captureJobUID : str) : list Record_ * list Problem :=
  match dir with
  | None => ([], [])
  | Some entries =>
      let '(recs, problems) := read_entries decode captureJobUID 0 entries in
      let recs := sort_by_seq recs in
      keep_loop (length recs) 0 0 recs problems
  end.

(** ** Lemmas: the entries *)

Definition admitted (decode : str → option Record_) (uid : str) (e : dir_entry) : option Record_ :=
  match admit_entry decode uid e with Ok r => Some r | Err _ => None end.

Lemma read_entries_spec decode uid entries seen :
  0 ≤ seen ≤ MaxRecordFiles →
  let '(recs, problems) := read_entries decode uid seen entries in
  let budget := Z.to_nat (MaxRecordFiles - seen) in
  recs = omap (admitted decode uid) (take budget entries) ∧
  (length recs + length problems = Nat.min (length entries) (S budget))%nat.
Proof.
  unfold MaxRecordFiles. revert seen. induction entries as [|e entries IH]; intros seen Hs.
  { simpl. by rewrite take_nil. }
  cbn [read_entries]. unfold MaxRecordFiles. destruct (Z.ltb_spec 16 (seen + 1)).
  { assert (Z.to_nat (16 - seen) = 0%nat) as -> by lia. simpl. split; [done|lia]. }
  specialize (IH (seen + 1) ltac:(lia)). destruct (read_entries _ _ _ _) as [recs problems].
  assert (Z.to_nat (16 - seen) = S (Z.to_nat (16 - (seen + 1)))) as -> by lia.
  destruct IH as [-> IH]. rewrite firstn_cons. cbn [omap list_omap length].
  assert (admitted decode uid e = match admit_entry decode uid e with Ok r => Some r | Err _ => None end)
    as -> by done.
  destruct (admit_entry decode uid e); cbn [length]; (split; [done|lia]).
Qed.

(** Kind and sequence number agree with the tables. *)
Definition well_numbered (r : Record_) : Prop := (rec_Kind r, rec_Seq r) ∈ recordSeq.

Lemma kind_for_file name k :
  kindForFile name = Some k → RecordFileName k = name ∧ (k, SeqFor k) ∈ recordSeq.
Proof.
  unfold kindForFile, recordFiles. cbn [kind_for].
  repeat case_bool_decide; intros; simplify_eq; (split; [reflexivity|]);
    apply (bool_decide_unpack _); vm_compute; done.
Qed.

Lemma admit_entry_Ok decode uid e r :
  admit_entry decode uid e = Ok r →
  well_numbered r ∧ RecordFileName (rec_Kind r) = e_Name e ∧ rec_CaptureJobUID r = uid ∧
  readRecord decode e = Ok r.
Proof.
  unfold admit_entry, well_numbered. destruct (kindForFile _) as [k|] eqn:Ek; [|done].
  destruct (readRecord decode e) as [rec|] eqn:Er; [|done].
  case_bool_decide as Hk; [|done]. destruct (Z.eqb_spec (rec_Seq rec) (SeqFor k)) as [Hq|]; [|done].
  case_bool_decide; [|done]. intros [= <-].
  apply kind_for_file in Ek as [Hn Hin]. by rewrite Hk, Hq.
Qed.

Lemma omap_NoDup_kinds decode uid entries :
  NoDup (e_Name <$> entries) →
  NoDup (rec_Kind <$> omap (admitted decode uid) entries) ∧
  ∀ r, r ∈ omap (admitted decode uid) entries → RecordFileName (rec_Kind r) ∈ e_Name <$> entries.
Proof.
  induction entries as [|e entries IH]; [split; [constructor|set_solver]|].
  rewrite fmap_cons, NoDup_cons. intros [Hnot Hnd]. destruct (IH Hnd) as [IH1 IH2].
  cbn [omap list_omap].
  assert (admitted decode uid e = match admit_entry decode uid e with Ok r => Some r | Err _ => None end)
    as -> by done.
  destruct (admit_entry decode uid e) as [r|] eqn:Ea.
  - apply admit_entry_Ok in Ea as (_ & Hf & _ & _). rewrite fmap_cons, NoDup_cons. split_and!.
    + intros (r' & Hk & Hr')%list_elem_of_fmap. apply Hnot. rewrite <-Hf, Hk. by apply IH2.
    + done.
    + intros r' [->|Hr']%elem_of_cons; [rewrite Hf; left|right; by apply IH2].
  - split; [done|]. intros r' Hr'. right. by apply IH2.
Qed.

Lemma take_bound content :
  slen (str_take (Z.to_nat (MaxRecordBytes + 1)) content) ≤ MaxRecordBytes →
  slen content ≤ MaxRecordBytes.
Proof. unfold slen, MaxRecordBytes. rewrite str_take_length. lia. Qed.

(** The file name decides kind and number of a well-numbered record. *)
Lemma numbered_file r k :
  well_numbered r → RecordFileName (rec_Kind r) = RecordFileName k → is_Some (map_get recordFiles k) →
  rec_Kind r = k ∧ rec_Seq r = SeqFor k.
Proof.
  unfold well_numbered, recordSeq. destruct r as [? k' q ? ? ? ?]. cbn [rec_Kind rec_Seq].
  rewrite !elem_of_cons, elem_of_nil. intros Hk Hf [f Hm]. revert Hm Hf.
  unfold RecordFileName at 2. unfold recordFiles. cbn [map_get].
  destruct_or!; simplify_eq; repeat case_bool_decide; intros; simplify_eq; done.
Qed.

(** ** Lemmas: the sort *)

Lemma insert_by_seq_perm r l : insert_by_seq r l ≡ₚ r :: l.
Proof.
  induction l as [|x l IH]; [done|]. simpl. destruct (_ <=? 0); [done|].
  rewrite IH. apply perm_swap.
Qed.

Lemma sort_by_seq_perm l : sort_by_seq l ≡ₚ l.
Proof. induction l as [|r l IH]; [done|]. simpl. by rewrite insert_by_seq_perm, IH. Qed.

Definition seq_le (a b : Record_) : Prop := rec_Seq a ≤ rec_Seq b.

Lemma insert_by_seq_sorted r l :
  StronglySorted seq_le l → StronglySorted seq_le (insert_by_seq r l).
Proof.
  induction 1 as [|x l Hs IH Hx]; simpl; [by repeat constructor|].
  destruct (Z.leb_spec (rec_Seq r - rec_Seq x) 0) as [Hle|Hgt].
  - constructor; [by constructor|]. constructor; [unfold seq_le; lia|].
    eapply Forall_impl; [exact Hx|]. unfold seq_le. intros; lia.
  - constructor; [done|]. rewrite insert_by_seq_perm. constructor; [unfold seq_le; lia|done].
Qed.

Lemma sort_by_seq_sorted l : StronglySorted seq_le (sort_by_seq l).
Proof. induction l; simpl; [constructor|]. by apply insert_by_seq_sorted. Qed.

(** ** Lemmas: the shape of a sorted set of records *)

Definition all_kinds : list RecordKind := [RecordFilter; RecordStarted; RecordEnded; RecordResult].
Definition kind_lt (a b : RecordKind) : Prop := SeqFor a < SeqFor b.

Lemma sorted_sublist {A} (R : A → A → Prop) l k :
  (∀ a, ¬ R a a) → (∀ a b c, R a b → R b c → R a c) →
  StronglySorted R l → StronglySorted R k → (∀ x, x ∈ l → x ∈ k) → sublist l k.
Proof.
  intros Hirr Htr Hl Hk. revert l Hl. induction Hk as [|x k Hk IH Hx]; intros l Hl Hin.
  - destruct l as [|y l]; [constructor|]. specialize (Hin y ltac:(left)). set_solver.
  - destruct Hl as [|y l Hl Hy]; [apply sublist_nil_l|].
    rewrite Forall_forall in Hx, Hy.
    destruct (proj1 (elem_of_cons _ _ _) (Hin y ltac:(left))) as [->|Hyk].
    + apply sublist_skip, IH; [done|]. intros z Hz.
      destruct (proj1 (elem_of_cons _ _ _) (Hin z ltac:(by right))) as [->|Hz']; [|done].
      by destruct (Hirr x (Hy x Hz)).
    + apply sublist_cons, IH; [by constructor; [|apply Forall_forall]|].
      intros z Hz. destruct (proj1 (elem_of_cons _ _ _) (Hin z Hz)) as [->|Hz']; [|done].
      apply elem_of_cons in Hz as [->|Hz]; [done|].
      destruct (Hirr x). eapply Htr; [by apply Hx|by apply Hy].
Qed.

(** Every list of valid records, once sorted, has its kinds in table order. *)
Lemma sorted_kinds l :
  Forall well_numbered l → NoDup (rec_Kind <$> l) → StronglySorted seq_le l →
  sublist (rec_Kind <$> l) all_kinds.
Proof.
  intros Hwf Hnd Hs.
  assert (∀ r, well_numbered r → rec_Seq r = SeqFor (rec_Kind r) ∧ rec_Kind r ∈ all_kinds ∧
    (∀ r', well_numbered r' → rec_Seq r = rec_Seq r' → rec_Kind r = rec_Kind r')) as Hk.
  { unfold well_numbered, recordSeq, all_kinds. intros [? k q ? ? ? ?] Hr. cbn [rec_Kind rec_Seq] in *.
    rewrite !elem_of_cons, elem_of_nil in Hr. destruct_or!; simplify_eq;
      (split_and!; [done|set_solver|]); intros [? k' q' ? ? ? ?] Hr'; cbn [rec_Kind rec_Seq] in *;
      rewrite !elem_of_cons, elem_of_nil in Hr'; destruct_or!; simplify_eq; done. }
  apply (sorted_sublist kind_lt); unfold kind_lt; [intros; lia..| | |].
  - induction Hs as [|r l Hs IH Hr]; [constructor|].
    apply Forall_cons in Hwf as [Hwr Hwf]. rewrite fmap_cons in *. apply NoDup_cons in Hnd as [Hnot Hnd].
    constructor; [by apply IH|]. apply Forall_fmap, Forall_forall. intros r' Hin. simpl.
    rewrite Forall_forall in Hr, Hwf. pose proof (Hr r' Hin) as Hle. unfold seq_le in Hle.
    destruct (Hk r Hwr) as (Hq & _ & Hinj), (Hk r' (Hwf r' Hin)) as (Hq' & _ & _).
    destruct (decide (rec_Seq r = rec_Seq r')) as [E|]; [|lia].
    destruct Hnot. rewrite (Hinj r' (Hwf r' Hin) E). apply list_elem_of_fmap. by exists r'.
  - repeat constructor; vm_compute; done.
  - intros k (r & -> & Hin)%list_elem_of_fmap. rewrite Forall_forall in Hwf. by apply Hk, Hwf.
Qed.

(** The pure reading of the second loop: predecessors are looked for in the
    records as they were read. *)
Definition has_predecessor (valid : list Record_) (r : Record_) : bool :=
  negb (bool_decide (rec_Kind r = RecordStarted) && negb (has valid RecordFilter)) &&
  negb (bool_decide (rec_Kind r = RecordEnded) && negb (has valid RecordStarted)).

Lemma sublist_option {A B} (f : A → B) l k ks :
  sublist (f <$> l) (k :: ks) →
  ∃ o l', l = option_list o ++ l' ∧ (∀ x, o = Some x → f x = k) ∧ sublist (f <$> l') ks.
Proof.
  intros Hs. inversion Hs as [|? ? ? Hs' Heq|? ? ? Hs']; subst.
  - destruct l as [|x l]; simplify_eq/=. exists (Some x), l. split_and!; [done| |done].
    by intros ? [= <-].
  - by exists None, l.
Qed.

Lemma keep_loop_pure l :
  sublist (rec_Kind <$> l) all_kinds →
  (keep_loop (length l) 0 0 l []).1 = List.filter (has_predecessor l) l.
Proof.
  intros Hs. unfold all_kinds in Hs.
  apply sublist_option in Hs as (f & l1 & -> & Hf & Hs).
  apply sublist_option in Hs as (s & l2 & -> & Hst & Hs).
  apply sublist_option in Hs as (e & l3 & -> & He & Hs).
  apply sublist_option in Hs as (r & l4 & -> & Hr & Hs).
  apply sublist_nil_r, fmap_nil_inv in Hs as ->.
  destruct f as [f|], s as [s|], e as [e|], r as [r|];
    rewrite ?(Hf _ eq_refl), ?(Hst _ eq_refl), ?(He _ eq_refl), ?(Hr _ eq_refl);
    unfold has_predecessor; simpl;
    rewrite ?(Hf _ eq_refl), ?(Hst _ eq_refl), ?(He _ eq_refl), ?(Hr _ eq_refl); reflexivity.
Qed.

Lemma keep_loop_problems todo i n array ps qs :
  keep_loop todo i n array (ps ++ qs) =
  let '(kept, problems) := keep_loop todo i n array qs in (kept, ps ++ problems).
Proof.
  revert i n array qs. induction todo as [|todo IH]; intros i n array qs; [done|].
  cbn [keep_loop]. destruct (array !! i); [|done].
  rewrite <-!(assoc_L (++)), !IH. by repeat case_match.
Qed.

(** Every record is kept or becomes one problem. *)
Lemma keep_loop_count todo i n array ps :
  (n ≤ i)%nat → (i + todo = length array)%nat →
  let '(kept, problems) := keep_loop todo i n array ps in
  (length kept + length problems = n + todo + length ps)%nat.
Proof.
  revert i n array ps. induction todo as [|todo IH]; intros i n array ps Hn Hi; cbn [keep_loop].
  - rewrite length_take. lia.
  - destruct (lookup_lt_is_Some_2 array i ltac:(lia)) as [r ->].
    assert (∀ p, let '(kept, problems) := keep_loop todo (S i) n array (ps ++ [p]) in
      (length kept + length problems = n + S todo + length ps)%nat) as Hdrop.
    { intros p. specialize (IH (S i) n array (ps ++ [p]) ltac:(lia) ltac:(lia)).
      rewrite length_app in IH. simpl in IH. destruct (keep_loop _ _ _ _ _). lia. }
    specialize (IH (S i) (S n) (<[n := r]> array) ps ltac:(lia)). rewrite length_insert in IH.
    specialize (IH ltac:(lia)).
    destruct (bool_decide _ && negb (has array RecordFilter)); [apply Hdrop|].
    destruct (bool_decide _ && negb (has array RecordStarted)); [apply Hdrop|].
    destruct (keep_loop _ _ _ _ _). lia.
Qed.

(** What the reader accepts of one directory, before the predecessor check. *)
Definition valid_records (decode : str → option Record_) (uid : str) (entries : list dir_entry) :
    list Record_ :=
  sort_by_seq (omap (admitted decode uid) (take (Z.to_nat MaxRecordFiles) entries)).

Lemma ReadRecords_unfold decode uid entries :
  NoDup (e_Name <$> entries) →
  let valid := valid_records decode uid entries in
  let '(kept, problems) := ReadRecords decode (Some entries) uid in
  kept = List.filter (has_predecessor valid) valid ∧
  (length kept + length problems = Nat.min (length entries) 17)%nat ∧
  Forall well_numbered valid ∧ NoDup (rec_Kind <$> valid) ∧ StronglySorted seq_le valid.
Proof.
  intros Hnd valid. unfold ReadRecords.
  pose proof (read_entries_spec decode uid entries 0 ltac:(unfold MaxRecordFiles; lia)) as Hr.
  destruct (read_entries decode uid 0 entries) as [recs problems]. destruct Hr as [-> Hlen].
  change (MaxRecordFiles - 0) with MaxRecordFiles in *.
  fold (valid_records decode uid entries). fold valid.
  assert (length valid = length (omap (admitted decode uid) (take (Z.to_nat MaxRecordFiles) entries))) as Hv
    by (unfold valid, valid_records; by rewrite sort_by_seq_perm).
  assert (NoDup (e_Name <$> take (Z.to_nat MaxRecordFiles) entries)) as Hnd'.
  { eapply sublist_NoDup; [exact Hnd|]. apply fmap_sublist, sublist_take. }
  assert (NoDup (rec_Kind <$> valid)) as Hk.
  { unfold valid, valid_records. rewrite sort_by_seq_perm. by apply omap_NoDup_kinds. }
  assert (Forall well_numbered valid) as Hw.
  { unfold valid, valid_records. rewrite sort_by_seq_perm. apply Forall_forall.
    intros r (e & _ & He)%list_elem_of_omap. unfold admitted in He.
    destruct (admit_entry _ _ _) eqn:Ea; simplify_eq.
    by apply admit_entry_Ok in Ea as (? & _). }
  pose proof (sort_by_seq_sorted (omap (admitted decode uid) (take (Z.to_nat MaxRecordFiles) entries))) as Hs.
  fold (valid_records decode uid entries) in Hs. fold valid in Hs.
  pose proof (keep_loop_pure valid (sorted_kinds valid Hw Hk Hs)) as Hpure.
  pose proof (keep_loop_count (length valid) 0 0 valid [] ltac:(lia) ltac:(lia)) as Hcount.
  rewrite <-(app_nil_r problems), keep_loop_problems.
  destruct (keep_loop (length valid) 0 0 valid []) as [kept ps]. simpl in *.
  rewrite length_app. split_and!; [done| |done..].
  change (Z.to_nat MaxRecordFiles) with 16%nat in *. rewrite <-Hv in Hlen. lia.
Qed.

(** ** Lemmas: the writer *)

Definition tmp_name (kind : RecordKind) : str := RecordFileName kind +:+ ".tmp".

(** The states a write passes through. *)
Inductive write_state (encode : Record_ → option str) (w : RecordWriter) (kind : RecordKind)
    (fields : Fields) (dir : directory) : directory → Prop :=
  | write_tmp v : write_state encode w kind fields dir (<[tmp_name kind := v]> dir)
  | write_removed v :
      write_state encode w kind fields dir (delete (tmp_name kind) (<[tmp_name kind := v]> dir))
  | write_renamed raw :
      dir !! RecordFileName kind = None → encode (new_record w kind fields) = Some raw →
      write_state encode w kind fields dir
        (<[RecordFileName kind := raw]> (delete (tmp_name kind) (<[tmp_name kind := raw]> dir))).

Lemma map_get_files kind :
  map_get recordFiles kind = None ∨ map_get recordFiles kind = Some (RecordFileName kind).
Proof. unfold RecordFileName. destruct (map_get recordFiles kind); auto. Qed.

Lemma Write_states encode w flt kind fields dir :
  let '(res, states) := Write encode w flt kind fields dir in
  Forall (write_state encode w kind fields dir) states ∧
  (res = Ok tt → ∃ raw, encode (new_record w kind fields) = Some raw ∧
    dir !! RecordFileName kind = None ∧
    last states = Some (<[RecordFileName kind := raw]>
      (delete (tmp_name kind) (<[tmp_name kind := raw]> dir)))) ∧
  (dir !! RecordFileName kind ≠ None → is_ok res = false ∧ states = []).
Proof.
  unfold Write. destruct (map_get_files kind) as [-> | ->]; [done|].
  destruct (encode _) as [raw|] eqn:Eenc; [|done].
  destruct (dir !! RecordFileName kind) as [old|] eqn:Ed; [done|]. simpl is_Some_b.
  fold (tmp_name kind). unfold remove_tmp. cbn match.
  repeat case_match; simplify_eq; cbn [fst snd is_ok last];
    (split; [repeat apply Forall_cons_2; first
      [apply Forall_nil_2|apply write_tmp|apply write_removed|by apply write_renamed]|]);
    (split; [|done]); intros; simplify_eq; by eexists.
Qed.

Lemma tmp_not_record kind f : f ∈ snd <$> recordFiles → f ≠ tmp_name kind.
Proof.
  unfold tmp_name. intros Hf ->. revert Hf. destruct (map_get_files kind) as [E|E].
  - unfold RecordFileName. rewrite E. apply (bool_decide_unpack _). vm_compute. done.
  - revert E. unfold RecordFileName, recordFiles. cbn [map_get].
    repeat case_bool_decide; intros E; simplify_eq; apply (bool_decide_unpack _); vm_compute; done.
Qed.

Lemma tmp_not_final kind : RecordFileName kind ≠ tmp_name kind.
Proof.
  unfold tmp_name. intros E. apply (f_equal String.length) in E.
  rewrite str_length_app in E. simpl in E. lia.
Qed.

(** ** Theorems *)

(** Writing a record is atomic and final.  Whatever system call fails and
    wherever the process stops, each record file is what it was or, if it did
    not exist before, the whole of the new record; no other file but the
    temporary one changes; success means the record is there, and a record
    once written makes any later write of that kind fail without a change. *)
Theorem Write_atomic encode w flt kind fields dir res states :
  Write encode w flt kind fields dir = (res, states) →
  (∀ d f, d ∈ states → f ∈ snd <$> recordFiles →
    d !! f = dir !! f ∨
    dir !! f = None ∧ f = RecordFileName kind ∧ d !! f = encode (new_record w kind fields)) ∧
  (∀ d f, d ∈ states → f ≠ RecordFileName kind → f ≠ RecordFileName kind +:+ ".tmp" →
    d !! f = dir !! f) ∧
  (res = Ok tt → dir !! RecordFileName kind = None ∧
    ∃ d, last states = Some d ∧ d !! RecordFileName kind = encode (new_record w kind fields) ∧
      d !! RecordFileName kind ≠ None) ∧
  (dir !! RecordFileName kind ≠ None → is_ok res = false ∧ states = []).
Proof.
  intros HW. pose proof (Write_states encode w flt kind fields dir) as Hst. rewrite HW in Hst.
  destruct Hst as (Hst & Hok & Hno). rewrite Forall_forall in Hst. fold (tmp_name kind).
  pose proof (tmp_not_final kind) as Hft. split_and!; [..|done].
  - intros d f Hd Hf. pose proof (tmp_not_record kind f Hf) as Hne.
    destruct (Hst d Hd) as [v|v|raw Hnone Henc].
    + left. by rewrite lookup_insert_ne.
    + left. by rewrite lookup_delete_ne, lookup_insert_ne.
    + destruct (decide (f = RecordFileName kind)) as [->|Hfk].
      * right. by rewrite lookup_insert_eq.
      * left. by rewrite lookup_insert_ne, lookup_delete_ne, lookup_insert_ne.
  - intros d f Hd Hf Ht. destruct (Hst d Hd) as [v|v|raw Hnone Henc];
      by rewrite ?lookup_insert_ne, ?lookup_delete_ne, ?lookup_insert_ne.
  - intros (raw & Henc & Hnone & Hl)%Hok. split; [done|]. eexists. split; [done|].
    by rewrite lookup_insert_eq, Henc.
Qed.

Definition no_faults : faults := mkFaults false None false false false false false.
Definition empty_fields : Fields :=
  mkFields "" None None "" None None "" "" "" None "".
Definition example_writer : RecordWriter := mkRecordWriter "u1" "pod-1" 5.

Lemma Write_atomic_witness :
  ∃ d, last (Write (λ _, Some "{}") example_writer no_faults RecordStarted empty_fields ∅).2 = Some d ∧
  d !! "02-started.json" = Some "{}".
Proof.
  destruct (Write_atomic (λ _, Some "{}") example_writer no_faults RecordStarted empty_fields ∅
    (Ok tt) (Write (λ _, Some "{}") example_writer no_faults RecordStarted empty_fields ∅).2)
    as (_ & _ & H & _); [vm_compute; reflexivity|].
  destruct (H eq_refl) as (_ & d & Hl & Hd & _). exists d. by split.
Defined.

(** What the reporter reads of a directory.  The records kept are those
    of the regular, bounded, well-formed files of this capture whose kind,
    sequence number and file name agree and whose predecessor was readable -
    exactly the filter of the readable records, although the loop overwrites
    the array it is reading - in sequence order, one per kind; and each of the
    first sixteen files is either a kept record or one counted problem. *)
Theorem ReadRecords_spec decode uid entries :
  NoDup (e_Name <$> entries) →
  let valid := valid_records decode uid entries in
  let '(kept, problems) := ReadRecords decode (Some entries) uid in
  kept = List.filter (has_predecessor valid) valid ∧
  (∀ r, r ∈ valid ↔ ∃ e, e ∈ take 16 entries ∧ admit_entry decode uid e = Ok r) ∧
  (∀ r, r ∈ kept → rec_CaptureJobUID r = uid ∧ (rec_Kind r, rec_Seq r) ∈ recordSeq ∧
    ∃ e size content, e ∈ entries ∧ e_Name e = RecordFileName (rec_Kind r) ∧
      e_Lstat e = Some (true, size) ∧ size ≤ MaxRecordBytes ∧
      e_Read e = Some content ∧ slen content ≤ MaxRecordBytes) ∧
  NoDup (rec_Kind <$> valid) ∧ StronglySorted seq_le valid ∧
  (length kept + length problems = Nat.min (length entries) 17)%nat.
Proof.
  intros Hnd valid. pose proof (ReadRecords_unfold decode uid entries Hnd) as H.
  destruct (ReadRecords _ _ _) as [kept problems]. fold valid in H.
  destruct H as (Hkept & Hlen & Hw & Hk & Hs).
  assert (∀ r, r ∈ valid ↔ ∃ e, e ∈ take 16 entries ∧ admit_entry decode uid e = Ok r) as Hval.
  { intros r. unfold valid, valid_records. rewrite sort_by_seq_perm, list_elem_of_omap.
    change (Z.to_nat MaxRecordFiles) with 16%nat. unfold admitted.
    split; intros (e & He & Ha); exists e; (split; [done|]); [|by rewrite Ha].
    destruct (admit_entry _ _ _); by simplify_eq. }
  split_and!; try done. intros r Hr. subst kept.
  apply list_elem_of_In, filter_In in Hr as [Hr _]. apply list_elem_of_In in Hr.
  apply Hval in Hr as (e & He & (Hnum & Hfile & Hu & Hread)%admit_entry_Ok).
  split_and!; [done|done|]. exists e. unfold readRecord in Hread.
  destruct (e_Lstat e) as [[[] size]|]; [|discriminate..]. cbn [negb] in Hread.
  destruct (Z.ltb_spec MaxRecordBytes size); [discriminate|].
  destruct (e_Open e); [|discriminate]. cbn [negb] in Hread.
  destruct (e_Read e) as [content|]; [|discriminate].
  destruct (Z.ltb_spec MaxRecordBytes (slen (str_take (Z.to_nat (MaxRecordBytes + 1)) content))) as [|Hle];
    [discriminate|].
  exists size, content. apply list_elem_of_lookup in He as (i & Hi).
  apply lookup_take_Some in Hi as [Hi _].
  split_and!; [by eapply list_elem_of_lookup_2|done..|lia|done|by apply take_bound].
Qed.

(** A capture whose filter and started records were read back. *)
Definition example_record (kind : RecordKind) : Record_ :=
  mkRecord ProgressSchemaVersion kind (SeqFor kind) "u1" 5 "pod-1" empty_fields.

Definition example_decode (raw : str) : option Record_ := Some (example_record raw).

Definition example_entry (kind : RecordKind) : dir_entry :=
  mkDirEntry (RecordFileName kind) (Some (true, 20)) true (Some kind).

Lemma ReadRecords_spec_witness :
  (ReadRecords example_decode (Some [example_entry RecordFilter; example_entry RecordStarted]) "u1").1 =
  [example_record RecordFilter; example_record RecordStarted].
Proof.
  pose proof (ReadRecords_spec example_decode "u1" [example_entry RecordFilter; example_entry RecordStarted]) as H.
  destruct (ReadRecords example_decode _ "u1") as [kept problems] eqn:E.
  destruct H as (Hk & _); [apply (bool_decide_unpack _); vm_compute; done|]. simpl. rewrite Hk.
  vm_compute. reflexivity.
Defined.

(** The chain of predecessors is checked against what was read, not
    against what is kept: when [started] is itself refused because the filter
    record is missing, [ended] still counts it, so the reporter is handed an
    [ended] record with no [started] before it. *)
Theorem ended_without_started decode uid started ended :
  admit_entry decode uid (example_entry RecordStarted) = Ok started →
  admit_entry decode uid (example_entry RecordEnded) = Ok ended →
  ReadRecords decode (Some [example_entry RecordStarted; example_entry RecordEnded]) uid =
    ([ended], [mkProblem "02-started.json" "started without filter"]).
Proof.
  intros Hs He. pose proof (admit_entry_Ok _ _ _ _ Hs) as (Hns & Hfs & _).
  pose proof (admit_entry_Ok _ _ _ _ He) as (Hne & Hfe & _).
  assert (rec_Kind started = RecordStarted ∧ rec_Seq started = 2) as [Hks Hqs]
    by (apply (numbered_file started RecordStarted); [done..|by eexists]).
  assert (rec_Kind ended = RecordEnded ∧ rec_Seq ended = 3) as [Hke Hqe]
    by (apply (numbered_file ended RecordEnded); [done..|by eexists]).
  unfold ReadRecords. cbn [read_entries]. change (MaxRecordFiles <? 0 + 1) with false.
  change (MaxRecordFiles <? 0 + 1 + 1) with false. cbn match. rewrite Hs, He.
  cbn [sort_by_seq insert_by_seq]. rewrite Hqs, Hqe. change (2 - 3 <=? 0) with true. cbn [length].
  cbn [keep_loop lookup list_lookup]. unfold has. cbn [existsb]. rewrite !Hks, !Hke.
  reflexivity.
Qed.

Lemma ended_without_started_witness :
  (ReadRecords example_decode (Some [example_entry RecordStarted; example_entry RecordEnded]) "u1").1 =
  [example_record RecordEnded].
Proof.
  rewrite (ended_without_started example_decode "u1" (example_record RecordStarted) (example_record RecordEnded));
    vm_compute; reflexivity.
Defined.

End Protocol.
