(* ===== verification/Observation.v ===== *)
(** * The normalized record, internal/observation/model.go

    The envelope every analyzer's output is turned into.  A float64 is a
    [spec_float]; the JSON names are the schema's business. *)

From Stdlib Require Import Floats.SpecFloat.
From S2P Require Import Prelude GoTime GoString.

Module Observation.

Definition SchemaVersion : str := "trawl.observation/v1alpha1".

(** [SourceKind] and [ObservationType] arrive as decoded text: the constants
    are the closed sets. *)
Definition SourceSuricata : str := "Suricata".
Definition SourceZeek : str := "Zeek".
Definition SourceHubble : str := "Hubble".

Inductive ObservationType :=
  | TypeNone
  | TypeSignature | TypeConnection | TypeDNS | TypeHTTP | TypeTLS
  | TypeCertificate | TypeFile | TypeNotice | TypeWeird | TypeClusterFlow.

Record Source := mkSource { src_Kind : str; src_Version : str }.

Record Tap := mkTap { tap_Namespace : str; tap_Name : str; tap_UID : str }.

Record Target := mkTarget {
  tg_Node : str;
  tg_Interface : str;
  tg_ObservationPoint : str;
}.

Record Endpoint := mkEndpoint {
  ep_IP : str;
  ep_Port : option Z;
  ep_MAC : str;
  ep_Namespace : str;
  ep_Workload : str;
  ep_Pod : str;
}.

Record Flow := mkFlow {
  fl_CommunityID : str;
  fl_ZeekUID : str;
  fl_Protocol : str;
  fl_VLAN : option Z;
  fl_Source : Endpoint;
  fl_Destination : Endpoint;
}.

Record Signature := mkSignature {
  sig_RuleID : Z;
  sig_Revision : option Z;
  sig_Severity : Z;
  sig_Category : str;
  sig_Message : str;
  sig_Action : str;
}.

Record Connection := mkConnection {
  co_Service : str;
  co_DurationSeconds : option spec_float;
  co_State : str;
  co_SourceBytes : option Z;
  co_DestinationBytes : option Z;
  co_SourcePackets : option Z;
  co_DestinationPackets : option Z;
  co_MissedBytes : option Z;
}.

Record DNS := mkDNS {
  dns_Query : str;
  dns_QType : str;
  dns_RCode : str;
  dns_Answers : list str;
}.

Record HTTP := mkHTTP {
  http_Method : str;
  http_Host : str;
  http_URIPath : str;
  http_StatusCode : option Z;
  http_UserAgent : str;
}.

Record TLS := mkTLS {
  tls_Version : str;
  tls_Cipher : str;
  tls_ServerName : str;
  tls_ALPN : str;
  tls_Established : option bool;
  tls_Resumed : option bool;
  tls_JA3 : str;
  tls_JA3S : str;
  tls_CertificateFingerprints : list str;
}.

Record Certificate := mkCertificate {
  cert_FingerprintSHA256 : str;
  cert_Subject : str;
  cert_Issuer : str;
  cert_Serial : str;
  cert_NotValidBefore : option time;
  cert_NotValidAfter : option time;
  cert_ValidationStatus : str;
}.

Record File := mkFile {
  file_FileID : str;
  file_MIMEType : str;
  file_Filename : str;
  file_SizeBytes : option Z;
  file_SHA256 : str;
}.

Record Notice := mkNotice {
  notice_Type : str;
  notice_Message : str;
  notice_SubMessage : str;
}.

Record Weird := mkWeird { weird_Name : str; weird_AdditionalInfo : str }.

Record ClusterFlow := mkClusterFlow {
  cfl_Verdict : str;
  cfl_DropReason : str;
  cfl_Direction : str;
  cfl_EventType : str;
  cfl_IsReply : option bool;
}.

Record Details := mkDetails {
  d_Signature : option Signature;
  d_Connection : option Connection;
  d_DNS : option DNS;
  d_HTTP : option HTTP;
  d_TLS : option TLS;
  d_Certificate : option Certificate;
  d_File : option File;
  d_Notice : option Notice;
  d_Weird : option Weird;
  d_ClusterFlow : option ClusterFlow;
}.

Record Observation := mkObs {
  ob_SchemaVersion : str;
  ob_ID : str;
  ob_EventTime : time;
  ob_ObservedAt : time;
  ob_Source : Source;
  ob_Tap : option Tap;
  ob_Target : Target;
  ob_ObservationType : ObservationType;
  ob_Flow : option Flow;
  ob_Details : Details;
}.

(** The map literal of [TypeOf]. *)
Definition body_map (d : Details) : list (ObservationType * bool) :=
  [(TypeSignature, is_Some_b (d_Signature d));
   (TypeConnection, is_Some_b (d_Connection d));
   (TypeDNS, is_Some_b (d_DNS d));
   (TypeHTTP, is_Some_b (d_HTTP d));
   (TypeTLS, is_Some_b (d_TLS d));
   (TypeCertificate, is_Some_b (d_Certificate d));
   (TypeFile, is_Some_b (d_File d));
   (TypeNotice, is_Some_b (d_Notice d));
   (TypeWeird, is_Some_b (d_Weird d));
   (TypeClusterFlow, is_Some_b (d_ClusterFlow d))].

Fixpoint type_of_loop (bodies : list (ObservationType * bool)) (found : ObservationType)
    (count : Z) : ObservationType * Z :=
  match bodies with
  | [] => (found, count)
  | (t, isset) :: rest =>
      if isset then type_of_loop rest t (count + 1) else type_of_loop rest found count
  end.

(** [TypeOf], for an order in which the map is ranged over. *)
Definition TypeOf_in (bodies : list (ObservationType * bool)) : ObservationType * bool :=
  let '(found, count) := type_of_loop bodies TypeNone 0 in (found, count =? 1).

Definition TypeOf (d : Details) : ObservationType * bool := TypeOf_in (body_map d).

(** ** schema.go, the envelope *)

Definition type_text (t : ObservationType) : str :=
  match t with
  | TypeNone => ""
  | TypeSignature => "signature" | TypeConnection => "connection" | TypeDNS => "dns" | TypeHTTP => "http" | TypeTLS => "tls"
  | TypeCertificate => "certificate" | TypeFile => "file" | TypeNotice => "notice" | TypeWeird => "weird"
  | TypeClusterFlow => "cluster_flow"
  end.

Definition quoted (s : str) : str := String (ascii_of 34) (s +:+ String (ascii_of 34) "").

Definition is_none (t : ObservationType) : bool := match t with TypeNone => true | _ => false end.

#[export] Instance ObservationType_eq_dec : EqDecision ObservationType.
Proof. solve_decision. Defined.

(** [Normalize] of the envelope: the record it leaves, or the error. *)
Definition Normalize (obs : Observation) : result str Observation :=
  let '(inferred, exactlyOne) := TypeOf (ob_Details obs) in
  if negb exactlyOne then Err "observation details must contain exactly one subtype body" else
  let t := if is_none (ob_ObservationType obs) then inferred else ob_ObservationType obs in
  if negb (bool_decide (t = inferred)) then
    Err ("observation_type " +:+ quoted (type_text t) +:+ " does not match the " +:+ quoted (type_text inferred) +:+ " details body")
  else if is_zero (ob_EventTime obs) then Err "observation has no event time"
  else if is_zero (ob_ObservedAt obs) then Err "observation has no observation time"
  else Ok (mkObs SchemaVersion (ob_ID obs) (ob_EventTime obs) (ob_ObservedAt obs) (ob_Source obs) (ob_Tap obs) (ob_Target obs) t
    (ob_Flow obs) (ob_Details obs)).

(** ** Lemmas *)

Definition set_types (bodies : list (ObservationType * bool)) : list ObservationType :=
  fst <$> List.filter snd bodies.

Lemma type_of_loop_spec bodies found count :
  type_of_loop bodies found count =
  (default found (last (set_types bodies)), count + Z.of_nat (length (set_types bodies))).
Proof.
  unfold set_types. revert found count.
  induction bodies as [|[t b] bodies IH]; intros found count; [simpl; f_equal; lia|].
  cbn [type_of_loop List.filter snd]. destruct b; rewrite IH; [|done].
  rewrite fmap_cons, last_cons, length_cons. cbn [fst].
  f_equal; [by destruct (last _)|lia].
Qed.

(** The verdict does not depend on the iteration order, nor does the type when
    there is exactly one body. *)
Lemma TypeOf_order d bodies :
  bodies ≡ₚ body_map d →
  (TypeOf_in bodies).2 = (TypeOf d).2 ∧
  ((TypeOf d).2 = true → (TypeOf_in bodies).1 = (TypeOf d).1).
Proof.
  intros Hp.
  assert (set_types bodies ≡ₚ set_types (body_map d)) as Hs.
  { unfold set_types. by apply fmap_Permutation, filter_perm. }
  pose proof (Permutation_length Hs) as Hl.
  unfold TypeOf, TypeOf_in. rewrite !type_of_loop_spec, Hl. cbn [fst snd]. split; [done|].
  rewrite Z.eqb_eq. intros Hlen.
  destruct (set_types (body_map d)) as [|t [|t' l]] eqn:E; simpl in Hlen; try lia.
  apply Permutation_singleton_r in Hs as ->. done.
Qed.

End Observation.
