(* ===== verification/Correlate.v ===== *)
(** * Pairing observations, internal/observation/correlation.go

    A pointer is an address with what it points at, or nil; [fold] is the case
    folding [strings.EqualFold] compares under. *)

From S2P Require Import Prelude GoTime GoString Observation.

Module Correlate.
Import Observation.

Inductive MatchKind := MatchExact | MatchAttributeTime | MatchAmbiguous | MatchNone.

#[export] Instance MatchKind_eq_dec : EqDecision MatchKind.
Proof. solve_decision. Defined.

Definition DefaultCorrelationWindow : duration := 2 * second.

(** [c_Window], zero for the default. *)
Record Correlator := mkCorrelator { c_Window : duration }.

Record ref := mkRef { rf_addr : nat; rf_obs : Observation }.
Definition pointer : Type := option ref.

Definition same_pointer (p q : pointer) : bool :=
  match p, q with
  | Some a, Some b => bool_decide (rf_addr a = rf_addr b)
  | None, None => true
  | _, _ => false
  end.

Definition window (c : Correlator) : duration := if 0 <? c_Window c then c_Window c else DefaultCorrelationWindow.

Definition endpointString (e : Endpoint) : str :=
  ep_IP e +:+ "/" +:+ match ep_Port e with Some p => itoa p | None => "" end.

Definition normalizedPair (f : Flow) : str * str :=
  let x := endpointString (fl_Source f) in
  let y := endpointString (fl_Destination f) in
  if str_ltb y x then (y, x) else (x, y).

Definition withinWindow (a b : time) (w : duration) : bool :=
  let d := t_sub a b in
  let d := if d <? 0 then wrap64 (- d) else d in
  d <=? w.

Section match_.
Context (fold : str → str).

Definition sameFlowAttributes (a b : Flow) : bool :=
  if negb (bool_decide (fl_Protocol a = "")) && negb (bool_decide (fl_Protocol b = "")) &&
     negb (bool_decide (fold (fl_Protocol a) = fold (fl_Protocol b)))
  then false else
  let '(aLow, aHigh) := normalizedPair a in
  let '(bLow, bHigh) := normalizedPair b in
  if bool_decide (aLow = "") || bool_decide (aHigh = "") then false
  else bool_decide (aLow = bLow) && bool_decide (aHigh = bHigh).

Definition match_flows (c : Correlator) (a b : Observation) (fa fb : Flow) : MatchKind :=
  if negb (bool_decide (fl_CommunityID fa = "")) && negb (bool_decide (fl_CommunityID fb = "")) then
    if bool_decide (fl_CommunityID fa = fl_CommunityID fb) then MatchExact else MatchNone
  else if negb (sameFlowAttributes fa fb) then MatchNone
  else if negb (withinWindow (ob_EventTime a) (ob_EventTime b) (window c)) then MatchNone
  else MatchAttributeTime.

Definition Match (c : Correlator) (a b : pointer) : MatchKind :=
  match a, b with
  | Some a, Some b =>
      match ob_Flow (rf_obs a), ob_Flow (rf_obs b) with
      | Some fa, Some fb => match_flows c (rf_obs a) (rf_obs b) fa fb
      | _, _ => MatchNone
      end
  | _, _ => MatchNone
  end.

Fixpoint candidates_loop (c : Correlator) (subject : pointer) (pool exact attribute : list pointer) :
    list pointer * list pointer :=
  match pool with
  | [] => (exact, attribute)
  | candidate :: pool =>
      if same_pointer candidate subject then candidates_loop c subject pool exact attribute else
      match Match c subject candidate with
      | MatchExact => candidates_loop c subject pool (exact ++ [candidate]) attribute
      | MatchAttributeTime => candidates_loop c subject pool exact (attribute ++ [candidate])
      | MatchAmbiguous | MatchNone => candidates_loop c subject pool exact attribute
      end
  end.

Definition Candidates (c : Correlator) (subject : pointer) (pool : list pointer) : MatchKind * list pointer :=
  let '(exact, attribute) := candidates_loop c subject pool [] [] in
  match exact with
  | _ :: _ => (MatchExact, exact)
  | [] =>
      match attribute with
      | [] => (MatchNone, [])
      | [_] => (MatchAttributeTime, attribute)
      | _ => (MatchAmbiguous, attribute)
      end
  end.

(** ** Lemmas *)

Lemma endpointString_nonempty e : endpointString e ≠ "".
Proof. unfold endpointString. destruct (ep_IP e); done. Qed.

(** The candidates of one kind, in the order of the pool. *)
Definition paired (c : Correlator) (subject : pointer) (k : MatchKind) (pool : list pointer) : list pointer :=
  filter (λ p, same_pointer p subject = false ∧ Match c subject p = k) pool.

Lemma candidates_loop_spec c subject pool : ∀ exact attribute,
  candidates_loop c subject pool exact attribute =
  (exact ++ paired c subject MatchExact pool, attribute ++ paired c subject MatchAttributeTime pool).
Proof.
  induction pool as [|p pool IH]; intros exact attribute; cbn [candidates_loop]; [by rewrite !app_nil_r|].
  unfold paired. rewrite !filter_cons. destruct (same_pointer p subject) eqn:Es.
  { rewrite !decide_False by (by intros [? _]). apply IH. }
  destruct (Match c subject p) eqn:Em; rewrite IH; unfold paired;
    repeat (rewrite decide_True by done || rewrite decide_False by (by intros [_ ?])); by rewrite <-?app_assoc.
Qed.

Lemma withinWindow_close a b w : in_int64 (a - b) → a - b ≠ min_int64 → withinWindow a b w = (Z.abs (a - b) <=? w).
Proof.
  intros Hr Hm. unfold withinWindow. rewrite t_sub_exact by done. destruct (Z.ltb_spec (a - b) 0).
  - rewrite wrap64_id by (unfold in_int64, min_int64, max_int64 in *; lia). f_equal. lia.
  - f_equal. lia.
Qed.

Lemma sameFlowAttributes_sym a b : sameFlowAttributes a b = sameFlowAttributes b a.
Proof.
  unfold sameFlowAttributes. destruct (normalizedPair a) as [al ah] eqn:Ea, (normalizedPair b) as [bl bh] eqn:Eb.
  assert (∀ f l h, normalizedPair f = (l, h) → l ≠ "" ∧ h ≠ "") as Hne.
  { intros f l h. unfold normalizedPair. destruct (str_ltb _ _); intros [= <- <-]; split; apply endpointString_nonempty. }
  destruct (Hne _ _ _ Ea) as [H1 H2], (Hne _ _ _ Eb) as [H3 H4].
  rewrite (bool_decide_eq_false_2 _ H1), (bool_decide_eq_false_2 _ H2), (bool_decide_eq_false_2 _ H3), (bool_decide_eq_false_2 _ H4).
  rewrite (bool_decide_ext (fold (fl_Protocol b) = fold (fl_Protocol a)) (fold (fl_Protocol a) = fold (fl_Protocol b))) by done.
  rewrite (bool_decide_ext (bl = al) (al = bl)), (bool_decide_ext (bh = ah) (ah = bh)) by done.
  by destruct (bool_decide (fl_Protocol a = "")), (bool_decide (fl_Protocol b = "")).
Qed.

Lemma Match_sym c a b :
  (∀ x y, a = Some x → b = Some y → in_int64 (ob_EventTime (rf_obs x) - ob_EventTime (rf_obs y)) ∧
    ob_EventTime (rf_obs x) - ob_EventTime (rf_obs y) ≠ min_int64 ∧ ob_EventTime (rf_obs x) - ob_EventTime (rf_obs y) ≠ max_int64 + 1) →
  Match c a b = Match c b a.
Proof.
  intros Ht. destruct a as [a|], b as [b|]; try done. destruct (Ht a b eq_refl eq_refl) as (H1 & H2 & H3). simpl.
  destruct (ob_Flow (rf_obs a)) as [fa|], (ob_Flow (rf_obs b)) as [fb|]; try done. unfold match_flows.
  rewrite (sameFlowAttributes_sym fb fa).
  rewrite (bool_decide_ext (fl_CommunityID fb = fl_CommunityID fa) (fl_CommunityID fa = fl_CommunityID fb)) by done.
  rewrite !withinWindow_close by (unfold in_int64, min_int64, max_int64 in *; lia).
  replace (Z.abs (ob_EventTime (rf_obs b) - ob_EventTime (rf_obs a))) with (Z.abs (ob_EventTime (rf_obs a) - ob_EventTime (rf_obs b))) by lia.
  by destruct (bool_decide (fl_CommunityID fa = "")), (bool_decide (fl_CommunityID fb = "")).
Qed.

End match_.

(** ** Theorems *)

(** what a pairing claims.  Two observations relate the same way in both
    directions, if no more than 292 years lie between them; an exact match is
    two flows with one Community ID, an attribute match the same endpoints in
    either order, no protocols that differ and event times within the window,
    where one of the two carries no Community ID.  The candidates of a record
    are, in order, all the exact matches of the pool if there are any, and
    else all the attribute matches: two of those are reported as ambiguous,
    never one of them as the match. *)
Theorem pairing_claims fold c a b subject pool :
  (∀ x y, a = Some x → b = Some y → Z.abs (ob_EventTime (rf_obs x) - ob_EventTime (rf_obs y)) < max_int64) →
  Match fold c a b = Match fold c b a ∧ Match fold c a b ≠ MatchAmbiguous ∧
  (∀ x y fa fb, a = Some x → b = Some y → ob_Flow (rf_obs x) = Some fa → ob_Flow (rf_obs y) = Some fb →
    (Match fold c a b = MatchExact ↔ fl_CommunityID fa ≠ "" ∧ fl_CommunityID fa = fl_CommunityID fb) ∧
    (Match fold c a b = MatchAttributeTime ↔
      (fl_CommunityID fa = "" ∨ fl_CommunityID fb = "") ∧ sameFlowAttributes fold fa fb = true ∧
      Z.abs (ob_EventTime (rf_obs x) - ob_EventTime (rf_obs y)) ≤ window c)) ∧
  let exact := paired fold c subject MatchExact pool in
  let attribute := paired fold c subject MatchAttributeTime pool in
  Candidates fold c subject pool =
    if decide (exact ≠ []) then (MatchExact, exact)
    else (match length attribute with O => MatchNone | 1%nat => MatchAttributeTime | _ => MatchAmbiguous end, attribute).
Proof.
  intros Ht. split_and!.
  - apply Match_sym. intros x y Hx Hy. pose proof (Ht x y Hx Hy). unfold in_int64, min_int64, max_int64 in *. lia.
  - destruct a as [a|], b as [b|]; try done. simpl. destruct (ob_Flow (rf_obs a)), (ob_Flow (rf_obs b)); try done. unfold match_flows.
    by repeat case_match.
  - intros x y fa fb -> -> Ha Hb. pose proof (Ht x y eq_refl eq_refl). simpl. rewrite Ha, Hb. unfold match_flows.
    rewrite withinWindow_close by (unfold in_int64, min_int64, max_int64 in *; lia).
    destruct (sameFlowAttributes fold fa fb); simpl; repeat case_bool_decide; simpl;
      try destruct (Z.leb_spec (Z.abs (ob_EventTime (rf_obs x) - ob_EventTime (rf_obs y))) (window c)); simpl; split; split; intros;
      destruct_and?; try done; try (exfalso; lia); try congruence; naive_solver.
  - unfold Candidates. rewrite candidates_loop_spec. simpl.
    destruct (paired fold c subject MatchExact pool) as [|p l]; simpl; [|done].
    by destruct (paired fold c subject MatchAttributeTime pool) as [|p [|q l]].
Qed.

(** an undated record correlates.  Between a zero event time and a record
    of the last centuries the difference saturates at the least duration, whose
    negation is itself: it is within every window.  The pair is an attribute
    match seen from the undated record and none the other way round. *)
Theorem undated_record_correlates fold c a b fa fb :
  ob_Flow (rf_obs a) = Some fa → ob_Flow (rf_obs b) = Some fb → fl_CommunityID fa = "" →
  sameFlowAttributes fold fa fb = true →
  ob_EventTime (rf_obs a) = 0 → max_int64 < ob_EventTime (rf_obs b) → window c < max_int64 →
  Match fold c (Some a) (Some b) = MatchAttributeTime ∧ Match fold c (Some b) (Some a) = MatchNone.
Proof.
  intros Ha Hb Hc Hs H0 Hfar Hw. simpl. rewrite Ha, Hb. unfold match_flows. rewrite Hc, (sameFlowAttributes_sym _ fb), Hs, H0.
  rewrite !andb_false_r. simpl. unfold withinWindow.
  replace (t_sub 0 (ob_EventTime (rf_obs b))) with min_int64 by (unfold t_sub, min_int64, max_int64 in *; lia).
  replace (t_sub (ob_EventTime (rf_obs b)) 0) with max_int64 by (unfold t_sub, min_int64, max_int64 in *; lia).
  change (min_int64 <? 0) with true. change (max_int64 <? 0) with false. change (wrap64 (- min_int64)) with min_int64.
  assert (0 < window c) by (unfold window; destruct (Z.ltb_spec 0 (c_Window c)); [done|done]).
  cbn match. rewrite (proj2 (Z.leb_le _ _)) by (unfold min_int64; lia). rewrite (proj2 (Z.leb_gt _ _)) by lia. done.
Qed.

(** ** Witnesses *)

Definition example_endpoint (ip : str) (port : Z) : Endpoint := mkEndpoint ip (Some port) "" "" "" "".

Definition example_flow (id : str) : Flow :=
  mkFlow id "" "tcp" None (example_endpoint "10.0.0.1" 40000) (example_endpoint "10.0.0.2" 443).

Definition example_obs (addr : nat) (t : time) (flow : Flow) : ref :=
  mkRef addr (mkObs SchemaVersion "id" t t (mkSource SourceZeek "7.0") None (mkTarget "n" "eth0" "") TypeConnection (Some flow)
    (mkDetails None None None None None None None None None None)).

Definition example_time : time := (unix_to_zero + 1700000000) * second.

(** An alert without Community ID, a connection seen from the other end and
    another a second later. *)
Definition example_alert : ref := example_obs 0 example_time (mkFlow "" "" "TCP" None (example_endpoint "10.0.0.2" 443) (example_endpoint "10.0.0.1" 40000)).
Definition example_pool : list pointer :=
  [Some example_alert; Some (example_obs 1 example_time (example_flow "1:x")); Some (example_obs 2 (example_time + second) (example_flow "1:y"))].

Lemma pairing_claims_witness :
  Candidates str_lower (mkCorrelator 0) (Some example_alert) example_pool = (MatchAmbiguous, tail example_pool) ∧
  Match str_lower (mkCorrelator 0) (Some example_alert) (Some (example_obs 1 example_time (example_flow "1:x"))) =
  Match str_lower (mkCorrelator 0) (Some (example_obs 1 example_time (example_flow "1:x"))) (Some example_alert).
Proof.
  split; [vm_compute; reflexivity|].
  refine (proj1 (pairing_claims str_lower (mkCorrelator 0) (Some example_alert) (Some (example_obs 1 example_time (example_flow "1:x"))) None [] _)).
  intros x y [= <-] [= <-]. reflexivity.
Defined.

Lemma undated_record_correlates_witness :
  Match str_lower (mkCorrelator 0) (Some (example_obs 0 0 (example_flow ""))) (Some (example_obs 1 example_time (example_flow "1:x"))) = MatchAttributeTime ∧
  Match str_lower (mkCorrelator 0) (Some (example_obs 1 example_time (example_flow "1:x"))) (Some (example_obs 0 0 (example_flow ""))) = MatchNone.
Proof.
  apply (undated_record_correlates str_lower (mkCorrelator 0) (example_obs 0 0 (example_flow "")) (example_obs 1 example_time (example_flow "1:x"))
    (example_flow "") (example_flow "1:x")); reflexivity.
Defined.

End Correlate.
