(* ===== verification/Analyzers.v ===== *)
(** * The analyzers' records, internal/observation/suricata.go, zeek.go and version.go

    A line becomes an observation.  Decoding the line's JSON into the fields a
    normalizer names and parsing a timestamp under a layout are parameters;
    what the clock and the version source answer are arguments.  A float64 is
    a [spec_float]; converting one beyond int64 gives the least int64, as on
    amd64. *)

From Stdlib Require Import Floats.SpecFloat Ascii.
From S2P Require Import Prelude GoTime GoString Sha256 Duration RecordID Observation.

Module Analyzers.
Import Observation RecordID.

(** [Unsupported] wraps ErrUnsupportedRecord. *)
Inductive record_error := Malformed (text : str) | Unsupported (text : str).

Definition safeEventType (s : str) : str := str_take 32 s.

Definition no_details : Details := mkDetails None None None None None None None None None None.

(** ** version.go *)

Definition UnknownVersion : str := "unknown".

(** What calling the source answers, or no source. *)
Definition Resolve (s : option str) : str :=
  match s with
  | None => UnknownVersion
  | Some v => if bool_decide (v = "") then UnknownVersion else v
  end.

(** ** suricata.go *)

Definition suricataTimeLayout : str := "2006-01-02T15:04:05.999999-0700".
Definition RFC3339Nano : str := "2006-01-02T15:04:05.999999999Z07:00".

Record eveAlert := mkEveAlert {
  ea_SignatureID : Z;
  ea_Rev : option Z;
  ea_Signature : str;
  ea_Category : str;
  ea_Severity : Z;
  ea_Action : str;
}.

Record eveStats := mkEveStats {
  es_KernelPackets : option Z;
  es_KernelDrops : option Z;
  es_Packets : option Z;
  es_Bytes : option Z;
}.

Record eveRecord := mkEveRecord {
  ev_Timestamp : str;
  ev_EventType : str;
  ev_FlowID : Z;
  ev_CommunityID : str;
  ev_SrcIP : str;
  ev_SrcPort : option Z;
  ev_DestIP : str;
  ev_DestPort : option Z;
  ev_Proto : str;
  ev_VLAN : list Z;
  ev_Alert : option eveAlert;
  ev_Stats : option eveStats;
}.

Record SuricataStats := mkSuricataStats {
  st_KernelPackets : option Z;
  st_KernelDrops : option Z;
  st_DecoderPackets : option Z;
  st_DecoderBytes : option Z;
  st_Timestamp : time;
}.

(** Both normalizers' fields, but for the version and the clock. *)
Record Normalizer := mkNormalizer { n_Tap : option Tap; n_Target : Target }.

Definition plain_endpoint (ip : str) (port : option Z) : Endpoint := mkEndpoint ip port "" "" "" "".

Definition eve_flow (rec : eveRecord) : option Flow :=
  if bool_decide (ev_SrcIP rec = "") && bool_decide (ev_DestIP rec = "") then None else
  Some (mkFlow (ev_CommunityID rec) "" (str_lower (ev_Proto rec)) (head (ev_VLAN rec))
    (plain_endpoint (ev_SrcIP rec) (ev_SrcPort rec)) (plain_endpoint (ev_DestIP rec) (ev_DestPort rec))).

Section suricata.
Context (parse_time : str → str → option time) (decode_eve : str → option eveRecord).

Definition parseSuricataTime (s : str) : result record_error time :=
  if bool_decide (s = "") then Err (Malformed "malformed EVE record: missing timestamp") else
  match parse_time suricataTimeLayout s with
  | Some t => Ok t
  | None =>
      match parse_time RFC3339Nano s with
      | Some t => Ok t
      | None => Err (Malformed "malformed EVE record: unparseable timestamp")
      end
  end.

Definition normalizeAlert (n : Normalizer) (rec : eveRecord) (version : option str) (now : time) : result record_error Observation :=
  match ev_Alert rec with
  | None => Err (Malformed "malformed EVE alert: missing alert body")
  | Some alert =>
      if ea_SignatureID alert =? 0 then Err (Malformed "malformed EVE alert: missing signature_id") else
      let? eventTime := parseSuricataTime (ev_Timestamp rec) in
      Ok (mkObs SchemaVersion (recordID SourceSuricata (ev_CommunityID rec) (ea_SignatureID alert) eventTime) eventTime now
        (mkSource SourceSuricata (Resolve version)) (n_Tap n) (n_Target n) TypeSignature (eve_flow rec)
        (mkDetails (Some (mkSignature (ea_SignatureID alert) (ea_Rev alert) (ea_Severity alert) (ea_Category alert)
          (ea_Signature alert) (ea_Action alert))) None None None None None None None None None))
  end.

Definition normalizeStats (rec : eveRecord) (now : time) : option SuricataStats :=
  match ev_Stats rec with
  | None => None
  | Some s =>
      Some (mkSuricataStats (es_KernelPackets s) (es_KernelDrops s) (es_Packets s) (es_Bytes s)
        (match parseSuricataTime (ev_Timestamp rec) with Ok t => t | Err _ => now end))
  end.

(** The observation or the error, and the stats. *)
Definition suricata_Normalize (n : Normalizer) (line : str) (version : option str) (now : time) :
    result record_error (option Observation) * option SuricataStats :=
  match decode_eve line with
  | None => (Err (Malformed "malformed EVE record: invalid JSON"), None)
  | Some rec =>
      if bool_decide (ev_EventType rec = "alert") then
        (let? obs := normalizeAlert n rec version now in Ok (Some obs), None)
      else if bool_decide (ev_EventType rec = "stats") then (Ok None, normalizeStats rec now)
      else if bool_decide (ev_EventType rec = "") then (Err (Malformed "malformed EVE record: missing event_type"), None)
      else (Err (Unsupported ("event_type " +:+ quoted (safeEventType (ev_EventType rec)))), None)
  end.

End suricata.

(** ** zeek.go *)

Inductive ZeekLogType :=
  | ZeekConn | ZeekDNS | ZeekHTTP | ZeekSSL | ZeekX509 | ZeekFiles | ZeekNotice | ZeekWeird | ZeekOther (name : str).

Definition zeek_log_text (l : ZeekLogType) : str :=
  match l with
  | ZeekConn => "conn" | ZeekDNS => "dns" | ZeekHTTP => "http" | ZeekSSL => "ssl" | ZeekX509 => "x509" | ZeekFiles => "files"
  | ZeekNotice => "notice" | ZeekWeird => "weird" | ZeekOther name => name
  end.

Record zeekBase := mkZeekBase {
  zb_TS : spec_float;
  zb_UID : str;
  zb_CommunityID : str;
  zb_SourceIP : str;
  zb_SourcePort : option Z;
  zb_DestIP : str;
  zb_DestPort : option Z;
  zb_Proto : str;
}.

Record zeekX509 := mkZeekX509 {
  zx_Fingerprint : str;
  zx_Subject : str;
  zx_Issuer : str;
  zx_Serial : str;
  zx_NotValidBefore : option spec_float;
  zx_NotValidAfter : option spec_float;
}.

(** The line's JSON decoded into the fields each normalizer names.  A log whose
    fields are copied one by one is decoded into the body it becomes, HTTP's
    path being the whole URI still. *)
Record zeek_decoders := mkZeekDecoders {
  zd_base : str → option zeekBase;
  zd_conn : str → option Connection;
  zd_dns : str → option DNS;
  zd_http : str → option HTTP;
  zd_ssl : str → option TLS;
  zd_x509 : str → option zeekX509;
  zd_files : str → option File;
  zd_notice : str → option Notice;
  zd_weird : str → option Weird;
}.

Definition f64_int64 (x : spec_float) : Z :=
  let z := GoDuration.f64_trunc x in if (min_int64 <=? z) && (z <=? max_int64) then z else min_int64.

(** [math.Modf] of a positive number. *)
Definition f64_modf (m : positive) (e : Z) : Z * spec_float :=
  if 0 <=? e then (Zpos m * 2 ^ e, S754_zero false)
  else (Zpos m / 2 ^ (- e), binary_normalize 53 1024 (Zpos m mod 2 ^ (- e)) e false).

Definition zeekTime (ts : spec_float) : result record_error time :=
  match ts with
  | S754_finite false m e =>
      let '(sec, frac) := f64_modf m e in
      let sec := if (min_int64 <=? sec) && (sec <=? max_int64) then sec else min_int64 in
      Ok (wrap64 (sec + unix_to_zero) * second + f64_int64 (SFmul 53 1024 frac (GoDuration.f64_of second)))
  | _ => Err (Malformed "malformed Zeek record: invalid ts")
  end.

(** [strings.Cut(uri, QUESTION MARK)] *)
Fixpoint stripQuery (uri : str) : str :=
  match uri with
  | "" => ""
  | String c rest => if bool_decide (c = "?"%char) then "" else String c (stripQuery rest)
  end.

Definition decoded {A} (m : option A) (text : str) : result record_error A :=
  match m with Some a => Ok a | None => Err (Malformed text) end.

Section zeek.
Context (zd : zeek_decoders).

Definition zeek_conn (line : str) : result record_error Details :=
  let? c := decoded (zd_conn zd line) "malformed Zeek conn record" in
  Ok (mkDetails None (Some c) None None None None None None None None).

Definition zeek_dns (line : str) : result record_error Details :=
  let? d := decoded (zd_dns zd line) "malformed Zeek dns record" in
  if bool_decide (dns_Query d = "") then Err (Malformed "malformed Zeek dns record: missing query")
  else Ok (mkDetails None None (Some d) None None None None None None None).

Definition zeek_http (line : str) : result record_error Details :=
  let? h := decoded (zd_http zd line) "malformed Zeek http record" in
  Ok (mkDetails None None None (Some (mkHTTP (http_Method h) (http_Host h) (stripQuery (http_URIPath h)) (http_StatusCode h)
    (http_UserAgent h))) None None None None None None).

Definition zeek_ssl (line : str) : result record_error Details :=
  let? t := decoded (zd_ssl zd line) "malformed Zeek ssl record" in
  Ok (mkDetails None None None None (Some t) None None None None None).

Definition optional_time (ts : option spec_float) : option time :=
  match ts with Some ts => match zeekTime ts with Ok t => Some t | Err _ => None end | None => None end.

Definition zeek_x509 (line : str) : result record_error Details :=
  let? x := decoded (zd_x509 zd line) "malformed Zeek x509 record" in
  if bool_decide (zx_Fingerprint x = "") then Err (Malformed "malformed Zeek x509 record: missing fingerprint")
  else Ok (mkDetails None None None None None (Some (mkCertificate (zx_Fingerprint x) (zx_Subject x) (zx_Issuer x) (zx_Serial x)
    (optional_time (zx_NotValidBefore x)) (optional_time (zx_NotValidAfter x)) "")) None None None None).

Definition zeek_files (line : str) : result record_error Details :=
  let? f := decoded (zd_files zd line) "malformed Zeek files record" in
  Ok (mkDetails None None None None None None (Some f) None None None).

Definition zeek_notice (line : str) : result record_error Details :=
  let? x := decoded (zd_notice zd line) "malformed Zeek notice record" in
  if bool_decide (notice_Type x = "") then Err (Malformed "malformed Zeek notice record: missing note")
  else Ok (mkDetails None None None None None None None (Some x) None None).

Definition zeek_weird (line : str) : result record_error Details :=
  let? x := decoded (zd_weird zd line) "malformed Zeek weird record" in
  if bool_decide (weird_Name x = "") then Err (Malformed "malformed Zeek weird record: missing name")
  else Ok (mkDetails None None None None None None None None (Some x) None).

Definition detailsFor (logType : ZeekLogType) (line : str) : result record_error Details :=
  match logType with
  | ZeekConn => zeek_conn line
  | ZeekDNS => zeek_dns line
  | ZeekHTTP => zeek_http line
  | ZeekSSL => zeek_ssl line
  | ZeekX509 => zeek_x509 line
  | ZeekFiles => zeek_files line
  | ZeekNotice => zeek_notice line
  | ZeekWeird => zeek_weird line
  | ZeekOther name => Err (Unsupported ("zeek log " +:+ quoted (safeEventType name)))
  end.

Definition zeek_flow (base : zeekBase) : option Flow :=
  if bool_decide (zb_SourceIP base = "") && bool_decide (zb_DestIP base = "") then None else
  Some (mkFlow (zb_CommunityID base) (zb_UID base) (str_lower (zb_Proto base)) None
    (plain_endpoint (zb_SourceIP base) (zb_SourcePort base)) (plain_endpoint (zb_DestIP base) (zb_DestPort base))).

Definition zeek_Normalize (n : Normalizer) (logType : ZeekLogType) (line : str) (version : option str) (now : time) :
    result record_error Observation :=
  let? base := decoded (zd_base zd line) "malformed Zeek record: invalid JSON" in
  if match zb_TS base with S754_zero _ => true | _ => false end then Err (Malformed "malformed Zeek record: missing ts") else
  let? eventTime := zeekTime (zb_TS base) in
  let? details := detailsFor logType line in
  let '(obsType, ok) := TypeOf details in
  if negb ok then Err (Malformed "malformed Zeek record: no subtype body produced") else
  Ok (mkObs SchemaVersion (recordIDFromParts SourceZeek eventTime [zeek_log_text logType; zb_UID base; zb_CommunityID base])
    eventTime now (mkSource SourceZeek (Resolve version)) (n_Tap n) (n_Target n) obsType (zeek_flow base) details).

End zeek.

(** ** Lemmas *)

(** The same record read again, later and by another version of the analyzer. *)
Definition reread (obs : Observation) (version : option str) (now : time) : Observation :=
  mkObs (ob_SchemaVersion obs) (ob_ID obs) (ob_EventTime obs) now (mkSource (src_Kind (ob_Source obs)) (Resolve version))
    (ob_Tap obs) (ob_Target obs) (ob_ObservationType obs) (ob_Flow obs) (ob_Details obs).

(** What a stored record may not lack, or carry. *)
Definition storable (obs : Observation) : Prop :=
  src_Version (ob_Source obs) ≠ "" ∧
  (ob_EventTime obs ≠ 0 → ob_ObservedAt obs ≠ 0 → Normalize obs = Ok obs) ∧
  (∀ h, d_HTTP (ob_Details obs) = Some h → lacks "?" (http_URIPath h) = true) ∧
  (ob_Flow obs = None ∨ ∃ f, ob_Flow obs = Some f ∧ (ep_IP (fl_Source f) ≠ "" ∨ ep_IP (fl_Destination f) ≠ "")).

Lemma Resolve_nonempty v : Resolve v ≠ "".
Proof. destruct v as [v|]; simpl; [|done]. by case_bool_decide. Qed.

Lemma stripQuery_lacks s : lacks "?" (stripQuery s) = true.
Proof.
  induction s as [|c s IH]; simpl; [done|]. case_bool_decide as H; [done|]. unfold lacks in *. simpl. rewrite IH, andb_true_r.
  apply negb_true_iff, bool_decide_eq_false. congruence.
Qed.

Lemma Normalize_typed obs :
  ob_SchemaVersion obs = SchemaVersion → TypeOf (ob_Details obs) = (ob_ObservationType obs, true) →
  ob_ObservationType obs ≠ TypeNone → ob_EventTime obs ≠ 0 → ob_ObservedAt obs ≠ 0 → Normalize obs = Ok obs.
Proof.
  intros Hs Ht Hn He Ho. unfold Normalize, is_zero. rewrite Ht. simpl.
  replace (is_none (ob_ObservationType obs)) with false by (by destruct (ob_ObservationType obs)).
  rewrite bool_decide_eq_true_2 by done. simpl. rewrite !(proj2 (Z.eqb_neq _ _)) by done. rewrite <-Hs. by destruct obs.
Qed.

Lemma suricata_storable parse_time decode_eve n line version now obs :
  (suricata_Normalize parse_time decode_eve n line version now).1 = Ok (Some obs) →
  storable obs ∧ ob_ObservedAt obs = now ∧
  ∀ version' now', (suricata_Normalize parse_time decode_eve n line version' now').1 = Ok (Some (reread obs version' now')).
Proof.
  unfold suricata_Normalize. destruct (decode_eve line) as [rec|]; [|done]. case_bool_decide; simpl; [|repeat case_bool_decide; done].
  unfold normalizeAlert. destruct (ev_Alert rec) as [a|]; [|done]. destruct (ea_SignatureID a =? 0); [done|].
  destruct (parseSuricataTime parse_time (ev_Timestamp rec)) as [t|]; [|done]. intros [= <-]. split_and!; [|done..].
  split_and!; simpl; [apply Resolve_nonempty|intros; by apply Normalize_typed|done|].
  unfold eve_flow. repeat case_bool_decide; simpl; eauto.
Qed.

Lemma detailsFor_typed zd logType line d :
  detailsFor zd logType line = Ok d →
  (∃ t, TypeOf d = (t, true) ∧ t ≠ TypeNone) ∧ (∀ h, d_HTTP d = Some h → lacks "?" (http_URIPath h) = true).
Proof.
  destruct logType; simpl; unfold zeek_conn, zeek_dns, zeek_http, zeek_ssl, zeek_x509, zeek_files, zeek_notice, zeek_weird;
    try done; (destruct (_ zd line) as [x|]; simpl; [|done]); try case_bool_decide; try done; intros [= <-];
    (split; [eexists; split; [reflexivity|done]|]); simpl; intros h Hh; simplify_eq. simpl. apply stripQuery_lacks.
Qed.

Lemma zeek_storable zd n logType line version now obs :
  zeek_Normalize zd n logType line version now = Ok obs →
  storable obs ∧ ob_ObservedAt obs = now ∧
  ∀ version' now', zeek_Normalize zd n logType line version' now' = Ok (reread obs version' now').
Proof.
  unfold zeek_Normalize. destruct (zd_base zd line) as [base|]; [|done]. simpl. destruct (match zb_TS base with S754_zero _ => true | _ => false end); [done|].
  destruct (zeekTime (zb_TS base)) as [t|]; [|done]. simpl. destruct (detailsFor zd logType line) as [d|] eqn:Ed; [|done]. simpl.
  apply detailsFor_typed in Ed as [(ty & Hty & Hne) Hh]. rewrite Hty. simpl. intros [= <-]. split_and!; [|done..].
  split_and!; simpl; [apply Resolve_nonempty|intros; by apply Normalize_typed|done|].
  unfold zeek_flow. repeat case_bool_decide; simpl; eauto.
Qed.

(** ** Theorems *)

(** C36: what an analyzer's line becomes.  A record either normalizer produces
    has a version, passes the envelope's check as it is whenever it carries a
    time and was observed at one - exactly one body, of the type it names -
    keeps no query string, and has a flow only with an address.  Reading the
    line again, whatever the clock and the version say then, gives the same
    record but for those two: in particular the same identity. *)
Theorem analyzer_records parse_time decode_eve zd n logType line version now obs :
  (suricata_Normalize parse_time decode_eve n line version now).1 = Ok (Some obs) ∨
  zeek_Normalize zd n logType line version now = Ok obs →
  storable obs ∧ ob_ObservedAt obs = now ∧
  ∀ version' now',
    (suricata_Normalize parse_time decode_eve n line version' now').1 = Ok (Some (reread obs version' now')) ∨
    zeek_Normalize zd n logType line version' now' = Ok (reread obs version' now').
Proof.
  intros [H|H].
  - apply suricata_storable in H as (? & ? & H). split_and!; [done..|]. intros. left. apply H.
  - apply zeek_storable in H as (? & ? & H). split_and!; [done..|]. intros. right. apply H.
Qed.

(** identities that mean more than one record.  A Zeek record's identity
    sees neither its flow nor its body: two lines of one log with the same
    time, UID and Community ID have one identity.  A log whose lines carry
    neither of the two, as x509 does, gives one identity to all certificates
    of a handshake, whose lines carry one time.  An alert without Community ID
    has the identity of every alert of its signature at that moment, whatever
    the addresses. *)
Theorem identity_misses_body parse_time zd n logType l1 l2 b1 b2 v now o1 o2 r1 r2 a1 a2 :
  (zeek_Normalize zd n logType l1 v now = Ok o1 → zeek_Normalize zd n logType l2 v now = Ok o2 →
    zd_base zd l1 = Some b1 → zd_base zd l2 = Some b2 → zb_TS b1 = zb_TS b2 → zb_UID b1 = zb_UID b2 →
    zb_CommunityID b1 = zb_CommunityID b2 → ob_ID o1 = ob_ID o2) ∧
  (normalizeAlert parse_time n r1 v now = Ok o1 → normalizeAlert parse_time n r2 v now = Ok o2 →
    ev_Alert r1 = Some a1 → ev_Alert r2 = Some a2 → ea_SignatureID a1 = ea_SignatureID a2 → ev_Timestamp r1 = ev_Timestamp r2 →
    ev_CommunityID r1 = "" → ev_CommunityID r2 = "" → ob_ID o1 = ob_ID o2).
Proof.
  split.
  - unfold zeek_Normalize. intros H1 H2 Hb1 Hb2 Hts Hu Hc. revert H1 H2. rewrite Hb1, Hb2. simpl. rewrite Hts, Hu, Hc.
    destruct (match zb_TS b2 with S754_zero _ => true | _ => false end); [done|]. destruct (zeekTime (zb_TS b2)) as [t|]; [|done]. simpl.
    destruct (detailsFor zd logType l1) as [d1|]; [|done]. destruct (detailsFor zd logType l2) as [d2|]; [|done]. simpl.
    destruct (TypeOf d1) as [t1 [|]], (TypeOf d2) as [t2 [|]]; try done. by intros [= <-] [= <-].
  - unfold normalizeAlert. intros H1 H2 Ha1 Ha2 Hsig Hts Hc1 Hc2. revert H1 H2. rewrite Ha1, Ha2, Hsig, Hts, Hc1, Hc2.
    destruct (ea_SignatureID a2 =? 0); [done|]. destruct (parseSuricataTime parse_time (ev_Timestamp r2)); [|done].
    by intros [= <-] [= <-].
Qed.

(** ** Witnesses *)

(** Two lines of x509.log, of one handshake. *)
Definition example_ts : spec_float := GoDuration.f64_of 1700000000.

Definition example_zeek : zeek_decoders :=
  mkZeekDecoders (λ _, Some (mkZeekBase example_ts "" "" "" None "" None "")) (λ _, None) (λ _, None)
    (λ uri, Some (mkHTTP "GET" "example.org" uri (Some 200) "curl")) (λ _, None)
    (λ fp, Some (mkZeekX509 fp "CN=a" "CN=ca" "01" None (Some example_ts))) (λ _, None) (λ _, None) (λ _, None).

Definition example_normalizer : Normalizer := mkNormalizer (Some (mkTap "trawl" "tap" "u")) (mkTarget "node-1" "eth0" "").

Definition example_line (logType : ZeekLogType) (line : str) : option Observation :=
  match zeek_Normalize example_zeek example_normalizer logType line (Some "7.0") 1 with Ok o => Some o | Err _ => None end.

Definition observed (o : option Observation) : Observation :=
  default (mkObs "" "" 0 0 (mkSource "" "") None (mkTarget "" "" "") TypeNone None no_details) o.

Lemma analyzer_records_witness :
  http_URIPath <$> d_HTTP (ob_Details (observed (example_line ZeekHTTP "/login?token=secret"))) = Some "/login" ∧
  storable (observed (example_line ZeekHTTP "/login?token=secret")).
Proof.
  split; [vm_compute; reflexivity|].
  refine (proj1 (analyzer_records (λ _ _, None) (λ _, None) example_zeek example_normalizer ZeekHTTP "/login?token=secret" (Some "7.0") 1 _ _)).
  right. vm_compute. reflexivity.
Defined.

Lemma identity_misses_body_witness :
  cert_FingerprintSHA256 <$> d_Certificate (ob_Details (observed (example_line ZeekX509 "leaf"))) = Some "leaf" ∧
  cert_FingerprintSHA256 <$> d_Certificate (ob_Details (observed (example_line ZeekX509 "issuer"))) = Some "issuer" ∧
  ob_ID (observed (example_line ZeekX509 "leaf")) = ob_ID (observed (example_line ZeekX509 "issuer")).
Proof.
  split; [vm_compute; reflexivity|]. split; [vm_compute; reflexivity|].
  set (rec := mkEveRecord "" "" 0 "" "" None "" None "" [] None None). set (a := mkEveAlert 0 None "" "" 0 "").
  refine (proj1 (identity_misses_body (λ _ _, None) example_zeek example_normalizer ZeekX509 "leaf" "issuer"
    (mkZeekBase example_ts "" "" "" None "" None "") (mkZeekBase example_ts "" "" "" None "" None "") (Some "7.0") 1 _ _ rec rec a a) _ _ _ _ _ _ _);
    try reflexivity; vm_compute; reflexivity.
Defined.

End Analyzers.
