(* ===== verification/SensorDedup.v ===== *)
(** * Suspected duplicates, internal/sensor/dedup.go

    The least-recently-marked cache of fingerprints.  [dc_order] lists the
    fingerprints from the front, [dc_entries] maps each to the time its element
    holds: moving an element to the front moves its fingerprint. *)

From S2P Require Import Prelude GoTime GoString Sha256 RecordID Api Observation.

Module SensorDedup.
Import Observation.

Definition DuplicateWindow : duration := second.
Definition MaxFingerprints : Z := 100000.
Definition timeBucket : duration := millisecond.

Record DuplicateCache := mkCache {
  dc_max : Z;
  dc_window : duration;
  dc_entries : gmap string time;
  dc_order : list str;
  dc_suspected : Z;
  dc_evicted : Z;
  dc_unknown : Z;
}.

Definition NewDuplicateCache (max : Z) : DuplicateCache :=
  mkCache (if max <=? 0 then MaxFingerprints else max) DuplicateWindow ∅ [] 0 0 0.

Definition endpointKey (e : Endpoint) : str :=
  ep_IP e +:+ "/" +:+ match ep_Port e with Some p => itoa p | None => "" end.

(** What is hashed, but for the time. *)
Definition fingerprint_parts (obs : Observation) (f : Flow) : list str :=
  let a := endpointKey (fl_Source f) in
  let b := endpointKey (fl_Destination f) in
  let '(a, b) := if str_ltb b a then (b, a) else (a, b) in
  [match ob_Tap obs with Some t => tap_UID t | None => "" end; tg_Node (ob_Target obs); tg_Interface (ob_Target obs);
   src_Kind (ob_Source obs); type_text (ob_ObservationType obs); fl_Protocol f; a; b; fl_CommunityID f].

Definition fingerprint_text (parts : list str) (t : time) : str :=
  len_prefixed_all parts +:+ "|" +:+ itoa (t_unix_nano (t_round t timeBucket)).

Definition fingerprint (obs : Observation) : option str :=
  match ob_Flow obs with
  | None => None
  | Some f =>
      if bool_decide (ep_IP (fl_Source f) = "") && bool_decide (ep_IP (fl_Destination f) = "") then None
      else Some (sha256_hex (fingerprint_text (fingerprint_parts obs f) (ob_EventTime obs)))
  end.

Definition moveToFront (fp : str) (order : list str) : list str := fp :: filter (λ g, g ≠ fp) order.

Definition with_order (c : DuplicateCache) (entries : gmap string time) (order : list str) : DuplicateCache :=
  mkCache (dc_max c) (dc_window c) entries order (dc_suspected c) (dc_evicted c) (dc_unknown c).
Definition count_suspected (c : DuplicateCache) : DuplicateCache :=
  mkCache (dc_max c) (dc_window c) (dc_entries c) (dc_order c) (wrap64 (dc_suspected c + 1)) (dc_evicted c) (dc_unknown c).
Definition count_unknown (c : DuplicateCache) : DuplicateCache :=
  mkCache (dc_max c) (dc_window c) (dc_entries c) (dc_order c) (dc_suspected c) (dc_evicted c) (wrap64 (dc_unknown c + 1)).

(** The back of the list, and the rest. *)
Definition evict (c : DuplicateCache) : DuplicateCache :=
  if dc_max c <=? Z.of_nat (length (dc_order c)) then
    match last (dc_order c) with
    | Some oldest =>
        mkCache (dc_max c) (dc_window c) (delete oldest (dc_entries c)) (take (length (dc_order c) - 1) (dc_order c))
          (dc_suspected c) (wrap64 (dc_evicted c + 1)) (dc_unknown c)
    | None => c
    end
  else c.

Definition insert (c : DuplicateCache) (fp : str) (seenAt : time) : DuplicateCache :=
  let c := evict c in with_order c (<[fp := seenAt]> (dc_entries c)) (fp :: dc_order c).

Definition Mark (c : DuplicateCache) (obs : Observation) : DuplicationState * DuplicateCache :=
  match fingerprint obs with
  | None => (DuplicationUnknown, count_unknown c)
  | Some fp =>
      let now := ob_EventTime obs in
      match dc_entries c !! fp with
      | Some seenAt =>
          let c' := with_order c (<[fp := now]> (dc_entries c)) (moveToFront fp (dc_order c)) in
          if d_abs (t_sub now seenAt) <=? dc_window c then (DuplicationSuspected, count_suspected c')
          else (DuplicationNotDetected, c')
      | None => (DuplicationNotDetected, insert c fp now)
      end
  end.

Definition Len (c : DuplicateCache) : Z := Z.of_nat (length (dc_order c)).

Definition State (c : DuplicateCache) : DuplicationState :=
  if 0 <? dc_suspected c then DuplicationSuspected
  else if (0 <? dc_evicted c) || (0 <? dc_unknown c) then DuplicationUnknown
  else if 0 <? Len c then DuplicationNotDetected
  else DuplicationUnknown.

(** Observations one after the other. *)
Fixpoint marks (c : DuplicateCache) (l : list Observation) : list DuplicationState * DuplicateCache :=
  match l with
  | [] => ([], c)
  | obs :: l => let '(s, c) := Mark c obs in let '(ss, c) := marks c l in (s :: ss, c)
  end.

(** ** The reference

    An unbounded record of what was marked, newest first; the fingerprints of
    it in the order of their last mark; what is remembered of one is the time
    of its last mark, if it is among the last [max]. *)
Definition history : Type := list (str * time).

Fixpoint recent (h : history) : list str :=
  match h with [] => [] | (fp, _) :: h => moveToFront fp (recent h) end.

Fixpoint latest (h : history) (fp : str) : option time :=
  match h with [] => None | (g, t) :: h => if decide (g = fp) then Some t else latest h fp end.

Definition remembered (max : nat) (h : history) (fp : str) : option time :=
  if decide (fp ∈ take max (recent h)) then latest h fp else None.

Definition answer (max : nat) (h : history) (obs : Observation) : DuplicationState :=
  match fingerprint obs with
  | None => DuplicationUnknown
  | Some fp =>
      match remembered max h fp with
      | Some t => if d_abs (t_sub (ob_EventTime obs) t) <=? DuplicateWindow then DuplicationSuspected else DuplicationNotDetected
      | None => DuplicationNotDetected
      end
  end.

Definition marked (h : history) (obs : Observation) : history :=
  match fingerprint obs with Some fp => (fp, ob_EventTime obs) :: h | None => h end.

Fixpoint answers (max : nat) (h : history) (l : list Observation) : list DuplicationState :=
  match l with [] => [] | obs :: l => answer max h obs :: answers max (marked h obs) l end.

(** ** Lemmas *)

Lemma elem_moveToFront g fp (l : list str) : g ∈ moveToFront fp l ↔ g = fp ∨ g ∈ l.
Proof. unfold moveToFront. rewrite elem_of_cons, list_elem_of_filter. destruct (decide (g = fp)); naive_solver. Qed.

Lemma moveToFront_NoDup fp (l : list str) : NoDup l → NoDup (moveToFront fp l).
Proof.
  intros Hl. unfold moveToFront. constructor; [|by apply NoDup_filter].
  intros Hin. by apply list_elem_of_filter in Hin as [].
Qed.

Lemma recent_NoDup h : NoDup (recent h).
Proof. induction h as [|[fp t] h IH]; simpl; [constructor|by apply moveToFront_NoDup]. Qed.

Lemma recent_latest h fp : fp ∈ recent h ↔ is_Some (latest h fp).
Proof.
  induction h as [|[g t] h IH]; simpl.
  { rewrite elem_of_nil. split; [done|]. by intros []. }
  unfold moveToFront. rewrite elem_of_cons, list_elem_of_filter, IH. destruct (decide (g = fp)) as [->|Hne]; naive_solver.
Qed.

Lemma filter_absent (fp : str) (l : list str) : fp ∉ l → filter (λ g, g ≠ fp) l = l.
Proof.
  induction l as [|g l IH]; intros Hn; [done|]. rewrite filter_cons, decide_True by set_solver. f_equal. apply IH. set_solver.
Qed.

(** The last [m] fingerprints after one more mark, whether it was among them. *)
Lemma take_moveToFront fp m (l : list str) :
  NoDup l → (0 < m)%nat → fp ∈ take m l → take m (moveToFront fp l) = moveToFront fp (take m l).
Proof.
  intros Hl Hm Hin. unfold moveToFront. destruct m as [|m]; [lia|]. cbn [take]. f_equal. clear Hm.
  revert m Hin. induction Hl as [|g l Hg Hl IH]; intros m Hin; [by apply elem_of_nil in Hin|]. cbn [take] in *. rewrite !filter_cons.
  destruct (decide (g ≠ fp)) as [Hne|He].
  - apply elem_of_cons in Hin as [?|Hin]; [congruence|]. destruct m as [|m]; [by apply elem_of_nil in Hin|].
    cbn [take]. f_equal. by apply IH.
  - assert (g = fp) as -> by (destruct (decide (g = fp)); [done|by destruct He]).
    rewrite (filter_absent fp l) by done. rewrite filter_absent; [done|]. intros Hf. apply Hg. eapply elem_of_take in Hf as (i & Hf & _). by eapply list_elem_of_lookup_2.
Qed.

Lemma take_absent fp m (l : list str) : fp ∉ take m l → take m (moveToFront fp l) = take m (fp :: take m l).
Proof.
  intros Hn. unfold moveToFront. destruct m as [|m]; [done|]. cbn [take]. f_equal. rewrite take_take, Nat.min_l by lia.
  revert m Hn. induction l as [|g l IH]; intros m Hn; [done|]. cbn [take] in Hn. rewrite filter_cons, decide_True by set_solver.
  destruct m as [|m]; [done|]. cbn [take]. f_equal. apply IH. set_solver.
Qed.

(** The cache after what was marked. *)
Record holds (m : nat) (h : history) (c : DuplicateCache) : Prop := {
  hd_max : dc_max c = Z.of_nat m;
  hd_window : dc_window c = DuplicateWindow;
  hd_order : dc_order c = take m (recent h);
  hd_entries : ∀ fp, dc_entries c !! fp = remembered m h fp;
}.

(** Making room keeps all but the last. *)
Lemma evict_holds m h c :
  (0 < m)%nat → holds m h c →
  evict c = mkCache (dc_max c) (dc_window c) (dc_entries (evict c)) (take (m - 1) (recent h)) (dc_suspected c) (dc_evicted (evict c)) (dc_unknown c) ∧
  ∀ g, dc_entries (evict c) !! g = if decide (g ∈ take (m - 1) (recent h)) then latest h g else None.
Proof.
  intros Hm [Hmax Hwin Hord Hent]. unfold evict. rewrite Hmax, Hord, length_take. pose proof (recent_NoDup h) as Hnd.
  destruct (Z.leb_spec (Z.of_nat m) (Z.of_nat (m `min` length (recent h)))) as [Hle|Hlt].
  - rewrite last_lookup, length_take, Nat.min_l by lia. replace (pred m) with (m - 1)%nat by lia.
    rewrite lookup_take by lia. destruct (lookup_lt_is_Some_2 (recent h) (m - 1)) as [oldest Ho]; [lia|]. rewrite Ho. rewrite decide_True by lia. simpl.
    rewrite take_take, Nat.min_l by lia. split; [done|]. intros g.
    assert (take m (recent h) = take (m - 1) (recent h) ++ [oldest]) as Hsplit.
    { rewrite <-(take_S_r _ _ _ Ho). f_equal. lia. }
    destruct (decide (oldest = g)) as [->|Hne].
    + rewrite lookup_delete_eq. rewrite decide_False; [done|]. intros Hin.
      assert (NoDup (take m (recent h))) as Hnd' by (rewrite <-(take_drop m (recent h)) in Hnd; by apply NoDup_app in Hnd as [? _]). rewrite Hsplit in Hnd'.
      apply NoDup_app in Hnd' as (_ & Hd & _). by apply (Hd g Hin), list_elem_of_singleton.
    + rewrite lookup_delete_ne, Hent by done. unfold remembered. rewrite Hsplit.
      destruct (decide (g ∈ take (m - 1) (recent h))); [rewrite decide_True by set_solver|rewrite decide_False by set_solver]; done.
  - replace (take (m - 1) (recent h)) with (take m (recent h)) by (rewrite !take_ge by lia; done).
    split; [destruct c; simpl in *; congruence|]. intros g. apply Hent.
Qed.

Lemma Mark_holds m h c obs :
  (0 < m)%nat → holds m h c → (Mark c obs).1 = answer m h obs ∧ holds m (marked h obs) (Mark c obs).2.
Proof.
  intros Hm [Hmax Hwin Hord Hent]. unfold Mark, answer, marked. destruct (fingerprint obs) as [fp|]; [|by split].
  rewrite Hent, Hwin. set (t := ob_EventTime obs).
  assert (∀ g, remembered m ((fp, t) :: h) g =
    if decide (g = fp) then Some t else if decide (g ∈ take m (moveToFront fp (recent h))) then latest h g else None) as Hrem.
  { intros g. unfold remembered. cbn [recent latest]. destruct (decide (fp = g)) as [->|Hne].
    - rewrite decide_True, decide_True by done || (destruct m; [lia|]; left). done.
    - by rewrite (decide_False (P := g = fp)) by congruence. }
  assert (∀ u, remembered m h fp = u → is_Some u ↔ fp ∈ take m (recent h)) as Hiff.
  { intros u <-. unfold remembered. case_decide as Hin; [|split; [by intros []|done]]. split; [done|]. intros _.
    apply recent_latest. apply elem_of_take in Hin as (i & ? & _). by eapply list_elem_of_lookup_2. }
  destruct (remembered m h fp) as [u|] eqn:Eu.
  - assert (fp ∈ take m (recent h)) as Hin by (by apply (Hiff (Some u))).
    pose proof (take_moveToFront fp m (recent h) (recent_NoDup h) Hm Hin) as Htake.
    assert (∀ cc, holds m ((fp, t) :: h) (mkCache (dc_max c) (dc_window c) (<[fp:=t]> (dc_entries c)) (moveToFront fp (dc_order c)) cc (dc_evicted c) (dc_unknown c))) as Hc.
    { intros cc. split; simpl; [done|done|by rewrite Htake, Hord|]. intros g. rewrite Hrem, lookup_insert, Htake, Hent.
      destruct (decide (fp = g)) as [->|Hne]; [by rewrite decide_True|]. rewrite decide_False by congruence. apply decide_ext.
      rewrite elem_moveToFront. naive_solver. }
    destruct (_ <=? _); split; try done; apply Hc.
  - assert (fp ∉ take m (recent h)) as Hout by (intros Hin; by apply (Hiff None) in Hin as []).
    split; [done|]. unfold insert. pose proof (take_absent fp m (recent h) Hout) as Htake.
    destruct (evict_holds m h c Hm (Build_holds _ _ _ Hmax Hwin Hord Hent)) as [-> He].
    split; simpl; [done|done|rewrite Htake; destruct m; [lia|]; cbn [take]; by rewrite take_take, Nat.min_l, Nat.sub_succ, Nat.sub_0_r by lia|].
    intros g. rewrite Hrem, lookup_insert, He, Htake. destruct m as [|m]; [lia|]. cbn [take]. rewrite take_take, Nat.min_l, Nat.sub_succ, Nat.sub_0_r by lia.
    destruct (decide (fp = g)) as [->|Hne]; [by rewrite decide_True|]. rewrite (decide_False (P := g = fp)) by congruence.
    apply decide_ext. rewrite elem_of_cons. naive_solver.
Qed.

Lemma marks_holds m l : ∀ h c,
  (0 < m)%nat → holds m h c →
  (marks c l).1 = answers m h l ∧ holds m (foldl marked h l) (marks c l).2.
Proof.
  induction l as [|obs l IH]; intros h c Hm Hh; simpl; [done|].
  pose proof (Mark_holds m h c obs Hm Hh) as [H1 H2]. destruct (Mark c obs) as [s c']. cbn [fst snd] in *.
  pose proof (IH _ _ Hm H2) as [H3 H4]. destruct (marks c' l) as [ss c'']. simpl in *. by subst.
Qed.

Lemma new_max max : 0 < dc_max (NewDuplicateCache max).
Proof. unfold NewDuplicateCache. cbn [dc_max]. destruct (Z.leb_spec max 0); [done|lia]. Qed.

Lemma new_holds max : let m := Z.to_nat (dc_max (NewDuplicateCache max)) in (0 < m)%nat ∧ holds m [] (NewDuplicateCache max).
Proof.
  intros m. pose proof (new_max max) as Hm. split; [lia|]. split; [lia|done|by cbn [recent]; rewrite take_nil|].
  intros fp. cbn [NewDuplicateCache dc_entries]. rewrite lookup_empty. unfold remembered. by case_decide.
Qed.

Lemma holds_size m h c : holds m h c → NoDup (dc_order c) ∧ Len c ≤ dc_max c ∧ ∀ fp, fp ∈ dc_order c ↔ is_Some (dc_entries c !! fp).
Proof.
  intros [Hmax _ Hord Hent]. unfold Len. rewrite Hord, Hmax. split_and!.
  - pose proof (recent_NoDup h) as Hnd. rewrite <-(take_drop m (recent h)) in Hnd. by apply NoDup_app in Hnd as [? _].
  - rewrite length_take. lia.
  - intros fp. rewrite Hent. unfold remembered. case_decide as Hin; [|split; [done|by intros []]]. split; [|done]. intros _.
    apply recent_latest. apply elem_of_take in Hin as (i & ? & _). by eapply list_elem_of_lookup_2.
Qed.

Lemma t_round_close t u d : 0 < d → t_round t d = t_round u d → Z.abs (t - u) < d.
Proof.
  intros Hd. unfold t_round. rewrite (proj2 (Z.leb_gt d 0)) by lia. pose proof (Z.mod_pos_bound t d Hd). pose proof (Z.mod_pos_bound u d Hd).
  destruct (Z.ltb_spec (t mod d + t mod d) d), (Z.ltb_spec (u mod d + u mod d) d); lia.
Qed.

(** The years 1678 to 2262, where UnixNano does not wrap around. *)
Definition in_nanoseconds (t : time) : Prop := in_int64 (t_round t timeBucket - unix_to_zero * second).

Lemma fingerprint_text_inj ps qs t u :
  length ps = length qs → in_nanoseconds t → in_nanoseconds u →
  fingerprint_text ps t = fingerprint_text qs u → ps = qs ∧ t_round t timeBucket = t_round u timeBucket.
Proof.
  unfold fingerprint_text, in_nanoseconds, t_unix_nano. intros Hl Ht Hu H. apply len_prefixed_all_inj in H as [-> H]; [|done].
  split; [done|]. injection H as H. apply itoa_inj in H. rewrite !wrap64_id in H by done. lia.
Qed.

(** ** Theorems *)

(** the cache is the least-recently-used window it is meant to be.  Over
    any sequence of observations from an empty cache, the answers are those of
    the unbounded record of everything marked, cut to the [max] fingerprints
    marked last: suspected if the fingerprint is among them and its last mark
    within the window, unknown without a fingerprint, and not detected
    otherwise.  The map and the list hold the same fingerprints, each once and
    never more than the bound. *)
Theorem duplicates_of_recent max l :
  let c := NewDuplicateCache max in
  (marks c l).1 = answers (Z.to_nat (dc_max c)) [] l ∧
  dc_order (marks c l).2 = take (Z.to_nat (dc_max c)) (recent (foldl marked [] l)) ∧
  NoDup (dc_order (marks c l).2) ∧ Len (marks c l).2 ≤ dc_max c ∧ 0 < dc_max c ∧
  ∀ fp, fp ∈ dc_order (marks c l).2 ↔ is_Some (dc_entries (marks c l).2 !! fp).
Proof.
  intros c. destruct (new_holds max) as [Hm Hh]. pose proof (new_max max). pose proof (marks_holds _ l [] c Hm Hh) as [H1 H2].
  pose proof (holds_size _ _ _ H2) as (H3 & H4 & H5). split_and!; try done; [by apply H2|].
  rewrite (hd_max _ _ _ H2) in H4. unfold c in *. lia.
Qed.

(** the window never decides.  The fingerprint holds the event time
    rounded to a millisecond, so of two otherwise equal records the second is
    suspected exactly if both round to the same millisecond - less than one
    apart - or two texts collide under SHA-256: the one-second window is never
    the reason for an answer, and copies a microsecond apart on two sides of a
    boundary are not detected. *)
Theorem duplicates_by_bucket max obs copy f f' :
  ob_Flow obs = Some f → ob_Flow copy = Some f' → fingerprint_parts obs f = fingerprint_parts copy f' →
  is_Some (fingerprint obs) → is_Some (fingerprint copy) →
  in_nanoseconds (ob_EventTime obs) → in_nanoseconds (ob_EventTime copy) →
  let text := fingerprint_text (fingerprint_parts obs f) in
  sha256_collision (text (ob_EventTime obs)) (text (ob_EventTime copy)) ∨
  let bucket t := t_round t timeBucket in
  ((Mark (Mark (NewDuplicateCache max) obs).2 copy).1 = DuplicationSuspected ↔
    bucket (ob_EventTime obs) = bucket (ob_EventTime copy)) ∧
  (bucket (ob_EventTime obs) = bucket (ob_EventTime copy) → Z.abs (ob_EventTime obs - ob_EventTime copy) < millisecond).
Proof.
  intros Hf Hf' Hp [fp Hfp] [fp' Hfp'] Ht Ht' text.
  assert (fp = sha256_hex (text (ob_EventTime obs))) as Efp.
  { revert Hfp. unfold fingerprint. rewrite Hf. destruct (_ && _); by intros [=]. }
  assert (fp' = sha256_hex (text (ob_EventTime copy))) as Efp'.
  { revert Hfp'. unfold fingerprint. rewrite Hf', <-Hp. destruct (_ && _); by intros [=]. }
  destruct (new_holds max) as [Hm Hh]. pose proof (Mark_holds _ _ _ obs Hm Hh) as [_ H2].
  pose proof (Mark_holds _ _ _ copy Hm H2) as [H3 _]. rewrite H3. clear H2 H3 Hh. unfold answer, marked. rewrite Hfp, Hfp'.
  unfold remembered. cbn [recent latest moveToFront]. unfold moveToFront. set (m := Z.to_nat _) in *.
  replace (take m (fp :: filter (λ g, g ≠ fp) [])) with [fp] by (by destruct m; [lia|destruct m]).
  destruct (decide (text (ob_EventTime obs) = text (ob_EventTime copy))) as [He|Hne].
  - right. assert (fp = fp') as <- by congruence. rewrite !decide_True by (done || left).
    apply fingerprint_text_inj in He as [_ He]; [|done..]. pose proof (t_round_close _ _ timeBucket eq_refl He) as Hclose. split; [|done].
    split; [done|]. intros _. rewrite (proj2 (Z.leb_le _ _)); [done|]. unfold DuplicateWindow, d_abs, timeBucket, millisecond, second in *.
    rewrite t_sub_exact by (unfold in_int64, min_int64, max_int64; lia). destruct (Z.eqb_spec (ob_EventTime copy - ob_EventTime obs) min_int64); [unfold min_int64 in *; lia|lia].
  - destruct (decide (fp = fp')) as [<-|Hfps]; [left; split; [done|congruence]|]. right.
    rewrite decide_False by (intros ?%list_elem_of_singleton; congruence). split.
    + split; [done|]. intros He. exfalso. apply Hne. unfold text, fingerprint_text, t_unix_nano. by rewrite He.
    + intros He. by apply (t_round_close _ _ timeBucket).
Qed.

(** ** Witnesses *)

Definition example_obs (t : time) : Observation :=
  mkObs SchemaVersion "id" t t (mkSource SourceZeek "7.0") (Some (mkTap "trawl" "tap" "u")) (mkTarget "n" "eth0" "") TypeConnection
    (Some (mkFlow "1:x" "" "tcp" None (mkEndpoint "10.0.0.1" (Some 40000) "" "" "" "") (mkEndpoint "10.0.0.2" (Some 443) "" "" "" "")))
    (mkDetails None None None None None None None None None None).

Definition example_time : time := (unix_to_zero + 1700000000) * second.

(** A copy four hundred microseconds later is suspected; one a nanosecond
    later, past the middle of a millisecond, is not. *)
Definition example_middle : time := example_time + 499999.

Lemma duplicates_by_bucket_witness :
  (marks (NewDuplicateCache 0) [example_obs example_time; example_obs (example_time + 400000)]).1 = [DuplicationNotDetected; DuplicationSuspected] ∧
  (marks (NewDuplicateCache 0) [example_obs example_middle; example_obs (example_middle + 1)]).1 = [DuplicationNotDetected; DuplicationNotDetected] ∧
  let text := fingerprint_text (fingerprint_parts (example_obs 0) (default (mkFlow "" "" "" None (mkEndpoint "" None "" "" "" "") (mkEndpoint "" None "" "" "" ""))
    (ob_Flow (example_obs 0)))) in
  sha256_collision (text example_middle) (text (example_middle + 1)) ∨
  ((Mark (Mark (NewDuplicateCache 0) (example_obs example_middle)).2 (example_obs (example_middle + 1))).1 = DuplicationSuspected ↔
    t_round example_middle timeBucket = t_round (example_middle + 1) timeBucket).
Proof.
  split; [vm_compute; reflexivity|]. split; [vm_compute; reflexivity|]. intros text.
  assert (∀ t, is_Some (fingerprint (example_obs t))) as Hs by (intros t; by eexists).
  destruct (duplicates_by_bucket 0 (example_obs example_middle) (example_obs (example_middle + 1)) _ _ eq_refl eq_refl eq_refl (Hs _) (Hs _))
    as [Hc|[Hiff _]]; [vm_compute; split; discriminate|vm_compute; split; discriminate|by left|by right].
Defined.

End SensorDedup.
