(* ===== verification/PacketMeter.v ===== *)
(** * Packets at the capture boundary, internal/sensor/packet_meter.go

    The meter that turns an analyzer's cumulative counters, which start over
    when it does, into running totals, and the metrics cmd/sensor-agent/main.go
    makes of its increments.  A metric's float64 is its integer. *)

From S2P Require Import Prelude GoTime GoString Observation Analyzers.

Module PacketMeter.
Import Analyzers.

Inductive counterSource := sourceNone | sourceKernel | sourceDecoder.

#[export] Instance counterSource_eq_dec : EqDecision counterSource.
Proof. solve_decision. Defined.

Record PacketMeter := mkMeter {
  pm_observed : Z;
  pm_last : Z;
  pm_lastSource : counterSource;
  pm_drops : option Z;
  pm_bytes : Z;
  pm_lastBytes : Z;
  pm_haveBytes : bool;
  pm_lastPacket : option time;
}.

Record Increment := mkIncrement { in_Packets : Z; in_Drops : option Z; in_Bytes : Z; in_LastPacket : time }.

Record PacketCounters := mkCounters {
  pc_PacketsObserved : Z;
  pc_KernelDrops : option Z;
  pc_BytesObserved : option Z;
  pc_LastPacketTime : option time;
}.

Definition NewPacketMeter : PacketMeter := mkMeter 0 0 sourceNone None 0 0 false None.

Definition packetReading (stats : SuricataStats) : Z * counterSource :=
  match st_KernelPackets stats with
  | Some k => (k, sourceKernel)
  | None => match st_DecoderPackets stats with Some d => (d, sourceDecoder) | None => (0, sourceNone) end
  end.

(** What the record added, whether it carried bytes, and the fields after. *)
Definition foldBytes (m : PacketMeter) (stats : SuricataStats) : Z * bool * PacketMeter :=
  match st_DecoderBytes stats with
  | None => (0, false, m)
  | Some raw =>
      let bytes :=
        if negb (pm_haveBytes m) then wrap64 (pm_bytes m + raw)
        else if raw <? pm_lastBytes m then wrap64 (pm_bytes m + raw)
        else wrap64 (pm_bytes m + wrap64 (raw - pm_lastBytes m)) in
      (wrap64 (bytes - pm_bytes m), true,
       mkMeter (pm_observed m) (pm_last m) (pm_lastSource m) (pm_drops m) bytes raw true (pm_lastPacket m))
  end.

(** The packet total after a reading. *)
Definition fold_packets (m : PacketMeter) (raw : Z) (source : counterSource) : Z :=
  if bool_decide (source = sourceNone) then pm_observed m
  else if bool_decide (pm_lastSource m = sourceNone) then wrap64 (pm_observed m + raw)
  else if negb (bool_decide (source = pm_lastSource m)) then pm_observed m
  else if raw <? pm_last m then wrap64 (pm_observed m + raw)
  else wrap64 (pm_observed m + wrap64 (raw - pm_last m)).

Definition measure (m : PacketMeter) (stats : SuricataStats) : option Increment * PacketMeter :=
  let m := match st_KernelDrops stats with
           | Some d => mkMeter (pm_observed m) (pm_last m) (pm_lastSource m) (Some d) (pm_bytes m) (pm_lastBytes m) (pm_haveBytes m) (pm_lastPacket m)
           | None => m
           end in
  let '(bytesAdded, measuredBytes, m) := foldBytes m stats in
  let '(raw, source) := packetReading stats in
  if bool_decide (source = sourceNone) && negb measuredBytes then (None, m) else
  let before := pm_observed m in
  let observed := fold_packets m raw source in
  let grew := before <? observed in
  let '(last, lastSource) := if bool_decide (source = sourceNone) then (pm_last m, pm_lastSource m) else (raw, source) in
  (Some (mkIncrement (wrap64 (observed - before)) (pm_drops m) bytesAdded (if grew then st_Timestamp stats else 0)),
   mkMeter observed last lastSource (pm_drops m) (pm_bytes m) (pm_lastBytes m) (pm_haveBytes m)
     (if grew then Some (st_Timestamp stats) else pm_lastPacket m)).

(** What the observer is given, if it is called. *)
Definition Observe (m : PacketMeter) (stats : option SuricataStats) : option Increment * PacketMeter :=
  match stats with None => (None, m) | Some s => measure m s end.

Definition Counters (m : PacketMeter) : PacketCounters :=
  mkCounters (pm_observed m) (pm_drops m) (if pm_haveBytes m then Some (pm_bytes m) else None) (pm_lastPacket m).

(** ** packetMetrics *)

(** The exported counters, and the drops reported so far. *)
Record Metrics := mkMetrics {
  me_Packets : Z;
  me_Bytes : Z;
  me_Drops : Z;
  me_LastPacket : option Z;
  me_reported : Z;
}.

Definition no_metrics : Metrics := mkMetrics 0 0 0 None 0.

Definition packetMetrics (s : Metrics) (inc : Increment) : Metrics :=
  let packets := if 0 <? in_Packets inc then me_Packets s + in_Packets inc else me_Packets s in
  let bytes := if 0 <? in_Bytes inc then me_Bytes s + in_Bytes inc else me_Bytes s in
  let '(drops, reported) :=
    match in_Drops inc with
    | None => (me_Drops s, me_reported s)
    | Some d =>
        let added := wrap64 (d - me_reported s) in
        let added := if added <? 0 then d else added in
        (if 0 <? added then me_Drops s + added else me_Drops s, d)
    end in
  let last := if negb (is_zero (in_LastPacket inc)) then Some (t_unix (in_LastPacket inc)) else me_LastPacket s in
  mkMetrics packets bytes drops last reported.

(** Stats records one after the other, with the metrics of their increments. *)
Definition observe_step (s : PacketMeter * Metrics) (stats : SuricataStats) : PacketMeter * Metrics :=
  let '(inc, m) := Observe s.1 (Some stats) in
  (m, match inc with Some inc => packetMetrics s.2 inc | None => s.2 end).

Definition observe_all (l : list SuricataStats) : PacketMeter * Metrics := foldl observe_step (NewPacketMeter, no_metrics) l.

(** ** The reference

    A cumulative counter starts over when its process does.  The readings fall
    into runs that do not decrease; what was counted is the sum of the last
    reading of every run. *)
Fixpoint run_total (l : list Z) : Z :=
  match l with
  | [] => 0
  | x :: rest => (match rest with [] => x | y :: _ => if y <? x then x else 0 end) + run_total rest
  end.

Definition added (last : option Z) (x : Z) : Z :=
  match last with None => x | Some y => if x <? y then x else x - y end.

(** ** Lemmas *)

Lemma run_total_snoc l x : run_total (l ++ [x]) = run_total l + added (last l) x.
Proof.
  induction l as [|y l IH]; [simpl; lia|]. cbn [app run_total]. rewrite IH, last_cons.
  destruct l as [|z l]; cbn [app last added run_total]; [destruct (Z.ltb_spec x y); lia|].
  destruct (last (z :: l)) as [w|] eqn:El; [lia|]. by apply last_None in El.
Qed.

Lemma added_nonneg o x : 0 ≤ x → 0 ≤ added o x.
Proof. destruct o as [y|]; simpl; [destruct (Z.ltb_spec x y)|]; lia. Qed.

Definition packets (l : list SuricataStats) : list Z := (λ s, (packetReading s).1) <$> l.
Definition bytes (l : list SuricataStats) : list Z := omap st_DecoderBytes l.
Definition drops (l : list SuricataStats) : list Z := omap st_KernelDrops l.

(** Counters of one analyzer: one source, nothing negative, no overflow. *)
Record plausible (source : counterSource) (l : list SuricataStats) : Prop := {
  pl_source : Forall (λ s, (packetReading s).2 = source) l;
  pl_nonneg : Forall (λ x, 0 ≤ x) (packets l ++ bytes l ++ drops l);
  pl_packets : run_total (packets l) ≤ max_int64;
  pl_bytes : run_total (bytes l) ≤ max_int64;
  pl_drops : run_total (drops l) ≤ max_int64;
}.

Lemma run_total_nonneg l : Forall (λ x, 0 ≤ x) l → 0 ≤ run_total l.
Proof.
  induction l as [|x l IH] using rev_ind; [done|]. rewrite Forall_app, Forall_singleton, run_total_snoc. intros [Hl Hx].
  pose proof (added_nonneg (last l) x Hx). specialize (IH Hl). lia.
Qed.

Lemma last_le_total l y : Forall (λ x, 0 ≤ x) l → last l = Some y → y ≤ run_total l.
Proof.
  revert y. induction l as [|x l IH] using rev_ind; intros y; [done|]. rewrite Forall_app, last_snoc, run_total_snoc. intros [Hl Hx] [= <-].
  pose proof (run_total_nonneg l Hl). unfold added. destruct (last l) as [z|]; [|lia]. specialize (IH z Hl eq_refl).
  destruct (Z.ltb_spec x z); lia.
Qed.

(** A counter takes its step within the range of an int64. *)
Lemma added_in_range l x :
  Forall (λ x, 0 ≤ x) (l ++ [x]) → run_total (l ++ [x]) ≤ max_int64 →
  0 ≤ run_total l ∧ 0 ≤ x ∧ run_total (l ++ [x]) = run_total l + added (last l) x ∧ 0 ≤ added (last l) x ∧ run_total l ≤ max_int64 ∧
  (∀ y, last l = Some y → 0 ≤ y) ∧ (∀ y, last l = Some y → y ≤ x → x - y ≤ max_int64) ∧ (last l = None → x ≤ max_int64).
Proof.
  rewrite Forall_app, Forall_singleton, run_total_snoc. intros [Hl Hx] Hr. pose proof (run_total_nonneg l Hl). pose proof (added_nonneg (last l) x Hx).
  split_and!; try lia.
  - intros y Hy. apply last_Some_elem_of in Hy. rewrite Forall_forall in Hl. by apply Hl.
  - intros y Hy Hle. unfold added in Hr. rewrite Hy in Hr. destruct (Z.ltb_spec x y); lia.
  - intros Hy. unfold added in Hr. rewrite Hy in Hr. lia.
Qed.

Lemma wrap64_nonneg z : 0 ≤ z ≤ max_int64 → wrap64 z = z.
Proof. intros. apply wrap64_id. unfold in_int64, min_int64. lia. Qed.

(** The step of a total whose last reading is known. *)
Lemma total_step l x :
  Forall (λ x, 0 ≤ x) (l ++ [x]) → run_total (l ++ [x]) ≤ max_int64 →
  (match last l with
   | None => wrap64 (run_total l + x)
   | Some y => if x <? y then wrap64 (run_total l + x) else wrap64 (run_total l + wrap64 (x - y))
   end) = run_total (l ++ [x]) ∧
  wrap64 (run_total (l ++ [x]) - run_total l) = run_total (l ++ [x]) - run_total l.
Proof.
  intros Hn Hr. destruct (added_in_range l x Hn Hr) as (H1 & H2 & H3 & H4 & H5 & H6 & H7 & H8). rewrite H3 in *. split; [|apply wrap64_nonneg; lia].
  destruct (last l) as [y|]; simpl in *; [destruct (Z.ltb_spec x y)|]; rewrite ?(wrap64_nonneg (x - y)) by (specialize (H7 y eq_refl); lia);
    apply wrap64_nonneg; lia.
Qed.

(** What the meter and the metrics hold after the records so far. *)
Record totals (source : counterSource) (l : list SuricataStats) (m : PacketMeter) (me : Metrics) : Prop := {
  to_observed : pm_observed m = run_total (packets l);
  to_last : last (packets l) = if bool_decide (pm_lastSource m = sourceNone) then None else Some (pm_last m);
  to_source : pm_lastSource m = sourceNone ∨ pm_lastSource m = source;
  to_bytes : pm_bytes m = run_total (bytes l);
  to_lastBytes : last (bytes l) = if pm_haveBytes m then Some (pm_lastBytes m) else None;
  to_drops : pm_drops m = last (drops l);
  to_packet : pm_lastPacket m = None ↔ pm_observed m = 0;
  to_mpackets : me_Packets me = run_total (packets l);
  to_mbytes : me_Bytes me = run_total (bytes l);
  to_mdrops : me_Drops me = run_total (drops l);
  to_reported : me_reported me = default 0 (last (drops l));
}.

Lemma omap_snoc {A B} (f : A → option B) l x : omap f (l ++ [x]) = omap f l ++ (match f x with Some y => [y] | None => [] end).
Proof. by rewrite omap_app. Qed.

Lemma foldBytes_total l s m :
  Forall (λ x, 0 ≤ x) (bytes (l ++ [s])) → run_total (bytes (l ++ [s])) ≤ max_int64 →
  pm_bytes m = run_total (bytes l) → last (bytes l) = (if pm_haveBytes m then Some (pm_lastBytes m) else None) →
  let '(bytesAdded, _, m') := foldBytes m s in
  bytesAdded = run_total (bytes (l ++ [s])) - run_total (bytes l) ∧ pm_bytes m' = run_total (bytes (l ++ [s])) ∧
  last (bytes (l ++ [s])) = (if pm_haveBytes m' then Some (pm_lastBytes m') else None) ∧
  pm_observed m' = pm_observed m ∧ pm_last m' = pm_last m ∧ pm_lastSource m' = pm_lastSource m ∧ pm_drops m' = pm_drops m ∧
  pm_lastPacket m' = pm_lastPacket m.
Proof.
  unfold bytes. rewrite omap_snoc. unfold foldBytes. destruct (st_DecoderBytes s) as [raw|].
  2: { rewrite app_nil_r. intros. by rewrite Z.sub_diag. }
  intros Hn Hr Hb Hl. destruct (total_step _ _ Hn Hr) as [H1 H2]. rewrite Hl in H1. cbn [pm_bytes pm_haveBytes pm_lastBytes].
  rewrite last_snoc. destruct (pm_haveBytes m); cbn [negb]; rewrite Hb, H1, H2; by split_and!.
Qed.

Lemma packetMetrics_drops l d me :
  Forall (λ x, 0 ≤ x) (l ++ [d]) → run_total (l ++ [d]) ≤ max_int64 →
  me_Drops me = run_total l → me_reported me = default 0 (last l) →
  let added := wrap64 (d - me_reported me) in
  let added := if added <? 0 then d else added in
  (if 0 <? added then me_Drops me + added else me_Drops me) = run_total (l ++ [d]).
Proof.
  intros Hn Hr Hd Hrep. destruct (added_in_range l d Hn Hr) as (H1 & H2 & H3 & H4 & H5 & H6 & H7 & H8). rewrite H3, Hd, Hrep in *. simpl.
  unfold added in *. destruct (last l) as [y|] eqn:El; simpl in *.
  - specialize (H6 y eq_refl). specialize (H7 y eq_refl). destruct (Z.ltb_spec d y).
    + assert (wrap64 (d - y) = d - y) as -> by (apply wrap64_id; pose proof (last_le_total l y) as Hy; rewrite El in Hy; apply Forall_app in Hn as [Hn _]; specialize (Hy Hn eq_refl); unfold in_int64, min_int64, max_int64 in *; lia).
      rewrite (proj2 (Z.ltb_lt (d - y) 0)) by lia. destruct (Z.ltb_spec 0 d); lia.
    + rewrite wrap64_nonneg by lia. rewrite (proj2 (Z.ltb_ge (d - y) 0)) by lia. destruct (Z.ltb_spec 0 (d - y)); lia.
  - specialize (H8 eq_refl). rewrite Z.sub_0_r, wrap64_nonneg by lia. rewrite (proj2 (Z.ltb_ge d 0)) by lia. destruct (Z.ltb_spec 0 d); lia.
Qed.

Lemma packetMetrics_total l s me inc :
  Forall (λ x, 0 ≤ x) (drops (l ++ [s])) → run_total (drops (l ++ [s])) ≤ max_int64 →
  me_Drops me = run_total (drops l) → me_reported me = default 0 (last (drops l)) →
  in_Drops inc = last (drops (l ++ [s])) → 0 ≤ in_Packets inc → 0 ≤ in_Bytes inc →
  let me' := packetMetrics me inc in
  me_Packets me' = me_Packets me + in_Packets inc ∧ me_Bytes me' = me_Bytes me + in_Bytes inc ∧
  me_Drops me' = run_total (drops (l ++ [s])) ∧ me_reported me' = default 0 (last (drops (l ++ [s]))).
Proof.
  intros Hn Hr Hd Hrep Hin Hp Hb me'. unfold me', packetMetrics. rewrite Hin.
  assert (∀ a b : Z, 0 ≤ b → (if 0 <? b then a + b else a) = a + b) as Hadd by (intros a b ?; destruct (Z.ltb_spec 0 b); lia).
  unfold drops in *. rewrite omap_snoc in *. destruct (st_KernelDrops s) as [d|].
  - rewrite last_snoc. simpl. rewrite !Hadd by done. split_and!; [done..| |done]. by apply packetMetrics_drops.
  - rewrite app_nil_r in *. destruct (last (omap st_KernelDrops l)) as [d|] eqn:El; simpl; rewrite !Hadd by done; [|by split_and!].
    rewrite Hrep. cbn [default]. rewrite Z.sub_diag. by split_and!.
Qed.

Lemma observe_total source l s m me :
  source ≠ sourceNone → plausible source (l ++ [s]) → totals source l m me →
  let '(m', me') := observe_step (m, me) s in totals source (l ++ [s]) m' me'.
Proof.
  intros Hsrc [Hs Hn Hp Hb Hd] [T1 T2 T3 T4 T5 T6 T7 T8 T9 T10 T11].
  apply Forall_app in Hs as [_ Hs]. rewrite Forall_singleton in Hs. apply Forall_app in Hn as [Hnp [Hnb Hnd]%Forall_app].
  set (m0 := match st_KernelDrops s with
    | Some d => mkMeter (pm_observed m) (pm_last m) (pm_lastSource m) (Some d) (pm_bytes m) (pm_lastBytes m) (pm_haveBytes m) (pm_lastPacket m)
    | None => m end).
  assert (pm_drops m0 = last (drops (l ++ [s]))) as Hdrops.
  { unfold drops, m0. rewrite omap_snoc. destruct (st_KernelDrops s); [by rewrite last_snoc|by rewrite app_nil_r]. }
  assert (pm_observed m0 = pm_observed m ∧ pm_last m0 = pm_last m ∧ pm_lastSource m0 = pm_lastSource m ∧ pm_bytes m0 = pm_bytes m ∧
    pm_lastBytes m0 = pm_lastBytes m ∧ pm_haveBytes m0 = pm_haveBytes m ∧ pm_lastPacket m0 = pm_lastPacket m)
    as (E1 & E2 & E3 & E4 & E5 & E6 & E7) by (unfold m0; by destruct (st_KernelDrops s)).
  pose proof (foldBytes_total l s m0 Hnb Hb ltac:(by rewrite E4) ltac:(by rewrite E6, E5)) as Hfold.
  unfold observe_step, Observe, measure. cbn [fst snd]. cbv zeta. fold m0.
  destruct (foldBytes m0 s) as [[ba mb] m1]. destruct Hfold as (F1 & F2 & F3 & F4 & F5 & F6 & F7 & F8).
  cbn beta in Hs. destruct (packetReading s) as [raw src] eqn:Er. cbn [snd] in Hs. subst src. rewrite (bool_decide_eq_false_2 (source = sourceNone)) by done. cbn [andb].
  assert (packets (l ++ [s]) = packets l ++ [raw]) as Hpk by (unfold packets; rewrite fmap_app; cbn; by rewrite Er). rewrite Hpk in *.
  destruct (total_step _ _ Hnp Hp) as [P1 P2].
  assert (fold_packets m1 raw source = run_total (packets l ++ [raw])) as Hf.
  { unfold fold_packets. rewrite (bool_decide_eq_false_2 (source = sourceNone)) by done. rewrite F4, F5, F6, E1, E2, E3, T1, <-P1, T2.
    destruct T3 as [->| ->]; [done|]. by rewrite (bool_decide_eq_false_2 (source = sourceNone)), bool_decide_eq_true_2 by done. }
  assert (0 ≤ run_total (packets l) ≤ run_total (packets l ++ [raw])) as Hmono.
  { destruct (added_in_range _ _ Hnp Hp) as (? & ? & -> & ? & _). lia. }
  cbv zeta. cbn match. rewrite Hf, F4, E1, T1, P2.
  set (inc := mkIncrement _ _ _ _).
  assert (0 ≤ run_total (bytes (l ++ [s])) - run_total (bytes l)) as Hbmono.
  { unfold bytes in *. rewrite omap_snoc in *. destruct (st_DecoderBytes s); [|rewrite app_nil_r; lia].
    destruct (added_in_range _ _ Hnb Hb) as (? & ? & -> & ? & _). lia. }
  destruct (packetMetrics_total l s me inc Hnd Hd T10 T11) as (M1 & M2 & M3 & M4); [cbn; congruence|cbn; lia|cbn; lia|].
  split; cbn [pm_observed pm_last pm_lastSource pm_drops pm_bytes pm_lastBytes pm_haveBytes pm_lastPacket].
  - by rewrite Hpk.
  - rewrite Hpk, last_snoc. by rewrite bool_decide_eq_false_2.
  - by right.
  - done.
  - done.
  - by rewrite F7.
  - rewrite F8, E7. destruct (Z.ltb_spec (run_total (packets l)) (run_total (packets l ++ [raw]))); [split; [done|lia]|]. rewrite T7, T1. lia.
  - rewrite M1, T8, Hpk. unfold inc. cbn [in_Packets]. lia.
  - rewrite M2, T9. unfold inc. cbn [in_Bytes]. lia.
  - exact M3.
  - exact M4.
Qed.

Lemma plausible_prefix source l s : plausible source (l ++ [s]) → plausible source l.
Proof.
  assert (∀ k l1 l2, Forall (λ x, 0 ≤ x) (l1 ++ l2) → run_total (l1 ++ l2) ≤ k → run_total l1 ≤ k) as Hpre.
  { intros k l1 l2. revert l1. induction l2 as [|x l2 IH]; intros l1; [by rewrite app_nil_r|].
    rewrite (cons_middle x), app_assoc. intros Hn Hr. assert (run_total (l1 ++ [x]) ≤ k) as H by (by apply IH).
    assert (Forall (λ x, 0 ≤ x) (l1 ++ [x])) as Hn1 by (by apply Forall_app in Hn as [? _]).
    rewrite run_total_snoc in H. apply Forall_app in Hn1 as [_ Hx]. rewrite Forall_singleton in Hx.
    pose proof (added_nonneg (last l1) x Hx). lia. }
  intros [Hs Hn Hp Hb Hd]. unfold packets, bytes, drops in *. rewrite fmap_app, !omap_app in *.
  apply Forall_app in Hs as [Hs _]. apply Forall_app in Hn as [Hn1 [Hn2 Hn3]%Forall_app].
  split; [done| | | |]; unfold packets, bytes, drops; [|by eapply Hpre..].
  rewrite !Forall_app in *. tauto.
Qed.

Lemma observe_all_totals source l :
  source ≠ sourceNone → plausible source l → totals source l (observe_all l).1 (observe_all l).2.
Proof.
  intros Hs. induction l as [|s l IH] using rev_ind; intros Hp.
  { split; try done. by left. }
  specialize (IH (plausible_prefix _ _ _ Hp)). pose proof (observe_total _ _ _ _ _ Hs Hp IH) as H.
  unfold observe_all in *. rewrite foldl_snoc. destruct (foldl observe_step _ l) as [m me]. cbn [fst snd] in *.
  by destruct (observe_step (m, me) s).
Qed.

(** ** Theorems *)

(** C27: what crossed the capture boundary.  From the stats records of one
    analyzer that all read the same counter, with totals of 64 bits, and
    however often it restarts - a run begins where a reading falls: the
    packets and bytes of the status are the sums of the last readings of the
    runs, and its drops the last reading reported; the exported counters of
    packets, bytes and drops are the sums over the runs; and a last packet is
    claimed exactly if one was counted.  For records that change from one
    counter to the other see [alternating_counters_lost]. *)
Theorem meter_counts_runs source l :
  source ≠ sourceNone → plausible source l →
  let '(m, me) := observe_all l in
  Counters m = mkCounters (run_total (packets l)) (last (drops l))
    (match bytes l with [] => None | _ => Some (run_total (bytes l)) end) (pm_lastPacket m) ∧
  (pm_lastPacket m = None ↔ run_total (packets l) = 0) ∧
  me_Packets me = run_total (packets l) ∧ me_Bytes me = run_total (bytes l) ∧ me_Drops me = run_total (drops l).
Proof.
  intros Hs Hp. pose proof (observe_all_totals source l Hs Hp) as [T1 T2 T3 T4 T5 T6 T7 T8 T9 T10 T11].
  destruct (observe_all l) as [m me]. cbn [fst snd] in *. rewrite T1 in T7. split_and!; try done.
  unfold Counters. rewrite T1, T4, T6. f_equal. destruct (pm_haveBytes m); destruct (bytes l) as [|x b] eqn:Eb; try done.
  by rewrite last_cons in T5; destruct (last b).
Qed.

(** a change of counter loses what it spans.  When the readings change
    from one of Suricata's two counters to the other, whatever was counted in
    between is in neither total; a capture whose records alternate between the
    two is never counted after the first of them. *)
Theorem alternating_counters_lost m s :
  pm_lastSource m ≠ sourceNone → (packetReading s).2 ≠ pm_lastSource m →
  pm_observed (observe_step (m, no_metrics) s).1 = pm_observed m ∧
  ((packetReading s).2 ≠ sourceNone → pm_lastSource (observe_step (m, no_metrics) s).1 = (packetReading s).2).
Proof.
  intros Hl Hne. unfold observe_step, Observe, measure. cbn [fst snd]. cbv zeta.
  set (m0 := match st_KernelDrops s with Some d => _ | None => m end).
  assert (pm_lastSource m0 = pm_lastSource m ∧ pm_observed m0 = pm_observed m) as [E1 E2] by (unfold m0; by destruct (st_KernelDrops s)).
  destruct (foldBytes m0 s) as [[ba mb] m1] eqn:Ef.
  assert (pm_lastSource m1 = pm_lastSource m ∧ pm_observed m1 = pm_observed m) as [F1 F2].
  { unfold foldBytes in Ef. destruct (st_DecoderBytes s); simplify_eq; by split. }
  destruct (packetReading s) as [raw src]. cbn [snd] in *.
  destruct (bool_decide (src = sourceNone) && negb mb) eqn:En; [split; [done|]|].
  { intros Hsrc. by rewrite (bool_decide_eq_false_2 _ Hsrc) in En. }
  unfold fold_packets. case_bool_decide as Hsrc; [by split|]. rewrite F1, bool_decide_eq_false_2, bool_decide_eq_false_2 by done. by split.
Qed.

(** ** Witnesses *)

Definition example_stats (packets drops bytes : Z) : SuricataStats := mkSuricataStats (Some packets) (Some drops) None (Some bytes) 1.

(** Three readings, a restart and two more. *)
Definition example_records : list SuricataStats :=
  [example_stats 100 0 5000; example_stats 250 2 9000; example_stats 250 2 9000; example_stats 40 0 700; example_stats 60 1 900].

Lemma meter_counts_runs_witness :
  run_total (packets example_records) = 310 ∧
  let '(m, me) := observe_all example_records in
  Counters m = mkCounters (run_total (packets example_records)) (last (drops example_records))
    (match bytes example_records with [] => None | _ => Some (run_total (bytes example_records)) end) (pm_lastPacket m) ∧
  (pm_lastPacket m = None ↔ run_total (packets example_records) = 0) ∧
  me_Packets me = run_total (packets example_records) ∧ me_Bytes me = run_total (bytes example_records) ∧ me_Drops me = run_total (drops example_records).
Proof.
  split; [reflexivity|]. apply (meter_counts_runs sourceKernel example_records); [discriminate|].
  split; try (vm_compute; discriminate); [|]; apply (bool_decide_unpack _); vm_compute; exact Logic.I.
Defined.

Lemma alternating_counters_lost_witness :
  pm_observed (observe_step ((observe_all example_records).1, no_metrics) (mkSuricataStats None None (Some 1000000) None 2)).1 = 310.
Proof.
  rewrite (proj1 (alternating_counters_lost (observe_all example_records).1 (mkSuricataStats None None (Some 1000000) None 2) ltac:(vm_compute; discriminate)
    ltac:(vm_compute; discriminate))).
  vm_compute. reflexivity.
Defined.

End PacketMeter.
