(* ===== verification/Policy.v ===== *)
(** * Matching, deduplication and rate limits, internal/policy

    suricata.go, hubble.go, dedup.go and rate_limit.go.  Matching is a pure
    function of a trigger and an observation; the rolling window is the one
    piece of state.  Filter templates (template.go) are not here. *)

From Stdlib Require Import Ascii.
From S2P Require Import Prelude GoTime GoString Utf8 Sha256 Api Observation.

Module Policy.
Import Observation.Observation.

(** ** suricata.go *)

Inductive NotMatchedReason :=
  | ReasonNone
  | ReasonNotAnAlert | ReasonSeverityNotListed | ReasonRuleNotListed | ReasonCategoryNotListed
  | ReasonNotAClusterFlow | ReasonDropReasonNotListed | ReasonNotDenied
  | ReasonNamespaceNotListed | ReasonBelowThreshold | ReasonDifferentTap.

#[global] Instance not_matched_reason_eq_dec : EqDecision NotMatchedReason.
Proof. solve_decision. Defined.

Record Decision := mkDecision { dec_Matched : bool; dec_Reason : NotMatchedReason }.

Definition matched : Decision := mkDecision true ReasonNone.
Definition refused (r : NotMatchedReason) : Decision := mkDecision false r.

(** [slices.Contains] *)
Definition contains {A} `{EqDecision A} (l : list A) (x : A) : bool := bool_decide (x ∈ l).

Definition MatchSuricata (t : SuricataAlertTrigger) (obs : Observation) : Decision :=
  match d_Signature (ob_Details obs) with
  | None => refused ReasonNotAnAlert
  | Some sig =>
      if negb (bool_decide (src_Kind (ob_Source obs) = SourceSuricata))
      then refused ReasonNotAnAlert else
      if negb (contains (sat_Severities t) (sig_Severity sig))
      then refused ReasonSeverityNotListed else
      if (0 <? Z.of_nat (length (sat_RuleIDs t))) && negb (contains (sat_RuleIDs t) (sig_RuleID sig))
      then refused ReasonRuleNotListed else
      if (0 <? Z.of_nat (length (sat_Categories t))) &&
         negb (contains (sat_Categories t) (sig_Category sig))
      then refused ReasonCategoryNotListed else matched
  end.

Definition EventFingerprint (obs : Observation) : str := "sha256:" +:+ sha256_hex (ob_ID obs).

Definition maxSnapshotCategory : Z := 128.
Definition maxSnapshotMessage : Z := 512.
Definition maxSnapshotReason : Z := 64.
Definition maxSnapshotNamespace : Z := 253.

(** The loop of [truncate]: the longest valid prefix of at most [cut] bytes. *)
Fixpoint truncate_loop (cut : nat) (s : str) : nat :=
  match cut with
  | O => O
  | S c => if valid_string (str_take cut s) then cut else truncate_loop c s
  end.

Definition truncate (s : str) (max : Z) : str :=
  if slen s <=? max then s else str_take (truncate_loop (Z.to_nat max) s) s.

Definition flowSnapshot (flow : option Flow) : option FlowSnapshot :=
  match flow with
  | None => None
  | Some flow => Some
      {| fs_SourceIP := ep_IP (fl_Source flow);
         fs_SourcePort := default 0 (ep_Port (fl_Source flow));
         fs_DestinationIP := ep_IP (fl_Destination flow);
         fs_DestinationPort := default 0 (ep_Port (fl_Destination flow));
         fs_Protocol := fl_Protocol flow;
         fs_CommunityID := fl_CommunityID flow |}
  end.

(** The revision is carried only when it fits a non-negative int32. *)
Definition snapshot_revision (revision : option Z) : Z :=
  match revision with
  | Some r => if (0 <=? r) && (r <=? max_int32) then r else 0
  | None => 0
  end.

Definition SuricataSnapshot (obs : Observation) (fingerprint : str) : result str TriggerSnapshot :=
  match d_Signature (ob_Details obs) with
  | None => Err ("observation " +:+ ob_ID obs +:+ " carries no signature")
  | Some sig => Ok
      {| ts_Source := TriggerSourceSuricataAlert;
         ts_Fingerprint := fingerprint;
         ts_EventTime := ob_EventTime obs;
         ts_ObservedAt := ob_ObservedAt obs;
         ts_Flow := flowSnapshot (ob_Flow obs);
         ts_Suricata := Some
           {| stc_RuleID := sig_RuleID sig;
              stc_Revision := snapshot_revision (sig_Revision sig);
              stc_Severity := sig_Severity sig;
              stc_Category := truncate (sig_Category sig) maxSnapshotCategory;
              stc_Message := truncate (sig_Message sig) maxSnapshotMessage |};
         ts_Hubble := None |}
  end.

(** ** hubble.go *)

Definition verdictDropped : str := "DROPPED".

Definition MatchHubbleDrop (t : HubbleDropTrigger) (obs : Observation) : Decision :=
  match d_ClusterFlow (ob_Details obs) with
  | None => refused ReasonNotAClusterFlow
  | Some flow =>
      if negb (bool_decide (src_Kind (ob_Source obs) = SourceHubble))
      then refused ReasonNotAClusterFlow else
      if negb (bool_decide (cfl_Verdict flow = verdictDropped)) then refused ReasonNotDenied else
      if negb (contains (hdt_Reasons t) (cfl_DropReason flow))
      then refused ReasonDropReasonNotListed else
      if (0 <? Z.of_nat (length (hdt_SourceNamespaces t))) &&
         match ob_Flow obs with
         | None => true
         | Some f => negb (contains (hdt_SourceNamespaces t) (ep_Namespace (fl_Source f)))
         end
      then refused ReasonNamespaceNotListed else matched
  end.

Record ThresholdCount := mkThresholdCount { tc_Count : Z; tc_Reached : bool }.

Record ThresholdWindow := mkThresholdWindow {
  tw_count : Z;
  tw_window : duration;
  tw_newest : time;
  tw_events : gmap string Z;
}.

Definition NewThresholdWindow (count : Z) (d : duration) : ThresholdWindow :=
  mkThresholdWindow count d 0 ∅.

Definition expire (w : ThresholdWindow) : ThresholdWindow :=
  let cutoff := t_add (tw_newest w) (wrap64 (- tw_window w)) in
  mkThresholdWindow (tw_count w) (tw_window w) (tw_newest w)
    (filter (λ kv, t_before kv.2 cutoff = false) (tw_events w)).

Definition Observe (w : ThresholdWindow) (obs : Observation) : ThresholdWindow * ThresholdCount :=
  let w :=
    match tw_events w !! ob_ID obs with
    | Some _ => w
    | None =>
        mkThresholdWindow (tw_count w) (tw_window w)
          (if t_after (ob_ObservedAt obs) (tw_newest w) then ob_ObservedAt obs else tw_newest w)
          (<[ob_ID obs := ob_ObservedAt obs]> (tw_events w))
    end in
  let w := expire w in
  (w, mkThresholdCount (Z.of_nat (size (tw_events w)))
        (tw_count w <=? Z.of_nat (size (tw_events w)))).

Definition HubbleSnapshot (obs : Observation) (fingerprint : str) (count : Z) :
    result str TriggerSnapshot :=
  match d_ClusterFlow (ob_Details obs) with
  | None => Err ("observation " +:+ ob_ID obs +:+ " carries no cluster flow")
  | Some flow => Ok
      {| ts_Source := TriggerSourceHubbleDrop;
         ts_Fingerprint := fingerprint;
         ts_EventTime := ob_EventTime obs;
         ts_ObservedAt := ob_ObservedAt obs;
         ts_Flow := flowSnapshot (ob_Flow obs);
         ts_Suricata := None;
         ts_Hubble := Some
           {| htc_Reason := truncate (cfl_DropReason flow) maxSnapshotReason;
              htc_SourceNamespace :=
                match ob_Flow obs with
                | Some f => truncate (ep_Namespace (fl_Source f)) maxSnapshotNamespace
                | None => ""
                end;
              htc_DestinationNamespace :=
                match ob_Flow obs with
                | Some f => truncate (ep_Namespace (fl_Destination f)) maxSnapshotNamespace
                | None => ""
                end;
              htc_Count := count |} |}
  end.

(** ** dedup.go *)

Definition endpointKey (ep : Endpoint) : str :=
  match ep_Port ep with
  | None => ep_IP ep
  | Some port => ep_IP ep +:+ ":" +:+ itoa port
  end.

Definition FlowKey (flow : option Flow) : str :=
  match flow with
  | None => ""
  | Some flow =>
      let a := endpointKey (fl_Source flow) in
      let b := endpointKey (fl_Destination flow) in
      let '(a, b) := if str_ltb b a then (b, a) else (a, b) in
      str_join [fl_Protocol flow; a; b] "|"
  end.

Definition nul : str := String (ascii_of 0) "".

Definition dedup_preimage (tapUID : str) (flow : option Flow) (at_ : time) (cooldown : duration) : str :=
  tapUID +:+ nul +:+ FlowKey flow +:+ nul +:+ itoa (t_unix (t_truncate at_ cooldown)).

Definition DeduplicationKey (tapUID : str) (flow : option Flow) (at_ : time) (cooldown : duration) : str :=
  "sha256:" +:+ sha256_hex (dedup_preimage tapUID flow at_ cooldown).

Definition CaptureJobName (deduplicationKey : str) : str :=
  let digest := trim_prefix deduplicationKey "sha256:" in
  let digest := if 32 <? slen digest then str_take 32 digest else digest in
  "trawl-policy-" +:+ digest.

(** ** rate_limit.go *)

Record Usage := mkUsage { u_Hourly : Z; u_Active : Z; u_Last : time }.

Definition zero_usage : Usage := mkUsage 0 0 0.

Definition requestedAt (job : CaptureJob) : time :=
  match cst_RequestedAt (cj_Status job) with
  | Some t => t
  | None => m_CreationTimestamp (cj_Meta job)
  end.

Definition terminal (p : CapturePhase) : bool :=
  match p with
  | CapturePhaseCompleted | CapturePhaseFailed | CapturePhaseExpired => true
  | _ => false
  end.

Definition addUsage (usage : Usage) (job : CaptureJob) (now : time) : Usage :=
  let requested := requestedAt job in
  {| u_Hourly := if t_after requested (t_add now (- hour)) then wrap32 (u_Hourly usage + 1)
                 else u_Hourly usage;
     u_Last := if t_after requested (u_Last usage) then requested else u_Last usage;
     u_Active := if negb (terminal (cst_Phase (cj_Status job))) then wrap32 (u_Active usage + 1)
                 else u_Active usage |}.

Definition policy_uid (job : CaptureJob) : option str := pr_UID <$> cjs_PolicyRef (cj_Spec job).

Fixpoint usage_loop (usage : Usage) (jobs : list CaptureJob) (uid : str) (now : time) : Usage :=
  match jobs with
  | [] => usage
  | job :: rest =>
      match cjs_PolicyRef (cj_Spec job) with
      | None => usage_loop usage rest uid now
      | Some ref =>
          if negb (bool_decide (pr_UID ref = uid)) then usage_loop usage rest uid now
          else usage_loop (addUsage usage job now) rest uid now
      end
  end.

Definition UsageFrom (jobs : list CaptureJob) (uid : str) (now : time) : Usage :=
  usage_loop zero_usage jobs uid now.

Fixpoint usage_map_loop (usageByPolicy : gmap string Usage) (jobs : list CaptureJob) (now : time) :
    gmap string Usage :=
  match jobs with
  | [] => usageByPolicy
  | job :: rest =>
      match cjs_PolicyRef (cj_Spec job) with
      | None => usage_map_loop usageByPolicy rest now
      | Some ref =>
          let uid := pr_UID ref in
          usage_map_loop
            (<[uid := addUsage (default zero_usage (usageByPolicy !! uid)) job now]> usageByPolicy)
            rest now
      end
  end.

Definition UsageByPolicy (jobs : list CaptureJob) (now : time) : gmap string Usage :=
  usage_map_loop ∅ jobs now.

Inductive LimitVerdict := LimitAllowed | LimitRateLimited.

Definition CheckLimits (usage : Usage) (limits : CaptureRateLimit) : LimitVerdict :=
  if crl_MaxCapturesPerHour limits <=? u_Hourly usage then LimitRateLimited else LimitAllowed.

(** ** Lemmas: matching and snapshots *)

Lemma contains_true {A} `{EqDecision A} (l : list A) x : contains l x = true ↔ x ∈ l.
Proof. apply bool_decide_eq_true. Qed.

(** An optional list narrows only when it is not empty. *)
Definition narrows {A} (l : list A) (x : A) : Prop := l = [] ∨ x ∈ l.

Lemma narrows_spec {A} `{EqDecision A} (l : list A) x :
  ((0 <? Z.of_nat (length l)) && negb (contains l x)) = false ↔ narrows l x.
Proof.
  unfold narrows. rewrite andb_false_iff, negb_false_iff, contains_true, Z.ltb_ge.
  destruct l; simpl; [naive_solver lia|]. split; [intros [?|?]; [lia|by right]|naive_solver].
Qed.

Lemma MatchSuricata_matched t obs :
  dec_Matched (MatchSuricata t obs) = true ↔
  ∃ sig, d_Signature (ob_Details obs) = Some sig ∧ src_Kind (ob_Source obs) = SourceSuricata ∧
    sig_Severity sig ∈ sat_Severities t ∧ narrows (sat_RuleIDs t) (sig_RuleID sig) ∧
    narrows (sat_Categories t) (sig_Category sig).
Proof.
  unfold MatchSuricata. destruct (d_Signature _) as [sig|]; [|naive_solver].
  case_bool_decide; simpl; [|naive_solver].
  destruct (contains (sat_Severities t) _) eqn:Es; simpl.
  2: { split; [done|]. intros (? & [= <-] & _ & H1%contains_true & _). congruence. }
  apply contains_true in Es.
  destruct (_ && negb (contains (sat_RuleIDs t) _)) eqn:Er; simpl.
  { split; [done|]. intros (? & [= <-] & _ & _ & H1%narrows_spec & _). congruence. }
  destruct (_ && negb (contains (sat_Categories t) _)) eqn:Ec; simpl.
  { split; [done|]. intros (? & [= <-] & _ & _ & _ & H1%narrows_spec). congruence. }
  apply narrows_spec in Er, Ec. split; [intros _; by exists sig|done].
Qed.

Lemma MatchHubbleDrop_matched t obs :
  dec_Matched (MatchHubbleDrop t obs) = true ↔
  ∃ flow, d_ClusterFlow (ob_Details obs) = Some flow ∧ src_Kind (ob_Source obs) = SourceHubble ∧
    cfl_Verdict flow = verdictDropped ∧ cfl_DropReason flow ∈ hdt_Reasons t ∧
    (hdt_SourceNamespaces t = [] ∨
     ∃ f, ob_Flow obs = Some f ∧ ep_Namespace (fl_Source f) ∈ hdt_SourceNamespaces t).
Proof.
  unfold MatchHubbleDrop. destruct (d_ClusterFlow _) as [flow|]; [|naive_solver].
  case_bool_decide; simpl; [|naive_solver]. case_bool_decide; simpl; [|naive_solver].
  destruct (contains (hdt_Reasons t) _) eqn:Es; simpl.
  2: { split; [done|]. intros (? & [= <-] & _ & _ & H1%contains_true & _). congruence. }
  apply contains_true in Es. destruct (ob_Flow obs) as [f|].
  - destruct (_ && negb (contains (hdt_SourceNamespaces t) _)) eqn:En; simpl.
    + split; [done|]. intros (? & [= <-] & _ & _ & _ & H1).
      assert (narrows (hdt_SourceNamespaces t) (ep_Namespace (fl_Source f))) as Hn%narrows_spec
        by (unfold narrows; naive_solver).
      congruence.
    + apply narrows_spec in En. split; [|done]. intros _. exists flow. unfold narrows in En. naive_solver.
  - rewrite andb_true_r. destruct (hdt_SourceNamespaces t) as [|n l]; simpl; [|naive_solver].
    split; [|done]. intros _. exists flow. naive_solver.
Qed.

Lemma truncate_loop_spec cut s :
  (truncate_loop cut s ≤ cut)%nat ∧ valid_string (str_take (truncate_loop cut s) s) = true.
Proof.
  induction cut as [|c [IH1 IH2]]; [done|]. cbn [truncate_loop].
  destruct (valid_string (str_take (S c) s)) eqn:E; [done|]. split; [lia|done].
Qed.

Lemma truncate_spec s max :
  0 ≤ max → slen (truncate s max) ≤ max ∧ (∃ r, s = truncate s max +:+ r) ∧
  (slen s ≤ max → truncate s max = s) ∧
  (valid_string s = true ∨ max < slen s → valid_string (truncate s max) = true).
Proof.
  intros Hm. unfold truncate. destruct (Z.leb_spec (slen s) max).
  { split_and!; [done| |done|]; [exists ""; by rewrite str_app_nil_r|intros [?|?]; [done|lia]]. }
  destruct (truncate_loop_spec (Z.to_nat max) s) as [Hle Hv]. split_and!.
  - unfold slen. rewrite str_take_length. lia.
  - eexists. symmetry. apply str_take_drop.
  - lia.
  - done.
Qed.

(** ** Lemmas: the window *)

(** What a list of deliveries does to a window. *)
Definition observe_all (w : ThresholdWindow) (l : list Observation) : ThresholdWindow :=
  foldl (λ w obs, (Observe w obs).1) w l.

Definition newest_of (l : list Observation) : time :=
  foldr Z.max 0 (ob_ObservedAt <$> l).

Lemma newest_of_snoc l obs : newest_of (l ++ [obs]) = Z.max (newest_of l) (ob_ObservedAt obs).
Proof.
  unfold newest_of. rewrite fmap_app. simpl. induction (ob_ObservedAt <$> l) as [|t k IH]; simpl; lia.
Qed.

Lemma newest_of_nonneg l : 0 ≤ newest_of l.
Proof. unfold newest_of. induction (ob_ObservedAt <$> l); simpl; lia. Qed.

(** The invariant that relates a window to the deliveries it has seen. *)
Definition window_holds (count : Z) (d : duration) (l : list Observation) (w : ThresholdWindow) : Prop :=
  tw_count w = count ∧ tw_window w = d ∧ tw_newest w = newest_of l ∧
  ∀ id t, tw_events w !! id = Some t ↔
    ∃ obs, obs ∈ l ∧ ob_ID obs = id ∧ ob_ObservedAt obs = t ∧ newest_of l - d ≤ t.

Lemma Observe_new count d l w obs :
  0 ≤ d ≤ max_int64 → window_holds count d l w → ob_ID obs ∉ ob_ID <$> l →
  window_holds count d (l ++ [obs]) (Observe w obs).1.
Proof.
  intros Hd (Hc & Hwin & Hn & Hev) Hnew.
  assert (tw_events w !! ob_ID obs = None) as Hnone.
  { destruct (tw_events w !! ob_ID obs) as [t|] eqn:E; [|done].
    apply Hev in E as (o & Ho & Hid & _). destruct Hnew. apply list_elem_of_fmap. by exists o. }
  assert ((if t_after (ob_ObservedAt obs) (tw_newest w) then ob_ObservedAt obs else tw_newest w)
    = newest_of (l ++ [obs])) as Hnewest.
  { rewrite newest_of_snoc, Hn. unfold t_after. destruct (Z.ltb_spec (newest_of l) (ob_ObservedAt obs)); lia. }
  unfold Observe. rewrite Hnone. cbn [fst]. unfold expire. cbn [tw_newest tw_window tw_events tw_count].
  rewrite Hnewest, Hc, Hwin. rewrite wrap64_id by (unfold in_int64, min_int64, max_int64 in *; lia).
  split_and!; try done. intros id t. cbn [tw_events].
  rewrite map_lookup_filter_Some. cbn [snd]. unfold t_before, t_add. rewrite Z.ltb_ge.
  rewrite newest_of_snoc. setoid_rewrite elem_of_app. setoid_rewrite list_elem_of_singleton.
  rewrite lookup_insert_Some, Hev. split.
  - intros [[[<- <-]|[Hne (o & Ho & Hid & Ht & Hw)]] Hcut].
    + exists obs. split_and!; [by right|done|done|lia].
    + exists o. split_and!; [by left|done|done|lia].
  - intros (o & [Ho| ->] & Hid & Ht & Hw).
    + split; [|lia]. right. split.
      * intros Heq. destruct Hnew. rewrite Heq, <-Hid. apply list_elem_of_fmap. by exists o.
      * exists o. split_and!; [done..|lia].
    + split; [by left|lia].
Qed.

Lemma observe_all_holds count d l :
  0 ≤ d ≤ max_int64 → NoDup (ob_ID <$> l) →
  window_holds count d l (observe_all (NewThresholdWindow count d) l).
Proof.
  intros Hd. induction l as [|obs l IH] using rev_ind; intros Hnd.
  - split_and!; try done. intros id t. cbn. split; [done|]. by intros (o & ?%elem_of_nil & _).
  - rewrite fmap_app, NoDup_app in Hnd. destruct Hnd as (Hnd & Hdis & _).
    unfold observe_all. rewrite foldl_app. apply Observe_new; [done|by apply IH|].
    intros Hin. apply (Hdis _ Hin). left.
Qed.

(** A delivery already in the window changes nothing. *)
Lemma Observe_replay count d l w obs :
  0 ≤ d ≤ max_int64 → window_holds count d l w → tw_events w !! ob_ID obs ≠ None →
  (Observe w obs).1 = w.
Proof.
  intros Hd (Hc & Hwin & Hn & Hev) Hin. unfold Observe.
  destruct (tw_events w !! ob_ID obs); [|done]. simpl. destruct w as [c win newest events]. simpl in *.
  unfold expire. simpl. f_equal. apply map_filter_id. intros id t (o & Ho & Hid & Ht & Hw)%Hev. cbn [snd].
  rewrite Hwin, wrap64_id by (unfold in_int64, min_int64, max_int64 in *; lia).
  unfold t_before, t_add. rewrite Z.ltb_ge. subst. lia.
Qed.

(** ** Lemmas: deduplication *)

Definition reverse (flow : Flow) : Flow :=
  mkFlow (fl_CommunityID flow) (fl_ZeekUID flow) (fl_Protocol flow) (fl_VLAN flow)
    (fl_Destination flow) (fl_Source flow).

Lemma FlowKey_reverse flow : FlowKey (Some (reverse flow)) = FlowKey (Some flow).
Proof.
  unfold FlowKey, reverse. cbn [fl_Source fl_Destination fl_Protocol].
  destruct (decide (endpointKey (fl_Source flow) = endpointKey (fl_Destination flow))) as [->|Hne];
    [by destruct (str_ltb _ _)|].
  rewrite (str_ltb_flip (endpointKey (fl_Destination flow)) (endpointKey (fl_Source flow))) by done.
  by destruct (str_ltb _ _).
Qed.

Lemma digit_not_nul c : is_digit c = true → negb (bool_decide (c = ascii_of 0)) = true.
Proof. intros H. case_bool_decide as E; [|done]. subst. done. Qed.

Lemma itoa_lacks_nul z : lacks (ascii_of 0) (itoa z) = true.
Proof. unfold lacks. apply itoa_chars; [reflexivity|apply digit_not_nul]. Qed.

Lemma dedup_preimage_inj tap1 tap2 f1 f2 t1 t2 cd :
  lacks (ascii_of 0) tap1 = true → lacks (ascii_of 0) tap2 = true →
  dedup_preimage tap1 f1 t1 cd = dedup_preimage tap2 f2 t2 cd →
  tap1 = tap2 ∧ FlowKey f1 = FlowKey f2 ∧ t_unix (t_truncate t1 cd) = t_unix (t_truncate t2 cd).
Proof.
  intros H1 H2. unfold dedup_preimage, nul. simpl. intros H.
  apply split_first in H as [-> H]; [|done..].
  apply split_last in H as [Hf Hu]; [|apply itoa_lacks_nul..].
  split; [reflexivity|]. split; [exact Hf|]. by apply itoa_inj.
Qed.

(** With a cooldown of whole seconds the bucket's Unix time is the bucket. *)
Lemma bucket_unix t1 t2 cd :
  0 < cd → cd mod second = 0 →
  t_unix (t_truncate t1 cd) = t_unix (t_truncate t2 cd) → t_truncate t1 cd = t_truncate t2 cd.
Proof.
  intros Hcd Hs. unfold t_unix, t_truncate. destruct (Z.leb_spec cd 0); [lia|].
  assert (∀ t, t - t mod cd = second * ((t - t mod cd) / second)) as Hm.
  { intros t. rewrite (Z.mod_eq t cd) by lia. apply Z.div_exact; [done|].
    replace (t - (t - cd * (t / cd))) with (cd * (t / cd)) by lia.
    rewrite <-Z.mul_mod_idemp_l by done. by rewrite Hs. }
  intros Hu. rewrite (Hm t1), (Hm t2). f_equal. lia.
Qed.

Definition label_char (c : Ascii.ascii) : bool :=
  is_hex_lower c || bool_decide (c = "-"%char) || (97 <=? byte_of c) && (byte_of c <=? 122).

Lemma CaptureJobName_digest tap flow t cd :
  CaptureJobName (DeduplicationKey tap flow t cd) =
  "trawl-policy-" +:+ str_take 32 (sha256_hex (dedup_preimage tap flow t cd)).
Proof.
  unfold CaptureJobName, DeduplicationKey. rewrite trim_prefix_app. unfold slen.
  by rewrite sha256_hex_length.
Qed.

(** ** Lemmas: usage *)

Definition of_policy (uid : str) (job : CaptureJob) : bool :=
  match cjs_PolicyRef (cj_Spec job) with
  | Some ref => bool_decide (pr_UID ref = uid)
  | None => false
  end.

Lemma usage_loop_filter usage jobs uid now :
  usage_loop usage jobs uid now =
  foldl (λ u job, addUsage u job now) usage (List.filter (of_policy uid) jobs).
Proof.
  revert usage. induction jobs as [|job jobs IH]; intros usage; [done|].
  cbn [usage_loop List.filter]. unfold of_policy at 1.
  destruct (cjs_PolicyRef (cj_Spec job)) as [ref|]; [|apply IH].
  case_bool_decide; cbn [negb foldl]; apply IH.
Qed.

Lemma usage_map_loop_lookup m jobs now uid :
  default zero_usage (usage_map_loop m jobs now !! uid) =
  usage_loop (default zero_usage (m !! uid)) jobs uid now.
Proof.
  revert m. induction jobs as [|job jobs IH]; intros m; [done|].
  cbn [usage_map_loop usage_loop]. destruct (cjs_PolicyRef (cj_Spec job)) as [ref|]; [|apply IH].
  rewrite IH. case_bool_decide as Hu; cbn [negb].
  - by rewrite Hu, lookup_insert_eq.
  - by rewrite lookup_insert_ne.
Qed.

Definition recent (now : time) (job : CaptureJob) : bool := now - hour <? requestedAt job.
Definition active (job : CaptureJob) : bool := negb (terminal (cst_Phase (cj_Status job))).

(** How many jobs satisfy a test, as a Go integer. *)
Definition count_if {A} (p : A → bool) (l : list A) : Z := Z.of_nat (length (List.filter p l)).

Lemma count_if_cons {A} (p : A → bool) x l :
  count_if p (x :: l) = (if p x then 1 else 0) + count_if p l.
Proof. unfold count_if. cbn [List.filter]. destruct (p x); cbn [length]; lia. Qed.

Lemma count_if_nonneg {A} (p : A → bool) l : 0 ≤ count_if p l.
Proof. unfold count_if. lia. Qed.

Lemma usage_counts now l u :
  0 ≤ u_Hourly u → 0 ≤ u_Active u →
  u_Hourly u + Z.of_nat (length l) ≤ max_int32 → u_Active u + Z.of_nat (length l) ≤ max_int32 →
  let u' := foldl (λ u job, addUsage u job now) u l in
  u_Hourly u' = u_Hourly u + count_if (recent now) l ∧
  u_Active u' = u_Active u + count_if active l ∧
  u_Last u' = foldl Z.max (u_Last u) (requestedAt <$> l).
Proof.
  revert u. induction l as [|job l IH]; intros u Hh Ha Hbh Hba; [unfold count_if; cbn; split_and!; lia|].
  rewrite length_cons in Hbh, Hba. cbn [foldl]. unfold max_int32 in *.
  assert (u_Hourly (addUsage u job now) = u_Hourly u + if recent now job then 1 else 0) as Eh.
  { unfold addUsage, recent, t_after, t_add. cbn [u_Hourly].
    replace (now + - hour) with (now - hour) by lia.
    destruct (_ <? _); [|lia]. apply wrap32_id. unfold in_int32, max_int32, min_int32. lia. }
  assert (u_Active (addUsage u job now) = u_Active u + if active job then 1 else 0) as Ea.
  { unfold addUsage, active. cbn [u_Active].
    destruct (negb _); [|lia]. apply wrap32_id. unfold in_int32, max_int32, min_int32. lia. }
  assert (u_Last (addUsage u job now) = Z.max (u_Last u) (requestedAt job)) as El.
  { unfold addUsage, t_after. cbn [u_Last]. destruct (Z.ltb_spec (u_Last u) (requestedAt job)); lia. }
  destruct (IH (addUsage u job now)) as (H1 & H2 & H3);
    [rewrite ?Eh, ?Ea; destruct (recent now job), (active job); lia..|].
  rewrite H1, H2, H3, Eh, Ea, El, !count_if_cons. cbn [fmap list_fmap foldl]. split_and!; [lia..|done].
Qed.

(** ** Theorems *)

(** What fires a policy.  A Suricata trigger matches exactly the Suricata
    alerts whose severity is listed and whose rule and category are listed
    whenever the trigger narrows by them; a drop trigger exactly the Hubble
    flows with verdict DROPPED, a listed reason and, when it narrows, a listed
    source namespace; a refusal always has a reason and a match never does. *)
Theorem Match_spec t ht obs :
  (dec_Matched (MatchSuricata t obs) = true ↔
    ∃ sig, d_Signature (ob_Details obs) = Some sig ∧ src_Kind (ob_Source obs) = SourceSuricata ∧
      sig_Severity sig ∈ sat_Severities t ∧
      (sat_RuleIDs t = [] ∨ sig_RuleID sig ∈ sat_RuleIDs t) ∧
      (sat_Categories t = [] ∨ sig_Category sig ∈ sat_Categories t)) ∧
  (dec_Matched (MatchHubbleDrop ht obs) = true ↔
    ∃ flow, d_ClusterFlow (ob_Details obs) = Some flow ∧ src_Kind (ob_Source obs) = SourceHubble ∧
      cfl_Verdict flow = verdictDropped ∧ cfl_DropReason flow ∈ hdt_Reasons ht ∧
      (hdt_SourceNamespaces ht = [] ∨
       ∃ f, ob_Flow obs = Some f ∧ ep_Namespace (fl_Source f) ∈ hdt_SourceNamespaces ht)) ∧
  (dec_Reason (MatchSuricata t obs) = ReasonNone ↔ dec_Matched (MatchSuricata t obs) = true) ∧
  (dec_Reason (MatchHubbleDrop ht obs) = ReasonNone ↔ dec_Matched (MatchHubbleDrop ht obs) = true) ∧
  ¬ (dec_Matched (MatchSuricata t obs) = true ∧ dec_Matched (MatchHubbleDrop ht obs) = true).
Proof.
  split_and!.
  - apply MatchSuricata_matched.
  - apply MatchHubbleDrop_matched.
  - unfold MatchSuricata. by repeat case_match.
  - unfold MatchHubbleDrop. by repeat case_match.
  - intros [(? & _ & Hs & _)%MatchSuricata_matched (? & _ & Hh & _)%MatchHubbleDrop_matched].
    by rewrite Hs in Hh.
Qed.

(** The rolling window refines its specification.  After any sequence of
    distinct deliveries the window holds exactly those observed no longer than
    its length before the newest one, so its size is bounded by what arrived in
    one window; a delivery repeated while it is held changes nothing; and the
    count reported is the number held, with the threshold reached exactly when
    that number is at least the configured count. *)
Theorem ThresholdWindow_spec count d l obs :
  0 ≤ d ≤ max_int64 → NoDup (ob_ID <$> l) →
  let w := observe_all (NewThresholdWindow count d) l in
  tw_newest w = newest_of l ∧
  (∀ id t, tw_events w !! id = Some t ↔
    ∃ o, o ∈ l ∧ ob_ID o = id ∧ ob_ObservedAt o = t ∧ newest_of l - d ≤ t) ∧
  (tw_events w !! ob_ID obs ≠ None → (Observe w obs).1 = w) ∧
  tc_Count (Observe w obs).2 = Z.of_nat (size (tw_events (Observe w obs).1)) ∧
  (tc_Reached (Observe w obs).2 = true ↔ count ≤ tc_Count (Observe w obs).2).
Proof.
  intros Hd Hnd w. pose proof (observe_all_holds count d l Hd Hnd) as Hw. fold w in Hw.
  pose proof Hw as (Hc & _ & Hn & Hev). split_and!; [done|done| |done|].
  - by apply (Observe_replay count d l).
  - unfold Observe. cbn [snd tc_Reached tc_Count]. rewrite Z.leb_le.
    assert (∀ w', tw_count w' = count → tw_count (expire w') = count) as Hx by done.
    destruct (tw_events w !! ob_ID obs); rewrite Hx by done; done.
Qed.

Definition example_obs (id : str) (at_ : time) : Observation :=
  mkObs SchemaVersion id at_ at_ (mkSource SourceHubble "") None (mkTarget "n" "" "") TypeClusterFlow
    None (mkDetails None None None None None None None None None
      (Some (mkClusterFlow verdictDropped "POLICY_DENIED" "" "" None))).

Lemma ThresholdWindow_spec_witness :
  let w := observe_all (NewThresholdWindow 2 minute)
    [example_obs "a" (10 * second); example_obs "b" (80 * second)] in
  tw_newest w = 80 * second ∧ tw_events w !! "a" = None ∧
  tc_Reached (Observe w (example_obs "c" (100 * second))).2 = true.
Proof.
  intros w. destruct (ThresholdWindow_spec 2 minute
    [example_obs "a" (10 * second); example_obs "b" (80 * second)] (example_obs "c" (100 * second)))
    as (Hn & _ & _ & _ & Hr).
  - split; by vm_compute.
  - apply (bool_decide_unpack _). vm_compute. done.
  - split; [exact Hn|]. split; [vm_compute; reflexivity|]. apply Hr. by vm_compute.
Defined.

(** A window of traffic has one name.  The deduplication key does not
    depend on the direction of the flow nor on where in its cooldown bucket the
    event falls; two equal keys for taps named without NUL bytes mean the same
    tap, the same flow key and the same bucket - less than one cooldown apart
    when it is a number of seconds - or else a SHA-256 collision; and the job
    name derived from any key is a DNS label of 45 characters. *)
Theorem DeduplicationKey_spec tap1 tap2 f1 f2 t1 t2 cd :
  0 < cd → cd mod second = 0 →
  lacks (ascii_of 0) tap1 = true → lacks (ascii_of 0) tap2 = true →
  (∀ f, DeduplicationKey tap1 (Some (reverse f)) t1 cd = DeduplicationKey tap1 (Some f) t1 cd) ∧
  (t_truncate t1 cd = t_truncate t2 cd → DeduplicationKey tap1 f1 t1 cd = DeduplicationKey tap1 f1 t2 cd) ∧
  (DeduplicationKey tap1 f1 t1 cd = DeduplicationKey tap2 f2 t2 cd →
   (tap1 = tap2 ∧ FlowKey f1 = FlowKey f2 ∧ t_truncate t1 cd = t_truncate t2 cd ∧ Z.abs (t1 - t2) < cd) ∨
   sha256_collision (dedup_preimage tap1 f1 t1 cd) (dedup_preimage tap2 f2 t2 cd)) ∧
  slen (CaptureJobName (DeduplicationKey tap1 f1 t1 cd)) = 45 ∧
  str_forallb label_char (CaptureJobName (DeduplicationKey tap1 f1 t1 cd)) = true.
Proof.
  intros Hcd Hs H1 H2. split_and!.
  - intros f. unfold DeduplicationKey, dedup_preimage. by rewrite FlowKey_reverse.
  - intros Ht. unfold DeduplicationKey, dedup_preimage. by rewrite Ht.
  - unfold DeduplicationKey. intros [Heq|Hc]%str_app_inj_r%sha256_hex_eq; [left|by right].
    apply dedup_preimage_inj in Heq as (-> & Hf & Hu); [|done..].
    apply bucket_unix in Hu; [|done..]. split_and!; try done.
    pose proof (t_truncate_bounds t1 cd Hcd). pose proof (t_truncate_bounds t2 cd Hcd). lia.
  - rewrite CaptureJobName_digest, slen_app. unfold slen at 2. rewrite str_take_length, sha256_hex_length.
    reflexivity.
  - rewrite CaptureJobName_digest, str_forallb_app. apply andb_true_iff. split; [reflexivity|].
    apply str_forallb_take. eapply str_forallb_impl; [|apply sha256_hex_lower].
    intros c Hc. unfold label_char. by rewrite Hc.
Qed.

Lemma DeduplicationKey_spec_witness :
  DeduplicationKey "tap" None (61 * second) minute = DeduplicationKey "tap" None (119 * second) minute ∧
  slen (CaptureJobName (DeduplicationKey "tap" None (61 * second) minute)) = 45.
Proof.
  destruct (DeduplicationKey_spec "tap" "tap" None None (61 * second) (119 * second) minute)
    as (_ & H1 & _ & H2 & _); [done|reflexivity|reflexivity|reflexivity|].
  split; [apply H1; vm_compute; reflexivity|exact H2].
Defined.

(** The rate limit counts what exists.  The one-pass summary of every
    policy agrees with the summary of each one; it counts exactly the policy's
    jobs requested within the trailing hour and those not in a terminal phase,
    whatever order the jobs are listed in, and the limit admits a capture
    exactly while fewer than the configured number were requested. *)
Theorem Usage_spec jobs jobs' uid now limits :
  Z.of_nat (length jobs) ≤ max_int32 → jobs' ≡ₚ jobs →
  let u := default zero_usage (UsageByPolicy jobs' now !! uid) in
  let mine := List.filter (of_policy uid) jobs in
  u = UsageFrom jobs' uid now ∧
  u_Hourly u = count_if (recent now) mine ∧ u_Active u = count_if active mine ∧
  (∀ job, job ∈ mine → requestedAt job ≤ u_Last u) ∧
  (CheckLimits u limits = LimitAllowed ↔
   count_if (recent now) mine < crl_MaxCapturesPerHour limits).
Proof.
  intros Hlen Hperm u mine.
  assert (u = UsageFrom jobs' uid now) as Hu by (unfold u, UsageByPolicy; apply usage_map_loop_lookup).
  assert (List.filter (of_policy uid) jobs' ≡ₚ mine) as Hmine by by apply filter_perm.
  assert (length (List.filter (of_policy uid) jobs') ≤ length jobs)%nat as Hle.
  { rewrite <-(Permutation_length Hperm). apply filter_length_le. }
  destruct (usage_counts now (List.filter (of_policy uid) jobs') zero_usage) as (H1 & H2 & H3);
    [cbn; lia..|].
  rewrite <-usage_loop_filter in H1, H2, H3. fold (UsageFrom jobs' uid now) in H1, H2, H3.
  rewrite <-Hu in H1, H2, H3. cbn [zero_usage u_Hourly u_Active u_Last] in *.
  assert (∀ p, count_if p (List.filter (of_policy uid) jobs') = count_if p mine) as Hcount.
  { intros p. unfold count_if. by rewrite (Permutation_length (filter_perm p _ _ Hmine)). }
  rewrite Hcount in H1, H2. split_and!; [done|lia|lia| |].
  - intros job Hjob. rewrite H3. apply foldl_max_ge, list_elem_of_fmap.
    exists job. split; [done|]. by rewrite Hmine.
  - unfold CheckLimits. rewrite H1. destruct (Z.leb_spec (crl_MaxCapturesPerHour limits)
      (0 + count_if (recent now) mine)); naive_solver lia.
Qed.

Lemma Usage_spec_witness :
  CheckLimits (default zero_usage (UsageByPolicy [] 5 !! "p")) (mkRateLimit 1 minute) = LimitAllowed.
Proof.
  destruct (Usage_spec [] [] "p" 5 (mkRateLimit 1 minute)) as (_ & _ & _ & _ & H); [by vm_compute|done|].
  apply H. by vm_compute.
Defined.

(** A snapshot always fits the API.  Whatever the analyzer put in the
    record, every bounded field of the snapshot is within its limit and a
    prefix of the original, cut without splitting a character, the revision is
    a non-negative int32, and the fingerprint is that of the observation. *)
Theorem Snapshot_fits obs fingerprint count :
  (∀ s c, SuricataSnapshot obs fingerprint = Ok s → ts_Suricata s = Some c →
    slen (stc_Category c) ≤ maxSnapshotCategory ∧ slen (stc_Message c) ≤ maxSnapshotMessage ∧
    0 ≤ stc_Revision c ≤ max_int32 ∧ ts_Fingerprint s = fingerprint ∧ ts_Hubble s = None ∧
    ∃ sig, d_Signature (ob_Details obs) = Some sig ∧
      (∃ r, sig_Category sig = stc_Category c +:+ r) ∧ (∃ r, sig_Message sig = stc_Message c +:+ r) ∧
      (valid_string (sig_Message sig) = true → valid_string (stc_Message c) = true)) ∧
  (∀ s c, HubbleSnapshot obs fingerprint count = Ok s → ts_Hubble s = Some c →
    slen (htc_Reason c) ≤ maxSnapshotReason ∧ slen (htc_SourceNamespace c) ≤ maxSnapshotNamespace ∧
    slen (htc_DestinationNamespace c) ≤ maxSnapshotNamespace ∧ htc_Count c = count ∧
    ts_Suricata s = None) ∧
  (is_ok (SuricataSnapshot obs fingerprint) = true ↔ d_Signature (ob_Details obs) ≠ None) ∧
  (is_ok (HubbleSnapshot obs fingerprint count) = true ↔ d_ClusterFlow (ob_Details obs) ≠ None).
Proof.
  assert (∀ s m, 0 ≤ m → slen (truncate s m) ≤ m) as Hlen by (intros s m Hm; by apply truncate_spec).
  unfold SuricataSnapshot, HubbleSnapshot. split_and!.
  - destruct (d_Signature _) as [sig|]; [|done]. intros s c [= <-] [= <-]. cbn.
    split_and!; try by apply Hlen.
    + unfold snapshot_revision. destruct (sig_Revision sig) as [r|]; [|done].
      destruct (Z.leb_spec 0 r), (Z.leb_spec r max_int32); simpl; done.
    + unfold snapshot_revision. destruct (sig_Revision sig) as [r|]; [|done].
      destruct (Z.leb_spec 0 r), (Z.leb_spec r max_int32); simpl; done.
    + done.
    + done.
    + exists sig. split_and!; [done|by apply truncate_spec..|].
      intros Hv. apply truncate_spec; [done|by left].
  - destruct (d_ClusterFlow _) as [flow|]; [|done]. intros s c [= <-] [= <-]. cbn.
    split_and!; try done; [by apply Hlen|destruct (ob_Flow obs); [by apply Hlen|done]..].
  - by destruct (d_Signature _).
  - by destruct (d_ClusterFlow _).
Qed.

End Policy.
