(* ===== verification/Template.v ===== *)
(** * Filter templates, internal/policy/template.go

    A policy's capture filter may name five placeholders; the value of each
    comes from the observation that triggered the policy, that is, from the
    wire.  [RenderFilter] substitutes, [ValidateFilterTemplate] is the check a
    policy passes when it is written.  [net/netip]'s parsing and printing of
    addresses is written out, an IPv6 address as its eight 16-bit groups.
    Errors keep their kind and arguments, not the quoted text. *)

From S2P Require Import Prelude GoString Utf8 Regexp Observation Bounds.

Module Netip.

(** [parseIPv4Fields]: the value of the octet so far, its digits, the octets
    before it; [prev_dot] says that a dot or the start precedes. *)
Fixpoint ipv4_fields (s : str) (val : Z) (digLen : Z) (prev_dot : bool) (fields : list Z) :
    option (list Z) :=
  match s with
  | EmptyString => if (Z.of_nat (length fields) <? 3) then None else Some (fields ++ [val])
  | String c s' =>
      if is_digit c then
        if (digLen =? 1) && (val =? 0) then None else
        let val := val * 10 + (byte_of c - 48) in
        if 255 <? val then None else ipv4_fields s' val (digLen + 1) false fields
      else if byte_of c =? 46 then
        if prev_dot || bool_decide (s' = "") then None
        else if Z.of_nat (length fields) =? 3 then None
        else ipv4_fields s' 0 0 true (fields ++ [val])
      else None
  end.

Definition parse_fields (s : str) : option (list Z) := ipv4_fields s 0 0 true [].

Definition hex_value (c : Ascii.ascii) : option Z :=
  let b := byte_of c in
  if (48 <=? b) && (b <=? 57) then Some (b - 48)
  else if (97 <=? b) && (b <=? 102) then Some (b - 97 + 10)
  else if (65 <=? b) && (b <=? 70) then Some (b - 65 + 10)
  else None.

(** The hex digits at the front of [s]: their value and number, and the rest;
    a fifth digit fails. *)
Fixpoint hex_group (s : str) (off : Z) (acc : Z) : option (Z * Z * str) :=
  match s with
  | String c s' =>
      match hex_value c with
      | Some d => if 3 <? off then None else hex_group s' (off + 1) (Z.shiftl acc 4 + d)
      | None => Some (acc, off, s)
      end
  | EmptyString => Some (acc, off, s)
  end.

(** The loop of [parseIPv6]: the groups so far, where the ellipsis stands
    among them.  It ends with what of the string is unread. *)
Fixpoint ipv6_loop (fuel : nat) (s : str) (groups : list Z) (ellipsis : option nat) :
    option (list Z * option nat * str) :=
  match fuel with
  | O => Some (groups, ellipsis, s)
  | S fuel =>
      match hex_group s 0 0 with
      | None => None
      | Some (acc, off, rest) =>
          if off =? 0 then None else
          match rest with
          | EmptyString => Some (groups ++ [acc], ellipsis, "")
          | String c rest' =>
              if byte_of c =? 46 then
                if negb (is_Some_b ellipsis) && negb (Nat.eqb (length groups) 6) then None
                else if Nat.ltb 6 (length groups) then None
                else match parse_fields s with
                     | Some [a; b; c; d] => Some (groups ++ [a * 256 + b; c * 256 + d], ellipsis, "")
                     | _ => None
                     end
              else if negb (byte_of c =? 58) then None
              else match rest' with
                   | EmptyString => None
                   | String c2 rest2 =>
                       if byte_of c2 =? 58 then
                         if is_Some_b ellipsis then None
                         else if bool_decide (rest2 = "")
                              then Some (groups ++ [acc], Some (S (length groups)), "")
                              else ipv6_loop fuel rest2 (groups ++ [acc]) (Some (S (length groups)))
                       else ipv6_loop fuel rest' (groups ++ [acc]) ellipsis
                   end
          end
      end
  end.

Inductive Addr :=
  | V4 (a b c d : Z)
  | V6 (groups : list Z) (zone : str).

Fixpoint index_byte (b : Z) (s : str) : option nat :=
  match s with
  | EmptyString => None
  | String c s' => if byte_of c =? b then Some O else S <$> index_byte b s'
  end.

(** An ellipsis stands for at least one group of zeros. *)
Definition expand (groups : list Z) (ellipsis : option nat) : option (list Z) :=
  match ellipsis with
  | None => if Nat.ltb (length groups) 8 then None else Some groups
  | Some e =>
      if Nat.ltb (length groups) 8
      then Some (take e groups ++ replicate (8 - length groups) 0 ++ drop e groups)
      else None
  end.

Definition parseIPv6 (input : str) : option Addr :=
  let split := match index_byte 37 input with
               | None => Some (input, "")
               | Some i => let zone := str_drop (S i) input in
                           if bool_decide (zone = "") then None else Some (str_take i input, zone)
               end in
  match split with
  | None => None
  | Some (s, zone) =>
      let '(s, ellipsis) := if has_prefix s "::" then (str_drop 2 s, Some O) else (s, None) in
      if is_Some_b ellipsis && bool_decide (s = "") then Some (V6 (replicate 8 0) zone) else
      match ipv6_loop 8 s [] ellipsis with
      | None => None
      | Some (groups, ellipsis, rest) =>
          if negb (bool_decide (rest = "")) then None
          else (λ g, V6 g zone) <$> expand groups ellipsis
      end
  end.

Definition parseIPv4 (s : str) : option Addr :=
  match parse_fields s with Some [a; b; c; d] => Some (V4 a b c d) | _ => None end.

(** [ParseAddr]: the first of the bytes '.', ':' and '%' decides. *)
Fixpoint addr_kind (s : str) (whole : str) : option Addr :=
  match s with
  | EmptyString => None
  | String c s' =>
      if byte_of c =? 46 then parseIPv4 whole
      else if byte_of c =? 58 then parseIPv6 whole
      else if byte_of c =? 37 then None
      else addr_kind s' whole
  end.

Definition ParseAddr (s : str) : option Addr := addr_kind s s.

Definition Zone (a : Addr) : str := match a with V4 _ _ _ _ => "" | V6 _ z => z end.

Definition string4 (a b c d : Z) : str :=
  itoa a +:+ "." +:+ itoa b +:+ "." +:+ itoa c +:+ "." +:+ itoa d.

(** [appendHex]: up to four digits without leading zeros. *)
Definition hex16 (x : Z) : str :=
  (if 4096 <=? x then String (hex_digit (x / 4096)) "" else "") +:+
  (if 256 <=? x then String (hex_digit (x / 256 mod 16)) "" else "") +:+
  (if 16 <=? x then String (hex_digit (x / 16 mod 16)) "" else "") +:+
  String (hex_digit (x mod 16)) "".

Fixpoint zero_run (l : list Z) : nat :=
  match l with x :: l' => if x =? 0 then S (zero_run l') else O | [] => O end.

(** The first longest run of two or more zero groups: start and length. *)
Fixpoint best_run (i : nat) (l : list Z) (best : nat * nat) : nat * nat :=
  match l with
  | [] => best
  | _ :: l' =>
      let n := zero_run l in
      best_run (S i) l' (if Nat.leb 2 n && Nat.ltb (snd best) n then (i, n) else best)
  end.

Definition colon_groups (l : list Z) : str := str_join (hex16 <$> l) ":".

Definition string6 (groups : list Z) : str :=
  let '(start, n) := best_run 0 groups (0, 0)%nat in
  match n with
  | O => colon_groups groups
  | _ => colon_groups (take start groups) +:+ "::" +:+ colon_groups (drop (start + n) groups)
  end.

Definition is_4in6 (g : list Z) : bool :=
  forallb (λ x, x =? 0) (take 5 g) && bool_decide (g !! 5%nat = Some 65535).

(** [String] *)
Definition addr_string (a : Addr) : str :=
  match a with
  | V4 a b c d => string4 a b c d
  | V6 g zone =>
      (match g with
       | [_; _; _; _; _; _; x; y] =>
           if is_4in6 g then "::ffff:" +:+ string4 (x / 256) (x mod 256) (y / 256) (y mod 256)
           else string6 g
       | _ => string6 g
       end) +:+ (if bool_decide (zone = "") then "" else "%" +:+ zone)
  end.

(** ** What a parsed address prints as *)

Definition octet (z : Z) : Prop := 0 ≤ z < 256.
Definition group16 (z : Z) : Prop := 0 ≤ z < 65536.

(** Lower-case letters, digits, dots and colons: one token of a filter. *)
Definition value_char (c : Ascii.ascii) : bool :=
  is_digit c || ((97 <=? byte_of c) && (byte_of c <=? 122)) || (byte_of c =? 46) || (byte_of c =? 58).

Definition safe_value (v : str) : Prop := v ≠ "" ∧ str_forallb value_char v = true.

Lemma Forall_snoc (P : Z → Prop) l x : Forall P l → P x → Forall P (l ++ [x]).
Proof. intros. apply Forall_app. split; [done|by apply Forall_singleton]. Qed.

Lemma digit_value c : is_digit c = true → 0 ≤ byte_of c - 48 < 10.
Proof. unfold is_digit. intros [? ?]%andb_true_iff. lia. Qed.

Lemma ipv4_fields_octets s val digLen prev_dot fields l :
  ipv4_fields s val digLen prev_dot fields = Some l →
  octet val → Forall octet fields → Forall octet l.
Proof.
  revert val digLen prev_dot fields. induction s as [|c s IH]; intros val digLen prev_dot fields; cbn [ipv4_fields].
  - destruct (_ <? 3); [done|]. intros [= <-] ? ?. by apply Forall_snoc.
  - intros H Hv Hf. destruct (is_digit c) eqn:Hd.
    + destruct (_ && _); [done|]. destruct (Z.ltb_spec 255 (val * 10 + (byte_of c - 48))); [done|].
      apply IH in H; [done| |done]. apply digit_value in Hd. unfold octet in *. lia.
    + destruct (_ =? 46); [|done]. destruct (_ || _); [done|]. destruct (_ =? 3); [done|].
      apply IH in H; [done|by unfold octet|by apply Forall_snoc].
Qed.

Lemma parse_fields_octets s l : parse_fields s = Some l → Forall octet l.
Proof. intros H. eapply ipv4_fields_octets; [exact H|by unfold octet|constructor]. Qed.

Lemma hex_value_range c d : hex_value c = Some d → 0 ≤ d < 16.
Proof.
  unfold hex_value. pose proof (byte_of_range c). 
  repeat (destruct (_ && _) eqn:E; [apply andb_true_iff in E; intros [= <-]; lia|clear E]). done.
Qed.

Lemma hex_group_range s off acc x n r :
  hex_group s off acc = Some (x, n, r) → 0 ≤ off ≤ 4 → 0 ≤ acc < 16 ^ off → group16 x.
Proof.
  revert off acc. assert (∀ off acc, 0 ≤ off ≤ 4 → 0 ≤ acc < 16 ^ off → group16 acc) as Hbase.
  { intros off acc Ho Ha. pose proof (Z.pow_le_mono_r 16 off 4 ltac:(lia) ltac:(lia)) as Hp.
    change (16 ^ 4) with 65536 in Hp. unfold group16. lia. }
  induction s as [|c s IH]; intros off acc; cbn [hex_group].
  - intros [= <- _ _]. by apply Hbase.
  - destruct (hex_value c) as [d|] eqn:Ed; [|intros [= <- _ _]; by apply Hbase].
    destruct (Z.ltb_spec 3 off) as [|Hoff]; [done|]. intros H Ho Ha. apply hex_value_range in Ed.
    eapply IH; [exact H|lia|]. rewrite Z.shiftl_mul_pow2 by lia. rewrite Z.pow_add_r by lia.
    change (16 ^ 1) with 16. change (2 ^ 4) with 16. lia.
Qed.

Lemma ipv6_loop_groups fuel s groups ellipsis g e r :
  ipv6_loop fuel s groups ellipsis = Some (g, e, r) → Forall group16 groups → Forall group16 g.
Proof.
  revert s groups ellipsis. induction fuel as [|fuel IH]; intros s groups ellipsis; cbn [ipv6_loop].
  { by intros [= <- _ _]. }
  intros H Hg. destruct (hex_group s 0 0) as [[[acc off] rest]|] eqn:Eh; [|done].
  apply hex_group_range in Eh; [|lia|done].
  assert (Forall group16 (groups ++ [acc])) as Hg' by by apply Forall_snoc.
  destruct (off =? 0); [done|]. destruct rest as [|c rest']; [by injection H as <- _ _|].
  destruct (_ =? 46).
  - destruct (_ && _); [done|]. destruct (Nat.ltb _ _); [done|].
    destruct (parse_fields s) as [[|a [|b [|c' [|d [|]]]]]|] eqn:Ef; try done.
    apply parse_fields_octets in Ef. rewrite !Forall_cons in Ef. injection H as <- _ _.
    apply Forall_app. split; [done|]. unfold octet in Ef. rewrite !Forall_cons. unfold group16. split_and!; [lia..|done].
  - destruct (negb _); [done|]. destruct rest' as [|c2 rest2]; [done|].
    destruct (_ =? 58); [|by eapply IH]. destruct (is_Some_b _); [done|].
    case_bool_decide; [by injection H as <- _ _|by eapply IH].
Qed.

Lemma expand_groups groups e g :
  expand groups e = Some g → Forall group16 groups → Forall group16 g ∧ g ≠ [].
Proof.
  unfold expand. intros H Hg. destruct e as [e|]; destruct (Nat.ltb_spec (length groups) 8); try done; simplify_eq.
  - split.
    + rewrite !Forall_app. split_and!; [by apply Forall_take|by apply Forall_replicate|by apply Forall_drop].
    + intros Hn. apply (f_equal length) in Hn. rewrite !length_app, length_replicate in Hn. simpl in Hn. lia.
  - split; [done|]. intros ->; simpl in *; lia.
Qed.

Definition addr_ok (a : Addr) : Prop :=
  match a with
  | V4 a b c d => octet a ∧ octet b ∧ octet c ∧ octet d
  | V6 g _ => Forall group16 g ∧ g ≠ []
  end.

Lemma parseIPv6_ok s a : parseIPv6 s = Some a → addr_ok a.
Proof.
  unfold parseIPv6. destruct (match index_byte 37 s with None => _ | Some _ => _ end) as [[s1 zone]|]; [|done].
  destruct (if has_prefix s1 "::" then _ else _) as [s2 e]. destruct (_ && _).
  - intros [= <-]. split; [by repeat constructor|done].
  - destruct (ipv6_loop 8 s2 [] e) as [[[g e'] r]|] eqn:El; [|done]. apply ipv6_loop_groups in El; [|constructor].
    destruct (negb _); [done|]. destruct (expand g e') as [g'|] eqn:Ee; [|done]. intros [= <-].
    by apply expand_groups in Ee.
Qed.

Lemma ParseAddr_ok s a : ParseAddr s = Some a → addr_ok a.
Proof.
  unfold ParseAddr. generalize s at 2. intros w. induction s as [|c s IH]; cbn [addr_kind]; [done|].
  destruct (_ =? 46).
  - unfold parseIPv4. destruct (parse_fields w) as [[|a1 [|b [|c' [|d [|]]]]]|] eqn:Ef; try done.
    apply parse_fields_octets in Ef. rewrite !Forall_cons in Ef. intros [= <-]. simpl. naive_solver.
  - destruct (_ =? 58); [apply parseIPv6_ok|]. by destruct (_ =? 37).
Qed.

Lemma itoa_value z : 0 ≤ z → str_forallb value_char (itoa z) = true.
Proof.
  intros Hz. eapply str_forallb_impl; [|by apply itoa_digits]. intros c Hc. unfold value_char. by rewrite Hc.
Qed.

Lemma string4_value a b c d :
  octet a → octet b → octet c → octet d → str_forallb value_char (string4 a b c d) = true.
Proof.
  unfold octet, string4. intros. rewrite !str_forallb_app, !itoa_value by lia. reflexivity.
Qed.

Lemma hex_digit_value n : 0 ≤ n < 16 → value_char (hex_digit n) = true.
Proof.
  intros Hn. assert (n ∈ seqZ 0 16) as Hin by (apply elem_of_seqZ; lia). revert Hin. clear Hn. revert n.
  apply Forall_forall. by repeat constructor.
Qed.

Lemma hex16_value x : group16 x → str_forallb value_char (hex16 x) = true.
Proof.
  unfold group16, hex16. intros Hx. rewrite !str_forallb_app.
  assert (∀ n, 0 ≤ n < 16 → str_forallb value_char (String (hex_digit n) "") = true) as Hd
    by (intros n Hn; cbn; by rewrite hex_digit_value).
  assert (∀ z, 0 ≤ z mod 16 < 16) as Hm by (intros; apply Z.mod_pos_bound; lia).
  assert (0 ≤ x / 4096 < 16) as Ht by (split; [apply Z.div_pos; lia|apply Z.div_lt_upper_bound; lia]).
  destruct (4096 <=? x), (256 <=? x), (16 <=? x); by rewrite ?Hd.
Qed.

Lemma colon_groups_value g : Forall group16 g → str_forallb value_char (colon_groups g) = true.
Proof.
  unfold colon_groups. induction 1 as [|x g Hx Hg IH]; [done|]. rewrite fmap_cons.
  cbn [str_join]. destruct (hex16 <$> g) as [|y l]; [by apply hex16_value|].
  rewrite !str_forallb_app, hex16_value by done. exact IH.
Qed.

Lemma string6_value g : Forall group16 g → g ≠ [] → safe_value (string6 g).
Proof.
  intros Hg Hne. unfold string6. destruct (best_run 0 g (0, 0)%nat) as [start n]. destruct n as [|n].
  - split; [|by apply colon_groups_value]. destruct g as [|x g]; [done|]. unfold colon_groups. rewrite fmap_cons. cbn [str_join].
    assert (hex16 x ≠ "") by (unfold hex16; by destruct (4096 <=? x), (256 <=? x), (16 <=? x)).
    destruct (hex16 <$> g); by destruct (hex16 x).
  - split; [by destruct (colon_groups _)|].
    rewrite !str_forallb_app, !colon_groups_value by (by apply Forall_take || apply Forall_drop). done.
Qed.

(** A zoneless address prints as one token. *)
Lemma addr_string_value s a : ParseAddr s = Some a → Zone a = "" → safe_value (addr_string a).
Proof.
  intros Hok%ParseAddr_ok Hz. destruct a as [a b c d|g zone]; simpl in *.
  - destruct Hok as (? & ? & ? & ?). split; [|by apply string4_value].
    unfold string4. pose proof (itoa_nonempty a). by destruct (itoa a).
  - subst zone. rewrite bool_decide_eq_true_2, str_app_nil_r by done. destruct Hok as [Hg Hne].
    destruct g as [|a1 [|a2 [|a3 [|a4 [|a5 [|a6 [|x [|y [|]]]]]]]]]; try by apply string6_value.
    destruct (is_4in6 _); [|by apply string6_value]. split; [done|].
    rewrite !Forall_cons in Hg. destruct Hg as (_ & _ & _ & _ & _ & _ & Hx & Hy & _).
    refine (string4_value (x / 256) (x mod 256) (y / 256) (y mod 256) _ _ _ _); unfold octet, group16 in *.
    + split; [apply Z.div_pos; lia|apply Z.div_lt_upper_bound; lia].
    + apply Z.mod_pos_bound; lia.
    + split; [apply Z.div_pos; lia|apply Z.div_lt_upper_bound; lia].
    + apply Z.mod_pos_bound; lia.
Qed.

(** Through the printer, as [net/netip]'s own documentation gives them. *)
Definition canonical (s : str) : option str := addr_string <$> ParseAddr s.

Example ip_v4 : canonical "192.0.2.1" = Some "192.0.2.1". Proof. reflexivity. Qed.
Example ip_v4_zero : canonical "192.0.02.1" = None. Proof. reflexivity. Qed.
Example ip_v4_big : canonical "192.0.256.1" = None. Proof. reflexivity. Qed.
Example ip_v4_short : canonical "192.0.2" = None. Proof. reflexivity. Qed.
Example ip_v4_dots : canonical "192..2.1" = None. Proof. reflexivity. Qed.
Example ip_v6 : canonical "2001:DB8:0:0:1:0:0:1" = Some "2001:db8::1:0:0:1". Proof. reflexivity. Qed.
Example ip_v6_loop : canonical "0:0:0:0:0:0:0:1" = Some "::1". Proof. reflexivity. Qed.
Example ip_v6_all : canonical "::" = Some "::". Proof. reflexivity. Qed.
Example ip_v6_tail : canonical "fe80::" = Some "fe80::". Proof. reflexivity. Qed.
Example ip_v6_4 : canonical "::ffff:192.0.2.1" = Some "::ffff:192.0.2.1". Proof. reflexivity. Qed.
Example ip_v6_zone : canonical "fe80::1%or udp port 53" = Some "fe80::1%or udp port 53".
Proof. reflexivity. Qed.
Example ip_v6_full : canonical "1:2:3:4:5:6:7::8" = None. Proof. reflexivity. Qed.
Example ip_v6_long : canonical "12345::" = None. Proof. reflexivity. Qed.

End Netip.

Module Template.
Import Netip Observation Bounds.

Inductive template_error :=
  | UnknownPlaceholder (name : str)
  | NoFlow (name : str)
  | NotFilterable (name protocol : str)
  | NotAnIP (name ip : str)
  | HasZone (name ip : str)
  | NoPort (name : str)
  | NotAPort (name : str) (port : Z)
  | Unterminated
  | FilterSyntax (err : str)
  | TemplateTooLong.

(** Two opening braces, a submatch without braces, two closing braces. *)
Definition placeholderRE : regexp :=
  Seq (lit "{{") (Seq (Group 1 (star (λ r, negb (r =? 123) && negb (r =? 125)))) (lit "}}")).

(** A string cut at the matches of an expression. *)
Inductive piece :=
  | Text (s : str)
  | Match (caps : list (nat * str)).

Fixpoint pieces_runes (fuel : nat) (r : regexp) (prev : option Z) (l : list rune_tok) : list piece :=
  match fuel, l with
  | S n, t :: l' =>
      match match_at (Group 0 r) prev l with
      | Some st =>
          if bool_decide (length (ms_rest st) < length l)%nat
          then Match (ms_caps st) :: pieces_runes n r (ms_prev st) (ms_rest st)
          else Text (r_bytes t) :: pieces_runes n r (Some (r_value t)) l'
      | None => Text (r_bytes t) :: pieces_runes n r (Some (r_value t)) l'
      end
  | _, _ => []
  end.

Definition pieces (r : regexp) (s : str) : list piece :=
  let l := runes s in pieces_runes (length l) r None l.

Definition render (value : list (nat * str) → str) (ps : list piece) : str :=
  foldr (λ p s, match p with Text t => t | Match caps => value caps end +:+ s) "" ps.

(** [FindAllStringSubmatch(s, -1)] *)
Definition find_all (r : regexp) (s : str) : list (list (nat * str)) :=
  omap (λ p, match p with Text _ => None | Match caps => Some caps end) (pieces r s).

(** [FindStringSubmatch(match)[1]] of a match, trimmed. *)
Definition name_of (caps : list (nat * str)) : str := trim_space (cap caps 1).

Definition bpfProtocols : list str := ["tcp"; "udp"; "icmp"; "icmp6"; "sctp"].

Definition ipValue (name ip : str) : result template_error str :=
  match ParseAddr ip with
  | None => Err (NotAnIP name ip)
  | Some addr =>
      if negb (bool_decide (Zone addr = "")) then Err (HasZone name ip) else Ok (addr_string addr)
  end.

Definition portValue (name : str) (port : option Z) : result template_error str :=
  match port with
  | None => Err (NoPort name)
  | Some p => if (p <? 0) || (65535 <? p) then Err (NotAPort name p) else Ok (itoa p)
  end.

Record placeholder := mkPlaceholder {
  ph_resolve : str → Flow → result template_error str;
  ph_specimen : str;
}.

(** The map literal; a lookup by name. *)
Definition placeholders (name : str) : option placeholder :=
  if bool_decide (name = "source.ip") then
    Some (mkPlaceholder (λ n f, ipValue n (ep_IP (fl_Source f))) "192.0.2.1")
  else if bool_decide (name = "destination.ip") then
    Some (mkPlaceholder (λ n f, ipValue n (ep_IP (fl_Destination f))) "192.0.2.2")
  else if bool_decide (name = "source.port") then
    Some (mkPlaceholder (λ n f, portValue n (ep_Port (fl_Source f))) "65535")
  else if bool_decide (name = "destination.port") then
    Some (mkPlaceholder (λ n f, portValue n (ep_Port (fl_Destination f))) "65535")
  else if bool_decide (name = "protocol") then
    Some (mkPlaceholder (λ n f,
      if bool_decide (fl_Protocol f ∈ bpfProtocols) then Ok (fl_Protocol f)
      else Err (NotFilterable n (fl_Protocol f))) "tcp")
  else None.

Definition resolvePlaceholder (name : str) (obs : Observation) : result template_error str :=
  match placeholders name with
  | None => Err (UnknownPlaceholder name)
  | Some p =>
      match ob_Flow obs with
      | None => Err (NoFlow name)
      | Some flow => ph_resolve p name flow
      end
  end.

(** The replacement function of [RenderFilter]: a failure leaves nothing, and
    the first one is remembered. *)
Definition value_of (obs : Observation) (caps : list (nat * str)) : str :=
  match resolvePlaceholder (name_of caps) obs with Ok v => v | Err _ => "" end.

Fixpoint first_error (obs : Observation) (matches : list (list (nat * str))) : option template_error :=
  match matches with
  | [] => None
  | caps :: rest =>
      match resolvePlaceholder (name_of caps) obs with
      | Err e => Some e
      | Ok _ => first_error obs rest
      end
  end.

Definition has_braces (s : str) : bool := str_contains s "{{" || str_contains s "}}".

Definition RenderFilter (template : str) (obs : Observation) : result template_error str :=
  let rendered := replace_all placeholderRE (value_of obs) template in
  match first_error obs (find_all placeholderRE template) with
  | Some e => Err e
  | None =>
      if has_braces rendered then Err Unterminated else
      match ValidateFilterSyntax rendered with
      | Err e => Err (FilterSyntax e)
      | Ok _ => Ok rendered
      end
  end.

(** An unknown placeholder is left in place. *)
Definition specimen_of (caps : list (nat * str)) : str :=
  match placeholders (name_of caps) with Some p => ph_specimen p | None => cap caps 0 end.

Definition ValidateFilterTemplate (template : str) : result template_error unit :=
  if MaxFilterBytes <? slen template then Err TemplateTooLong else
  let residual := replace_all placeholderRE specimen_of template in
  match find_all placeholderRE residual with
  | caps :: _ => Err (UnknownPlaceholder (name_of caps))
  | [] =>
      if has_braces residual then Err Unterminated else
      match ValidateFilterSyntax residual with
      | Err e => Err (FilterSyntax e)
      | Ok _ => Ok tt
      end
  end.

(** ** Examples *)

Definition example_flow (ip : str) (port : option Z) : Flow :=
  mkFlow "" "" "tcp" None (mkEndpoint ip port "" "" "" "") (mkEndpoint "2001:DB8::0:1" (Some 53) "" "" "" "").

Definition example_obs (flow : option Flow) : Observation :=
  mkObs "" "" 0 0 (mkSource "" "") None (mkTarget "" "" "") TypeNone flow
    (mkDetails None None None None None None None None None None).

Example render_ok :
  RenderFilter "host {{source.ip}} and {{ protocol }} port {{destination.port}}"
    (example_obs (Some (example_flow "192.0.2.7" None)))
  = Ok "host 192.0.2.7 and tcp port 53".
Proof. vm_compute. reflexivity. Qed.

Example render_injection :
  RenderFilter "host {{source.ip}}" (example_obs (Some (example_flow "fe80::1%or udp port 53" None)))
  = Err (HasZone "source.ip" "fe80::1%or udp port 53").
Proof. vm_compute. reflexivity. Qed.

Example render_unknown :
  RenderFilter "host {{source.mac}}" (example_obs (Some (example_flow "192.0.2.7" None)))
  = Err (UnknownPlaceholder "source.mac").
Proof. vm_compute. reflexivity. Qed.

Example render_unterminated :
  RenderFilter "host {{source.ip" (example_obs (Some (example_flow "192.0.2.7" None)))
  = Err Unterminated.
Proof. vm_compute. reflexivity. Qed.

Example template_ok : ValidateFilterTemplate "host {{source.ip}} and port {{source.port}}" = Ok tt.
Proof. vm_compute. reflexivity. Qed.

Example template_unknown :
  ValidateFilterTemplate "host {{source.mac}}" = Err (UnknownPlaceholder "source.mac").
Proof. vm_compute. reflexivity. Qed.

(** ** Lemmas *)

Lemma replace_pieces r value s : replace_all r value s = render value (pieces r s).
Proof.
  unfold replace_all, pieces. generalize (length (runes s)) as fuel, (@None Z) as prev.
  intros fuel. generalize (runes s). induction fuel as [|fuel IH]; intros [|t l] prev; try done.
  cbn [replace_runes pieces_runes]. destruct (match_at _ _ _) as [st|]; [|cbn; by rewrite IH].
  case_bool_decide; cbn; by rewrite IH.
Qed.

Lemma render_app value a b : render value (a ++ b) = render value a +:+ render value b.
Proof.
  induction a as [|q a IH]; [done|].
  change (render value (q :: a)) with (match q with Text t => t | Match caps => value caps end +:+ render value a).
  by rewrite str_app_assoc, <-IH.
Qed.

Lemma render_forallb p value ps :
  str_forallb p (render value ps) = true ↔
  ∀ q, q ∈ ps → str_forallb p (match q with Text t => t | Match caps => value caps end) = true.
Proof.
  induction ps as [|q ps IH]; simpl; [split; [intros _ q Hq; by apply elem_of_nil in Hq|done]|].
  rewrite str_forallb_app, andb_true_iff, IH. split.
  - intros [H1 H2] q' [->|Hq]%elem_of_cons; auto.
  - intros H. split; [apply H; left|intros q' Hq; apply H; by right].
Qed.

(** *** Doubled braces *)

Definition braces (b : Ascii.ascii) : str := String b (String b "").
Definition starts (b : Ascii.ascii) (s : str) : bool :=
  match s with String c _ => bool_decide (b = c) | EmptyString => false end.

Lemma contains_cons b c s :
  str_contains (String c s) (braces b) = bool_decide (b = c) && starts b s || str_contains s (braces b).
Proof. destruct s as [|d s]; [done|]. simpl. destruct s; by rewrite ?andb_true_r. Qed.

(** A brace-free token hides the doubled braces of what follows from what
    precedes, whatever the token is. *)
Lemma contains_token b v s :
  str_forallb (λ c, negb (bool_decide (b = c))) v = true →
  str_contains (v +:+ s) (braces b) = str_contains s (braces b).
Proof.
  induction v as [|c v IH]; [done|]. cbn [str_forallb]. rewrite andb_true_iff, negb_true_iff.
  intros [Hc Hv]. cbn [String.append]. by rewrite contains_cons, Hc, IH.
Qed.

Lemma contains_text b t s1 s2 :
  str_contains s1 (braces b) = str_contains s2 (braces b) → starts b s1 = starts b s2 →
  str_contains (t +:+ s1) (braces b) = str_contains (t +:+ s2) (braces b) ∧
  starts b (t +:+ s1) = starts b (t +:+ s2).
Proof.
  intros Hc Hs. induction t as [|c t [IH1 IH2]]; [done|]. cbn [String.append].
  by rewrite !contains_cons, IH1, IH2.
Qed.

Lemma contains_middle a b c sub : str_contains b sub = true → str_contains (a +:+ b +:+ c) sub = true.
Proof.
  intros Hb. induction a as [|x a IH].
  - cbn [String.append]. revert Hb. induction b as [|y b IH]; cbn [String.append str_contains].
    + rewrite orb_false_r. intros Hp. destruct sub; [|done]. by destruct c.
    + rewrite !orb_true_iff. intros [Hp|Hb]; [left|right; by apply IH].
      apply has_prefix_spec in Hp as [t Ht]. apply has_prefix_spec. exists (t +:+ c).
      by rewrite <-str_app_assoc, <-Ht.
  - cbn [String.append str_contains]. by rewrite IH, orb_true_r.
Qed.

Lemma render_braces b v1 v2 ps :
  (∀ caps, Match caps ∈ ps → ∀ v, v = v1 caps ∨ v = v2 caps →
     v ≠ "" ∧ str_forallb (λ c, negb (bool_decide (b = c))) v = true) →
  str_contains (render v1 ps) (braces b) = str_contains (render v2 ps) (braces b).
Proof.
  intros Hps. cut (str_contains (render v1 ps) (braces b) = str_contains (render v2 ps) (braces b) ∧
    starts b (render v1 ps) = starts b (render v2 ps)); [by intros [? _]|].
  induction ps as [|[t|caps] ps IH]; [done| |].
  - apply contains_text; apply IH; intros caps Hin; apply Hps; by right.
  - destruct IH as [IH _]; [intros caps' Hin; apply Hps; by right|]. cbn [render foldr].
    fold (render v1 ps) (render v2 ps).
    destruct (Hps caps ltac:(left) (v1 caps)) as [N1 F1]; [by left|].
    destruct (Hps caps ltac:(left) (v2 caps)) as [N2 F2]; [by right|].
    rewrite !contains_token by done. split; [done|].
    destruct (v1 caps) as [|c1 r1], (v2 caps) as [|c2 r2]; try done.
    cbn [str_forallb] in F1, F2. apply andb_true_iff in F1 as [F1 _], F2 as [F2 _].
    apply negb_true_iff in F1, F2. unfold starts. cbn. by rewrite F1, F2.
Qed.

Lemma value_no_brace v b :
  safe_value v → value_char b = false →
  v ≠ "" ∧ str_forallb (λ c, negb (bool_decide (b = c))) v = true.
Proof.
  intros [Hne Hv] Hb. split; [done|]. eapply str_forallb_impl; [|exact Hv]. intros c Hc.
  rewrite negb_true_iff. apply bool_decide_eq_false_2. intros ->. by rewrite Hb in Hc.
Qed.

(** *** What a match of the placeholder expression is *)

Lemma ascii_token s :
  Forall (λ t, ∀ c r, r_bytes t = String c r → byte_of c < 128 → r_value t = byte_of c ∧ r = "") (runes s).
Proof.
  induction s as [s IH] using (induction_ltof1 _ String.length). unfold ltof in IH.
  destruct s as [|a s1]; [constructor|]. cbn [runes].
  rune_cases; subst; (constructor; [|apply IH; simpl; lia]); cbn [r_bytes r_value bad_rune];
    intros c' r' [= <- <-] Hlt; try done; exfalso;
    match goal with H : (byte_of _ <? 128) = false |- _ => apply Z.ltb_ge in H; lia end.
Qed.

Lemma placeholder_match prev l st :
  match_at (Group 0 placeholderRE) prev l = Some st →
  ∃ t1 t2 k, l = t1 :: t2 :: k ++ ms_rest st ∧ r_value t1 = 123 ∧ r_value t2 = 123 ∧
    cap (ms_caps st) 0 = rune_concat (t1 :: t2 :: k).
Proof.
  unfold match_at, placeholderRE. change (lit "{{") with (Seq (Any (λ r, r =? 123)) (Seq (Any (λ r, r =? 123)) Eps)).
  cbn [go ms_rest ms_prev ms_caps].
  destruct l as [|t1 [|t2 l]]; [done|by destruct (_ =? _)|].
  destruct (Z.eqb_spec (r_value t1) 123) as [H1|]; [|done].
  destruct (Z.eqb_spec (r_value t2) 123) as [H2|]; [|done].
  match goal with |- ?g = _ → _ => set (m := g) end. intros Hm. unfold m in Hm. clear m.
  match type of Hm with context [mkState _ l ?c] => set (st0 := mkState (Some (r_value t2)) l c) in Hm end.
  assert (∃ st1, ms_rest st = ms_rest st1 ∧ suffix_of st0 st1 ∧
    ms_caps st = (0%nat, rune_concat (take (length (t1 :: t2 :: l) - length (ms_rest st1)) (t1 :: t2 :: l))) :: ms_caps st1) as Hst.
  { match type of Hm with _ = Some _ => idtac end.
    change (go (Seq (Group 1 (star (λ r, negb (r =? 123) && negb (r =? 125)))) (lit "}}")) st0
      (λ st', Some (mkState (ms_prev st') (ms_rest st')
         ((0%nat, rune_concat (take (length (t1 :: t2 :: l) - length (ms_rest st')) (t1 :: t2 :: l))) :: ms_caps st')))
      = Some st) in Hm.
    apply go_suffix in Hm as (st1 & [= <-] & Hs). by exists st1. }
  destruct Hst as (st1 & Er & [k Hk] & Ec). simpl in Hk. exists t1, t2, k. rewrite Er, Ec.
  split; [by rewrite Hk|]. split; [done|]. split; [done|]. unfold cap. cbn.
  rewrite Hk, length_app.
  replace (S (S (length k + length (ms_rest st1))) - length (ms_rest st1))%nat with (S (S (length k))) by lia.
  cbn [take]. by rewrite take_app_length.
Qed.

Lemma pieces_match s caps :
  Match caps ∈ pieces placeholderRE s →
  ∃ t1 t2 k, r_value t1 = 123 ∧ r_value t2 = 123 ∧ cap caps 0 = rune_concat (t1 :: t2 :: k) ∧
    t1 ∈ runes s ∧ t2 ∈ runes s.
Proof.
  unfold pieces. generalize (length (runes s)) as fuel, (@None Z) as prev. intros fuel.
  assert (∀ t, t ∈ runes s → t ∈ runes s) as Hsub by done. revert Hsub.
  generalize (runes s) at 1 3. induction fuel as [|fuel IH]; intros l Hsub prev; [by intros ?%elem_of_nil|].
  destruct l as [|t l]; [by intros ?%elem_of_nil|]. cbn [pieces_runes].
  assert (∀ t', t' ∈ l → t' ∈ runes s) as Hsub' by (intros; apply Hsub; by right).
  destruct (match_at _ _ _) as [st|] eqn:Em.
  - apply placeholder_match in Em as (t1 & t2 & k & El & H1 & H2 & Hc).
    case_bool_decide; (intros [Heq|Hin]%elem_of_cons; [|]); try done.
    + injection Heq as ->. exists t1, t2, k. split_and!; [done..| |]; apply Hsub; rewrite El; set_solver.
    + eapply IH; [|exact Hin]. intros t' Ht'. apply Hsub. rewrite El. set_solver.
    + by eapply IH.
  - intros [?|Hin]%elem_of_cons; [done|]. by eapply IH.
Qed.

(** A match left in place leaves its opening braces. *)
Lemma unresolved_braces s value caps :
  Match caps ∈ pieces placeholderRE s → value caps = cap caps 0 →
  str_forallb printable (render value (pieces placeholderRE s)) = true →
  str_contains (render value (pieces placeholderRE s)) "{{" = true.
Proof.
  intros Hin Hv Hp. pose proof (proj1 (render_forallb _ _ _) Hp _ Hin) as Hpm. simpl in Hpm.
  destruct (pieces_match _ _ Hin) as (t1 & t2 & k & H1 & H2 & Hc & Hin1 & Hin2).
  assert (∀ t r, t ∈ runes s → r_value t = 123 → str_forallb printable (r_bytes t +:+ r) = true →
    r_bytes t = "{") as Htok.
  { intros t r Ht H123 Hpr. pose proof (ascii_token s) as Ha. rewrite Forall_forall in Ha.
    specialize (Ha t Ht). pose proof (runes_shape s) as Hsh. rewrite Forall_forall in Hsh.
    destruct (Hsh t Ht) as (c & r' & Eb & _). rewrite Eb in Hpr. cbn [String.append str_forallb] in Hpr.
    apply andb_true_iff in Hpr as [Hpc _]. unfold printable in Hpc.
    apply negb_true_iff, orb_false_iff in Hpc as [_ Hpc%Z.ltb_ge].
    destruct (Ha c r' Eb ltac:(lia)) as [Hval ->]. rewrite Eb. f_equal. apply byte_of_inj. by rewrite <-Hval, H123. }
  rewrite Hv, Hc in Hpm. cbn [rune_concat] in Hpm.
  pose proof (Htok _ _ Hin1 H1 Hpm) as E1. rewrite E1 in Hpm. cbn [String.append str_forallb] in Hpm.
  apply andb_true_iff in Hpm as [_ Hpm]. pose proof (Htok _ _ Hin2 H2 Hpm) as E2.
  apply list_elem_of_split in Hin as (l1 & l2 & El). rewrite El.
  rewrite render_app. change (render value (Match caps :: l2)) with (value caps +:+ render value l2).
  apply contains_middle. rewrite Hv, Hc. cbn [rune_concat]. rewrite E1, E2. by destruct (rune_concat k).
Qed.

Lemma resolve_safe obs caps v : resolvePlaceholder (name_of caps) obs = Ok v → safe_value v.
Proof.
  unfold resolvePlaceholder, placeholders. generalize (name_of caps) as name. intros name.
  assert (∀ n ip v, ipValue n ip = Ok v → safe_value v) as Hip.
  { intros n ip w. unfold ipValue. destruct (ParseAddr ip) as [a|] eqn:Ea; [|done].
    case_bool_decide; [|done]. intros [= <-]. by eapply addr_string_value. }
  assert (∀ n p v, portValue n p = Ok v → safe_value v) as Hport.
  { intros n [p|] w; [|done]. unfold portValue. destruct (Z.ltb_spec p 0); [done|].
    destruct (_ <? p); [done|]. intros [= <-]. split; [apply itoa_nonempty|by apply itoa_value]. }
  repeat (case_bool_decide; [destruct (ob_Flow obs) as [f|]; [|done]; cbn [ph_resolve]; by eauto|]).
  case_bool_decide; [|done]. destruct (ob_Flow obs) as [f|]; [|done]. cbn [ph_resolve].
  case_bool_decide as Hp; [|done]. intros [= <-]. revert Hp. unfold bpfProtocols.
  rewrite !elem_of_cons, elem_of_nil. by intros [->|[->|[->|[->|[->|[]]]]]].
Qed.

Lemma specimen_safe name p : placeholders name = Some p → safe_value (ph_specimen p).
Proof. unfold placeholders. repeat (case_bool_decide; [by intros [= <-]|]). done. Qed.

Lemma first_error_None obs ps :
  first_error obs (omap (λ p, match p with Text _ => None | Match caps => Some caps end) ps) = None ↔
  ∀ caps, Match caps ∈ ps → is_ok (resolvePlaceholder (name_of caps) obs) = true.
Proof.
  induction ps as [|[t|caps] ps IH]; [split; [by intros _ caps ?%elem_of_nil|done]| |].
  - change (omap _ (Text t :: ps)) with (omap (λ p, match p with Text _ => None | Match caps => Some caps end) ps).
    rewrite IH. split; [intros H caps [?|?]%elem_of_cons; [done|auto]|intros H caps Hin; apply H; by right].
  - change (omap _ (Match caps :: ps)) with
      (caps :: omap (λ p, match p with Text _ => None | Match caps => Some caps end) ps).
    cbn [first_error]. destruct (resolvePlaceholder (name_of caps) obs) as [v|e] eqn:Er.
    + rewrite IH. split; [|intros H caps' Hin; apply H; by right].
      intros H caps' [[= ->]|?]%elem_of_cons; [by rewrite Er|auto].
    + split; [done|]. intros H. specialize (H caps ltac:(left)). by rewrite Er in H.
Qed.

Lemma value_of_safe obs caps :
  is_ok (resolvePlaceholder (name_of caps) obs) = true → safe_value (value_of obs caps).
Proof.
  unfold value_of. destruct (resolvePlaceholder (name_of caps) obs) as [v|e] eqn:Er; [|done].
  intros _. by eapply resolve_safe.
Qed.

Lemma RenderFilter_valid template obs out :
  RenderFilter template obs = Ok out → slen out ≤ MaxFilterBytes ∧ str_forallb printable out = true.
Proof.
  unfold RenderFilter. destruct (first_error _ _); [done|]. destruct (has_braces _); [done|].
  destruct (ValidateFilterSyntax _) as [[]|] eqn:Ev; [|done]. intros [= <-].
  by apply ValidateFilterSyntax_Ok.
Qed.

(** ** Theorems *)

(** C33: What an observation can put into a filter.  A rendered filter is the
    template's own text with one value in place of each placeholder, and every
    value is a single token of lower-case letters, digits, dots and colons:
    no space, operator or bracket of the expression ever comes from the wire.
    The whole is printable, at most 1024 bytes, and holds no leftover
    placeholder braces. *)
Theorem RenderFilter_safe template obs out :
  RenderFilter template obs = Ok out →
  out = render (value_of obs) (pieces placeholderRE template) ∧
  (∀ caps, Match caps ∈ pieces placeholderRE template →
     resolvePlaceholder (name_of caps) obs = Ok (value_of obs caps) ∧ safe_value (value_of obs caps)) ∧
  has_braces out = false ∧ slen out ≤ 1024 ∧ str_forallb printable out = true.
Proof.
  unfold RenderFilter, find_all. rewrite replace_pieces.
  destruct (first_error _ _) eqn:Ee; [done|]. rewrite first_error_None in Ee.
  destruct (has_braces _) eqn:Eb; [done|]. destruct (ValidateFilterSyntax _) as [[]|] eqn:Ev; [|done].
  intros [= <-]. apply ValidateFilterSyntax_Ok in Ev as [Hl Hp]. split; [done|].
  split; [|by split_and!]. intros caps Hin. specialize (Ee caps Hin). split; [|by apply value_of_safe].
  unfold value_of. by destruct (resolvePlaceholder (name_of caps) obs).
Qed.

Lemma RenderFilter_safe_witness :
  RenderFilter "host {{source.ip}}" (example_obs (Some (example_flow "2001:DB8::1" None))) = Ok "host 2001:db8::1" ∧
  slen "host 2001:db8::1" ≤ 1024.
Proof.
  split; [vm_compute; reflexivity|].
  eapply (RenderFilter_safe "host {{source.ip}}" (example_obs (Some (example_flow "2001:DB8::1" None)))).
  vm_compute. reflexivity.
Defined.

(** The check a policy passes when it is written and the rendering when it
    fires cannot drift apart.  A template that was admitted, for an observation
    that has every documented value, renders; the one way it can still fail is
    that the values, longer than the specimens the check used, take the filter
    past its length limit. *)
Theorem admitted_template_renders template obs :
  ValidateFilterTemplate template = Ok tt →
  (∀ name, placeholders name ≠ None → is_ok (resolvePlaceholder name obs) = true) →
  let out := render (value_of obs) (pieces placeholderRE template) in
  RenderFilter template obs =
    if slen out <=? 1024 then Ok out else Err (FilterSyntax "filter: longer than 1024 bytes").
Proof.
  intros Ha Hobs out. unfold ValidateFilterTemplate in Ha.
  destruct (_ <? _); [done|]. destruct (find_all _ _); [|done]. rewrite replace_pieces in Ha.
  set (ps := pieces placeholderRE template) in *.
  destruct (has_braces (render specimen_of ps)) eqn:Eb; [done|].
  destruct (ValidateFilterSyntax (render specimen_of ps)) as [[]|] eqn:Ev; [|done].
  apply ValidateFilterSyntax_Ok in Ev as [_ Hp]. unfold has_braces in Eb. apply orb_false_iff in Eb as [Eb1 Eb2].
  assert (∀ caps, Match caps ∈ ps → placeholders (name_of caps) ≠ None) as Hknown.
  { intros caps Hin Hn. assert (str_contains (render specimen_of ps) "{{" = true) as Hb; [|by rewrite Hb in Eb1].
    apply (unresolved_braces template specimen_of caps Hin); [|done]. unfold specimen_of. by rewrite Hn. }
  assert (∀ caps, Match caps ∈ ps → safe_value (value_of obs caps)) as Hval
    by (intros caps Hin; by apply value_of_safe, Hobs, Hknown).
  assert (∀ caps, Match caps ∈ ps → safe_value (specimen_of caps)) as Hspec.
  { intros caps Hin. unfold specimen_of. destruct (placeholders (name_of caps)) as [p|] eqn:E; [|by apply Hknown in E].
    by eapply specimen_safe. }
  assert (∀ b, value_char b = false →
    str_contains out (braces b) = str_contains (render specimen_of ps) (braces b)) as Hsame.
  { intros b Hb. apply render_braces. intros caps Hin v [->| ->]; apply value_no_brace; auto. }
  unfold RenderFilter, find_all. fold ps.
  rewrite (proj2 (first_error_None obs ps)) by (intros caps Hin; by apply Hobs, Hknown).
  rewrite replace_pieces. fold ps out. unfold has_braces.
  change "{{" with (braces (ascii_of 123)) in *. change "}}" with (braces (ascii_of 125)) in *.
  rewrite !Hsame by done. rewrite Eb1, Eb2. cbn [orb]. unfold ValidateFilterSyntax. change MaxFilterBytes with 1024.
  assert (str_forallb printable out = true) as ->.
  { apply render_forallb. intros [t|caps] Hin.
    - by apply (proj1 (render_forallb _ _ _) Hp (Text t)).
    - eapply str_forallb_impl; [|by apply Hval]. intros c Hc. unfold value_char, is_digit in Hc. unfold printable.
      repeat (rewrite ?orb_true_iff, ?andb_true_iff in Hc). lia. }
  destruct (Z.ltb_spec 1024 (slen out)), (Z.leb_spec (slen out) 1024); try lia; done.
Qed.

Lemma admitted_template_renders_witness :
  RenderFilter "{{protocol}} port {{destination.port}}" (example_obs (Some (example_flow "::1" (Some 0))))
  = Ok "tcp port 53".
Proof.
  rewrite admitted_template_renders; [vm_compute; reflexivity|vm_compute; reflexivity|].
  intros name. unfold resolvePlaceholder, placeholders.
  repeat (case_bool_decide; [intros _; reflexivity|]). done.
Defined.

End Template.
