(* ===== verification/Fabric.v ===== *)
(** * Mirroring providers, internal/fabric/provider.go

    What a mirror request is, when a device's state satisfies it, which
    requests are refused, and the registry of drivers.  A provider's three
    methods are programs of the driver's own calls; their errors keep the
    sentinels callers test for.  [quote] is fmt's [%q]. *)

From S2P Require Import Prelude GoString.

Module Fabric.

Definition DirectionBoth : str := "Both".
Definition DirectionIngress : str := "Ingress".
Definition DirectionEgress : str := "Egress".

Record Device := mkDevice {
  dev_Address : str;
  dev_Username : str;
  dev_Password : str;
  dev_SSHHostKey : str;
  dev_SSHPrivateKey : str;
  dev_CACertPEM : str;
  dev_InsecureSkipVerify : bool;
}.

Record Mirror := mkMirror { mi_Sources : list str; mi_Target : str; mi_Direction : str }.

Record State := mkState {
  st_Sources : list str;
  st_Target : str;
  st_Direction : str;
  st_SourceDirections : gmap string str;
  st_Identity : str;
}.

(** What [errors.Is] can find in an error of a driver. *)
Inductive fabric_error :=
  | UnsupportedDevice (text : str)
  | UntrustedDevice (text : str)
  | DeviceError (text : str).

Definition error_text (e : fabric_error) : str :=
  match e with UnsupportedDevice t | UntrustedDevice t | DeviceError t => t end.

(** [fmt.Errorf("prefix%w", err)] *)
Definition wrap_error (prefix : str) (e : fabric_error) : fabric_error :=
  match e with
  | UnsupportedDevice t => UnsupportedDevice (prefix +:+ t)
  | UntrustedDevice t => UntrustedDevice (prefix +:+ t)
  | DeviceError t => DeviceError (prefix +:+ t)
  end.

Definition wantDirection (m : Mirror) : str :=
  if bool_decide (mi_Direction m = "") then DirectionBoth else mi_Direction m.

Definition Matches (s : State) (m : Mirror) : bool :=
  if negb (bool_decide (st_Target s = mi_Target m)) then false else
  if negb (bool_decide (length (st_Sources s) = length (mi_Sources m))) then false else
  if negb (bool_decide (st_Direction s = wantDirection m)) then false else
  if negb (forallb (λ source, bool_decide (default "" (st_SourceDirections s !! source) = wantDirection m))
             (mi_Sources m)) then false
  else bool_decide (sort_keys (st_Sources s) = sort_keys (mi_Sources m)).

Section quoting.
Context (quote : str → str).

(** ** The registry *)

Fixpoint add_providers {P} (r : gmap string P) (providers : list (str * P)) : result str (gmap string P) :=
  match providers with
  | [] => Ok r
  | (name, p) :: rest =>
      if bool_decide (name = "") then Err "a provider reported an empty name" else
      match r !! name with
      | Some _ => Err ("two providers both named " +:+ quote name)
      | None => add_providers (<[name := p]> r) rest
      end
  end.

Definition NewRegistry {P} (providers : list (str * P)) : result str (gmap string P) := add_providers ∅ providers.

Definition Names {P} (r : gmap string P) : list str := sort_keys (fst <$> map_to_list r).

Definition GetProvider {P} (r : gmap string P) (name : str) : result str P :=
  match r !! name with
  | Some p => Ok p
  | None => Err ("no provider registered for this name: " +:+ quote name +:+
                 " (registered: " +:+ str_join (Names r) ", " +:+ ")")
  end.

(** ** Requests *)

Fixpoint check_sources (seen : gset string) (sources : list str) : option str :=
  match sources with
  | [] => None
  | s :: rest =>
      if bool_decide (s = "") then Some "a mirror source port name is empty" else
      if bool_decide (s ∈ seen) then Some ("source " +:+ quote s +:+ " is listed twice") else
      check_sources ({[s]} ∪ seen) rest
  end.

Definition known_direction (d : str) : bool :=
  bool_decide (d ∈ [""; DirectionBoth; DirectionIngress; DirectionEgress]).

Definition Validate (m : Mirror) : option str :=
  if bool_decide (mi_Sources m = []) then Some "a mirror needs at least one source port" else
  if bool_decide (mi_Target m = "") then Some "a mirror needs a target port" else
  if bool_decide (mi_Target m ∈ mi_Sources m)
  then Some ("target " +:+ quote (mi_Target m) +:+ " is also a source; a port mirroring into itself is a loop") else
  match check_sources ∅ (mi_Sources m) with
  | Some e => Some e
  | None =>
      if known_direction (mi_Direction m) then None
      else Some ("unknown mirror direction " +:+ quote (mi_Direction m))
  end.

(** ** Lemmas *)

Lemma check_sources_None seen sources :
  check_sources seen sources = None ↔
  NoDup sources ∧ "" ∉ sources ∧ (∀ s, s ∈ sources → s ∉ seen).
Proof.
  revert seen. induction sources as [|s rest IH]; intros seen; simpl.
  { split; [intros _|done]. split_and!; [constructor|set_solver|set_solver]. }
  case_bool_decide as He; [subst; split; [done|]; intros (_ & Hn & _); set_solver|].
  case_bool_decide as Hs; [split; [done|]; intros (_ & _ & Hn); destruct (Hn s); set_solver|].
  rewrite IH, NoDup_cons. set_solver.
Qed.

(** A request that passes. *)
Definition sound (m : Mirror) : Prop :=
  mi_Sources m ≠ [] ∧ mi_Target m ≠ "" ∧ mi_Target m ∉ mi_Sources m ∧
  NoDup (mi_Sources m) ∧ "" ∉ mi_Sources m ∧ known_direction (mi_Direction m) = true.

Lemma Validate_sound m : Validate m = None ↔ sound m.
Proof.
  unfold Validate, sound. do 3 (case_bool_decide; [naive_solver|]).
  destruct (check_sources ∅ (mi_Sources m)) as [e|] eqn:Ec.
  - split; [done|]. intros (_ & _ & _ & Hnd & He & _).
    assert (check_sources ∅ (mi_Sources m) = None) by (apply check_sources_None; set_solver). congruence.
  - apply check_sources_None in Ec as (? & ? & _). destruct (known_direction _); naive_solver.
Qed.

End quoting.

Lemma wantDirection_cases m :
  known_direction (mi_Direction m) = true →
  wantDirection m = DirectionBoth ∨ wantDirection m = DirectionIngress ∨ wantDirection m = DirectionEgress.
Proof.
  unfold known_direction, wantDirection. intros Hd%bool_decide_eq_true. case_bool_decide; [by left|]. set_solver.
Qed.

Lemma Matches_iff s m :
  Matches s m = true ↔
  st_Target s = mi_Target m ∧ st_Sources s ≡ₚ mi_Sources m ∧ st_Direction s = wantDirection m ∧
  ∀ source, source ∈ mi_Sources m → default "" (st_SourceDirections s !! source) = wantDirection m.
Proof.
  unfold Matches. rewrite <-sort_keys_eq.
  case_bool_decide; [|naive_solver]. case_bool_decide as Hl; simpl.
  2: { split; [done|]. intros (_ & Hp%sort_keys_eq%Permutation_length & _). done. }
  case_bool_decide; [|naive_solver]. simpl.
  destruct (forallb _ _) eqn:Ef; simpl; rewrite ?bool_decide_eq_true.
  - rewrite forallb_forall in Ef. split; [intros Hs|naive_solver]. split_and!; try done.
    intros x Hx%list_elem_of_In%Ef. by apply bool_decide_eq_true in Hx.
  - split; [done|]. intros (_ & _ & _ & Hall). apply not_true_iff_false in Ef. destruct Ef.
    apply forallb_forall. intros x Hx%list_elem_of_In. by apply bool_decide_eq_true, Hall.
Qed.

(** ** Theorems *)

(** When a device does what was asked.  A state matches a request exactly
    when its target is the requested one, its sources are the requested ones
    in any order, and every one of them - not only the aggregate - is copied
    in the requested direction, Both where the request leaves it open. *)
Theorem Matches_spec s m :
  Matches s m = true ↔
  st_Target s = mi_Target m ∧ st_Sources s ≡ₚ mi_Sources m ∧ st_Direction s = wantDirection m ∧
  ∀ source, source ∈ mi_Sources m → default "" (st_SourceDirections s !! source) = wantDirection m.
Proof. apply Matches_iff. Qed.

(** The registry finds exactly the drivers it was built from; two with one
    name, or one without, are refused. *)
Theorem Registry_spec {P} quote (providers : list (str * P)) r :
  NewRegistry quote providers = Ok r →
  NoDup (providers.*1) ∧ "" ∉ providers.*1 ∧
  ∀ name p, GetProvider quote r name = Ok p ↔ (name, p) ∈ providers.
Proof.
  assert (∀ providers (r0 r : gmap string P), add_providers quote r0 providers = Ok r →
    NoDup (providers.*1) ∧ "" ∉ providers.*1 ∧ (∀ n, n ∈ providers.*1 → r0 !! n = None) ∧
    ∀ name p, r !! name = Some p ↔ (name, p) ∈ providers ∨ r0 !! name = Some p) as Hadd.
  { clear. induction providers as [|[n p] rest IH]; intros r0 r; simpl.
    { intros [= ->]. split_and!; [constructor|set_solver|set_solver|set_solver]. }
    case_bool_decide as Hn; [done|]. destruct (r0 !! n) eqn:E0; [done|].
    intros (Hnd & Hne & Hfresh & Hget)%IH. split_and!.
    - constructor; [|done]. intros Hin%Hfresh. by rewrite lookup_insert_eq in Hin.
    - set_solver.
    - intros x [->|Hx]%elem_of_cons; [done|]. apply Hfresh in Hx. by apply lookup_insert_None in Hx as [? _].
    - intros name p'. rewrite Hget, lookup_insert_Some, elem_of_cons.
      split; [|naive_solver]. intros [Hin|[[-> ->]|[_ Hin]]]; auto. }
  intros (Hnd & Hne & _ & Hget)%Hadd. split_and!; [done..|]. intros name p. unfold GetProvider.
  assert (r !! name = Some p ↔ (name, p) ∈ providers) as Hp by (rewrite Hget, lookup_empty; naive_solver).
  rewrite <-Hp. destruct (r !! name) as [q|]; split; congruence.
Qed.

End Fabric.
