(* ===== verification/RouterOS.v ===== *)
(** * RouterOS switches

    The hardware both MikroTik drivers talk to, as its documentation and the
    drivers' comments describe it: one switch object with a mirror target, one
    object per port with an ingress and an egress flag, and JSON objects that
    report them.  What both drivers make of the reported flags is here too.
    [field_text] is [stringField] of mikrotik.go and [value] of mikrotikssh.go:
    a field as text, whatever JSON type the release uses. *)

From S2P Require Import Prelude GoString Fabric.

Module RouterOS.
Import Fabric.

Definition noMirrorTarget : str := "none".
Definition routerOSTrue : str := "true".
Definition routerOSFalse : str := "false".
Definition idField : str := ".id".
Definition nameField : str := "name".
Definition targetField : str := "mirror-target".
Definition ingressField : str := "mirror-ingress".
Definition egressField : str := "mirror-egress".

(** A JSON value of an object; anything else as [%v] prints it. *)
Inductive jvalue := JString (s : str) | JBool (b : bool) | JNull | JOther (text : str).

Abbreviation row := (gmap string jvalue) (only parsing).

Definition bool_text (b : bool) : str := if b then routerOSTrue else routerOSFalse.

Definition field_text (r : row) (key : str) : str :=
  match r !! key with
  | Some (JString v) => v
  | Some (JBool b) => bool_text b
  | Some (JOther t) => t
  | Some JNull | None => ""
  end.

(** ** From flags to a state *)

(** A port's name, and whether its ingress and its egress are copied. *)
Record flags := mkFlags { fl_Name : str; fl_In : bool; fl_Eg : bool }.

Definition mirrored (f : flags) : bool := fl_In f || fl_Eg f.

Definition direction_of (ingress egress : bool) : str :=
  match ingress, egress with
  | true, true => DirectionBoth
  | true, false => DirectionIngress
  | false, true => DirectionEgress
  | false, false => ""
  end.

Definition source_directions (l : list flags) : gmap string str :=
  foldl (λ m f, if mirrored f then <[fl_Name f := direction_of (fl_In f) (fl_Eg f)]> m else m) ∅ l.

(** A target called "none" is no target. *)
Definition reported_target (t : str) : str := if bool_decide (t = noMirrorTarget) then "" else t.

Definition state_of (target identity : str) (l : list flags) : State :=
  mkState (fl_Name <$> List.filter mirrored l) (reported_target target)
    (direction_of (existsb fl_In l) (existsb fl_Eg l)) (source_directions l) identity.

(** What a request wants of a port. *)
Definition wanted_in (m : Mirror) (name : str) : bool :=
  bool_decide (wantDirection m ∈ [DirectionIngress; DirectionBoth]) && bool_decide (name ∈ mi_Sources m).
Definition wanted_eg (m : Mirror) (name : str) : bool :=
  bool_decide (wantDirection m ∈ [DirectionEgress; DirectionBoth]) && bool_decide (name ∈ mi_Sources m).

(** ** The switch *)

Record Port := mkPort { pt_Id : str; pt_Flags : flags }.
Record Switch := mkSwitch { sw_Id : str; sw_Name : str; sw_Target : str; sw_Ports : list Port }.

Definition port_names (s : Switch) : list str := fl_Name ∘ pt_Flags <$> sw_Ports s.

(** An object that reports a port, or the switch. *)
Definition reports_port (p : Port) (r : row) : Prop :=
  field_text r idField = pt_Id p ∧ field_text r nameField = fl_Name (pt_Flags p) ∧
  is_Some (r !! ingressField) ∧ is_Some (r !! egressField) ∧
  field_text r ingressField = bool_text (fl_In (pt_Flags p)) ∧
  field_text r egressField = bool_text (fl_Eg (pt_Flags p)).

Definition reports_switch (s : Switch) (r : row) : Prop :=
  field_text r idField = sw_Id s ∧ field_text r nameField = sw_Name s ∧ is_Some (r !! targetField) ∧
  field_text r targetField = sw_Target s.

Definition set_target (s : Switch) (t : str) : Switch := mkSwitch (sw_Id s) (sw_Name s) t (sw_Ports s).

Definition set_flags (s : Switch) (which : Port → bool) (ingress egress : bool) : Switch :=
  mkSwitch (sw_Id s) (sw_Name s) (sw_Target s)
    ((λ p, if which p then mkPort (pt_Id p) (mkFlags (fl_Name (pt_Flags p)) ingress egress) else p) <$> sw_Ports s).

(** The switch carries the request and nothing else. *)
Definition carries (s : Switch) (m : Mirror) : Prop :=
  sw_Target s = mi_Target m ∧
  ∀ p, p ∈ sw_Ports s → fl_In (pt_Flags p) = wanted_in m (fl_Name (pt_Flags p)) ∧
    fl_Eg (pt_Flags p) = wanted_eg m (fl_Name (pt_Flags p)).

(** Ports and names stay; only flags and target move. *)
Definition same_ports (s s' : Switch) : Prop :=
  sw_Id s' = sw_Id s ∧ sw_Name s' = sw_Name s ∧ port_names s' = port_names s ∧ pt_Id <$> sw_Ports s' = pt_Id <$> sw_Ports s.

(** Nothing mirrors. *)
Definition bare (s : Switch) : Prop :=
  sw_Target s = noMirrorTarget ∧ ∀ p, p ∈ sw_Ports s → mirrored (pt_Flags p) = false.

(** Every copy made is one that was made before, to where it went before, or
    one of the request's, to the request's target. *)
Definition no_leak (s0 : Switch) (m : Mirror) (s : Switch) : Prop :=
  ∀ p, p ∈ sw_Ports s → mirrored (pt_Flags p) = true →
    sw_Target s = sw_Target s0 ∧
      (∃ p0, p0 ∈ sw_Ports s0 ∧ fl_Name (pt_Flags p0) = fl_Name (pt_Flags p) ∧ mirrored (pt_Flags p0) = true) ∨
    sw_Target s = mi_Target m ∧ fl_Name (pt_Flags p) ∈ mi_Sources m.

(** ** Lemmas *)

Lemma same_ports_refl s : same_ports s s.
Proof. by split_and!. Qed.

Lemma same_ports_trans s1 s2 s3 : same_ports s1 s2 → same_ports s2 s3 → same_ports s1 s3.
Proof. unfold same_ports. intros (? & ? & ? & ?) (? & ? & ? & ?). split_and!; congruence. Qed.

Lemma same_ports_target s t : same_ports s (set_target s t).
Proof. by split_and!. Qed.

Lemma same_ports_flags s which i e : same_ports s (set_flags s which i e).
Proof.
  split_and!; [done|done|unfold port_names|]; simpl; rewrite <-list_fmap_compose; apply list_fmap_ext;
    intros ? p _; simpl; by destruct (which p).
Qed.

Lemma in_port_names s p : p ∈ sw_Ports s → fl_Name (pt_Flags p) ∈ port_names s.
Proof. intros Hp. apply list_elem_of_fmap. by exists p. Qed.

Lemma wanted_mirrored m name :
  known_direction (mi_Direction m) = true →
  wanted_in m name || wanted_eg m name = bool_decide (name ∈ mi_Sources m).
Proof.
  intros Hd%wantDirection_cases. unfold wanted_in, wanted_eg.
  destruct Hd as [->|[-> | ->]]; by destruct (bool_decide (name ∈ mi_Sources m)).
Qed.

(** The direction of a wanted source is the requested one. *)
Lemma wanted_direction m name :
  known_direction (mi_Direction m) = true → name ∈ mi_Sources m →
  direction_of (wanted_in m name) (wanted_eg m name) = wantDirection m.
Proof.
  intros Hd%wantDirection_cases Hin. unfold wanted_in, wanted_eg. rewrite !(bool_decide_eq_true_2 _ Hin).
  by destruct Hd as [->|[-> | ->]].
Qed.

Lemma source_directions_app l f :
  source_directions (l ++ [f]) =
  if mirrored f then <[fl_Name f := direction_of (fl_In f) (fl_Eg f)]> (source_directions l)
  else source_directions l.
Proof. unfold source_directions. by rewrite foldl_app. Qed.

Lemma source_directions_lookup l f :
  NoDup (fl_Name <$> l) → f ∈ l → mirrored f = true →
  source_directions l !! fl_Name f = Some (direction_of (fl_In f) (fl_Eg f)).
Proof.
  induction l as [|g l IH] using rev_ind; [by intros _ ?%elem_of_nil|].
  rewrite fmap_app, source_directions_app. intros (Hnd & Hg & _)%NoDup_app Hin Hm.
  apply elem_of_app in Hin as [Hin|Hin%list_elem_of_singleton].
  - assert (fl_Name g ≠ fl_Name f) as Hne.
    { intros E. apply (Hg (fl_Name f)); [by apply list_elem_of_fmap_2|]. rewrite <-E. left. }
    destruct (mirrored g); [rewrite lookup_insert_ne by done|]; by apply IH.
  - subst g. rewrite Hm. apply lookup_insert_eq.
Qed.

Lemma existsb_wanted (f : flags → bool) (l : list flags) (b : bool) (sources : list str) :
  (∀ x, x ∈ l → f x = b && bool_decide (fl_Name x ∈ sources)) →
  sources ≠ [] → (∀ x, x ∈ sources → x ∈ fl_Name <$> l) → existsb f l = b.
Proof.
  intros Hf Hne Hsub. apply Bool.eq_true_iff_eq. rewrite existsb_exists. split.
  - intros (x & Hx%list_elem_of_In & Ht). rewrite (Hf x Hx) in Ht. by apply andb_true_iff in Ht as [? _].
  - intros ->. destruct sources as [|n rest]; [done|].
    pose proof (Hsub n ltac:(left)) as (x & Hn & Hx)%list_elem_of_fmap.
    exists x. split; [by apply list_elem_of_In|]. rewrite (Hf x Hx). simpl. apply bool_decide_eq_true. rewrite <-Hn. left.
Qed.

(** A switch that carries a request reports that it does. *)
Lemma carries_Matches s m identity :
  sound m → NoDup (port_names s) → (∀ x, x ∈ mi_Sources m → x ∈ port_names s) →
  mi_Target m ≠ noMirrorTarget → carries s m →
  Matches (state_of (sw_Target s) identity (pt_Flags <$> sw_Ports s)) m = true.
Proof.
  intros (Hne & _ & _ & Hnds & _ & Hdir) Hnd Hsub Hnone [Ht Hall].
  assert (port_names s = fl_Name <$> (pt_Flags <$> sw_Ports s)) as Hpn by (by rewrite <-list_fmap_compose).
  set (l := pt_Flags <$> sw_Ports s) in *.
  assert (∀ f, f ∈ l → fl_In f = wanted_in m (fl_Name f) ∧ fl_Eg f = wanted_eg m (fl_Name f)) as Hf.
  { intros f (p & -> & Hp)%list_elem_of_fmap. by apply Hall. }
  assert (∀ f, f ∈ l → mirrored f = bool_decide (fl_Name f ∈ mi_Sources m)) as Hm.
  { intros f Hin. destruct (Hf f Hin) as [E1 E2]. unfold mirrored. by rewrite E1, E2, wanted_mirrored. }
  rewrite Hpn in Hnd, Hsub. apply Matches_iff. cbn [state_of st_Target st_Sources st_Direction st_SourceDirections].
  split_and!.
  - unfold reported_target. by rewrite Ht, bool_decide_eq_false_2.
  - apply NoDup_Permutation; [|done|].
    + clear -Hnd. induction l as [|f l IH]; simpl; [constructor|]. apply NoDup_cons in Hnd as [Hn Hnd].
      destruct (mirrored f); [|by apply IH]. simpl. constructor; [|by apply IH].
      intros (g & E & [Hg _]%list_elem_of_In%filter_In)%list_elem_of_fmap. apply Hn. rewrite E.
      by apply list_elem_of_fmap_2, list_elem_of_In.
    + intros x. split.
      * intros (f & -> & [Hin%list_elem_of_In Ht']%list_elem_of_In%filter_In)%list_elem_of_fmap.
        rewrite Hm in Ht' by done. by apply bool_decide_eq_true in Ht'.
      * intros Hx. pose proof (Hsub x Hx) as (f & -> & Hin)%list_elem_of_fmap.
        apply list_elem_of_fmap_2, list_elem_of_In, filter_In. split; [by apply list_elem_of_In|].
        rewrite Hm by done. by apply bool_decide_eq_true.
  - rewrite (existsb_wanted fl_In l (bool_decide (wantDirection m ∈ [DirectionIngress; DirectionBoth])) (mi_Sources m)),
      (existsb_wanted fl_Eg l (bool_decide (wantDirection m ∈ [DirectionEgress; DirectionBoth])) (mi_Sources m));
      try done; try (intros x Hx; apply Hf, Hx).
    by destruct (wantDirection_cases m Hdir) as [->|[-> | ->]].
  - intros x Hx. pose proof (Hsub x Hx) as (f & -> & Hin)%list_elem_of_fmap.
    rewrite source_directions_lookup; [|done|done|rewrite Hm by done; by apply bool_decide_eq_true].
    simpl. destruct (Hf f Hin) as [-> ->]. by apply wanted_direction.
Qed.

Lemma direction_of_inj a b a' b' : direction_of a b = direction_of a' b' → a = a' ∧ b = b'.
Proof. by destruct a, b, a', b'. Qed.

(** A switch that reports a request carries it. *)
Lemma Matches_carries s m identity :
  sound m → NoDup (port_names s) →
  Matches (state_of (sw_Target s) identity (pt_Flags <$> sw_Ports s)) m = true → carries s m.
Proof.
  intros (_ & Hne & _ & _ & _ & Hdir) Hnd (Ht & Hp & _ & Hd)%Matches_iff. cbn [state_of st_Target st_Sources st_SourceDirections] in *.
  assert (port_names s = fl_Name <$> (pt_Flags <$> sw_Ports s)) as Hpn by (by rewrite <-list_fmap_compose).
  split.
  { revert Ht. unfold reported_target. case_bool_decide; [intros E; by destruct Hne|done]. }
  intros p Hin. set (f := pt_Flags p). assert (f ∈ pt_Flags <$> sw_Ports s) as Hf by by apply list_elem_of_fmap_2.
  assert (mirrored f = true ↔ fl_Name f ∈ mi_Sources m) as Hm.
  { rewrite <-Hp. split.
    - intros Hmi. apply list_elem_of_fmap_2, list_elem_of_In, filter_In. split; [by apply list_elem_of_In|done].
    - intros (g & En & [Hg%list_elem_of_In Hmg]%list_elem_of_In%filter_In)%list_elem_of_fmap.
      rewrite Hpn in Hnd. apply list_elem_of_lookup in Hf as [i Hi], Hg as [j Hj].
      assert (i = j) as ->; [|congruence].
      apply (NoDup_lookup _ i j (fl_Name f) Hnd); rewrite list_lookup_fmap; [by rewrite Hi|]. rewrite Hj. simpl. congruence. }
  destruct (mirrored f) eqn:Em.
  - pose proof (proj1 Hm eq_refl) as Hsrc. apply direction_of_inj. rewrite (wanted_direction m) by done.
    rewrite <-(Hd _ Hsrc), (source_directions_lookup _ f); [done| |done|done]. by rewrite <-Hpn.
  - pose proof (wanted_mirrored m (fl_Name f) Hdir) as Hw. rewrite bool_decide_eq_false_2 in Hw.
    2: { intros Hsrc. by apply Hm in Hsrc. }
    apply orb_false_iff in Hw as [-> ->]. unfold mirrored in Em. by apply orb_false_iff in Em.
Qed.

(** A bare switch reports no mirror. *)
Lemma bare_state s identity :
  bare s → let st := state_of (sw_Target s) identity (pt_Flags <$> sw_Ports s) in
  st_Sources st = [] ∧ st_Target st = "".
Proof.
  intros [Ht Hp]. simpl. rewrite Ht. split; [|done].
  assert (List.filter mirrored (pt_Flags <$> sw_Ports s) = []) as ->; [|done].
  clear Ht. induction (sw_Ports s) as [|p l IH]; [done|]. simpl. rewrite (Hp p ltac:(left)).
  apply IH. intros q Hq. apply Hp. by right.
Qed.

End RouterOS.
