(* ===== verification/Prog.v ===== *)
(** * Effectful programs

    Code that calls an external service (an object store, the API server) is a
    [prog]: a tree of calls, each with a continuation for every answer.  The
    meaning is given by a handler, a relation between a call, the state before,
    an answer and the state after; an adversarial environment is a handler
    that allows every answer, and [logged] keeps what it said.  [wp] states what holds when a program returns;
    [safe] states it under interference, and [pool_safe] is its adequacy for
    any number of programs whose calls interleave. *)

From S2P Require Import Prelude.

Inductive prog (E : Type → Type) (A : Type) : Type :=
  | Ret (a : A)
  | Vis (X : Type) (e : E X) (k : X → prog E A).
Arguments Ret {E A} a.
Arguments Vis {E A X} e k.

Fixpoint prog_bind {E A B} (m : prog E A) (f : A → prog E B) : prog E B :=
  match m with
  | Ret a => f a
  | Vis e k => Vis e (λ x, prog_bind (k x) f)
  end.

(** One call. *)
Definition call {E X} (e : E X) : prog E X := Vis e Ret.

Notation "'let!' x ':=' m 'in' k" := (prog_bind m (λ x, k))
  (at level 10, x pattern, m at level 100, k at level 200,
   format "'let!'  x  ':='  m  'in' '//' k") : golang_scope.

(** Stop at the first error. *)
Definition prog_try {E Er A B} (m : prog E (result Er A)) (f : A → prog E (result Er B)) : prog E (result Er B) :=
  prog_bind m (λ r, match r with Ok a => f a | Err e => Ret (Err e) end).

Notation "'let!?' x ':=' m 'in' k" := (prog_try m (λ x, k))
  (at level 10, x pattern, m at level 100, k at level 200,
   format "'let!?'  x  ':='  m  'in' '//' k") : golang_scope.

(** The same program where its calls are some of many. *)
Fixpoint translate {E F A} (f : ∀ X, E X → F X) (p : prog E A) : prog F A :=
  match p with
  | Ret a => Ret a
  | Vis e k => Vis (f _ e) (λ x, translate f (k x))
  end.

(** Each call of one program done by a program of another kind, with a state. *)
Fixpoint interp {E F St A} (h : ∀ X, E X → St → prog F (X * St)) (p : prog E A) (st : St) : prog F (A * St) :=
  match p with
  | Ret a => Ret (a, st)
  | Vis e k => prog_bind (h _ e st) (λ '(x, st), interp h (k x) st)
  end.

(** Programs that make the same calls and go on alike after every answer. *)
Inductive prog_equiv {E A} : prog E A → prog E A → Prop :=
  | equiv_ret a : prog_equiv (Ret a) (Ret a)
  | equiv_vis X (e : E X) k k' : (∀ x, prog_equiv (k x) (k' x)) → prog_equiv (Vis e k) (Vis e k').
Infix "≈" := prog_equiv (at level 70) : golang_scope.

#[global] Instance prog_equiv_equivalence {E A} : Equivalence (@prog_equiv E A).
Proof.
  split.
  - intros p. induction p; by constructor.
  - intros p q. induction 1; by constructor.
  - intros p q r Hpq. revert r. induction Hpq as [a|X e k k' _ IH]; [done|]. intros r Hr.
    refine (match Hr in prog_equiv q r return (match q with Vis e' k1 => ∀ k0, (∀ x r, k1 x ≈ r → k0 x ≈ r) → Vis e' k0 ≈ r | Ret _ => True end)
      with equiv_ret _ => Logic.I | equiv_vis _ _ _ _ Hk => λ k0 H, _ end k IH).
    constructor. auto.
Qed.

#[global] Instance prog_bind_proper {E A B} :
  Proper (prog_equiv ==> pointwise_relation A prog_equiv ==> prog_equiv) (@prog_bind E A B).
Proof. intros m m' Hm f f' Hf. induction Hm; simpl; [apply Hf|by constructor]. Qed.

Lemma bind_assoc {E A B C} (m : prog E A) (f : A → prog E B) (g : B → prog E C) :
  prog_bind (prog_bind m f) g ≈ prog_bind m (λ a, prog_bind (f a) g).
Proof. induction m; simpl; [reflexivity|by constructor]. Qed.

(** A handler that answers every call, and what it makes of a program. *)
Fixpoint run {E S A} (h : ∀ X, E X → S → X * S) (p : prog E A) (s : S) : A * S :=
  match p with
  | Ret a => (a, s)
  | Vis e k => let '(x, s') := h _ e s in run h (k x) s'
  end.

Section semantics.
Context {E : Type → Type} {S : Type} (step : ∀ X, E X → S → X → S → Prop).

Fixpoint wp {A} (p : prog E A) (Q : A → S → Prop) (s : S) : Prop :=
  match p with
  | Ret a => Q a s
  | Vis e k => ∀ x s', step _ e s x s' → wp (k x) Q s'
  end.

Inductive exec {A} : prog E A → S → A → S → Prop :=
  | exec_ret a s : exec (Ret a) s a s
  | exec_vis X (e : E X) k s x s1 a s2 :
      step X e s x s1 → exec (k x) s1 a s2 → exec (Vis e k) s a s2.

Lemma exec_bind {A B} (m : prog E A) (f : A → prog E B) s a s1 b s2 :
  exec m s a s1 → exec (f a) s1 b s2 → exec (prog_bind m f) s b s2.
Proof. induction 1; intros Hf; simpl; [done|]. econstructor; eauto. Qed.

Lemma wp_exec {A} (p : prog E A) Q s a s' : exec p s a s' → wp p Q s → Q a s'.
Proof. induction 1; simpl; auto. Qed.

Lemma wp_mono {A} (p : prog E A) (Q Q' : A → S → Prop) s :
  (∀ a s, Q a s → Q' a s) → wp p Q s → wp p Q' s.
Proof. intros HQ. revert s. induction p; simpl; auto. Qed.

Lemma wp_any {A} (p : prog E A) (Q : A → S → Prop) s : (∀ a s, Q a s) → wp p Q s.
Proof. intros HQ. revert s. induction p; simpl; auto. Qed.

Lemma wp_bind {A B} (m : prog E A) (f : A → prog E B) Q s :
  wp m (λ a s', wp (f a) Q s') s → wp (prog_bind m f) Q s.
Proof. revert s. induction m; simpl; auto. Qed.

Lemma wp_try {Er A B} (m : prog E (result Er A)) (f : A → prog E (result Er B)) Q s :
  wp m (λ r s', match r with Ok a => wp (f a) Q s' | Err e => Q (Err e) s' end) s → wp (prog_try m f) Q s.
Proof. intros H. apply wp_bind. eapply wp_mono; [|exact H]. by intros [a|e]. Qed.

(** What holds at every point of a run, the cuts a crash makes included. *)
Fixpoint always {A} (I : S → Prop) (p : prog E A) (s : S) : Prop :=
  I s ∧
  match p with
  | Ret a => True
  | Vis e k => ∀ x s', step _ e s x s' → always I (k x) s'
  end.

Lemma always_here {A} I (p : prog E A) s : always I p s → I s.
Proof. by destruct p; intros []. Qed.

(** What holds throughout and what holds at the end, one after the other. *)
Lemma always_bind {A B} I (m : prog E A) (f : A → prog E B) s :
  always I m s → wp m (λ a s', I s' → always I (f a) s') s → always I (prog_bind m f) s.
Proof.
  revert s. induction m as [a|X e k IH]; intros s; simpl; [intros [HI _] Hw; by apply Hw|].
  intros [HI Hk] Hw. split; [done|]. intros x s' Hst. by apply IH; [apply Hk|apply Hw].
Qed.

Lemma wp_always {A} I (p : prog E A) s : always I p s → wp p (λ _ s', I s') s.
Proof. revert s. induction p as [a|X e k IH]; intros s; simpl; [by intros []|]. intros [_ Hk]. auto. Qed.

(** Both at once: [I] throughout, [Q] at the end. *)
Fixpoint within {A} (I : S → Prop) (p : prog E A) (Q : A → S → Prop) (s : S) : Prop :=
  I s ∧
  match p with
  | Ret a => Q a s
  | Vis e k => ∀ x s', step _ e s x s' → within I (k x) Q s'
  end.

Lemma within_always {A} I (p : prog E A) Q s : within I p Q s → always I p s.
Proof. revert s. induction p as [a|X e k IH]; intros s; simpl; [by intros []|]. intros [? Hk]. split; eauto. Qed.

Lemma within_wp {A} I (p : prog E A) Q s : within I p Q s → wp p Q s.
Proof. revert s. induction p as [a|X e k IH]; intros s; simpl; [by intros []|]. intros [? Hk]. eauto. Qed.

Lemma within_bind {A B} I (m : prog E A) (f : A → prog E B) Q s :
  within I m (λ a s', within I (f a) Q s') s → within I (prog_bind m f) Q s.
Proof.
  revert s. induction m as [a|X e k IH]; intros s; simpl; [by intros []|]. intros [? Hk]. split; eauto.
Qed.

Lemma within_try {Er A B} I (m : prog E (result Er A)) (f : A → prog E (result Er B)) Q s :
  within I m (λ r s', match r with Ok a => within I (f a) Q s' | Err e => Q (Err e) s' end) s →
  within I (prog_try m f) Q s.
Proof.
  revert s. induction m as [[a|er]|X e k IH]; intros s; simpl; [by intros []|done|].
  intros [? Hk]. split; eauto.
Qed.

Lemma within_mono {A} I (p : prog E A) (Q Q' : A → S → Prop) s :
  (∀ a s, Q a s → Q' a s) → within I p Q s → within I p Q' s.
Proof. intros HQ. revert s. induction p; simpl; intros ? []; split; auto. Qed.

(** What every call made satisfies where it is made. *)
Fixpoint obeys {A} (may : ∀ X, E X → S → Prop) (p : prog E A) (s : S) : Prop :=
  match p with
  | Ret a => True
  | Vis e k => may _ e s ∧ ∀ x s', step _ e s x s' → obeys may (k x) s'
  end.

Lemma obeys_mono {A} (may may' : ∀ X, E X → S → Prop) (p : prog E A) s :
  (∀ X (e : E X) s, may X e s → may' X e s) → obeys may p s → obeys may' p s.
Proof. intros Hm. revert s. induction p as [a|X e k IH]; intros s; [done|]. intros [H Hk]. split; [by apply Hm|]. eauto. Qed.

Lemma obeys_bind {A B} may (m : prog E A) (f : A → prog E B) s :
  obeys may m s → wp m (λ a s', obeys may (f a) s') s → obeys may (prog_bind m f) s.
Proof.
  revert s. induction m as [a|X e k IH]; intros s; simpl; [by intros _|].
  intros [Hm Hk] Hw. split; [done|]. intros x s' Hst. by apply IH; [apply Hk|apply Hw].
Qed.

Lemma obeys_try {Er A B} may (m : prog E (result Er A)) (f : A → prog E (result Er B)) s :
  obeys may m s → wp m (λ r s', match r with Ok a => obeys may (f a) s' | Err _ => True end) s →
  obeys may (prog_try m f) s.
Proof. intros Hm Hw. apply obeys_bind; [done|]. eapply wp_mono; [|exact Hw]. by intros [a|e]. Qed.

(** Every call allowed where it is made, and [Q] at the end. *)
Fixpoint meets {A} (may : ∀ X, E X → S → Prop) (p : prog E A) (Q : A → S → Prop) (s : S) : Prop :=
  match p with
  | Ret a => Q a s
  | Vis e k => may _ e s ∧ ∀ x s', step _ e s x s' → meets may (k x) Q s'
  end.

Lemma meets_bind {A B} may (m : prog E A) (f : A → prog E B) Q s :
  meets may m (λ a s', meets may (f a) Q s') s → meets may (prog_bind m f) Q s.
Proof. revert s. induction m as [a|X e k IH]; intros s; simpl; [done|]. intros [Hm Hk]. split; [done|]. auto. Qed.

Lemma meets_mono {A} may (p : prog E A) (Q Q' : A → S → Prop) s :
  (∀ a s, Q a s → Q' a s) → meets may p Q s → meets may p Q' s.
Proof. intros HQ. revert s. induction p as [a|X e k IH]; intros s; simpl; [auto|]. intros [Hm Hk]. split; auto. Qed.

Lemma meets_call {X A} may (e : E X) (k : X → prog E A) Q s :
  may _ e s → (∀ x s', step _ e s x s' → meets may (k x) Q s') → meets may (prog_bind (call e) k) Q s.
Proof. done. Qed.

Lemma meets_obeys {A} may (p : prog E A) Q s : meets may p Q s → obeys may p s.
Proof. revert s. induction p as [a|X e k IH]; intros s; simpl; [done|]. intros [Hm Hk]. split; eauto. Qed.

Lemma meets_wp {A} may (p : prog E A) Q s : meets may p Q s → wp p Q s.
Proof. revert s. induction p as [a|X e k IH]; intros s; simpl; [done|]. intros [Hm Hk]. eauto. Qed.

(** What every allowed call preserves holds at the end. *)
Lemma obeys_invariant {A} may (I : S → Prop) (p : prog E A) s :
  (∀ X (e : E X) s x s', may _ e s → step _ e s x s' → I s → I s') → obeys may p s → I s → wp p (λ _ s', I s') s.
Proof.
  intros HI. revert s. induction p as [a|X e k IH]; intros s; simpl; [done|].
  intros [Hm Hk] Hs x s' Hst. apply IH; [by apply Hk|by eapply HI].
Qed.

Lemma obeys_always {A} may (I : S → Prop) (p : prog E A) s :
  (∀ X (e : E X) s x s', may _ e s → step _ e s x s' → I s → I s') → obeys may p s → I s → always I p s.
Proof.
  intros HI. revert s. induction p as [a|X e k IH]; intros s; simpl; [done|].
  intros [Hm Hk] Hs. split; [done|]. intros x s' Hst. apply IH; [by apply Hk|by eapply HI].
Qed.

(** ** Interference

    [R] is what every participant may do to the state between two calls. *)
Context (R : S → S → Prop) `{!PreOrder R}.

Fixpoint safe {A} (p : prog E A) (Q : A → S → Prop) (s : S) : Prop :=
  ∀ s1, R s s1 →
  match p with
  | Ret a => Q a s1
  | Vis e k => ∀ x s2, step _ e s1 x s2 → R s1 s2 ∧ safe (k x) Q s2
  end.

Lemma safe_stable {A} (p : prog E A) Q s s' : R s s' → safe p Q s → safe p Q s'.
Proof. intros HR. destruct p; simpl; intros Hp s1 Hs1; apply Hp; by etrans. Qed.

(** Any number of programs over one state; a step is one call of one. *)
Inductive pool_step {A} : list (prog E A) * S → list (prog E A) * S → Prop :=
  | pool_call ps i X (e : E X) k s x s' :
      ps !! i = Some (Vis e k) → step X e s x s' →
      pool_step (ps, s) (<[i := k x]> ps, s').

Lemma pool_safe {A} (Q : A → S → Prop) ps s ps' s' :
  rtc pool_step (ps, s) (ps', s') →
  Forall (λ p, safe p Q s) ps →
  Forall (λ p, safe p Q s') ps' ∧ R s s'.
Proof.
  intros Hr. remember (ps, s) as c eqn:Ec. remember (ps', s') as c' eqn:Ec'.
  revert ps s Ec ps' s' Ec'.
  induction Hr as [c|c1 c2 c3 Hs Hr IH]; intros ps s -> ps' s' Ec' Hall.
  { simplify_eq. split; [done|reflexivity]. }
  inversion Hs as [? i X e k ? x s2 Hi Hst]; simplify_eq.
  rewrite Forall_lookup in Hall. pose proof (Hall i _ Hi s ltac:(reflexivity)) as Hp.
  destruct (Hp x s2 Hst) as [HR Hk].
  destruct (IH _ _ eq_refl _ _ eq_refl) as [Hend HR'].
  - apply Forall_lookup. intros j p [[<- [<- _]]|[Hne Hj]]%list_lookup_insert_Some; [done|].
    eapply safe_stable; [done|]. by eapply Hall.
  - split; [done|]. by etrans.
Qed.

Lemma safe_ret {A} (a : A) Q s : safe (Ret a) Q s → Q a s.
Proof. intros H. apply (H s). reflexivity. Qed.
End semantics.

(** What a program of some of the calls does, it does where they are some of
    many. *)
Lemma wp_translate {E F S A} (step : ∀ X, F X → S → X → S → Prop) (f : ∀ X, E X → F X) (p : prog E A) Q s :
  wp (λ X e, step X (f X e)) p Q s → wp step (translate f p) Q s.
Proof. revert s. induction p; simpl; auto. Qed.

Lemma obeys_translate {E F S A} (step : ∀ X, F X → S → X → S → Prop) may (f : ∀ X, E X → F X) (p : prog E A) s :
  obeys (λ X e, step X (f X e)) (λ X e, may X (f X e)) p s → obeys step may (translate f p) s.
Proof. revert s. induction p; simpl; [done|]. intros s [? ?]. auto. Qed.

Lemma obeys_any {E S A} (step : ∀ X, E X → S → X → S → Prop) (may : ∀ X, E X → S → Prop) (p : prog E A) s :
  (∀ X (e : E X) s, may X e s) → obeys step may p s.
Proof. intros Hm. revert s. induction p; simpl; auto. Qed.

(** A handler that keeps to the rules, call by call, makes a program that does. *)
Lemma meets_interp {E F S St A} (step : ∀ X, E X → S → X → S → Prop) (step' : ∀ X, F X → S → X → S → Prop)
    may may' (h : ∀ X, E X → St → prog F (X * St)) (p : prog E A) Q s st :
  (∀ X (e : E X) s st, may X e s → meets step' may' (h X e st) (λ r s', step X e s r.1 s') s) →
  meets step may p Q s → meets step' may' (interp h p st) (λ r s', Q r.1 s') s.
Proof.
  intros Hh. revert s st. induction p as [a|X e k IH]; intros s st; simpl; [done|].
  intros [Hm Hk]. apply meets_bind. eapply meets_mono; [|by apply Hh]. intros [x st'] s' Hst. by apply IH, Hk.
Qed.

Lemma within_imp {E S A} (step : ∀ X, E X → S → X → S → Prop) (I I' : S → Prop) (p : prog E A) (Q Q' : A → S → Prop) s :
  (∀ s, I s → I' s) → (∀ a s, Q a s → Q' a s) → within step I p Q s → within step I' p Q' s.
Proof. intros HI HQ. revert s. induction p; simpl; intros ? []; split; auto. Qed.

Lemma within_call {E S X A} (step : ∀ X, E X → S → X → S → Prop) (I : S → Prop) (e : E X) (k : X → prog E A) Q s :
  I s → (∀ x s', step X e s x s' → within step I (k x) Q s') → within step I (prog_bind (call e) k) Q s.
Proof. by split. Qed.

(** The same, holding an invariant throughout; a call is made where its answers
    keep it. *)
Lemma within_interp {E F S St A} (step : ∀ X, E X → S → X → S → Prop) (step' : ∀ X, F X → S → X → S → Prop)
    (I : S → Prop) (h : ∀ X, E X → St → prog F (X * St)) (p : prog E A) Q s st :
  (∀ X (e : E X) s st, I s → (∀ x s', step X e s x s' → I s') → within step' I (h X e st) (λ r s', step X e s r.1 s') s) →
  within step I p Q s → within step' I (interp h p st) (λ r s', Q r.1 s') s.
Proof.
  intros Hh. revert s st. induction p as [a|X e k IH]; intros s st; simpl; [done|].
  intros [HI Hk]. apply within_bind. eapply within_mono; [|apply Hh; [done|]].
  - intros [x st'] s' Hst. by apply IH, Hk.
  - intros x s' Hst. by eapply always_here, within_always, Hk.
Qed.

(** The points of a run on its way. *)
Inductive reached {E S A} (step : ∀ X, E X → S → X → S → Prop) : prog E A → S → prog E A → S → Prop :=
  | reached_here p s : reached step p s p s
  | reached_vis X (e : E X) k s x s1 p s2 : step X e s x s1 → reached step (k x) s1 p s2 → reached step (Vis e k) s p s2.

Lemma always_reached {E S A} (step : ∀ X, E X → S → X → S → Prop) (I : S → Prop) (p p' : prog E A) s s' :
  always step I p s → reached step p s p' s' → I s'.
Proof. intros Ha Hr. revert Ha. induction Hr; [apply always_here|]. intros [_ Hk]. auto. Qed.

Lemma reached_exec {E S A} (step : ∀ X, E X → S → X → S → Prop) (p p' : prog E A) s s' a s'' :
  reached step p s p' s' → exec step p' s' a s'' → exec step p s a s''.
Proof. induction 1; [done|]. intros. econstructor; eauto. Qed.

(** What no step undoes holds from there on. *)
Lemma exec_keeps {E S A} (step : ∀ X, E X → S → X → S → Prop) (I : S → Prop) (p : prog E A) s a s' :
  (∀ X (e : E X) s x s', step X e s x s' → I s → I s') → exec step p s a s' → I s → I s'.
Proof. intros Hk. induction 1; eauto. Qed.

(** A handler that does less. *)
Lemma wp_sub {E S A} (step step' : ∀ X, E X → S → X → S → Prop) (p : prog E A) Q s :
  (∀ X (e : E X) s x s', step' X e s x s' → step X e s x s') → wp step p Q s → wp step' p Q s.
Proof. intros Hsub. revert s. induction p; simpl; auto. Qed.

Lemma exec_sub {E S A} (step step' : ∀ X, E X → S → X → S → Prop) (p : prog E A) s a s' :
  (∀ X (e : E X) s x s', step' X e s x s' → step X e s x s') → exec step' p s a s' → exec step p s a s'.
Proof. intros Hsub. induction 1; econstructor; eauto. Qed.

Lemma wp_and {E S A} (step : ∀ X, E X → S → X → S → Prop) (p : prog E A) (Q Q' : A → S → Prop) s :
  wp step p Q s → wp step p Q' s → wp step p (λ a s, Q a s ∧ Q' a s) s.
Proof. revert s. induction p; simpl; auto. Qed.

(** One call, whatever the handler. *)
Lemma wp_call {E S X A} (step : ∀ X, E X → S → X → S → Prop) (e : E X) (k : X → prog E A) Q s :
  (∀ x s', step X e s x s' → wp step (k x) Q s') → wp step (prog_bind (call e) k) Q s.
Proof. done. Qed.

(** ** Traces

    Against an environment that answers anything, the state worth keeping is
    the list of calls made and answers received. *)
Inductive event (E : Type → Type) : Type :=
  | Ev {X} (e : E X) (x : X).
Arguments Ev {E X} e x.

Definition logged {E X} (e : E X) (log : list (event E)) (x : X) (log' : list (event E)) : Prop :=
  log' = log ++ [Ev e x].

Lemma wp_logged {E X A} (e : E X) (k : X → prog E A) Q log :
  (∀ x, wp (@logged E) (k x) Q (log ++ [Ev e x])) → wp (@logged E) (prog_bind (call e) k) Q log.
Proof. intros H x log' ->. apply H. Qed.

(** What was said stays said. *)
Lemma wp_logged_keeps {E A} (p : prog E A) (ev : event E) log :
  ev ∈ log → wp (@logged E) p (λ _ log', ev ∈ log') log.
Proof.
  revert log. induction p as [a|X e k IH]; intros log Hin; simpl; [done|].
  intros x log' ->. apply IH, elem_of_app. by left.
Qed.

(** ** Protocols

    A protocol is an automaton over calls: [may] is what a participant may do
    next, [track] what is known after an answer.  A program conforms when
    every call it makes is allowed where it makes it, for every honest answer;
    its traces, cut anywhere a crash may cut them, are then the protocol's. *)
Section protocol.
Context {E : Type → Type} {S : Type}.
Context (honest : ∀ X, E X → X → Prop) (may : ∀ X, E X → S → Prop) (track : ∀ X, E X → X → S → S).

Fixpoint conforms {A} (p : prog E A) (Q : A → S → Prop) (s : S) : Prop :=
  match p with
  | Ret a => Q a s
  | Vis e k => may _ e s ∧ ∀ x, honest _ e x → conforms (k x) Q (track _ e x s)
  end.

(** The runs of a program so far. *)
Inductive partial {A} : prog E A → list (event E) → Prop :=
  | partial_nil p : partial p []
  | partial_vis X (e : E X) k x l : honest X e x → partial (k x) l → partial (Vis e k) (Ev e x :: l).

(** The runs that come to their end, with what they return. *)
Inductive returns {A} : prog E A → list (event E) → A → Prop :=
  | returns_ret a : returns (Ret a) [] a
  | returns_vis X (e : E X) k x l a : honest X e x → returns (k x) l a → returns (Vis e k) (Ev e x :: l) a.

Lemma returns_partial {A} (p : prog E A) l a : returns p l a → partial p l.
Proof. induction 1; by constructor. Qed.

Definition tracked (s : S) (l : list (event E)) : S := foldl (λ s '(Ev e x), track _ e x s) s l.

Fixpoint accepts (s : S) (l : list (event E)) : Prop :=
  match l with
  | [] => True
  | Ev e x :: l => may _ e s ∧ accepts (track _ e x s) l
  end.

Lemma conforms_accepts {A} (p : prog E A) Q s l : conforms p Q s → partial p l → accepts s l.
Proof.
  intros Hc Hp. revert s Hc. induction Hp as [|X e k x l Hx _ IH]; intros s; simpl; [done|].
  intros [Hm Hk]. split; [done|]. by apply IH, Hk.
Qed.

Lemma conforms_returns {A} (p : prog E A) Q s l a : conforms p Q s → returns p l a → Q a (tracked s l).
Proof.
  intros Hc Hp. revert s Hc. induction Hp as [a|X e k x l a Hx _ IH]; intros s; simpl; [done|].
  intros [Hm Hk]. by apply IH, Hk.
Qed.

Lemma conforms_mono {A} (p : prog E A) (Q Q' : A → S → Prop) s :
  (∀ a s, Q a s → Q' a s) → conforms p Q s → conforms p Q' s.
Proof. intros HQ. revert s. induction p; simpl; [auto|]. intros s [? ?]. auto. Qed.

Lemma conforms_bind {A B} (m : prog E A) (f : A → prog E B) Q s :
  conforms m (λ a s', conforms (f a) Q s') s → conforms (prog_bind m f) Q s.
Proof. revert s. induction m; simpl; [auto|]. intros s [? ?]. auto. Qed.

Lemma conforms_assoc {A B C} (m : prog E A) (f : A → prog E B) (g : B → prog E C) Q s :
  conforms (prog_bind m (λ a, prog_bind (f a) g)) Q s → conforms (prog_bind (prog_bind m f) g) Q s.
Proof. revert s. induction m; simpl; [auto|]. intros s [? ?]. auto. Qed.

Lemma conforms_call {X A} (e : E X) (k : X → prog E A) Q s :
  may _ e s → (∀ x, honest _ e x → conforms (k x) Q (track _ e x s)) →
  conforms (prog_bind (call e) k) Q s.
Proof. done. Qed.
End protocol.

(** A handler that may leave a call unanswered, its trace and what it returns. *)
Fixpoint run_while {E S A} (h : ∀ X, E X → S → option (X * S)) (p : prog E A) (s : S) : list (event E) * option A :=
  match p with
  | Ret a => ([], Some a)
  | Vis e k =>
      match h _ e s with
      | None => ([], None)
      | Some (x, s') => let '(l, a) := run_while h (k x) s' in (Ev e x :: l, a)
      end
  end.

(** The first [n] calls of a run. *)
Fixpoint advance {E S A} (h : ∀ X, E X → S → option (X * S)) (n : nat) (p : prog E A) (s : S) : option (prog E A * S) :=
  match n, p with
  | O, _ => Some (p, s)
  | S n, Vis e k => match h _ e s with Some (x, s') => advance h n (k x) s' | None => None end
  | S _, Ret _ => None
  end.

Lemma advance_reached {E S A} (step : ∀ X, E X → S → X → S → Prop) h n (p p' : prog E A) (s s' : S) :
  (∀ X (e : E X) s x s', h X e s = Some (x, s') → step X e s x s') →
  advance h n p s = Some (p', s') → reached step p s p' s'.
Proof.
  intros Hh. revert p s. induction n as [|n IH]; intros p s; simpl; [intros [= <- <-]; constructor|].
  destruct p as [a|X e k]; [done|]. destruct (h X e s) as [[x s1]|] eqn:Eh; [|done]. intros Ha.
  econstructor; [by apply Hh|by apply IH].
Qed.

(** A run to its end, with the state it leaves. *)
Fixpoint complete {E S A} (h : ∀ X, E X → S → option (X * S)) (p : prog E A) (s : S) : option (A * S) :=
  match p with
  | Ret a => Some (a, s)
  | Vis e k => match h _ e s with Some (x, s') => complete h (k x) s' | None => None end
  end.

Lemma complete_exec {E S A} (step : ∀ X, E X → S → X → S → Prop) h (p : prog E A) (s s' : S) a :
  (∀ X (e : E X) s x s', h X e s = Some (x, s') → step X e s x s') →
  complete h p s = Some (a, s') → exec step p s a s'.
Proof.
  intros Hh. revert s. induction p as [b|X e k IH]; intros s; simpl; [intros [= <- <-]; constructor|].
  destruct (h X e s) as [[x s1]|] eqn:Eh; [|done]. intros Hc. econstructor; [by apply Hh|by apply IH].
Qed.

Lemma run_while_partial {E S A} (honest : ∀ X, E X → X → Prop) h (p : prog E A) (s : S) :
  (∀ X (e : E X) s x s', h X e s = Some (x, s') → honest X e x) → partial honest p (run_while h p s).1.
Proof.
  intros Hh. revert s. induction p as [a|X e k IH]; intros s; simpl; [constructor|].
  destruct (h X e s) as [[x s']|] eqn:Eh; [|constructor]. specialize (IH x s').
  destruct (run_while h (k x) s') as [l a]. constructor; [by eapply Hh|exact IH].
Qed.

Lemma run_while_returns {E S A} (honest : ∀ X, E X → X → Prop) h (p : prog E A) (s : S) a :
  (∀ X (e : E X) s x s', h X e s = Some (x, s') → honest X e x) →
  (run_while h p s).2 = Some a → returns honest p (run_while h p s).1 a.
Proof.
  intros Hh. revert s. induction p as [b|X e k IH]; intros s; simpl; [intros [= ->]; constructor|].
  destruct (h X e s) as [[x s']|] eqn:Eh; [|done]. specialize (IH x s').
  destruct (run_while h (k x) s') as [l b]. constructor; [by eapply Hh|by apply IH].
Qed.

(** A deterministic handler as a relation. *)
Definition handles {E S} (h : ∀ X, E X → S → X * S) (X : Type) (e : E X) (s : S) (x : X) (s' : S) : Prop :=
  h X e s = (x, s').

Lemma run_exec {E S A} (h : ∀ X, E X → S → X * S) (p : prog E A) s :
  exec (handles h) p s (run h p s).1 (run h p s).2.
Proof.
  revert s. induction p as [a|X e k IH]; intros s; simpl; [constructor|].
  destruct (h X e s) as [x s'] eqn:Eh. by econstructor.
Qed.

(** The calls and answers of one run. *)
Fixpoint trace {E S A} (h : ∀ X, E X → S → X * S) (p : prog E A) (s : S) : list (event E) :=
  match p with
  | Ret _ => []
  | Vis e k => let '(x, s') := h _ e s in Ev e x :: trace h (k x) s'
  end.

(** An honest handler's run is one of the program's. *)
Lemma trace_partial {E S A} (honest : ∀ X, E X → X → Prop) (h : ∀ X, E X → S → X * S) (p : prog E A) s :
  (∀ X (e : E X) s, honest X e (h X e s).1) → partial honest p (trace h p s).
Proof.
  intros Hh. revert s. induction p as [a|X e k IH]; intros s; simpl; [constructor|].
  specialize (Hh X e s). destruct (h X e s) as [x s']. constructor; [exact Hh|apply IH].
Qed.

(** ** Schedules

    A pool under a deterministic handler, the thread that makes each call
    chosen in advance. *)
Fixpoint run_schedule {E S A} (h : ∀ X, E X → S → X * S) (sched : list nat)
    (ps : list (prog E A)) (s : S) : list (prog E A) * S :=
  match sched with
  | [] => (ps, s)
  | i :: sched' =>
      match ps !! i with
      | Some (Vis e k) => let '(x, s') := h _ e s in run_schedule h sched' (<[i := k x]> ps) s'
      | _ => (ps, s)
      end
  end.

Lemma run_schedule_steps {E S A} (h : ∀ X, E X → S → X * S) sched (ps : list (prog E A)) s :
  rtc (pool_step (handles h)) (ps, s) (run_schedule h sched ps s).
Proof.
  revert ps s. induction sched as [|i sched IH]; intros ps s; simpl; [apply rtc_refl|].
  destruct (ps !! i) as [[a|X e k]|] eqn:Ei; [apply rtc_refl| |apply rtc_refl].
  destruct (h X e s) as [x s'] eqn:Eh. eapply rtc_l; [by eapply pool_call|]. apply IH.
Qed.
