(* ===== verification/Content.v ===== *)
(** * Detection content, internal/content/merge.go and fetch.go

    The overlay of a custom layer on the upstream one, the resolver with what
    it does when a layer fails, and the reading and writing of a content
    directory as programs over the file system.  The order in which a map is
    ranged over, the JSON encoding of the status and the quoting of names are
    arguments.  The last part is a file system and what a write leaves on it. *)

From Stdlib Require Import Ascii.
From S2P Require Import Prelude GoTime GoString Paths Sanitize Prog.

Module Content.
Import Paths.

(** ** merge.go *)

Definition LayerUpstream : str := "upstream".
Definition LayerCustom : str := "custom".

Record Layer := mkLayer { ly_Name : str; ly_Files : gmap string str; ly_FetchedAt : time; ly_Digest : str }.

Record Merged := mkMerged { mg_Files : gmap string str; mg_UpstreamFetchedAt : time; mg_CustomDigest : str; mg_CustomApplied : bool }.

Record ContentStatus := mkContentStatus { cst_UpstreamFetchedAt : time; cst_CustomDigest : str; cst_CustomApplied : bool }.

Definition no_content : ContentStatus := mkContentStatus 0 "" false.

Definition status_of (m : Merged) : ContentStatus := mkContentStatus (mg_UpstreamFetchedAt m) (mg_CustomDigest m) (mg_CustomApplied m).

Section content.
Context (quote : str → str) (range : gmap string str → list (str * str)).

Definition validateContentPath (name : str) : option str :=
  if bool_decide (name = "") then Some "content path is empty" else
  if IsAbs name then Some ("content path " +:+ quote name +:+ " is absolute") else
  if climbs (Clean name) then Some ("content path " +:+ quote name +:+ " escapes the content directory") else None.

(** The first name refused. *)
Fixpoint validate_names (layer : str) (names : list str) : option str :=
  match names with
  | [] => None
  | name :: names =>
      match validateContentPath name with
      | Some err => Some (layer +:+ err)
      | None => validate_names layer names
      end
  end.

Definition Merge (upstream : Layer) (custom : option Layer) : result str Merged :=
  if bool_decide (ly_Files upstream = ∅) then Err "upstream content layer is empty" else
  match validate_names "upstream layer: " (range (ly_Files upstream)).*1 with
  | Some err => Err err
  | None =>
      match custom with
      | None => Ok (mkMerged (ly_Files upstream) (ly_FetchedAt upstream) "" false)
      | Some custom =>
          if bool_decide (ly_Files custom = ∅) then Ok (mkMerged (ly_Files upstream) (ly_FetchedAt upstream) "" false) else
          match validate_names "custom layer: " (range (ly_Files custom)).*1 with
          | Some err => Err err
          | None => Ok (mkMerged (ly_Files custom ∪ ly_Files upstream) (ly_FetchedAt upstream) (ly_Digest custom) true)
          end
      end
  end.

(** ** fetch.go *)

Inductive fs_error := NotExist (text : str) | FsError (text : str).

Definition fs_text (e : fs_error) : str := match e with NotExist t | FsError t => t end.

(** The calls: of the file system, of the tools content is fetched with, of
    the clock, and the report of a failed overlay. *)
Inductive fsE : Type → Type :=
  | RemoveAll (p : str) : fsE (result fs_error unit)
  | MkdirAll (p : str) : fsE (result fs_error unit)
  | WriteFile (p body : str) : fsE (result fs_error unit)
  | Rename (p q : str) : fsE (result fs_error unit)
  | ReadFile (p : str) : fsE (result fs_error str)
  | WalkDir (p : str) : fsE (list (str * bool) * option fs_error)
  | Exec (args : list str) (output : str) : fsE (result str unit)
  | Now : fsE time
  | OnCustomFailure (err : str) : fsE unit.

Definition Fetcher : Type := str → prog fsE (result str Layer).

(** [rv_Reports]: whether there is a callback. *)
Record Resolver := mkResolver { rv_Upstream : option Fetcher; rv_Custom : option Fetcher; rv_Reports : bool }.

Definition reportCustomFailure (r : Resolver) (err : str) : prog fsE unit :=
  if rv_Reports r then call (OnCustomFailure err) else Ret tt.

Definition with_fetched (l : Layer) (now : time) : Layer := mkLayer (ly_Name l) (ly_Files l) now (ly_Digest l).

(** The custom layer over a fetched upstream one. *)
Definition overlay (r : Resolver) (dir : str) (upstream : Layer) : prog fsE (result str Merged) :=
  match rv_Custom r with
  | None => Ret (Merge upstream None)
  | Some fetch =>
      let! custom := fetch dir in
      match custom with
      | Err err =>
          let! _ := reportCustomFailure r (Sanitize.Errorf "fetching custom content: " err) in
          Ret (Merge upstream None)
      | Ok custom =>
          match Merge upstream (Some custom) with
          | Err err =>
              let! _ := reportCustomFailure r (Sanitize.Errorf "merging custom content: " err) in
              Ret (Merge upstream None)
          | Ok merged => Ret (Ok merged)
          end
      end
  end.

Definition Resolve (r : Resolver) (dir : str) : prog fsE (result str Merged) :=
  match rv_Upstream r with
  | None => Ret (Err "no upstream content fetcher configured")
  | Some fetch =>
      let! upstream := fetch dir in
      match upstream with
      | Err err => Ret (Err (Sanitize.Errorf "fetching upstream content: " err))
      | Ok upstream =>
          let! upstream := (if is_zero (ly_FetchedAt upstream) then let! now := call Now in Ret (with_fetched upstream now) else Ret upstream) in
          overlay r dir upstream
      end
  end.

(** A call whose failure ends the operation. *)
Definition attempt {A} (text : str) (e : fsE (result fs_error A)) : prog fsE (result str A) :=
  let! r := call e in
  Ret (match r with Ok a => Ok a | Err err => Err (Sanitize.Errorf text (fs_text err)) end).

Fixpoint write_files (staging : str) (files : list (str * str)) : prog fsE (result str unit) :=
  match files with
  | [] => Ret (Ok tt)
  | (name, body) :: files =>
      match validateContentPath name with
      | Some err => Ret (Err err)
      | None =>
          let target := Join [staging; name] in
          let!? _ := attempt "creating content directory: " (MkdirAll (Dir target)) in
          let!? _ := attempt "writing content file: " (WriteFile target body) in
          write_files staging files
      end
  end.

(** The directories swapped, the previous content put back if the new cannot be. *)
Definition install (dir staging previous : str) : prog fsE (result str unit) :=
  let! renamed := call (Rename dir previous) in
  match renamed with
  | Err (FsError text) => Ret (Err (Sanitize.Errorf "rotating previous content: " text))
  | _ =>
      let! installed := call (Rename staging dir) in
      match installed with
      | Err err =>
          let! _ := call (Rename previous dir) in
          Ret (Err (Sanitize.Errorf "installing content: " (fs_text err)))
      | Ok _ => let! _ := call (RemoveAll previous) in Ret (Ok tt)
      end
  end.

Definition Write (merged : Merged) (dir : str) : prog fsE (result str unit) :=
  let staging := dir +:+ ".staging" in
  let!? _ := attempt "clearing content staging directory: " (RemoveAll staging) in
  let!? _ := attempt "creating content staging directory: " (MkdirAll staging) in
  let!? _ := write_files staging (range (mg_Files merged)) in
  let previous := dir +:+ ".previous" in
  let! _ := call (RemoveAll previous) in
  install dir staging previous.

(** The entries of a walk, named relative to its root. *)
Fixpoint read_entries (dir : str) (entries : list (str * bool)) (files : gmap string str) : prog fsE (result str (gmap string str)) :=
  match entries with
  | [] => Ret (Ok files)
  | (rel, isDir) :: entries =>
      if isDir : bool then read_entries dir entries files else
      match validateContentPath rel with
      | Some err => Ret (Err err)
      | None =>
          let! body := call (ReadFile (Join [dir; rel])) in
          match body with
          | Err err => Ret (Err (fs_text err))
          | Ok body => read_entries dir entries (<[rel := body]> files)
          end
      end
  end.

Definition Read (dir : str) : prog fsE (result str (gmap string str)) :=
  let! (entries, failed) := call (WalkDir dir) in
  let! files := read_entries dir entries ∅ in
  Ret (match files, failed with
       | Err err, _ => Err (Sanitize.Errorf "reading content directory: " err)
       | Ok _, Some err => Err (Sanitize.Errorf "reading content directory: " (fs_text err))
       | Ok files, None => Ok files
       end).

Definition StatusFile : str := ".trawl-content-status.json".

Context (marshal : ContentStatus → result str str) (unmarshal : str → result str ContentStatus).

Definition marshalStatus (st : ContentStatus) : result str str :=
  match marshal st with Ok data => Ok data | Err err => Err (Sanitize.Errorf "encoding content status: " err) end.

Definition unmarshalStatus (data : str) : result str ContentStatus :=
  match unmarshal data with Ok st => Ok st | Err err => Err (Sanitize.Errorf "decoding content status: " err) end.

Definition WriteStatus (dir : str) (st : ContentStatus) : prog fsE (result str unit) :=
  match marshalStatus st with
  | Err err => Ret (Err err)
  | Ok data => attempt "writing content status: " (WriteFile (Join [dir; StatusFile]) data)
  end.

Definition ReadStatus (dir : str) : prog fsE (result str ContentStatus) :=
  let!? data := attempt "reading content status: " (ReadFile (Join [dir; StatusFile])) in
  Ret (unmarshalStatus data).

End content.

(** ** A file system

    A map from keys.  A call that fails may have done part of what it does, as
    may one cut short; a tool touches nothing outside its output directory. *)

Inductive node := File (body : str) | Directory.
Abbreviation fs := (gmap (list str) node).

Definition fs_step (X : Type) (e : fsE X) : fs → X → fs → Prop :=
  match e in fsE X return fs → X → fs → Prop with
  | RemoveAll p => λ s x s',
      match x with
      | Ok _ => ∀ k, s' !! k = if decide (key p `prefix_of` k) then None else s !! k
      | Err _ => ∀ k, s' !! k = s !! k ∨ key p `prefix_of` k ∧ s' !! k = None
      end
  | MkdirAll p => λ s x s',
      match x with
      | Ok _ =>
          (∀ k, k `prefix_of` key p → s' !! k = Some Directory ∧ (s !! k = None ∨ s !! k = Some Directory)) ∧
          (∀ k, ¬ k `prefix_of` key p → s' !! k = s !! k)
      | Err _ => ∀ k, s' !! k = s !! k ∨ k `prefix_of` key p ∧ s !! k = None ∧ s' !! k = Some Directory
      end
  | WriteFile p body => λ s x s',
      match x with
      | Ok _ => s !! key p ≠ Some Directory ∧ s !! removelast (key p) = Some Directory ∧ s' = <[key p := File body]> s
      | Err _ => s' = s ∨ s !! key p ≠ Some Directory ∧ ∃ part, s' = <[key p := File part]> s
      end
  | Rename p q => λ s x s',
      match x with
      | Ok _ =>
          s !! key p ≠ None ∧ ¬ key p `prefix_of` key q ∧ ¬ key q `prefix_of` key p ∧
          (∀ r, r ≠ [] → s !! (key q ++ r) = None) ∧ (s !! key q ≠ None → (s !! key q = Some Directory ↔ s !! key p = Some Directory)) ∧
          (∀ r, s' !! (key q ++ r) = s !! (key p ++ r)) ∧ (∀ r, s' !! (key p ++ r) = None) ∧
          (∀ k, ¬ key p `prefix_of` k → ¬ key q `prefix_of` k → s' !! k = s !! k)
      | Err (NotExist _) => s' = s ∧ (s !! key p = None ∨ s !! removelast (key q) ≠ Some Directory)
      | Err (FsError _) => s' = s
      end
  | ReadFile p => λ s x s', s' = s ∧ ∀ body, x = Ok body → s !! key p = Some (File body)
  | WalkDir p => λ s x s',
      s' = s ∧ (x.2 = None →
        (s !! key p ≠ None) ∧ ∀ rel isDir, (rel, isDir) ∈ x.1 ↔
          ∃ r n, s !! (key p ++ r) = Some n ∧ rel = unparse false r ∧ isDir = match n with Directory => true | _ => false end)
  | Exec args output => λ s _ s', ∀ k, ¬ key output `prefix_of` k → s' !! k = s !! k
  | Now => λ s _ s', s' = s
  | OnCustomFailure _ => λ s _ s', s' = s
  end.

(** What a directory holds: for every name a file where it cleans to, each
    with the body of a name that does. *)
Definition holds (s : fs) (dir : list str) (files : gmap string str) : Prop :=
  (∀ r body, s !! (dir ++ r) = Some (File body) → ∃ name, files !! name = Some body ∧ clean_parts name = r) ∧
  ∀ name, is_Some (files !! name) → ∃ body, s !! (dir ++ clean_parts name) = Some (File body).

(** Where a tree is as it was somewhere else. *)
Definition same_tree (s : fs) (d : list str) (s0 : fs) (d0 : list str) : Prop := ∀ r, s !! (d ++ r) = s0 !! (d0 ++ r).

(** ** Lemmas *)

Lemma prefix_app_r_inv {A} (k T r : list A) : k `prefix_of` T ++ r → k `prefix_of` T ∨ T `prefix_of` k.
Proof.
  revert k. induction T as [|x T IH]; intros k H; [right; apply prefix_nil|].
  destruct k as [|y k]; [left; apply prefix_nil|]. simpl in H.
  pose proof (prefix_cons_inv_1 _ _ _ _ H) as ->. apply prefix_cons_inv_2 in H.
  destruct (IH k H); [left|right]; by apply prefix_cons.
Qed.

Lemma sibling_apart (parent : list str) a b r : a ≠ b → ¬ parent ++ [a] `prefix_of` parent ++ b :: r.
Proof. intros Hne H. apply prefix_app_inv in H. by apply prefix_cons_inv_1 in H. Qed.

Lemma not_below_parent (parent : list str) a : ¬ parent ++ [a] `prefix_of` parent.
Proof. intros H%prefix_length. rewrite length_app in H. simpl in H. lia. Qed.

Lemma prefix_snoc (k parent : list str) a : k `prefix_of` parent ++ [a] → k `prefix_of` parent ∨ k = parent ++ [a].
Proof.
  intros [z E]. destruct z as [|x z] using rev_ind; [right; by rewrite app_nil_r in E|].
  rewrite app_assoc in E. apply app_inj_tail in E as [-> _]. left. by exists z.
Qed.

Section write.
Context (quote : str → str).
Context (staging : str) (parent : list str) (sn : str) (Hstaging : staging ≠ "") (HT : key staging = parent ++ [sn]) (Hsn : sn ≠ "..") (Hsl : sn ≠ "/").

Abbreviation T := (parent ++ [sn]).

(** Nothing has changed but below the staging directory; what lay above is there. *)
Definition undisturbed (s0 s : fs) : Prop :=
  ∀ k, ¬ T `prefix_of` k → s !! k = s0 !! k ∨ k `prefix_of` parent ∧ s0 !! k = None ∧ s !! k = Some Directory.

Record staged (s0 : fs) (files : list (str * str)) (s : fs) : Prop := {
  sg_frame : undisturbed s0 s;
  sg_files r body : s !! (T ++ r) = Some (File body) → ∃ name, (name, body) ∈ files ∧ clean_parts name = r;
  sg_all name body : (name, body) ∈ files → ∃ body', s !! (T ++ clean_parts name) = Some (File body');
  sg_dirs k : k `prefix_of` T → s !! k = Some Directory;
}.

Definition valid_name (name : str) : Prop := validateContentPath quote name = None.

Lemma valid_inside name : valid_name name → name ≠ "" ∧ IsAbs name = false ∧ climbs (Clean name) = false.
Proof. unfold valid_name, validateContentPath. case_bool_decide; [done|]. destruct (IsAbs name); [done|]. by destruct (climbs (Clean name)). Qed.

Lemma target_key name : valid_name name →
  key (Join [staging; name]) = T ++ clean_parts name ∧
  (key (Dir (Join [staging; name])) = parent ∨ ∃ r, key (Dir (Join [staging; name])) = T ++ r).
Proof.
  intros (Hne & Ha & Hc)%valid_inside.
  assert (Join [staging; name] = Clean (staging +:+ String slash name)) as ->.
  { unfold Join. rewrite filter_cons_True, filter_cons_True, filter_nil by done. done. }
  pose proof (key_below staging name Hstaging Ha Hc) as Hk. rewrite HT in Hk.
  rewrite key_Clean. split; [done|].
  pose proof (clean_inside name Ha Hc) as Hin. pose proof (clean_parts_plain name) as Hp.
  destruct (decide (clean_parts name = [])) as [E|E].
  - rewrite E, app_nil_r in Hk. left. by eapply key_Dir.
  - destruct (exists_last E) as (r & x & Ex). rewrite Ex in *. right. exists r.
    apply Forall_app in Hp as [_ Hp]. apply Forall_singleton in Hp as (Hl & _).
    eapply (key_Dir _ _ x); [by rewrite Hk, app_assoc| |].
    + intros ->. apply Hin. rewrite <- (reverse_involutive (clean_stack name)). apply elem_of_reverse.
      change (reverse (clean_stack name)) with (clean_parts name). rewrite Ex. set_solver.
    + intros ->. done.
Qed.

(** Directories made for a file. *)
Lemma mkdir_staged s0 files p s x s' :
  staged s0 files s → (key p = parent ∨ ∃ r, key p = T ++ r) → fs_step _ (MkdirAll p) s x s' →
  match x with Ok _ => staged s0 files s' | Err _ => undisturbed s0 s' end.
Proof.
  intros [Hf Hfiles Hall Hd] Hp. assert (∀ k, k `prefix_of` key p → k `prefix_of` T ∨ T `prefix_of` k) as Hpre.
  { intros k Hk. destruct Hp as [Hp|[r Hp]]; rewrite Hp in Hk; [left; by apply prefix_app_r|by eapply prefix_app_r_inv]. }
  destruct x; simpl.
  - intros [Hin Hout]. split.
    + intros k Hk. destruct (decide (k `prefix_of` key p)) as [Hkp|Hkp]; [|rewrite Hout by done; by apply Hf].
      destruct (Hpre k Hkp) as [HkT|]; [|done]. destruct (Hin k Hkp) as [E _].
      destruct (Hf k Hk) as [E'|(? & ? & ?)]; [left; by rewrite E, <- E', Hd|by right].
    + intros r body. destruct (decide (T ++ r `prefix_of` key p)) as [Hkp|Hkp]; [|rewrite Hout by done; apply Hfiles].
      by destruct (Hin _ Hkp) as [-> _].
    + intros name body [b Hb]%Hall. exists b. destruct (decide (T ++ clean_parts name `prefix_of` key p)) as [Hkp|Hkp]; [|by rewrite Hout].
      destruct (Hin _ Hkp) as [_ [E|E]]; rewrite E in Hb; done.
    + intros k Hk. destruct (decide (k `prefix_of` key p)) as [Hkp|Hkp]; [by apply Hin|]. rewrite Hout by done. by apply Hd.
  - intros Hany k Hk. destruct (Hany k) as [->|(Hkp & Hs & _)]; [by apply Hf|].
    destruct (Hpre k Hkp) as [HkT|]; [|done]. by rewrite (Hd k HkT) in Hs.
Qed.

Lemma writefile_staged s0 files name body s x s' :
  staged s0 files s → valid_name name →
  fs_step _ (WriteFile (Join [staging; name]) body) s x s' →
  match x with Ok _ => staged s0 (files ++ [(name, body)]) s' | Err _ => undisturbed s0 s' end.
Proof.
  intros [Hf Hfiles Hall Hd] Hv. destruct (target_key name Hv) as [Hk _]. simpl. rewrite Hk.
  assert (∀ b, undisturbed s0 (<[T ++ clean_parts name := File b]> s)) as Hins.
  { intros b k HkT. rewrite lookup_insert_ne; [by apply Hf|]. intros <-. apply HkT. by exists (clean_parts name). }
  destruct x as [u|e].
  - intros (Hnd & _ & ->). split; [apply Hins| | |].
    + intros r b. destruct (decide (clean_parts name = r)) as [<-|Hne].
      * rewrite lookup_insert_eq. intros [= <-]. exists name. split; [set_solver|done].
      * rewrite lookup_insert_ne by (intros E%app_inv_head; done). intros (name' & Hin & Hc)%Hfiles. exists name'. set_solver.
    + intros name' b Hin. destruct (decide (clean_parts name = clean_parts name')) as [<-|Hne];
        [exists body; by rewrite lookup_insert_eq|].
      rewrite lookup_insert_ne by (intros E%app_inv_head; done). apply elem_of_app in Hin as [Hin|Hin%list_elem_of_singleton].
      * by apply Hall in Hin.
      * by simplify_eq.
    + intros k Hk'. rewrite lookup_insert_ne; [by apply Hd|]. intros <-. apply Hnd.
      by apply Hd.
  - intros [->|(_ & part & ->)]; [apply Hf|apply Hins].
Qed.

Lemma write_files_staged s0 files : ∀ done s,
  staged s0 done s →
  within fs_step (undisturbed s0) (write_files quote staging files)
    (λ r s', match r with Ok _ => staged s0 (done ++ files) s' | Err _ => undisturbed s0 s' end) s.
Proof.
  induction files as [|[name body] files IH]; intros done s Hs.
  { simpl. split; [apply Hs|]. by rewrite app_nil_r. }
  cbn [write_files]. destruct (validateContentPath quote name) as [err|] eqn:Hv; [split; apply Hs|].
  destruct (target_key name Hv) as [_ HD].
  unfold attempt, prog_try. split; [apply Hs|]. intros x s1 H1%(mkdir_staged s0 done _ s _ _ Hs HD).
  destruct x as [u|e]; [|by split]. cbn [prog_bind]. split; [apply H1|]. intros x s2 H2.
  apply (writefile_staged s0 done name body _ _ _ H1 Hv) in H2.
  destruct x as [u'|e]; [|by split]. cbn [prog_bind].
  replace (done ++ (name, body) :: files) with ((done ++ [(name, body)]) ++ files) in * by by rewrite <- app_assoc.
  by apply IH.
Qed.

End write.

Lemma within_attempt {A B : Type} (I : fs → Prop) (text : str) (e : fsE (result fs_error A)) (f : A → prog fsE (result str B)) (Q : result str B → fs → Prop) (s : fs) :
  I s →
  (∀ x s', fs_step _ e s x s' →
    match x with Ok a => within fs_step I (f a) Q s' | Err err => I s' ∧ Q (Err (Sanitize.Errorf text (fs_text err))) s' end) →
  within fs_step I (prog_try (attempt text e) f) Q s.
Proof. intros HI H. split; [done|]. intros x s' Hx. specialize (H x s' Hx). by destruct x. Qed.

Section atomic.
Context (quote : str → str) (range : gmap string str → list (str * str)) (range_perm : ∀ m, range m ≡ₚ map_to_list m).
Context (dir : str) (parent : list str) (dn sn pn : str) (files : gmap string str).
Context (HD : key dir = parent ++ [dn]) (HT : key (dir +:+ ".staging") = parent ++ [sn]) (HP : key (dir +:+ ".previous") = parent ++ [pn]).
Context (Hapart : NoDup [dn; sn; pn]) (Hsn : sn ≠ "..") (Hsl : sn ≠ "/").

Abbreviation D := (parent ++ [dn]).
Abbreviation T := (parent ++ [sn]).
Abbreviation P := (parent ++ [pn]).

Definition frame (s0 s : fs) : Prop :=
  ∀ k, ¬ D `prefix_of` k → ¬ T `prefix_of` k → ¬ P `prefix_of` k →
    s !! k = s0 !! k ∨ k `prefix_of` parent ∧ s0 !! k = None ∧ s !! k = Some Directory.

(** The content there was, in its place or set aside; where there was none,
    what an earlier write set aside. *)
Definition kept (s0 s : fs) : Prop :=
  same_tree s D s0 D ∨
  (∀ r, s !! (D ++ r) = None) ∧ same_tree s P s0 D ∨
  s0 !! D = None ∧ ∀ r, s !! (D ++ r) = None ∨ s !! (D ++ r) = s0 !! (P ++ r).

Definition whole (s0 s : fs) : Prop := frame s0 s ∧ (kept s0 s ∨ holds s D files).

Definition written (s0 : fs) (r : result str unit) (s : fs) : Prop :=
  frame s0 s ∧ match r with Ok _ => holds s D files | Err _ => kept s0 s end.

(** New content staged, the old in place. *)
Record ready (s0 s : fs) : Prop := {
  rd_frame : frame s0 s;
  rd_old : same_tree s D s0 D;
  rd_new : holds s T files;
  rd_prev r : s !! (P ++ r) = None ∨ s !! (P ++ r) = s0 !! (P ++ r);
  rd_parent : s !! parent = Some Directory;
}.

Lemma apart a b r : a ≠ b → ¬ parent ++ [a] `prefix_of` (parent ++ [b]) ++ r.
Proof. rewrite <- app_assoc. apply sibling_apart. Qed.

Lemma names_apart : dn ≠ sn ∧ dn ≠ pn ∧ sn ≠ pn.
Proof. clear -Hapart. rewrite !NoDup_cons in Hapart. set_solver. Qed.

Lemma undisturbed_whole s0 s : undisturbed parent sn s0 s → whole s0 s ∧ same_tree s D s0 D ∧ ∀ r, s !! (P ++ r) = s0 !! (P ++ r).
Proof.
  intros Hu. destruct names_apart as (H1 & H2 & H3).
  assert (∀ b r, b ≠ sn → s !! ((parent ++ [b]) ++ r) = s0 !! ((parent ++ [b]) ++ r)) as Hsame.
  { intros b r Hb. destruct (Hu ((parent ++ [b]) ++ r)) as [|(Hpre & _)]; [by apply apart|done|].
    exfalso. apply (not_below_parent parent b). etrans; [|exact Hpre]. by apply prefix_app_r. }
  assert (same_tree s D s0 D) as HD' by (intros r; by apply Hsame).
  split; [|split; [done|intros r; by apply Hsame]]. split; [intros k _ HkT _; by apply Hu|]. left. by left.
Qed.

Lemma moved_frame s0 s s' (a b : str) :
  frame s0 s → a ∈ [dn; sn; pn] → b ∈ [dn; sn; pn] →
  (∀ k, ¬ parent ++ [a] `prefix_of` k → ¬ parent ++ [b] `prefix_of` k → s' !! k = s !! k) → frame s0 s'.
Proof.
  intros Hf Ha Hb Hk k H1 H2 H3. rewrite Hk; [by apply Hf| |];
    rewrite !elem_of_cons, elem_of_nil in *; naive_solver.
Qed.

Lemma moved_tree s s' (a b c : str) :
  c ≠ a → c ≠ b → (∀ k, ¬ parent ++ [a] `prefix_of` k → ¬ parent ++ [b] `prefix_of` k → s' !! k = s !! k) →
  same_tree s' (parent ++ [c]) s (parent ++ [c]).
Proof. intros Ha Hb Hk r. by apply Hk; apply apart. Qed.

Lemma same_holds s d s' d' : same_tree s' d' s d → holds s d files → holds s' d' files.
Proof. intros Hs [H1 H2]. split; [intros r body; rewrite Hs; apply H1|intros name Hn; rewrite Hs; by apply H2]. Qed.

Lemma swap_whole s0 s text :
  frame s0 s → kept s0 s → holds s T files → (∀ s', (∀ r, s' !! (D ++ r) = s !! (P ++ r)) → kept s0 s') →
  within fs_step (whole s0)
    (let! installed := call (Rename (dir +:+ ".staging") dir) in
     match installed with
     | Err err => let! _ := call (Rename (dir +:+ ".previous") dir) in Ret (Err (Sanitize.Errorf text (fs_text err)))
     | Ok _ => let! _ := call (RemoveAll (dir +:+ ".previous")) in Ret (Ok tt)
     end) (written s0) s.
Proof.
  intros Hf Hk Hn Hback. destruct names_apart as (H1 & H2 & H3).
  assert (whole s0 s) as Hw by (split; [done|by left]).
  apply within_call; [done|]. intros x s1 H. simpl in H. rewrite HT, HD in H. destruct x as [u|err].
  - destruct H as (_ & _ & _ & _ & _ & Hto & _ & Helse).
    assert (frame s0 s1) as Hf1 by (apply (moved_frame s0 s s1 sn dn); [done|set_solver|set_solver|done]).
    assert (holds s1 D files) as Hn1 by (by eapply same_holds; [|exact Hn]).
    apply within_call; [split; [done|by right]|]. intros y s2 Hy. simpl in Hy. rewrite HP in Hy.
    assert (∀ k, ¬ P `prefix_of` k → s2 !! k = s1 !! k) as Hsame.
    { intros k HkP. destruct y; [rewrite Hy; by rewrite decide_False|by destruct (Hy k) as [|[? _]]]. }
    assert (written s0 (Ok tt) s2) as Hwr.
    { split; [apply (moved_frame s0 s1 s2 pn pn); [done|set_solver|set_solver|by intros k ? _; apply Hsame]|].
      eapply same_holds; [|exact Hn1]. intros r. rewrite Hsame; [done|by apply apart]. }
    split; [|done]. split; [apply Hwr|right; apply Hwr].
  - assert (s1 = s) as -> by (destruct err; [by destruct H|done]).
    apply within_call; [done|]. intros y s2 Hy. simpl in Hy. rewrite HP, HD in Hy.
    assert (frame s0 s2 ∧ kept s0 s2) as [Hf2 Hk2]; [|split; [split; [done|by left]|done]].
    destruct y as [u|e]; [|by assert (s2 = s) as -> by (destruct e; [by destruct Hy|done])].
    destruct Hy as (_ & _ & _ & _ & _ & Hto & _ & Helse).
    split; [apply (moved_frame s0 s s2 pn dn); [done|set_solver|set_solver|done]|by apply Hback].
Qed.

Lemma install_whole s0 s :
  ready s0 s → within fs_step (whole s0) (install dir (dir +:+ ".staging") (dir +:+ ".previous")) (written s0) s.
Proof.
  intros [Hf Ho Hn Hp Hpar]. destruct names_apart as (H1 & H2 & H3).
  assert (kept s0 s) as Hk by by left.
  apply within_call; [split; [done|by left]|]. intros x s1 H. simpl in H. rewrite HD, HP in H.
  destruct x as [u|[text|text]].
  - destruct H as (_ & _ & _ & _ & _ & Hto & Hgone & Helse).
    assert (same_tree s1 P s0 D) as Haside by (intros r; by rewrite Hto, Ho).
    apply swap_whole.
    + apply (moved_frame s0 s s1 dn pn); [done|set_solver|set_solver|done].
    + right. by left.
    + eapply same_holds; [|exact Hn]. by apply (moved_tree s s1 dn pn sn).
    + intros s' Hs'. left. intros r. by rewrite Hs', Haside.
  - destruct H as [-> Hmissing]. rewrite removelast_last in Hmissing. destruct Hmissing as [Hmissing|]; [|done].
    apply swap_whole; [done..|]. intros s' Hs'. right. right. pose proof (Ho []) as E. rewrite app_nil_r in E.
    split; [by rewrite <- E|]. intros r. rewrite Hs'. apply Hp.
  - subst s1. by split; [split; [|left]|].
Qed.

Lemma clear_staging s0 x s1 :
  fs_step _ (RemoveAll (dir +:+ ".staging")) s0 x s1 →
  undisturbed parent sn s0 s1 ∧ ∀ u, x = Ok u → (∀ k, ¬ T `prefix_of` k → s1 !! k = s0 !! k) ∧ ∀ r, s1 !! (T ++ r) = None.
Proof.
  simpl. rewrite HT. intros Hx. destruct x as [u|e].
  - assert (∀ k, ¬ T `prefix_of` k → s1 !! k = s0 !! k) as Hsame by (intros k Hk; rewrite Hx; by rewrite decide_False).
    split; [intros k Hk; left; by apply Hsame|]. intros _ _. split; [done|]. intros r.
    rewrite Hx, decide_True; [done|by apply prefix_app_r].
  - split; [|done]. intros k Hk. destruct (Hx k) as [|[? _]]; [by left|done].
Qed.

Lemma make_staging s0 s1 y s2 :
  (∀ k, ¬ T `prefix_of` k → s1 !! k = s0 !! k) → (∀ r, s1 !! (T ++ r) = None) →
  fs_step _ (MkdirAll (dir +:+ ".staging")) s1 y s2 →
  match y with Ok _ => staged parent sn s0 [] s2 | Err _ => undisturbed parent sn s0 s2 end.
Proof.
  simpl. rewrite HT. intros Hsame Hgone Hy.
  assert (∀ k, k `prefix_of` T → ¬ T `prefix_of` k → k `prefix_of` parent) as Habove.
  { intros k [Hk| ->]%prefix_snoc HkT; done. }
  destruct y as [u'|e].
  - destruct Hy as [Hin Hout]. split.
    + intros k Hk. destruct (decide (k `prefix_of` T)) as [HkT|HkT]; [|left; by rewrite Hout, Hsame].
      destruct (Hin k HkT) as [E [E'|E']]; rewrite Hsame in E' by done; [right; split; [by apply Habove|done]|left; congruence].
    + intros r body. destruct r as [|c r].
      * rewrite app_nil_r. by destruct (Hin T) as [-> _].
      * rewrite Hout; [by rewrite Hgone|]. intros H%prefix_length. rewrite length_app in H. simpl in H. lia.
    + by intros name body ?%elem_of_nil.
    + intros k Hk. by apply Hin.
  - intros k Hk. destruct (Hy k) as [E|(HkT & E & E')]; rewrite Hsame in E by done; [by left|].
    right. split; [by apply Habove|done].
Qed.

Lemma staged_ready s0 s x s' :
  staged parent sn s0 (range files) s → fs_step _ (RemoveAll (dir +:+ ".previous")) s x s' → ready s0 s' ∧ whole s0 s'.
Proof.
  intros [Hu Hn Hall Hd] H. destruct names_apart as (H1 & H2 & H3). simpl in H. rewrite HP in H.
  destruct (undisturbed_whole s0 s Hu) as ([Hf _] & Ho & Hp).
  assert (∀ k, ¬ P `prefix_of` k → s' !! k = s !! k) as Hsame.
  { intros k HkP. destruct x; [rewrite H; by rewrite decide_False|by destruct (H k) as [|[? _]]]. }
  assert (∀ c, c ≠ pn → same_tree s' (parent ++ [c]) s (parent ++ [c])) as Htree.
  { intros c Hc. apply (moved_tree s s' pn pn c); [done..|by intros k ? _; apply Hsame]. }
  assert (frame s0 s') as Hf' by (apply (moved_frame s0 s s' pn pn); [done|set_solver|set_solver|by intros k ? _; apply Hsame]).
  assert (same_tree s' D s0 D) as Ho' by (intros r; by rewrite Htree, Ho).
  split; [|split; [done|left; by left]]. split; [done|done| | |].
  - split.
    + intros r body. rewrite Htree by done. intros (name & Hin & E)%Hn. exists name. split; [|done].
      apply elem_of_map_to_list. by rewrite <- (range_perm files).
    + intros name [body Hb]. rewrite Htree by done. apply (Hall name body). rewrite (range_perm files). by apply elem_of_map_to_list.
  - intros r. rewrite <- Hp. destruct x; [left; rewrite H, decide_True; [done|by apply prefix_app_r]|].
    destruct (H (P ++ r)) as [->|[_ ->]]; [by right|by left].
  - rewrite Hsame by apply not_below_parent. apply Hd. by apply prefix_app_r.
Qed.

Lemma Write_whole merged s0 :
  mg_Files merged = files → dir ≠ "" → within fs_step (whole s0) (Write quote range merged dir) (written s0) s0.
Proof.
  intros Hm Hd. assert (dir +:+ ".staging" ≠ "") as Hs by (by destruct dir).
  assert (undisturbed parent sn s0 s0) as H0 by (by left).
  assert (∀ s, undisturbed parent sn s0 s → whole s0 s ∧ ∀ e, written s0 (Err e) s) as Hfail.
  { intros s Hu. destruct (undisturbed_whole s0 s Hu) as (Hw & Ho & _). split; [done|]. intros e. split; [apply Hw|by left]. }
  unfold Write. apply within_attempt; [by apply Hfail|]. intros x s1 H1.
  destruct (clear_staging s0 x s1 H1) as [Hu1 Hok1]. destruct x as [u|e]; [|split; by apply Hfail].
  destruct (Hok1 u eq_refl) as [Hsame Hgone].
  apply within_attempt; [by apply Hfail|]. intros y s2 H2%(make_staging s0 s1 y s2 Hsame Hgone).
  destruct y as [u'|e]; [|split; by apply Hfail]. apply within_try. rewrite Hm.
  eapply within_imp; [| |apply (write_files_staged quote _ parent sn Hs HT Hsn Hsl s0 (range files) [] s2 H2)];
    [intros s Hu; by apply Hfail|]. intros r s3 H3. destruct r as [v|e]; [|by apply Hfail].
  apply within_call; [apply Hfail, H3|]. intros z s4 H4. destruct (staged_ready s0 s3 z s4 H3 H4) as [Hr _]. by apply install_whole.
Qed.

End atomic.

Lemma NoDup_three (a b c : str) : a ≠ b → a ≠ c → b ≠ c → NoDup [a; b; c].
Proof. intros. repeat constructor; rewrite ?elem_of_cons, ?elem_of_nil; naive_solver. Qed.

(** A layer an analyzer can start on. *)
Definition usable (quote : str → str) (l : Layer) : Prop := ly_Files l ≠ ∅ ∧ ∀ name, is_Some (ly_Files l !! name) → valid_name quote name.

Lemma validate_names_spec quote layer names :
  (validate_names quote layer names = None ↔ ∀ name, name ∈ names → valid_name quote name).
Proof.
  induction names as [|name names IH]; simpl; [split; [set_solver|done]|].
  destruct (validateContentPath quote name) as [err|] eqn:E.
  - split; [done|]. intros H. specialize (H name). unfold valid_name in H. rewrite E in H. by discriminate H; set_solver.
  - rewrite IH. split; intros H; [|set_solver]. intros n [->|]%elem_of_cons; [done|by apply H].
Qed.

Section resolve.
Context (quote : str → str) (range : gmap string str → list (str * str)) (range_perm : ∀ m, range m ≡ₚ map_to_list m).

Lemma validate_files layer files :
  validate_names quote layer (range files).*1 = None ↔ ∀ name, is_Some (files !! name) → valid_name quote name.
Proof.
  rewrite validate_names_spec. assert (∀ name, name ∈ (range files).*1 ↔ is_Some (files !! name)) as Hin.
  { intros name. rewrite (range_perm files). split.
    - intros ((n & b) & -> & H%elem_of_map_to_list)%list_elem_of_fmap. by exists b.
    - intros [b H]. apply list_elem_of_fmap. exists (name, b). split; [done|by apply elem_of_map_to_list]. }
  split; intros H name Hn; apply H; by apply Hin.
Qed.

(** What a merge gives, and when. *)
Lemma Merge_spec upstream custom :
  match Merge quote range upstream custom with
  | Ok m =>
      usable quote upstream ∧ mg_UpstreamFetchedAt m = ly_FetchedAt upstream ∧
      (mg_CustomApplied m = false ∧ mg_Files m = ly_Files upstream ∧ mg_CustomDigest m = "" ∧ (∀ c, custom = Some c → ly_Files c = ∅) ∨
       ∃ c, custom = Some c ∧ usable quote c ∧ mg_CustomApplied m = true ∧ mg_Files m = ly_Files c ∪ ly_Files upstream ∧ mg_CustomDigest m = ly_Digest c)
  | Err _ => ¬ usable quote upstream ∨ ∃ c, custom = Some c ∧ ly_Files c ≠ ∅ ∧ ¬ usable quote c
  end.
Proof.
  unfold Merge. case_bool_decide as He; [left; by intros []|].
  pose proof (validate_files "upstream layer: " (ly_Files upstream)) as Hu.
  destruct (validate_names quote "upstream layer: " _) as [err|]; [left; intros [_ H]; by apply Hu in H|].
  assert (usable quote upstream) as Hus by (split; [done|by apply Hu]).
  destruct custom as [c|]; [|by split_and!; [..|left]].
  case_bool_decide as Hc; [by split_and!; [..|left; split_and!; [..|intros ? [= <-]]]|].
  pose proof (validate_files "custom layer: " (ly_Files c)) as Hcu.
  destruct (validate_names quote "custom layer: " _) as [err|].
  - right. exists c. split_and!; [done..|]. intros [_ H]. by apply Hcu in H.
  - split_and!; [done..|]. right. exists c. by split_and!; [|split; [|apply Hcu]|..].
Qed.

End resolve.

(** What a resolution may come to, given what the fetches may. *)
Definition overlaid (quote : str → str) (C : result str Layer → Prop) (l : Layer) (m : Merged) : Prop :=
  ∃ c, C (Ok c) ∧ usable quote c ∧ mg_CustomApplied m = true ∧ mg_Files m = ly_Files c ∪ ly_Files l ∧ mg_CustomDigest m = ly_Digest c.

Definition degraded (quote : str → str) (r : Resolver) (C : result str Layer → Prop) (l : Layer) (m : Merged) (log : list (event fsE)) : Prop :=
  mg_CustomApplied m = false ∧ mg_Files m = ly_Files l ∧ mg_CustomDigest m = "" ∧
  (rv_Custom r = None ∨ (∃ c, C (Ok c) ∧ ly_Files c = ∅) ∨
   ∃ err c, Ev (OnCustomFailure err) tt ∈ log ∧ C c ∧ ∀ l, c = Ok l → ¬ usable quote l).

Definition resolved (quote : str → str) (r : Resolver) (U C : result str Layer → Prop) (res : result str Merged) (log : list (event fsE)) : Prop :=
  ∃ u, U u ∧
  match res with
  | Err _ => ∀ l, u = Ok l → ¬ usable quote l
  | Ok m =>
      ∃ l, u = Ok l ∧ usable quote l ∧ (is_zero (ly_FetchedAt l) = false → mg_UpstreamFetchedAt m = ly_FetchedAt l) ∧
      (overlaid quote C l m ∨ degraded quote r C l m log)
  end.

Lemma merge_resolved quote range r (U C : result str Layer → Prop) l l' custom log :
  (∀ m, range m ≡ₚ map_to_list m) → U (Ok l) → ly_Files l' = ly_Files l → (is_zero (ly_FetchedAt l) = false → ly_FetchedAt l' = ly_FetchedAt l) →
  (∀ c, custom = Some c → C (Ok c) ∧ (ly_Files c = ∅ ∨ usable quote c)) →
  (custom = None → usable quote l → rv_Custom r = None ∨ ∃ err c, Ev (OnCustomFailure err) tt ∈ log ∧ C c ∧ ∀ l, c = Ok l → ¬ usable quote l) →
  resolved quote r U C (Merge quote range l' custom) log.
Proof.
  intros Hr HU Hf Ht Hc Hn. exists (Ok l). split; [done|].
  pose proof (Merge_spec quote range Hr l' custom) as HM.
  assert (usable quote l' ↔ usable quote l) as Hus by (unfold usable; by rewrite Hf).
  destruct (Merge quote range l' custom) as [m|err].
  - destruct HM as (Hu & Hat & HM). exists l. split; [done|]. split; [by apply Hus|]. split; [intros Hz; by rewrite Hat, Ht|].
    destruct HM as [(Ha & Hfs & Hd & He)|(c & -> & Hu' & Ha & Hfs & Hd)].
    + right. split_and!; [done|congruence|done|]. destruct custom as [c|].
      * right. left. exists c. split; [by apply Hc|by apply He].
      * destruct (Hn eq_refl) as [|Hrep]; [by apply Hus|by left|by right; right].
    + left. exists c. rewrite <- Hf. split; [by apply Hc|done].
  - intros l0 [= <-]. rewrite <- Hus. destruct HM as [|(c & -> & Hne & Hnu)]; [done|].
    destruct (Hc c eq_refl) as [_ [|]]; done.
Qed.

Lemma overlay_resolved quote range r dir (U C : result str Layer → Prop) l l' log :
  (∀ m, range m ≡ₚ map_to_list m) → rv_Reports r = true →
  (∀ fc log, rv_Custom r = Some fc → wp (@logged fsE) (fc dir) (λ c _, C c) log) →
  U (Ok l) → ly_Files l' = ly_Files l → (is_zero (ly_FetchedAt l) = false → ly_FetchedAt l' = ly_FetchedAt l) →
  wp (@logged fsE) (overlay quote range r dir l') (resolved quote r U C) log.
Proof.
  intros Hr Hrep Hc HU Hf Ht. unfold overlay, reportCustomFailure. rewrite Hrep.
  destruct (rv_Custom r) as [fc|] eqn:Ec; [|simpl; apply (merge_resolved _ _ _ _ _ l); naive_solver].
  apply wp_bind. eapply wp_mono; [|by apply Hc]. intros [c|err] log1 HC.
  - pose proof (Merge_spec quote range Hr l' (Some c)) as HM. destruct (Merge quote range l' (Some c)) as [m|err] eqn:EM.
    + rewrite <- EM. apply (merge_resolved _ _ _ _ _ l); [done..| |done]. intros ? [= <-]. split; [done|].
      destruct HM as (_ & _ & [(_ & _ & _ & He)|(c' & [= <-] & Hu & _)]); [left; by apply He|by right].
    + intros [] log' ->. apply (merge_resolved _ _ _ _ _ l); [done..|]. intros _ Hl. right.
      destruct HM as [Hnu|(c' & [= <-] & _ & Hnu)]; [destruct Hnu; unfold usable; by rewrite Hf|].
      eexists _, (Ok c). split; [apply elem_of_app; right; by apply list_elem_of_singleton|]. split; [done|]. by intros ? [= <-].
  - intros [] log' ->. apply (merge_resolved _ _ _ _ _ l); [done..|]. intros _ _. right.
    eexists _, (Err err). by split; [apply elem_of_app; right; by apply list_elem_of_singleton|].
Qed.

(** ** Theorems *)

(** an upstream failure stops the analyzer, a custom one does not.  A
    resolution succeeds exactly if the upstream layer was fetched, is not empty
    and names nothing outside the content directory, whatever becomes of the
    custom layer.  The result is the upstream files, overlaid with the custom
    layer's where that was fetched and its names are all inside, and it says
    whether it was; if it was not, the failure has been reported, unless the
    layer was fetched empty. *)
Theorem Resolve_degrades quote range r fu dir (U C : result str Layer → Prop) log :
  (∀ m, range m ≡ₚ map_to_list m) → rv_Upstream r = Some fu → rv_Reports r = true →
  (∀ log, wp (@logged fsE) (fu dir) (λ u _, U u) log) →
  (∀ fc log, rv_Custom r = Some fc → wp (@logged fsE) (fc dir) (λ c _, C c) log) →
  wp (@logged fsE) (Resolve quote range r dir) (resolved quote r U C) log.
Proof.
  intros Hrange Hup Hrep Hu Hc. unfold Resolve. rewrite Hup. apply wp_bind.
  eapply wp_mono; [|apply Hu]. intros [l|err] log1 HU; [|exists (Err err); by split].
  apply wp_bind. destruct (is_zero (ly_FetchedAt l)) eqn:Ez; [intros now log2 ->|]; by apply (overlay_resolved _ _ _ _ _ _ l); rewrite ?Ez.
Qed.

(** C15: content is swapped, never mixed.  At every point of a write, the cuts
    a crash makes and calls that fail halfway included, the content directory
    holds exactly the old content or exactly the merged files, or is absent
    with the old content complete beside it.  There is one exception: where
    there was no content, what an earlier write had set aside may be put in its
    place, with a part of it already deleted.  The write reports success only
    with the merged files in place, and an error only with the old content kept
    so.  The merged files are: a file for every name where it cleans to, and
    none else; of names that clean to one path, as a.rules and ./a.rules do, one
    gives the body.  Whatever the names, which come from a registry, nothing
    outside the directory and its two siblings changes, but for parents made. *)
Theorem content_swapped quote range d parent n merged s0 :
  (∀ m, range m ≡ₚ map_to_list m) → key d = parent ++ [n] → n ≠ ".." → n ≠ "/" →
  let staging := n +:+ ".staging" in
  let previous := n +:+ ".previous" in
  within fs_step (whole parent n staging previous (mg_Files merged) s0) (Write quote range merged (Clean d))
    (written parent n staging previous (mg_Files merged) s0) s0.
Proof.
  intros Hr Hk Hn Hs staging previous.
  assert (n ≠ staging ∧ n ≠ previous ∧ staging ≠ previous ∧ staging ≠ ".." ∧ staging ≠ "/") as (H1 & H2 & H3 & H4 & H5).
  { assert (∀ s t, String.length s ≠ String.length t → s ≠ t) as Hlen by (intros s t H ->; done).
    assert (String.length staging = (String.length n + 8)%nat ∧ String.length previous = (String.length n + 9)%nat) as [E1 E2]
      by (unfold staging, previous; by rewrite !str_length_app).
    split_and!; apply Hlen; rewrite ?E1, ?E2; simpl; lia. }
  eapply (Write_whole quote range Hr (Clean d) parent n staging previous (mg_Files merged)); try done.
  - by rewrite key_Clean.
  - apply key_sibling; try done. simpl. lia.
  - apply key_sibling; try done. simpl. lia.
  - by apply NoDup_three.
  - apply Clean_nonempty.
Qed.

(** ** Witnesses *)

Lemma content_swapped_witness :
  let merged := mkMerged {["local/a.rules" := "alert"; "./local/a.rules" := ""]} 0 "" false in
  let s0 : fs := {[ [] := Directory; ["/"] := Directory; ["/"; "c"] := Directory; ["/"; "c"; "Zeek"] := Directory ]} in
  within fs_step (whole ["/"; "c"] "Zeek" "Zeek.staging" "Zeek.previous" (mg_Files merged) s0)
    (Write (λ s, s) map_to_list merged (Clean "/c/./Zeek"))
    (written ["/"; "c"] "Zeek" "Zeek.staging" "Zeek.previous" (mg_Files merged) s0) s0.
Proof.
  intros merged s0. apply (content_swapped (λ s, s) map_to_list "/c/./Zeek" ["/"; "c"] "Zeek" merged s0); [done|reflexivity|done|done].
Defined.

Lemma Resolve_degrades_witness :
  let layer files digest := mkLayer "l" files 5 digest in
  let up := layer {["a.rules" := "alert"]} "" in
  let bad := layer {["../../etc/passwd" := "root"]} "sha256:0" in
  let r := mkResolver (Some (λ _, Ret (Ok up))) (Some (λ _, Ret (Ok bad))) true in
  wp (@logged fsE) (Resolve (λ s, s) map_to_list r "/c/Zeek") (resolved (λ s, s) r (λ u, u = Ok up) (λ c, c = Ok bad)) [] ∧
  run (λ X (e : fsE X) (n : nat), match e in fsE X return X * nat with OnCustomFailure _ => (tt, S n) | RemoveAll _ | MkdirAll _ | WriteFile _ _ | Rename _ _ => (Ok tt, n)
    | ReadFile _ => (Ok "", n) | WalkDir _ => (([], None), n) | Exec _ _ => (Ok tt, n) | Now => (0, n) end)
    (Resolve (λ s, s) map_to_list r "/c/Zeek") 0%nat = (Ok (mkMerged {["a.rules" := "alert"]} 5 "" false), 1%nat).
Proof.
  intros layer up bad r. split.
  - apply (Resolve_degrades (λ s, s) map_to_list r (λ _, Ret (Ok up)) "/c/Zeek" (λ u, u = Ok up) (λ c, c = Ok bad) []); [done|done|done|done|].
    intros fc log [= <-]. done.
  - vm_compute. reflexivity.
Defined.

End Content.
