(* ===== verification/Certificates.v ===== *)
(** * The certificate reloader, internal/tlsutil/reloader.go

    A handshake asks for the current pair.  The two files are looked at and
    read by separate calls, between which they may be replaced, one at a time.
    Parsing a pair is an argument; the mutex makes a handshake one program. *)

From S2P Require Import Prelude GoTime GoString Sanitize Prog.

Module Certificates.

Section reloader.
Context {cert : Type}.

Inductive pairE : Type → Type :=
  | Stat (name : str) : pairE (option time)
  | LoadX509KeyPair (certFile keyFile : str) : pairE (result str cert).

Record CertReloader := mkReloader {
  cr_name : str;
  cr_certFile : str;
  cr_keyFile : str;
  cr_cert : option cert;
  cr_loadedAt : time * time;
}.

Definition modTimes (r : CertReloader) : prog pairE (time * time) :=
  let! c := call (Stat (cr_certFile r)) in
  let! k := call (Stat (cr_keyFile r)) in
  Ret (default 0 c, default 0 k).

Definition current (r : CertReloader) : prog pairE (result str cert * CertReloader) :=
  let! stamps := modTimes r in
  let load :=
    let! loaded := call (LoadX509KeyPair (cr_certFile r) (cr_keyFile r)) in
    Ret match loaded, cr_cert r with
        | Err _, Some c => (Ok c, r)
        | Err err, None => (Err (Sanitize.Errorf_args [("loading the ", cr_name r); (" certificate: ", err)]), r)
        | Ok c, _ => (Ok c, mkReloader (cr_name r) (cr_certFile r) (cr_keyFile r) (Some c) stamps)
        end in
  match cr_cert r with
  | Some c => if bool_decide (stamps = cr_loadedAt r) then Ret (Ok c, r) else load
  | None => load
  end.

Definition NewCertReloader (name certFile keyFile : str) : prog pairE (result str CertReloader) :=
  let! (loaded, r) := current (mkReloader name certFile keyFile None (0, 0)) in
  Ret match loaded with Err err => Err err | Ok _ => Ok r end.

(** Handshakes one after the other, with what each was given. *)
Fixpoint handshakes (n : nat) (r : CertReloader) : prog pairE (list (result str cert) * CertReloader) :=
  match n with
  | O => Ret ([], r)
  | S n => let! (c, r) := current r in let! (cs, r) := handshakes n r in Ret (c :: cs, r)
  end.

(** ** The files

    A file has versions, one after the other: its bytes and when it was
    written.  The state is the two versions in place; before every call each
    file may have moved on, and between the reads of a pair too. *)

Context (certBytes keyBytes : nat → str) (certTime keyTime : nat → option time) (parse : str → str → result str cert).

Definition later (v v' : nat * nat) : Prop := (v.1 ≤ v'.1)%nat ∧ (v.2 ≤ v'.2)%nat.

Definition on_disk (v : nat * nat) : result str cert := parse (certBytes v.1) (keyBytes v.2).

Definition pair_step (certFile keyFile : str) (X : Type) (e : pairE X) (v : nat * nat) : X → nat * nat → Prop :=
  match e with
  | Stat name => λ x v', later v v' ∧ (name = certFile → x = certTime v'.1) ∧ (name = keyFile → x = keyTime v'.2)
  | LoadX509KeyPair c k => λ x v', later v v' ∧ ∃ read, later v read ∧ later read v' ∧ x = on_disk read
  end.

(** A version is told from those before it by its time; a file that is absent
    parses to nothing, and no version is written at the zero time. *)
Definition stamped (bytes : nat → str) (times : nat → option time) (bad : str → Prop) : Prop :=
  ∀ i, match times i with
       | None => bad (bytes i)
       | Some t => t ≠ 0 ∧ ∀ j, (j < i)%nat → times j ≠ Some t
       end.

Definition times_tell : Prop :=
  stamped certBytes certTime (λ c, ∀ k, is_ok (parse c k) = false) ∧
  stamped keyBytes keyTime (λ k, ∀ c, is_ok (parse c k) = false).

(** What a reloader knows: a pair of some moment since the times it keeps. *)
Definition knows (r : CertReloader) (v : nat * nat) : Prop :=
  match cr_cert r with
  | None => True
  | Some c => ∃ u read, later u read ∧ later read v ∧ on_disk read = Ok c ∧
      cr_loadedAt r = (default 0 (certTime u.1), default 0 (keyTime u.2))
  end.

Lemma later_trans u v w : later u v → later v w → later u w.
Proof. unfold later. lia. Qed.

Lemma knows_later r v v' : later v v' → knows r v → knows r v'.
Proof.
  unfold knows. intros Hl. destruct (cr_cert r); [|done]. intros (u & read & H1 & H2 & H3 & H4). exists u, read.
  split_and!; [done|by eapply later_trans|done..].
Qed.

(** A file with the time it had then is the file it was then. *)
Lemma same_time bytes times bad i j :
  stamped bytes times bad → ¬ bad (bytes j) → (i ≤ j)%nat → default 0 (times j) = default 0 (times i) → i = j.
Proof.
  intros Hs Hb Hij E. pose proof (Hs j) as Hj. pose proof (Hs i) as Hi. destruct (times j) as [t|]; [|done]. simpl in E.
  destruct Hj as [Hz Hj]. destruct (decide (i = j)) as [|Hne]; [done|]. exfalso. apply (Hj i); [lia|].
  destruct (times i) as [t'|]; simpl in E; by subst.
Qed.

End reloader.
Arguments CertReloader : clear implicits.
Arguments pairE : clear implicits.

Section laws.
Context {cert : Type} (certBytes keyBytes : nat → str) (certTime keyTime : nat → option time) (parse : str → str → result str cert).
Abbreviation disk := (on_disk certBytes keyBytes parse).
Abbreviation known := (knows certBytes keyBytes certTime keyTime parse).
Abbreviation tell := (times_tell certBytes keyBytes certTime keyTime parse).

(** One handshake: never an error after a pair was loaded, always a pair of a
    moment, and the one in place if the files stand still and have one and
    their times tell. *)
Lemma current_handshake (r : CertReloader cert) v :
  cr_certFile r ≠ cr_keyFile r → known r v →
  wp (pair_step certBytes keyBytes certTime keyTime parse (cr_certFile r) (cr_keyFile r)) (current r)
    (λ '(c, r') v', later v v' ∧ known r' v' ∧ cr_certFile r' = cr_certFile r ∧ cr_keyFile r' = cr_keyFile r ∧
      (cr_cert r ≠ None → is_ok c = true) ∧ (∀ x, c = Ok x → cr_cert r' = Some x ∧ ∃ read, later read v' ∧ disk read = Ok x) ∧
      (tell → v' = v → ∀ x, disk v = Ok x → c = Ok x)) v.
Proof.
  intros Hne Hr. unfold current, modTimes.
  intros tc v1 (Hl1 & Htc & _) tk v2 (Hl2 & _ & Htk). specialize (Htc eq_refl). specialize (Htk eq_refl). subst tc tk. cbn [prog_bind].
  assert (∀ x v3, later v2 v3 → (∃ read, later v2 read ∧ later read v3 ∧ x = disk read) →
    let '(c, r') := match x, cr_cert r with
      | Err _, Some c => (Ok c, r)
      | Err err, None => (Err (Sanitize.Errorf_args [("loading the ", cr_name r); (" certificate: ", err)]), r)
      | Ok c, _ => (Ok c, mkReloader (cr_name r) (cr_certFile r) (cr_keyFile r) (Some c) (default 0 (certTime v1.1), default 0 (keyTime v2.2)))
      end in
    later v v3 ∧ known r' v3 ∧ cr_certFile r' = cr_certFile r ∧ cr_keyFile r' = cr_keyFile r ∧
      (cr_cert r ≠ None → is_ok c = true) ∧ (∀ x, c = Ok x → cr_cert r' = Some x ∧ ∃ read, later read v3 ∧ disk read = Ok x) ∧
      (tell → v3 = v → ∀ x, disk v = Ok x → c = Ok x)) as Hload.
  { intros x v3 Hl3 (read & Hr1 & Hr2 & ->). assert (later v v3) as Hl by (do 2 (eapply later_trans; [done|]); done).
    assert (v3 = v → read = v) as Hstill by (intros ->; destruct v, v1, v2, read; unfold later in *; simpl in *; f_equal; lia).
    destruct (disk read) as [c|err] eqn:Ed.
    - split_and!; [done| |done..| |].
      + exists (v1.1, v2.2), read. split_and!; [|done..]. unfold later in *. simpl. lia.
      + intros x [= <-]. split; [done|]. by exists read.
      + intros _ Hv x Hx. rewrite <-(Hstill Hv), Ed in Hx. done.
    - destruct (cr_cert r) as [c|] eqn:Er.
      + split_and!; [done|by eapply knows_later|done..| |].
        * intros x [= <-]. split; [done|]. unfold knows in Hr. rewrite Er in Hr. destruct Hr as (u & read' & _ & H2 & H3 & _).
          exists read'. split; [by eapply later_trans|done].
        * intros _ Hv x Hx. rewrite <-(Hstill Hv), Ed in Hx. done.
      + split_and!; [done|by eapply knows_later|done..|].
        intros _ Hv x Hx. rewrite <-(Hstill Hv), Ed in Hx. done. }
  destruct (cr_cert r) as [c|] eqn:Er.
  - destruct (bool_decide _) eqn:Est; [|intros x v3 [Hl3 Hx]; specialize (Hload x v3 Hl3 Hx); by destruct x].
    apply bool_decide_eq_true in Est. pose proof Hr as Hknown. unfold knows in Hknown. rewrite Er in Hknown.
    destruct Hknown as (u & read & Hu & Hrd & Hd & Hat). assert (later v v2) as Hl by (by eapply later_trans).
    split_and!; [done|by eapply knows_later|done..| |].
    + intros x [= <-]. split; [done|]. exists read. split; [by eapply later_trans|done].
    + intros [Hc Hk] Hv x Hx. rewrite Hat in Est. injection Est as E1 E2. subst v2.
      assert (v1 = v) as -> by (destruct v, v1; unfold later in *; simpl in *; f_equal; lia).
      assert (u.1 = v.1 ∧ u.2 = v.2) as [Hu1 Hu2].
      { assert (is_ok (disk v) = true) as Hok by by rewrite Hx. unfold on_disk in Hok.
        split; [apply (same_time certBytes certTime _ u.1 v.1 Hc)|apply (same_time keyBytes keyTime _ u.2 v.2 Hk)];
          try done; try (unfold later in *; lia).
        - intros Hbad. by rewrite Hbad in Hok.
        - intros Hbad. by rewrite Hbad in Hok. }
      assert (read = v) as -> by (destruct v, u, read; unfold later in *; simpl in *; f_equal; lia). by rewrite Hd in Hx.
  - intros x v3 [Hl3 Hx]. specialize (Hload x v3 Hl3 Hx). by destruct x.
Qed.

(** The pair loaded at start, and then [n] handshakes. *)
Definition serve (name certFile keyFile : str) (n : nat) : prog (pairE cert) (result str (list (result str cert) * CertReloader cert)) :=
  let!? r := NewCertReloader name certFile keyFile in
  let! out := handshakes n r in
  Ret (Ok out).

Lemma handshakes_known certFile keyFile n : ∀ r v,
  certFile ≠ keyFile → cr_certFile r = certFile → cr_keyFile r = keyFile →
  known r v → cr_cert r ≠ None →
  wp (pair_step certBytes keyBytes certTime keyTime parse certFile keyFile) (handshakes n r)
    (λ '(cs, r') v', Forall (λ c, is_ok c = true) cs ∧ length cs = n ∧ known r' v' ∧ cr_cert r' ≠ None ∧ cr_certFile r' = certFile ∧ cr_keyFile r' = keyFile) v.
Proof.
  induction n as [|n IH]; intros r v Hne Hcf Hkf Hk Hr; cbn [handshakes]; [by split_and!|].
  apply wp_bind. subst certFile keyFile. eapply wp_mono; [|by apply current_handshake].
  intros [c r'] v' (_ & Hk' & Hcf & Hkf & Hok & Hin & _). specialize (Hok Hr). apply wp_bind.
  assert (cr_cert r' ≠ None) as Hr' by (destruct c as [c|]; [by destruct (Hin c eq_refl) as [-> _]|done]).
  eapply wp_mono; [|by apply IH]. intros [cs r''] v'' (Hcs & <- & ?). by split_and!; [constructor|..]; destruct_and?.
Qed.

(** ** Theorems *)

(** C32: renewals are served, and never an error.  Once the listener has
    started, however the two files are replaced meanwhile - one at a time,
    between a look and a read, or for a while by bytes that are no pair - every
    handshake is given a pair that was on disk.  A handshake during which
    the files stand still and hold a pair is given that very pair, provided a
    file's modification time tells each version from the earlier ones; the
    reloader compares nothing else. *)
Theorem renewals_served name certFile keyFile n v :
  certFile ≠ keyFile →
  let step := pair_step certBytes keyBytes certTime keyTime parse certFile keyFile in
  wp step (serve name certFile keyFile n)
    (λ out v', match out with
      | Err _ => True
      | Ok (cs, r) => Forall (λ c, is_ok c = true) cs ∧ length cs = n ∧
          wp step (current r) (λ '(c, _) v'', (∃ x read, c = Ok x ∧ later read v'' ∧ disk read = Ok x) ∧
            (tell → v'' = v' → ∀ x, disk v' = Ok x → c = Ok x)) v'
      end) v.
Proof.
  intros Hne step. unfold serve, NewCertReloader. apply wp_try, wp_bind.
  eapply wp_mono; [|apply (current_handshake (mkReloader name certFile keyFile None (0, 0)) v Hne Logic.I)].
  intros [[c|err] r] v1 (_ & Hk & Hcf & Hkf & _ & Hin & _); [|done]. cbn [wp]. destruct (Hin c eq_refl) as [Hr _]. cbn in Hcf, Hkf.
  apply wp_bind. eapply wp_mono; [|apply (handshakes_known certFile keyFile n r v1); try done; by rewrite Hr].
  intros [cs r'] v' (Hcs & Hlen & Hk' & Hr' & <- & <-). cbn [wp]. split_and!; [done..|].
  eapply wp_mono; [|by apply current_handshake]. intros [c' r''] v'' (_ & _ & _ & _ & Hok & Hin' & Hstill). specialize (Hok Hr').
  destruct c' as [x|]; [|done]. destruct (Hin' x eq_refl) as (_ & read & ? & ?). split; [by exists x, read|done].
Qed.

End laws.

(** ** Witnesses *)

Definition example_parse (c k : str) : result str str := if bool_decide (k = "key of " +:+ c) then Ok c else Err "tls: private key does not match public key".

Definition example_times (i : nat) : option time := Some (Z.of_nat i + 1).

Lemma example_stamped bytes bad : stamped bytes example_times bad.
Proof. intros i. simpl. split; [lia|]. intros j Hj [= E]. lia. Qed.

Lemma renewals_served_witness :
  let certs i := "pair " +:+ itoa (Z.of_nat i) in
  let keys i := "key of pair " +:+ itoa (Z.of_nat i) in
  let step := pair_step certs keys example_times example_times example_parse "tls.crt" "tls.key" in
  on_disk certs keys example_parse (1, 1)%nat = Ok "pair 1" ∧ is_ok (on_disk certs keys example_parse (1, 0)%nat) = false ∧
  wp step (serve "gateway" "tls.crt" "tls.key" 2)
    (λ out v', match out with
      | Err _ => True
      | Ok (cs, r) => Forall (λ c, is_ok c = true) cs ∧ length cs = 2%nat ∧
          wp step (current r) (λ '(c, _) v'', v'' = v' → ∀ x, on_disk certs keys example_parse v' = Ok x → c = Ok x) v'
      end) (0, 0)%nat.
Proof.
  intros certs keys step. split; [vm_compute; reflexivity|]. split; [vm_compute; reflexivity|].
  eapply wp_mono; [|apply (renewals_served certs keys example_times example_times example_parse "gateway" "tls.crt" "tls.key" 2 (0, 0)%nat);
    discriminate].
  intros [[cs r]|] v'; [|done]. intros (H1 & H2 & H3). split; [exact H1|]. split; [exact H2|].
  eapply wp_mono; [|exact H3]. intros [c r'] v'' [_ H]. apply H. split; apply example_stamped.
Defined.

End Certificates.
