(* ===== verification/Tailer.v ===== *)
(** * Following an analyzer's log, internal/sensor/tailer.go

    [feed] is what the framer does with one answer of ReadSlice, its payload
    without the newline; [Run] is a program over the file, the parser, the
    emitter and the clock.  [opens] bounds the rounds of its loop and [slices]
    the answers one read consumes; a round cut short ends the run as a
    cancelled context does. *)

From Stdlib Require Import Ascii.
From S2P Require Import Prelude GoTime GoString Sanitize Api Observation Analyzers SensorDedup Prog.

Module Tailer.
Import Observation Analyzers SensorDedup.

Definition MaxLineBytes : Z := 1048576.
Definition pollInterval : duration := 250 * millisecond.

Definition newline : ascii := ascii_of_nat 10.

(** ** The framer *)

Inductive slice_end := EndNewline | EndBufferFull | EndEOF | EndError.
Record slice := mkSlice { sl_payload : str; sl_end : slice_end }.

Record lineFramer := mkFramer { lf_prefix : str; lf_discarding : bool }.
Definition new_framer : lineFramer := mkFramer "" false.

Inductive framed := Line (line : str) | LineTooLong | FramedEOF | FramedError.

(** What [read] returns after the slice, if it returns. *)
Definition feed (f : lineFramer) (s : slice) : lineFramer * option framed :=
  if lf_discarding f then
    match sl_end s with
    | EndNewline => (mkFramer (lf_prefix f) false, None)
    | EndBufferFull => (f, None)
    | EndEOF => (f, Some FramedEOF)
    | EndError => (f, Some FramedError)
    end
  else if MaxLineBytes <? slen (lf_prefix f) + slen (sl_payload s) then
    (mkFramer "" (match sl_end s with EndNewline => false | _ => true end), Some LineTooLong)
  else
    let prefix := lf_prefix f +:+ sl_payload s in
    match sl_end s with
    | EndNewline => (mkFramer "" false, Some (Line prefix))
    | EndBufferFull => (mkFramer prefix false, None)
    | EndEOF => (mkFramer prefix false, Some FramedEOF)
    | EndError => (mkFramer prefix false, Some FramedError)
    end.

Definition abandon (f : lineFramer) : bool * lineFramer := (negb (bool_decide (lf_prefix f = "")), new_framer).

(** ** The tailer *)

Inductive RecordResult := ResultAccepted | ResultUnsupported | ResultMalformed.

Inductive tailE : Type → Type :=
  | ContextDone : tailE bool
  | OpenLog : tailE (result str Z)
  | ReadSlice : tailE slice
  | Rotated (inode : Z) : tailE bool
  | Close : tailE unit
  | Sleep (d : duration) : tailE bool
  | Parse (line : str) : tailE (result record_error (option Observation))
  | Emit (obs : Observation) (duplication : str) : tailE (result str unit)
  | Now : tailE time
  | OnAccept : tailE unit
  | OnReject (res : RecordResult) (fingerprint : str) : tailE unit.

(** [tl_Duplicates] is the cache, if there is one. *)
Record Tailer := mkTailer {
  tl_accepted : Z;
  tl_unsupported : Z;
  tl_malformed : Z;
  tl_lastRecord : Z;
  tl_Duplicates : option DuplicateCache;
}.

Definition duplication_text (d : DuplicationState) : str :=
  match d with DuplicationUnknown => "Unknown" | DuplicationNotDetected => "NotDetected" | DuplicationSuspected => "Suspected" end.

Definition LastRecord (t : Tailer) : option time :=
  if tl_lastRecord t =? 0 then None else Some (unix_to_zero * second + tl_lastRecord t).

Definition reject (t : Tailer) (res : RecordResult) (fingerprint : str) : prog tailE Tailer :=
  let t := match res with
           | ResultUnsupported =>
               mkTailer (tl_accepted t) (wrap64 (tl_unsupported t + 1)) (tl_malformed t) (tl_lastRecord t) (tl_Duplicates t)
           | _ => mkTailer (tl_accepted t) (tl_unsupported t) (wrap64 (tl_malformed t + 1)) (tl_lastRecord t) (tl_Duplicates t)
           end in
  let! _ := call (OnReject res fingerprint) in
  Ret t.

(** The marker of a record, and the cache after it. *)
Definition mark (t : Tailer) (obs : Observation) : str * Tailer :=
  match tl_Duplicates t with
  | None => ("", t)
  | Some c =>
      let '(d, c) := Mark c obs in
      (duplication_text d, mkTailer (tl_accepted t) (tl_unsupported t) (tl_malformed t) (tl_lastRecord t) (Some c))
  end.

Section tailer.
Context (valid : Observation → bool).

(** A line that became an observation. *)
Definition process_observation (t : Tailer) (line : str) (obs : Observation) : prog tailE Tailer :=
  match Normalize obs with
  | Err _ => reject t ResultMalformed (Sanitize.DiagnosticHash line)
  | Ok obs =>
      if negb (valid obs) then reject t ResultMalformed (Sanitize.DiagnosticHash line) else
      let '(duplication, t) := mark t obs in
      let! res := call (Emit obs duplication) in
      match res with
      | Err _ => reject t ResultMalformed (Sanitize.DiagnosticHash "emit-failure")
      | Ok _ =>
          let! now := call Now in
          let! _ := call OnAccept in
          Ret (mkTailer (wrap64 (tl_accepted t + 1)) (tl_unsupported t) (tl_malformed t) (t_unix_nano now) (tl_Duplicates t))
      end
  end.

Definition process (t : Tailer) (line : str) : prog tailE Tailer :=
  if bool_decide (line = "") then Ret t else
  let! parsed := call (Parse line) in
  match parsed with
  | Err e =>
      reject t (match e with Unsupported _ => ResultUnsupported | Malformed _ => ResultMalformed end) (Sanitize.DiagnosticHash line)
  | Ok None => Ret t
  | Ok (Some obs) => process_observation t line obs
  end.

(** [framer.read]; nothing when cut short. *)
Fixpoint read (slices : nat) (f : lineFramer) : prog tailE (option framed * lineFramer) :=
  match slices with
  | O => Ret (None, f)
  | S slices =>
      let! s := call ReadSlice in
      let '(f, res) := feed f s in
      match res with Some r => Ret (Some r, f) | None => read slices f end
  end.

(** The rejection of a partial record, if the framer held one. *)
Definition drop_partial (t : Tailer) (f : lineFramer) (reason : str) : prog tailE (Tailer * lineFramer) :=
  let '(incomplete, f) := abandon f in
  let! t := (if incomplete then reject t ResultMalformed (Sanitize.DiagnosticHash reason) else Ret t) in
  Ret (t, f).

(** [file] is the inode of the open file. *)
Fixpoint run_loop (opens slices : nat) (t : Tailer) (f : lineFramer) (file : option Z) : prog tailE Tailer :=
  match opens with
  | O => Ret t
  | S opens =>
      let! done := call ContextDone in
      if done : bool then Ret t else
      let! opened := (match file with
                      | Some inode => Ret (Some inode)
                      | None => let! res := call OpenLog in Ret (match res with Ok inode => Some inode | Err _ => None end)
                      end) in
      match opened with
      | None => let! slept := call (Sleep pollInterval) in if slept : bool then run_loop opens slices t f None else Ret t
      | Some inode =>
          let! (res, f) := read slices f in
          match res with
          | None => Ret t
          | Some (Line line) => let! t := process t line in run_loop opens slices t f (Some inode)
          | Some LineTooLong =>
              let! t := reject t ResultMalformed (Sanitize.DiagnosticHash "oversized-line") in run_loop opens slices t f (Some inode)
          | Some FramedEOF =>
              let! rotated := call (Rotated inode) in
              if rotated : bool then
                let! (t, f) := drop_partial t f "partial-line-at-rotation" in
                let! _ := call Close in
                run_loop opens slices t f None
              else let! slept := call (Sleep pollInterval) in if slept : bool then run_loop opens slices t f (Some inode) else Ret t
          | Some FramedError =>
              let! (t, f) := drop_partial t f "partial-line-at-read-error" in
              let! _ := call Close in
              let! slept := call (Sleep pollInterval) in if slept : bool then run_loop opens slices t f None else Ret t
          end
      end
  end.

Definition Run (opens slices : nat) (t : Tailer) : prog tailE Tailer := run_loop opens slices t new_framer None.

End tailer.

(** ** The reference

    The bytes of the file so far, whatever the slices they were read in; its
    complete physical lines and what follows the last newline. *)
Definition nl : str := String newline "".

Definition bytes_of (s : slice) : str := sl_payload s +:+ match sl_end s with EndNewline => nl | _ => "" end.

Definition data_of (slices : list slice) : str := foldl (λ d s, d +:+ bytes_of s) "" slices.

Fixpoint physical (d : str) : list str * str :=
  match d with
  | "" => ([], "")
  | String c d =>
      let '(ls, rest) := physical d in
      if bool_decide (c = newline) then ("" :: ls, rest)
      else match ls with [] => ([], String c rest) | l :: ls => (String c l :: ls, rest) end
  end.

Definition fits (l : str) : bool := slen l <=? MaxLineBytes.

Definition classify (l : str) : framed := if fits l then Line l else LineTooLong.

(** What the framer reports of the bytes so far: every line once, an oversized
    one as such, which it is as soon as it is. *)
Definition reports (d : str) : list framed :=
  let '(ls, rest) := physical d in map classify ls ++ (if fits rest then [] else [LineTooLong]).

Definition framer_at (d : str) : lineFramer :=
  let rest := (physical d).2 in if fits rest then mkFramer rest false else mkFramer "" true.

Definition is_report (r : framed) : bool := match r with Line _ | LineTooLong => true | _ => false end.

(** The slices fed one after the other: what was returned, ends aside. *)
Fixpoint feeds (f : lineFramer) (slices : list slice) : list framed * lineFramer :=
  match slices with
  | [] => ([], f)
  | s :: slices =>
      let '(f, r) := feed f s in
      let '(rs, f) := feeds f slices in
      ((match r with Some r => if is_report r then [r] else [] | None => [] end) ++ rs, f)
  end.

(** A slice holds no newline but the one it may end with. *)
Definition honest_slice (s : slice) : Prop := lacks newline (sl_payload s) = true.

(** ** Lemmas *)

Lemma physical_app a b :
  physical (a +:+ b) =
  let '(la, ra) := physical a in let '(lb, rb) := physical b in
  match lb with [] => (la, ra +:+ rb) | l :: lb => (la ++ (ra +:+ l) :: lb, rb) end.
Proof.
  induction a as [|c a IH]; simpl.
  - destruct (physical b) as [[|l lb] rb]; done.
  - rewrite IH. destruct (physical a) as [la ra], (physical b) as [lb rb].
    by destruct (bool_decide (c = newline)), lb as [|l lb], la as [|x la].
Qed.

Lemma physical_lacks p : lacks newline p = true → physical p = ([], p).
Proof.
  induction p as [|c p IH]; simpl; [done|]. unfold lacks. simpl. intros [Hc Hp]%andb_prop.
  rewrite IH by exact Hp. apply negb_true_iff, bool_decide_eq_false in Hc. by rewrite bool_decide_eq_false_2 by congruence.
Qed.

Lemma physical_slice d s :
  honest_slice s →
  physical (d +:+ bytes_of s) =
  let '(ls, rest) := physical d in
  match sl_end s with EndNewline => (ls ++ [rest +:+ sl_payload s], "") | _ => (ls, rest +:+ sl_payload s) end.
Proof.
  intros Hs. rewrite physical_app. destruct (physical d) as [ls rest]. unfold bytes_of.
  destruct (sl_end s); [rewrite physical_app, (physical_lacks _ Hs); change (physical nl) with ([""], ""); cbn match; rewrite str_app_nil_r; done|by rewrite str_app_nil_r, (physical_lacks _ Hs)..].
Qed.

Lemma fits_app a b : fits (a +:+ b) = true → fits a = true.
Proof. unfold fits. rewrite slen_app. pose proof (slen_nonneg b). lia. Qed.

(** What a slice adds: nothing, or one report, and the ends say so. *)
Definition added (r : option framed) : list framed :=
  match r with Some r => if is_report r then [r] else [] | None => [] end.

(** One slice, from the framer of the bytes before it. *)
Lemma feed_at d s :
  honest_slice s →
  (feed (framer_at d) s).1 = framer_at (d +:+ bytes_of s) ∧
  reports (d +:+ bytes_of s) = reports d ++ added (feed (framer_at d) s).2.
Proof.
  intros Hs. unfold reports, framer_at. rewrite (physical_slice d s Hs). destruct (physical d) as [ls rest]. cbn [snd].
  destruct (fits rest) eqn:Ef.
  - unfold feed. cbn [lf_discarding lf_prefix]. rewrite <-slen_app. pose proof (fits_app rest (sl_payload s)) as Hp.
    destruct (Z.ltb_spec MaxLineBytes (slen (rest +:+ sl_payload s))) as [Hlt|Hle].
    + assert (fits (rest +:+ sl_payload s) = false) as Hl by (unfold fits; lia).
      destruct (sl_end s); cbn [snd fst added is_report]; rewrite ?Hl; [|by rewrite ?app_nil_r..].
      split; [done|]. rewrite map_app. cbn [map]. unfold classify. by rewrite Hl, !app_nil_r.
    + assert (fits (rest +:+ sl_payload s) = true) as Hl by (unfold fits; lia).
      destruct (sl_end s); cbn [snd fst added is_report]; rewrite ?Hl, ?app_nil_r; [|done..].
      split; [done|]. rewrite map_app. cbn [map]. unfold classify. by rewrite Hl, ?app_nil_r.
  - assert (fits (rest +:+ sl_payload s) = false) as Hl.
    { destruct (fits (rest +:+ sl_payload s)) eqn:E; [|done]. apply fits_app in E. congruence. }
    unfold feed. cbn [lf_discarding lf_prefix]. destruct (sl_end s); cbn [snd fst added is_report]; rewrite ?Hl, ?app_nil_r; [|done..].
    split; [done|]. rewrite map_app. cbn [map]. unfold classify. by rewrite Hl, ?app_nil_r.
Qed.

Lemma feeds_at slices : ∀ d,
  Forall honest_slice slices →
  (feeds (framer_at d) slices).2 = framer_at (foldl (λ d s, d +:+ bytes_of s) d slices) ∧
  reports (foldl (λ d s, d +:+ bytes_of s) d slices) = reports d ++ (feeds (framer_at d) slices).1.
Proof.
  induction slices as [|s slices IH]; intros d Hs; cbn [feeds foldl]; [by rewrite app_nil_r|].
  apply Forall_cons in Hs as [Hs Hss]. destruct (feed_at d s Hs) as [H1 H2]. destruct (feed (framer_at d) s) as [f r]. cbn [fst snd] in *.
  subst f. destruct (IH (d +:+ bytes_of s) Hss) as [H3 H4]. destruct (feeds (framer_at (d +:+ bytes_of s)) slices) as [rs f']. cbn [fst snd] in *.
  split; [done|]. by rewrite H4, H2, <-app_assoc.
Qed.

Lemma framer_at_bounded d : slen (lf_prefix (framer_at d)) ≤ MaxLineBytes.
Proof. unfold framer_at. destruct (fits (physical d).2) eqn:Ef; simpl; [unfold fits in Ef; lia|done]. Qed.

(** ** What a run accounts for

    The bytes read from the open file, the records due from the files closed,
    and what became of every one: parsed to nothing, emitted or failed; the
    rejections of lines that were never parsed; and the rejections reported. *)
Record account := mkAccount {
  ac_data : str;
  ac_due : list str;
  ac_structural : nat;
  ac_parsed : list str;
  ac_consumed : nat;
  ac_emitted : nat;
  ac_failed : nat;
  ac_unsupported : nat;
  ac_malformed : nat;
}.

Definition no_account : account := mkAccount "" [] 0 [] 0 0 0 0 0.

(** The lines to be parsed, and those too long to be. *)
Definition record_of (r : framed) : option str :=
  match r with Line l => if bool_decide (l = "") then None else Some l | _ => None end.
Definition records (d : str) : list str := omap record_of (reports d).
Definition too_long (r : framed) : bool := match r with LineTooLong => true | _ => false end.
Definition oversized (d : str) : nat := length (List.filter too_long (reports d)).
Definition partial (d : str) : nat := if negb (bool_decide (lf_prefix (framer_at d) = "")) then 1 else 0.

Definition with_data (a : account) (d : str) : account :=
  mkAccount d (ac_due a) (ac_structural a) (ac_parsed a) (ac_consumed a) (ac_emitted a) (ac_failed a) (ac_unsupported a) (ac_malformed a).
Definition closed (a : account) : account :=
  mkAccount "" (ac_due a ++ records (ac_data a)) (ac_structural a + oversized (ac_data a) + partial (ac_data a)) (ac_parsed a)
    (ac_consumed a) (ac_emitted a) (ac_failed a) (ac_unsupported a) (ac_malformed a).
Definition with_counts (a : account) (parsed : list str) (consumed emitted failed : nat) : account :=
  mkAccount (ac_data a) (ac_due a) (ac_structural a) (ac_parsed a ++ parsed) (ac_consumed a + consumed) (ac_emitted a + emitted)
    (ac_failed a + failed) (ac_unsupported a) (ac_malformed a).
Definition rejected (a : account) (res : RecordResult) : account :=
  mkAccount (ac_data a) (ac_due a) (ac_structural a) (ac_parsed a) (ac_consumed a) (ac_emitted a) (ac_failed a)
    (ac_unsupported a + match res with ResultUnsupported => 1 | _ => 0 end)
    (ac_malformed a + match res with ResultUnsupported => 0 | _ => 1 end).

Definition honest (X : Type) (e : tailE X) : X → Prop :=
  match e with ReadSlice => honest_slice | _ => λ _, True end.

Section accounts.
Context (valid : Observation → bool).

Definition acceptable (obs : Observation) : bool := match Normalize obs with Ok obs => valid obs | Err _ => false end.

Definition track (X : Type) (e : tailE X) : X → account → account :=
  match e in tailE X return X → account → account with
  | OpenLog => λ x a, if is_ok x then with_data a "" else a
  | ReadSlice => λ s a, with_data a (ac_data a +:+ bytes_of s)
  | Close => λ _, closed
  | Parse line => λ x a,
      match x with
      | Err _ => with_counts a [line] 0 0 1
      | Ok None => with_counts a [line] 1 0 0
      | Ok (Some obs) => with_counts a [line] 0 0 (if acceptable obs then 0 else 1)
      end
  | Emit _ _ => λ x a, if is_ok x then with_counts a [] 0 1 0 else with_counts a [] 0 0 1
  | OnReject res _ => λ _ a, rejected a res
  | _ => λ _ a, a
  end.

(** Every record due has been parsed, in order, and every failure reported. *)
Definition balanced (a : account) : Prop :=
  ac_parsed a = ac_due a ++ records (ac_data a) ∧
  (ac_unsupported a + ac_malformed a = ac_failed a + ac_structural a + oversized (ac_data a))%nat ∧
  (length (ac_parsed a) = ac_consumed a + ac_failed a + ac_emitted a)%nat.

(** What the tailer may do: read on when all is accounted for, parse a record
    that fits, and emit what the contract accepts. *)
Definition accounts (X : Type) (e : tailE X) (a : account) : Prop :=
  match e with
  | ReadSlice | OpenLog => balanced a
  | Parse line => line ≠ "" ∧ fits line = true
  | Emit obs _ => Normalize obs = Ok obs ∧ valid obs = true
  | _ => True
  end.

Definition tallies (t : Tailer) (a : account) : Prop :=
  tl_accepted t = wrap64 (Z.of_nat (ac_emitted a)) ∧ tl_unsupported t = wrap64 (Z.of_nat (ac_unsupported a)) ∧
  tl_malformed t = wrap64 (Z.of_nat (ac_malformed a)).

(** ** Lemmas *)

Lemma wrap64_succ z : wrap64 (wrap64 z + 1) = wrap64 (z + 1).
Proof.
  unfold wrap64, wrap. f_equal. set (h := 2 ^ (64 - 1)).
  replace ((z + h) mod 2 ^ 64 - h + 1 + h) with ((z + h) mod 2 ^ 64 + 1) by lia.
  rewrite Z.add_mod_idemp_l by done. f_equal. lia.
Qed.

Lemma wrap64_S n m : m = S n → wrap64 (wrap64 (Z.of_nat n) + 1) = wrap64 (Z.of_nat m).
Proof. intros ->. rewrite wrap64_succ. f_equal. lia. Qed.

Lemma Normalize_idem obs obs' : Normalize obs = Ok obs' → Normalize obs' = Ok obs'.
Proof.
  unfold Normalize. destruct (TypeOf (ob_Details obs)) as [ty [|]] eqn:Et; [|done]. simpl.
  set (t := if is_none _ then _ else _). destruct (bool_decide (t = ty)) eqn:Eb; [|done]. simpl.
  destruct (is_zero (ob_EventTime obs)) eqn:E1; [done|]. destruct (is_zero (ob_ObservedAt obs)) eqn:E2; [done|]. intros [= <-]. simpl.
  rewrite Et, E1, E2. simpl. apply bool_decide_eq_true in Eb. rewrite Eb. by destruct (is_none ty); rewrite bool_decide_eq_true_2.
Qed.

Lemma reject_accounts t res fp a (Q : Tailer → account → Prop) :
  tallies t a → (∀ t', tallies t' (rejected a res) → Q t' (rejected a res)) →
  conforms honest accounts track (reject t res fp) Q a.
Proof.
  intros (H1 & H2 & H3) HQ. split; [done|]. intros [] _. apply HQ.
  destruct res; (split_and!; simpl; [done|..]); rewrite ?Nat.add_0_r; try done; rewrite ?H2, ?H3; apply wrap64_S; lia.
Qed.

(** What became of a line: the account but for the line and the one thing it
    became. *)
Record settled (a a' : account) (line : str) : Prop := {
  se_data : ac_data a' = ac_data a;
  se_due : ac_due a' = ac_due a;
  se_structural : ac_structural a' = ac_structural a;
  se_parsed : ac_parsed a' = ac_parsed a ++ (if bool_decide (line = "") then [] else [line]);
  se_rejected : (ac_unsupported a' + ac_malformed a' + ac_failed a = ac_unsupported a + ac_malformed a + ac_failed a')%nat;
  se_counted : (ac_consumed a' + ac_failed a' + ac_emitted a' =
    ac_consumed a + ac_failed a + ac_emitted a + (if bool_decide (line = "") then 0 else 1))%nat;
}.

Lemma process_accounts t line a (Q : Tailer → account → Prop) :
  fits line = true → tallies t a → (∀ t' a', tallies t' a' → settled a a' line → Q t' a') →
  conforms honest accounts track (process valid t line) Q a.
Proof.
  intros Hfit Ht HQ. unfold process. case_bool_decide as Hl.
  { apply HQ; [done|]. split; rewrite ?bool_decide_eq_true_2, ?app_nil_r by done; lia || done. }
  assert (∀ a', ac_data a' = ac_data a → ac_due a' = ac_due a → ac_structural a' = ac_structural a → ac_parsed a' = ac_parsed a ++ [line] →
    (ac_unsupported a' + ac_malformed a' + ac_failed a = ac_unsupported a + ac_malformed a + ac_failed a')%nat →
    (ac_consumed a' + ac_failed a' + ac_emitted a' = ac_consumed a + ac_failed a + ac_emitted a + 1)%nat → settled a a' line) as Hse.
  { intros. split; rewrite ?bool_decide_eq_false_2 by done; done. }
  assert (∀ a0 e m p, tallies t a0 → tallies (mkTailer (tl_accepted t) (tl_unsupported t) (tl_malformed t) p m) (with_counts a0 e 0 0 0)) as Hmark.
  { intros a0 e m p (? & ? & ?). by split_and!; simpl; rewrite ?Nat.add_0_r. }
  assert (∀ a0 p c f, tallies t a0 → tallies t (with_counts a0 p c 0 f)) as Hpar.
  { intros a0 p c f (? & ? & ?). by split_and!; simpl; rewrite ?Nat.add_0_r. }
  apply conforms_call; [by split|]. intros [[obs|]|e] _; cbn [track].
  - unfold process_observation, acceptable. destruct (Normalize obs) as [obs'|] eqn:En.
    2: { apply reject_accounts; [by apply Hpar|]. intros t' Ht'. apply HQ; [done|]. apply Hse; simpl; done || lia. }
    destruct (valid obs') eqn:Ev; cbn [negb].
    2: { apply reject_accounts; [by apply Hpar|]. intros t' Ht'. apply HQ; [done|]. apply Hse; simpl; done || lia. }
    assert (∃ d m, mark t obs' = (d, mkTailer (tl_accepted t) (tl_unsupported t) (tl_malformed t) (tl_lastRecord t) m)) as (d & m & ->).
    { unfold mark. destruct (tl_Duplicates t) as [c|] eqn:Ed; [destruct (Mark c obs') as [d c']; eauto|]. exists "", None. rewrite <-Ed. by destruct t. }
    apply conforms_call; [split; [by eapply Normalize_idem|done]|]. intros [[]|e] _; cbn [track is_ok].
    + apply conforms_call; [done|]. intros now _. apply conforms_call; [done|]. intros [] _. apply HQ.
      * destruct Ht as (H1 & H2 & H3). split_and!; simpl; rewrite ?Nat.add_0_r, ?H1; [apply wrap64_S; lia|done..].
      * apply Hse; simpl; rewrite ?app_nil_r; done || lia.
    + apply reject_accounts.
      { destruct Ht as (H1 & H2 & H3). by split_and!; simpl; rewrite ?Nat.add_0_r. }
      intros t' Ht'. apply HQ; [done|]. apply Hse; simpl; rewrite ?app_nil_r; done || lia.
  - apply HQ; [by apply Hpar|]. apply Hse; simpl; done || lia.
  - apply reject_accounts; [by apply Hpar|]. intros t' Ht'. apply HQ; [done|]. destruct e; apply Hse; simpl; done || lia.
Qed.

(** The reports of the bytes a slice adds, as records and oversized lines. *)
Lemma records_added d d' r : reports d' = reports d ++ added r → records d' = records d ++ omap record_of (added r).
Proof. unfold records. intros ->. apply omap_app. Qed.

Lemma oversized_added d d' r : reports d' = reports d ++ added r → oversized d' = (oversized d + length (List.filter too_long (added r)))%nat.
Proof. unfold oversized. intros ->. by rewrite List.filter_app, length_app. Qed.

Lemma feed_fits d s l : honest_slice s → (feed (framer_at d) s).2 = Some (Line l) → fits l = true.
Proof.
  unfold framer_at, feed. intros Hs. destruct (fits (physical d).2); cbn [lf_discarding lf_prefix]; [|by destruct (sl_end s)].
  rewrite <-slen_app. destruct (Z.ltb_spec MaxLineBytes (slen ((physical d).2 +:+ sl_payload s))); [done|].
  destruct (sl_end s); try done. simpl. intros [= <-]. unfold fits. lia.
Qed.

Lemma read_accounts slices : ∀ f a (Q : option framed * lineFramer → account → Prop),
  f = framer_at (ac_data a) → balanced a →
  (∀ r d, reports d = reports (ac_data a) ++ added r → (∀ l, r = Some (Line l) → fits l = true) →
    Q (r, framer_at d) (with_data a d)) →
  conforms honest accounts track (read slices f) Q a.
Proof.
  induction slices as [|slices IH]; intros f a Q -> Hb HQ; cbn [read].
  { replace a with (with_data a (ac_data a)) at 2 by (by destruct a). apply HQ; [by rewrite app_nil_r|done]. }
  apply conforms_call; [exact Hb|]. intros s Hs. destruct (feed_at (ac_data a) s Hs) as [H1 H2].
  pose proof (feed_fits (ac_data a) s) as Hfit. destruct (feed (framer_at (ac_data a)) s) as [f r]. cbn [fst snd track] in *. subst f.
  destruct r as [r|].
  - simpl. apply (HQ (Some r)); [done|]. intros l [= ->]. by apply Hfit.
  - rewrite app_nil_r in H2. apply IH; [done| |].
    + destruct Hb as (B1 & B2 & B3). unfold balanced, records, oversized in *. simpl. by rewrite H2.
    + intros r d Hr Hl. rewrite <-H2 in HQ. by apply (HQ r d).
Qed.

Lemma drop_partial_accounts t f reason a (Q : Tailer * lineFramer → account → Prop) :
  f = framer_at (ac_data a) → tallies t a →
  (∀ t' a', tallies t' a' → ac_data a' = ac_data a → ac_due a' = ac_due a → ac_structural a' = ac_structural a → ac_parsed a' = ac_parsed a →
    (ac_unsupported a' + ac_malformed a' = ac_unsupported a + ac_malformed a + partial (ac_data a))%nat → ac_failed a' = ac_failed a →
    ac_consumed a' = ac_consumed a → ac_emitted a' = ac_emitted a → Q (t', new_framer) a') →
  conforms honest accounts track (drop_partial t f reason) Q a.
Proof.
  intros -> Ht HQ. unfold drop_partial, abandon. cbn match. unfold partial in HQ.
  destruct (negb (bool_decide (lf_prefix (framer_at (ac_data a)) = ""))); cbn match.
  - apply conforms_bind, reject_accounts; [done|]. intros t' Ht'. apply HQ; simpl; done || lia.
  - apply HQ; done || lia.
Qed.

Lemma closed_balanced a a' :
  balanced a → ac_data a' = ac_data a → ac_due a' = ac_due a → ac_structural a' = ac_structural a → ac_parsed a' = ac_parsed a →
  (ac_unsupported a' + ac_malformed a' = ac_unsupported a + ac_malformed a + partial (ac_data a))%nat → ac_failed a' = ac_failed a →
  ac_consumed a' = ac_consumed a → ac_emitted a' = ac_emitted a → balanced (closed a').
Proof.
  intros (B1 & B2 & B3) E1 E2 E3 E4 E5 E6 E7 E8. unfold balanced, closed. simpl. rewrite E1, E2, E3, E4, E6, E7, E8.
  change (records "") with (@nil str). change (oversized "") with 0%nat. rewrite app_nil_r. split_and!; [done|lia|done].
Qed.

(** The accounts when the run ends: cut short by the context, all balanced, or
    cut short within a read. *)
Definition accounted (t : Tailer) (a : account) : Prop := balanced a ∧ tallies t a.

Lemma run_loop_accounts opens slices : ∀ t f file a,
  f = framer_at (ac_data a) → (file = None → ac_data a = "") → balanced a → tallies t a →
  conforms honest accounts track (run_loop valid opens slices t f file) accounted a.
Proof.
  induction opens as [|opens IH]; intros t f file a Hf Hfile Hb Ht; cbn [run_loop]; [done|].
  apply conforms_call; [done|]. intros [|] _; [done|]. cbn [track].
  assert (∀ inode, conforms honest accounts track
    (let! (res, f) := read slices f in
     match res with
     | None => Ret t
     | Some (Line line) => let! t := process valid t line in run_loop valid opens slices t f (Some inode)
     | Some LineTooLong =>
         let! t := reject t ResultMalformed (Sanitize.DiagnosticHash "oversized-line") in run_loop valid opens slices t f (Some inode)
     | Some FramedEOF =>
         let! rotated := call (Rotated inode) in
         if rotated : bool then
           let! (t, f) := drop_partial t f "partial-line-at-rotation" in
           let! _ := call Close in
           run_loop valid opens slices t f None
         else let! slept := call (Sleep pollInterval) in if slept : bool then run_loop valid opens slices t f (Some inode) else Ret t
     | Some FramedError =>
         let! (t, f) := drop_partial t f "partial-line-at-read-error" in
         let! _ := call Close in
         let! slept := call (Sleep pollInterval) in if slept : bool then run_loop valid opens slices t f None else Ret t
     end) accounted a) as Hread.
  { intros inode. apply conforms_bind, read_accounts; [done..|]. intros r d Hr Hfit.
    pose proof (records_added _ _ _ Hr) as Hrec. pose proof (oversized_added _ _ _ Hr) as Hov. destruct Hb as (B1 & B2 & B3).
    assert (∀ P, tallies P a → tallies P (with_data a d)) as Hdata by done.
    destruct r as [[line| | |]|]; cbn [added is_report omap list_omap record_of List.filter too_long length] in *;
      rewrite ?app_nil_r, ?Nat.add_0_r in *.
    - apply conforms_bind, process_accounts; [by apply Hfit|by apply Hdata|]. intros t' a' Ht' [S1 S2 S3 S4 S5 S6].
      apply IH; [by rewrite S1|done| |done]. cbn in Hrec, S5, S6. unfold balanced. rewrite S1, S2, S3, S4. simpl. rewrite Hov, Hrec, B1.
      split_and!; [|lia|].
      + case_bool_decide; by rewrite <-?app_assoc, ?app_nil_r.
      + rewrite <-B1, length_app, B3. case_bool_decide; simpl; lia.
    - apply conforms_bind, reject_accounts; [by apply Hdata|]. intros t' Ht'. apply IH; [done|done| |done].
      unfold balanced. simpl. rewrite Hov, Hrec, B1. cbn. rewrite B1 in B3. split_and!; [done|lia|done].
    - apply conforms_call; [done|]. intros [|] _.
      + apply conforms_bind, drop_partial_accounts; [done|by apply Hdata|]. intros t' a' Ht' E1 E2 E3 E4 E5 E6 E7 E8.
        apply conforms_call; [done|]. intros [] _. apply IH; [done|done| |done].
        eapply (closed_balanced (with_data a d)); [|done..]. unfold balanced. simpl. by rewrite Hrec, Hov.
      + apply conforms_call; [done|]. intros [|] _; [apply IH; [done|done| |done]|split; [|done]]; unfold balanced; simpl; by rewrite Hrec, Hov.
    - apply conforms_bind, drop_partial_accounts; [done|by apply Hdata|]. intros t' a' Ht' E1 E2 E3 E4 E5 E6 E7 E8.
      assert (balanced (closed a')) as Hcl.
      { eapply (closed_balanced (with_data a d)); [|done..]. unfold balanced. simpl. by rewrite Hrec, Hov. }
      apply conforms_call; [done|]. intros [] _. apply conforms_call; [done|]. intros [|] _; [by apply IH|done].
    - split; [|done]. unfold balanced. simpl. by rewrite Hrec, Hov. }
  destruct file as [inode|]; [apply Hread|].
  apply conforms_call; [done|]. intros [inode|e] _; cbn [track is_ok].
  - specialize (Hfile eq_refl). replace (with_data a "") with a by (destruct a; simpl in *; by subst). apply Hread.
  - apply conforms_call; [done|]. intros [|] _; [by apply IH|done].
Qed.

End accounts.
(** ** A writer that rotates

    The lines of the open file not yet read, and those the analyzer writes to it
    between the reader's end of file and its look at the path, by which time
    the file has been renamed. *)
Record logfile := mkLogfile { lg_unread : list str; lg_late : list str }.

Definition rotating (X : Type) (e : tailE X) (w : logfile) : option (X * logfile) :=
  match e in tailE X return option (X * logfile) with
  | ContextDone => Some (false, w)
  | OpenLog => Some (Ok 1, w)
  | ReadSlice =>
      match lg_unread w with
      | [] => Some (mkSlice "" EndEOF, w)
      | l :: ls => Some (mkSlice l EndNewline, mkLogfile ls (lg_late w))
      end
  | Rotated _ => Some (true, mkLogfile (lg_unread w ++ lg_late w) [])
  | Close => Some (tt, mkLogfile [] (lg_late w))
  | Sleep _ => Some (true, w)
  | Parse _ => Some (Ok None, w)
  | Emit _ _ => Some (Ok tt, w)
  | Now => Some (0, w)
  | OnAccept | OnReject _ _ => Some (tt, w)
  end.

(** ** Theorems *)

(** C26: lines, not reads.  However the bytes of a file are cut into reads - by
    the buffer, by the writer, by polls at the end of the file - the framer
    reports every physical line once and in order, a line over the bound as
    such and exactly once, as soon as it is; it holds the unfinished line and
    never more than the bound. *)
Theorem framing_reference slices :
  Forall honest_slice slices →
  (feeds new_framer slices).1 = reports (data_of slices) ∧
  (feeds new_framer slices).2 = framer_at (data_of slices) ∧
  slen (lf_prefix (feeds new_framer slices).2) ≤ MaxLineBytes.
Proof.
  intros Hs. destruct (feeds_at slices "" Hs) as [H1 H2]. change (framer_at "") with new_framer in *. change (reports "") with (@nil framed) in H2.
  unfold data_of. rewrite H1. split_and!; [by rewrite H2|done|apply framer_at_bounded].
Qed.

(** C23: every record read is accounted for.  Of the bytes that each opening of
    the log hands to the reader, whatever the parser and the emitter answer:
    before the tailer reads on or opens the log again, every complete line
    among them that is neither empty nor too long has been parsed, in order
    and once; each came to nothing, was emitted, or failed; and the rejections
    reported are the failures, the oversized lines and the partial lines of
    files closed.  Only lines that fit are parsed, only observations the
    contract accepts are emitted, and at the end the counters are those
    numbers.  An account is of what was read: after a read error the log is
    read from its start and its lines are parsed once more, and what a rotation
    leaves unread ([rotation_drops_tail]) is in no account. *)
Theorem records_accounted valid opens slices duplicates :
  conforms honest (accounts valid) (track valid) (Run valid opens slices (mkTailer 0 0 0 0 duplicates)) accounted no_account.
Proof. by apply run_loop_accounts. Qed.

(** the end of a rotated file is not read.  Whatever the analyzer writes
    between the tailer's end of file and its look at the path, before it
    renames the file, is still unread when the file is closed; it is neither
    parsed nor counted, and the tailer goes on with the new file. *)
Theorem rotation_drops_tail valid opens slices t late :
  ∃ k, advance rotating 4 (Run valid (S opens) (S slices) t) (mkLogfile [] late) = Some (Vis Close k, mkLogfile late []) ∧
    k tt = run_loop valid opens (S slices) t new_framer None.
Proof. eexists. split; reflexivity. Qed.

(** ** Witnesses *)

(** A line in three reads, the last two a poll apart, and the start of
    another. *)
Definition example_slices : list slice :=
  [mkSlice "{" EndBufferFull; mkSlice "}" EndEOF; mkSlice "" EndNewline; mkSlice "{ " EndEOF].

Lemma framing_reference_witness :
  data_of example_slices = "{}" +:+ nl +:+ "{ " ∧ (feeds new_framer example_slices).1 = [Line "{}"] ∧
  (feeds new_framer example_slices).1 = reports (data_of example_slices).
Proof.
  split; [reflexivity|]. split; [vm_compute; reflexivity|].
  refine (proj1 (framing_reference example_slices _)). repeat constructor.
Defined.

End Tailer.
