(* ===== verification/SensorAgent.v ===== *)
(** * The sensor's report, internal/sensor/status_reporter.go and cmd/sensor-agent

    The reporter is written against what an analyzer's observer promises, a
    class here as it is an interface there; the agent's observer, which sums an
    analyzer's tailers, is its instance.  The version file, the content status
    and the clock are arguments. *)

From Stdlib Require Import Ascii.
From S2P Require Import Prelude GoTime GoString Utf8 Sha256 RecordID Sanitize Api Observation Analyzers SensorDedup PacketMeter Content Tailer.

Module SensorAgent.
Import Observation Analyzers SensorDedup PacketMeter Tailer.

(** ** The interface *)

Record Counts := mkCounts { ct_Accepted : Z; ct_Unsupported : Z; ct_Malformed : Z }.

Class AnalyzerObserver (Ob : Type) := {
  Name : Ob → str;
  Healthy : Ob → bool * str;
  Version : Ob → str;
  ObserverLastRecord : Ob → option time;
  ObserverCounters : Ob → Counts;
  ObserverContent : Ob → Content.ContentStatus;
}.

Definition maxReasonBytes : nat := 256.

Definition truncateReason (s : str) : str :=
  if slen s <=? Z.of_nat maxReasonBytes then s else str_take (maxReasonBytes - 3) s +:+ "...".

(** ** The reporter *)

Record StatusReporter := mkReporter {
  sr_NodeName : str;
  sr_Interface : str;
  sr_InstanceID : str;
  sr_Duplicates : option DuplicateCache;
  sr_Packets : option PacketCounters;
}.

Section reporter.
Context `{AnalyzerObserver Ob}.

Definition analyzer_status (a : Ob) : AnalyzerStatus :=
  let '(healthy, reason) := Healthy a in
  let cs := ObserverContent a in
  mkAnalyzerStatus (Name a) healthy (Sanitize.String_ (Version a)) (ObserverLastRecord a)
    (if is_zero (Content.cst_UpstreamFetchedAt cs) then None else Some (Content.cst_UpstreamFetchedAt cs)) (Content.cst_CustomDigest cs)
    (if healthy : bool then "" else truncateReason (Sanitize.String_ reason)).

Definition rejected_by (rejected : Z) (a : Ob) : Z :=
  wrap64 (rejected + wrap64 (ct_Malformed (ObserverCounters a) + ct_Unsupported (ObserverCounters a))).

Definition Build (r : StatusReporter) (analyzers : list Ob) (now : time) : TargetStatus :=
  let p := default (mkCounters 0 None None None) (sr_Packets r) in
  mkTargetStatus (sr_NodeName r) (sr_Interface r) None (sr_InstanceID r) now (pc_LastPacketTime p) (pc_PacketsObserved p)
    (pc_KernelDrops p) (pc_BytesObserved p)
    (match sr_Duplicates r with Some c => State c | None => DuplicationUnknown end)
    (foldl rejected_by 0 analyzers) (analyzer_status <$> analyzers).

End reporter.

(** ** The agent's observer, observer.go *)

(** The version is what the version source answers, the content what its status
    file holds. *)
Record analyzerObserver := mkObserver {
  ao_name : str;
  ao_version : option str;
  ao_content : result str Content.ContentStatus;
  ao_tailers : list Tailer;
}.

Definition add_counts (total : Counts) (t : Tailer) : Counts :=
  mkCounts (wrap64 (ct_Accepted total + tl_accepted t)) (wrap64 (ct_Unsupported total + tl_unsupported t))
    (wrap64 (ct_Malformed total + tl_malformed t)).

Definition observer_counters (o : analyzerObserver) : Counts := foldl add_counts (mkCounts 0 0 0) (ao_tailers o).

Definition observer_healthy (o : analyzerObserver) : bool * str :=
  let c := observer_counters o in
  if (ct_Accepted c =? 0) && (0 <? ct_Malformed c) then (false, "every record read was rejected") else (true, "").

Definition latest_record (latest : option time) (t : Tailer) : option time :=
  match LastRecord t with
  | Some ts => if t_after ts (default 0 latest) then Some ts else latest
  | None => latest
  end.

Definition observer_last (o : analyzerObserver) : option time := foldl latest_record None (ao_tailers o).

#[export] Instance agent_observer : AnalyzerObserver analyzerObserver := {|
  Name := ao_name;
  Healthy := observer_healthy;
  Version o := Resolve (ao_version o);
  ObserverLastRecord := observer_last;
  ObserverCounters := observer_counters;
  ObserverContent o := match ao_content o with Ok st => st | Err _ => Content.no_content end;
|}.

(** ** main.go and status.go *)

Definition zeekLogTypes : list ZeekLogType :=
  [ZeekConn; ZeekDNS; ZeekHTTP; ZeekSSL; ZeekX509; ZeekFiles; ZeekNotice; ZeekWeird].

Definition analyzerLogs (suricataLog zeekLogDir : str) : result str (str * str) :=
  if bool_decide (suricataLog = "") && bool_decide (zeekLogDir = "")
  then Err "no analyzer configured: pass --suricata-log, --zeek-log-dir, or both"
  else Ok (suricataLog, zeekLogDir).

(** The version banner, if the file could be read. *)
Definition readVersionFile (raw : option str) : option str :=
  match raw with
  | None => None
  | Some raw =>
      let v := trim_space raw in
      if bool_decide (v = "") then None else Some (if 64 <? slen v then str_take 64 v else v)
  end.

(** What the source answers, and what it keeps. *)
Definition versionFile (cached : str) (raw : option str) : str :=
  if bool_decide (cached = "") then default cached (readVersionFile raw) else cached.

(** The parser the tailer of Suricata's log is given: the meter keeps the stats
    the record carried. *)
Definition suricataParser (parse_time : str → str → option time) (decode_eve : str → option eveRecord) (n : Normalizer)
    (packets : PacketMeter) (line : str) (version : option str) (now : time) :
    result record_error (option Observation) * option Increment * PacketMeter :=
  let '(obs, stats) := suricata_Normalize parse_time decode_eve n line version now in
  let '(inc, packets) := Observe packets stats in
  (obs, inc, packets).

Definition newStatusReporter (nodeName iface instanceID : str) (duplicates : DuplicateCache) (packets : PacketMeter) : StatusReporter :=
  mkReporter nodeName iface instanceID (Some duplicates) (Some (PacketMeter.Counters packets)).

Definition nul : ascii := ascii_of_nat 0.

Definition owner_text (namespace name : str) (target : TargetStatus) : str :=
  namespace +:+ String nul (name +:+ String nul (tgt_NodeName target +:+ String nul (tgt_Interface target))).

(** Half of a digest is 32 hex digits. *)
Definition statusFieldOwner (namespace name : str) (target : TargetStatus) : str :=
  "trawl-sensor-" +:+ RecordID.digest_id (owner_text namespace name target).

(** ** Lemmas *)

Definition total (f : Tailer → Z) (ts : list Tailer) : Z := foldr (λ t n, f t + n) 0 ts.

Lemma wrap64_add_l a b : wrap64 (wrap64 a + b) = wrap64 (a + b).
Proof.
  unfold wrap64, wrap. f_equal.
  replace ((a + 2 ^ (64 - 1)) mod 2 ^ 64 - 2 ^ (64 - 1) + b + 2 ^ (64 - 1)) with ((a + 2 ^ (64 - 1)) mod 2 ^ 64 + b) by lia.
  rewrite Zplus_mod_idemp_l. f_equal. lia.
Qed.

Lemma wrap64_add_r a b : wrap64 (a + wrap64 b) = wrap64 (a + b).
Proof. by rewrite Z.add_comm, wrap64_add_l, Z.add_comm. Qed.

Lemma counters_from ts : ∀ a u m,
  foldl add_counts (mkCounts (wrap64 a) (wrap64 u) (wrap64 m)) ts =
  mkCounts (wrap64 (a + total tl_accepted ts)) (wrap64 (u + total tl_unsupported ts)) (wrap64 (m + total tl_malformed ts)).
Proof.
  induction ts as [|t ts IH]; intros a u m; simpl; [by rewrite !Z.add_0_r|].
  unfold add_counts at 2. simpl. rewrite !wrap64_add_l, IH, !Z.add_assoc. done.
Qed.

Lemma observer_counters_total o :
  observer_counters o =
  mkCounts (wrap64 (total tl_accepted (ao_tailers o))) (wrap64 (total tl_unsupported (ao_tailers o)))
    (wrap64 (total tl_malformed (ao_tailers o))).
Proof. exact (counters_from (ao_tailers o) 0 0 0). Qed.

Definition refused (o : analyzerObserver) : Z := total tl_malformed (ao_tailers o) + total tl_unsupported (ao_tailers o).

Lemma rejected_from os : ∀ r, foldl rejected_by (wrap64 r) os = wrap64 (r + foldr (λ o n, refused o + n) 0 os).
Proof.
  induction os as [|o os IH]; intros r; cbn [foldl foldr]; [by rewrite Z.add_0_r|].
  assert (rejected_by (wrap64 r) o = wrap64 (r + refused o)) as ->.
  { unfold rejected_by, ObserverCounters, refused. cbn [agent_observer]. rewrite observer_counters_total. cbn [ct_Malformed ct_Unsupported].
    by rewrite (wrap64_add_l (total _ _)), (wrap64_add_r (total _ _)), wrap64_add_r, wrap64_add_l. }
  by rewrite IH, Z.add_assoc.
Qed.

(** The newest record time after year one. *)
Definition newest (ts : list Tailer) (last : option time) : Prop :=
  (∀ t x, t ∈ ts → LastRecord t = Some x → x ≤ default 0 last) ∧
  match last with None => True | Some x => 0 < x ∧ ∃ t, t ∈ ts ∧ LastRecord t = Some x end.

Lemma latest_newest pre t last : newest pre last → newest (pre ++ [t]) (latest_record last t).
Proof.
  intros [Hle Hin]. unfold latest_record. destruct (LastRecord t) as [x|] eqn:E.
  - unfold t_after. destruct (Z.ltb_spec (default 0 last) x) as [Hlt|Hge].
    + assert (0 ≤ default 0 last) as H0 by (destruct last as [z|]; [destruct Hin as [Hz _]; by apply Z.lt_le_incl|done]).
      split; [|split; [by eapply Z.le_lt_trans|exists t; set_solver]].
      intros u y Hu Hy. apply elem_of_app in Hu as [Hu| ->%list_elem_of_singleton]; simpl; [eapply Z.le_trans; [by apply (Hle u y)|by apply Z.lt_le_incl]|].
      rewrite E in Hy. by simplify_eq.
    + split; [|destruct last; [destruct Hin as (? & u & ? & ?); split; [done|exists u; set_solver]|done]].
      intros u y Hu Hy. apply elem_of_app in Hu as [Hu| ->%list_elem_of_singleton]; [by apply (Hle u)|].
      rewrite E in Hy. by simplify_eq.
  - split; [|destruct last; [destruct Hin as (? & u & ? & ?); split; [done|exists u; set_solver]|done]].
    intros u y Hu Hy. apply elem_of_app in Hu as [Hu| ->%list_elem_of_singleton]; [by apply (Hle u)|congruence].
Qed.

Lemma observer_newest o : newest (ao_tailers o) (observer_last o).
Proof.
  unfold observer_last. rewrite <- (app_nil_l (ao_tailers o)) at 1.
  assert (newest [] None) as H0 by (split; [set_solver|done]).
  revert H0. generalize (@nil Tailer) as pre, (@None time) as last.
  induction (ao_tailers o) as [|t ts IH]; intros pre last H0; simpl; [by rewrite app_nil_r|].
  rewrite cons_middle, app_assoc. apply IH. by apply latest_newest.
Qed.

Lemma truncateReason_length s : slen (truncateReason s) ≤ Z.of_nat maxReasonBytes.
Proof.
  unfold truncateReason. destruct (Z.leb_spec (slen s) (Z.of_nat maxReasonBytes)) as [|H]; [done|].
  rewrite slen_app. change (slen "...") with 3. unfold slen in *. rewrite str_take_length. unfold maxReasonBytes in *. lia.
Qed.

Lemma nul_parts a b c d a' b' c' d' :
  lacks nul a = true → lacks nul b = true → lacks nul c = true →
  lacks nul a' = true → lacks nul b' = true → lacks nul c' = true →
  a +:+ String nul (b +:+ String nul (c +:+ String nul d)) = a' +:+ String nul (b' +:+ String nul (c' +:+ String nul d')) →
  a = a' ∧ b = b' ∧ c = c' ∧ d = d'.
Proof.
  intros Ha Hb Hc Ha' Hb' Hc' H.
  apply split_first in H as [-> H]; [|done..]. apply split_first in H as [-> H]; [|done..]. by apply split_first in H as [-> ->].
Qed.

Lemma observer_unhealthy o :
  observer_healthy o = (false, "every record read was rejected") ∧
    wrap64 (total tl_accepted (ao_tailers o)) = 0 ∧ 0 < wrap64 (total tl_malformed (ao_tailers o)) ∨
  observer_healthy o = (true, "") ∧
    ¬ (wrap64 (total tl_accepted (ao_tailers o)) = 0 ∧ 0 < wrap64 (total tl_malformed (ao_tailers o))).
Proof.
  unfold observer_healthy. rewrite observer_counters_total. cbn [ct_Accepted ct_Malformed].
  destruct (Z.eqb_spec (wrap64 (total tl_accepted (ao_tailers o))) 0) as [Ha|Ha];
    [destruct (Z.ltb_spec 0 (wrap64 (total tl_malformed (ao_tailers o)))) as [Hm|Hm]|]; cbn [andb]; [by left|right..];
    (split; [done|intros [? ?]; lia]).
Qed.

(** What an entry says of its analyzer. *)
Definition observed (o : analyzerObserver) (a : AnalyzerStatus) : Prop :=
  ans_Name a = ao_name o ∧
  (ans_Healthy a = false ↔ wrap64 (total tl_accepted (ao_tailers o)) = 0 ∧ 0 < wrap64 (total tl_malformed (ao_tailers o))) ∧
  (ans_Healthy a = false ↔ ans_Reason a ≠ "") ∧ slen (ans_Reason a) ≤ 256 ∧
  Sanitize.boundary_safe (ans_Version a) ∧
  newest (ao_tailers o) (ans_LastRecordTime a) ∧
  (ao_tailers o = [] → ans_Healthy a = true).

Lemma sanitized_reason : truncateReason (Sanitize.String_ "every record read was rejected") = "every record read was rejected".
Proof. vm_compute. done. Qed.

Lemma analyzer_status_observed o : observed o (analyzer_status o).
Proof.
  unfold analyzer_status, Healthy. cbn [agent_observer].
  destruct (observer_unhealthy o) as [[-> Hbad]|[-> Hok]]; (split; [done|]); cbn [ans_Healthy ans_Reason].
  - rewrite sanitized_reason. split; [done|]. split; [done|]. split; [by vm_compute|].
    split; [by apply Sanitize.String_safe|]. split; [by apply observer_newest|].
    intros E. rewrite E in Hbad. by destruct Hbad as [_ Hbad].
  - split; [done|]. split; [done|]. split; [done|]. split; [by apply Sanitize.String_safe|]. split; [by apply observer_newest|done].
Qed.

(** ** Theorems *)

(** the status a sensor publishes is what was observed.  Its counters are
    the meter's, its duplication state the cache's, and the rejected records
    are the sum, at 64 bits, of what all tailers rejected; there is an entry
    per analyzer, in order, with its own name.  An analyzer is unhealthy if
    and only if its tailers accepted nothing and rejected something as
    malformed, and then the reason is given and is within the contract's 256
    bytes; its last record is the newest of its tailers', and absent if none
    has one.  An analyzer that has read nothing is reported as healthy. *)
Theorem status_reports_observed (os : list analyzerObserver) node iface instance cache meter now :
  let st := Build (newStatusReporter node iface instance cache meter) os now in
  tgt_HeartbeatTime st = now ∧ tgt_ReporterInstance st = instance ∧
  tgt_PacketsObserved st = pm_observed meter ∧ tgt_KernelDrops st = pm_drops meter ∧ tgt_LastPacketTime st = pm_lastPacket meter ∧
  tgt_BytesObserved st = (if pm_haveBytes meter then Some (pm_bytes meter) else None) ∧
  tgt_Duplication st = State cache ∧
  tgt_RejectedRecords st = wrap64 (foldr (λ o n, refused o + n) 0 os) ∧
  Forall2 observed os (tgt_Analyzers st).
Proof.
  cbn -[rejected_by analyzer_status]. split_and!; try done.
  - exact (rejected_from os 0).
  - apply Forall2_fmap_r, Forall_Forall2_diag, Forall_true. intros o.
    apply analyzer_status_observed.
Qed.

(** two sensor targets apply their status under the same field manager,
    and so may prune each other's entry, only if they are the same target of
    the same tap, or their digests collide; names carry no NUL. *)
Theorem field_owners_separate ns name st ns' name' st' :
  lacks nul ns = true → lacks nul name = true → lacks nul (tgt_NodeName st) = true →
  lacks nul ns' = true → lacks nul name' = true → lacks nul (tgt_NodeName st') = true →
  statusFieldOwner ns name st = statusFieldOwner ns' name' st' →
  (ns = ns' ∧ name = name' ∧ tgt_NodeName st = tgt_NodeName st' ∧ tgt_Interface st = tgt_Interface st') ∨
  RecordID.id_collision (owner_text ns name st) (owner_text ns' name' st').
Proof.
  intros. unfold statusFieldOwner in *.
  match goal with H : _ +:+ _ = _ |- _ => apply str_app_inj_r, RecordID.digest_id_eq in H as [H|H]; [left|by right] end.
  by apply nul_parts.
Qed.

Lemma field_owners_separate_witness :
  let t node := mkTargetStatus node "eth0" None "i" 0 None 0 None None DuplicationUnknown 0 [] in
  statusFieldOwner "lab" "edge" (t "node-a") ≠ statusFieldOwner "lab" "edge" (t "node-b") ∧
  statusFieldOwner "lab" "edge" (t "node-a") = "trawl-sensor-" +:+ RecordID.digest_id (owner_text "lab" "edge" (t "node-a")) ∧
  (("lab" = "lab" ∧ "edge" = "edge" ∧ "node-a" = "node-a" ∧ "eth0" = "eth0") ∨
   RecordID.id_collision (owner_text "lab" "edge" (t "node-a")) (owner_text "lab" "edge" (t "node-a"))).
Proof.
  intros t. split; [by vm_compute|]. split; [done|].
  by apply (field_owners_separate "lab" "edge" (t "node-a") "lab" "edge" (t "node-a")).
Defined.

End SensorAgent.
