(* ===== verification/Mikrotik.v ===== *)
(** * The REST driver, internal/fabric/mikrotik/mikrotik.go

    A program over the requests it makes.  [GetRows] and [GetRow] are a GET and
    encoding/json's reading of its body; HTTP itself ([do], TLS) is the answer.
    Go ranges over a map in any order: [range] is the order taken.  An error
    is its text, none being a sentinel of the package. *)

From Stdlib Require Import Ascii.
From S2P Require Import Prelude GoString Utf8 Sanitize Fabric RouterOS Prog.

Module Mikrotik.
Import Fabric RouterOS.

Definition ProviderName : str := "MikroTikRouterOS7".

Definition resource_path : str := "/rest/system/resource".
Definition switch_path : str := "/rest/interface/ethernet/switch".
Definition port_path : str := "/rest/interface/ethernet/switch/port".

(** A refused or failed request, and a body that is not the JSON wanted. *)
Inductive rest_error := CallError (text : str) | DecodeError (text : str).

Inductive restE : Type → Type :=
  | GetRows (base path : str) : restE (result rest_error (list row))
  | GetRow (base path : str) : restE (result rest_error row)
  | Patch (base path : str) (payload : list (str * str)) : restE (result str unit).

Definition is_hex (c : ascii) : bool :=
  let b := byte_of c in
  ((48 <=? b) && (b <=? 57)) || ((97 <=? b) && (b <=? 102)) || ((65 <=? b) && (b <=? 70)).

Definition validRouterOSID (id : str) : bool :=
  match id with
  | String c (String _ _ as rest) => Ascii.eqb c "*" && str_forallb is_hex rest
  | _ => false
  end.

(** [path[strings.LastIndex(path, "/")+1:]] *)
Fixpoint last_segment (s : str) : str :=
  match s with
  | EmptyString => EmptyString
  | String c rest =>
      if lacks "/" rest then if Ascii.eqb c "/" then rest else s
      else last_segment rest
  end.

Definition trim_slash (s : str) : str :=
  let n := (String.length s - 1)%nat in
  if bool_decide (str_drop n s = "/") then str_take n s else s.

Definition baseURL (address : str) : str :=
  if has_prefix address "http://" || has_prefix address "https://" then trim_slash address
  else "https://" +:+ trim_slash address.

(** [sanitize.String] and [%q] of a name in a message. *)
Section driver.
Context (quote : str → str) (pem_ok : str → bool) (range : gmap string row → list (str * row)).

Definition connect (d : Device) : result fabric_error str :=
  if bool_decide (dev_Address d = "") then Err (DeviceError "the device has no address") else
  if bool_decide (dev_Username d = "") || bool_decide (dev_Password d = "")
  then Err (DeviceError "the device credential is incomplete") else
  if negb (bool_decide (dev_CACertPEM d = "")) && negb (pem_ok (dev_CACertPEM d))
  then Err (DeviceError "the device CA certificate is not valid PEM")
  else Ok (baseURL (dev_Address d)).

Definition connected (d : Device) : prog restE (result fabric_error str) := Ret (connect d).

Definition wrapping {A} (prefix : str) (p : prog restE (result fabric_error A)) : prog restE (result fabric_error A) :=
  let! r := p in Ret (result_map_err (wrap_error prefix) r).

Definition get (base path : str) : prog restE (result fabric_error (list row)) :=
  let! r := call (GetRows base path) in
  Ret match r with
      | Ok rows => Ok rows
      | Err (CallError t) => Err (DeviceError t)
      | Err (DecodeError t) => Err (DeviceError ("decoding " +:+ path +:+ ": " +:+ t))
      end.

Definition patch (base path : str) (payload : list (str * str)) : prog restE (result fabric_error unit) :=
  if negb (validRouterOSID (last_segment path))
  then Ret (Err (DeviceError ("refusing to address " +:+ quote (Sanitize.String_ (last_segment path)) +:+
                 ": not a RouterOS id"))) else
  let! r := call (Patch base path payload) in Ret (result_map_err DeviceError r).

(** [strings.TrimSpace] of board and version. *)
Definition identity (base : str) : prog restE (result fabric_error str) :=
  let! r := call (GetRow base resource_path) in
  Ret match r with
      | Ok res => Ok (trim_space (field_text res "board-name" +:+ " " +:+ field_text res "version"))
      | Err (CallError t) => Err (DeviceError ("reading the device identity: " +:+ t))
      | Err (DecodeError t) => Err (DeviceError ("decoding the device identity: " +:+ t))
      end.

Definition flags_of (r : row) : flags :=
  mkFlags (field_text r nameField) (bool_decide (field_text r ingressField = routerOSTrue))
    (bool_decide (field_text r egressField = routerOSTrue)).

Definition Observe (d : Device) : prog restE (result fabric_error State) :=
  let!? base := connected d in
  let!? id := identity base in
  let!? switches := wrapping "reading the switch: " (get base switch_path) in
  match switches with
  | [] => Ret (Err (DeviceError "the device reports no switch object, so it has no mirroring to configure"))
  | sw :: _ =>
      let!? ports := wrapping "reading the switch ports: " (get base port_path) in
      Ret (Ok (state_of (field_text sw targetField) id (flags_of <$> ports)))
  end.

Definition by_name (ports : list row) : gmap string row :=
  foldl (λ m r, <[field_text r nameField := r]> m) ∅ ports.

Fixpoint missing_source (byName : gmap string row) (sources : list str) : option str :=
  match sources with
  | [] => None
  | s :: rest => match byName !! s with None => Some s | Some _ => missing_source byName rest end
  end.

Definition set_target (base : str) (sw : row) (m : Mirror) : prog restE (result fabric_error unit) :=
  if bool_decide (field_text sw targetField = mi_Target m) then Ret (Ok tt) else
  wrapping ("setting the mirror target to " +:+ quote (Sanitize.String_ (mi_Target m)) +:+ ": ")
    (patch base (switch_path +:+ "/" +:+ field_text sw idField) [(targetField, mi_Target m)]).

Fixpoint set_ports (base : str) (m : Mirror) (ports : list (str * row)) : prog restE (result fabric_error unit) :=
  match ports with
  | [] => Ret (Ok tt)
  | (name, port) :: rest =>
      let ingress := wanted_in m name in
      let egress := wanted_eg m name in
      if bool_decide (ingress = fl_In (flags_of port)) && bool_decide (egress = fl_Eg (flags_of port))
      then set_ports base m rest else
      let!? _ := wrapping ("setting mirroring on port " +:+ quote (Sanitize.String_ name) +:+ ": ")
                   (patch base (port_path +:+ "/" +:+ field_text port idField)
                      [(ingressField, bool_text ingress); (egressField, bool_text egress)]) in
      set_ports base m rest
  end.

Definition Configure (d : Device) (m : Mirror) : prog restE (result fabric_error unit) :=
  match Validate quote m with
  | Some e => Ret (Err (DeviceError e))
  | None =>
      let!? base := connected d in
      let!? switches := wrapping "reading the switch: " (get base switch_path) in
      match switches with
      | [] => Ret (Err (DeviceError "the device reports no switch object"))
      | sw :: _ =>
          let!? ports := wrapping "reading the switch ports: " (get base port_path) in
          let byName := by_name ports in
          match byName !! mi_Target m, missing_source byName (mi_Sources m) with
          | None, _ => Ret (Err (DeviceError ("target port " +:+ quote (Sanitize.String_ (mi_Target m)) +:+
                         " is not a switch port on this device")))
          | _, Some s => Ret (Err (DeviceError ("source port " +:+ quote (Sanitize.String_ s) +:+
                         " is not a switch port on this device")))
          | Some _, None =>
              let!? _ := set_target base sw m in
              set_ports base m (range byName)
          end
      end
  end.

Fixpoint clear_ports (base : str) (ports : list row) : prog restE (result fabric_error unit) :=
  match ports with
  | [] => Ret (Ok tt)
  | port :: rest =>
      if negb (mirrored (flags_of port)) then clear_ports base rest else
      let!? _ := wrapping ("clearing mirroring on port " +:+
                           quote (Sanitize.String_ (field_text port nameField)) +:+ ": ")
                   (patch base (port_path +:+ "/" +:+ field_text port idField)
                      [(ingressField, routerOSFalse); (egressField, routerOSFalse)]) in
      clear_ports base rest
  end.

Definition Revert (d : Device) : prog restE (result fabric_error unit) :=
  let!? base := connected d in
  let!? ports := wrapping "reading the switch ports: " (get base port_path) in
  let!? _ := clear_ports base ports in
  let!? switches := wrapping "reading the switch: " (get base switch_path) in
  match switches with
  | [] => Ret (Ok tt)
  | sw :: _ =>
      if bool_decide (field_text sw targetField = noMirrorTarget) then Ret (Ok tt) else
      wrapping "clearing the mirror target: "
        (patch base (switch_path +:+ "/" +:+ field_text sw idField) [(targetField, noMirrorTarget)])
  end.

(** ** The device

    A switch that nobody else is changing.  A write it accepts has taken
    effect; one that fails, unless [up] says that none does, may have. *)

Definition patch_flags (payload : list (str * str)) : option (bool * bool) :=
  match payload with
  | [(fi, vi); (fe, ve)] =>
      if bool_decide (fi = ingressField) && bool_decide (fe = egressField)
      then Some (bool_decide (vi = routerOSTrue), bool_decide (ve = routerOSTrue)) else None
  | _ => None
  end.

Definition device_patch (path : str) (payload : list (str * str)) (s : Switch) : Switch :=
  if bool_decide (path = switch_path +:+ "/" +:+ sw_Id s) then
    match payload with
    | [(f, t)] => if bool_decide (f = targetField) then RouterOS.set_target s t else s
    | _ => s
    end
  else match patch_flags payload with
  | Some (i, e) => set_flags s (λ p, bool_decide (path = port_path +:+ "/" +:+ pt_Id p)) i e
  | None => s
  end.

Definition rest_step (up : bool) (X : Type) (e : restE X) (s : Switch) : X → Switch → Prop :=
  match e with
  | GetRows _ path => λ x s', s' = s ∧
      match x with
      | Ok rows =>
          (path = switch_path → ∃ r, rows = [r] ∧ reports_switch s r) ∧
          (path = port_path → Forall2 reports_port (sw_Ports s) rows)
      | Err _ => up = false
      end
  | GetRow _ _ => λ x s', s' = s ∧ match x with Ok _ => True | Err _ => up = false end
  | Patch _ path payload => λ x s',
      match x with
      | Ok _ => s' = device_patch path payload s
      | Err _ => up = false ∧ (s' = s ∨ s' = device_patch path payload s)
      end
  end.

(** Names and ids tell ports apart, and RouterOS issued the ids. *)
Definition well_formed (s : Switch) : Prop :=
  NoDup (port_names s) ∧ NoDup (pt_Id <$> sw_Ports s) ∧ validRouterOSID (sw_Id s) = true ∧
  Forall (λ id, validRouterOSID id = true) (pt_Id <$> sw_Ports s).

End driver.

(** ** Lemmas *)

Lemma well_formed_same s s' : same_ports s s' → well_formed s → well_formed s'.
Proof. unfold well_formed. by intros (-> & _ & -> & ->). Qed.

Lemma hex_no_slash s : str_forallb is_hex s = true → lacks "/" s = true.
Proof. apply str_forallb_impl. intros c. by destruct c as [[] [] [] [] [] [] [] []]. Qed.

Lemma valid_id_shape id : validRouterOSID id = true → lacks "/" id = true ∧ ∃ rest, id = String "*" rest.
Proof.
  destruct id as [|c [|c' rest]]; try done. cbn [validRouterOSID].
  intros [->%Ascii.eqb_eq Hh]%andb_true_iff. split; [|by eexists].
  apply hex_no_slash in Hh. exact Hh.
Qed.

Lemma last_segment_app p id : lacks "/" id = true → last_segment (p +:+ "/" +:+ id) = id.
Proof.
  intros Hid. induction p as [|c p IH]; simpl.
  - by rewrite Hid.
  - rewrite lacks_app. exact IH.
Qed.

(** The path of a port is not the switch's. *)
Lemma port_path_apart s id :
  validRouterOSID (sw_Id s) = true → port_path +:+ "/" +:+ id ≠ switch_path +:+ "/" +:+ sw_Id s.
Proof.
  intros (_ & rest & ->)%valid_id_shape E. change port_path with (switch_path +:+ "/port") in E.
  rewrite str_app_assoc in E. by apply str_app_inj_r in E.
Qed.

Lemma bool_text_true b : bool_decide (bool_text b = routerOSTrue) = b.
Proof. by destruct b. Qed.

(** ** One port's flags changed *)

Definition update_port (s : Switch) (p : Port) (i e : bool) : Switch :=
  set_flags s (λ q, bool_decide (pt_Id q = pt_Id p)) i e.

Lemma device_patch_port s p i e :
  well_formed s →
  device_patch (port_path +:+ "/" +:+ pt_Id p) [(ingressField, bool_text i); (egressField, bool_text e)] s =
  update_port s p i e.
Proof.
  intros (_ & _ & Hid & _). unfold device_patch. rewrite bool_decide_eq_false_2 by (by apply port_path_apart).
  cbn [patch_flags]. rewrite !bool_decide_eq_true_2 by done. cbn [andb]. rewrite !bool_text_true.
  unfold update_port, set_flags. f_equal. apply list_fmap_ext. intros _ q _.
  rewrite (bool_decide_ext (port_path +:+ "/" +:+ pt_Id p = port_path +:+ "/" +:+ pt_Id q) (pt_Id q = pt_Id p));
    [done|]. split; [intros E|by intros ->]. apply str_app_inj_r in E. by apply (str_app_inj_r "/") in E.
Qed.

Lemma port_unique s p q :
  well_formed s → p ∈ sw_Ports s → q ∈ sw_Ports s → fl_Name (pt_Flags p) = fl_Name (pt_Flags q) → p = q.
Proof. intros (Hn & _) Hp Hq. by apply (NoDup_map_inj_in (fl_Name ∘ pt_Flags) (sw_Ports s)). Qed.

Lemma in_update s p i e q :
  well_formed s → p ∈ sw_Ports s → q ∈ sw_Ports (update_port s p i e) →
  fl_Name (pt_Flags q) = fl_Name (pt_Flags p) ∧ fl_In (pt_Flags q) = i ∧ fl_Eg (pt_Flags q) = e ∨
  q ∈ sw_Ports s ∧ fl_Name (pt_Flags q) ≠ fl_Name (pt_Flags p).
Proof.
  intros Hw Hp (r & -> & Hr)%list_elem_of_fmap. case_bool_decide as Hid.
  - assert (r = p) as -> by (destruct Hw as (_ & Hi & _); by apply (NoDup_map_inj_in pt_Id (sw_Ports s))). by left.
  - right. split; [done|]. intros E. destruct Hid. by rewrite (port_unique s r p Hw Hr Hp E).
Qed.

Lemma in_update_other s p i e q :
  q ∈ sw_Ports s → pt_Id q ≠ pt_Id p → q ∈ sw_Ports (update_port s p i e).
Proof. intros Hq Hid. apply list_elem_of_fmap. exists q. by rewrite bool_decide_eq_false_2. Qed.

(** ** Calls *)

Section calls.
Context (quote : str → str) (up : bool).

Lemma wrapping_wp {A} prefix (p : prog restE (result fabric_error A)) Q s :
  wp (rest_step up) p (λ r s', Q (result_map_err (wrap_error prefix) r) s') s →
  wp (rest_step up) (wrapping prefix p) Q s.
Proof. intros Hp. by apply wp_bind. Qed.

Lemma get_switch_wp base Q s :
  (∀ r, reports_switch s r → Q (Ok [r]) s) → (∀ e, up = false → Q (Err e) s) →
  wp (rest_step up) (get base switch_path) Q s.
Proof.
  intros Hok Herr. apply wp_call. intros [rows|[t|t]] s' [-> Hx]; simpl; [|by apply Herr..].
  destruct Hx as [Hsw _]. destruct (Hsw eq_refl) as (r & -> & Hr). by apply Hok.
Qed.

Lemma get_ports_wp base Q s :
  (∀ rows, Forall2 reports_port (sw_Ports s) rows → Q (Ok rows) s) → (∀ e, up = false → Q (Err e) s) →
  wp (rest_step up) (get base port_path) Q s.
Proof.
  intros Hok Herr. apply wp_call. intros [rows|[t|t]] s' [-> Hx]; simpl; [|by apply Herr..].
  destruct Hx as [_ Hp]. by apply Hok, Hp.
Qed.

Lemma patch_wp base path payload Q s :
  validRouterOSID (last_segment path) = true →
  Q (Ok tt) (device_patch path payload s) →
  (∀ e, up = false → Q (Err e) s ∧ Q (Err e) (device_patch path payload s)) →
  wp (rest_step up) (patch quote base path payload) Q s.
Proof.
  intros Hid Hok Herr. unfold patch. rewrite Hid. cbn [negb]. apply wp_call.
  intros [[]|t] s'; simpl; [by intros ->|]. intros [Hup [-> | ->]]; by apply (Herr (DeviceError t)).
Qed.

(** A port's flags are written, or the write failed with or without effect. *)
Lemma patch_port_wp base p row_ i e Q s :
  well_formed s → p ∈ sw_Ports s → reports_port p row_ →
  Q (Ok tt) (update_port s p i e) →
  (∀ err, up = false → Q (Err err) s ∧ Q (Err err) (update_port s p i e)) →
  wp (rest_step up) (patch quote base (port_path +:+ "/" +:+ field_text row_ idField)
    [(ingressField, bool_text i); (egressField, bool_text e)]) Q s.
Proof.
  intros Hw Hp (-> & _) Hok Herr. pose proof Hw as (_ & _ & _ & Hids).
  rewrite Forall_forall in Hids. assert (validRouterOSID (pt_Id p) = true) as Hid.
  { by apply Hids, list_elem_of_fmap_2. }
  apply patch_wp.
  - rewrite last_segment_app; [done|]. by apply valid_id_shape in Hid as [? _].
  - by rewrite device_patch_port.
  - intros err Hup. rewrite device_patch_port by done. by apply Herr.
Qed.

(** ** The loops *)

Definition wanted_port (m : Mirror) (p : Port) : Prop :=
  fl_In (pt_Flags p) = wanted_in m (fl_Name (pt_Flags p)) ∧ fl_Eg (pt_Flags p) = wanted_eg m (fl_Name (pt_Flags p)).

Definition described (s : Switch) (entries : list (str * row)) : Prop :=
  ∀ n r, (n, r) ∈ entries → ∃ p, p ∈ sw_Ports s ∧ fl_Name (pt_Flags p) = n ∧ reports_port p r.

Lemma described_update s p i e n r entries :
  well_formed s → p ∈ sw_Ports s → fl_Name (pt_Flags p) = n → n ∉ entries.*1 →
  described s ((n, r) :: entries) → described (update_port s p i e) entries.
Proof.
  intros Hw Hp Hn Hnot Hd n' r' Hin. destruct (Hd n' r' ltac:(by right)) as (q & Hq & Hqn & Hqr).
  exists q. split; [|done]. apply in_update_other; [done|]. intros Hid.
  assert (q = p) as -> by (destruct Hw as (_ & Hi & _); by apply (NoDup_map_inj_in pt_Id (sw_Ports s))).
  apply Hnot. rewrite <-Hn, Hqn. apply list_elem_of_fmap. by exists (n', r').
Qed.

Lemma flags_reported p r : reports_port p r → flags_of r = pt_Flags p.
Proof.
  intros (_ & Hn & _ & _ & Hi & He). unfold flags_of. rewrite Hn, Hi, He, !bool_text_true. by destruct (pt_Flags p).
Qed.

(** Every entry's port ends with the flags wanted of it; the others are left
    alone. *)
Definition settled (m : Mirror) (names : list str) (s s' : Switch) : Prop :=
  ∀ p, p ∈ sw_Ports s' →
    (fl_Name (pt_Flags p) ∈ names → wanted_port m p) ∧
    (fl_Name (pt_Flags p) ∉ names → p ∈ sw_Ports s).

Lemma set_ports_wp base m entries s :
  well_formed s → NoDup entries.*1 → described s entries →
  wp (rest_step up) (set_ports quote base m entries)
    (λ r s', same_ports s s' ∧ sw_Target s' = sw_Target s ∧ (up = true → r = Ok tt) ∧
       (r = Ok tt → settled m entries.*1 s s')) s.
Proof.
  revert s. induction entries as [|[n r] rest IH]; intros s Hw Hnd Hd; cbn [set_ports].
  { split_and!; [apply same_ports_refl|done|done|]. intros _ p Hp. split; [by intros ?%elem_of_nil|done]. }
  apply NoDup_cons in Hnd as [Hn Hnd]. cbn [fst] in Hn.
  destruct (Hd n r ltac:(left)) as (p & Hp & Hpn & Hpr). rewrite (flags_reported p r Hpr).
  destruct (bool_decide _ && bool_decide _) eqn:Eskip.
  - apply andb_true_iff in Eskip as [Ei%bool_decide_eq_true Ee%bool_decide_eq_true].
    eapply wp_mono; [|apply IH; [done|done|intros n' r' Hin; apply Hd; by right]].
    intros res s' (Hs & Ht & Hup & Hok). split_and!; [done..|]. intros Hr q Hq.
    destruct (Hok Hr q Hq) as [Hin Hout]. cbn [fmap list_fmap fst]. split.
    + intros [Hqn|Hrest]%elem_of_cons; [|by apply Hin].
      assert (q = p) as ->; [|by rewrite <-Hpn in Ei, Ee].
      apply (port_unique s); [done| |done|congruence]. apply Hout. by rewrite Hqn.
    + intros Hnot. apply Hout. intros ?. apply Hnot. by right.
  - apply wp_try, wrapping_wp, (patch_port_wp base p r); [done..| |].
    2: { intros err Hup. cbn. split; (split; [first [apply same_ports_refl|apply same_ports_flags]|]);
           (split; [done|]); by rewrite Hup. }
    set (s1 := update_port s p _ _). cbn [result_map_err].
    pose proof (same_ports_flags s (λ q, bool_decide (pt_Id q = pt_Id p)) (wanted_in m n) (wanted_eg m n)) as Hs1.
    fold (update_port s p (wanted_in m n) (wanted_eg m n)) in Hs1. fold s1 in Hs1.
    eapply wp_mono; [|apply IH; [by eapply well_formed_same|done|by eapply described_update]].
    intros res s' (Hs & Ht & Hup & Hok). split_and!; [by eapply same_ports_trans|done|done|]. intros Hr q Hq.
    destruct (Hok Hr q Hq) as [Hin Hout]. cbn [fmap list_fmap fst]. split.
    + intros [Hqn|Hrest]%elem_of_cons; [|by apply Hin]. rewrite <-Hqn in Hn.
      destruct (in_update s p _ _ q Hw Hp (Hout Hn)) as [(_ & Ei & Ee)|[_ Hne]]; [|congruence].
      split; by rewrite Hqn.
    + intros Hnot. assert (fl_Name (pt_Flags q) ∉ rest.*1) as Hq' by (intros ?; apply Hnot; by right).
      destruct (in_update s p _ _ q Hw Hp (Hout Hq')) as [(E & _)|[? _]]; [|done].
      destruct Hnot. rewrite E, Hpn. left.
Qed.

Lemma set_target_wp base sw m s Q :
  well_formed s → reports_switch s sw →
  (∀ s', same_ports s s' → sw_Ports s' = sw_Ports s → sw_Target s' = mi_Target m → Q (Ok tt) s') →
  (∀ e s', up = false → same_ports s s' → Q (Err e) s') →
  wp (rest_step up) (set_target quote base sw m) Q s.
Proof.
  intros (_ & _ & Hid & _) (Ei & _ & _ & Et) Hok Herr. unfold set_target. rewrite Et. case_bool_decide as Hsame.
  { by apply Hok; [apply same_ports_refl| |]. }
  assert (device_patch (switch_path +:+ "/" +:+ sw_Id s) [(targetField, mi_Target m)] s =
          RouterOS.set_target s (mi_Target m)) as Hdev.
  { unfold device_patch. by rewrite !bool_decide_eq_true_2. }
  apply wrapping_wp, patch_wp; rewrite Ei, ?Hdev.
  - rewrite last_segment_app; [done|]. by apply valid_id_shape in Hid as [? _].
  - by apply Hok.
  - intros e Hup. by split; apply Herr.
Qed.

End calls.

(** ** Lookups by name *)

Lemma by_name_lookup rows n r : by_name rows !! n = Some r → r ∈ rows ∧ field_text r nameField = n.
Proof.
  unfold by_name. induction rows as [|r' rows IH] using rev_ind; [simpl; by rewrite lookup_empty|].
  rewrite foldl_app. cbn [foldl]. intros [[<- <-]|[_ H]]%lookup_insert_Some.
  - split; [|done]. apply elem_of_app. right. left.
  - apply IH in H as [? ?]. split; [|done]. apply elem_of_app. by left.
Qed.

Lemma by_name_total rows r : r ∈ rows → is_Some (by_name rows !! field_text r nameField).
Proof.
  unfold by_name. induction rows as [|r' rows IH] using rev_ind; [by intros ?%elem_of_nil|].
  rewrite foldl_app. cbn [foldl]. intros [Hin|Hin%list_elem_of_singleton]%elem_of_app.
  - destruct (decide (field_text r nameField = field_text r' nameField)) as [->|Hne].
    + by rewrite lookup_insert_eq.
    + rewrite lookup_insert_ne by done. by apply IH.
  - subst. by rewrite lookup_insert_eq.
Qed.

Lemma missing_source_None byName sources :
  missing_source byName sources = None ↔ ∀ x, x ∈ sources → is_Some (byName !! x).
Proof.
  induction sources as [|x rest IH]; simpl; [split; [by intros _ ? ?%elem_of_nil|done]|].
  destruct (byName !! x) as [r|] eqn:E.
  - rewrite IH. split; [intros H y [->|Hy]%elem_of_cons; [by eexists|by apply H]|intros H y Hy; apply H; by right].
  - split; [done|]. intros H. destruct (H x ltac:(left)). congruence.
Qed.

Lemma by_name_described s rows range :
  Forall2 reports_port (sw_Ports s) rows → (∀ m, range m ≡ₚ map_to_list m) → described s (range (by_name rows)).
Proof.
  intros Hf Hrange n r Hin. rewrite (Hrange (by_name rows)) in Hin.
  apply elem_of_map_to_list, by_name_lookup in Hin as [Hr <-].
  apply list_elem_of_lookup in Hr as [i Hi]. destruct (Forall2_lookup_r _ _ _ _ _ Hf Hi) as (p & Hp & Hrep).
  exists p. split; [by eapply list_elem_of_lookup_2|]. split; [by destruct Hrep as (_ & -> & _)|done].
Qed.

Lemma by_name_names s rows n :
  Forall2 reports_port (sw_Ports s) rows → is_Some (by_name rows !! n) ↔ n ∈ port_names s.
Proof.
  intros Hf. split.
  - intros [r Hr]. apply by_name_lookup in Hr as [Hr <-].
    apply list_elem_of_lookup in Hr as [i Hi]. destruct (Forall2_lookup_r _ _ _ _ _ Hf Hi) as (p & Hp & (_ & -> & _)).
    apply list_elem_of_fmap. exists p. split; [done|by eapply list_elem_of_lookup_2].
  - intros (p & -> & Hp)%list_elem_of_fmap. apply list_elem_of_lookup in Hp as [i Hi].
    destruct (Forall2_lookup_l _ _ _ _ _ Hf Hi) as (r & Hr & (_ & Hn & _)). simpl. rewrite <-Hn.
    apply by_name_total. by eapply list_elem_of_lookup_2.
Qed.

(** ** The methods *)

Section methods.
Context (quote : str → str) (pem_ok : str → bool) (range : gmap string row → list (str * row)) (up : bool).
Hypothesis range_spec : ∀ m, range m ≡ₚ map_to_list m.

Lemma range_NoDup (m : gmap string row) : NoDup ((range m).*1).
Proof. rewrite (range_spec m). apply NoDup_fst_map_to_list. Qed.

Lemma flags_of_rows s rows :
  Forall2 reports_port (sw_Ports s) rows → flags_of <$> rows = pt_Flags <$> sw_Ports s.
Proof. induction 1 as [|p r l k Hr _ IH]; [done|]. rewrite !fmap_cons, IH. f_equal. by apply flags_reported. Qed.

Lemma Observe_wp d s :
  wp (rest_step up) (Observe pem_ok d)
    (λ r s', s' = s ∧
       (∀ st, r = Ok st → ∃ id, st = state_of (sw_Target s) id (pt_Flags <$> sw_Ports s)) ∧
       (up = true → is_ok (connect pem_ok d) = true → is_ok r = true)) s.
Proof.
  unfold Observe, connected, prog_try at 1. cbn [prog_bind].
  destruct (connect pem_ok d) as [base|e]; [|by split_and!].
  apply wp_try, wp_call. intros [res|[t|t]] s' [-> Hx]; cbn [wp]; [|by split_and!; congruence..].
  apply wp_try, wrapping_wp, get_switch_wp; [|intros e Hup; cbn; by split_and!; congruence].
  intros sw (_ & _ & _ & Ht). cbn [result_map_err].
  apply wp_try, wrapping_wp, get_ports_wp; [|intros e Hup; cbn; by split_and!; congruence].
  intros rows Hrows. cbn [result_map_err wp]. split_and!; [done| |done].
  intros st [= <-]. eexists. by rewrite Ht, (flags_of_rows s).
Qed.

(** What [Configure] needs to succeed, the device willing. *)
Definition feasible (d : Device) (m : Mirror) (s : Switch) : Prop :=
  is_ok (connect pem_ok d) = true ∧ sound m ∧ mi_Target m ∈ port_names s ∧
  ∀ x, x ∈ mi_Sources m → x ∈ port_names s.

Lemma Configure_wp d m s :
  well_formed s →
  wp (rest_step up) (Configure quote pem_ok range d m)
    (λ r s', same_ports s s' ∧
       (r = Ok tt → feasible d m s ∧ carries s' m) ∧ (up = true → feasible d m s → r = Ok tt)) s.
Proof.
  intros Hw. unfold Configure, connected.
  destruct (Validate quote m) as [e|] eqn:Ev.
  { split_and!; [apply same_ports_refl|done|]. intros _ (_ & Hs & _). apply (Validate_sound quote) in Hs. congruence. }
  apply Validate_sound in Ev. unfold prog_try at 1. cbn [prog_bind].
  destruct (connect pem_ok d) as [base|e] eqn:Ec.
  2: { split_and!; [apply same_ports_refl|done|]. intros _ (H & _). by rewrite Ec in H. }
  set (Q := λ (r : result fabric_error unit) s', same_ports s s' ∧
       (r = Ok tt → feasible d m s ∧ carries s' m) ∧ (up = true → feasible d m s → r = Ok tt)).
  assert (∀ e, up = false → Q (Err e) s) as Hfail.
  { intros e Hup. split; [apply same_ports_refl|]. split; [done|]. congruence. }
  apply wp_try, wrapping_wp, get_switch_wp; [|intros e Hup; by apply Hfail].
  intros sw Hsw. cbn [result_map_err].
  apply wp_try, wrapping_wp, get_ports_wp; [|intros e Hup; by apply Hfail].
  intros rows Hrows. cbn [result_map_err]. cbv zeta.
  destruct (by_name rows !! mi_Target m) as [tr|] eqn:Et.
  2: { split_and!; [apply same_ports_refl|done|]. intros _ (_ & _ & Hin & _).
       apply (by_name_names s rows) in Hin; [|done]. rewrite Et in Hin. by destruct Hin. }
  assert (mi_Target m ∈ port_names s) as Htn by (apply (by_name_names s rows); [done|by rewrite Et]).
  destruct (missing_source (by_name rows) (mi_Sources m)) as [x|] eqn:Em.
  { split_and!; [apply same_ports_refl|done|]. intros _ (_ & _ & _ & Hin).
    assert (missing_source (by_name rows) (mi_Sources m) = None); [|congruence].
    apply missing_source_None. intros y Hy. apply (by_name_names s rows); [done|]. by apply Hin. }
  assert (∀ x, x ∈ mi_Sources m → x ∈ port_names s) as Hsrc.
  { intros x Hx. apply (by_name_names s rows); [done|]. by apply (proj1 (missing_source_None _ _) Em). }
  assert (feasible d m s) as Hfeas by (split_and!; [by rewrite Ec|done..]).
  apply wp_try, set_target_wp; [done|done| |].
  2: { intros e s' Hup Hs'. split; [done|]. split; [done|]. congruence. }
  intros s1 Hs1 Hp1 Ht1.
  eapply wp_mono; [|apply (set_ports_wp quote up base m (range (by_name rows)) s1);
    [by eapply well_formed_same|apply range_NoDup|]].
  2: { intros n r Hin. rewrite Hp1. by eapply by_name_described. }
  intros r s2 (Hs2 & Ht2 & Hup & Hok). split; [by eapply same_ports_trans|]. split; [|by intros Hup' _; apply Hup].
  intros Hr. split; [done|]. split; [by rewrite Ht2|]. intros p Hp. destruct (Hok Hr p Hp) as [Hin _].
  apply Hin. rewrite (range_spec (by_name rows)).
  assert (fl_Name (pt_Flags p) ∈ port_names s) as Hn.
  { destruct (same_ports_trans _ _ _ Hs1 Hs2) as (_ & _ & <- & _). by apply in_port_names. }
  apply (by_name_names s rows) in Hn as [r' Hr']; [|done].
  apply list_elem_of_fmap. exists (fl_Name (pt_Flags p), r'). split; [done|]. by apply elem_of_map_to_list.
Qed.

(** Clearing is setting for a request without sources, but for the message. *)
Definition no_sources : Mirror := mkMirror [] "" "".

Lemma wanted_none name : wanted_in no_sources name = false ∧ wanted_eg no_sources name = false.
Proof. unfold wanted_in, wanted_eg. by rewrite !(bool_decide_eq_false_2 (name ∈ mi_Sources no_sources)), !andb_false_r by apply not_elem_of_nil. Qed.

Lemma clear_ports_wp base rows (Q : bool → Switch → Prop) s :
  wp (rest_step up) (set_ports quote base no_sources ((λ r, (field_text r nameField, r)) <$> rows))
    (λ r s', Q (is_ok r) s') s →
  wp (rest_step up) (clear_ports quote base rows) (λ r s', Q (is_ok r) s') s.
Proof.
  revert s. induction rows as [|r rows IH]; intros s; [done|]. rewrite fmap_cons. cbn [set_ports clear_ports].
  destruct (wanted_none (field_text r nameField)) as [-> ->].
  assert (bool_decide (false = fl_In (flags_of r)) && bool_decide (false = fl_Eg (flags_of r)) =
          negb (mirrored (flags_of r))) as ->.
  { unfold mirrored. by destruct (fl_In (flags_of r)), (fl_Eg (flags_of r)). }
  destruct (negb (mirrored (flags_of r))); [apply IH|].
  unfold prog_try, wrapping, patch.
  destruct (validRouterOSID _); [|done]. cbn [negb]. intros Hw x s' Hst. specialize (Hw x s' Hst).
  destruct x as [[]|t]; [by apply IH|exact Hw].
Qed.

Lemma Revert_wp d s :
  well_formed s →
  wp (rest_step up) (Revert quote pem_ok d)
    (λ r s', same_ports s s' ∧ (r = Ok tt → bare s') ∧
       (up = true → is_ok (connect pem_ok d) = true → r = Ok tt)) s.
Proof.
  intros Hw. unfold Revert, connected, prog_try at 1. cbn [prog_bind].
  destruct (connect pem_ok d) as [base|e]; [|split_and!; [apply same_ports_refl|done|done]].
  apply wp_try, wrapping_wp, get_ports_wp; [|intros e Hup; cbn; split; [apply same_ports_refl|]; split; [done|congruence]].
  intros rows Hrows. cbn [result_map_err]. apply wp_try.
  set (entries := (λ r, (field_text r nameField, r)) <$> rows).
  assert (entries.*1 = port_names s) as Hnames.
  { unfold entries, port_names. clear -Hrows. induction Hrows as [|p r l k (_ & Hn & _) _ IH]; [done|].
    rewrite !fmap_cons, IH. simpl. by rewrite Hn. }
  eapply wp_mono; [|apply (clear_ports_wp base rows (λ ok s', same_ports s s' ∧ sw_Target s' = sw_Target s ∧
    (up = true → ok = true) ∧ (ok = true → ∀ p, p ∈ sw_Ports s' → mirrored (pt_Flags p) = false)))].
  2: { eapply wp_mono; [|apply (set_ports_wp quote up base no_sources entries); [done|rewrite Hnames; by destruct Hw|]].
    - intros r s' (Hs & Ht & Hup & Hok). split_and!; [done|done|by intros ->%Hup|].
      intros Hr p Hp. destruct r as [[]|]; [|done]. destruct (Hok eq_refl p Hp) as [Hin _].
      assert (fl_Name (pt_Flags p) ∈ port_names s) as Hn.
      { destruct Hs as (_ & _ & <- & _). by apply in_port_names. }
      rewrite Hnames in Hin. apply Hin in Hn as [Hi He]. unfold mirrored. rewrite Hi, He.
      by destruct (wanted_none (fl_Name (pt_Flags p))) as [-> ->].
    - intros n r (r' & [= -> ->] & Hin)%list_elem_of_fmap.
      apply list_elem_of_lookup in Hin as [i Hi]. destruct (Forall2_lookup_r _ _ _ _ _ Hrows Hi) as (p & Hp & Hrep).
      exists p. split; [by eapply list_elem_of_lookup_2|]. split; [|done]. by destruct Hrep as (_ & -> & _). }
  intros r s1 (Hs1 & _ & Hup1 & Hok1).
  destruct r as [[]|e]; [|split; [done|]; split; [done|]; intros Hup _; by specialize (Hup1 Hup)].
  specialize (Hok1 eq_refl).
  apply wp_try, wrapping_wp, get_switch_wp; [|intros e Hup; cbn; split; [done|]; split; [done|congruence]].
  intros sw (Hid & _ & _ & Ht). cbn [result_map_err]. rewrite Ht. case_bool_decide as Hnone.
  { split; [done|]. split; [|done]. intros _. by split. }
  pose proof (well_formed_same _ _ Hs1 Hw) as (_ & _ & Hv & _).
  assert (device_patch (switch_path +:+ "/" +:+ sw_Id s1) [(targetField, noMirrorTarget)] s1 =
          RouterOS.set_target s1 noMirrorTarget) as Hdev.
  { unfold device_patch. by rewrite !bool_decide_eq_true_2. }
  rewrite Hid. apply wrapping_wp, patch_wp; rewrite ?Hdev.
  - rewrite last_segment_app; [done|]. by apply valid_id_shape in Hv as [? _].
  - split; [by eapply same_ports_trans|]. split; [|done]. intros _. by split.
  - intros e Hup. split; (split; [by first [done|eapply same_ports_trans]|]; split; [done|congruence]).
Qed.

End methods.

(** ** Theorems *)

(** A mirror that was configured is there.  Against a switch nobody else is
    changing, whatever order Go ranges over the ports in and whichever calls
    fail: when [Configure] reports success the switch carries the request and
    nothing else, and what [Observe] reads back matches it.  No port is
    renamed or renumbered in any case; and while no call fails, a sound
    request for ports the switch has succeeds. *)
Theorem Configure_effective quote pem_ok range up d m s :
  (∀ rows, range rows ≡ₚ map_to_list rows) → well_formed s → mi_Target m ≠ noMirrorTarget →
  wp (rest_step up)
    (let! r := Configure quote pem_ok range d m in
     let! o := Observe pem_ok d in
     Ret (r, o))
    (λ '(r, o) s', same_ports s s' ∧
       (r = Ok tt → carries s' m ∧ ∀ st, o = Ok st → Matches st m = true) ∧
       (up = true → feasible pem_ok d m s → r = Ok tt ∧ is_ok o = true)) s.
Proof.
  intros Hrange Hw Hnone. apply wp_bind. eapply wp_mono; [|by apply Configure_wp].
  intros r s1 (Hs1 & Hok & Hup). apply wp_bind. eapply wp_mono; [|apply Observe_wp].
  intros o s2 (-> & Hst & Hoo). split; [done|]. split.
  - intros Hr. destruct (Hok Hr) as [(_ & Hsound & _ & Hsrc) Hc]. split; [done|].
    intros st (id & ->)%Hst. pose proof (well_formed_same _ _ Hs1 Hw) as (Hnd & _).
    apply carries_Matches; try done. destruct Hs1 as (_ & _ & -> & _). exact Hsrc.
  - intros Hu Hf. split; [by apply Hup|]. apply Hoo; [done|]. by destruct Hf.
Qed.

(** A mirror that was reverted is gone.  When [Revert] reports success no
    port of the switch is copied and no target is set, so [Observe] reports no
    mirror; and while no call fails it succeeds, whatever was configured. *)
Theorem Revert_effective quote pem_ok up d s :
  well_formed s →
  wp (rest_step up)
    (let! r := Revert quote pem_ok d in
     let! o := Observe pem_ok d in
     Ret (r, o))
    (λ '(r, o) s', same_ports s s' ∧
       (r = Ok tt → bare s' ∧ ∀ st, o = Ok st → st_Sources st = [] ∧ st_Target st = "") ∧
       (up = true → is_ok (connect pem_ok d) = true → r = Ok tt ∧ is_ok o = true)) s.
Proof.
  intros Hw. apply wp_bind. eapply wp_mono; [|by apply Revert_wp].
  intros r s1 (Hs1 & Hok & Hup). apply wp_bind. eapply wp_mono; [|apply Observe_wp].
  intros o s2 (-> & Hst & Hoo). split; [done|]. split.
  - intros Hr. split; [by apply Hok|]. intros st (id & ->)%Hst. by apply bare_state, Hok.
  - intros Hu Hc. split; [by apply Hup|by apply Hoo].
Qed.

(** *** The driver touches mirroring only *)

Definition mirror_field (f : str) : Prop := f ∈ [targetField; ingressField; egressField].

(** Reads of three objects, and writes of mirror fields under the switch. *)
Definition mirroring_only (X : Type) (e : restE X) : unit → Prop :=
  match e with
  | GetRow _ path => λ _, path = resource_path
  | GetRows _ path => λ _, path = switch_path ∨ path = port_path
  | Patch _ path payload => λ _,
      validRouterOSID (last_segment path) = true ∧ has_prefix path (switch_path +:+ "/") = true ∧
      Forall (mirror_field ∘ fst) payload
  end.

(** Whatever the device answers. *)
Definition anything (X : Type) (e : restE X) (s : unit) (x : X) (s' : unit) : Prop := True.

Abbreviation confined p := (obeys anything mirroring_only p tt) (only parsing).

Lemma confined_bind {A B} (p : prog restE A) (f : A → prog restE B) :
  confined p → (∀ a, confined (f a)) → confined (prog_bind p f).
Proof.
  intros Hp Hf. apply obeys_bind; [done|]. clear Hp.
  induction p as [a|X e k IH]; simpl; [apply Hf|]. intros x [] _. apply IH.
Qed.

Lemma confined_try {A B} (p : prog restE (result fabric_error A)) (f : A → prog restE (result fabric_error B)) :
  confined p → (∀ a, confined (f a)) → confined (prog_try p f).
Proof. intros Hp Hf. apply confined_bind; [done|]. by intros [a|e]. Qed.

Lemma confined_wrapping {A} prefix (p : prog restE (result fabric_error A)) :
  confined p → confined (wrapping prefix p).
Proof. intros Hp. by apply confined_bind. Qed.

Lemma confined_get base path : path = switch_path ∨ path = port_path → confined (get base path).
Proof. by split. Qed.

Lemma confined_patch quote base path payload :
  has_prefix path (switch_path +:+ "/") = true → Forall (mirror_field ∘ fst) payload →
  confined (patch quote base path payload).
Proof. intros Hp Hf. unfold patch. destruct (validRouterOSID _) eqn:E; [by split|done]. Qed.

Lemma confined_port quote base id i e :
  confined (patch quote base (port_path +:+ "/" +:+ id) [(ingressField, i); (egressField, e)]).
Proof.
  apply confined_patch.
  - change port_path with (switch_path +:+ "/port"). rewrite str_app_assoc. apply has_prefix_spec. by eexists.
  - repeat constructor.
Qed.

Lemma confined_target quote base id t :
  confined (patch quote base (switch_path +:+ "/" +:+ id) [(targetField, t)]).
Proof.
  apply confined_patch; [apply has_prefix_spec; eexists; by rewrite str_app_assoc|].
  repeat constructor.
Qed.

Lemma confined_ports quote base m entries : confined (set_ports quote base m entries).
Proof.
  induction entries as [|[n r] rest IH]; [done|]. cbn [set_ports].
  destruct (_ && _); [done|]. apply confined_try; [|by intros _]. apply confined_wrapping, confined_port.
Qed.

Lemma confined_clear quote base rows : confined (clear_ports quote base rows).
Proof.
  induction rows as [|r rows IH]; [done|]. cbn [clear_ports].
  destruct (negb _); [done|]. apply confined_try; [|by intros _]. apply confined_wrapping, confined_port.
Qed.

(** The driver touches mirroring and nothing else.  Whatever the device
    answers to any request, the three methods read the resource, switch and
    port objects, and write only the mirror target and the two mirror flags,
    under the switch's path and to a path that ends in a RouterOS id. *)
Theorem driver_confined quote pem_ok range d m :
  confined (Observe pem_ok d) ∧ confined (Configure quote pem_ok range d m) ∧ confined (Revert quote pem_ok d).
Proof.
  split_and!.
  - apply confined_try; [done|]. intros base. apply confined_try; [by split|]. intros id.
    apply confined_try; [apply confined_wrapping, confined_get; by left|]. intros [|sw l]; [done|].
    apply confined_try; [apply confined_wrapping, confined_get; by right|done].
  - unfold Configure. destruct (Validate _ _); [done|]. apply confined_try; [done|]. intros base.
    apply confined_try; [apply confined_wrapping, confined_get; by left|]. intros [|sw l]; [done|].
    apply confined_try; [apply confined_wrapping, confined_get; by right|]. intros rows. cbv zeta.
    destruct (by_name rows !! mi_Target m), (missing_source (by_name rows) (mi_Sources m)); try done.
    apply confined_try; [|intros _; apply confined_ports].
    unfold set_target. case_bool_decide; [done|]. apply confined_wrapping, confined_target.
  - apply confined_try; [done|]. intros base.
    apply confined_try; [apply confined_wrapping, confined_get; by right|]. intros rows.
    apply confined_try; [apply confined_clear|intros _].
    apply confined_try; [apply confined_wrapping, confined_get; by left|]. intros [|sw l]; [done|].
    case_bool_decide; [done|]. apply confined_wrapping, confined_target.
Qed.

(** *** Where the driver falls short *)

(** A switch that answers every request. *)
Definition port_row (p : Port) : row :=
  <[idField := JString (pt_Id p)]> (<[nameField := JString (fl_Name (pt_Flags p))]>
    (<[ingressField := JBool (fl_In (pt_Flags p))]> {[egressField := JBool (fl_Eg (pt_Flags p))]})).

Definition switch_row (s : Switch) : row :=
  <[idField := JString (sw_Id s)]> (<[nameField := JString (sw_Name s)]> {[targetField := JString (sw_Target s)]}).

Definition device_answer (X : Type) (e : restE X) (s : Switch) : X * Switch :=
  match e with
  | GetRows _ path =>
      (Ok (if bool_decide (path = switch_path) then [switch_row s]
           else if bool_decide (path = port_path) then port_row <$> sw_Ports s else []), s)
  | GetRow _ _ => (Ok ∅, s)
  | Patch _ path payload => (Ok tt, device_patch path payload s)
  end.

Lemma port_row_reports p : reports_port p (port_row p).
Proof. unfold reports_port, port_row, field_text. by destruct p as [id [n [] []]]; simplify_map_eq. Qed.

Lemma switch_row_reports s : reports_switch s (switch_row s).
Proof. unfold reports_switch, switch_row, field_text. by destruct s; simplify_map_eq. Qed.

Lemma device_lawful X (e : restE X) s x s' : handles device_answer X e s x s' → rest_step true X e s x s'.
Proof.
  destruct e; intros [= <- <-]; simpl; [split; [done|]|done|done]. split.
  - intros ->. rewrite bool_decide_eq_true_2 by done. eexists. split; [done|]. apply switch_row_reports.
  - intros ->. rewrite bool_decide_eq_false_2, bool_decide_eq_true_2 by done. apply Forall2_fmap_r, Forall_Forall2_diag.
    apply Forall_true, port_row_reports.
Qed.

Definition example_port (id name : str) (b : bool) : Port := mkPort id (mkFlags name b b).

(** ether1 is copied to ether24, a second probe's. *)
Definition example_switch : Switch :=
  mkSwitch "*0" "switch1" "ether24"
    [example_port "*1" "ether1" true; example_port "*2" "ether2" false;
     example_port "*a" "ether23" false; example_port "*b" "ether24" false].

Definition example_mirror : Mirror := mkMirror ["ether2"] "ether23" "".
Definition example_device : Device := mkDevice "192.0.2.1" "trawl" "secret" "" "" "" false.

Definition example_run : prog restE (result fabric_error unit) :=
  Configure (λ s, s) (λ _, true) map_to_list example_device example_mirror.

Lemma example_well_formed : well_formed example_switch.
Proof.
  split; [apply (bool_decide_unpack _); vm_compute; exact I|].
  split; [apply (bool_decide_unpack _); vm_compute; exact I|]. split; [done|]. by repeat constructor.
Qed.

Lemma example_sound : sound example_mirror.
Proof. apply (Validate_sound (λ s, s)). vm_compute. reflexivity. Qed.

(** The same switch refusing every write to a port. *)
Definition stubborn_answer (X : Type) (e : restE X) (s : Switch) : X * Switch :=
  match e with
  | Patch _ path payload =>
      if has_prefix path (port_path +:+ "/") then (Err "500", s) else (Ok tt, device_patch path payload s)
  | GetRows base path => device_answer _ (GetRows base path) s
  | GetRow base path => device_answer _ (GetRow base path) s
  end.

Lemma device_partly_lawful X (e : restE X) s x s' : handles device_answer X e s x s' → rest_step false X e s x s'.
Proof.
  intros H%device_lawful. destruct e; simpl in *.
  - destruct x; [exact H|]. by destruct H.
  - destruct x; [exact H|]. by destruct H.
  - destruct x; [exact H|]. by destruct H.
Qed.

Lemma stubborn_lawful X (e : restE X) s x s' : handles stubborn_answer X e s x s' → rest_step false X e s x s'.
Proof.
  destruct e as [base path|base path|base path payload].
  - apply (device_partly_lawful _ (GetRows base path)).
  - apply (device_partly_lawful _ (GetRow base path)).
  - unfold handles, stubborn_answer. destruct (has_prefix _ _); intros [= <- <-]; simpl; [|done].
    split; [done|by left].
Qed.

Definition leaking : result fabric_error unit * Switch := run stubborn_answer example_run example_switch.

(** Setting the target first leaks.  The driver sets the new target before
    it clears the old sources, so that a refused target leaves nothing copied
    to a wrong port; but a port the request does not name is then copied to
    the request's target until the loop has cleared it, and for good when that
    write fails: here ether1's traffic ends up at ether23, where only
    ether2's was asked for. *)
Theorem target_first_leaks :
  well_formed example_switch ∧ sound example_mirror ∧
  exec (rest_step false) example_run example_switch leaking.1 leaking.2 ∧
  is_ok leaking.1 = false ∧ ¬ no_leak example_switch example_mirror leaking.2.
Proof.
  split; [apply example_well_formed|]. split; [apply example_sound|]. split.
  - eapply exec_sub; [apply stubborn_lawful|]. apply run_exec.
  - assert (∃ e, leaking = (Err e, RouterOS.set_target example_switch "ether23")) as [e ->] by
      (eexists; vm_compute; reflexivity).
    split; [done|]. intros Hleak.
    destruct (Hleak (example_port "*1" "ether1" true) ltac:(left) eq_refl) as [[Ht _]|[_ Hin]]; [discriminate|].
    by apply list_elem_of_singleton in Hin.
Qed.

(** An id with a slash in it passes the check of its last segment. *)
Theorem id_check_bypassed quote base payload :
  let id := "*0/../../../../user/*1" in
  validRouterOSID id = false ∧
  patch quote base (switch_path +:+ "/" +:+ id) payload =
    (let! r := call (Patch base (switch_path +:+ "/" +:+ id) payload) in Ret (result_map_err DeviceError r)).
Proof. by split. Qed.

(** *** A correct mirror is not rewritten *)

Definition reads (X : Type) (e : restE X) (s : Switch) : Prop :=
  match e with Patch _ _ _ => False | _ => True end.

Lemma set_ports_carried quote base m entries s :
  described s entries → carries s m → set_ports quote base m entries = Ret (Ok tt).
Proof.
  intros Hd [_ Hc]. induction entries as [|[n r] rest IH]; [done|]. cbn [set_ports].
  destruct (Hd n r ltac:(left)) as (p & Hp & <- & Hr). rewrite (flags_reported p r Hr).
  destruct (Hc p Hp) as [-> ->]. rewrite !bool_decide_eq_true_2 by done. cbn [andb].
  apply IH. intros n' r' Hin. apply Hd. by right.
Qed.

(** A mirror that is in place is not written again: against a switch that
    carries the request, [Configure] only reads. *)
Theorem Configure_idempotent quote pem_ok range up d m s :
  (∀ rows, range rows ≡ₚ map_to_list rows) → carries s m →
  obeys (rest_step up) reads (Configure quote pem_ok range d m) s.
Proof.
  intros Hrange Hc. unfold Configure, connected. destruct (Validate quote m); [done|].
  unfold prog_try at 1. cbn [prog_bind]. destruct (connect pem_ok d) as [base|e]; [|done].
  apply obeys_try; [by split|]. apply wrapping_wp, get_switch_wp; [|done]. intros sw (_ & _ & _ & Ht).
  apply obeys_try; [by split|]. apply wrapping_wp, get_ports_wp; [|done]. intros rows Hrows. cbv zeta. cbn [result_map_err].
  destruct (by_name rows !! mi_Target m), (missing_source (by_name rows) (mi_Sources m)); try done.
  unfold set_target. rewrite Ht, bool_decide_eq_true_2 by apply Hc. unfold prog_try. cbn [prog_bind].
  rewrite (set_ports_carried quote base m _ s); [done| |done]. by apply by_name_described.
Qed.

(** ** Witnesses *)

Definition example_session : prog restE (result fabric_error unit * result fabric_error State) :=
  let! r := example_run in let! o := Observe (λ _, true) example_device in Ret (r, o).

Lemma Configure_effective_witness :
  let '((r, o), s') := run device_answer example_session example_switch in
  r = Ok tt ∧ carries s' example_mirror.
Proof.
  assert (wp (handles device_answer) example_session (λ '(r, o) s', r = Ok tt → carries s' example_mirror)
    example_switch) as Hw.
  { eapply wp_sub; [apply device_lawful|]. eapply wp_mono;
      [|apply (Configure_effective (λ s, s) (λ _, true) map_to_list true example_device example_mirror example_switch)].
    - intros [r o] s' (_ & Hok & _) Hr. by apply Hok.
    - done.
    - apply example_well_formed.
    - discriminate. }
  pose proof (wp_exec _ _ _ _ _ _ (run_exec device_answer example_session example_switch) Hw) as Hend.
  destruct (run _ _ _) as [[r o] s'] eqn:E. assert (r = Ok tt) as Hr.
  { apply (f_equal (fst ∘ fst)) in E. cbn [compose fst] in E. rewrite <-E. vm_compute. reflexivity. }
  split; [exact Hr|by apply Hend].
Defined.

Lemma Revert_effective_witness :
  let '((r, o), s') := run device_answer
    (let! r := Revert (λ s, s) (λ _, true) example_device in let! o := Observe (λ _, true) example_device in Ret (r, o))
    example_switch in
  r = Ok tt ∧ bare s'.
Proof.
  set (p := prog_bind _ _).
  assert (wp (handles device_answer) p (λ '(r, o) s', r = Ok tt → bare s') example_switch) as Hw.
  { eapply wp_sub; [apply device_lawful|]. eapply wp_mono;
      [|apply (Revert_effective (λ s, s) (λ _, true) true example_device example_switch), example_well_formed].
    intros [r o] s' (_ & Hok & _) Hr. by apply Hok. }
  pose proof (wp_exec _ _ _ _ _ _ (run_exec device_answer p example_switch) Hw) as Hend.
  destruct (run _ _ _) as [[r o] s'] eqn:E. assert (r = Ok tt) as Hr.
  { apply (f_equal (fst ∘ fst)) in E. cbn [compose fst] in E. rewrite <-E. vm_compute. reflexivity. }
  split; [exact Hr|by apply Hend].
Defined.

Lemma Configure_idempotent_witness :
  obeys (rest_step false) reads
    (Configure (λ s, s) (λ _, true) map_to_list example_device (mkMirror ["ether1"] "ether24" "")) example_switch.
Proof.
  apply Configure_idempotent; [done|]. split; [done|].
  intros p Hp. repeat (apply elem_of_cons in Hp as [->|Hp]; [by split|]). by apply elem_of_nil in Hp.
Defined.

End Mikrotik.
