(* ===== verification/MikrotikSSH.v ===== *)
(** * The SSH driver, internal/fabric/mikrotikssh/mikrotikssh.go

    The same switches over RouterOS commands.  A program over the commands it
    runs: [Query] is a command whose output is JSON, with encoding/json's
    reading of it, [Exec] one whose output is ignored.  The transport and its
    host key check are the answers of [Dial] there; closing it is left out.
    Module SshTransport is the transport itself, internal/fabric/sshtransport. *)

From Stdlib Require Import Ascii.
From S2P Require Import Prelude GoTime GoString Utf8 Sanitize Fabric RouterOS Prog.

(** ** The transport

    A connection to a switch: the pinned host key, the authentication that must
    come after it, and bounded output.  The client library's handshake is the
    order it documents: keys are exchanged, the host key callback decides, and
    only then is anything authenticated; a session whose output cannot be
    copied ends with the copy's error.  Key and address parsing are arguments. *)

Module SshTransport.
Import Fabric.

Inductive auth_method := PublicKeys (key : str) | PasswordAuth (password : str).

(** What [net.SplitHostPort] makes of an address. *)
Inductive split := HasPort | MissingPort | BadAddress.

(** A command's output as it is written, and how the command ended. *)
Inductive dialE : Type → Type :=
  | CtxErr : dialE (option str)
  | DialTCP (address : str) : dialE (result str unit)
  | SetDeadline : dialE bool
  | KeyExchange : dialE (result str str)
  | Authenticate (user : str) (auth : auth_method) : dialE (result str unit)
  | CloseConn : dialE unit
  | NewSession : dialE (result str unit)
  | RunCommand (command : str) : dialE (list str * list str * option str)
  | CloseSession : dialE unit.

Definition maxOutput : Z := 1048576.
Definition maxStderr : Z := 16384.

Section transport.
Context (parse_authorized_key : str → option (str * str)) (valid_private_key : str → bool) (split_host_port : str → split).

Definition join_port (address : str) : str :=
  if str_contains address ":" then "[" +:+ address +:+ "]:22" else address +:+ ":22".

(** What the Secret gives: the pinned key, the authentication and the address. *)
Definition dial_config (d : Device) : result fabric_error (str * auth_method * str) :=
  if bool_decide (dev_SSHHostKey d = "") then Err (DeviceError "device Secret is missing sshHostKey") else
  match parse_authorized_key (dev_SSHHostKey d) with
  | None => Err (UntrustedDevice "device SSH host key is not trusted: invalid sshHostKey")
  | Some (key, rest) =>
      if negb (bool_decide (trim_space rest = "")) then Err (UntrustedDevice "device SSH host key is not trusted: invalid sshHostKey") else
      if bool_decide (dev_Username d = "") then Err (DeviceError "device Secret is missing username") else
      let auth :=
        if negb (bool_decide (dev_SSHPrivateKey d = "")) then
          if valid_private_key (dev_SSHPrivateKey d) then Ok (PublicKeys (dev_SSHPrivateKey d))
          else Err (DeviceError "device Secret has an invalid sshPrivateKey")
        else if negb (bool_decide (dev_Password d = "")) then Ok (PasswordAuth (dev_Password d))
        else Err (DeviceError "device Secret needs sshPrivateKey or password") in
      match auth with
      | Err e => Err e
      | Ok auth =>
          if bool_decide (dev_Address d = "") then Err (DeviceError "device Secret is missing address") else
          match split_host_port (dev_Address d) with
          | HasPort => Ok (key, auth, dev_Address d)
          | MissingPort => Ok (key, auth, join_port (dev_Address d))
          | BadAddress => Err (DeviceError "device Secret has an invalid address")
          end
      end
  end.

(** The handshake, and whether it was the host key that failed. *)
Definition NewClientConn (key user : str) (auth : auth_method) : prog dialE (option bool) :=
  let! offered := call KeyExchange in
  match offered with
  | Err _ => Ret (Some false)
  | Ok offered =>
      if negb (bool_decide (offered = key)) then Ret (Some true) else
      let! res := call (Authenticate user auth) in
      Ret match res with Err _ => Some false | Ok _ => None end
  end.

Definition hang_up {A} (e : fabric_error) : prog dialE (result fabric_error A) :=
  let! _ := call CloseConn in Ret (Err e).

Definition Dial (d : Device) : prog dialE (result fabric_error unit) :=
  match dial_config d with
  | Err e => Ret (Err e)
  | Ok (key, auth, address) =>
      let! conn := call (DialTCP address) in
      match conn with
      | Err err => Ret (Err (DeviceError ("connecting to the device over SSH: " +:+ Sanitize.String_ err)))
      | Ok _ =>
          let! ok := call SetDeadline in
          if negb ok then hang_up (DeviceError "setting the SSH connection deadline failed") else
          let! failed := NewClientConn key (dev_Username d) auth in
          match failed with
          | Some true => hang_up (UntrustedDevice "device SSH host key is not trusted")
          | Some false => hang_up (DeviceError "SSH handshake or authentication failed")
          | None =>
              let! ok := call SetDeadline in
              if negb ok then hang_up (DeviceError "clearing the SSH connection deadline failed") else Ret (Ok tt)
          end
      end
  end.

(** ** Commands *)

Record boundedBuffer := mkBuffer { bb_buf : str; bb_max : Z; bb_overflow : bool }.

(** The buffer after a write, and whether the write failed. *)
Definition buffer_Write (b : boundedBuffer) (p : str) : boundedBuffer * bool :=
  if bb_max b <? slen (bb_buf b) + slen p then (mkBuffer (bb_buf b) (bb_max b) true, true)
  else (mkBuffer (bb_buf b +:+ p) (bb_max b) (bb_overflow b), false).

Fixpoint buffer_copy (b : boundedBuffer) (stream : list str) : boundedBuffer :=
  match stream with
  | [] => b
  | p :: stream => let '(b, failed) := buffer_Write b p in if failed : bool then b else buffer_copy b stream
  end.

(** [session.Run]: how the command ended, or else why its output was not copied. *)
Definition run_session (command : str) : prog dialE (boundedBuffer * boundedBuffer * option str) :=
  let! (out, err_out, ended) := call (RunCommand command) in
  let stdout := buffer_copy (mkBuffer "" maxOutput false) out in
  let stderr := buffer_copy (mkBuffer "" maxStderr false) err_out in
  Ret (stdout, stderr, match ended with
                       | Some err => Some err
                       | None => if bb_overflow stdout || bb_overflow stderr then Some "SSH output limit reached" else None
                       end).

(** The session closed and the deadline cleared, whatever the outcome. *)
Definition Run (command : str) : prog dialE (result str str) :=
  let! err := call CtxErr in
  match err with
  | Some err => Ret (Err err)
  | None =>
      let! ok := call SetDeadline in
      if negb ok then Ret (Err "setting the SSH command deadline failed") else
      let! session := call NewSession in
      match session with
      | Err err => let! _ := call SetDeadline in Ret (Err ("opening an SSH session: " +:+ Sanitize.String_ err))
      | Ok _ =>
          let! (stdout, stderr, err) := run_session command in
          let! res := (match err with
                       | Some err =>
                           let! cancelled := call CtxErr in
                           Ret (Err (match cancelled with Some err => err | None => "device command failed: " +:+ Sanitize.String_ err end))
                       | None =>
                           Ret (if bb_overflow stdout || bb_overflow stderr then Err "device command output exceeded its limit"
                                else Ok (bb_buf stdout))
                       end) in
          let! _ := call CloseSession in
          let! _ := call SetDeadline in
          Ret res
      end
  end.

(** ** A connection *)

(** Whether it is open, the key it was offered, what it was shown. *)
Record connection := mkConn { co_Open : bool; co_Offered : option str; co_Shown : option (str * auth_method) }.

Definition no_connection : connection := mkConn false None None.

Definition connects (X : Type) (e : dialE X) (c : connection) : X → connection → Prop :=
  match e with
  | DialTCP _ => λ x c', match x with Ok _ => c' = mkConn true None None | Err _ => c' = c end
  | KeyExchange => λ x c', c' = mkConn (co_Open c) (match x with Ok k => Some k | Err _ => None end) (co_Shown c)
  | Authenticate user auth => λ _ c', c' = mkConn (co_Open c) (co_Offered c) (Some (user, auth))
  | CloseConn => λ _ c', c' = mkConn false (co_Offered c) (co_Shown c)
  | _ => λ _ c', c' = c
  end.

(** A credential is shown only over an open connection to the pinned key. *)
Definition guarded (d : Device) (X : Type) (e : dialE X) (c : connection) : Prop :=
  match e with
  | Authenticate user auth =>
      co_Open c = true ∧ user = dev_Username d ∧
      ∃ key rest, parse_authorized_key (dev_SSHHostKey d) = Some (key, rest) ∧ trim_space rest = "" ∧ co_Offered c = Some key
  | _ => True
  end.

Lemma dial_config_key d key auth address :
  dial_config d = Ok (key, auth, address) → ∃ rest, parse_authorized_key (dev_SSHHostKey d) = Some (key, rest) ∧ trim_space rest = "".
Proof.
  unfold dial_config. intros H. repeat (case_match; simplify_eq/=; try done);
    match goal with H : negb (bool_decide (trim_space ?r = "")) = false |- _ => apply negb_false_iff, bool_decide_eq_true in H; by exists r end.
Qed.

(** *** Output *)

Definition bytes_of (chunks : list str) : str := foldr (λ p s, p +:+ s) "" chunks.

Lemma buffer_copy_whole chunks : ∀ b,
  bb_overflow b = false → slen (bb_buf b) ≤ bb_max b →
  let b' := buffer_copy b chunks in
  bb_overflow b' = bool_decide (bb_max b < slen (bb_buf b +:+ bytes_of chunks)) ∧
  (bb_overflow b' = false → bb_buf b' = bb_buf b +:+ bytes_of chunks).
Proof.
  induction chunks as [|p chunks IH]; intros b Ho Hl; simpl.
  - rewrite str_app_nil_r. rewrite bool_decide_eq_false_2 by lia. by split.
  - unfold buffer_Write. destruct (Z.ltb_spec (bb_max b) (slen (bb_buf b) + slen p)) as [Hov|Hfit]; simpl.
    + rewrite bool_decide_eq_true_2; [by split|]. rewrite !slen_app. pose proof (slen_nonneg (bytes_of chunks)). unfold bytes_of in *. lia.
    + destruct (IH (mkBuffer (bb_buf b +:+ p) (bb_max b) (bb_overflow b))) as [H1 H2]; [done|simpl; rewrite slen_app; lia|].
      simpl in H1, H2. rewrite <-str_app_assoc. unfold bytes_of in *. by split.
Qed.

(** ** Theorems *)

(** The credential follows the pin.  Whatever the network and the device
    answer, the driver's credential is shown only to the pinned host key, over
    an open connection; a dial that succeeds leaves a connection open that was offered
    that key and authenticated, one that fails leaves none; and the device is
    called untrusted exactly if its pin is unusable or the key it offered is
    not the pinned one. *)
Theorem credential_follows_pin d :
  meets connects (guarded d) (Dial d)
    (λ r c, match r with
      | Ok _ => co_Open c = true ∧ co_Shown c ≠ None ∧
          ∃ key rest, parse_authorized_key (dev_SSHHostKey d) = Some (key, rest) ∧ co_Offered c = Some key
      | Err (UntrustedDevice _) => co_Open c = false ∧ co_Shown c = None ∧
          (∀ key rest, parse_authorized_key (dev_SSHHostKey d) = Some (key, rest) → trim_space rest = "" →
             ∃ other, co_Offered c = Some other ∧ other ≠ key)
      | Err _ => co_Open c = false ∧
          (∀ key rest, parse_authorized_key (dev_SSHHostKey d) = Some (key, rest) → co_Offered c = None ∨ co_Offered c = Some key)
      end) no_connection.
Proof.
  unfold Dial. destruct (dial_config d) as [[[key auth] address]|e] eqn:Ec.
  - destruct (dial_config_key _ _ _ _ Ec) as (rest & Hkey & Hrest).
    assert (∀ c, co_Offered c = None ∨ co_Offered c = Some key →
      co_Open c = false → co_Open c = false ∧ (∀ key rest, parse_authorized_key (dev_SSHHostKey d) = Some (key, rest) →
        co_Offered c = None ∨ co_Offered c = Some key)) as Hother.
    { intros c Hc Hopen. split; [done|]. intros key' rest' Hk. rewrite Hkey in Hk. by injection Hk as <- _. }
    apply meets_call; [done|]. intros x c Hx. destruct x as [u|err]; cbn in Hx; subst c; [|apply Hother; [by left|done]].
    apply meets_call; [done|]. intros ok c ->. destruct ok; cbn [negb]; [|split; [done|]; intros ? ? ->; apply Hother; [by left|done]].
    apply meets_bind. apply meets_call; [done|]. intros x c ->. destruct x as [offered|err]; cbn [prog_bind];
      [|cbn; split; [done|]; intros ? ? ->; apply Hother; [by left|done]].
    case_bool_decide as Heq; cbn [negb].
    + subst offered. apply meets_call; [split_and!; [done..|by exists key, rest]|]. intros x c ->.
      destruct x as [u'|err]; cbn [prog_bind meets]; [|split; [done|]; intros ? ? ->; apply Hother; [by right|done]].
      apply meets_call; [done|]. intros ok c ->. destruct ok; cbn [negb]; [|split; [done|]; intros ? ? ->; apply Hother; [by right|done]].
      split_and!; [done..|by exists key, rest].
    + cbn [meets]. split; [done|]. intros ? ? ->. split_and!; [done..|]. intros key' rest' Hk' _. exists offered. by simplify_eq.
  - assert (∀ t, e = UntrustedDevice t → ∀ key rest, parse_authorized_key (dev_SSHHostKey d) = Some (key, rest) → trim_space rest = "" → False) as Hun.
    { intros t -> key rest Hk Hr. unfold dial_config in Ec. rewrite Hk, Hr in Ec. repeat (case_match; simplify_eq/=; try done). }
    destruct e as [t|t|t]; [split; [done|]; by left| |split; [done|]; by left].
    split_and!; [done..|]. intros key rest Hk Hr. by destruct (Hun t eq_refl key rest).
Qed.

(** Whatever the device writes, a command's output is returned whole and within its bounds, or not at all. *)
Theorem output_whole command {S} (step : ∀ X, dialE X → S → X → S → Prop) s :
  wp step (Run command) (λ r _, ∀ o, r = Ok o → slen o ≤ maxOutput ∧
    ∃ s0 s1 out err_out, step _ (RunCommand command) s0 (out, err_out, None) s1 ∧ o = bytes_of out ∧ slen (bytes_of err_out) ≤ maxStderr) s.
Proof.
  unfold Run. intros err s1 _. destruct err; [done|]. intros ok s2 _. destruct ok; [|done]. cbn [negb].
  intros session s3 _. destruct session as [u|err]; [|by intros ? ? _]. unfold run_session.
  intros [[out err_out] ended] s4 Hst. cbn [prog_bind].
  destruct (buffer_copy_whole out (mkBuffer "" maxOutput false) eq_refl ltac:(done)) as [Ho1 Hw1].
  destruct (buffer_copy_whole err_out (mkBuffer "" maxStderr false) eq_refl ltac:(done)) as [Ho2 _].
  cbn [bb_max bb_buf] in *. change ("" +:+ bytes_of out) with (bytes_of out) in *. change ("" +:+ bytes_of err_out) with (bytes_of err_out) in *.
  destruct (bb_overflow (buffer_copy _ out)) eqn:E1.
  { destruct ended; (intros ? ? _ || idtac); repeat (intros ? ? _; cbn [prog_bind]); done. }
  destruct (bb_overflow (buffer_copy _ err_out)) eqn:E2.
  { destruct ended; repeat (intros ? ? _; cbn [prog_bind]); done. }
  destruct ended as [err|]; [repeat (intros ? ? _; cbn [prog_bind]); done|]. cbn [orb prog_bind].
  intros ? ? _ ? ? _ o [= <-]. symmetry in Ho1, Ho2. apply bool_decide_eq_false in Ho1, Ho2. rewrite Hw1 by done.
  split; [lia|]. exists s3, s4, out, err_out. split_and!; [done..|lia].
Qed.

End transport.
End SshTransport.

(** ** The driver *)

Module MikrotikSSH.
Import Fabric RouterOS.

Definition ProviderName : str := "MikroTikRouterOS7SSH".
Definition supportedBoard : str := "CRS328-24P-4S+".

(** An array of objects, an object, or neither. *)
Inductive decoded := Rows (rows : list row) | Row (r : row) | NotJSON.

Inductive sshE : Type → Type :=
  | Dial (d : Device) : sshE (result fabric_error unit)
  | Query (command : str) : sshE (result str decoded)
  | Exec (command : str) : sshE (result str unit).

(** ** Names and commands *)

Definition name_char (c : ascii) : bool :=
  let b := byte_of c in
  ((97 <=? b) && (b <=? 122)) || ((65 <=? b) && (b <=? 90)) || ((48 <=? b) && (b <=? 57)) ||
  bool_decide (c ∈ ["."; "_"; "-"; "/"]%char).

Definition validName (name : str) : bool :=
  negb (bool_decide (name = "")) && (slen name <=? 64) && str_forallb name_char name.

Definition dquote : str := String "034" "".

Definition yesNo (v : bool) : str := if v then "yes" else "no".

Definition query_command (path : str) : str :=
  ":put [:serialize to=json options=json.no-string-conversion value=[" +:+ path +:+ "]]".

Definition target_prefix (switchName : str) : str :=
  "/interface ethernet switch set [find where name=" +:+ dquote +:+ switchName +:+ dquote +:+
  "] mirror-target=" +:+ dquote.

Definition target_command (switchName target : str) : str := target_prefix switchName +:+ target +:+ dquote.

Definition port_command (name : str) (ingress egress : bool) : str :=
  "/interface ethernet switch port set [find where name=" +:+ dquote +:+ name +:+ dquote +:+
  "] mirror-ingress=" +:+ yesNo ingress +:+ " mirror-egress=" +:+ yesNo egress.

Definition resource_query : str := query_command "/system resource print as-value".
Definition switch_query : str := query_command "/interface ethernet switch print as-value".
Definition port_query : str := query_command "/interface ethernet switch port print as-value".

(** ** Reading *)

(** Ports by name, with their ingress and egress flags. *)
Abbreviation port_map := (gmap string (bool * bool)) (only parsing).

Record snapshot := mkSnapshot { sn_State : State; sn_SwitchName : str; sn_Ports : gmap string (bool * bool) }.

Section driver.
Context (quote : str → str).

Abbreviation outcome A := (prog sshE (result fabric_error A)) (only parsing).

Definition fail {A} (e : fabric_error) : outcome A := Ret (Err e).

Definition prefixed {A} (prefix : str) (p : outcome A) : outcome A :=
  let! r := p in Ret (result_map_err (wrap_error prefix) r).

Definition queryRows (command : str) : outcome (list row) :=
  let! r := call (Query command) in
  Ret match r with
      | Err t => Err (DeviceError t)
      | Ok (Rows rows) => Ok rows
      | Ok (Row r) => Ok [r]
      | Ok NotJSON => Err (DeviceError "device returned invalid JSON for a mirror query")
      end.

Definition unsupported (what : str) : fabric_error :=
  UnsupportedDevice ("device is not supported by this provider: " +:+ what).

(** A field that is there and not null. *)
Definition present (r : row) (key : str) : bool :=
  match r !! key with Some JNull | None => false | _ => true end.

Definition boolean (v : str) : result fabric_error bool :=
  if bool_decide (v ∈ ["true"; "yes"]) then Ok true else
  if bool_decide (v ∈ ["false"; "no"]) then Ok false else Err (unsupported "invalid mirror boolean").

Definition readSwitch : outcome (str * str) :=
  let!? switches := prefixed "reading switch layout: " (queryRows switch_query) in
  match switches with
  | [sw] =>
      if negb (validName (field_text sw nameField)) then fail (unsupported "unsafe switch name") else
      if negb (present sw targetField) then fail (unsupported "no mirror target field") else
      Ret (Ok (field_text sw nameField, field_text sw targetField))
  | _ => fail (unsupported "SSH profile requires exactly one switch chip")
  end.

(** The loop over the rows, with the names seen. *)
Fixpoint read_ports (seen : list str) (rows : list row) : result fabric_error (list flags) :=
  match rows with
  | [] => Ok []
  | r :: rest =>
      let name := field_text r nameField in
      if negb (validName name) then Err (unsupported "unsafe port name") else
      if bool_decide (name ∈ seen) then Err (unsupported "duplicate port names") else
      if negb (present r ingressField && present r egressField)
      then Err (unsupported "no per-port ingress and egress fields") else
      let? i := boolean (field_text r ingressField) in
      let? e := boolean (field_text r egressField) in
      let? l := read_ports (name :: seen) rest in
      Ok (mkFlags name i e :: l)
  end.

Definition port_map_of (l : list flags) : gmap string (bool * bool) :=
  list_to_map ((λ f, (fl_Name f, (fl_In f, fl_Eg f))) <$> l).

Definition readSnapshot : outcome snapshot :=
  let!? resource := prefixed "reading device identity: " (queryRows resource_query) in
  match resource with
  | [res] =>
      let board := field_text res "board-name" in
      let version := field_text res "version" in
      if negb (bool_decide (board = supportedBoard) && has_prefix version "7.")
      then fail (unsupported "RouterOS model or firmware") else
      let!? sw := readSwitch in
      let!? rows := prefixed "reading switch ports: " (queryRows port_query) in
      if bool_decide (rows = []) then fail (unsupported "no switch ports") else
      Ret (let? l := read_ports [] rows in
           Ok (mkSnapshot (state_of sw.2 (board +:+ " " +:+ version) l) sw.1 (port_map_of l)))
  | _ => fail (DeviceError "device did not report one resource identity")
  end.

(** ** Writing *)

Definition setSwitchTarget (switchName target : str) : outcome unit :=
  if negb (validName switchName) || negb (validName target) && negb (bool_decide (target = noMirrorTarget))
  then fail (DeviceError "refusing an unsafe switch or target name") else
  let! r := call (Exec (target_command switchName target)) in
  Ret (result_map_err (λ t, DeviceError ("setting the switch mirror target: " +:+ t)) r).

Definition setPort (name : str) (ingress egress : bool) : outcome unit :=
  if negb (validName name) then fail (DeviceError "refusing an unsafe port name") else
  let! r := call (Exec (port_command name ingress egress)) in
  Ret (result_map_err (λ t, DeviceError ("setting port mirroring: " +:+ t)) r).

Definition current (ports : gmap string (bool * bool)) (name : str) : bool * bool :=
  default (false, false) (ports !! name).

(** The loop that clears, and the map it leaves. *)
Fixpoint clear_all (ports : gmap string (bool * bool)) (names : list str) : outcome (gmap string (bool * bool)) :=
  match names with
  | [] => Ret (Ok ports)
  | name :: rest =>
      if negb ((current ports name).1 || (current ports name).2) then clear_all ports rest else
      let!? _ := setPort name false false in
      clear_all (<[name := (false, false)]> ports) rest
  end.

Fixpoint set_all (m : Mirror) (ports : gmap string (bool * bool)) (names : list str) : outcome unit :=
  match names with
  | [] => Ret (Ok tt)
  | name :: rest =>
      if bool_decide (current ports name = (wanted_in m name, wanted_eg m name)) then set_all m ports rest else
      let!? _ := setPort name (wanted_in m name) (wanted_eg m name) in
      set_all m ports rest
  end.

Fixpoint absent_source (ports : gmap string (bool * bool)) (sources : list str) : option str :=
  match sources with
  | [] => None
  | s :: rest => match ports !! s with None => Some s | Some _ => absent_source ports rest end
  end.

Definition port_names_of (ports : gmap string (bool * bool)) : list str := sort_keys (map_to_list ports).*1.

(** Old sources go before the target changes. *)
Definition retarget (got : snapshot) (m : Mirror) : outcome (gmap string (bool * bool)) :=
  if bool_decide (st_Target (sn_State got) = mi_Target m) then Ret (Ok (sn_Ports got)) else
  let!? ports := clear_all (sn_Ports got) (port_names_of (sn_Ports got)) in
  let!? _ := setSwitchTarget (sn_SwitchName got) (mi_Target m) in
  Ret (Ok ports).

Definition readback (m : Mirror) : outcome unit :=
  let!? after := prefixed "reading back the configured mirror: " readSnapshot in
  if Matches (sn_State after) m then Ret (Ok tt)
  else fail (DeviceError "device readback does not match the requested mirror").

Definition apply_mirror (got : snapshot) (m : Mirror) : outcome unit :=
  let!? ports := retarget got m in
  let!? _ := set_all m ports (port_names_of (sn_Ports got)) in
  readback m.

Definition Observe (d : Device) : outcome State :=
  let!? _ := call (Dial d) in
  let!? got := readSnapshot in
  Ret (Ok (sn_State got)).

Definition Configure (d : Device) (m : Mirror) : outcome unit :=
  match Validate quote m with
  | Some e => fail (DeviceError e)
  | None =>
      let!? _ := call (Dial d) in
      let!? got := readSnapshot in
      match sn_Ports got !! mi_Target m, absent_source (sn_Ports got) (mi_Sources m) with
      | None, _ => fail (unsupported ("target port " +:+ quote (Sanitize.String_ (mi_Target m)) +:+ " is not on the switch"))
      | _, Some s => fail (unsupported ("source port " +:+ quote (Sanitize.String_ s) +:+ " is not on the switch"))
      | Some _, None => if Matches (sn_State got) m then Ret (Ok tt) else apply_mirror got m
      end
  end.

Definition confirm_bare : outcome unit :=
  let!? after := prefixed "reading back the reverted mirror: " readSnapshot in
  if negb (bool_decide (st_Sources (sn_State after) = [])) || negb (bool_decide (st_Target (sn_State after) = ""))
  then fail (DeviceError "device readback still reports a mirror after revert")
  else Ret (Ok tt).

Definition Revert (d : Device) : outcome unit :=
  let!? _ := call (Dial d) in
  let!? got := readSnapshot in
  let!? _ := clear_all (sn_Ports got) (port_names_of (sn_Ports got)) in
  let!? _ := if bool_decide (st_Target (sn_State got) = "") then Ret (Ok tt)
             else setSwitchTarget (sn_SwitchName got) noMirrorTarget in
  confirm_bare.

End driver.

(** ** The device

    As for the REST driver: nobody else changes it; a command that fails,
    unless [up] says that none does, may have taken effect. *)

Definition flag_pairs : list (bool * bool) := [(false, false); (false, true); (true, false); (true, true)].

(** What a command sets on a port, if it names it. *)
Definition commanded (cmd : str) (p : Port) : option (bool * bool) :=
  head (List.filter (λ '(i, e), bool_decide (cmd = port_command (fl_Name (pt_Flags p)) i e)) flag_pairs).

Definition device_exec (cmd : str) (s : Switch) : Switch :=
  let prefix := target_prefix (sw_Name s) in
  if has_prefix cmd prefix then
    let rest := str_drop (String.length prefix) cmd in
    set_target s (str_take (String.length rest - 1) rest)
  else
    mkSwitch (sw_Id s) (sw_Name s) (sw_Target s)
      ((λ p, match commanded cmd p with
             | Some (i, e) => mkPort (pt_Id p) (mkFlags (fl_Name (pt_Flags p)) i e)
             | None => p
             end) <$> sw_Ports s).

Definition supported (r : row) : Prop :=
  field_text r "board-name" = supportedBoard ∧ has_prefix (field_text r "version") "7." = true.

Definition ssh_step (up : bool) (X : Type) (e : sshE X) (s : Switch) : X → Switch → Prop :=
  match e with
  | Dial _ => λ x s', s' = s ∧ match x with Ok _ => True | Err _ => up = false end
  | Query cmd => λ x s', s' = s ∧
      match x with
      | Err _ | Ok NotJSON => up = false
      | Ok d =>
          let rows := match d with Rows l => l | Row r => [r] | NotJSON => [] end in
          (cmd = switch_query → ∃ r, rows = [r] ∧ reports_switch s r ∧ present r targetField = true) ∧
          (cmd = port_query → Forall2 reports_port (sw_Ports s) rows) ∧
          (cmd = resource_query → up = true → ∃ r, rows = [r] ∧ supported r)
      end
  | Exec cmd => λ x s',
      match x with
      | Ok _ => s' = device_exec cmd s
      | Err _ => up = false ∧ (s' = s ∨ s' = device_exec cmd s)
      end
  end.

Definition well_formed (s : Switch) : Prop :=
  NoDup (port_names s) ∧ Forall (λ n, validName n = true) (port_names s) ∧ validName (sw_Name s) = true ∧
  sw_Ports s ≠ [].

(** The ports by name, as a snapshot has them. *)
Definition port_map_on (s : Switch) : gmap string (bool * bool) := port_map_of (pt_Flags <$> sw_Ports s).

(** ** Commands name what they set *)

Lemma name_char_quote : name_char "034" = false.
Proof. done. Qed.

Lemma validName_lacks n : validName n = true → lacks "034" n = true.
Proof.
  unfold validName. intros [_ H]%andb_true_iff. eapply str_forallb_impl; [|exact H]. intros c Hc.
  apply negb_true_iff, bool_decide_eq_false. intros ->. done.
Qed.

Lemma yesNo_inj a b : yesNo a = yesNo b → a = b.
Proof. by destruct a, b. Qed.

Lemma port_command_inj n i e n' i' e' :
  validName n = true → validName n' = true → port_command n i e = port_command n' i' e' →
  n = n' ∧ i = i' ∧ e = e'.
Proof.
  intros Hn%validName_lacks Hn'%validName_lacks E. unfold port_command, dquote in E.
  do 2 apply str_app_inj_r in E. apply split_first in E as [-> E]; [|done|done].
  split; [done|]. apply (str_app_inj_r "] mirror-ingress=") in E.
  destruct i, i', e, e'; (by split) || discriminate E.
Qed.

Lemma port_not_target n i e sw : has_prefix (port_command n i e) (target_prefix sw) = false.
Proof. done. Qed.

Lemma commanded_hit p i e : commanded (port_command (fl_Name (pt_Flags p)) i e) p = Some (i, e) ∨
  validName (fl_Name (pt_Flags p)) = false.
Proof.
  destruct (validName (fl_Name (pt_Flags p))) eqn:Hv; [left|by right].
  assert (∀ i' e', bool_decide (port_command (fl_Name (pt_Flags p)) i e = port_command (fl_Name (pt_Flags p)) i' e') =
    bool_decide (i = i') && bool_decide (e = e')) as Hd.
  { intros i' e'. destruct (bool_decide (i = i') && bool_decide (e = e')) eqn:Eb.
    - apply andb_true_iff in Eb as [->%bool_decide_eq_true ->%bool_decide_eq_true]. by apply bool_decide_eq_true.
    - apply bool_decide_eq_false. intros (_ & -> & ->)%port_command_inj; [|done|done].
      by rewrite !bool_decide_eq_true_2 in Eb. }
  unfold commanded, flag_pairs. cbn [List.filter]. rewrite !Hd. by destruct i, e.
Qed.

Lemma commanded_miss p n i e :
  validName n = true → validName (fl_Name (pt_Flags p)) = true → fl_Name (pt_Flags p) ≠ n →
  commanded (port_command n i e) p = None.
Proof.
  intros Hn Hp Hne. unfold commanded, flag_pairs. cbn [List.filter].
  rewrite !bool_decide_eq_false_2; [done|..]; by intros (E & _)%port_command_inj.
Qed.

Lemma device_exec_target s t : device_exec (target_command (sw_Name s) t) s = set_target s t.
Proof.
  unfold device_exec, target_command. rewrite has_prefix_app, str_drop_app. f_equal.
  unfold dquote. rewrite str_length_app. simpl. rewrite Nat.add_sub. apply str_take_app.
Qed.

(** Setting a port is inserting into the map. *)
Lemma device_exec_port s n i e :
  well_formed s → n ∈ port_names s →
  let s' := device_exec (port_command n i e) s in
  same_ports s s' ∧ sw_Target s' = sw_Target s ∧ port_map_on s' = <[n := (i, e)]> (port_map_on s).
Proof.
  intros (Hnd & Hval & _ & _) Hn. unfold device_exec. rewrite port_not_target. cbv zeta.
  set (upd := λ p, match commanded (port_command n i e) p with
             | Some (i0, e0) => mkPort (pt_Id p) (mkFlags (fl_Name (pt_Flags p)) i0 e0)
             | None => p end).
  assert (∀ p, fl_Name (pt_Flags (upd p)) = fl_Name (pt_Flags p) ∧ pt_Id (upd p) = pt_Id p) as Hsame.
  { intros p. unfold upd. by destruct (commanded _ p) as [[]|]. }
  split; [|split; [done|]].
  { split_and!; [done|done|unfold port_names|]; simpl; rewrite <-list_fmap_compose; apply list_fmap_ext;
      intros ? p _; apply Hsame. }
  unfold port_map_on, port_names in *. simpl. rewrite Forall_forall in Hval.
  assert (validName n = true) as Hnv by (by apply Hval).
  induction (sw_Ports s) as [|p l IH]; [by apply elem_of_nil in Hn|].
  rewrite !fmap_cons in *. apply NoDup_cons in Hnd as [Hnot Hnd]. cbn [compose] in *.
  unfold port_map_of in *. rewrite !fmap_cons, !list_to_map_cons.
  assert (validName (fl_Name (pt_Flags p)) = true) as Hpv by (apply Hval; left).
  destruct (decide (fl_Name (pt_Flags p) = n)) as [E|Hne].
  - assert (commanded (port_command n i e) p = Some (i, e)) as Hc.
    { rewrite <-E. destruct (commanded_hit p i e) as [H|H]; [exact H|congruence]. }
    assert ((upd <$> l) = l) as ->.
    { rewrite <-(list_fmap_id l) at 2. apply list_fmap_ext. intros k q Hk. unfold upd.
      assert (fl_Name (pt_Flags q) ∈ (λ x, fl_Name (pt_Flags x)) <$> l) as Hq.
      { apply list_elem_of_fmap. exists q. split; [done|]. by eapply list_elem_of_lookup_2. }
      rewrite (commanded_miss q n i e); [done|done|apply Hval; by right|].
      intros Eq. apply Hnot. by rewrite E, <-Eq. }
    unfold upd. rewrite Hc. simpl. rewrite E. by rewrite insert_insert_eq.
  - assert (upd p = p) as -> by (unfold upd; by rewrite (commanded_miss p n i e)).
    rewrite IH; [by rewrite insert_insert_ne by congruence|done|intros x Hx; apply Hval; by right|].
    by apply elem_of_cons in Hn as [?|?]; [congruence|].
Qed.

(** ** Ports by name *)

Definition mirrored_on (s : Switch) (n : str) : Prop :=
  ∃ i e, port_map_on s !! n = Some (i, e) ∧ i || e = true.

Definition port_entries (s : Switch) : list (str * (bool * bool)) :=
  (λ p, (fl_Name (pt_Flags p), (fl_In (pt_Flags p), fl_Eg (pt_Flags p)))) <$> sw_Ports s.

Lemma port_map_on_entries s : port_map_on s = list_to_map (port_entries s).
Proof. unfold port_map_on, port_map_of, port_entries. by rewrite <-list_fmap_compose. Qed.

Lemma port_entries_names s : (port_entries s).*1 = port_names s.
Proof. unfold port_entries, port_names. by rewrite <-list_fmap_compose. Qed.

Lemma port_map_lookup s n i e :
  NoDup (port_names s) →
  port_map_on s !! n = Some (i, e) ↔ ∃ p, p ∈ sw_Ports s ∧ pt_Flags p = mkFlags n i e.
Proof.
  intros Hnd. rewrite port_map_on_entries, <-elem_of_list_to_map by (by rewrite port_entries_names).
  unfold port_entries. rewrite list_elem_of_fmap. split.
  - intros (p & [= -> -> ->] & Hp). exists p. split; [done|]. by destruct (pt_Flags p).
  - intros (p & Hp & E). exists p. by rewrite E.
Qed.

Lemma port_map_dom s n : is_Some (port_map_on s !! n) ↔ n ∈ port_names s.
Proof.
  rewrite port_map_on_entries, <-port_entries_names. rewrite <-not_eq_None_Some, <-not_elem_of_list_to_map.
  destruct (decide (n ∈ (port_entries s).*1)); tauto.
Qed.

Lemma port_names_of_perm s : NoDup (port_names s) → port_names_of (port_map_on s) ≡ₚ port_names s.
Proof.
  intros Hnd. unfold port_names_of. rewrite sort_keys_perm, port_map_on_entries, map_to_list_to_map.
  - by rewrite port_entries_names.
  - by rewrite port_entries_names.
Qed.

Lemma mirrored_on_port s p :
  NoDup (port_names s) → p ∈ sw_Ports s → mirrored (pt_Flags p) = true → mirrored_on s (fl_Name (pt_Flags p)).
Proof.
  intros Hnd Hp Hm. exists (fl_In (pt_Flags p)), (fl_Eg (pt_Flags p)). split; [|exact Hm].
  apply port_map_lookup; [done|]. exists p. split; [done|]. by destruct (pt_Flags p).
Qed.

Lemma mirrored_on_inv s n :
  NoDup (port_names s) → mirrored_on s n →
  ∃ p, p ∈ sw_Ports s ∧ fl_Name (pt_Flags p) = n ∧ mirrored (pt_Flags p) = true.
Proof.
  intros Hnd (i & e & (p & Hp & E)%port_map_lookup & Hm); [|done]. exists p. rewrite E. by split_and!.
Qed.

Lemma ssh_well_formed_same s s' : same_ports s s' → well_formed s → well_formed s'.
Proof.
  unfold well_formed. intros (_ & -> & -> & Hids) (? & ? & ? & Hne). split_and!; try done.
  intros E. rewrite E in Hids. destruct (sw_Ports s); done.
Qed.

(** ** Calls *)

Section calls.
Context (up : bool) (I : Switch → Prop).

Abbreviation held p Q s := (within (ssh_step up) I p Q s) (only parsing).

Lemma prefixed_within {A} prefix (p : prog sshE (result fabric_error A)) Q s :
  within (ssh_step up) I p (λ r s', I s' → Q (result_map_err (wrap_error prefix) r) s') s →
  within (ssh_step up) I (prefixed prefix p) Q s.
Proof.
  intros Hp. apply within_bind. revert s Hp. induction p as [a|X e k IH]; intros s [HI Hk]; split; auto.
  split; auto.
Qed.

(** A query of an unchanged switch. *)
Lemma queryRows_within cmd Q s :
  I s →
  (∀ rows, (cmd = switch_query → ∃ r, rows = [r] ∧ reports_switch s r ∧ present r targetField = true) →
     (cmd = port_query → Forall2 reports_port (sw_Ports s) rows) →
     (cmd = resource_query → up = true → ∃ r, rows = [r] ∧ supported r) → Q (Ok rows) s) →
  (∀ e, up = false → Q (Err e) s) →
  within (ssh_step up) I (queryRows cmd) Q s.
Proof.
  intros HI Hok Herr. split; [done|]. intros x s' [-> Hx].
  destruct x as [[rows|r|]|t]; split; auto; try (by apply Herr).
  - destruct Hx as (? & ? & ?). by apply Hok.
  - destruct Hx as (? & ? & ?). by apply Hok.
Qed.

Lemma exec_within cmd (wrap : str → fabric_error) (Q : result fabric_error unit → Switch → Prop) s :
  I s → I (device_exec cmd s) → Q (Ok tt) (device_exec cmd s) →
  (∀ e, up = false → Q (Err e) s ∧ Q (Err e) (device_exec cmd s)) →
  within (ssh_step up) I (let! r := call (Exec cmd) in Ret (result_map_err wrap r)) Q s.
Proof.
  intros HI HI' Hok Herr. split; [done|]. intros [[]|t] s'; [intros ->; by split|].
  intros [Hup [-> | ->]]; (split; [done|]); by apply Herr.
Qed.

Lemma setPort_within n i e Q s :
  well_formed s → n ∈ port_names s → let s1 := device_exec (port_command n i e) s in
  I s → I s1 → Q (Ok tt) s1 → (∀ err, up = false → Q (Err err) s ∧ Q (Err err) s1) →
  within (ssh_step up) I (setPort n i e) Q s.
Proof.
  intros (_ & Hv & _) Hn s1 HI HI1 Hok Herr. unfold setPort.
  rewrite Forall_forall in Hv. rewrite (Hv n Hn). cbn [negb]. by apply exec_within.
Qed.

Lemma setSwitchTarget_within t Q s :
  well_formed s → validName t = true ∨ t = noMirrorTarget → let s1 := set_target s t in
  I s → I s1 → Q (Ok tt) s1 → (∀ err, up = false → Q (Err err) s ∧ Q (Err err) s1) →
  within (ssh_step up) I (setSwitchTarget (sw_Name s) t) Q s.
Proof.
  intros (_ & _ & Hv & _) Ht s1 HI HI1 Hok Herr. unfold setSwitchTarget. rewrite Hv.
  assert (negb (validName t) && negb (bool_decide (t = noMirrorTarget)) = false) as ->.
  { destruct Ht as [->| ->]; [done|]. by rewrite bool_decide_eq_true_2, andb_false_r. }
  cbn [negb orb]. apply exec_within; by rewrite ?device_exec_target.
Qed.

(** *** Snapshots *)

Lemma boolean_text b : boolean (bool_text b) = Ok b.
Proof. by destruct b. Qed.

Lemma read_ports_reports ports rows seen :
  Forall2 reports_port ports rows → NoDup (fl_Name ∘ pt_Flags <$> ports) →
  Forall (λ n, validName n = true) (fl_Name ∘ pt_Flags <$> ports) →
  (∀ n, n ∈ fl_Name ∘ pt_Flags <$> ports → n ∉ seen) →
  read_ports seen rows = Ok (pt_Flags <$> ports).
Proof.
  intros Hf. revert seen. induction Hf as [|p r ports rows (_ & Hn & Hi & He & Ti & Te) _ IH]; intros seen Hnd Hv Hs;
    [done|]. cbn [read_ports]. rewrite !fmap_cons in *. apply NoDup_cons in Hnd as [Hnot Hnd].
  apply Forall_cons in Hv as [Hv1 Hv]. cbn [compose] in *. rewrite Hn, Hv1. cbn [negb].
  rewrite bool_decide_eq_false_2 by (apply Hs; left).
  assert (∀ key b, is_Some (r !! key) → field_text r key = bool_text b → present r key = true) as Hpres.
  { intros key b [v Hkey] Ht. unfold present, field_text in *. rewrite Hkey in *. by destruct v, b. }
  rewrite (Hpres _ _ Hi Ti), (Hpres _ _ He Te). cbn [andb negb]. rewrite Ti, Te, !boolean_text. cbn [result_bind].
  rewrite IH; [|done|done|]. { cbn [result_bind]. by destruct (pt_Flags p). }
  intros n Hin [->|Hseen]%elem_of_cons; [done|]. apply (Hs n); [by right|done].
Qed.

Lemma readSnapshot_within Q s :
  well_formed s → I s →
  (∀ id, Q (Ok (mkSnapshot (state_of (sw_Target s) id (pt_Flags <$> sw_Ports s)) (sw_Name s) (port_map_on s))) s) →
  (∀ e, up = false → Q (Err e) s) →
  within (ssh_step up) I readSnapshot Q s.
Proof.
  intros (Hnd & Hv & Hsn & Hne) HI Hok Herr. unfold readSnapshot.
  apply within_try, prefixed_within, queryRows_within; [done| |by intros e Hup _; apply Herr].
  intros rows _ _ Hres _. cbn [result_map_err]. assert (up = true ∨ up = false) as Hup by (destruct up; auto).
  assert (∀ e, (up = true → False) → within (ssh_step up) I (Ret (Err e)) Q s) as Hbad.
  { intros e Hn. split; [done|]. apply Herr. destruct Hup; tauto. }
  destruct rows as [|res [|]].
  { apply Hbad. intros Hu. by destruct (Hres eq_refl Hu) as (r & ? & _). }
  2: { apply Hbad. intros Hu. by destruct (Hres eq_refl Hu) as (r & ? & _). }
  destruct (bool_decide _ && has_prefix _ _) eqn:Esup; cbn [negb].
  2: { apply Hbad. intros Hu. destruct (Hres eq_refl Hu) as (r & [= <-] & Hb & Hver).
       by rewrite bool_decide_eq_true_2, Hver in Esup. }
  unfold readSwitch. apply within_try, within_try, prefixed_within, queryRows_within; [done| |by intros e Hu _; apply Herr].
  intros rows Hsw _ _ _. cbn [result_map_err]. destruct (Hsw eq_refl) as (sw & -> & (_ & Hswn & _ & Hswt) & Hpres).
  rewrite Hswn, Hsn, Hpres. cbn [negb]. split; [done|]. rewrite Hswt.
  apply within_try, prefixed_within, queryRows_within; [done| |by intros e Hu _; apply Herr].
  intros prows _ Hports _ _. cbn [result_map_err]. specialize (Hports eq_refl).
  rewrite bool_decide_eq_false_2 by (intros ->; apply Hne; by inversion Hports).
  split; [done|]. rewrite (read_ports_reports _ _ _ Hports Hnd Hv) by (intros; apply not_elem_of_nil).
  apply Hok.
Qed.

End calls.

(** ** The loops *)

Lemma current_on s n i e : port_map_on s !! n = Some (i, e) → current (port_map_on s) n = (i, e).
Proof. unfold current. by intros ->. Qed.

Lemma mirrored_insert s s' n f x :
  port_map_on s' = <[n := f]> (port_map_on s) → mirrored_on s' x →
  x = n ∧ f.1 || f.2 = true ∨ x ≠ n ∧ mirrored_on s x.
Proof.
  intros E (i & e & Hl & Hm). rewrite E in Hl.
  apply lookup_insert_Some in Hl as [[<- Hf]|[Hne Hl]]; [left|right].
  - split; [done|]. by rewrite Hf.
  - split; [done|]. by exists i, e.
Qed.

(** While sources are cleared: the old target, and no source that was not. *)
Definition clearing (s0 s : Switch) : Prop :=
  well_formed s ∧ same_ports s0 s ∧ sw_Target s = sw_Target s0 ∧ ∀ n, mirrored_on s n → mirrored_on s0 n.

(** While sources are set: the new target, and no source but the request's
    and those the target already received. *)
Definition setting (s0 : Switch) (m : Mirror) (s : Switch) : Prop :=
  well_formed s ∧ same_ports s0 s ∧ sw_Target s = mi_Target m ∧
  ∀ n, mirrored_on s n → n ∈ mi_Sources m ∨ sw_Target s0 = mi_Target m ∧ mirrored_on s0 n.

Lemma clearing_no_leak s0 m s : well_formed s0 → clearing s0 s → no_leak s0 m s.
Proof.
  intros (Hnd0 & _) ((Hnd & _) & _ & Ht & Hm) p Hp Hpm. left. split; [done|].
  apply (mirrored_on_inv s0); [done|]. by apply Hm, mirrored_on_port.
Qed.

Lemma setting_no_leak s0 m s : well_formed s0 → setting s0 m s → no_leak s0 m s.
Proof.
  intros (Hnd0 & _) ((Hnd & _) & _ & Ht & Hm) p Hp Hpm.
  destruct (Hm (fl_Name (pt_Flags p))) as [Hin|[Ht0 Hm0]]; [by apply mirrored_on_port|by right|left].
  split; [congruence|]. by apply (mirrored_on_inv s0).
Qed.

Lemma clearing_refl s : well_formed s → clearing s s.
Proof. intros Hw. split_and!; [done|apply same_ports_refl|done|done]. Qed.

(** A port of the switch is set, seen through a predicate on switches. *)
Lemma set_port_keeps (J : Switch → Prop) s0 n i e s :
  (∀ s', well_formed s' → same_ports s0 s' → sw_Target s' = sw_Target s →
     port_map_on s' = <[n := (i, e)]> (port_map_on s) → J s') →
  well_formed s → same_ports s0 s → n ∈ port_names s → J (device_exec (port_command n i e) s).
Proof.
  intros HJ Hw Hs Hn. destruct (device_exec_port s n i e Hw Hn) as (Hs' & Ht & Hm).
  apply HJ; [by eapply ssh_well_formed_same|by eapply same_ports_trans|done|done].
Qed.

Section loops.
Context (up : bool) (s0 : Switch) (m : Mirror) (I : Switch → Prop).

Lemma clear_all_within names s :
  (∀ s, clearing s0 s → I s) → clearing s0 s → (∀ n, n ∈ names → n ∈ port_names s) →
  within (ssh_step up) I (clear_all (port_map_on s) names)
    (λ r s', clearing s0 s' ∧ (up = true → is_ok r = true) ∧
       ∀ ports, r = Ok ports → ports = port_map_on s' ∧
         (∀ n, mirrored_on s' n → mirrored_on s n ∧ n ∉ names)) s.
Proof.
  intros HI. revert s. induction names as [|n rest IH]; intros s Hc Hin; cbn [clear_all].
  { split; [by apply HI|]. split; [done|]. split; [done|]. intros ports [= <-]. split; [done|].
    intros n Hn. split; [done|]. apply not_elem_of_nil. }
  pose proof Hc as (Hw & Hs & Ht & Hm).
  destruct (proj2 (port_map_dom s n) (Hin n ltac:(left))) as [[i e] Hl]. rewrite (current_on s n i e Hl).
  cbn [fst snd]. destruct (i || e) eqn:Eie; cbn [negb].
  2: { eapply within_mono; [|apply IH; [done|intros x Hx; apply Hin; by right]].
       intros r s' (Hc' & Hup & Hok). split; [done|]. split; [done|]. intros ports Hr.
       destruct (Hok ports Hr) as [Hp Hmir]. split; [done|]. intros x Hx. destruct (Hmir x Hx) as [Hx1 Hx2].
       split; [done|]. intros [->|?]%elem_of_cons; [|done]. destruct Hx1 as (i' & e' & Hl' & Hie'). congruence. }
  assert (clearing s0 (device_exec (port_command n false false) s)) as Hc1.
  { apply (set_port_keeps (clearing s0) s0); [|done|done|by apply Hin; left].
    intros s' Hw' Hs' Ht' Hpm. split_and!; [done|done|congruence|].
    intros x [[-> [=]]|[_ Hx]]%(mirrored_insert s s' n _ x Hpm). by apply Hm. }
  apply within_try, setPort_within; [done|by apply Hin; left|by apply HI|by apply HI| |].
  2: { intros err Hup. split; (split; [done|]); (split; [congruence|done]). }
  destruct (device_exec_port s n false false Hw (Hin n ltac:(left))) as (Hs1 & _ & Hpm). rewrite <-Hpm.
  eapply within_mono; [|apply IH; [done|]].
  2: { destruct Hs1 as (_ & _ & -> & _). intros x Hx. apply Hin. by right. }
  intros r s' (Hc' & Hup & Hok). split; [done|]. split; [done|]. intros ports Hr.
  destruct (Hok ports Hr) as [Hp Hmir]. split; [done|]. intros x Hx. destruct (Hmir x Hx) as [Hx1 Hx2].
  destruct (mirrored_insert s _ n _ x Hpm Hx1) as [[_ [=]]|[Hne Hxs]]. split; [done|].
  by intros [->|?]%elem_of_cons.
Qed.

Lemma set_all_within ports names s :
  (∀ s, setting s0 m s → I s) → setting s0 m s → NoDup names → (∀ n, n ∈ names → n ∈ port_names s) →
  known_direction (mi_Direction m) = true →
  (∀ n, n ∈ names → ports !! n = port_map_on s !! n) →
  within (ssh_step up) I (set_all m ports names)
    (λ r s', setting s0 m s' ∧ (up = true → r = Ok tt) ∧
       (r = Ok tt → ∀ n, (n ∈ names → port_map_on s' !! n = Some (wanted_in m n, wanted_eg m n)) ∧
          (n ∉ names → port_map_on s' !! n = port_map_on s !! n))) s.
Proof.
  intros HI Hset Hnd Hin Hdir. revert s Hset Hin.
  induction names as [|n rest IH]; intros s Hc Hin Hports; cbn [set_all].
  { split; [by apply HI|]. split; [done|]. split; [done|]. intros _ n. split; [by intros ?%elem_of_nil|done]. }
  apply NoDup_cons in Hnd as [Hnot Hnd]. pose proof Hc as (Hw & Hs & Ht & Hm).
  destruct (proj2 (port_map_dom s n) (Hin n ltac:(left))) as [f Hl].
  assert (current ports n = f) as -> by (unfold current; by rewrite Hports, Hl by left).
  assert (∀ s1, (∀ x, x ≠ n → port_map_on s1 !! x = port_map_on s !! x) → port_names s1 = port_names s →
    port_map_on s1 !! n = Some (wanted_in m n, wanted_eg m n) → setting s0 m s1 →
    within (ssh_step up) I (set_all m ports rest)
    (λ r s', setting s0 m s' ∧ (up = true → r = Ok tt) ∧
       (r = Ok tt → ∀ x, (x ∈ n :: rest → port_map_on s' !! x = Some (wanted_in m x, wanted_eg m x)) ∧
          (x ∉ n :: rest → port_map_on s' !! x = port_map_on s !! x))) s1) as Hrest.
  { intros s1 Hsame Hnames Hn1 Hset1. eapply within_mono; [|apply (IH Hnd s1 Hset1)].
    - intros r s' (Hs' & Hup & Hok). split; [done|]. split; [done|]. intros Hr x. split.
      + intros [->|Hx]%elem_of_cons; [|by apply Hok]. rewrite (proj2 (Hok Hr n) Hnot). done.
      + intros [Hne Hx]%not_elem_of_cons. rewrite (proj2 (Hok Hr x) Hx). by apply Hsame.
    - rewrite Hnames. intros x Hx. apply Hin. by right.
    - intros x Hx. rewrite Hsame by (intros ->; done). apply Hports. by right. }
  case_bool_decide as Ef.
  { apply Hrest; [done|done|by rewrite Hl, Ef|done]. }
  assert (setting s0 m (device_exec (port_command n (wanted_in m n) (wanted_eg m n)) s)) as Hset1.
  { apply (set_port_keeps (setting s0 m) s0); [|done|done|by apply Hin; left].
    intros s' Hw' Hs' Ht' Hpm. split_and!; [done|done|congruence|].
    intros x [[-> Hx]|[_ Hx]]%(mirrored_insert s s' n _ x Hpm); [left|by apply Hm].
    cbn [fst snd] in Hx. rewrite wanted_mirrored in Hx by done. by apply bool_decide_eq_true in Hx. }
  apply within_try, setPort_within; [done|by apply Hin; left|by apply HI|by apply HI| |].
  2: { intros err Hup. split; (split; [done|]); (split; [congruence|done]). }
  destruct (device_exec_port s n (wanted_in m n) (wanted_eg m n) Hw (Hin n ltac:(left))) as (Hs1 & _ & Hpm).
  apply Hrest; [|by destruct Hs1 as (_ & _ & ? & _)|by rewrite Hpm, lookup_insert_eq|done].
  intros x Hx. by rewrite Hpm, lookup_insert_ne by done.
Qed.

End loops.

(** ** The methods *)

(** The driver's own comparison, on the switch as it stands. *)
Definition reports (s : Switch) (m : Mirror) : Prop :=
  Matches (state_of (sw_Target s) "" (pt_Flags <$> sw_Ports s)) m = true.

Lemma absent_source_None s sources :
  absent_source (port_map_on s) sources = None ↔ ∀ x, x ∈ sources → x ∈ port_names s.
Proof.
  induction sources as [|x rest IH]; simpl; [split; [by intros _ ? ?%elem_of_nil|done]|].
  destruct (port_map_on s !! x) as [f|] eqn:E.
  - rewrite IH. split; [intros H y [->|Hy]%elem_of_cons; [apply port_map_dom; by rewrite E|by apply H]|].
    intros H y Hy. apply H. by right.
  - split; [done|]. intros H. destruct (proj2 (port_map_dom s x) (H x ltac:(left))). congruence.
Qed.

Lemma carries_by_name s m :
  well_formed s → sw_Target s = mi_Target m →
  (∀ n, n ∈ port_names s → port_map_on s !! n = Some (wanted_in m n, wanted_eg m n)) → carries s m.
Proof.
  intros (Hnd & _) Ht Hall. split; [done|]. intros p Hp.
  specialize (Hall _ (in_port_names s p Hp)). apply port_map_lookup in Hall as (q & Hq & E); [|done].
  assert (q = p) as -> by (apply (NoDup_map_inj_in (fl_Name ∘ pt_Flags) (sw_Ports s)); try done; simpl; by rewrite E).
  by rewrite E.
Qed.

Definition feasible (m : Mirror) (s : Switch) : Prop :=
  sound m ∧ mi_Target m ≠ noMirrorTarget ∧ mi_Target m ∈ port_names s ∧ ∀ x, x ∈ mi_Sources m → x ∈ port_names s.

Section methods.
Context (quote : str → str) (up : bool).

Lemma same_of_setting s0 m s : setting s0 m s → same_ports s0 s.
Proof. by intros (_ & ? & _). Qed.

Lemma readback_within m s0 s :
  well_formed s0 → setting s0 m s →
  within (ssh_step up) (no_leak s0 m) (readback m)
    (λ r s', same_ports s0 s' ∧ (r = Ok tt → reports s' m) ∧ (up = true → reports s m → r = Ok tt)) s.
Proof.
  intros Hw0 Hset. pose proof (setting_no_leak s0 m s Hw0 Hset) as Hno. pose proof Hset as (Hw & Hs & _).
  apply within_try, prefixed_within, readSnapshot_within; [done|done| |].
  - intros id _. cbn [result_map_err sn_State]. fold (reports s m).
    change (Matches (state_of (sw_Target s) id (pt_Flags <$> sw_Ports s)) m) with
      (Matches (state_of (sw_Target s) "" (pt_Flags <$> sw_Ports s)) m).
    destruct (Matches _ m) eqn:E; (split; [done|]); (split; [done|]); split; try done. unfold reports. congruence.
  - intros e Hup _. split; [done|]. split; [done|congruence].
Qed.

Lemma apply_mirror_within m s id :
  let got := mkSnapshot (state_of (sw_Target s) id (pt_Flags <$> sw_Ports s)) (sw_Name s) (port_map_on s) in
  well_formed s → feasible m s →
  within (ssh_step up) (no_leak s m) (apply_mirror got m)
    (λ r s', same_ports s s' ∧ (r = Ok tt → reports s' m) ∧ (up = true → r = Ok tt)) s.
Proof.
  intros got Hw (Hsound & Hnone & Htn & Hsrc). pose proof Hw as (Hnd & Hval & _).
  pose proof (port_names_of_perm s Hnd) as Hperm.
  assert (∀ n, n ∈ port_names_of (port_map_on s) ↔ n ∈ port_names s) as Hnames by (intros; by rewrite Hperm).
  assert (∀ ports s1, setting s m s1 → port_names s1 = port_names s → ports = port_map_on s1 →
    within (ssh_step up) (no_leak s m)
      (let!? _ := set_all m ports (port_names_of (port_map_on s)) in readback m)
      (λ r s', same_ports s s' ∧ (r = Ok tt → reports s' m) ∧ (up = true → r = Ok tt)) s1) as Hfinish.
  { intros ports s1 Hset Hn1 ->. apply within_try.
    eapply within_mono; [|apply (set_all_within up s m)];
      [|by intros; apply setting_no_leak|done|by rewrite Hperm|intros n; by rewrite Hnames, Hn1|by apply Hsound|done].
    intros [[]|e] s2 (Hset2 & Hup2 & Hok2).
    2: { split; [by eapply same_of_setting|]. split; [done|]. intros Hu. by specialize (Hup2 Hu). }
    eapply within_mono; [|by apply (readback_within m s)].
    intros r s3 (Hs3 & Hr3 & Hu3). split; [done|]. split; [done|]. intros Hu. apply Hu3; [done|].
    pose proof Hset2 as (Hw2 & Hs2 & Ht2 & _). pose proof Hs2 as (_ & _ & Hpn2 & _).
    apply carries_Matches; try done; [by destruct Hw2|by rewrite Hpn2|].
    apply carries_by_name; [done|done|]. intros n Hn. apply (Hok2 eq_refl n). by rewrite Hnames, <-Hpn2. }
  unfold apply_mirror, retarget. cbn [sn_Ports sn_State sn_SwitchName got state_of st_Target].
  case_bool_decide as Htgt.
  - apply within_try. split; [by apply clearing_no_leak; [|apply clearing_refl]|].
    apply (Hfinish (port_map_on s) s); [|done|done]. unfold reported_target in Htgt.
    assert (sw_Target s = mi_Target m) as Ht.
    { case_bool_decide; [|done]. destruct Hsound as (_ & Hne & _). by rewrite <-Htgt in Hne. }
    split_and!; [done|apply same_ports_refl|done|]. by right.
  - apply within_try, within_try.
    eapply within_mono; [|apply (clear_all_within up s (no_leak s m))];
      [|by intros; apply clearing_no_leak|by apply clearing_refl|intros n; by rewrite Hnames].
    intros [ports|e] s1 (Hc1 & Hup1 & Hok1).
    2: { destruct Hc1 as (_ & Hs1 & _). split; [done|]. split; [done|]. intros Hu. by specialize (Hup1 Hu). }
    destruct (Hok1 ports eq_refl) as [-> Hbare]. pose proof Hc1 as (Hw1 & Hs1 & Ht1 & _).
    pose proof Hs1 as (_ & Hsw1 & Hpn1 & _).
    assert (∀ n, ¬ mirrored_on s1 n) as Hno.
    { intros n Hn. destruct (Hbare n Hn) as [_ Hnot]. apply Hnot, Hnames. rewrite <-Hpn1.
      apply port_map_dom. destruct Hn as (i & e & Hl & _). by rewrite Hl. }
    assert (setting s m (set_target s1 (mi_Target m))) as Hset.
    { split_and!; [exact (ssh_well_formed_same s1 _ (same_ports_target s1 _) Hw1)|
        eapply same_ports_trans; [done|apply same_ports_target]|done|]. intros n Hn. by destruct (Hno n). }
    rewrite <-Hsw1. apply within_try, setSwitchTarget_within.
    + done.
    + left. rewrite Forall_forall in Hval. by apply Hval.
    + by apply clearing_no_leak.
    + by apply setting_no_leak.
    + split; [by apply setting_no_leak|]. apply Hfinish; [done|exact Hpn1|done].
    + intros err Hu. split; (split; [|split; [done|congruence]]); [done|by eapply same_of_setting].
Qed.

Lemma Configure_within d m s :
  well_formed s → mi_Target m ≠ noMirrorTarget →
  within (ssh_step up) (no_leak s m) (Configure quote d m)
    (λ r s', same_ports s s' ∧ (r = Ok tt → reports s' m) ∧ (up = true → feasible m s → r = Ok tt)) s.
Proof.
  intros Hw Hnone. pose proof (clearing_no_leak s m s Hw (clearing_refl s Hw)) as Hno. unfold Configure.
  destruct (Validate quote m) as [e|] eqn:Ev.
  { split; [done|]. split; [apply same_ports_refl|]. split; [done|]. intros _ (Hs & _).
    apply (Validate_sound quote) in Hs. congruence. }
  apply Validate_sound in Ev. split; [done|]. intros x s' [-> Hx]. destruct x as [u|e].
  2: { split; [done|]. split; [apply same_ports_refl|]. split; [done|congruence]. }
  apply within_try, readSnapshot_within; [done|done| |].
  2: { intros e Hup. split; [apply same_ports_refl|]. split; [done|congruence]. }
  intros id. cbn [sn_Ports sn_State].
  destruct (port_map_on s !! mi_Target m) as [f|] eqn:Et.
  2: { split; [done|]. split; [apply same_ports_refl|]. split; [done|]. intros _ (_ & _ & Hin & _).
       apply port_map_dom in Hin. rewrite Et in Hin. by destruct Hin. }
  destruct (absent_source (port_map_on s) (mi_Sources m)) as [x|] eqn:Em.
  { split; [done|]. split; [apply same_ports_refl|]. split; [done|]. intros _ (_ & _ & _ & Hin).
    apply absent_source_None in Hin. congruence. }
  assert (feasible m s) as Hf.
  { split; [done|]. split; [done|]. split; [apply port_map_dom; by rewrite Et|]. by apply absent_source_None. }
  change (Matches (state_of (sw_Target s) id (pt_Flags <$> sw_Ports s)) m) with
    (Matches (state_of (sw_Target s) "" (pt_Flags <$> sw_Ports s)) m).
  destruct (Matches _ m) eqn:Emat.
  - split; [done|]. split; [apply same_ports_refl|]. by split.
  - eapply within_mono; [|by apply apply_mirror_within]. intros r s' (Hs & Hr & Hu). split; [done|]. split; [done|].
    by intros Hup _; apply Hu.
Qed.

Lemma Revert_within d s :
  well_formed s →
  within (ssh_step up) (λ _, True) (Revert d)
    (λ r s', same_ports s s' ∧
       (r = Ok tt → let st := state_of (sw_Target s') "" (pt_Flags <$> sw_Ports s') in
                    st_Sources st = [] ∧ st_Target st = "") ∧
       (up = true → r = Ok tt)) s.
Proof.
  intros Hw. pose proof Hw as (Hnd & _). split; [done|]. intros x s' [-> Hx]. destruct x as [u|e].
  2: { split; [done|]. split; [apply same_ports_refl|]. split; [done|congruence]. }
  apply within_try, readSnapshot_within; [done|done| |].
  2: { intros e Hup. split; [apply same_ports_refl|]. split; [done|congruence]. }
  intros id. cbn [sn_Ports sn_State sn_SwitchName]. pose proof (port_names_of_perm s Hnd) as Hperm.
  apply within_try. eapply within_mono; [|apply (clear_all_within up s (λ _, True))];
    [|done|by apply clearing_refl|intros n; by rewrite Hperm].
  intros [ports|e] s1 (Hc1 & Hup1 & Hok1).
  2: { destruct Hc1 as (_ & Hs1 & _). split; [done|]. split; [done|]. intros Hu. by specialize (Hup1 Hu). }
  destruct (Hok1 ports eq_refl) as [-> Hbare]. pose proof Hc1 as (Hw1 & Hs1 & Ht1 & _).
  pose proof Hs1 as (_ & Hsw1 & Hpn1 & _).
  assert (∀ p, p ∈ sw_Ports s1 → mirrored (pt_Flags p) = false) as Hno.
  { intros p Hp. apply not_true_iff_false. intros Hm. apply (mirrored_on_port s1) in Hm; [|by destruct Hw1|done].
    destruct (Hbare _ Hm) as [_ Hnot]. apply Hnot. rewrite Hperm, <-Hpn1. by apply in_port_names. }
  assert (∀ s2, well_formed s2 → same_ports s s2 →
    (let st := state_of (sw_Target s2) "" (pt_Flags <$> sw_Ports s2) in st_Sources st = [] ∧ st_Target st = "") →
    within (ssh_step up) (λ _, True) confirm_bare
    (λ r s', same_ports s s' ∧
       (r = Ok tt → let st := state_of (sw_Target s') "" (pt_Flags <$> sw_Ports s') in
                    st_Sources st = [] ∧ st_Target st = "") ∧ (up = true → r = Ok tt)) s2) as Hconfirm.
  { intros s2 Hw2 Hs2 [Hsrc Htgt]. apply within_try, prefixed_within, readSnapshot_within; [done|done| |].
    - intros id2 _. cbn [result_map_err sn_State]. cbn [state_of st_Sources st_Target] in Hsrc, Htgt |- *.
      rewrite !bool_decide_eq_true_2 by done. by split_and!.
    - intros e Hup _. split; [done|]. split; [done|congruence]. }
  apply within_try. cbn [state_of st_Target]. rewrite <-Ht1.
  assert (∀ s2, sw_Ports s2 = sw_Ports s1 → reported_target (sw_Target s2) = "" →
    let st := state_of (sw_Target s2) "" (pt_Flags <$> sw_Ports s2) in st_Sources st = [] ∧ st_Target st = "") as Hst.
  { intros s2 Ep Et. split; [|exact Et]. cbn [state_of st_Sources]. rewrite Ep.
    by destruct (bare_state (set_target s1 noMirrorTarget) "") as [H _]; [by split|]. }
  case_bool_decide as Htgt.
  - split; [done|]. by apply Hconfirm; [| |apply Hst].
  - rewrite <-Hsw1. apply setSwitchTarget_within; [done|by right|done|done| |].
    + apply Hconfirm; [exact (ssh_well_formed_same s1 _ (same_ports_target s1 _) Hw1)|
        eapply same_ports_trans; [done|apply same_ports_target]|by apply Hst].
    + intros err Hup. split; (split; [|split; [done|congruence]]); [done|].
      eapply same_ports_trans; [done|apply same_ports_target].
Qed.

End methods.

(** ** Theorems *)

(** C30: The SSH driver never copies a port to where nobody asked.  At every
    point of [Configure], whichever commands fail or take effect unseen: each
    port that is copied is copied either as before, to the old target, or as
    requested, to the new one.  Success means that the switch reports the
    request, ports are never renamed, and on a switch that answers every
    command a sound request for its ports succeeds. *)
Theorem ssh_Configure_no_leak quote up d m s :
  well_formed s → mi_Target m ≠ noMirrorTarget →
  always (ssh_step up) (no_leak s m) (Configure quote d m) s ∧
  wp (ssh_step up) (Configure quote d m)
    (λ r s', same_ports s s' ∧ (r = Ok tt → reports s' m) ∧ (up = true → feasible m s → r = Ok tt)) s.
Proof.
  intros Hw Hn. pose proof (Configure_within quote up d m s Hw Hn) as H.
  split; [by eapply within_always|by eapply within_wp].
Qed.

(** After a successful [Revert] the switch reports no mirror; on a switch
    that answers every command it succeeds. *)
Theorem ssh_Revert_effective up d s :
  well_formed s →
  wp (ssh_step up) (Revert d)
    (λ r s', same_ports s s' ∧
       (r = Ok tt → let st := state_of (sw_Target s') "" (pt_Flags <$> sw_Ports s') in
                    st_Sources st = [] ∧ st_Target st = "") ∧
       (up = true → r = Ok tt)) s.
Proof. intros Hw. by eapply within_wp, Revert_within. Qed.

(** *** Commands cannot be injected *)

(** Three queries, and settings of names without a quote, space, bracket or
    separator in them. *)
Definition mirroring_command (X : Type) (e : sshE X) : unit → Prop :=
  match e with
  | Dial _ => λ _, True
  | Query cmd => λ _, cmd ∈ [resource_query; switch_query; port_query]
  | Exec cmd => λ _,
      (∃ sw t, cmd = target_command sw t ∧ validName sw = true ∧ (validName t = true ∨ t = noMirrorTarget)) ∨
      (∃ n i e, cmd = port_command n i e ∧ validName n = true)
  end.

Definition anything (X : Type) (e : sshE X) (s : unit) (x : X) (s' : unit) : Prop := True.

Abbreviation confined p := (obeys anything mirroring_command p tt) (only parsing).

Lemma ssh_confined_bind {A B} (p : prog sshE A) (f : A → prog sshE B) :
  confined p → (∀ a, confined (f a)) → confined (prog_bind p f).
Proof.
  intros Hp Hf. apply obeys_bind; [done|]. clear Hp.
  induction p as [a|X e k IH]; simpl; [apply Hf|]. intros x [] _. apply IH.
Qed.

Lemma ssh_confined_try {A B} (p : prog sshE (result fabric_error A)) (f : A → prog sshE (result fabric_error B)) :
  confined p → (∀ a, confined (f a)) → confined (prog_try p f).
Proof. intros Hp Hf. apply ssh_confined_bind; [done|]. by intros [a|e]. Qed.

Lemma ssh_confined_query {A} prefix cmd (f : list row → prog sshE (result fabric_error A)) :
  cmd ∈ [resource_query; switch_query; port_query] → (∀ rows, confined (f rows)) →
  confined (prog_try (prefixed prefix (queryRows cmd)) f).
Proof. intros Hc Hf. apply ssh_confined_try; [|done]. apply ssh_confined_bind; [|done]. by apply ssh_confined_bind. Qed.

Lemma ssh_confined_snapshot : confined readSnapshot.
Proof.
  apply ssh_confined_query; [set_solver|]. intros [|res [|]]; try done. cbv zeta.
  destruct (bool_decide (field_text res "board-name" = supportedBoard) && has_prefix (field_text res "version") "7.");
    [|exact I]. cbn [negb].
  apply ssh_confined_try.
  - apply ssh_confined_query; [set_solver|]. intros [|sw [|]]; try done.
    destruct (validName _); [|done]. by destruct (present _ _).
  - intros sw. apply ssh_confined_query; [set_solver|]. intros rows. by case_bool_decide.
Qed.

Lemma ssh_confined_setPort n i e : confined (setPort n i e).
Proof.
  unfold setPort. destruct (validName n) eqn:E; [|done]. cbn [negb]. split; [|done].
  right. by exists n, i, e.
Qed.

Lemma ssh_confined_setTarget sw t : confined (setSwitchTarget sw t).
Proof.
  unfold setSwitchTarget. destruct (validName sw) eqn:E; [|done]. cbn [negb orb].
  destruct (negb (validName t) && _) eqn:Et; [done|]. split; [|done]. left. exists sw, t. split_and!; [done..|].
  destruct (validName t); [by left|right]. simpl in Et. by apply negb_false_iff, bool_decide_eq_true in Et.
Qed.

Lemma ssh_confined_clear ports names : confined (clear_all ports names).
Proof.
  revert ports. induction names as [|n rest IH]; intros ports; [done|]. cbn [clear_all].
  destruct (negb _); [apply IH|]. apply ssh_confined_try; [apply ssh_confined_setPort|by intros _].
Qed.

Lemma ssh_confined_set m ports names : confined (set_all m ports names).
Proof.
  induction names as [|n rest IH]; [done|]. cbn [set_all].
  case_bool_decide; [done|]. apply ssh_confined_try; [apply ssh_confined_setPort|by intros _].
Qed.

Lemma ssh_confined_final {A} prefix (f : snapshot → prog sshE (result fabric_error A)) :
  (∀ after, confined (f after)) → confined (prog_try (prefixed prefix readSnapshot) f).
Proof. intros Hf. apply ssh_confined_try; [|done]. apply ssh_confined_bind; [apply ssh_confined_snapshot|done]. Qed.

(** The driver's commands are its own.  Whatever the device answers - port
    and switch names included - every command is one of three fixed queries
    or sets mirroring on names that passed the name check, so nothing the
    device reports is ever part of a command's syntax. *)
Theorem ssh_commands_confined quote d m :
  confined (Observe d) ∧ confined (Configure quote d m) ∧ confined (Revert d).
Proof.
  split_and!.
  - apply ssh_confined_try; [done|]. intros _. apply ssh_confined_try; [apply ssh_confined_snapshot|done].
  - unfold Configure. destruct (Validate _ _); [done|]. apply ssh_confined_try; [done|]. intros _.
    apply ssh_confined_try; [apply ssh_confined_snapshot|]. intros got.
    destruct (sn_Ports got !! mi_Target m), (absent_source (sn_Ports got) (mi_Sources m)); try done.
    destruct (Matches _ _); [done|]. apply ssh_confined_try.
    + unfold retarget. case_bool_decide; [done|]. apply ssh_confined_try; [apply ssh_confined_clear|].
      intros ports. apply ssh_confined_try; [apply ssh_confined_setTarget|done].
    + intros ports. apply ssh_confined_try; [apply ssh_confined_set|]. intros _.
      apply ssh_confined_final. intros after. by destruct (Matches _ _).
  - apply ssh_confined_try; [done|]. intros _. apply ssh_confined_try; [apply ssh_confined_snapshot|]. intros got.
    apply ssh_confined_try; [apply ssh_confined_clear|]. intros _.
    apply ssh_confined_try; [case_bool_decide; [done|apply ssh_confined_setTarget]|]. intros _.
    apply ssh_confined_final. intros after. by destruct (_ || _).
Qed.

(** ** Witnesses *)

Definition example_switch : Switch :=
  mkSwitch "*0" "switch1" "ether24"
    [mkPort "*1" (mkFlags "ether1" true true); mkPort "*2" (mkFlags "ether2" false false);
     mkPort "*a" (mkFlags "ether23" false false); mkPort "*b" (mkFlags "ether24" false false)].

Definition example_mirror : Mirror := mkMirror ["ether2"] "ether23" "".
Definition example_device : Device := mkDevice "192.0.2.1" "trawl" "" "key" "key" "" false.

Definition device_answer (X : Type) (e : sshE X) (s : Switch) : X * Switch :=
  match e with
  | Dial _ => (Ok tt, s)
  | Query cmd =>
      (Ok (if bool_decide (cmd = resource_query)
           then Row {["board-name" := JString supportedBoard; "version" := JString "7.24.2"]}
           else if bool_decide (cmd = switch_query)
           then Row {[idField := JString (sw_Id s); nameField := JString (sw_Name s); targetField := JString (sw_Target s)]}
           else Rows ((λ p, {[idField := JString (pt_Id p); nameField := JString (fl_Name (pt_Flags p));
                             ingressField := JBool (fl_In (pt_Flags p)); egressField := JBool (fl_Eg (pt_Flags p))]})
                        <$> sw_Ports s)), s)
  | Exec cmd => (Ok tt, device_exec cmd s)
  end.

Lemma ssh_device_lawful X (e : sshE X) s x s' : handles device_answer X e s x s' → ssh_step true X e s x s'.
Proof.
  destruct e as [d|cmd|cmd]; intros [= <- <-]; simpl; [done| |done]. split; [done|].
  destruct (decide (cmd = resource_query)) as [->|H1]; [|destruct (decide (cmd = switch_query)) as [->|H2]].
  - rewrite bool_decide_eq_true_2 by done. split_and!; try done. intros _ _. eexists. split; [done|]. by split.
  - rewrite bool_decide_eq_false_2, bool_decide_eq_true_2 by done. split_and!; try done.
    intros _. eexists. split; [done|]. split; [|done]. unfold reports_switch, field_text. by simplify_map_eq.
  - rewrite !bool_decide_eq_false_2 by done. split_and!; try done. intros _.
    apply Forall2_fmap_r, Forall_Forall2_diag, Forall_true. intros p. unfold reports_port, field_text.
    destruct p as [id [n [] []]]; by simplify_map_eq.
Qed.

Lemma ssh_example_well_formed : well_formed example_switch.
Proof.
  split; [apply (bool_decide_unpack _); vm_compute; exact I|].
  split; [by repeat constructor|]. by split.
Qed.

Lemma ssh_Configure_no_leak_witness :
  let '(r, s') := run device_answer (Configure (λ s, s) example_device example_mirror) example_switch in
  r = Ok tt ∧ reports s' example_mirror.
Proof.
  destruct (ssh_Configure_no_leak (λ s, s) true example_device example_mirror example_switch) as [_ Hw];
    [apply ssh_example_well_formed|discriminate|].
  eapply wp_sub in Hw; [|apply ssh_device_lawful].
  pose proof (wp_exec _ _ _ _ _ _ (run_exec device_answer _ example_switch) Hw) as (_ & Hend & _).
  destruct (run _ _ _) as [r s'] eqn:E. assert (r = Ok tt) as Hr.
  { apply (f_equal fst) in E. cbn [fst] in E. rewrite <-E. vm_compute. reflexivity. }
  split; [exact Hr|by apply Hend].
Defined.

Lemma ssh_Revert_effective_witness :
  let '(r, s') := run device_answer (Revert example_device) example_switch in
  r = Ok tt ∧ st_Sources (state_of (sw_Target s') "" (pt_Flags <$> sw_Ports s')) = [].
Proof.
  pose proof (ssh_Revert_effective true example_device example_switch ssh_example_well_formed) as Hw.
  eapply wp_sub in Hw; [|apply ssh_device_lawful].
  pose proof (wp_exec _ _ _ _ _ _ (run_exec device_answer _ example_switch) Hw) as (_ & Hend & _).
  destruct (run _ _ _) as [r s'] eqn:E. assert (r = Ok tt) as Hr.
  { apply (f_equal fst) in E. cbn [fst] in E. rewrite <-E. vm_compute. reflexivity. }
  split; [exact Hr|by apply Hend].
Defined.

End MikrotikSSH.
