(* ===== verification/Storage.v ===== *)
(** * The object store, internal/storage

    store.go states what callers rely on: the calls are [storeE], the promise
    is [store_spec], a relation over the bodies a bucket holds.  [StoreLaws]
    says that an implementation keeps the promise; fake.go is an
    implementation, and an instance while it is not told to swallow writes.  A
    failed write may or may not have taken effect: the promise says nothing
    about it beyond the key it names. *)

From Stdlib Require Import Sorted.
From S2P Require Import Prelude GoTime GoString Sha256 Prog.

Module Storage.

Inductive store_error := ErrAlreadyExists | ErrNotFound | ErrOther (msg : str).

Record ObjectInfo := mkObjectInfo {
  oi_Key : str;
  oi_Size : Z;
  oi_ETag : str;
  oi_LastModified : time;
  oi_Metadata : option (gmap string string);
}.

Record ListPage := mkListPage { lp_Objects : list ObjectInfo; lp_NextStart : str }.

Record PutOptions := mkPutOptions {
  po_IfNotExists : bool;
  po_RetainUntil : time;
  po_ContentType : str;
  po_Metadata : option (gmap string string);
  po_Timeout : duration;
}.

(** The interface's methods, each with the type of its answer.  [PutStream]
    differs from [Put] by how the body travels only. *)
Inductive storeE : Type → Type :=
  | Put (key body : str) (opts : PutOptions) : storeE (result store_error ObjectInfo)
  | Head (key : str) : storeE (result store_error ObjectInfo)
  | Get (key : str) : storeE (result store_error str)
  | List (prefix startAt : str) : storeE (result store_error (list ObjectInfo))
  | ListPageE (prefix startAt : str) (limit : Z) : storeE (result store_error ListPage)
  | Delete (key : str) : storeE (result store_error unit).

Abbreviation contents := (gmap string string) (only parsing).

(** The keys a listing ranges over, in order. *)
Definition in_listing (prefix startAt key : str) : bool :=
  (bool_decide (prefix = "") || has_prefix key prefix) &&
  (bool_decide (startAt = "") || negb (str_ltb key startAt)).

Definition listing (prefix startAt : str) (keys : list str) : list str :=
  List.filter (in_listing prefix startAt) (sort_keys keys).

Definition keys_of {A} (m : gmap string A) : list str := fst <$> map_to_list m.

(** ** The promise *)

(** What a conditional write needs. *)
Definition absent_if (opts : PutOptions) (key : str) (c : contents) : Prop :=
  po_IfNotExists opts = true → c !! key = None.

Definition store_spec (X : Type) (e : storeE X) (c : contents) : X → contents → Prop :=
  match e with
  | Put key body opts => λ x c',
      match x with
      | Ok info => absent_if opts key c ∧ oi_Key info = key ∧ c' = <[key := body]> c
      | Err ErrAlreadyExists => po_IfNotExists opts = true ∧ c !! key ≠ None ∧ c' = c
      | Err ErrNotFound => False
      | Err (ErrOther _) => c' = c ∨ absent_if opts key c ∧ c' = <[key := body]> c
      end
  | Head key => λ x c', c' = c ∧
      match x with
      | Ok info => c !! key ≠ None ∧ oi_Key info = key
      | Err ErrNotFound => c !! key = None
      | Err ErrAlreadyExists => False
      | Err (ErrOther _) => True
      end
  | Get key => λ x c', c' = c ∧
      match x with
      | Ok body => c !! key = Some body
      | Err ErrNotFound => c !! key = None
      | Err ErrAlreadyExists => False
      | Err (ErrOther _) => True
      end
  | List prefix startAt => λ x c', c' = c ∧
      match x with
      | Ok objects => oi_Key <$> objects = listing prefix startAt (keys_of c)
      | Err (ErrOther _) => True
      | Err _ => False
      end
  | ListPageE prefix startAt limit => λ x c', c' = c ∧
      match x with
      | Ok page =>
          let keys := listing prefix startAt (keys_of c) in
          0 < limit ∧ oi_Key <$> lp_Objects page = take (Z.to_nat limit) keys ∧
          lp_NextStart page = default "" (keys !! Z.to_nat limit)
      | Err (ErrOther _) => True
      | Err _ => False
      end
  | Delete key => λ x c',
      match x with
      | Ok _ => c' = delete key c
      | Err (ErrOther _) => c' = c ∨ c' = delete key c
      | Err _ => False
      end
  end.

(** An implementation over its own state keeps the promise of the interface. *)
Class StoreLaws {S : Type} (good : S → Prop) (step : ∀ X, storeE X → S → X → S → Prop)
    (bodies : S → contents) : Prop := {
  store_keeps : ∀ X (e : storeE X) s x s',
    good s → step X e s x s' → store_spec X e (bodies s) x (bodies s') ∧ good s';
}.

(** ** fake.go *)

Record fakeObject := mkFakeObject {
  fo_body : str;
  fo_info : ObjectInfo;
  fo_retainUntil : time;
}.

(** The call counters and the insertion order are test instrumentation and
    are left out; the mutex makes every method one step. *)
Record Fake := mkFake {
  fk_objects : gmap string fakeObject;
  fk_putErr : option store_error;
  fk_headErr : option store_error;
  fk_deleteErr : option store_error;
  fk_swallow : bool;
  fk_swallowDels : bool;
  fk_start : time;
  fk_seq : Z;
}.

Definition NewFake (start : time) : Fake := mkFake ∅ None None None false false start 0.

Definition with_objects (f : Fake) (m : gmap string fakeObject) (seq : Z) : Fake :=
  mkFake m (fk_putErr f) (fk_headErr f) (fk_deleteErr f) (fk_swallow f) (fk_swallowDels f)
    (fk_start f) seq.

Definition lowerKeys (m : option (gmap string string)) : option (gmap string string) :=
  (λ m, list_to_map ((λ kv, (str_lower kv.1, kv.2)) <$> map_to_list m)) <$> m.

Definition fake_put (f : Fake) (key body : str) (opts : PutOptions) :
    result store_error ObjectInfo * Fake :=
  match fk_putErr f with
  | Some err => (Err err, f)
  | None =>
      if po_IfNotExists opts && is_Some_b (fk_objects f !! key) then (Err ErrAlreadyExists, f) else
      let seq := fk_seq f + 1 in
      let info :=
        {| oi_Key := key;
           oi_Size := slen body;
           oi_ETag := sha256_hex body;
           oi_LastModified := t_add (fk_start f) (seq * second);
           oi_Metadata := lowerKeys (po_Metadata opts) |} in
      if fk_swallow f then (Ok info, with_objects f (fk_objects f) seq)
      else (Ok info, with_objects f (<[key := mkFakeObject body info (po_RetainUntil opts)]> (fk_objects f)) seq)
  end.

Definition fake_head (f : Fake) (key : str) : result store_error ObjectInfo :=
  match fk_headErr f with
  | Some err => Err err
  | None => match fk_objects f !! key with
            | None => Err ErrNotFound
            | Some obj => Ok (fo_info obj)
            end
  end.

Definition fake_get (f : Fake) (key : str) : result store_error str :=
  match fk_objects f !! key with None => Err ErrNotFound | Some obj => Ok (fo_body obj) end.

(** The info of every listed key. *)
Definition infos (f : Fake) (keys : list str) : list ObjectInfo :=
  omap (λ k, fo_info <$> fk_objects f !! k) keys.

Definition fake_list (f : Fake) (prefix startAt : str) : list ObjectInfo :=
  infos f (listing prefix startAt (keys_of (fk_objects f))).

(** The loop of [ListPage] over the sorted keys. *)
Definition fake_list_page (f : Fake) (prefix startAt : str) (limit : Z) : result store_error ListPage :=
  if limit <=? 0 then Err (ErrOther "list page limit must be positive") else
  let keys := listing prefix startAt (keys_of (fk_objects f)) in
  Ok (mkListPage (infos f (take (Z.to_nat limit) keys)) (default "" (keys !! Z.to_nat limit))).

Definition fake_delete (f : Fake) (key : str) : result store_error unit * Fake :=
  match fk_deleteErr f with
  | Some err => (Err err, f)
  | None =>
      if fk_swallowDels f then (Ok tt, f)
      else (Ok tt, with_objects f (delete key (fk_objects f)) (fk_seq f))
  end.

Definition fake_handle (X : Type) (e : storeE X) (f : Fake) : X * Fake :=
  match e with
  | Put key body opts => fake_put f key body opts
  | Head key => (fake_head f key, f)
  | Get key => (fake_get f key, f)
  | List prefix startAt => (Ok (fake_list f prefix startAt), f)
  | ListPageE prefix startAt limit => (fake_list_page f prefix startAt limit, f)
  | Delete key => fake_delete f key
  end.

Definition fake_bodies (f : Fake) : contents := fo_body <$> fk_objects f.

(** A store that does not swallow, whose injected failures are failures, and
    whose objects carry their own keys. *)
Definition other_error (e : option store_error) : Prop :=
  match e with None | Some (ErrOther _) => True | _ => False end.

Definition honest (f : Fake) : Prop :=
  fk_swallow f = false ∧ fk_swallowDels f = false ∧
  other_error (fk_putErr f) ∧ other_error (fk_headErr f) ∧ other_error (fk_deleteErr f) ∧
  ∀ k obj, fk_objects f !! k = Some obj → oi_Key (fo_info obj) = k.

(** ** Lemmas *)

Lemma keys_of_fmap {A B} (g : A → B) (m : gmap string A) : keys_of (g <$> m) = keys_of m.
Proof.
  unfold keys_of. rewrite map_to_list_fmap, <-list_fmap_compose. apply list_fmap_ext. by intros ? [].
Qed.

Lemma listing_in prefix startAt (m : gmap string fakeObject) k :
  k ∈ listing prefix startAt (keys_of m) → is_Some (m !! k).
Proof.
  unfold listing. intros [Hk _]%list_elem_of_In%filter_In. apply list_elem_of_In in Hk.
  rewrite sort_keys_perm in Hk. unfold keys_of in Hk.
  apply list_elem_of_fmap in Hk as ([k' v] & -> & Hkv%elem_of_map_to_list). by exists v.
Qed.

Lemma infos_keys f keys :
  (∀ k obj, fk_objects f !! k = Some obj → oi_Key (fo_info obj) = k) →
  (∀ k, k ∈ keys → is_Some (fk_objects f !! k)) → oi_Key <$> infos f keys = keys.
Proof.
  intros Hk. unfold infos. induction keys as [|k keys IH]; intros Hin; [done|].
  cbn [omap list_omap]. destruct (Hin k ltac:(left)) as [obj Ho]. rewrite Ho. simpl.
  rewrite (Hk k obj Ho). f_equal. apply IH. intros k' Hk'. apply Hin. by right.
Qed.

(** ** Listings are sorted *)

Lemma keys_of_NoDup {A} (m : gmap string A) : NoDup (keys_of m).
Proof. apply NoDup_fst_map_to_list. Qed.

(** The keys under a prefix strictly after a cursor, in order. *)
Definition after (prefix cursor : str) (keys : list str) : list str :=
  List.filter (λ k, has_prefix k prefix && str_ltb cursor k) (sort_keys keys).

Lemma filter_sorted (R : relation str) p l : StronglySorted R l → StronglySorted R (List.filter p l).
Proof.
  induction 1 as [|x l _ IH Hx]; [constructor|]. simpl. destruct (p x); [|done].
  constructor; [done|]. apply Forall_forall. intros y [Hy _]%list_elem_of_In%filter_In.
  rewrite Forall_forall in Hx. by apply Hx, list_elem_of_In.
Qed.

Lemma sorted_filter_drop (l : list str) i k :
  StronglySorted str_ltb l → l !! i = Some k → List.filter (str_ltb k) l = drop (S i) l.
Proof.
  intros Hs. revert i. induction Hs as [|x l Hs IH Hx]; intros i Hi; [done|].
  destruct i as [|i]; simplify_eq/=.
  - rewrite str_ltb_irrefl, drop_0. clear -Hx. induction Hx as [|y l Hy _ IH]; [done|]. simpl.
    by rewrite (Is_true_true_1 _ Hy), IH.
  - assert (str_ltb x k = true) as Hxk.
    { rewrite Forall_forall in Hx. apply Is_true_true, Hx. by eapply list_elem_of_lookup_2. }
    assert (str_ltb k x = false) as ->.
    { destruct (str_ltb k x) eqn:E; [|done].
      by rewrite <-(str_ltb_irrefl x), (str_ltb_trans x k x Hxk E). }
    by apply IH.
Qed.

(** Resuming from a key of the listing leaves what follows it. *)
Lemma after_resume prefix cursor keys i k :
  NoDup keys → after prefix cursor keys !! i = Some k →
  after prefix k keys = drop (S i) (after prefix cursor keys).
Proof.
  intros Hnd Hi. pose proof (sort_keys_sorted _ Hnd) as Hs.
  rewrite <-(sorted_filter_drop (after prefix cursor keys) i k (filter_sorted _ _ _ Hs) Hi).
  apply list_elem_of_lookup_2, list_elem_of_In, filter_In in Hi as [_ [_ Hck]%andb_true_iff].
  unfold after. clear Hs. induction (sort_keys keys) as [|x l IH]; [done|]. simpl.
  destruct (has_prefix x prefix); simpl; [|done].
  destruct (str_ltb k x) eqn:Ekx.
  - rewrite (str_ltb_trans _ _ _ Hck Ekx). simpl. rewrite Ekx. by f_equal.
  - destruct (str_ltb cursor x); simpl; [by rewrite Ekx|done].
Qed.

#[global] Instance fake_laws : StoreLaws honest (handles fake_handle) fake_bodies.
Proof.
  constructor. intros X e f x f' Hh Hs.
  pose proof Hh as (Hsw & Hsd & Hpe & Hhe & Hde & Hkeys). unfold handles in Hs.
  assert (∀ k, fake_bodies f !! k = fo_body <$> fk_objects f !! k) as Hb by (intros; apply lookup_fmap).
  assert (keys_of (fake_bodies f) = keys_of (fk_objects f)) as Hko by apply keys_of_fmap.
  destruct e as [key body opts|key|key|prefix startAt|prefix startAt limit|key]; simpl in Hs.
  - unfold fake_put in Hs. destruct (fk_putErr f) as [[| |msg]|] eqn:Epe; try done.
    { injection Hs as <- <-. split; [by left|done]. }
    rewrite Hsw in Hs. destruct (po_IfNotExists opts && _) eqn:Eif; injection Hs as <- <-.
    { apply andb_true_iff in Eif as [Hif (o & Ho)%is_Some_b_spec].
      split; [|done]. split_and!; [done| |done]. by rewrite Hb, Ho. }
    split.
    + unfold fake_bodies, with_objects. simpl. rewrite fmap_insert. split_and!; [|done..].
      intros Hif. rewrite Hif in Eif. rewrite lookup_fmap. by destruct (fk_objects f !! key).
    + unfold honest, with_objects; simpl. rewrite ?Epe, ?Ede. split_and!; try done.
      intros k obj [[<- <-]|[_ Ho]]%lookup_insert_Some; [done|by apply Hkeys].
  - injection Hs as <- <-. split; [|done]. split; [done|]. unfold fake_head.
    destruct (fk_headErr f) as [[| |msg]|] eqn:Ehe; try done.
    destruct (fk_objects f !! key) as [obj|] eqn:Eo; rewrite Hb, Eo; [|done].
    split; [done|by apply Hkeys].
  - injection Hs as <- <-. split; [|done]. split; [done|]. unfold fake_get.
    destruct (fk_objects f !! key) as [obj|] eqn:Eo; by rewrite Hb, Eo.
  - injection Hs as <- <-. split; [|done]. split; [done|]. rewrite Hko.
    apply infos_keys; [done|]. apply listing_in.
  - injection Hs as <- <-. split; [|done]. split; [done|]. unfold fake_list_page.
    destruct (Z.leb_spec limit 0); [done|]. simpl. rewrite Hko. split_and!; [done| |done].
    apply infos_keys; [done|]. intros k Hk. eapply listing_in.
    apply list_elem_of_lookup in Hk as (i & Hi%lookup_take_Some). by eapply list_elem_of_lookup_2, Hi.
  - unfold fake_delete in Hs. destruct (fk_deleteErr f) as [[| |msg]|] eqn:Ede; try done.
    { injection Hs as <- <-. split; [by left|done]. }
    rewrite Hsd in Hs. injection Hs as <- <-. split.
    + unfold fake_bodies, with_objects. simpl. by rewrite fmap_delete.
    + unfold honest, with_objects; simpl. rewrite ?Epe, ?Ede. split_and!; try done.
      intros k obj [_ Ho]%lookup_delete_Some. by apply Hkeys.
Qed.

Lemma NewFake_honest t : honest (NewFake t).
Proof. by split_and!. Qed.

Lemma run_honest {A} (p : prog storeE A) f : honest f → honest (run fake_handle p f).2.
Proof.
  revert f. induction p as [a|X e k IH]; intros f Hf; simpl; [done|].
  destruct (fake_handle X e f) as [x f'] eqn:Eh. apply IH.
  exact (proj2 (store_keeps (StoreLaws := fake_laws) X e f x f' Hf Eh)).
Qed.

End Storage.
