(* ===== verification/S3Store.v ===== *)
(** * The object store over MinIO, internal/storage/s3.go

    The S3 client as programs over the calls of the MinIO client library, whose
    documented behaviour is [minio_spec]: one bucket, the current version of
    each key, an upload that is one conditional request only if multipart is
    off, a listing that ends with an error unless it is complete.  A request
    that the library sends again after a lost answer is one call.  Contexts
    are the calls that ask for their error. *)

From Stdlib Require Import Sorted.
From stdpp Require Import sorting.
From S2P Require Import Prelude GoTime GoString Utf8 Paths Sanitize Settings Prog Storage.

Module S3Store.
Import Storage.

(** ** The client library *)

Record minio_error := mkMinioError { me_Code : str; me_StatusCode : Z; me_Text : str }.

Record minio_put := mkMinioPut {
  mp_ContentType : str;
  mp_UserMetadata : option (gmap string string);
  mp_DisableMultipart : bool;
  mp_PartSize : Z;
  mp_Mode : str;
  mp_RetainUntilDate : time;
  mp_MatchETagExcept : str;
}.

Inductive minioE : Type → Type :=
  | PutObject (bucket key body : str) (size : Z) (opts : minio_put) (timeout : duration) : minioE (result minio_error ObjectInfo)
  | StatObject (bucket key : str) : minioE (result minio_error ObjectInfo)
  | GetObjectRetention (bucket key : str) : minioE (result minio_error (option time))
  | GetObject (bucket key : str) : minioE (result minio_error unit)
  | ReadObject (bucket key : str) : minioE (result minio_error str)
  | ListObjects (bucket prefix startAfter : str) : minioE (list (result minio_error ObjectInfo))
  | RemoveObject (bucket key : str) : minioE (result minio_error unit)
  | CtxErr : minioE (option str)
  | ReadFile (p : str) : minioE (result str str)
  | NewMinio (endpoint accessKey secretKey region : str) (secure : bool) : minioE (option str).

(** ** The operations *)

Definition accessKeyFile : str := "accessKeyID".
Definition secretKeyFile : str := "secretAccessKey".
Definition defaultTimeout : duration := 30 * second.

Record S3Store := mkS3Store { s3_bucket : str; s3_timeout : duration }.

Definition readCredential (dir name : str) : prog minioE (result str str) :=
  if bool_decide (dir = "") then Ret (Err "credentials path is not configured") else
  let! data := call (ReadFile (Paths.Join [dir; name])) in
  Ret match data with
      | Err err => Err (Sanitize.Errorf_args [("reading credential ", name); (": ", err)])
      | Ok data =>
          let value := trim_space data in
          if bool_decide (value = "") then Err (Sanitize.String_ ("credential " +:+ Sanitize.String_ name +:+ " is empty")) else Ok value
      end.

Definition NewS3Store (cfg : Settings.BucketConfig) : prog minioE (result str S3Store) :=
  let!? accessKey := readCredential (Settings.bk_CredentialsPath cfg) accessKeyFile in
  let!? secretKey := readCredential (Settings.bk_CredentialsPath cfg) secretKeyFile in
  let! err := call (NewMinio (Settings.bk_Endpoint cfg) accessKey secretKey (Settings.bk_Region cfg) (Settings.bk_UseTLS cfg)) in
  Ret match err with
      | Some err => Err (Sanitize.Errorf "creating object store client: " err)
      | None => Ok (mkS3Store (Settings.bk_Bucket cfg) defaultTimeout)
      end.

Definition isNotFound (err : minio_error) : bool :=
  bool_decide (me_Code err ∈ ["NoSuchKey"; "NoSuchBucket"; "NotFound"]) || (me_StatusCode err =? 404).

Definition isPreconditionFailed (err : minio_error) : bool :=
  bool_decide (me_Code err = "PreconditionFailed") || (me_StatusCode err =? 412).

Definition failure (prefix : str) (err : minio_error) : store_error := ErrOther (Sanitize.Errorf prefix (me_Text err)).

Definition missing_or (prefix : str) (err : minio_error) : store_error :=
  if isNotFound err then ErrNotFound else failure prefix err.

(** The options' own timeout; zero keeps the store's. *)
Definition PutStream (s : S3Store) (key body : str) (size : Z) (opts : PutOptions) :
    prog minioE (result store_error ObjectInfo) :=
  let timeout := if 0 <? po_Timeout opts then po_Timeout opts else s3_timeout s in
  let retain := negb (is_zero (po_RetainUntil opts)) in
  let putOpts := mkMinioPut (po_ContentType opts) (po_Metadata opts) true (if 0 <? size then size else 0)
    (if retain then "COMPLIANCE" else "") (if retain then po_RetainUntil opts else 0) (if po_IfNotExists opts then "*" else "") in
  let! info := call (PutObject (s3_bucket s) key body size putOpts timeout) in
  Ret match info with
      | Err err => Err (if isPreconditionFailed err then ErrAlreadyExists else failure "writing object: " err)
      | Ok info => Ok (mkObjectInfo (oi_Key info) (oi_Size info) (oi_ETag info) (oi_LastModified info) (po_Metadata opts))
      end.

Definition S3Put (s : S3Store) (key body : str) (opts : PutOptions) : prog minioE (result store_error ObjectInfo) :=
  PutStream s key body (slen body) opts.

Definition objectInfoFrom (stat : ObjectInfo) : ObjectInfo :=
  mkObjectInfo (oi_Key stat) (oi_Size stat) (oi_ETag stat) (oi_LastModified stat) (lowerKeys (Some (default ∅ (oi_Metadata stat)))).

Definition S3Head (s : S3Store) (key : str) : prog minioE (result store_error ObjectInfo) :=
  let! stat := call (StatObject (s3_bucket s) key) in
  Ret match stat with
      | Err err => Err (missing_or "reading object metadata: " err)
      | Ok stat => Ok (objectInfoFrom stat)
      end.

Definition RetentionUntil (s : S3Store) (key : str) : prog minioE (result store_error time) :=
  let! until := call (GetObjectRetention (s3_bucket s) key) in
  Ret match until with
      | Err err => Err (missing_or "reading object retention: " err)
      | Ok until => Ok (default 0 until)
      end.

Definition S3Get (s : S3Store) (key : str) : prog minioE (result store_error str) :=
  let! obj := call (GetObject (s3_bucket s) key) in
  match obj with
  | Err err => Ret (Err (missing_or "reading object: " err))
  | Ok _ =>
      let! data := call (ReadObject (s3_bucket s) key) in
      Ret match data with Err err => Err (missing_or "reading object body: " err) | Ok data => Ok data end
  end.

(** What a listing keeps of an object. *)
Definition listed (info : ObjectInfo) : ObjectInfo :=
  mkObjectInfo (oi_Key info) (oi_Size info) (oi_ETag info) (oi_LastModified info) None.

(** The object under the cursor itself, if it is there and asked for. *)
Definition cursor_object (s : S3Store) (prefix startAt : str) : prog minioE (result store_error (list ObjectInfo)) :=
  if negb (bool_decide (startAt = "")) && has_prefix startAt prefix then
    let! info := S3Head s startAt in
    Ret match info with
        | Ok info => Ok [listed info]
        | Err ErrNotFound => Ok []
        | Err e => Err e
        end
  else Ret (Ok []).

Fixpoint list_loop (objs : list (result minio_error ObjectInfo)) (out : list ObjectInfo) : result store_error (list ObjectInfo) :=
  match objs with
  | [] => Ok out
  | Err err :: _ => Err (failure "listing objects: " err)
  | Ok obj :: objs => list_loop objs (out ++ [listed obj])
  end.

Definition S3List (s : S3Store) (prefix startAt : str) : prog minioE (result store_error (list ObjectInfo)) :=
  let!? out := cursor_object s prefix startAt in
  let! objs := call (ListObjects (s3_bucket s) prefix startAt) in
  Ret (list_loop objs out).

(** The page with one object more, or what comes after it. *)
Definition appendObject (limit : Z) (page : ListPage) (info : ObjectInfo) : ListPage * bool :=
  if Z.of_nat (length (lp_Objects page)) =? limit then (mkListPage (lp_Objects page) (oi_Key info), false)
  else (mkListPage (lp_Objects page ++ [info]) (lp_NextStart page), true).

Fixpoint page_loop (limit : Z) (objs : list (result minio_error ObjectInfo)) (page : ListPage) : result store_error ListPage :=
  match objs with
  | [] => Ok page
  | Err err :: _ => Err (failure "listing object page: " err)
  | Ok obj :: objs =>
      let '(page, more) := appendObject limit page (listed obj) in
      if more : bool then page_loop limit objs page else Ok page
  end.

Definition S3ListPage (s : S3Store) (prefix startAt : str) (limit : Z) : prog minioE (result store_error ListPage) :=
  let! err := call CtxErr in
  match err with
  | Some err => Ret (Err (ErrOther err))
  | None =>
      if limit <=? 0 then Ret (Err (ErrOther "list page limit must be positive")) else
      let!? first := cursor_object s prefix startAt in
      let page := foldl (λ page info, (appendObject limit page info).1) (mkListPage [] "") first in
      let! objs := call (ListObjects (s3_bucket s) prefix startAt) in
      match page_loop limit objs page with
      | Err e => Ret (Err e)
      | Ok page =>
          let! err := call CtxErr in
          Ret match err with Some err => Err (ErrOther err) | None => Ok page end
      end
  end.

Definition S3Delete (s : S3Store) (key : str) : prog minioE (result store_error unit) :=
  let! res := call (RemoveObject (s3_bucket s) key) in
  Ret match res with
      | Err err => if isNotFound err then Ok tt else Err (failure "deleting object: " err)
      | Ok _ => Ok tt
      end.

(** The interface. *)
Definition s3_handle (s : S3Store) (X : Type) (e : storeE X) : prog minioE X :=
  match e in storeE X return prog minioE X with
  | Put key body opts => S3Put s key body opts
  | Head key => S3Head s key
  | Get key => S3Get s key
  | List prefix startAt => S3List s prefix startAt
  | ListPageE prefix startAt limit => S3ListPage s prefix startAt limit
  | Delete key => S3Delete s key
  end.

(** ** What the library promises of the bucket *)

Record object := mkObject { ob_Body : str; ob_Metadata : gmap string string; ob_Retain : option time }.

(** A bucket that is missing holds nothing. *)
Abbreviation bucket := (option (gmap string object)) (only parsing).

Definition objects_of (w : bucket) : gmap string object := default ∅ w.
Definition bodies (w : bucket) : gmap string string := ob_Body <$> objects_of w.

(** Metadata comes back under the keys' canonical spelling. *)
Section library.
Context (canon : str → str).

Definition not_found (err : minio_error) : Prop :=
  me_Code err ∈ ["NoSuchKey"; "NoSuchBucket"; "NotFound"] ∨ me_StatusCode err = 404.

Definition precondition_failed (err : minio_error) : Prop := me_Code err = "PreconditionFailed" ∨ me_StatusCode err = 412.

#[global] Instance precondition_failed_dec err : Decision (precondition_failed err).
Proof. apply _. Defined.

(** One upload request: the condition is tested and the object put at once. *)
Definition uploaded (key body : str) (size : Z) (opts : minio_put) (w w' : bucket) : Prop :=
  ∃ m, w = Some m ∧ size = slen body ∧ (mp_MatchETagExcept opts = "*" → m !! key = None) ∧
    w' = Some (<[key := mkObject body (default ∅ (mp_UserMetadata opts))
      (if bool_decide (mp_Mode opts = "COMPLIANCE") then Some (mp_RetainUntilDate opts) else None)]> m).

(** A lookup that failed because there is nothing, or for another reason. *)
Definition absent_or (err : minio_error) (w : bucket) (key : str) : Prop := not_found err → objects_of w !! key = None.

Definition beyond (prefix startAfter key : str) : bool :=
  has_prefix key prefix && (bool_decide (startAfter = "") || str_ltb startAfter key).

Definition canonical (m : gmap string string) : gmap string string := list_to_map (prod_map canon id <$> map_to_list m).

Definition minio_spec (X : Type) (e : minioE X) (w : bucket) : X → bucket → Prop :=
  match e with
  | PutObject _ key body size opts _ => λ x w', mp_DisableMultipart opts = true →
      match x with
      | Ok info => oi_Key info = key ∧ uploaded key body size opts w w'
      | Err err =>
          if bool_decide (precondition_failed err)
          then mp_MatchETagExcept opts = "*" ∧ objects_of w !! key ≠ None ∧ w' = w
          else w' = w ∨ uploaded key body size opts w w'
      end
  | StatObject _ key => λ x w', w' = w ∧
      match x with
      | Ok stat => oi_Key stat = key ∧ ∃ o, objects_of w !! key = Some o ∧ oi_Metadata stat = Some (canonical (ob_Metadata o))
      | Err err => absent_or err w key
      end
  | GetObjectRetention _ key => λ x w', w' = w ∧
      match x with
      | Ok until => ∃ o, objects_of w !! key = Some o ∧ ob_Retain o = until
      | Err err => True
      end
  | GetObject _ key => λ x w', w' = w ∧ match x with Ok _ => True | Err err => absent_or err w key end
  | ReadObject _ key => λ x w', w' = w ∧
      match x with Ok data => ob_Body <$> objects_of w !! key = Some data | Err err => absent_or err w key end
  | ListObjects _ prefix startAfter => λ x w', w' = w ∧
      let keys := List.filter (beyond prefix startAfter) (sort_keys (keys_of (objects_of w))) in
      ∃ objs rest, x = (Ok <$> objs) ++ rest ∧
        match rest with
        | [] => oi_Key <$> objs = keys
        | Ok _ :: _ => False
        | Err _ :: _ => (oi_Key <$> objs) `prefix_of` keys
        end
  | RemoveObject _ key => λ x w',
      match x with
      | Ok _ => w' = delete key <$> w
      | Err err => (w' = w ∨ w' = delete key <$> w) ∧ (not_found err → objects_of w' !! key = None)
      end
  | CtxErr | ReadFile _ | NewMinio _ _ _ _ _ => λ _ w', w' = w
  end.

(** ** Lemmas *)

Lemma isPreconditionFailed_spec err : isPreconditionFailed err = bool_decide (precondition_failed err).
Proof.
  unfold isPreconditionFailed. rewrite (bool_decide_ext (precondition_failed err) (me_Code err = "PreconditionFailed" ∨ me_StatusCode err = 412)) by done.
  destruct (Z.eqb_spec (me_StatusCode err) 412); rewrite ?orb_true_r, ?orb_false_r; [symmetry; apply bool_decide_eq_true_2; by right|].
  apply bool_decide_ext. naive_solver.
Qed.

Lemma isNotFound_spec err : isNotFound err = true ↔ not_found err.
Proof. unfold isNotFound, not_found. by rewrite orb_true_iff, bool_decide_eq_true, Z.eqb_eq. Qed.

Lemma missing_or_cases prefix err w key :
  absent_or err w key → (missing_or prefix err = ErrNotFound ∧ objects_of w !! key = None) ∨ ∃ m, missing_or prefix err = ErrOther m.
Proof.
  intros H. unfold missing_or. destruct (isNotFound err) eqn:E; [left|right; by eexists].
  split; [done|]. by apply H, isNotFound_spec.
Qed.

Lemma bodies_lookup w k : bodies w !! k = ob_Body <$> objects_of w !! k.
Proof. apply lookup_fmap. Qed.

Lemma keys_of_bodies w : keys_of (bodies w) = keys_of (objects_of w).
Proof. apply keys_of_fmap. Qed.

Lemma keys_of_spec {A} (m : gmap string A) k : k ∈ keys_of m ↔ is_Some (m !! k).
Proof.
  unfold keys_of. rewrite list_elem_of_fmap. split.
  - intros ([k' v] & -> & Hkv%elem_of_map_to_list). by exists v.
  - intros [v Hv]. exists (k, v). split; [done|]. by apply elem_of_map_to_list.
Qed.

Lemma sorted_keys_spec {A} (m : gmap string A) k : k ∈ sort_keys (keys_of m) ↔ is_Some (m !! k).
Proof. by rewrite sort_keys_perm, keys_of_spec. Qed.

Lemma str_ltb_negb a b : a ≠ b → negb (str_ltb a b) = str_ltb b a.
Proof. intros Hne. by rewrite (str_ltb_flip a b Hne). Qed.

(** A sorted list from a key on is the key, if it is there, and what follows. *)
Lemma filter_from p c l :
  StronglySorted str_ltb l →
  List.filter (λ k, p k && negb (str_ltb k c)) l =
  (if p c && bool_decide (c ∈ l) then [c] else []) ++ List.filter (λ k, p k && str_ltb c k) l.
Proof.
  induction 1 as [|x l Hs IH Hx].
  { rewrite bool_decide_eq_false_2 by apply not_elem_of_nil. by destruct (p c). }
  simpl. destruct (decide (x = c)) as [->|Hne].
  - rewrite str_ltb_irrefl, bool_decide_eq_true_2 by left. rewrite andb_false_r, !andb_true_r.
    assert (c ∉ l) as Hc by (rewrite Forall_forall in Hx; intros Hin; apply Hx in Hin; by rewrite str_ltb_irrefl in Hin).
    rewrite IH, (bool_decide_eq_false_2 (c ∈ l)) by done. rewrite andb_false_r. by destruct (p c).
  - rewrite str_ltb_negb by done. rewrite IH, (bool_decide_ext (c ∈ x :: l) (c ∈ l)) by (rewrite elem_of_cons; naive_solver).
    destruct (str_ltb c x) eqn:Ecx; [|by rewrite !andb_false_r].
    assert (c ∉ l) as Hc.
    { rewrite Forall_forall in Hx. intros Hin. apply Hx, Is_true_true in Hin.
      pose proof (str_ltb_trans x c x Hin Ecx) as E. by rewrite str_ltb_irrefl in E. }
    rewrite (bool_decide_eq_false_2 (c ∈ l)) by done. by rewrite andb_false_r.
Qed.

Lemma listing_beyond {A} prefix startAt (m : gmap string A) :
  listing prefix startAt (keys_of m) =
  (if negb (bool_decide (startAt = "")) && has_prefix startAt prefix && bool_decide (is_Some (m !! startAt)) then [startAt] else []) ++
  List.filter (beyond prefix startAt) (sort_keys (keys_of m)).
Proof.
  assert (∀ k, (bool_decide (prefix = "") || has_prefix k prefix) = has_prefix k prefix) as Hp
    by (intros k; case_bool_decide as E; [by rewrite E; destruct k|done]).
  unfold listing, beyond. destruct (decide (startAt = "")) as [->|Hne].
  - rewrite bool_decide_eq_true_2 by done. apply List.filter_ext. intros k. unfold in_listing. by rewrite Hp.
  - rewrite bool_decide_eq_false_2 by done. cbn [negb andb orb].
    rewrite (List.filter_ext _ (λ k, has_prefix k prefix && negb (str_ltb k startAt)))
      by (intros k; unfold in_listing; by rewrite Hp, (bool_decide_eq_false_2 (startAt = ""))).
    rewrite filter_from by (apply sort_keys_sorted, keys_of_NoDup).
    by rewrite (bool_decide_ext (startAt ∈ _) (is_Some (m !! startAt))) by apply sorted_keys_spec.
Qed.

(** *** The loops *)

(** A stream that ends well has every key, one that fails some of the first. *)
Definition streams (x : list (result minio_error ObjectInfo)) (keys : list str) : Prop :=
  ∃ objs rest, x = (Ok <$> objs) ++ rest ∧
    match rest with
    | [] => oi_Key <$> objs = keys
    | Ok _ :: _ => False
    | Err _ :: _ => (oi_Key <$> objs) `prefix_of` keys
    end.

Lemma list_loop_spec x keys out :
  streams x keys →
  match list_loop x out with
  | Ok objects => oi_Key <$> objects = (oi_Key <$> out) ++ keys
  | Err e => ∃ m, e = ErrOther m
  end.
Proof.
  intros (objs & rest & -> & Hrest). revert out keys Hrest. induction objs as [|o objs IH]; intros out keys Hrest; simpl.
  - destruct rest as [|[]]; [|done|by eexists]. simpl in Hrest. subst keys. by rewrite app_nil_r.
  - destruct keys as [|k keys].
    { exfalso. destruct rest as [|[] ?]; [done|done|]. by apply prefix_nil_inv in Hrest. }
    assert (oi_Key o = k) as Ek by (destruct rest as [|[] ?]; simpl in Hrest; [by simplify_eq|done|by apply prefix_cons_inv_1 in Hrest]).
    specialize (IH (out ++ [listed o]) keys). destruct (list_loop _ (out ++ [listed o])).
    + rewrite IH; [rewrite fmap_app; simpl; by rewrite Ek, <-app_assoc|].
      destruct rest as [|[] ?]; simpl in Hrest; [by simplify_eq|done|by apply prefix_cons_inv_2 in Hrest].
    + apply IH. destruct rest as [|[] ?]; simpl in Hrest; [by simplify_eq|done|by apply prefix_cons_inv_2 in Hrest].
Qed.

Lemma page_loop_spec limit x keys page :
  streams x keys → lp_NextStart page = "" → Z.of_nat (length (lp_Objects page)) ≤ limit →
  match page_loop limit x page with
  | Ok page' =>
      let all := (oi_Key <$> lp_Objects page) ++ keys in
      oi_Key <$> lp_Objects page' = take (Z.to_nat limit) all ∧ lp_NextStart page' = default "" (all !! Z.to_nat limit)
  | Err e => ∃ m, e = ErrOther m
  end.
Proof.
  intros (objs & rest & -> & Hrest). revert page keys Hrest. induction objs as [|o objs IH]; intros page keys Hrest Hn Hl; simpl.
  - destruct rest as [|[]]; [|done|by eexists]. simpl in Hrest. subst keys. rewrite app_nil_r.
    rewrite take_ge, lookup_ge_None_2 by (rewrite length_fmap; lia). done.
  - destruct keys as [|k keys].
    { exfalso. destruct rest as [|[] ?]; [done|done|]. by apply prefix_nil_inv in Hrest. }
    assert (oi_Key o = k) as Ek by (destruct rest as [|[] ?]; simpl in Hrest; [by simplify_eq|done|by apply prefix_cons_inv_1 in Hrest]).
    unfold appendObject. destruct (Z.eqb_spec (Z.of_nat (length (lp_Objects page))) limit) as [Hfull|Hroom].
    + cbn [lp_Objects lp_NextStart]. rewrite <-Hfull, Nat2Z.id. rewrite <-(length_fmap oi_Key), take_app_length.
      split; [done|]. by rewrite lookup_app_r, Nat.sub_diag by lia.
    + specialize (IH (mkListPage (lp_Objects page ++ [listed o]) (lp_NextStart page)) keys). cbn [lp_Objects lp_NextStart] in IH.
      rewrite fmap_app in IH. simpl in IH. rewrite Ek, <-app_assoc in IH. apply IH; [|done|rewrite length_app; simpl; lia].
      destruct rest as [|[] ?]; simpl in Hrest; [by simplify_eq|done|by apply prefix_cons_inv_2 in Hrest].
Qed.

(** *** Against the bucket *)

Abbreviation spec := minio_spec.

Lemma S3Head_spec s key w :
  wp spec (S3Head s key) (λ x w', w' = w ∧
    match x with
    | Ok info => oi_Key info = key ∧ is_Some (objects_of w !! key)
    | Err ErrNotFound => objects_of w !! key = None
    | Err ErrAlreadyExists => False
    | Err (ErrOther _) => True
    end) w.
Proof.
  intros x w' [-> Hx]. cbn [prog_bind wp]. split; [done|]. destruct x as [stat|err].
  - destruct Hx as (Hk & o & Ho & _). by rewrite Ho.
  - by destruct (missing_or_cases "reading object metadata: " err w key Hx) as [[-> ?]|[m ->]].
Qed.

Lemma cursor_object_spec s prefix startAt w :
  wp spec (cursor_object s prefix startAt) (λ r w', w' = w ∧
    match r with
    | Ok out => oi_Key <$> out = if negb (bool_decide (startAt = "")) && has_prefix startAt prefix && bool_decide (is_Some (objects_of w !! startAt)) then [startAt] else []
    | Err e => ∃ m, e = ErrOther m
    end) w.
Proof.
  unfold cursor_object. destruct (negb _ && has_prefix _ _); [|done]. cbn [andb].
  apply wp_bind. eapply wp_mono; [|apply S3Head_spec]. intros x w' [-> Hx]. split; [done|].
  destruct x as [info|[| |m]]; [|done| |by eexists].
  - destruct Hx as [Hk Hs]. rewrite bool_decide_eq_true_2 by done. simpl. by rewrite Hk.
  - by rewrite bool_decide_eq_false_2 by (rewrite Hx; by intros []).
Qed.

Lemma cursor_page (out : list ObjectInfo) limit k b :
  0 < limit → oi_Key <$> out = (if b : bool then [k] else []) →
  let page := foldl (λ page info, (appendObject limit page info).1) (mkListPage [] "") out in
  lp_Objects page = out ∧ lp_NextStart page = "" ∧ Z.of_nat (length out) ≤ limit.
Proof.
  intros Hl Ho. assert (out = [] ∨ ∃ info, out = [info]) as [->|[info ->]].
  { destruct out as [|info [|]]; [by left|right; by eexists|]. by destruct b. }
  - simpl. split_and!; [done..|lia].
  - destruct limit as [|p|]; [lia| |lia]. split_and!; [done..|simpl; lia].
Qed.

Lemma S3Put_spec s key body opts w :
  wp spec (S3Put s key body opts) (λ x w', store_spec _ (Put key body opts) (bodies w) x (bodies w')) w.
Proof.
  intros x w' Hx. specialize (Hx eq_refl). cbn [prog_bind wp].
  assert (∀ w', uploaded key body (slen body)
      (mkMinioPut (po_ContentType opts) (po_Metadata opts) true (if 0 <? slen body then slen body else 0)
        (if negb (is_zero (po_RetainUntil opts)) then "COMPLIANCE" else "") (if negb (is_zero (po_RetainUntil opts)) then po_RetainUntil opts else 0)
        (if po_IfNotExists opts then "*" else "")) w w' → absent_if opts key (bodies w) ∧ bodies w' = <[key := body]> (bodies w)) as Hup.
  { intros w1 (m & -> & _ & Habs & ->). split; [|unfold bodies; simpl; by rewrite fmap_insert].
    intros Hif. cbn [mp_MatchETagExcept] in Habs. rewrite Hif in Habs. rewrite bodies_lookup. simpl. by rewrite Habs. }
  destruct x as [info|err].
  - destruct Hx as [Hk Hu]. destruct (Hup _ Hu). by split_and!.
  - rewrite isPreconditionFailed_spec. case_bool_decide.
    + destruct Hx as (Hm & Hin & ->). cbn [mp_MatchETagExcept] in Hm. split_and!; [by destruct (po_IfNotExists opts)| |done].
      rewrite bodies_lookup. by destruct (objects_of w !! key).
    + destruct Hx as [->|Hu]; [by left|right; by apply Hup].
Qed.

Lemma S3List_spec s prefix startAt w :
  wp spec (S3List s prefix startAt) (λ x w', store_spec _ (List prefix startAt) (bodies w) x (bodies w')) w.
Proof.
  unfold S3List. apply wp_try. eapply wp_mono; [|apply cursor_object_spec]. intros [out|e] w' [-> Hout].
  - intros x w' [-> Hx]. cbn [prog_bind wp]. split; [done|]. rewrite keys_of_bodies, listing_beyond, <-Hout.
    pose proof (list_loop_spec x _ out Hx) as Hloop. destruct (list_loop x out); [done|]. by destruct Hloop as [m ->].
  - destruct Hout as [m ->]. by split.
Qed.

Lemma S3ListPage_spec s prefix startAt limit w :
  wp spec (S3ListPage s prefix startAt limit) (λ x w', store_spec _ (ListPageE prefix startAt limit) (bodies w) x (bodies w')) w.
Proof.
  unfold S3ListPage. intros x w' ->. cbn [prog_bind]. destruct x as [err|]; [by split|].
  destruct (Z.leb_spec limit 0) as [|Hlim]; [by split|].
  apply wp_try. eapply wp_mono; [|apply cursor_object_spec]. intros [out|e] w' [-> Hout]; [|destruct Hout as [m ->]; by split].
  destruct (cursor_page out limit _ _ Hlim Hout) as (Hobj & Hnext & Hlen).
  intros x w' [-> Hx]. cbn [prog_bind].
  pose proof (page_loop_spec limit x _ _ Hx Hnext) as Hloop. rewrite Hobj in Hloop. specialize (Hloop Hlen).
  destruct (page_loop limit x _) as [page|e]; [|destruct Hloop as [m ->]; by split].
  intros y w' ->. cbn [prog_bind wp]. split; [done|]. destruct y; [done|].
  rewrite keys_of_bodies, listing_beyond, <-Hout. by destruct Hloop.
Qed.

Lemma s3_meets s X (e : storeE X) w :
  wp spec (s3_handle s X e) (λ x w', store_spec X e (bodies w) x (bodies w')) w.
Proof.
  destruct e as [key body opts|key|key|prefix startAt|prefix startAt limit|key]; cbn [s3_handle].
  - apply S3Put_spec.
  - eapply wp_mono; [|apply S3Head_spec]. intros x w' [-> Hx]. split; [done|].
    rewrite bodies_lookup. destruct x as [info|[| |m]]; [|done|by rewrite Hx|done].
    destruct Hx as [Hk [o Ho]]. by rewrite Ho.
  - intros x w' [-> Hx]. destruct x as [u|err]; cbn [prog_bind].
    + intros y w' [-> Hy]. cbn [prog_bind wp]. split; [done|]. rewrite bodies_lookup. destruct y as [data|err]; [done|].
      by destruct (missing_or_cases "reading object body: " err w key Hy) as [[-> ->]|[m ->]].
    + cbn [wp]. split; [done|]. rewrite bodies_lookup.
      by destruct (missing_or_cases "reading object: " err w key Hx) as [[-> ->]|[m ->]].
  - apply S3List_spec.
  - apply S3ListPage_spec.
  - intros x w' Hx. cbn [prog_bind wp].
    assert (∀ w, bodies (delete key <$> w) = delete key (bodies w)) as Hd
      by (intros [m|]; unfold bodies; simpl; [apply fmap_delete|by rewrite fmap_empty, delete_empty]).
    destruct x as [u|err]; [cbn in Hx; subst w'; apply Hd|]. destruct Hx as [Hw Habs]. destruct (isNotFound err) eqn:Enf; simpl.
    + destruct Hw as [->| ->]; [|apply Hd]. rewrite delete_id; [done|]. rewrite bodies_lookup.
      by rewrite Habs by by apply isNotFound_spec.
    + destruct Hw as [->| ->]; [by left|right; apply Hd].
Qed.

(** One call of the interface as one step. *)
Definition s3_step (s : S3Store) (X : Type) (e : storeE X) (w : bucket) (x : X) (w' : bucket) : Prop :=
  exec spec (s3_handle s X e) w x w'.

#[export] Instance s3_laws s : StoreLaws (λ _, True) (s3_step s) bodies.
Proof. constructor. intros X e w x w' _ Hx. split; [|done]. by eapply wp_exec in Hx; [|apply s3_meets]. Qed.

(** *** Others at work

    Between two calls the bucket may change in any way; [hist] is what it was
    at each call. *)

Definition others_step (X : Type) (e : minioE X) (hist : list bucket) (x : X) (hist' : list bucket) : Prop :=
  ∃ w1 w2, spec X e w1 x w2 ∧ hist' = hist ++ [w1; w2].

Definition held (hist : list bucket) (k : str) : Prop := ∀ w, w ∈ hist → is_Some (objects_of w !! k).
Definition seen (hist : list bucket) (k : str) : Prop := ∃ w, w ∈ hist ∧ is_Some (objects_of w !! k).

(** Keys in order, with every key held throughout and none that was not there. *)
Definition covers (prefix startAt : str) (hist : list bucket) (keys : list str) : Prop :=
  StronglySorted str_ltb keys ∧
  (∀ k, in_listing prefix startAt k = true → held hist k → k ∈ keys) ∧
  (∀ k, k ∈ keys → in_listing prefix startAt k = true ∧ seen hist k).

(** What the cursor's own lookup found, given the history. *)
Definition at_cursor (prefix startAt : str) (hist : list bucket) (keys : list str) : Prop :=
  if negb (bool_decide (startAt = "")) && has_prefix startAt prefix
  then keys = [startAt] ∧ seen hist startAt ∨ keys = [] ∧ ¬ held hist startAt
  else keys = [].

Lemma cursor_object_others s prefix startAt hist :
  wp others_step (cursor_object s prefix startAt) (λ r hist', match r with Ok out => at_cursor prefix startAt hist' (oi_Key <$> out) | Err _ => True end) hist.
Proof.
  unfold cursor_object, at_cursor. destruct (negb _ && has_prefix _ _); [|done].
  intros x hist' (w & w' & Hst & ->). cbn [prog_bind wp]. destruct Hst as [-> Hx].
  assert (w ∈ hist ++ [w; w]) as Hin by (apply elem_of_app; right; left).
  destruct x as [stat|err].
  - destruct Hx as (Hk & o & Ho & _). left. simpl. rewrite Hk. split; [done|]. by exists w; rewrite Ho.
  - destruct (missing_or_cases "reading object metadata: " err w startAt Hx) as [[-> Hnone]|[m ->]]; [|done].
    right. split; [done|]. intros Hheld. specialize (Hheld w Hin). rewrite Hnone in Hheld. by destruct Hheld.
Qed.

Lemma held_app hist l k : held (hist ++ l) k → held hist k.
Proof. intros H w Hw. apply H, elem_of_app. by left. Qed.

Lemma seen_app hist l k : seen hist k → seen (hist ++ l) k.
Proof. intros (w & Hw & Hk). exists w. split; [apply elem_of_app; by left|done]. Qed.

Lemma at_cursor_app prefix startAt hist l keys : at_cursor prefix startAt hist keys → at_cursor prefix startAt (hist ++ l) keys.
Proof.
  unfold at_cursor. destruct (negb _ && _); [|done].
  intros [[-> ?]|[-> Hn]]; [left; split; [done|by apply seen_app]|right; split; [done|]]. intros H. by apply Hn, (held_app _ l).
Qed.

Lemma in_listing_prefix prefix startAt k :
  in_listing prefix startAt k = has_prefix k prefix && (bool_decide (startAt = "") || negb (str_ltb k startAt)).
Proof. unfold in_listing. f_equal. case_bool_decide as E; [rewrite E; by destruct k|done]. Qed.

Lemma listing_covers prefix startAt hist w keys :
  at_cursor prefix startAt hist keys → w ∈ hist →
  covers prefix startAt hist (keys ++ List.filter (beyond prefix startAt) (sort_keys (keys_of (objects_of w)))).
Proof.
  intros Hc Hw. set (rest := List.filter _ _).
  assert (∀ k, k ∈ rest ↔ beyond prefix startAt k = true ∧ is_Some (objects_of w !! k)) as Hrest
    by (intros k; unfold rest; rewrite list_elem_of_In, filter_In, <-list_elem_of_In, sorted_keys_spec; naive_solver).
  assert (StronglySorted str_ltb rest) as Hs by (apply filter_sorted, sort_keys_sorted, keys_of_NoDup).
  unfold at_cursor in Hc.
  assert (keys = [] ∨ keys = [startAt] ∧ startAt ≠ "" ∧ has_prefix startAt prefix = true ∧ seen hist startAt) as Hk.
  { destruct (negb _ && _) eqn:E; [|by left]. apply andb_true_iff in E as [E%negb_true_iff%bool_decide_eq_false Hp].
    destruct Hc as [[-> ?]|[-> _]]; [by right|by left]. }
  split_and!.
  - destruct Hk as [->|(-> & Hne & _)]; [done|]. simpl. constructor; [done|]. apply Forall_forall. intros k [Hb _]%Hrest.
    unfold beyond in Hb. rewrite bool_decide_eq_false_2 in Hb by done. apply andb_true_iff in Hb as [_ Hb]. cbn [orb] in Hb. by rewrite Hb.
  - intros k Hin Hheld. rewrite in_listing_prefix in Hin. apply andb_true_iff in Hin as [Hp Hin].
    destruct (decide (startAt = "" ∨ k ≠ startAt)) as [Hb|Hb].
    + apply elem_of_app. right. apply Hrest. split; [|by apply Hheld]. unfold beyond. rewrite Hp. cbn [andb].
      case_bool_decide as E; [done|]. destruct Hb as [|Hb]; [done|]. cbn [orb] in *. by rewrite str_ltb_negb in Hin.
    + assert (startAt ≠ "" ∧ k = startAt) as [Hne ->] by (destruct (decide (k = startAt)); naive_solver).
      rewrite bool_decide_eq_false_2, Hp in Hc by done. cbn [negb andb] in Hc.
      destruct Hc as [[-> _]|[_ Hn]]; [by left|by destruct Hn].
  - intros k [Hin|Hin]%elem_of_app.
    + destruct Hk as [->|(-> & Hne & Hp & Hseen)]; [by apply elem_of_nil in Hin|]. apply list_elem_of_singleton in Hin as ->.
      rewrite in_listing_prefix, Hp, str_ltb_irrefl, orb_true_r. by split.
    + apply Hrest in Hin as [Hb Hsome]. split; [|by exists w]. rewrite in_listing_prefix. unfold beyond in Hb.
      apply andb_true_iff in Hb as [-> Hb]. case_bool_decide; [done|]. cbn [orb andb] in *.
      rewrite str_ltb_negb; [done|]. intros ->. by rewrite str_ltb_irrefl in Hb.
Qed.

(** The first keys of a sorted list, and the one that follows them. *)
Lemma take_sorted n (l : list str) k :
  StronglySorted str_ltb l → (0 < n)%nat → k ∈ l →
  (k ∈ take n l ↔ default "" (l !! n) = "" ∨ str_ltb k (default "" (l !! n)) = true).
Proof.
  intros Hs Hn Hk.
  destruct (l !! n) as [x|] eqn:Hx; simpl.
  - rewrite <-(take_drop n l) in Hs, Hk. rewrite (drop_S l x n Hx) in Hs, Hk.
    assert (∀ y, y ∈ take n l → str_ltb y x = true) as Hbelow.
    { intros y Hy. apply Is_true_true. apply (StronglySorted_app_1_elem_of _ _ _ y x Hs Hy). left. }
    assert (x ≠ "") as Hne.
    { intros ->. destruct l as [|y l]; [done|]. destruct n as [|n]; [lia|].
      specialize (Hbelow y ltac:(left)). by destruct y. }
    split; [intros H; right; by apply Hbelow|]. intros [|Hlt]; [done|].
    apply elem_of_app in Hk as [Hk|[->|Hk]%elem_of_cons]; [done|by rewrite str_ltb_irrefl in Hlt|].
    exfalso. apply StronglySorted_app_1_r in Hs. inversion Hs as [|? ? _ Hx']; subst. rewrite Forall_forall in Hx'.
    apply Hx', Is_true_true in Hk. pose proof (str_ltb_trans x k x Hk Hlt) as E. by rewrite str_ltb_irrefl in E.
  - rewrite take_ge by (by apply lookup_ge_None). naive_solver.
Qed.

Lemma S3List_others s prefix startAt hist :
  wp others_step (S3List s prefix startAt)
    (λ r hist', match r with Ok objects => covers prefix startAt hist' (oi_Key <$> objects) | Err _ => True end) hist.
Proof.
  unfold S3List. apply wp_try. eapply wp_mono; [|apply cursor_object_others]. intros [out|e] hist1 Hc; [|done].
  intros x hist2 (w & w' & [-> Hx] & ->). cbn [prog_bind wp].
  pose proof (list_loop_spec x _ out Hx) as Hloop. destruct (list_loop x out) as [objects|]; [|done]. rewrite Hloop.
  apply listing_covers; [by apply at_cursor_app|]. apply elem_of_app. right. left.
Qed.

Lemma covers_app prefix startAt hist l keys : covers prefix startAt hist keys → covers prefix startAt (hist ++ l) keys.
Proof.
  intros (Hs & Hc & Hi). split_and!; [done| |].
  - intros k Hk Hheld. apply Hc; [done|]. by eapply held_app.
  - intros k [? ?]%Hi. split; [done|by apply seen_app].
Qed.

Lemma S3ListPage_others s prefix startAt limit hist :
  wp others_step (S3ListPage s prefix startAt limit)
    (λ r hist', match r with
      | Ok page => 0 < limit ∧ ∃ all, covers prefix startAt hist' all ∧
          oi_Key <$> lp_Objects page = take (Z.to_nat limit) all ∧ lp_NextStart page = default "" (all !! Z.to_nat limit)
      | Err _ => True end) hist.
Proof.
  unfold S3ListPage. intros x hist0 (w0 & w1 & _ & ->). cbn [prog_bind]. destruct x; [done|].
  destruct (Z.leb_spec limit 0) as [|Hlim]; [done|].
  apply wp_try. eapply wp_mono; [|apply cursor_object_others]. intros [out|e] hist1 Hc; [|done].
  intros x hist2 (w & w' & [-> Hx] & ->). cbn [prog_bind].
  assert (oi_Key <$> out = if bool_decide (out = []) then [] else [startAt]) as Hout.
  { unfold at_cursor in Hc. destruct out as [|o out]; [done|]. destruct (negb _ && _); [|done]. by destruct Hc as [[-> _]|[? _]]. }
  destruct (cursor_page out limit startAt (negb (bool_decide (out = []))) Hlim) as (Hobj & Hnext & Hlen);
    [rewrite Hout; by case_bool_decide|].
  pose proof (page_loop_spec limit x _ _ Hx Hnext) as Hloop. rewrite Hobj in Hloop. specialize (Hloop Hlen).
  destruct (page_loop limit x _) as [page|e]; [|done].
  intros y hist3 (w3 & w4 & _ & ->). cbn [prog_bind wp]. destruct y; [done|]. split; [done|].
  destruct Hloop as [Hk Hn]. eexists. split; [|by split]. apply covers_app, listing_covers; [by apply at_cursor_app|].
  apply elem_of_app. right. left.
Qed.

(** ** Theorems *)

(** C7: the S3 store keeps the promise that its callers' theorems are about.
    Over the client library's documented behaviour, failed and lost calls
    included, each operation, however many requests it makes, answers as the
    interface promises and leaves the bucket as it promises: a conditional
    write is one atomic request, a missing object is told from a failure,
    listings begin with the cursor's own object though the library's begin
    after it, pages end where the next one starts. *)
Theorem s3_keeps_promise s X (e : storeE X) w :
  wp spec (s3_handle s X e) (λ x w', store_spec X e (bodies w) x (bodies w')) w.
Proof. apply s3_meets. Qed.

(** C25: a listing misses nothing.  A listing is two requests, and others may
    change the bucket in any way before and between them.  Its keys are in
    order and no key twice, each was in the bucket at one of the requests and
    is at or beyond the cursor, and every such key that was there throughout is
    among them; a page has as many as asked for, and a page that names a next
    key has all those below it. *)
Theorem s3_listing_covers s prefix startAt limit :
  wp others_step (S3List s prefix startAt)
    (λ r hist', match r with Ok objects => covers prefix startAt hist' (oi_Key <$> objects) | Err _ => True end) [] ∧
  wp others_step (S3ListPage s prefix startAt limit)
    (λ r hist', match r with
      | Ok page =>
          let keys := oi_Key <$> lp_Objects page in
          let within k := lp_NextStart page = "" ∨ str_ltb k (lp_NextStart page) = true in
          Z.of_nat (length keys) ≤ limit ∧ StronglySorted str_ltb keys ∧
          (∀ k, in_listing prefix startAt k = true → held hist' k → within k → k ∈ keys) ∧
          (∀ k, k ∈ keys → in_listing prefix startAt k = true ∧ seen hist' k ∧ within k)
      | Err _ => True
      end) [].
Proof.
  split; [apply S3List_others|]. eapply wp_mono; [|apply S3ListPage_others]. intros [page|e] hist'; [|done].
  intros (Hlim & all & (Hs & Hc & Hi) & -> & ->). assert (0 < Z.to_nat limit)%nat as Hn by lia.
  split_and!; [rewrite length_take; lia| | |].
  - rewrite <-(take_drop (Z.to_nat limit) all) in Hs. by eapply StronglySorted_app_1_l.
  - intros k Hk Hheld Hw. apply take_sorted; [done..|by apply Hc|done].
  - intros k Hk. assert (k ∈ all) as Hall by (by eapply subseteq_take). destruct (Hi k Hall). split_and!; [done..|by apply take_sorted].
Qed.


(** *** Metadata comes back as written *)

Lemma rename_lookup {A} (f : str → str) (m : gmap string A) k' v :
  (∀ k1 k2, is_Some (m !! k1) → is_Some (m !! k2) → f k1 = f k2 → k1 = k2) →
  (list_to_map (prod_map f id <$> map_to_list m) : gmap string A) !! k' = Some v ↔ ∃ k, f k = k' ∧ m !! k = Some v.
Proof.
  intros Hinj. rewrite <-elem_of_list_to_map.
  - rewrite list_elem_of_fmap. split.
    + intros ([k x] & E & Hk%elem_of_map_to_list). simpl in E. simplify_eq. by exists k.
    + intros (k & <- & Hk). exists (k, v). split; [done|]. by apply elem_of_map_to_list.
  - rewrite <-list_fmap_compose. change (fst ∘ prod_map f id) with (λ kv : string * A, f kv.1).
    rewrite (list_fmap_ext _ (f ∘ fst) (map_to_list m)) by done. rewrite list_fmap_compose.
    apply NoDup_fmap_2_strong; [|apply NoDup_fst_map_to_list]. intros k1 k2 H1 H2.
    apply list_elem_of_fmap in H1 as ([? x1] & -> & H1%elem_of_map_to_list).
    apply list_elem_of_fmap in H2 as ([? x2] & -> & H2%elem_of_map_to_list).
    by apply Hinj; eexists.
Qed.

Lemma canonical_back (m : gmap string string) :
  (∀ k, is_Some (m !! k) → str_lower (canon k) = k) → lowerKeys (Some (canonical m)) = Some m.
Proof.
  intros Hc. unfold lowerKeys. cbn [fmap option_fmap option_map]. f_equal.
  assert (∀ k1 k2, is_Some (m !! k1) → is_Some (m !! k2) → canon k1 = canon k2 → k1 = k2) as Hinj
    by (intros k1 k2 H1 H2 E; by rewrite <-(Hc k1 H1), <-(Hc k2 H2), E).
  assert (∀ k v, canonical m !! k = Some v ↔ ∃ k0, canon k0 = k ∧ m !! k0 = Some v) as Hcan by (intros; by apply rename_lookup).
  rewrite (list_fmap_ext _ (prod_map str_lower id) (map_to_list (canonical m))) by (by intros ? []).
  apply map_eq. intros k. apply option_eq. intros v. rewrite rename_lookup.
  - split.
    + intros (k1 & <- & (k0 & <- & Hk0)%Hcan). by rewrite Hc by by eexists.
    + intros Hk. exists (canon k). split; [by apply Hc; eexists|]. apply Hcan. by exists k.
  - intros k1 k2 [v1 (k3 & <- & H3)%Hcan] [v2 (k4 & <- & H4)%Hcan] E.
    rewrite (Hc k3), (Hc k4) in E by by eexists. by subst.
Qed.

(** An object written and looked at in every way. *)
Definition write_and_read (s : S3Store) (key body : str) (opts : PutOptions) :
    prog minioE (result store_error ObjectInfo * result store_error ObjectInfo * result store_error str * result store_error time) :=
  let! written := S3Put s key body opts in
  let! info := S3Head s key in
  let! read := S3Get s key in
  let! until := RetentionUntil s key in
  Ret (written, info, read, until).

(** what is written reads back.  After a successful write, unless a lookup
    fails, the object has the body, the lock until the very instant asked for
    (none if none was), and the metadata under the keys as written, though the
    backend respells them - if the keys are those the backend's spelling lowers
    to. *)
Theorem s3_write_roundtrip s key body opts m w :
  po_Metadata opts = Some m → (∀ k, is_Some (m !! k) → str_lower (canon k) = k) →
  wp spec (write_and_read s key body opts) (λ '(written, info, read, until) _,
    is_ok written = true →
    (∀ i, info = Ok i → oi_Metadata i = Some m ∧ oi_Key i = key) ∧
    (∀ b, read = Ok b → b = body) ∧ (∀ t, until = Ok t → t = po_RetainUntil opts) ∧
    info ≠ Err ErrNotFound ∧ read ≠ Err ErrNotFound) w.
Proof.
  intros Hm Hc. unfold write_and_read. intros x w1 Hx. specialize (Hx eq_refl). cbn [prog_bind].
  destruct x as [info0|err].
  2: { apply wp_bind, wp_any. intros ? ?. apply wp_bind, wp_any. intros ? ?. apply wp_bind, wp_any. intros ? ?. cbn. by destruct (isPreconditionFailed err). }
  destruct Hx as [_ (m0 & -> & _ & _ & ->)].
  set (o := mkObject _ _ _). assert (objects_of (Some (<[key:=o]> m0)) !! key = Some o) as Ho by (simpl; apply lookup_insert_eq).
  set (w1 := Some (<[key := o]> m0)) in *. intros stat w2 [-> Hstat]. cbn [prog_bind].
  intros got w2 [-> Hgot]. apply wp_bind.
  assert (wp spec (match got with Err err => Ret (Err (missing_or "reading object: " err)) | Ok _ =>
      let! data := call (ReadObject (s3_bucket s) key) in Ret match data with Err err => Err (missing_or "reading object body: " err) | Ok data => Ok data end end)
    (λ r w', w' = w1 ∧ (∀ b, r = Ok b → b = body) ∧ r ≠ Err ErrNotFound) w1) as Hread.
  { assert (∀ prefix err, absent_or err w1 key → missing_or prefix err ≠ ErrNotFound) as Hpresent
      by (intros prefix err Ha; destruct (missing_or_cases prefix err w1 key Ha) as [[_ E]|[? ->]]; [by rewrite Ho in E|done]).
    destruct got as [u|err]; [|split_and!; [done..|intros [= E]; by eapply Hpresent]].
    intros data w2 [-> Hdata]. cbn [prog_bind wp]. destruct data as [data|err].
    - rewrite Ho in Hdata. cbn in Hdata. injection Hdata as <-. split_and!; [done|intros b [= <-]; done|done].
    - split_and!; [done..|]. intros [= E]. by eapply Hpresent. }
  eapply wp_mono; [|exact Hread]. intros r w2 (-> & Hr & Hrn). intros held_until w2 [-> Huntil]. cbn [prog_bind wp]. intros _. split_and!; [|done| | |done].
  - intros i Hi. destruct stat as [stat|]; [|done]. destruct Hstat as (Hkey & o' & Ho' & Hmeta). rewrite Ho in Ho'. injection Ho' as <-.
    injection Hi as <-. cbn. rewrite Hmeta. split; [|done]. cbn [default ob_Metadata o mp_UserMetadata]. rewrite Hm. by apply canonical_back.
  - intros t Ht. destruct held_until as [held_until|err]; [|by unfold missing_or in Ht; destruct (isNotFound err)].
    destruct Huntil as (o' & Ho' & <-). rewrite Ho in Ho'. injection Ho' as <-. injection Ht as <-.
    cbn [ob_Retain o mp_Mode mp_RetainUntilDate]. unfold is_zero. destruct (Z.eqb_spec (po_RetainUntil opts) 0) as [E|_]; [by rewrite E|done].
  - destruct stat as [|err]; [done|]. destruct (missing_or_cases "reading object metadata: " err w1 key Hstat) as [[_ E]|[? E]];
      [by rewrite Ho in E|cbn; by rewrite E].
Qed.


End library.

(** ** Witnesses *)

Definition no_such_key : minio_error := mkMinioError "NoSuchKey" 404 "The specified key does not exist.".

Definition example_info (key body : str) : ObjectInfo := mkObjectInfo key (slen body) "" 0 None.

(** A bucket of bodies whose listings begin after the key given. *)
Definition example_minio (X : Type) (e : minioE X) (m : gmap string string) : X * gmap string string :=
  match e with
  | PutObject _ key body _ opts _ =>
      if bool_decide (mp_MatchETagExcept opts = "*") && is_Some_b (m !! key) then (Err (mkMinioError "PreconditionFailed" 412 ""), m)
      else (Ok (example_info key body), <[key := body]> m)
  | StatObject _ key => (match m !! key with Some b => Ok (example_info key b) | None => Err no_such_key end, m)
  | GetObjectRetention _ key => (Ok None, m)
  | GetObject _ _ => (Ok tt, m)
  | ReadObject _ key => (match m !! key with Some b => Ok b | None => Err no_such_key end, m)
  | ListObjects _ prefix startAfter =>
      ((λ k, Ok (example_info k "")) <$> List.filter (beyond prefix startAfter) (sort_keys (keys_of m)), m)
  | RemoveObject _ key => (Ok tt, delete key m)
  | CtxErr => (None, m)
  | ReadFile _ => (Ok "value", m)
  | NewMinio _ _ _ _ _ => (None, m)
  end.

Definition example_bucket : gmap string string := {["a/1" := "x"; "a/2" := "y"; "a/3" := "z"; "b" := "w"]}.

Definition example_store : S3Store := mkS3Store "ledger" defaultTimeout.

Example listing_is_inclusive : ∀ startAt, startAt ∈ ["a/2"; "a/1z"] →
  match (run example_minio (S3List example_store "a/" startAt) example_bucket).1 with Ok objects => oi_Key <$> objects | Err _ => [] end = ["a/2"; "a/3"].
Proof. intros startAt [->|[->|[]%elem_of_nil]%elem_of_cons]%elem_of_cons; vm_compute; reflexivity. Qed.

Example page_names_the_next :
  match (run example_minio (S3ListPage example_store "a/" "a/1" 2) example_bucket).1 with
  | Ok page => (oi_Key <$> lp_Objects page, lp_NextStart page) | Err _ => ([], "") end = (["a/1"; "a/2"], "a/3").
Proof. vm_compute. reflexivity. Qed.

Definition example_canon (k : str) : str := if bool_decide (k = "sha256") then "Sha256" else k.

Lemma s3_write_roundtrip_witness :
  wp (minio_spec example_canon) (write_and_read example_store "k" "body" (mkPutOptions true 7 "" (Some {["sha256" := "abc"]}) 0))
    (λ '(written, info, read, until) _, is_ok written = true →
      (∀ i, info = Ok i → oi_Metadata i = Some {["sha256" := "abc"]} ∧ oi_Key i = "k") ∧
      (∀ b, read = Ok b → b = "body") ∧ (∀ t, until = Ok t → t = 7) ∧ info ≠ Err ErrNotFound ∧ read ≠ Err ErrNotFound) (Some ∅).
Proof.
  apply (s3_write_roundtrip example_canon example_store "k" "body" (mkPutOptions true 7 "" (Some {["sha256" := "abc"]}) 0) {["sha256" := "abc"]});
    [reflexivity|].
  intros k [v Hk]. apply lookup_singleton_Some in Hk as [<- _]. reflexivity.
Defined.

End S3Store.
