(* ===== verification/Runner.v ===== *)
(** * The capture runner, internal/capture/runner.go

    One capture: the spec is checked, the filter compiled by a dry run,
    dumpcap started under the bounds and waited for, its file verified and
    stored, and each stage recorded.  The runner is a program over the host
    (dumpcap, its file, the clock, the progress records) and the bucket.

    A [select] is a call that answers which channel was ready; a receive that
    nobody will ever answer is one too.  dumpcap's output reaches a ring of
    the last bytes.  An exit status is whether it was clean, since more of it
    reaches the log only.  Logging and the timeouts of contexts are the
    environment's. *)

From S2P Require Import Prelude GoTime GoString Sha256 Utf8 Sanitize Api Bounds Pcapng Manifest CaptureState Protocol.
From S2P Require Import Prog Paths Storage.

Module Runner.
Import Bounds CaptureState Protocol.

Definition WorkFileName : str := "capture.pcapng".
Definition DefaultDryRunTimeout : duration := 10 * second.
Definition DefaultStartTimeout : duration := 15 * second.
Definition DefaultStopGrace : duration := 5 * second.
Definition DefaultUploadBudget : duration := 15 * minute.
Definition stderrRingBytes : Z := 65536.
Definition stderrTailBytes : Z := 200.
Definition bpfProgramRingBytes : Z := 4096.
Definition invalidFilterMarker : str := "Invalid capture filter".
Definition filePollInterval : duration := 100 * millisecond.
Definition ContentTypePcapng : str := "application/x-pcapng".
Definition ContentTypeManifest : str := "application/json".

(** ** ring: the last bytes written *)

Definition ring_write (size : Z) (buf p : str) : str :=
  let buf := buf +:+ p in
  if size <? slen buf then str_drop (Z.to_nat (slen buf - size)) buf else buf.

Definition ring_of (size : Z) (chunks : list str) : str := foldl (ring_write size) "" chunks.

(** [bytes.Index] *)
Fixpoint str_index (s sub : str) : option nat :=
  if has_prefix s sub then Some O else
  match s with
  | EmptyString => None
  | String _ s' => S <$> str_index s' sub
  end.

Definition tail (ring : str) : str :=
  let b := trim_space ring in
  Sanitize.String_ (if stderrTailBytes <? slen b then str_drop (Z.to_nat (slen b - stderrTailBytes)) b else b).

Definition excerptAt (ring marker : str) : str :=
  match str_index ring marker with
  | None => tail ring
  | Some i =>
      let b := trim_space (str_drop i ring) in
      Sanitize.String_ (if stderrTailBytes <? slen b then str_take (Z.to_nat stderrTailBytes) b else b)
  end.

(** ** The environment *)

(** What a dry run leaves: whether it exited cleanly, its output and errors. *)
Record dry_run := mkDryRun { dr_clean : bool; dr_stdout : list str; dr_stderr : list str }.

(** What a [select] on dumpcap's exit and something else receives. *)
Inductive await_event := Exited (clean : bool) | TimedOut | Ticked.
Inductive end_event := Ended (clean : bool) | Cancelled.

Inductive runnerE : Type → Type :=
  | InterfaceByName (name : str) : runnerE bool
  | DryRun (command : list str) : runnerE dry_run
  | WriteRecord (kind : RecordKind) (fields : Fields) : runnerE (result str unit)
  | RemoveOutput (path : str) : runnerE unit
  | StartDumpcap (command : list str) : runnerE bool
  | Now : runnerE time
  | Stat (path : str) : runnerE (option Z)
  | AwaitFile : runnerE await_event
  | AwaitEnd : runnerE end_event
  | Interrupt : runnerE unit
  | AwaitGrace : runnerE (option bool)
  | Kill : runnerE unit
  | AwaitExit : runnerE bool
  | Output : runnerE (list str)
  | OpenOutput (path : str) : runnerE bool
  | ReadOutput : runnerE (result str str)
  | Rewind : runnerE bool
  | PutStream (key : str) (size : Z) (opts : Storage.PutOptions) : runnerE (result Storage.store_error Storage.ObjectInfo)
  | PutManifest (key body : str) (opts : Storage.PutOptions) : runnerE (result Storage.store_error Storage.ObjectInfo).

(** [DumpcapCommand] is never empty: its head and the leading arguments. *)
Record Runner := mkRunner {
  r_Spec : CaptureJobSpec;
  r_CaptureJobUID : str;
  r_Namespace : str;
  r_Name : str;
  r_Interface : str;
  r_WorkDir : str;
  r_DumpcapCommand : str * list str;
  r_DumpcapVersion : str;
  r_RunnerVersion : str;
  r_DryRunTimeout : duration;
  r_StartTimeout : duration;
  r_StopGrace : duration;
  r_UploadBudget : duration;
}.

Record Result := mkResult {
  res_ExitCode : Z;
  res_Outcome : RunnerOutcome;
  res_Reason : FailureReason;
  res_StopReason : CaptureStopReason;
  res_PacketCount : Z;
  res_SizeBytes : Z;
  res_SHA256 : str;
  res_Message : str;
}.

Definition failure (reason : FailureReason) (stop : CaptureStopReason) (message : str) : Result :=
  mkResult (ExitCodeFor reason) RunnerOutcomeFailed reason stop 0 0 "" (Sanitize.String_ message).

(** The clock and the log are given by the environment. *)
Definition applyDefaults (r : Runner) : Runner :=
  let or_default (d dflt : duration) := if d =? 0 then dflt else d in
  mkRunner (r_Spec r) (r_CaptureJobUID r) (r_Namespace r) (r_Name r) (r_Interface r) (r_WorkDir r) (r_DumpcapCommand r)
    (r_DumpcapVersion r) (r_RunnerVersion r)
    (or_default (r_DryRunTimeout r) DefaultDryRunTimeout) (or_default (r_StartTimeout r) DefaultStartTimeout)
    (or_default (r_StopGrace r) DefaultStopGrace) (or_default (r_UploadBudget r) DefaultUploadBudget).

Definition outcome_string (o : RunnerOutcome) : str :=
  match o with RunnerOutcomeSucceeded => "Succeeded" | RunnerOutcomeFailed => "Failed" end.

Definition no_fields : Fields := mkFields "" None None "" None None "" "" "" None "".

Definition command (r : Runner) (args : list str) : list str :=
  (r_DumpcapCommand r).1 :: (r_DumpcapCommand r).2 ++ args.

Definition output (r : Runner) : str := Paths.Join [r_WorkDir r; WorkFileName].

(** ** The dry run *)

Definition dry_failure (d : dry_run) : Result :=
  let ring := ring_of stderrRingBytes (dr_stderr d) in
  if str_contains ring invalidFilterMarker
  then failure FailureInvalidFilter ""
         ("the filter did not compile against the interface" +:+ ": " +:+ excerptAt ring invalidFilterMarker)
  else failure FailureInterfaceUnavailable ""
         ("dumpcap could not open the interface" +:+ ": " +:+ excerptAt ring invalidFilterMarker).

Definition dry_accepted (d : dry_run) : bool :=
  dr_clean d && negb (bool_decide (ring_of bpfProgramRingBytes (dr_stdout d) = "")).

(** Nothing when the filter is accepted. *)
Definition dryRun (r : Runner) : prog runnerE (option Result) :=
  let! d := call (DryRun (command r (DryRunArgs (r_Interface r) (cjs_Filter (r_Spec r))))) in
  Ret (if dry_accepted d then None else Some (dry_failure d)).

(** ** Waiting *)

(** The polls a ticker fits before the timer of [timeout] fires; at the last
    one the timer is due, and it is what the [select] goes by. *)
Definition polls (timeout : duration) : nat := Z.to_nat (Z.quot timeout filePollInterval).

(** When the file was seen, and whether dumpcap has exited, and how. *)
Fixpoint await_loop (r : Runner) (ticks : nat) : prog runnerE (option time * option bool) :=
  let! file := call (Stat (output r)) in
  match file with
  | Some _ => let! now := call Now in Ret (Some now, None)
  | None =>
      let! ev := call AwaitFile in
      match ev with
      | Exited clean =>
          let! file := call (Stat (output r)) in
          match file with
          | Some _ => let! now := call Now in Ret (Some now, Some clean)
          | None => Ret (None, Some clean)
          end
      | TimedOut => Ret (None, None)
      | Ticked =>
          match ticks with
          | O => Ret (None, None)
          | S ticks => await_loop r ticks
          end
      end
  end.

Definition awaitFile (r : Runner) : prog runnerE (option time * option bool) := await_loop r (polls (r_StartTimeout r)).

(** The channel holds dumpcap's exit once. *)
Definition stop : prog runnerE bool :=
  let! _ := call Interrupt in
  let! ev := call AwaitGrace in
  match ev with
  | Some clean => Ret clean
  | None =>
      let! _ := call Kill in
      call AwaitExit
  end.

Definition inferStop (cancelled clean : bool) (size : Z) (elapsed : duration) (b : Bounds) : CaptureStopReason :=
  if cancelled then CaptureStopCancelled
  else if negb clean then CaptureStopError
  else if wrap64 (DumpcapFilesizeKB (b_MaxSizeBytes b) * 1000) <=? size then CaptureStopSize
  else if wrap64 (b_Duration b - second) <=? elapsed then CaptureStopDuration
  else CaptureStopError.

(** ** Storing *)

Definition uploadFailure (err : Storage.store_error) (stop : CaptureStopReason) (what : str) : Result :=
  match err with
  | Storage.ErrAlreadyExists =>
      failure FailureUploadFailed stop
        ("an object already exists for this capture; the new " +:+ what +:+ " was not written over it")
  | Storage.ErrNotFound =>
      failure FailureUploadFailed stop ("storing the " +:+ what +:+ " failed: " +:+ Sanitize.String_ "object not found")
  | Storage.ErrOther text =>
      failure FailureUploadFailed stop ("storing the " +:+ what +:+ " failed: " +:+ Sanitize.String_ text)
  end.

Definition manifest_of (r : Runner) (b : Bounds) (startedAt endedAt : time) (stop : CaptureStopReason)
    (packets size : Z) (sum : str) : Manifest.Manifest :=
  Manifest.mkManifest Manifest.ManifestSchemaVersion (r_CaptureJobUID r) (r_Namespace r) (r_Name r) (r_Interface r)
    (cjs_Filter (r_Spec r)) (b_Snaplen b) (cjs_Duration (r_Spec r)) (b_MaxSizeBytes b) startedAt endedAt stop packets
    size sum (r_DumpcapVersion r) (r_RunnerVersion r).

Definition artifact_options (r : Runner) (packets : Z) (sum : str) : Storage.PutOptions :=
  Storage.mkPutOptions true 0 ContentTypePcapng
    (Some (list_to_map [(Manifest.MetadataSHA256, sum); (Manifest.MetadataCaptureJobUID, r_CaptureJobUID r);
       (Manifest.MetadataPacketCount, itoa packets)])) (r_UploadBudget r).

Definition manifest_options (r : Runner) : Storage.PutOptions :=
  Storage.mkPutOptions true 0 ContentTypeManifest (Some {[ Manifest.MetadataCaptureJobUID := r_CaptureJobUID r ]}) 0.

Definition succeeded (stop : CaptureStopReason) (packets size : Z) (sum : str) : Result :=
  mkResult ExitOK RunnerOutcomeSucceeded FailureUnset stop packets size sum "".

Definition artifact_key (r : Runner) : str := Manifest.ObjectKey (r_Namespace r) (r_CaptureJobUID r).
Definition manifest_key (r : Runner) : str := Manifest.ManifestKey (r_Namespace r) (r_CaptureJobUID r).

Section runner.
Context (encode : Manifest.Manifest → option str).

(** The walk's answer over what was read, or the read's error. *)
Definition walk (content : result str str) : result str (Z * Z * str) :=
  match content with Ok bytes => Pcapng.CountAndHash bytes | Err text => Err text end.

Definition store (r : Runner) (b : Bounds) (startedAt endedAt : time) (stop : CaptureStopReason) : prog runnerE Result :=
  let! opened := call (OpenOutput (output r)) in
  if negb opened then Ret (failure FailureCaptureFailed stop "the capture file could not be read") else
  let! content := call ReadOutput in
  match walk content with
  | Err text =>
      let! _ := call (RemoveOutput (output r)) in
      Ret (failure FailureCaptureFailed stop ("the capture file is not well-formed pcapng: " +:+ text))
  | Ok (packets, size, sum) =>
      let! rewound := call Rewind in
      if negb rewound then Ret (failure FailureInternalError stop "the capture file could not be rewound") else
      match encode (manifest_of r b startedAt endedAt stop packets size sum) with
      | None => Ret (failure FailureInternalError stop "the manifest could not be encoded")
      | Some raw =>
          let! res := call (PutStream (artifact_key r) size (artifact_options r packets sum)) in
          match res with
          | Err e => Ret (uploadFailure e stop "artifact")
          | Ok _ =>
              let! res := call (PutManifest (manifest_key r) raw (manifest_options r)) in
              match res with
              | Err e => Ret (uploadFailure e stop "manifest")
              | Ok _ =>
                  let! _ := call (RemoveOutput (output r)) in
                  Ret (succeeded stop packets size sum)
              end
          end
      end
  end.

(** ** The capture *)

Definition cannot_record (stop : CaptureStopReason) : Result :=
  failure FailureInternalError stop "cannot write progress records".

Definition started_fields (startedAt : time) : Fields :=
  mkFields "" (Some startedAt) None "" None None "" "" "" None "".
Definition ended_fields (endedAt : time) (stop : CaptureStopReason) (size : Z) : Fields :=
  mkFields "" None (Some endedAt) stop None (Some size) "" "" "" None "".

(** From a file dumpcap has finished with. *)
Definition finish (r : Runner) (b : Bounds) (startedAt endedAt : time) (stop : CaptureStopReason) (size : Z) :
    prog runnerE Result :=
  let! res := call (WriteRecord RecordEnded (ended_fields endedAt stop size)) in
  match res with
  | Err _ => Ret (cannot_record stop)
  | Ok _ =>
      if bool_decide (stop = CaptureStopCancelled) then
        let! _ := call (RemoveOutput (output r)) in
        Ret (failure FailureCaptureFailed stop "the capture was cancelled before it completed")
      else if bool_decide (stop = CaptureStopError) then
        let! chunks := call Output in
        let! _ := call (RemoveOutput (output r)) in
        Ret (failure FailureCaptureFailed stop ("dumpcap ended abnormally: " +:+ tail (ring_of stderrRingBytes chunks)))
      else if Overshoot size (b_MaxSizeBytes b) then
        let! _ := call (RemoveOutput (output r)) in
        Ret (failure FailureSizeExceeded stop
          ("the capture file is " +:+ itoa size +:+ " bytes, more than " +:+ itoa MaxOvershootBytes +:+ " over the " +:+
           itoa (b_MaxSizeBytes b) +:+ " byte bound; it was discarded"))
      else store r b startedAt endedAt stop
  end.

(** Whether the context was cancelled, and how dumpcap exited. *)
Definition await_end (exited : option bool) : prog runnerE (bool * bool) :=
  match exited with
  | Some clean => Ret (false, clean)
  | None =>
      let! ev := call AwaitEnd in
      match ev with
      | Ended clean => Ret (false, clean)
      | Cancelled => let! clean := stop in Ret (true, clean)
      end
  end.

Definition capture (r : Runner) (b : Bounds) : prog runnerE Result :=
  let! _ := call (RemoveOutput (output r)) in
  let! started := call (StartDumpcap (command r (DumpcapArgs (r_Interface r) (cjs_Filter (r_Spec r)) b (output r)))) in
  if negb started then Ret (failure FailureInternalError "" "dumpcap could not be started") else
  let! launched := call Now in
  let! (startedAt, exited) := awaitFile r in
  match startedAt with
  | None =>
      let! _ := (if exited is None then stop else Ret true) in
      let! chunks := call Output in
      Ret (failure FailureCaptureFailed CaptureStopError
        ("dumpcap exited before creating the capture file: " +:+ tail (ring_of stderrRingBytes chunks)))
  | Some startedAt =>
      let! res := call (WriteRecord RecordStarted (started_fields startedAt)) in
      match res with
      | Err _ => let! _ := stop in Ret (cannot_record CaptureStopError)
      | Ok _ =>
          let! (cancelled, clean) := await_end exited in
          let! endedAt := call Now in
          let! file := call (Stat (output r)) in
          match file with
          | None => Ret (failure FailureCaptureFailed CaptureStopError "the capture file disappeared")
          | Some size =>
              finish r b startedAt endedAt (inferStop cancelled clean size (t_sub endedAt launched) b) size
          end
      end
  end.

Definition filter_fields (r : Runner) : Fields := mkFields (r_Interface r) None None "" None None "" "" "" None "".

Definition run (r : Runner) : prog runnerE Result :=
  match ParseBounds (r_Spec r) with
  | Err text => Ret (failure FailureInvalidBounds "" text)
  | Ok b =>
      match ValidateFilterSyntax (cjs_Filter (r_Spec r)) with
      | Err text => Ret (failure FailureInvalidFilter "" text)
      | Ok _ =>
          let! present := call (InterfaceByName (r_Interface r)) in
          if negb present then Ret (failure FailureInterfaceUnavailable "" "interface not present on this node") else
          let! refused := dryRun r in
          match refused with
          | Some res => Ret res
          | None =>
              let! res := call (WriteRecord RecordFilter (filter_fields r)) in
              match res with
              | Err _ => Ret (cannot_record "")
              | Ok _ => capture r b
              end
          end
      end
  end.

(** The packet count rides on the result of a success. *)
Definition result_fields (res : Result) : Fields :=
  mkFields "" None None ""
    (match res_Outcome res with RunnerOutcomeSucceeded => Some (res_PacketCount res) | RunnerOutcomeFailed => None end)
    None (outcome_string (res_Outcome res)) (reason_string (res_Reason res)) (res_SHA256 res) (Some (res_ExitCode res))
    (res_Message res).

Definition Run (r : Runner) : prog runnerE Result :=
  let! res := run (applyDefaults r) in
  let! _ := call (WriteRecord RecordResult (result_fields res)) in
  Ret res.

End runner.
End Runner.
