(* ===== verification/RunnerHost.v ===== *)
(** * The host a capture runs on

    What the runner's calls may answer: dumpcap runs, exits by itself at any
    moment, and its exit is received once; the file is dumpcap's while it runs
    and nobody's afterwards; a record, an upload, a removal may fail, and a
    failed upload may have taken effect.  [may] is what the runner may do: the
    order of records, when dumpcap is started and its file removed, and what
    evidence an upload needs. *)

From Stdlib Require Import Sorted.
From S2P Require Import Prelude GoTime GoString Sha256 Utf8 Sanitize Api Bounds Pcapng Manifest CaptureState Protocol.
From S2P Require Import Prog Storage Runner.

Module RunnerHost.
Import Bounds CaptureState Manifest Protocol Runner.

(** dumpcap: not started; running; exited with its exit in the channel; exited
    and its exit received. *)
Inductive process := Idle | Running | Waiting (clean : bool) | Reaped (clean : bool).

Record host := mkHost {
  ho_proc : process;
  ho_file : option str;
  ho_bucket : gmap string (str * Storage.PutOptions);
  (** whether the dry run accepted the filter *)
  ho_accepted : bool;
  (** whether dumpcap's exit came before its file was seen by a poll *)
  ho_early : bool;
  (** kinds of records tried, the latest first *)
  ho_attempted : list str;
  ho_recorded : list (str * Fields);
  ho_refused : list str;
}.

Definition with_proc (s : host) (p : process) (file : option str) : host :=
  mkHost p file (ho_bucket s) (ho_accepted s) (ho_early s) (ho_attempted s) (ho_recorded s) (ho_refused s).
Definition with_bucket (s : host) (b : gmap string (str * Storage.PutOptions)) : host :=
  mkHost (ho_proc s) (ho_file s) b (ho_accepted s) (ho_early s) (ho_attempted s) (ho_recorded s) (ho_refused s).
Definition with_accepted (s : host) (accepted : bool) : host :=
  mkHost (ho_proc s) (ho_file s) (ho_bucket s) accepted (ho_early s) (ho_attempted s) (ho_recorded s) (ho_refused s).
Definition with_early (s : host) : host :=
  mkHost (ho_proc s) (ho_file s) (ho_bucket s) (ho_accepted s) true (ho_attempted s) (ho_recorded s) (ho_refused s).
Definition tried (s : host) (kind : str) (fields : Fields) (ok : bool) : host :=
  mkHost (ho_proc s) (ho_file s) (ho_bucket s) (ho_accepted s) (ho_early s) (kind :: ho_attempted s)
    (if ok then (kind, fields) :: ho_recorded s else ho_recorded s) (if ok then ho_refused s else kind :: ho_refused s).

(** What dumpcap may have done since the last call. *)
Definition evolves (s s' : host) : Prop :=
  s' = s ∨ ho_proc s = Running ∧ ∃ p file, (p = Running ∨ ∃ clean, p = Waiting clean) ∧ s' = with_proc s p file.

(** The exit is received. *)
Definition receives (s : host) (clean : bool) (s' : host) : Prop :=
  ho_proc s = Waiting clean ∧ s' = with_proc s (Reaped clean) (ho_file s).

(** A conditional write under a key. *)
Definition put_effect (s : host) (key body : str) (opts : Storage.PutOptions)
    (x : result Storage.store_error Storage.ObjectInfo) (s' : host) : Prop :=
  let written := with_bucket s (<[key := (body, opts)]> (ho_bucket s)) in
  match x with
  | Ok _ => ho_bucket s !! key = None ∧ s' = written
  | Err Storage.ErrAlreadyExists => ho_bucket s !! key ≠ None ∧ s' = s
  | Err _ => s' = s ∨ ho_bucket s !! key = None ∧ s' = written
  end.

Definition effect (X : Type) (e : runnerE X) (s : host) : X → host → Prop :=
  match e with
  | InterfaceByName _ => λ _ s', s' = s
  | DryRun _ => λ d s', s' = with_accepted s (dry_accepted d)
  | WriteRecord kind fields => λ x s', s' = tried s kind fields (is_ok x)
  | RemoveOutput _ => λ _ s', s' = s ∨ s' = with_proc s (ho_proc s) None
  | StartDumpcap _ => λ started s', s' = if started then with_proc s Running (ho_file s) else s
  | Now => λ _ s', s' = s
  | Stat _ => λ x s', s' = s ∧ x = slen <$> ho_file s
  | AwaitFile => λ ev s',
      match ev with
      | Exited clean => ∃ s1, receives s clean s1 ∧ s' = with_early s1
      | TimedOut | Ticked => s' = s
      end
  | AwaitEnd => λ ev s', match ev with Ended clean => receives s clean s' | Cancelled => s' = s end
  | Interrupt | Kill => λ _ s', s' = s
  | AwaitGrace => λ ev s', match ev with Some clean => receives s clean s' | None => s' = s end
  | AwaitExit => λ clean s', receives s clean s'
  | Output | OpenOutput _ | Rewind => λ _ s', s' = s
  | ReadOutput => λ x s', s' = s ∧ match x with Ok bytes => ho_file s = Some bytes | Err _ => True end
  | PutStream key _ opts => λ x s', ∃ body, ho_file s = Some body ∧ put_effect s key body opts x s'
  | PutManifest key body opts => λ x s', put_effect s key body opts x s'
  end.

Definition step (X : Type) (e : runnerE X) (s : host) (x : X) (s' : host) : Prop :=
  ∃ s1, evolves s s1 ∧ effect X e s1 x s'.

(** ** What the runner may do *)

Ltac in_kinds := by apply (bool_decide_unpack _).

Section contract.
Context (encode : Manifest.Manifest → option str) (r : Runner).

Definition settled (s : host) : Prop := ho_proc s = Idle ∨ ∃ clean, ho_proc s = Reaped clean.

(** The protocol's order, and what a record says. *)
Definition may_record (s : host) (kind : str) (fields : Fields) : Prop :=
  kind ∈ all_kinds ∧ (∀ k, k ∈ ho_attempted s → SeqFor k < SeqFor kind) ∧
  (kind = RecordFilter → ho_accepted s = true ∧ fields = filter_fields r) ∧
  (kind = RecordStarted → (∃ f, (RecordFilter, f) ∈ ho_recorded s) ∧ ho_proc s ≠ Idle) ∧
  (kind = RecordEnded → (∃ f, (RecordStarted, f) ∈ ho_recorded s) ∧ settled s ∧ f_SizeBytes fields = slen <$> ho_file s).

Definition may_start (s : host) (cmd : list str) : Prop :=
  ho_proc s = Idle ∧ (∃ f, (RecordFilter, f) ∈ ho_recorded s) ∧
  ∃ b, ParseBounds (r_Spec r) = Ok b ∧ cmd = command r (DumpcapArgs (r_Interface r) (cjs_Filter (r_Spec r)) b (output r)).

(** A complete capture: dumpcap ended cleanly at one of its bounds, that is on
    record, and the file it left is the size that was recorded, within bounds,
    and well-formed. *)
Definition evidence (s : host) (b : Bounds) (bytes : str) (stop : CaptureStopReason) (startedAt endedAt : time)
    (packets : Z) (sum : str) : Prop :=
  ParseBounds (r_Spec r) = Ok b ∧ ho_proc s = Reaped true ∧ ho_file s = Some bytes ∧
  (stop = CaptureStopSize ∨ stop = CaptureStopDuration) ∧
  (RecordEnded, ended_fields endedAt stop (slen bytes)) ∈ ho_recorded s ∧
  (RecordStarted, started_fields startedAt) ∈ ho_recorded s ∧
  Overshoot (slen bytes) (b_MaxSizeBytes b) = false ∧ Pcapng.CountAndHash bytes = Ok (packets, slen bytes, sum).

Definition may_upload (s : host) (key : str) (size : Z) (opts : Storage.PutOptions) : Prop :=
  ∃ b bytes stop startedAt endedAt packets sum, evidence s b bytes stop startedAt endedAt packets sum ∧
    key = artifact_key r ∧ size = slen bytes ∧ opts = artifact_options r packets sum.

Definition may_describe (s : host) (key body : str) (opts : Storage.PutOptions) : Prop :=
  ∃ b bytes stop startedAt endedAt packets sum, evidence s b bytes stop startedAt endedAt packets sum ∧
    ho_bucket s !! artifact_key r = Some (bytes, artifact_options r packets sum) ∧
    key = manifest_key r ∧ opts = manifest_options r ∧
    encode (manifest_of r b startedAt endedAt stop packets (slen bytes) sum) = Some body.

Definition may (X : Type) (e : runnerE X) (s : host) : Prop :=
  match e with
  | DryRun cmd =>
      cmd = command r (DryRunArgs (r_Interface r) (cjs_Filter (r_Spec r))) ∧ is_ok (ParseBounds (r_Spec r)) = true ∧
      ValidateFilterSyntax (cjs_Filter (r_Spec r)) = Ok tt ∧ ho_proc s = Idle
  | WriteRecord kind fields => may_record s kind fields
  | RemoveOutput path => path = output r ∧ settled s
  | StartDumpcap cmd => may_start s cmd
  | PutStream key size opts => may_upload s key size opts
  | PutManifest key body opts => may_describe s key body opts
  | _ => True
  end.

(** Both objects of a capture, as one description of one file. *)
Definition stored (s : host) (stop : CaptureStopReason) (packets size : Z) (sum : str) : Prop :=
  ∃ b bytes startedAt endedAt raw, size = slen bytes ∧ Pcapng.CountAndHash bytes = Ok (packets, slen bytes, sum) ∧
    ho_bucket s !! artifact_key r = Some (bytes, artifact_options r packets sum) ∧
    ho_bucket s !! manifest_key r = Some (raw, manifest_options r) ∧
    encode (manifest_of r b startedAt endedAt stop packets (slen bytes) sum) = Some raw ∧
    ParseBounds (r_Spec r) = Ok b ∧ Overshoot (slen bytes) (b_MaxSizeBytes b) = false ∧
    (RecordEnded, ended_fields endedAt stop (slen bytes)) ∈ ho_recorded s ∧
    (RecordStarted, started_fields startedAt) ∈ ho_recorded s.

(** What a result claims. *)
Definition truthful (res : Result) (s : host) : Prop :=
  match res_Outcome res with
  | RunnerOutcomeSucceeded => res_ExitCode res = ExitOK ∧ res_Reason res = FailureUnset ∧ res_Message res = "" ∧
      stored s (res_StopReason res) (res_PacketCount res) (res_SizeBytes res) (res_SHA256 res)
  | RunnerOutcomeFailed => res_Reason res ≠ FailureUnset ∧ res_ExitCode res = ExitCodeFor (res_Reason res) ∧
      Sanitize.boundary_safe (res_Message res)
  end.

Lemma truthful_tried res s kind fields ok : truthful res s → truthful res (tried s kind fields ok).
Proof.
  unfold truthful. destruct (res_Outcome res); [|done]. intros (H1 & H2 & H3 & b & bytes & sa & ea & raw & Hst).
  do 3 (split; [done|]). exists b, bytes, sa, ea, raw. cbn. destruct ok; [|done].
  destruct_and! Hst. split_and!; try done; by right.
Qed.

(** ** Steps *)

Abbreviation does := (meets step may) (only parsing).

Lemma settled_effect X (e : runnerE X) s x s' : settled s → step X e s x s' → effect X e s x s'.
Proof. intros Hs (s1 & [->|(Hr & _)] & He); [done|]. destruct Hs as [Hi|[c Hc]]; congruence. Qed.

(** The call is made where nothing moves by itself. *)
Lemma settled_call {X A} (e : runnerE X) (k : X → prog runnerE A) Q s :
  settled s → may X e s → (∀ x s', effect X e s x s' → does (k x) Q s') → does (prog_bind (call e) k) Q s.
Proof. intros Hs Hm Hk. apply meets_call; [done|]. intros x s' Hst. by apply Hk, settled_effect. Qed.

(** All but dumpcap and its file. *)
Definition books (s s' : host) : Prop :=
  ho_bucket s' = ho_bucket s ∧ ho_accepted s' = ho_accepted s ∧ ho_attempted s' = ho_attempted s ∧
  ho_recorded s' = ho_recorded s ∧ ho_refused s' = ho_refused s.

#[local] Instance books_preorder : PreOrder books.
Proof. split; [by intros s|]. unfold books. intros a b c. naive_solver congruence. Qed.

Definition unreaped (s : host) : Prop := ho_proc s = Running ∨ ∃ clean, ho_proc s = Waiting clean.

Lemma evolves_unreaped s s' : evolves s s' → unreaped s → unreaped s' ∧ books s s' ∧ ho_early s' = ho_early s.
Proof. intros [->|(_ & p & file & Hp & ->)] Hu; [by split_and!|]. split; [|by split_and!]. destruct Hp as [->|[c ->]]; [by left|right; by exists c]. Qed.

Lemma receives_spec s clean s' : receives s clean s' → ho_proc s' = Reaped clean ∧ books s s' ∧ ho_early s' = ho_early s.
Proof. by intros [_ ->]. Qed.

(** A call of the running phase, over the state it is made in. *)
Lemma running_call {X A} (e : runnerE X) (k : X → prog runnerE A) Q s :
  unreaped s → may X e s →
  (∀ s1, unreaped s1 → books s s1 → ho_early s1 = ho_early s → ∀ x s', effect X e s1 x s' → does (k x) Q s') →
  does (prog_bind (call e) k) Q s.
Proof.
  intros Hu Hm Hk. apply meets_call; [done|]. intros x s' (s1 & Hev & He).
  apply evolves_unreaped in Hev as (Hu1 & Hb & He1); [|done]. by eapply Hk.
Qed.

(** ** Waiting *)

(** Once received, an exit is not received again: [stop] is left only where
    dumpcap's exit is still to come. *)
Lemma stop_does s :
  (unreaped s → does stop (λ clean s', ho_proc s' = Reaped clean ∧ books s s' ∧ ho_early s' = ho_early s) s) ∧
  (∀ c, ho_proc s = Reaped c → does stop (λ _ _, False) s).
Proof.
  split.
  - intros Hu. apply running_call; [done|done|]. intros s1 Hu1 Hb1 He1 x s' ->.
    apply running_call; [done|done|]. intros s2 Hu2 Hb2 He2 [clean|] s' Hx.
    + apply receives_spec in Hx as (Hp & Hb & He). split; [done|]. split; [by repeat (etrans; [eassumption|])|congruence].
    + cbn in Hx. subst s'. apply running_call; [done|done|]. intros s3 Hu3 Hb3 He3 [] s' ->.
      apply running_call; [done|done|]. intros s4 Hu4 Hb4 He4 clean s' (Hp & Hb & He)%receives_spec.
      split; [done|]. split; [by repeat (etrans; [eassumption|])|congruence].
  - intros c Hc. assert (settled s) as Hs by (right; by exists c).
    apply settled_call; [done|done|]. intros x s' ->. apply settled_call; [done|done|].
    intros [clean|] s'; [intros [Hw _]; congruence|]. intros ->. apply settled_call; [done|done|]. intros [] s' ->.
    apply settled_call; [done|done|]. intros clean s' [Hw _]. congruence.
Qed.

(** What waiting for the file leaves. *)
Definition awaited (s : host) (a : option time * option bool) (s' : host) : Prop :=
  books s s' ∧
  match a.2 with
  | Some clean => ho_proc s' = Reaped clean ∧ ho_early s' = true
  | None => unreaped s' ∧ ho_early s' = ho_early s
  end.

Lemma await_loop_does n s : unreaped s → does (await_loop r n) (awaited s) s.
Proof.
  revert s. induction n as [|n IH]; intros s Hu; cbn [await_loop].
  all: apply running_call; [done|done|]; intros s1 Hu1 Hb1 He1 file s' [-> _].
  all: destruct file as [size|].
  1, 3: apply running_call; [done|done|]; intros s2 Hu2 Hb2 He2 now s' ->;
        split; [by etrans|split; [done|cbn; congruence]].
  all: apply running_call; [done|done|]; intros s2 Hu2 Hb2 He2 ev s' Hev; destruct ev as [clean| |]; cbn in Hev.
  1, 4: destruct Hev as (s3 & (Hp & Hb3 & He3)%receives_spec & ->);
        assert (settled (with_early s3)) as Hset by (right; by exists clean);
        apply settled_call; [done|done|]; intros file s' [-> _]; destruct file as [size|];
        [apply settled_call; [done|done|]; intros now s' ->|];
        (split; [|done]; by repeat (etrans; [eassumption|])).
  all: subst s'.
  1, 2, 3: split; [by etrans|split; [done|cbn; congruence]].
  eapply meets_mono; [|by apply IH]. intros a s3 [Hb3 Ha]. split; [by repeat (etrans; [eassumption|])|].
  destruct a.2; [done|]. destruct Ha. split; [done|congruence].
Qed.

(** ** After dumpcap *)

Lemma failure_truthful reason stop message s : reason ≠ FailureUnset → truthful (failure reason stop message) s.
Proof. intros Hr. split; [done|]. split; [done|]. apply Sanitize.String_safe. Qed.

Lemma upload_truthful err stop what s : truthful (uploadFailure err stop what) s.
Proof. destruct err; by apply failure_truthful. Qed.

(** Where the work is done and the result may be recorded. *)
Definition over (s : host) : Prop :=
  settled s ∧ (∀ k, k ∈ ho_attempted s → SeqFor k < SeqFor RecordResult) ∧
  (ho_early s = true → RecordStarted ∉ ho_refused s).

Definition finished (res : Result) (s : host) : Prop := over s ∧ truthful res s.

Lemma finished_failure reason stop message s : reason ≠ FailureUnset → over s → finished (failure reason stop message) s.
Proof. intros Hr Ho. split; [done|by apply failure_truthful]. Qed.

Lemma over_file s file : over s → over (with_proc s (ho_proc s) file).
Proof. done. Qed.

(** The file is removed, or is not; and the work is over. *)
Lemma remove_does res s :
  over s → (∀ file, truthful res (with_proc s (ho_proc s) file)) → truthful res s →
  does (let! _ := call (RemoveOutput (output r)) in Ret res) finished s.
Proof.
  intros Ho Hf Ht. apply settled_call; [by destruct Ho|by destruct Ho|].
  intros [] s' [->| ->]; (split; [done|]); [done|apply Hf].
Qed.

Lemma keys_differ : artifact_key r ≠ manifest_key r.
Proof.
  unfold artifact_key, manifest_key, Manifest.ObjectKey, Manifest.ManifestKey. intros H.
  repeat apply str_app_inj_r in H. by apply str_app_inj_l in H || discriminate H.
Qed.

Lemma put_over s key body opts x s' : put_effect s key body opts x s' → over s → over s'.
Proof. unfold put_effect. intros Hp Ho. destruct x as [i|[| |t]]; naive_solver. Qed.

Lemma manifest_does b bytes stop startedAt endedAt packets sum raw s :
  over s → evidence s b bytes stop startedAt endedAt packets sum →
  ho_bucket s !! artifact_key r = Some (bytes, artifact_options r packets sum) →
  encode (manifest_of r b startedAt endedAt stop packets (slen bytes) sum) = Some raw →
  does (let! res := call (PutManifest (manifest_key r) raw (manifest_options r)) in
        match res with
        | Err e => Ret (uploadFailure e stop "manifest")
        | Ok _ => let! _ := call (RemoveOutput (output r)) in Ret (succeeded stop packets (slen bytes) sum)
        end) finished s.
Proof.
  intros Ho He Hb Hraw. apply settled_call; [by destruct Ho| |].
  { exists b, bytes, stop, startedAt, endedAt, packets, sum. by split_and!. }
  intros [info|e] s' Hp; (assert (over s') as Ho' by exact (put_over _ _ _ _ _ _ Hp Ho)).
  - destruct Hp as [_ ->]. destruct He as (Hpb & _ & _ & _ & Hend & Hsta & Hov & Hwalk).
    assert (∀ s'', ho_bucket s'' = <[manifest_key r := (raw, manifest_options r)]> (ho_bucket s) →
      ho_recorded s'' = ho_recorded s → truthful (succeeded stop packets (slen bytes) sum) s'') as Ht.
    { intros s'' Hs'' Hr''. do 3 (split; [done|]). exists b, bytes, startedAt, endedAt, raw. rewrite Hs'', Hr''.
      rewrite lookup_insert_ne by (intros E; by apply keys_differ). by rewrite lookup_insert_eq. }
    apply remove_does; [done|intros file; by apply Ht|by apply Ht].
  - split; [done|apply upload_truthful].
Qed.

Lemma store_does b bytes stop startedAt endedAt s :
  over s → ParseBounds (r_Spec r) = Ok b → ho_proc s = Reaped true → ho_file s = Some bytes →
  (stop = CaptureStopSize ∨ stop = CaptureStopDuration) →
  (RecordEnded, ended_fields endedAt stop (slen bytes)) ∈ ho_recorded s →
  (RecordStarted, started_fields startedAt) ∈ ho_recorded s → Overshoot (slen bytes) (b_MaxSizeBytes b) = false →
  does (store encode r b startedAt endedAt stop) finished s.
Proof.
  intros Ho Hb Hp Hf Hst Hen Hsta Hov. pose proof Ho as [Hset _].
  apply settled_call; [done|done|]. intros opened s' ->. destruct opened; [|by apply finished_failure].
  apply settled_call; [done|done|]. intros content s' [-> Hc].
  destruct (walk content) as [[[packets size] sum]|text] eqn:Ew.
  2:{ apply remove_does; [done|intros file|]; by apply failure_truthful. }
  destruct content as [bytes'|]; [|done]. rewrite Hf in Hc. injection Hc as <-. cbn [walk] in Ew.
  assert (size = slen bytes) as -> by by apply Pcapng.CountAndHash_Ok in Ew as [-> _].
  apply settled_call; [done|done|]. intros rewound s' ->. destruct rewound; [|by apply finished_failure].
  cbn [negb]. destruct (encode _) as [raw|] eqn:Er; [|by apply finished_failure].
  assert (evidence s b bytes stop startedAt endedAt packets sum) as Hev by by split_and!.
  apply settled_call; [done| |].
  { exists b, bytes, stop, startedAt, endedAt, packets, sum. by split_and!. }
  intros [info|e] s' (body & Hbody & Hput); (assert (over s') as Ho' by exact (put_over _ _ _ _ _ _ Hput Ho)).
  - assert (body = bytes) as -> by congruence. destruct Hput as [_ ->].
    eapply manifest_does; [done|exact Hev|apply lookup_insert_eq|done].
  - split; [done|apply upload_truthful].
Qed.

(** The records so far allow the next one. *)
Definition recorded_upto (s : host) (kind : str) : Prop := ∀ k, k ∈ ho_attempted s → SeqFor k < SeqFor kind.

Lemma recorded_next s kind kind' fields ok :
  recorded_upto s kind → SeqFor kind < SeqFor kind' → recorded_upto (tried s kind fields ok) kind'.
Proof. intros Hr Hk k [->|Hin]%elem_of_cons; [done|]. specialize (Hr k Hin). lia. Qed.

Lemma finish_does b bytes stop startedAt endedAt clean s :
  settled s → recorded_upto s RecordEnded → (ho_early s = true → RecordStarted ∉ ho_refused s) →
  ParseBounds (r_Spec r) = Ok b → ho_proc s = Reaped clean → ho_file s = Some bytes →
  (stop = CaptureStopSize ∨ stop = CaptureStopDuration → clean = true) →
  stop ∈ [CaptureStopSize; CaptureStopDuration; CaptureStopCancelled; CaptureStopError] →
  (RecordStarted, started_fields startedAt) ∈ ho_recorded s →
  does (finish encode r b startedAt endedAt stop (slen bytes)) finished s.
Proof.
  intros Hset Hup He Hb Hp Hf Hc Hst Hrec. apply settled_call; [done| |].
  { split; [in_kinds|]. split; [done|]. split; [done|]. split; [done|]. intros _. split; [by eexists|]. split; [done|].
    by rewrite Hf. }
  intros [u|text] s' ->.
  2:{ apply finished_failure; [done|]. split; [done|]. split; [by apply recorded_next with (kind := RecordEnded)|].
      cbn [ho_early tried ho_refused is_ok]. intros Hearly [Heq|Hin]%elem_of_cons; [done|by apply He]. }
  assert (over (tried s RecordEnded (ended_fields endedAt stop (slen bytes)) true)) as Ho.
  { split; [done|]. split; [by apply recorded_next with (kind := RecordEnded)|done]. }
  case_bool_decide as Ecancel; [|case_bool_decide as Eerr; [|destruct (Overshoot _ _) eqn:Eov]].
  - apply remove_does; [done|intros file|]; by apply failure_truthful.
  - apply settled_call; [done|done|]. intros chunks s' ->. apply remove_does; [done|intros file|]; by apply failure_truthful.
  - apply remove_does; [done|intros file|]; by apply failure_truthful.
  - assert (stop = CaptureStopSize ∨ stop = CaptureStopDuration) as Hok.
    { rewrite !elem_of_cons, elem_of_nil in Hst. naive_solver. }
    eapply store_does; try done; [by rewrite <-(Hc Hok)|left|by right].
Qed.

Lemma inferStop_range cancelled clean size elapsed b :
  inferStop cancelled clean size elapsed b ∈ [CaptureStopSize; CaptureStopDuration; CaptureStopCancelled; CaptureStopError] ∧
  (inferStop cancelled clean size elapsed b = CaptureStopSize ∨ inferStop cancelled clean size elapsed b = CaptureStopDuration →
   clean = true ∧ cancelled = false).
Proof.
  unfold inferStop. destruct cancelled, clean; cbn [negb]; repeat case_match; (split; [set_solver|naive_solver]).
Qed.

Lemma await_end_does exited s :
  match exited with Some clean => ho_proc s = Reaped clean | None => unreaped s end →
  does (await_end exited) (λ a s', ho_proc s' = Reaped a.2 ∧ books s s' ∧ ho_early s' = ho_early s) s.
Proof.
  destruct exited as [clean|]; intros Hp; [by split|]. apply running_call; [done|done|].
  intros s1 Hu1 Hb1 He1 [clean|] s' Hx; cbn in Hx.
  - apply receives_spec in Hx as (Hp' & Hb & He). split; [done|]. split; [by etrans|congruence].
  - subst s'. apply meets_bind. eapply meets_mono; [|by apply stop_does]. intros c s2 (Hp2 & Hb2 & He2).
    split; [done|]. split; [by etrans|congruence].
Qed.

(** Where a capture may begin. *)
Definition ready_to_start (b : Bounds) (s : host) : Prop :=
  ho_proc s = Idle ∧ ho_early s = false ∧ ParseBounds (r_Spec r) = Ok b ∧
  (∃ f, (RecordFilter, f) ∈ ho_recorded s) ∧ recorded_upto s RecordStarted ∧ ho_refused s = [].

Lemma over_intro s s' : books s s' → settled s' → recorded_upto s RecordResult → (ho_early s' = true → RecordStarted ∉ ho_refused s) → over s'.
Proof. intros (_ & _ & Ea & _ & Er) Hs Hu He. split; [done|]. rewrite Ea, Er. by split. Qed.

Lemma upto_weaken s kind kind' : SeqFor kind ≤ SeqFor kind' → recorded_upto s kind → recorded_upto s kind'.
Proof. intros Hle Hu k Hk. specialize (Hu k Hk). lia. Qed.

(** Once the started record is taken. *)
Lemma started_does b launched startedAt exited s :
  match exited with Some clean => ho_proc s = Reaped clean | None => unreaped s end →
  (RecordStarted, started_fields startedAt) ∈ ho_recorded s → recorded_upto s RecordEnded → ho_refused s = [] →
  ParseBounds (r_Spec r) = Ok b →
  does (let! (cancelled, clean) := await_end exited in
        let! endedAt := call Now in
        let! file := call (Stat (output r)) in
        match file with
        | None => Ret (failure FailureCaptureFailed CaptureStopError "the capture file disappeared")
        | Some size => finish encode r b startedAt endedAt (inferStop cancelled clean size (t_sub endedAt launched) b) size
        end) finished s.
Proof.
  intros Hp Hrec Hup Href Hb. apply meets_bind. eapply meets_mono; [|by apply await_end_does].
  intros [cancelled clean] s1 (Hp1 & Hbk & He1). cbn [snd] in Hp1.
  assert (settled s1) as Hset by (right; by exists clean). pose proof Hbk as (_ & _ & Ea & Er & Ef).
  apply settled_call; [done|done|]. intros endedAt s' ->. apply settled_call; [done|done|].
  intros file s' [-> ->]. destruct (ho_file s1) as [bytes|] eqn:Efile; cbn [fmap option_fmap option_map].
  - destruct (inferStop_range cancelled clean (slen bytes) (t_sub endedAt launched) b) as [Hin Hc].
    eapply finish_does; try done; [unfold recorded_upto; by rewrite Ea|rewrite Ef, Href; by intros _ ?%elem_of_nil|
      by intros [? _]%Hc|by rewrite Er].
  - apply finished_failure; [done|]. eapply over_intro; [done|done|by apply (upto_weaken s RecordEnded)|rewrite Href; by intros _ ?%elem_of_nil].
Qed.

Lemma capture_does b s : ready_to_start b s → does (capture encode r b) finished s.
Proof.
  intros (Hidle & He0 & Hb & Hfilter & Hup & Href). assert (settled s) as Hset by by left.
  unfold capture. apply settled_call; [done|done|]. intros [] s0 Hrm.
  assert (ho_proc s0 = Idle ∧ books s s0 ∧ ho_early s0 = false) as (Hp0 & Hb0 & Hearly0).
  { by destruct Hrm as [->| ->]; split_and!. }
  pose proof Hb0 as (_ & _ & Ea & Er & Ef). clear Hrm.
  apply settled_call; [by left| |].
  { split; [done|]. split; [by rewrite Er|]. by exists b. }
  intros started s1 ->. destruct started; cbn [negb].
  2:{ apply finished_failure; [done|]. split; [by left|]. split; [|by rewrite Hearly0].
      rewrite Ea. by apply (upto_weaken s RecordStarted). }
  set (s1 := with_proc s0 Running (ho_file s0)).
  assert (books s s1) as Hb1 by by etrans. clear Hset.
  apply running_call; [by left|done|]. intros s2 Hu2 Hb2 He2 launched s' ->.
  apply meets_bind. eapply meets_mono; [|by apply await_loop_does]. intros [startedAt exited] s3 [Hb3 Hx]. cbn [snd] in Hx.
  assert (books s s3) as Hb03 by (etrans; [exact Hb1|]; by etrans).
  pose proof Hb03 as (_ & _ & Ea3 & Er3 & Ef3).
  assert (ho_early s2 = false) as He2' by (rewrite He2; exact Hearly0).
  destruct startedAt as [startedAt|].
  - apply meets_call.
    { split; [in_kinds|]. split; [by rewrite Ea3|]. split; [done|]. split; [|done]. intros _. split; [by rewrite Er3|].
      destruct exited as [clean|]; [by destruct Hx as [-> _]|destruct Hx as [[->|[c ->]] _]; done]. }
    intros [u|text] s4 (s3' & Hev & ->).
    + assert (match exited with Some clean => ho_proc s3' = Reaped clean | None => unreaped s3' end ∧ books s3 s3') as [Hp Hb4].
      { destruct exited as [clean|]; [|by apply evolves_unreaped in Hev as (? & ? & _); [|apply Hx]].
        destruct Hev as [->|(Hr & _)]; [by split; [apply Hx|]|]. destruct Hx. congruence. }
      pose proof Hb4 as (_ & _ & Ea4 & Er4 & Ef4).
      apply started_does; [exact Hp|left| |cbn; congruence|done].
      apply (recorded_next s3' RecordStarted); [|done]. unfold recorded_upto. by rewrite Ea4, Ea3.
    + assert (exited = None ∨ ∃ clean, exited = Some clean) as [->|[clean ->]] by (destruct exited; eauto).
      * destruct Hx as [Hu3 He3]. apply evolves_unreaped in Hev as (Hu4 & Hb4 & He4); [|done].
        pose proof Hb4 as (_ & _ & Ea4 & _). apply meets_bind.
        eapply meets_mono; [|apply stop_does; exact Hu4]. intros c s5 (Hp5 & (_ & _ & Ea5 & _) & He5).
        apply finished_failure; [done|]. split; [by right; exists c|]. split.
        -- intros k. rewrite Ea5. apply (recorded_next s3' RecordStarted); [|done]. unfold recorded_upto. by rewrite Ea4, Ea3.
        -- cbn in He5. intros E. congruence.
      * destruct Hx as [Hp3 _]. destruct Hev as [->|(Hr & _)]; [|congruence]. apply meets_bind.
        eapply meets_mono; [|eapply stop_does; exact Hp3]. by intros c s5 [].
  - apply meets_bind. eapply (meets_mono _ _ _ (λ _ s', books s3 s' ∧ settled s' ∧ ho_early s' = ho_early s3)).
    { intros _ s4 (Hb4 & Hset & He4). apply settled_call; [done|done|]. intros chunks s' ->.
      apply finished_failure; [done|]. eapply (over_intro s); [by etrans|done|by apply (upto_weaken s RecordStarted)|].
      rewrite Href. by intros _ ?%elem_of_nil. }
    destruct exited as [clean|].
    + split; [done|]. split; [right; exists clean; by destruct Hx|done].
    + eapply meets_mono; [|apply stop_does; by destruct Hx]. intros c s4 (Hp4 & Hb4 & He4).
      split; [done|]. split; [by right; exists c|done].
Qed.

(** ** The whole run *)

(** Nothing has happened yet. *)
Definition fresh (s : host) : Prop :=
  ho_proc s = Idle ∧ ho_early s = false ∧ ho_attempted s = [] ∧ ho_recorded s = [] ∧ ho_refused s = [].

Lemma run_does s : fresh s → does (run encode r) finished s.
Proof.
  intros (Hp & He & Ha & Hr & Hf). assert (settled s) as Hset by by left.
  assert (∀ a, over (with_accepted s a)) as Hover.
  { intros a. split; [by left|]. cbn [ho_attempted with_accepted ho_early]. rewrite Ha, He. by split; [intros k ?%elem_of_nil|]. }
  assert (over s) as Ho by (destruct (Hover (ho_accepted s)) as (? & ? & ?); by split_and!).
  unfold run. destruct (ParseBounds (r_Spec r)) as [b|text] eqn:Eb; [|by apply finished_failure].
  destruct (ValidateFilterSyntax (cjs_Filter (r_Spec r))) as [[]|text] eqn:Ef; [|by apply finished_failure].
  apply settled_call; [done|done|]. intros present s' ->. destruct present; [|by apply finished_failure]. cbn [negb].
  unfold dryRun. apply settled_call; [done|by cbn [may]; rewrite Eb|]. intros d s' ->. cbn [prog_bind].
  destruct (dry_accepted d) eqn:Ed.
  2:{ split; [done|]. unfold dry_failure. case_match; by apply failure_truthful. }
  apply settled_call; [by left| |].
  { split; [in_kinds|]. split; [cbn [ho_attempted with_accepted]; rewrite Ha; by intros k ?%elem_of_nil|]. done. }
  intros [u|text] s' ->.
  - apply capture_does. split; [done|]. split; [done|]. split; [done|]. split; [eexists; left|].
    split; [|done]. apply (recorded_next (with_accepted s true) RecordFilter); [|done].
    unfold recorded_upto. cbn. rewrite Ha. by intros k ?%elem_of_nil.
  - apply finished_failure; [done|]. split; [by left|]. cbn. rewrite Ha, He.
    by split; [intros k ->%list_elem_of_singleton|].
Qed.

(** The result record is the last thing tried. *)
Definition concluded (res : Result) (s : host) : Prop :=
  truthful res s ∧ settled s ∧ head (ho_attempted s) = Some RecordResult ∧
  (ho_early s = true → RecordStarted ∉ ho_refused s) ∧
  ∃ s0 ok, s = tried s0 RecordResult (result_fields res) ok ∧ recorded_upto s0 RecordResult.

(** What the order of the records leaves. *)
Definition orderly (s : host) : Prop :=
  StronglySorted (λ a b, SeqFor b < SeqFor a) (ho_attempted s) ∧ ho_attempted s ⊆ all_kinds ∧
  sublist (fst <$> ho_recorded s) (ho_attempted s) ∧
  (RecordStarted ∈ fst <$> ho_recorded s → RecordFilter ∈ fst <$> ho_recorded s) ∧
  (∀ f, (RecordFilter, f) ∈ ho_recorded s → f = filter_fields r) ∧
  ∀ k, k ∈ ho_refused s → k ∈ ho_attempted s ∧ k ∉ fst <$> ho_recorded s.

Lemma orderly_same s s' :
  ho_attempted s' = ho_attempted s → ho_recorded s' = ho_recorded s → ho_refused s' = ho_refused s → orderly s → orderly s'.
Proof. unfold orderly. by intros -> -> ->. Qed.

Lemma orderly_tried s kind fields ok :
  kind ∈ all_kinds → recorded_upto s kind → (kind = RecordFilter → fields = filter_fields r) →
  (kind = RecordStarted → ∃ f, (RecordFilter, f) ∈ ho_recorded s) → orderly s → orderly (tried s kind fields ok).
Proof.
  intros Hk Hup Hfil Hsta (Hs & Hin & Hsub & Hsf & Hff & Hrf). unfold orderly. cbn.
  assert (kind ∉ ho_attempted s) as Hnew by (intros Hold; specialize (Hup _ Hold); lia).
  split; [constructor; [done|by apply Forall_forall]|]. split; [intros k [->|?]%elem_of_cons; [done|by apply Hin]|].
  destruct ok; cbn.
  - split; [by constructor|]. split.
    + intros [Heq|Hold]%elem_of_cons; [|right; by apply Hsf]. right. destruct (Hsta (eq_sym Heq)) as [f Hf].
      apply list_elem_of_fmap. by exists (RecordFilter, f).
    + split; [intros f [Heq|Hold]%elem_of_cons; [injection Heq as <- ->; by apply Hfil|by apply Hff]|].
      intros k Hkr. destruct (Hrf k Hkr) as [Ha Hn]. split; [by right|]. by intros [->|?]%elem_of_cons.
  - split; [by constructor|]. split; [done|]. split; [done|]. intros k [->|Hkr]%elem_of_cons.
    + split; [left|]. intros Hbad. apply Hnew. by eapply elem_of_sublist.
    + destruct (Hrf k Hkr). split; [by right|done].
Qed.

Lemma step_orderly X (e : runnerE X) s x s' : may X e s → step X e s x s' → orderly s → orderly s'.
Proof.
  intros Hm (s1 & Hev & He) Ho.
  assert (ho_attempted s1 = ho_attempted s ∧ ho_recorded s1 = ho_recorded s ∧ ho_refused s1 = ho_refused s) as (Ea & Er & Ef)
    by (destruct Hev as [->|(_ & p & f & _ & ->)]; done).
  assert (orderly s1) as Ho1 by by eapply orderly_same.
  destruct e; cbn [effect] in He; try (by subst s').
  - subst s'. destruct Hm as (H1 & H2 & H3 & H4 & _). apply orderly_tried; [done| | | |done].
    + unfold recorded_upto. by rewrite Ea.
    + intros Heq. by destruct (H3 Heq).
    + intros Heq. rewrite Er. by destruct (H4 Heq).
  - by destruct He as [->| ->].
  - subst s'. by destruct x.
  - by destruct He as [-> _].
  - destruct x; [|by subst..]. destruct He as (s2 & [_ ->] & ->). done.
  - destruct x; [by destruct He as [_ ->]|by subst].
  - destruct x; [by destruct He as [_ ->]|by subst].
  - by destruct He as [_ ->].
  - by destruct He as [-> _].
  - destruct He as (body & _ & Hp). unfold put_effect in Hp. destruct x as [|[]]; naive_solver.
  - unfold put_effect in He. destruct x as [|[]]; naive_solver.
Qed.

End contract.

(** The defaults change no more than the timeouts. *)
Lemma Run_does encode r s :
  fresh s → meets step (may encode (applyDefaults r)) (Run encode r) (concluded encode (applyDefaults r)) s.
Proof.
  intros Hf. apply meets_bind. eapply meets_mono; [|exact (run_does encode (applyDefaults r) s Hf)].
  intros res s' [(Hset & Hup & He) Ht]. eapply (settled_call encode (applyDefaults r)); [done|by split; [in_kinds|]|]. intros x s'' ->.
  split; [by apply truthful_tried|]. split; [done|]. split; [done|].
  split; [|exists s', (is_ok x); by split]. intros Hearly. destruct x as [u|text]; [by apply He|].
  intros [?|Hin]%elem_of_cons; [done|by apply He].
Qed.


(** ** The records of a success *)

Definition seq_desc (a b : str) : Prop := SeqFor b < SeqFor a.

Lemma StronglySorted_part {A} (R : A → A → Prop) l k : sublist l k → StronglySorted R k → StronglySorted R l.
Proof.
  induction 1 as [|x l k Hsub IH|x l k Hsub IH]; intros Hs; [constructor|..]; inversion Hs as [|y k' Hk Hx]; subst.
  - constructor; [by apply IH|]. rewrite Forall_forall in *. intros y Hy. apply Hx. by eapply elem_of_sublist.
  - by apply IH.
Qed.

(** All four kinds, in the order they must have. *)
Lemma all_four kinds :
  StronglySorted seq_desc kinds → kinds ⊆ all_kinds → (∀ k, k ∈ all_kinds → k ∈ kinds) →
  kinds = [RecordResult; RecordEnded; RecordStarted; RecordFilter].
Proof.
  intros Hs Hin Hall. set (l := [RecordResult; RecordEnded; RecordStarted; RecordFilter]).
  assert (StronglySorted seq_desc l) as Hl by (unfold l, seq_desc; repeat constructor).
  assert (∀ a, ¬ seq_desc a a) as Hirr by (unfold seq_desc; intros; lia).
  assert (∀ a b c, seq_desc a b → seq_desc b c → seq_desc a c) as Htr by (unfold seq_desc; intros; lia).
  assert (∀ k, k ∈ l ↔ k ∈ all_kinds) as Hperm by (unfold l, all_kinds; set_solver).
  assert (sublist kinds l) as H1 by (apply (sorted_sublist seq_desc); try done; intros k Hk; by apply Hperm, Hin).
  assert (sublist l kinds) as H2 by (apply (sorted_sublist seq_desc); try done; intros k Hk; by apply Hall, Hperm).
  by apply (anti_symm sublist).
Qed.

(** The records of a successful run whose result record was taken. *)
Lemma success_records encode r s res s' f :
  fresh s → exec step (Run encode r) s res s' → res_Outcome res = RunnerOutcomeSucceeded →
  (RecordResult, f) ∈ ho_recorded s' →
  ∃ startedAt endedAt, rev (ho_recorded s') =
    [(RecordFilter, filter_fields r); (RecordStarted, started_fields startedAt);
     (RecordEnded, ended_fields endedAt (res_StopReason res) (res_SizeBytes res)); (RecordResult, result_fields res)].
Proof.
  intros Hf Hx Ho Hres. pose proof (Run_does encode r s Hf) as Hd.
  destruct (wp_exec _ _ _ _ _ _ Hx (meets_wp _ _ _ _ _ Hd)) as (Ht & _ & _ & _ & s0 & ok & -> & Hup).
  assert (orderly (applyDefaults r) s) as Hs.
  { destruct Hf as (_ & _ & Ha & Hr & Href). unfold orderly. rewrite Ha, Hr, Href. cbn. split; [apply SSorted_nil|].
    split; [by intros k ?%elem_of_nil|]. split; [done|]. split; [by intros ?%elem_of_nil|].
    split; [by intros g ?%elem_of_nil|by intros k ?%elem_of_nil]. }
  pose proof (wp_exec _ _ _ _ _ _ Hx (obeys_invariant step _ (orderly (applyDefaults r)) _ _ (step_orderly encode (applyDefaults r)) (meets_obeys _ _ _ _ _ Hd) Hs))
    as (Hsort & Hin & Hsub & Hsf & Hff & Hrf).
  unfold truthful in Ht. rewrite Ho in Ht. destruct Ht as (_ & _ & _ & b & bytes & sa & ea & raw & Hsz & _ & _ & _ & _ & _ & _ & Hen & Hst).
  assert (∀ k g, (k, g) ∈ ho_recorded (tried s0 RecordResult (result_fields res) ok) →
    k ∈ fst <$> ho_recorded (tried s0 RecordResult (result_fields res) ok)) as Hkind.
  { intros k g Hg. apply list_elem_of_fmap. by exists (k, g). }
  destruct ok; [|by destruct (proj2 (Hrf RecordResult ltac:(left))); eapply Hkind].
  assert (fst <$> ho_recorded (tried s0 RecordResult (result_fields res) true) =
    [RecordResult; RecordEnded; RecordStarted; RecordFilter]) as Hks.
  { apply all_four.
    - eapply StronglySorted_part; [exact Hsub|exact Hsort].
    - intros k Hk. apply Hin. by eapply elem_of_sublist.
    - intros k. unfold all_kinds. rewrite !elem_of_cons, elem_of_nil.
      intros [->|[->|[->|[->|[]]]]]; [by eapply Hsf, Hkind|by eapply Hkind..]. }
  cbn [ho_recorded tried] in *. destruct (ho_recorded s0) as [|[k1 g1] [|[k2 g2] [|[k3 g3] [|]]]] eqn:Erec; try discriminate Hks.
  cbn in Hks. injection Hks as -> -> ->. exists sa, ea.
  assert (g1 = ended_fields ea (res_StopReason res) (res_SizeBytes res)) as ->.
  { rewrite Hsz. rewrite !elem_of_cons in Hen. by destruct Hen as [?|[[= <-]|[?|[?|?%elem_of_nil]]]]. }
  assert (g2 = started_fields sa) as ->.
  { rewrite !elem_of_cons in Hst. by destruct Hst as [?|[?|[[= <-]|[?|?%elem_of_nil]]]]. }
  assert (g3 = filter_fields r) as -> by (apply Hff; do 3 right; left). done.
Qed.

(** What a step does not undo. *)
Lemma step_keeps_flags X (e : runnerE X) s x s' :
  step X e s x s' → ho_early s = true ∧ RecordStarted ∈ ho_refused s → ho_early s' = true ∧ RecordStarted ∈ ho_refused s'.
Proof.
  intros (s1 & Hev & He) [H1 H2].
  assert (ho_early s1 = true ∧ RecordStarted ∈ ho_refused s1) as [H1' H2'] by (destruct Hev as [->|(_ & p & f & _ & ->)]; done).
  destruct e; cbn [effect] in He; try (by subst s').
  - subst s'. cbn. split; [done|]. destruct (is_ok x); [done|by right].
  - by destruct He as [->| ->].
  - subst s'. by destruct x.
  - by destruct He as [-> _].
  - destruct x; [|by subst..]. destruct He as (s2 & [_ ->] & ->). done.
  - destruct x; [by destruct He as [_ ->]|by subst].
  - destruct x; [by destruct He as [_ ->]|by subst].
  - by destruct He as [_ ->].
  - by destruct He as [-> _].
  - destruct He as (body & _ & Hp). unfold put_effect in Hp. destruct x as [|[]]; naive_solver.
  - unfold put_effect in He. destruct x as [|[]]; naive_solver.
Qed.

(** ** Theorems *)

(** C6: The runner stores evidence or says why not.  On any host and bucket,
    whatever fails: dumpcap is started at most once, after a dry run accepted
    the filter and that is on record, with the arguments the bounds give;
    records are tried in the protocol's order; the capture file is never
    removed while dumpcap runs; an artifact is uploaded only when dumpcap
    exited cleanly at its size or time bound, that is on record, and the file
    is within its bound, well-formed and counted and hashed as the metadata
    say, and the manifest only after the artifact and about it.  And when the
    run ends, dumpcap has been waited for, a result record was the last thing
    tried, a success means that both objects are there and describe one
    verified file, and a failure has a reason, its exit code and a safe
    message.  All of it is about the runner with its defaults, which are
    timeouts. *)
Theorem runner_stores_evidence encode r s :
  fresh s →
  obeys step (may encode (applyDefaults r)) (Run encode r) s ∧
  ∀ res s', exec step (Run encode r) s res s' →
    truthful encode (applyDefaults r) res s' ∧ settled s' ∧ head (ho_attempted s') = Some RecordResult.
Proof.
  intros Hf. pose proof (Run_does encode r s Hf) as Hd. split; [by eapply meets_obeys|].
  intros res s' Hx. destruct (wp_exec _ _ _ _ _ _ Hx (meets_wp _ _ _ _ _ Hd)) as (Ht & Hset & Hh & _).
  by split_and!.
Qed.

(** C39: A runner that hangs.  When dumpcap exits before a poll has seen its
    file, and the started record then cannot be written, the run never ends:
    its exit has been received already, and [stop] waits to receive it again.
    So [Run] does not return, and no result record is tried, although it
    promises both. *)
Theorem runner_hangs encode r s p s' :
  fresh s → reached step (Run encode r) s p s' →
  ho_early s' = true → RecordStarted ∈ ho_refused s' →
  ∀ res s'', ¬ exec step p s' res s''.
Proof.
  intros Hf Hr He Hs res s'' Hx.
  destruct (exec_keeps step _ _ _ _ _ step_keeps_flags Hx (conj He Hs)) as [He' Hs'].
  pose proof (reached_exec _ _ _ _ _ _ _ Hr Hx) as Hrun.
  destruct (wp_exec _ _ _ _ _ _ Hrun (meets_wp _ _ _ _ _ (Run_does encode r s Hf))) as (_ & _ & _ & Hno & _).
  by apply Hno.
Qed.

(** What the manager makes of a success. *)
Definition accepted_by_manager (decode : str → option Manifest.Manifest) (r : Runner) (s : host) (sum : str) : Prop :=
  ∃ bytes metadata raw opts, ho_bucket s !! artifact_key r = Some (bytes, opts) ∧
    Storage.po_Metadata opts = Some metadata ∧ sum = sha256_hex bytes ∧
    (∃ mopts, ho_bucket s !! manifest_key r = Some (raw, mopts)) ∧
    (slen raw ≤ Manifest.MaxManifestBytes →
     ∃ m, Manifest.ParseManifest decode raw = Ok m ∧ mf_SHA256 m = sum ∧
       Manifest.VerifyArtifact m (r_CaptureJobUID r) (slen bytes) metadata = Ok tt).

(** C24: What the runner stores the manager accepts.  Given that a manifest's
    JSON decodes to what was encoded, in which invalid UTF-8 is replaced, and
    that the capture's UID is a text the sanitizer leaves alone, a run that ends in success has left in the bucket,
    under the capture's own keys, an artifact and a manifest that the
    manager's parser and verifier accept for that capture, unless the manifest
    is over the parser's size limit; and the digest reported is that of the
    stored bytes. *)
Theorem stored_capture_accepted encode decode r s res s' :
  (∀ m raw, encode m = Some raw → decode raw = Some (json_manifest m)) →
  Sanitize.String_ (r_CaptureJobUID r) = r_CaptureJobUID r →
  fresh s → exec step (Run encode r) s res s' → res_Outcome res = RunnerOutcomeSucceeded →
  accepted_by_manager decode r s' (res_SHA256 res).
Proof.
  intros Hdec Huid Hf Hx Ho.
  destruct (wp_exec _ _ _ _ _ _ Hx (meets_wp _ _ _ _ _ (Run_does encode r s Hf))) as (Ht & _).
  unfold truthful in Ht. rewrite Ho in Ht. destruct Ht as (_ & _ & _ & b & bytes & startedAt & endedAt & raw & Hsz & Hwalk & Ha & Hm & He & Hb & _).
  apply Pcapng.CountAndHash_Ok in Hwalk as Hok. destruct Hok as [_ Hsum].
  exists bytes. eexists _, raw, _. split; [exact Ha|]. split; [reflexivity|]. split; [done|]. split; [by eexists|].
  intros Hlen. pose proof (Pcapng.CountAndHash_packets _ _ _ _ Hwalk) as Hp. apply ParseBounds_valid in Hb.
  assert (0 ≤ b_Snaplen b ∧ 0 ≤ b_MaxSizeBytes b) as [Hsn Hms] by (unfold valid_bounds, MinSnaplen, MinSizeBytes in Hb; lia).
  eexists. split; [|split].
  - apply ParseManifest_Ok. eexists. split; [by apply Hdec|]. split; [reflexivity|]. cbn -[json_text]. unfold slen in *.
    split_and!; [done|done|rewrite Hsum, json_sum; apply sha256_hex_is_hex|lia|done|done|done].
  - cbn -[json_text]. by rewrite Hsum, json_sum.
  - apply VerifyArtifact_Ok. cbn -[json_text Sanitize.String_].
    assert (Utf8.json_text (r_CaptureJobUID r) = r_CaptureJobUID r) as ->
      by (apply Utf8.json_text_valid; rewrite <- Huid; by destruct (Sanitize.String_safe (r_CaptureJobUID r))).
    rewrite Hsum, json_sum. split_and!; [done|by intros u [= <-]|done|done].
Qed.


(** ** Witnesses *)

(** A host on which everything works: dumpcap writes [bytes] and exits by
    itself, while the runner waits for the file when [quick] and later
    otherwise; the started record is refused when [refuse]. *)
Definition scenario (bytes : str) (quick refuse : bool) (X : Type) (e : runnerE X) : host → option (X * host) :=
  let exits s := with_proc s (Reaped true) (Some bytes) in
  match e with
  | InterfaceByName _ => λ s, Some (true, s)
  | DryRun _ => λ s, Some (mkDryRun true ["(000) ret"] [], with_accepted s true)
  | WriteRecord kind fields => λ s,
      let ok := negb (refuse && bool_decide (kind = RecordStarted)) in
      Some (if ok then Ok tt else Err "no space", tried s kind fields ok)
  | RemoveOutput _ => λ s, Some (tt, with_proc s (ho_proc s) None)
  | StartDumpcap _ => λ s, Some (true, with_proc s Running (ho_file s))
  | Now => λ s, Some (1000, s)
  | Stat _ => λ s,
      match ho_proc s with
      | Running => if quick then Some (slen <$> ho_file s, s)
                   else Some (Some (slen bytes), with_proc s Running (Some bytes))
      | _ => Some (slen <$> ho_file s, s)
      end
  | AwaitFile => λ s, match ho_proc s with Running => Some (Exited true, with_early (exits s)) | _ => None end
  | AwaitEnd => λ s, match ho_proc s with Running => Some (Ended true, exits s) | _ => None end
  | Interrupt | Kill => λ s, Some (tt, s)
  | AwaitGrace => λ s, match ho_proc s with Running => Some (Some true, exits s) | _ => Some (None, s) end
  | AwaitExit => λ s, match ho_proc s with Running => Some (true, exits s) | _ => None end
  | Output => λ s, Some ([], s)
  | OpenOutput _ | Rewind => λ s, Some (true, s)
  | ReadOutput => λ s, match ho_file s with Some b => Some (Ok b, s) | None => None end
  | PutStream key _ opts => λ s,
      match ho_file s, ho_bucket s !! key with
      | Some b, None => Some (Ok (Storage.mkObjectInfo key 0 "" 0 None), with_bucket s (<[key := (b, opts)]> (ho_bucket s)))
      | _, _ => None
      end
  | PutManifest key body opts => λ s,
      match ho_bucket s !! key with
      | None => Some (Ok (Storage.mkObjectInfo key 0 "" 0 None), with_bucket s (<[key := (body, opts)]> (ho_bucket s)))
      | Some _ => None
      end
  end.

(** dumpcap exits and its exit is received at once. *)
Lemma exit_received s bytes :
  ho_proc s = Running → ∃ s1, evolves s s1 ∧ receives s1 true (with_proc s (Reaped true) (Some bytes)).
Proof.
  intros Hp. exists (with_proc s (Waiting true) (Some bytes)). split; [|done]. right. split; [done|].
  exists (Waiting true), (Some bytes). split; [right; by eexists|done].
Qed.

Lemma scenario_step bytes quick refuse X (e : runnerE X) s x s' : scenario bytes quick refuse X e s = Some (x, s') → step X e s x s'.
Proof.
  destruct e; cbn [scenario]; intros He.
  3:{ injection He as <- <-. exists s. split; [by left|]. cbn. by destruct (negb _). }
  all: repeat case_match; try done; injection He as <- <-; try (exists s; split; [by left|]; cbn; by eauto using eq_sym).
  all: try (destruct (exit_received s bytes) as (s1 & H1 & H2); [done|]; exists s1; split; [done|]; cbn; by eauto).
  all: exists (with_proc s Running (Some bytes)); (split; [|done]); right; (split; [done|]);
    exists Running, (Some bytes); (split; [by left|done]).
Qed.


Definition example_runner : Runner :=
  mkRunner (mkCaptureJobSpec CaptureRequestManual "tap" "node" "tcp" "1s" 96 (bytes_quantity 10485760) "24h" None None "")
    "u1" "prod" "job" "eth0" "/w" ("dumpcap", []) "4.0.17" "v1" 0 0 0 0.

Definition example_bytes : str := Pcapng.encode_stream Pcapng.example_file.

Definition fresh_host : host := mkHost Idle None ∅ false false [] [] [].

Lemma fresh_host_fresh : fresh fresh_host.
Proof. done. Qed.

(** The JSON of the one manifest the example stores. *)
Definition example_manifest : Manifest.Manifest :=
  manifest_of example_runner (mkBounds second 10485760 96) 1000 1000 CaptureStopDuration 3 (slen example_bytes) (sha256_hex example_bytes).
#[local] Instance manifest_eq_dec : EqDecision Manifest.Manifest.
Proof. solve_decision. Defined.

Definition one_encode (m : Manifest.Manifest) : option str := if bool_decide (m = example_manifest) then Some "{}" else None.
Definition one_decode (raw : str) : option Manifest.Manifest := if bool_decide (raw = "{}") then Some example_manifest else None.

Definition example_end : option (Result * host) :=
  Prog.complete (scenario example_bytes false false) (Run one_encode example_runner) fresh_host.

Lemma example_outcome :
  (λ '(res, _), (res_Outcome res, res_PacketCount res)) <$> example_end = Some (RunnerOutcomeSucceeded, 3).
Proof. vm_compute. reflexivity. Qed.

Lemma example_exec :
  ∃ res s', exec step (Run one_encode example_runner) fresh_host res s' ∧ res_Outcome res = RunnerOutcomeSucceeded ∧
    res_PacketCount res = 3.
Proof.
  destruct (fmap_Some_1 _ _ _ example_outcome) as ([res s'] & E & Ho). injection Ho as H1 H2. exists res, s'. split; [|exact (conj (eq_sym H1) (eq_sym H2))].
  eapply complete_exec; [|exact E]. apply scenario_step.
Qed.

(** Where the quick dumpcap leaves a runner that cannot write its record. *)
Definition example_stuck : option (prog runnerE Result * host) :=
  advance (scenario example_bytes true true) 13 (Run one_encode example_runner) fresh_host.

Lemma example_flags : (λ '(_, s), (ho_early s, ho_refused s)) <$> example_stuck = Some (true, [RecordStarted]).
Proof. vm_compute. reflexivity. Qed.

Lemma runner_stores_evidence_witness :
  ∃ res s', exec step (Run one_encode example_runner) fresh_host res s' ∧ res_Outcome res = RunnerOutcomeSucceeded ∧
    res_PacketCount res = 3 ∧ truthful one_encode (applyDefaults example_runner) res s' ∧ settled s'.
Proof.
  destruct example_exec as (res & s' & Hx & Ho & Hp). exists res, s'. split; [exact Hx|]. split; [exact Ho|].
  split; [exact Hp|].
  destruct (proj2 (runner_stores_evidence one_encode example_runner fresh_host fresh_host_fresh) res s' Hx) as (Ht & Hs & _).
  split; [exact Ht|exact Hs].
Defined.

Lemma stored_capture_accepted_witness :
  ∃ res s', exec step (Run one_encode example_runner) fresh_host res s' ∧
    accepted_by_manager one_decode example_runner s' (res_SHA256 res).
Proof.
  destruct example_exec as (res & s' & Hx & Ho & _). exists res, s'. split; [exact Hx|].
  apply (stored_capture_accepted one_encode one_decode example_runner fresh_host res s').
  - unfold one_encode, one_decode. intros m raw. case_bool_decide as Em; [|discriminate]. intros [= <-]. rewrite Em. vm_compute. reflexivity.
  - vm_compute. reflexivity.
  - exact fresh_host_fresh.
  - exact Hx.
  - exact Ho.
Defined.

Lemma runner_hangs_witness :
  ∃ p s', reached step (Run one_encode example_runner) fresh_host p s' ∧ ho_early s' = true ∧
    RecordStarted ∈ ho_refused s' ∧ ∀ res s'', ¬ exec step p s' res s''.
Proof.
  destruct (fmap_Some_1 _ _ _ example_flags) as ([p s'] & E & Hf). injection Hf as He Hs.
  assert (RecordStarted ∈ ho_refused s') as Hin by (rewrite <-Hs; left).
  assert (reached step (Run one_encode example_runner) fresh_host p s') as Hr
    by (eapply advance_reached; [|exact E]; apply scenario_step).
  exists p, s'. split; [exact Hr|]. split; [exact (eq_sym He)|]. split; [exact Hin|].
  exact (runner_hangs one_encode example_runner fresh_host p s' fresh_host_fresh Hr (eq_sym He) Hin).
Defined.

End RunnerHost.
