(* ===== verification/Reporter.v ===== *)
(** * The capture reporter, internal/capture/reporter/reporter.go

    The reporter reads the runner's records, derives the status they justify
    and applies it when it changed.  [Derive] is a function of the records;
    [Once] and [Run] are programs over the progress directory and the API
    server.  The strings of a record are the runner's, so the result it
    publishes is made of strings.  [Run] is given how often its ticker fires
    before its context ends; logging is left out. *)

From S2P Require Import Prelude GoTime GoString Sanitize Api Status CaptureState Protocol Prog.
From S2P Require Import Runner RunnerHost.

Module Reporter.
Import CaptureState Protocol.

Record RunnerReport := mkReport {
  rp_Outcome : str;
  rp_Reason : str;
  rp_StopReason : str;
  rp_PacketCount : option Z;
  rp_SizeBytes : option Z;
  rp_SHA256 : str;
  rp_ExitCode : Z;
  rp_Message : str;
}.

Record Patch := mkPatch {
  pa_ResolvedInterface : str;
  pa_StartedAt : option time;
  pa_CaptureEndedAt : option time;
  pa_RunnerResult : option RunnerReport;
  pa_Conditions : list Condition;
}.

#[global] Instance report_eq_dec : EqDecision RunnerReport.
Proof. solve_decision. Defined.
#[global] Instance patch_eq_dec : EqDecision Patch.
Proof. solve_decision. Defined.

Definition timeOrRecorded (t : option time) (recorded : time) : option time :=
  match t with None => Some recorded | Some t => Some t end.

(** Insert or replace, whatever was there. *)
Fixpoint put_condition (conds : list Condition) (c : Condition) : list Condition :=
  match conds with
  | [] => [c]
  | existing :: rest => if bool_decide (cond_Type existing = cond_Type c) then c :: rest else existing :: put_condition rest c
  end.

Definition setCondition (conds : list Condition) (ty : str) (st : ConditionStatus) (reason msg : str) (generation : Z)
    (at_ : time) : list Condition :=
  put_condition conds (Status.New Sanitize.String_ at_ ty st reason msg generation).

Definition result (res : Record_) (ended : option Record_) : RunnerReport :=
  let f := rec_Fields res in
  mkReport (f_Outcome f) (f_Reason f)
    (match ended with Some e => f_StopReason (rec_Fields e) | None => "" end)
    (match f_PacketCount f, ended with
     | Some n, _ => Some n
     | None, Some e => f_PacketCount (rec_Fields e)
     | None, None => None
     end)
    (match ended with Some e => f_SizeBytes (rec_Fields e) | None => None end)
    (f_SHA256 f) (default 0 (f_ExitCode f)) (Sanitize.String_ (f_Message f)).

Definition with_conditions (p : Patch) (conds : list Condition) : Patch :=
  mkPatch (pa_ResolvedInterface p) (pa_StartedAt p) (pa_CaptureEndedAt p) (pa_RunnerResult p) conds.

Definition failed (p : Patch) (res : RunnerReport) (generation : Z) (at_ : time) : Patch :=
  let msg := if bool_decide (rp_Message res = "") then "the runner reported " +:+ rp_Reason res else rp_Message res in
  let conds := pa_Conditions p in
  let conds :=
    if bool_decide (rp_Reason res = reason_string FailureInvalidFilter)
    then setCondition conds Status.TypeFilterValid ConditionFalse Status.ReasonFilterInvalid msg generation at_ else conds in
  let conds :=
    if pa_StartedAt p is None
    then setCondition conds Status.TypeCaptureStarted ConditionFalse Status.ReasonCaptureFailed msg generation at_ else conds in
  with_conditions p conds.

(** One record, with the ended record seen so far. *)
Definition derive_record (generation : Z) (s : Patch * option Record_) (rec : Record_) : Patch * option Record_ :=
  let '(p, ended) := s in
  let f := rec_Fields rec in
  let at_ := rec_RecordedAt rec in
  if bool_decide (rec_Kind rec = RecordFilter) then
    (mkPatch (f_Interface f) (pa_StartedAt p) (pa_CaptureEndedAt p) (pa_RunnerResult p)
       (setCondition (pa_Conditions p) Status.TypeFilterValid ConditionTrue Status.ReasonFilterValid
          "the filter compiled against the interface" generation at_), ended)
  else if bool_decide (rec_Kind rec = RecordStarted) then
    (mkPatch (pa_ResolvedInterface p) (timeOrRecorded (f_StartedAt f) at_) (pa_CaptureEndedAt p) (pa_RunnerResult p)
       (setCondition (pa_Conditions p) Status.TypeCaptureStarted ConditionTrue Status.ReasonCaptureStarted
          "dumpcap opened the interface and is writing packets" generation at_), ended)
  else if bool_decide (rec_Kind rec = RecordEnded) then
    (mkPatch (pa_ResolvedInterface p) (pa_StartedAt p) (timeOrRecorded (f_EndedAt f) at_) (pa_RunnerResult p)
       (pa_Conditions p), Some rec)
  else if bool_decide (rec_Kind rec = RecordResult) then
    let res := result rec ended in
    let p := mkPatch (pa_ResolvedInterface p) (pa_StartedAt p) (pa_CaptureEndedAt p) (Some res) (pa_Conditions p) in
    (if bool_decide (rp_Outcome res = Runner.outcome_string RunnerOutcomeFailed) then failed p res generation at_ else p, ended)
  else (p, ended).

Definition empty_patch : Patch := mkPatch "" None None None [].

Definition Derive (records : list Record_) (generation : Z) : Patch :=
  (foldl (derive_record generation) (empty_patch, None) records).1.

Definition IsEmpty (p : Patch) : bool :=
  bool_decide (pa_ResolvedInterface p = "") && (if pa_StartedAt p is None then true else false) &&
  (if pa_CaptureEndedAt p is None then true else false) && (if pa_RunnerResult p is None then true else false) &&
  bool_decide (pa_Conditions p = []).

Definition Terminal (p : Patch) : bool := is_Some_b (pa_RunnerResult p).

(** ** Polling *)

(** [ReadProgress] is what the directory's system calls answer; [Encode] is
    the conversion of a patch, which may fail. *)
Inductive reporterE : Type → Type :=
  | ReadProgress : reporterE (option (list dir_entry))
  | Encode (p : Patch) : reporterE (Prelude.result str unit)
  | ApplyStatus (p : Patch) : reporterE (Prelude.result str unit).

Section reporter.
Context (decode : str → option Record_) (captureJobUID : str) (generation : Z).

(** Whether the runner has finished, or the error; and the patch applied
    last. *)
Definition Once (applied : option Patch) : prog reporterE (Prelude.result str bool * option Patch) :=
  let! dir := call ReadProgress in
  let '(records, _) := ReadRecords decode dir captureJobUID in
  let p := Derive records generation in
  if IsEmpty p then Ret (Ok false, applied) else
  if bool_decide (applied = Some p) then Ret (Ok (Terminal p), applied) else
  let! res := call (Encode p) in
  match res with
  | Err e => Ret (Err e, applied)
  | Ok _ =>
      let! res := call (ApplyStatus p) in
      match res with
      | Err e => Ret (Err ("applying status: " +:+ e), applied)
      | Ok _ => Ret (Ok (Terminal p), Some p)
      end
  end.

(** The error, and the patch applied last. *)
Fixpoint Run (ticks : nat) (applied : option Patch) : prog reporterE (option str * option Patch) :=
  let! (res, applied) := Once applied in
  match res with
  | Ok true => Ret (None, applied)
  | _ =>
      match ticks with
      | S ticks => Run ticks applied
      | O =>
          let! (res, applied) := Once applied in
          Ret (match res with Err e => Some ("final status apply: " +:+ e) | Ok _ => None end, applied)
      end
  end.

End reporter.

(** ** The reporter's contract

    What the last read justifies, and what the API server took last. *)
Record knowledge := mkKnowledge { k_seen : option Patch; k_applied : option Patch }.

Section contract.
Context (decode : str → option Record_) (captureJobUID : str) (generation : Z).

Definition justified (dir : option (list dir_entry)) : Patch :=
  Derive (ReadRecords decode dir captureJobUID).1 generation.

Definition track (X : Type) (e : reporterE X) : X → knowledge → knowledge :=
  match e with
  | ReadProgress => λ dir k, mkKnowledge (Some (justified dir)) (k_applied k)
  | Encode _ => λ _ k, k
  | ApplyStatus p => λ x k, match x with Ok _ => mkKnowledge (k_seen k) (Some p) | Err _ => k end
  end.

(** Only what the records just read justify, when that is something new. *)
Definition may (X : Type) (e : reporterE X) (k : knowledge) : Prop :=
  match e with
  | ApplyStatus p => k_seen k = Some p ∧ IsEmpty p = false ∧ k_applied k ≠ Some p
  | _ => True
  end.

Definition any_answer (X : Type) (e : reporterE X) (x : X) : Prop := True.

(** The last state read is applied, or there was nothing to say. *)
Definition up_to_date (k : knowledge) : Prop :=
  ∃ p, k_seen k = Some p ∧ (IsEmpty p = true ∨ k_applied k = Some p).

Abbreviation does := (conforms any_answer may track) (only parsing).

Lemma Once_does applied k :
  k_applied k = applied →
  does (Once decode captureJobUID generation applied) (λ '(res, applied') k', k_applied k' = applied' ∧
    match res with
    | Ok finished => up_to_date k' ∧ (finished = true → ∃ p, k_applied k' = Some p ∧ Terminal p = true)
    | Err _ => True
    end) k.
Proof.
  intros Hk. split; [done|]. intros dir _. cbn [prog_bind]. set (k1 := track _ ReadProgress dir k).
  assert (k_seen k1 = Some (justified dir)) as Hs by done. assert (k_applied k1 = applied) as Ha by done.
  clearbody k1. unfold justified in Hs. destruct (ReadRecords decode dir captureJobUID) as [records problems]. cbn [fst] in Hs.
  set (p := Derive records generation) in *. destruct (IsEmpty p) eqn:Ee.
  { split; [done|]. split; [|done]. exists p. auto. }
  case_bool_decide as Eq.
  { split; [done|]. split; [exists p; split; [done|right; congruence]|]. intros Ht. exists p. split; [congruence|done]. }
  split; [done|]. intros [u|e] _; [|by split]. split.
  { split; [done|]. split; [done|]. cbn. congruence. }
  intros [u'|e] _; [|by split]. split; [done|]. split; [exists p; split; [done|by right]|]. intros Ht. by exists p.
Qed.

Lemma polling_does ticks applied k :
  k_applied k = applied →
  does (Run decode captureJobUID generation ticks applied) (λ '(err, applied') k', k_applied k' = applied' ∧ (err = None → up_to_date k')) k.
Proof.
  revert applied k. induction ticks as [|n IH]; intros applied k Hk; cbn [Run]; apply conforms_bind;
    (eapply conforms_mono; [|by apply Once_does]); intros [res applied'] k' [Ha Hr].
  - assert (does (let! (res, applied') := Once decode captureJobUID generation applied' in
      Ret (match res with Err e => Some ("final status apply: " +:+ e) | Ok _ => None end, applied'))
      (λ '(err, applied'') k', k_applied k' = applied'' ∧ (err = None → up_to_date k')) k') as Hfinal.
    { apply conforms_bind. eapply conforms_mono; [|by apply Once_does]. intros [[b|e] a'] k'' [Ha' Hr']; split; try done.
      intros _. apply Hr'. }
    destruct res as [[]|e]; [|exact Hfinal..]. split; [done|]. intros _. apply Hr.
  - destruct res as [[]|e]; [|by apply IH..]. split; [done|]. intros _. apply Hr.
Qed.

End contract.

(** C34: The reporter says what the records justify.  Whatever the progress
    directory holds and the API server answers, and however often the ticker
    fires: a status is applied only when the records just read justify it, it
    says something, and it is not what was applied last; and when the reporter
    ends without an error, what it read last is what the API server has, or
    there was nothing to say. *)
Theorem reporter_applies_what_it_saw decode captureJobUID generation ticks l res applied :
  returns any_answer (Run decode captureJobUID generation ticks None) l (res, applied) →
  accepts (may) (track decode captureJobUID generation) (mkKnowledge None None) l ∧
  (res = None → up_to_date (tracked (track decode captureJobUID generation) (mkKnowledge None None) l)).
Proof.
  intros Hr. pose proof (polling_does decode captureJobUID generation ticks None (mkKnowledge None None) eq_refl) as Hd.
  split.
  - eapply conforms_accepts; [exact Hd|]. by eapply returns_partial.
  - intros ->. by apply (conforms_returns _ _ _ _ _ _ _ _ Hd Hr).
Qed.


(** ** From the runner to the status *)

(** A record as its file holds it. *)
Definition holds (encode : Record_ → option str) (uid : str) (e : dir_entry) (kf : str * Fields) : Prop :=
  ∃ w raw, w_CaptureJobUID w = uid ∧ encode (new_record w kf.1 kf.2) = Some raw ∧ slen raw ≤ MaxRecordBytes ∧
    e = mkDirEntry (RecordFileName kf.1) (Some (true, slen raw)) true (Some raw).

Lemma holds_admits encode decode uid e kind fields :
  (∀ rec raw, encode rec = Some raw → decode raw = Some rec) → Sanitize.String_ uid = uid → kind ∈ all_kinds →
  holds encode uid e (kind, fields) →
  ∃ w, admit_entry decode uid e = Ok (sanitize_record (new_record w kind fields)).
Proof.
  intros Hdec Huid Hk (w & raw & Hw & Henc & Hlen & ->). exists w. unfold admit_entry. cbn [e_Name fst].
  assert (kindForFile (RecordFileName kind) = Some kind) as ->.
  { unfold all_kinds in Hk. rewrite !elem_of_cons, elem_of_nil in Hk. destruct Hk as [->|[->|[->|[->|[]]]]]; vm_compute; reflexivity. }
  unfold readRecord. cbn [e_Lstat e_Open e_Read negb]. cbv zeta. apply Z.ltb_ge in Hlen as Hlt.
  assert (str_take (Z.to_nat (MaxRecordBytes + 1)) raw = raw) as ->.
  { apply str_take_ge. unfold slen, MaxRecordBytes in *. lia. }
  cbn [fst snd] in Henc. rewrite Hlt. rewrite (Hdec _ _ Henc).
  rewrite (bool_decide_eq_true_2 (rec_SchemaVersion _ = _)) by reflexivity.
  cbn [sanitize_record new_record rec_Kind rec_Seq rec_CaptureJobUID]. rewrite Hw, Huid.
  rewrite (bool_decide_eq_true_2 (kind = kind)) by reflexivity. rewrite Z.eqb_refl.
  by rewrite (bool_decide_eq_true_2 (uid = uid)) by reflexivity.
Qed.

(** The four files, as [os.ReadDir] lists them. *)
Lemma read_four encode decode uid entries f1 f2 f3 f4 :
  (∀ rec raw, encode rec = Some raw → decode raw = Some rec) → Sanitize.String_ uid = uid →
  Forall2 (holds encode uid) entries
    [(RecordFilter, f1); (RecordStarted, f2); (RecordEnded, f3); (RecordResult, f4)] →
  ∃ w1 w2 w3 w4, ReadRecords decode (Some entries) uid =
    ([sanitize_record (new_record w1 RecordFilter f1); sanitize_record (new_record w2 RecordStarted f2);
      sanitize_record (new_record w3 RecordEnded f3); sanitize_record (new_record w4 RecordResult f4)], []).
Proof.
  intros Hdec Huid Hall.
  apply Forall2_cons_inv_r in Hall as (e1 & l1 & H1 & Hall & ->).
  apply Forall2_cons_inv_r in Hall as (e2 & l2 & H2 & Hall & ->).
  apply Forall2_cons_inv_r in Hall as (e3 & l3 & H3 & Hall & ->).
  apply Forall2_cons_inv_r in Hall as (e4 & l4 & H4 & Hall & ->). apply Forall2_nil_inv_r in Hall as ->.
  assert (∀ e k f, k ∈ all_kinds → holds encode uid e (k, f) →
    ∃ w, admit_entry decode uid e = Ok (sanitize_record (new_record w k f))) as Ha
    by (intros e k f Hk Hh; exact (holds_admits encode decode uid e k f Hdec Huid Hk Hh)).
  apply Ha in H1 as [w1 E1], H2 as [w2 E2], H3 as [w3 E3], H4 as [w4 E4]; [|by apply (bool_decide_unpack _)..].
  exists w1, w2, w3, w4. unfold ReadRecords. cbn [read_entries]. by rewrite E1, E2, E3, E4.
Qed.

Definition is_true (conds : list Condition) (ty reason : str) (generation : Z) : Prop :=
  ∃ c, Status.Get conds ty = Some c ∧ cond_Status c = ConditionTrue ∧ cond_Reason c = reason ∧
    cond_ObservedGeneration c = generation.

(** A record's step, by its kind. *)
Lemma derive_filter generation p ended rec :
  rec_Kind rec = RecordFilter → derive_record generation (p, ended) rec =
    (mkPatch (f_Interface (rec_Fields rec)) (pa_StartedAt p) (pa_CaptureEndedAt p) (pa_RunnerResult p)
       (setCondition (pa_Conditions p) Status.TypeFilterValid ConditionTrue Status.ReasonFilterValid
          "the filter compiled against the interface" generation (rec_RecordedAt rec)), ended).
Proof. unfold derive_record. intros ->. reflexivity. Qed.

Lemma derive_started generation p ended rec :
  rec_Kind rec = RecordStarted → derive_record generation (p, ended) rec =
    (mkPatch (pa_ResolvedInterface p) (timeOrRecorded (f_StartedAt (rec_Fields rec)) (rec_RecordedAt rec))
       (pa_CaptureEndedAt p) (pa_RunnerResult p)
       (setCondition (pa_Conditions p) Status.TypeCaptureStarted ConditionTrue Status.ReasonCaptureStarted
          "dumpcap opened the interface and is writing packets" generation (rec_RecordedAt rec)), ended).
Proof. unfold derive_record. intros ->. reflexivity. Qed.

Lemma derive_ended generation p ended rec :
  rec_Kind rec = RecordEnded → derive_record generation (p, ended) rec =
    (mkPatch (pa_ResolvedInterface p) (pa_StartedAt p) (timeOrRecorded (f_EndedAt (rec_Fields rec)) (rec_RecordedAt rec))
       (pa_RunnerResult p) (pa_Conditions p), Some rec).
Proof. unfold derive_record. intros ->. reflexivity. Qed.

Lemma derive_succeeded generation p ended rec :
  rec_Kind rec = RecordResult → f_Outcome (rec_Fields rec) = Runner.outcome_string RunnerOutcomeSucceeded →
  derive_record generation (p, ended) rec =
    (mkPatch (pa_ResolvedInterface p) (pa_StartedAt p) (pa_CaptureEndedAt p) (Some (result rec ended)) (pa_Conditions p), ended).
Proof.
  unfold derive_record. intros -> Ho. cbv zeta.
  rewrite (bool_decide_eq_false_2 (rp_Outcome (result rec ended) = _)); [reflexivity|].
  unfold result. cbn [rp_Outcome]. by rewrite Ho.
Qed.

(** The steps of [Derive] over the four records of a success. *)
Lemma derive_four generation a b c d :
  rec_Kind a = RecordFilter → rec_Kind b = RecordStarted → rec_Kind c = RecordEnded → rec_Kind d = RecordResult →
  f_Outcome (rec_Fields d) = Runner.outcome_string RunnerOutcomeSucceeded →
  Derive [a; b; c; d] generation =
    mkPatch (f_Interface (rec_Fields a)) (timeOrRecorded (f_StartedAt (rec_Fields b)) (rec_RecordedAt b))
      (timeOrRecorded (f_EndedAt (rec_Fields c)) (rec_RecordedAt c)) (Some (result d (Some c)))
      [Status.New Sanitize.String_ (rec_RecordedAt a) Status.TypeFilterValid ConditionTrue Status.ReasonFilterValid
         "the filter compiled against the interface" generation;
       Status.New Sanitize.String_ (rec_RecordedAt b) Status.TypeCaptureStarted ConditionTrue Status.ReasonCaptureStarted
         "dumpcap opened the interface and is writing packets" generation].
Proof.
  intros Ha Hb Hc Hd Ho. unfold Derive. cbn [foldl].
  by rewrite (derive_filter _ _ _ _ Ha), (derive_started _ _ _ _ Hb), (derive_ended _ _ _ _ Hc), (derive_succeeded _ _ _ _ Hd Ho).
Qed.

(** A capture's success reaches its status.  Let a run of the runner end
    in success with its result record taken, let the reporter find the four
    files of its records, and let the JSON of a record decode to what was
    encoded.  Then the status the reporter derives is terminal and carries the
    runner's result: its outcome and exit code, the counted packets, the size
    and, as the sanitizer leaves them, the digest and the stop reason; the
    interface; both times; and both conditions, true for the generation. *)
Theorem success_reported encode_manifest encode decode r s res s' f entries uid generation :
  (∀ rec raw, encode rec = Some raw → decode raw = Some rec) → Sanitize.String_ uid = uid →
  RunnerHost.fresh s → exec RunnerHost.step (Runner.Run encode_manifest r) s res s' →
  Runner.res_Outcome res = RunnerOutcomeSucceeded → (RecordResult, f) ∈ RunnerHost.ho_recorded s' →
  Forall2 (holds encode uid) entries (rev (RunnerHost.ho_recorded s')) →
  let p := justified decode uid generation (Some entries) in
  Terminal p = true ∧
  pa_RunnerResult p = Some (mkReport "Succeeded" "" (Sanitize.String_ (Runner.res_StopReason res))
    (Some (Runner.res_PacketCount res)) (Some (Runner.res_SizeBytes res)) (Sanitize.String_ (Runner.res_SHA256 res)) ExitOK "") ∧
  pa_ResolvedInterface p = Sanitize.String_ (Runner.r_Interface r) ∧
  is_Some (pa_StartedAt p) ∧ is_Some (pa_CaptureEndedAt p) ∧
  is_true (pa_Conditions p) Status.TypeFilterValid Status.ReasonFilterValid generation ∧
  is_true (pa_Conditions p) Status.TypeCaptureStarted Status.ReasonCaptureStarted generation.
Proof.
  intros Hdec Huid Hf Hx Ho Hres Hall.
  destruct (wp_exec _ _ _ _ _ _ Hx (meets_wp _ _ _ _ _ (RunnerHost.Run_does encode_manifest r s Hf))) as (Ht & _).
  unfold RunnerHost.truthful in Ht. rewrite Ho in Ht. destruct Ht as (Hcode & Hreason & Hmsg & _).
  destruct (RunnerHost.success_records encode_manifest r s res s' f Hf Hx Ho Hres) as (sa & ea & Hrev). rewrite Hrev in Hall.
  destruct (read_four encode decode uid entries _ _ _ _ Hdec Huid Hall) as (w1 & w2 & w3 & w4 & Hread).
  unfold justified. rewrite Hread. cbn [fst]. rewrite derive_four; try reflexivity.
  2:{ cbn. rewrite Ho. vm_compute. reflexivity. }
  assert (Sanitize.String_ "Succeeded" = "Succeeded") as Hs by (vm_compute; reflexivity).
  assert (Sanitize.String_ "" = "") as He by (vm_compute; reflexivity).
  cbv zeta. split; [done|]. split; [|split; [done|split; [by eexists|split; [by eexists|split]]]].
  - cbn [pa_RunnerResult]. f_equal. unfold result, Runner.result_fields.
    cbn [sanitize_record new_record rec_Fields with_message f_Outcome f_Reason f_StopReason f_PacketCount f_SizeBytes f_SHA256 f_ExitCode f_Message Runner.ended_fields].
    rewrite Ho, Hcode, Hreason, Hmsg. cbn [Runner.outcome_string reason_string default]. by rewrite Hs, !He.
  - eexists. split; [reflexivity|]. by split_and!.
  - eexists. split; [reflexivity|]. by split_and!.
Qed.


(** ** Witnesses *)

(** The records of the example run, and files for them. *)
Definition example_writer : RecordWriter := mkRecordWriter "u1" "pod" 2000.

Definition example_result : Runner.Result :=
  Runner.succeeded CaptureStopDuration 3 (slen RunnerHost.example_bytes) (Sha256.sha256_hex RunnerHost.example_bytes).

Definition example_records : list (str * Fields) :=
  [(RecordFilter, Runner.filter_fields RunnerHost.example_runner); (RecordStarted, Runner.started_fields 1000);
   (RecordEnded, Runner.ended_fields 1000 CaptureStopDuration (slen RunnerHost.example_bytes));
   (RecordResult, Runner.result_fields example_result)].

Definition example_table : list (str * Record_) :=
  map (λ kf, (kf.1, new_record example_writer kf.1 kf.2)) example_records.

#[local] Instance fields_eq_dec : EqDecision Fields.
Proof. solve_decision. Defined.
#[local] Instance record_eq_dec : EqDecision Record_.
Proof. solve_decision. Defined.

(** A JSON that knows these four. *)
Definition example_encode (rec : Record_) : option str :=
  fst <$> List.find (λ nr, bool_decide (nr.2 = rec)) example_table.
Definition example_decode (raw : str) : option Record_ :=
  snd <$> List.find (λ nr, bool_decide (nr.1 = raw)) example_table.

Definition example_entry (kind : str) : dir_entry :=
  mkDirEntry (RecordFileName kind) (Some (true, slen kind)) true (Some kind).
Definition example_entries : list dir_entry := map (λ kf, example_entry kf.1) example_records.

Lemma example_codec rec raw : example_encode rec = Some raw → example_decode raw = Some rec.
Proof.
  unfold example_encode. destruct (List.find _ example_table) as [[n rec']|] eqn:E; [|done]. intros [= <-].
  apply List.find_some in E as [Hin Hb]. apply bool_decide_eq_true in Hb. cbn in Hb. subst rec'.
  unfold example_table, example_records in Hin. cbn [map In] in Hin.
  repeat (destruct Hin as [[= <- <-]|Hin]; [reflexivity|]). destruct Hin.
Qed.

Lemma example_recorded :
  (λ '(res, s), (Runner.res_Outcome res, rev (RunnerHost.ho_recorded s))) <$> RunnerHost.example_end =
  Some (RunnerOutcomeSucceeded, example_records).
Proof. vm_compute. reflexivity. Qed.

Lemma example_files : Forall2 (holds example_encode "u1") example_entries example_records.
Proof.
  unfold example_entries, example_records. cbn [map].
  repeat constructor; exists example_writer; (eexists; split; [reflexivity|]; split; [vm_compute; reflexivity|];
    split; [vm_compute; discriminate|vm_compute; reflexivity]).
Qed.

Lemma success_reported_witness :
  ∃ c, Status.Get (pa_Conditions (justified example_decode "u1" 1 (Some example_entries))) Status.TypeCaptureStarted = Some c ∧
    cond_Status c = ConditionTrue ∧ cond_Reason c = Status.ReasonCaptureStarted ∧ cond_ObservedGeneration c = 1.
Proof.
  destruct (fmap_Some_1 _ _ _ example_recorded) as ([res s'] & E & Hrec). injection Hrec as Ho Hrev.
  assert (exec RunnerHost.step (Runner.Run RunnerHost.one_encode RunnerHost.example_runner) RunnerHost.fresh_host res s') as Hx
    by (eapply complete_exec; [|exact E]; apply RunnerHost.scenario_step).
  assert ((RecordResult, Runner.result_fields example_result) ∈ RunnerHost.ho_recorded s') as Hin.
  { apply list_elem_of_In, in_rev. rewrite <-Hrev. do 3 right. left. reflexivity. }
  assert (Forall2 (holds example_encode "u1") example_entries (rev (RunnerHost.ho_recorded s'))) as Hfiles
    by (rewrite <-Hrev; exact example_files).
  assert (Sanitize.String_ "u1" = "u1") as Hu by (vm_compute; reflexivity).
  exact (proj2 (proj2 (proj2 (proj2 (proj2 (proj2 (success_reported RunnerHost.one_encode example_encode example_decode
    RunnerHost.example_runner RunnerHost.fresh_host res s' _ example_entries "u1" 1 example_codec Hu RunnerHost.fresh_host_fresh Hx
    (eq_sym Ho) Hin Hfiles))))))).
Defined.

(** A directory that fills up, and an API server that takes everything. *)
Definition example_answer (X : Type) (e : reporterE X) : nat → option (X * nat) :=
  match e with
  | ReadProgress => λ n, Some (Some (take n example_entries), (n + 2)%nat)
  | Encode _ => λ n, Some (Ok tt, n)
  | ApplyStatus _ => λ n, Some (Ok tt, n)
  end.

Lemma reporter_applies_what_it_saw_witness :
  let l := (run_while example_answer (Run example_decode "u1" 1 5 None) 1%nat).1 in
  length l = 9%nat ∧ accepts may (track example_decode "u1" 1) (mkKnowledge None None) l.
Proof.
  split; [vm_compute; reflexivity|].
  destruct (run_while example_answer (Run example_decode "u1" 1 5 None) 1%nat).2 as [[res applied]|] eqn:E.
  - refine (proj1 (reporter_applies_what_it_saw example_decode "u1" 1 5 _ res applied _)).
    eapply run_while_returns; [|exact E]. done.
  - exfalso. vm_compute in E. discriminate E.
Defined.

End Reporter.
