(* ===== verification/AuditModel.v ===== *)
(** * Audit records, internal/audit/model.go

    The record, its validation and sanitization, and the derived identity a
    retry converges on.  [Encode] and [Decode] are encoding/json's and are
    arguments where they are used. *)

From S2P Require Import Prelude GoTime GoString Utf8 Sha256 Sanitize.

Module AuditModel.

Definition SchemaVersion : str := "trawl.audit/v1".
Definition DefaultPrefix : str := "audit/v1/".

Definition ActionCaptureJobManualCreate : str := "capturejob.manual_create".
Definition ActionCaptureJobPolicyCreate : str := "capturejob.policy_create".
Definition ActionCaptureJobTransition : str := "capturejob.transition".
Definition ActionArtifactDownload : str := "artifact.download".
Definition ActionRetentionChange : str := "retention.change".
Definition ActionArtifactExpire : str := "artifact.expire".

Definition ActionPortMirrorConfigure : str := "portmirror.configure".
Definition ActionPortMirrorRevert : str := "portmirror.revert".

Definition DecisionAllowed : str := "allowed".
Definition DecisionDenied : str := "denied".
Definition DecisionSucceeded : str := "succeeded".
Definition DecisionFailed : str := "failed".

Inductive CommitOutcome := ResultSuccess | ResultRetry | ResultUnavailable | ResultConflict.

Definition validActions : list str :=
  ["networktap.create"; "networktap.update"; "networktap.delete";
   "capturepolicy.create"; "capturepolicy.update"; "capturepolicy.delete";
   "capturepolicy.arm"; "capturepolicy.disarm";
   ActionCaptureJobManualCreate; ActionCaptureJobPolicyCreate; ActionCaptureJobTransition;
   ActionArtifactDownload; ActionRetentionChange; ActionArtifactExpire;
   "portmirror.create"; "portmirror.update"; "portmirror.delete";
   ActionPortMirrorConfigure; ActionPortMirrorRevert].

Definition validDecisions : list str :=
  [DecisionAllowed; DecisionDenied; DecisionSucceeded; DecisionFailed].

Record Actor := mkActor { act_Username : str; act_UID : str; act_Groups : list str }.

Record Resource := mkResource {
  res_Group : str;
  res_Kind : str;
  res_Namespace : str;
  res_Name : str;
  res_UID : str;
}.

(** Called [Record] in the source. *)
Record Record_ := mkRecord {
  r_SchemaVersion : str;
  r_RecordedAt : time;
  r_Action : str;
  r_Decision : str;
  r_Reason : str;
  r_Message : str;
  r_Actor : Actor;
  r_Resource : Resource;
  r_RequestID : str;
  r_StableKey : str;
  r_InitiatedBy : str;
  r_LedgerKey : str;
  r_CommittedAt : time;
}.

Definition Validate (r : Record_) : result str unit :=
  let errs :=
    (if bool_decide (r_Action r ∈ validActions) then []
     else ["action is not in the audit contract enum"]) ++
    (if bool_decide (r_Decision r ∈ validDecisions) then []
     else ["decision is not in the audit contract enum"]) ++
    (if bool_decide (trim_space (r_StableKey r) = "") then ["stableKey is required"] else []) in
  match errs with
  | [] => Ok tt
  | _ => Err ("invalid audit record: " +:+ str_join errs "; ")
  end.

Definition Sanitized (r : Record_) : Record_ :=
  let c := Sanitize.String_ in
  {| r_SchemaVersion := r_SchemaVersion r;
     r_RecordedAt := r_RecordedAt r;
     r_Action := r_Action r;
     r_Decision := r_Decision r;
     r_Reason := c (r_Reason r);
     r_Message := c (r_Message r);
     r_Actor := mkActor (c (act_Username (r_Actor r))) (c (act_UID (r_Actor r)))
                  (c <$> act_Groups (r_Actor r));
     r_Resource := mkResource (c (res_Group (r_Resource r))) (c (res_Kind (r_Resource r)))
                     (c (res_Namespace (r_Resource r))) (c (res_Name (r_Resource r)))
                     (c (res_UID (r_Resource r)));
     r_RequestID := c (r_RequestID r);
     r_StableKey := r_StableKey r;
     r_InitiatedBy := c (r_InitiatedBy r);
     r_LedgerKey := r_LedgerKey r;
     r_CommittedAt := r_CommittedAt r |}.

(** A record as its JSON decodes: the text of every field in valid UTF-8. *)
Definition json_record (r : Record_) : Record_ :=
  let c := json_text in
  mkRecord (c (r_SchemaVersion r)) (r_RecordedAt r) (c (r_Action r)) (c (r_Decision r)) (c (r_Reason r)) (c (r_Message r))
    (mkActor (c (act_Username (r_Actor r))) (c (act_UID (r_Actor r))) (c <$> act_Groups (r_Actor r)))
    (mkResource (c (res_Group (r_Resource r))) (c (res_Kind (r_Resource r))) (c (res_Namespace (r_Resource r)))
       (c (res_Name (r_Resource r))) (c (res_UID (r_Resource r))))
    (c (r_RequestID r)) (c (r_StableKey r)) (c (r_InitiatedBy r)) (c (r_LedgerKey r)) (r_CommittedAt r).

(** [digest]: each part length-prefixed, the whole hashed. *)
Definition digest (parts : list str) : str := sha256_hex (len_prefixed_all parts).

Definition StableKeyForAdmission (admissionUID action decision : str) : str :=
  if bool_decide (admissionUID = "") then ""
  else "admission/" +:+ digest [admissionUID; action; decision].

Definition StableKeyForAutomatic (action objectUID step : str) : str :=
  "automatic/" +:+ digest [action; objectUID; step].

(** The free-text fields, every string a caller supplies but the key and the
    two enums. *)
Definition free_text (r : Record_) : list str :=
  [r_Reason r; r_Message r; r_InitiatedBy r; r_RequestID r;
   act_Username (r_Actor r); act_UID (r_Actor r);
   res_Group (r_Resource r); res_Kind (r_Resource r); res_Namespace (r_Resource r);
   res_Name (r_Resource r); res_UID (r_Resource r)] ++ act_Groups (r_Actor r).

(** ** Lemmas *)

Lemma Sanitized_safe r : Forall Sanitize.boundary_safe (free_text (Sanitized r)).
Proof.
  unfold free_text, Sanitized. simpl.
  repeat (apply Forall_cons; split; [apply Sanitize.String_safe|]).
  apply Forall_fmap, Forall_forall. intros g _. apply Sanitize.String_safe.
Qed.

Lemma json_String s : json_text (Sanitize.String_ s) = Sanitize.String_ s.
Proof. apply json_text_valid. by destruct (Sanitize.String_safe s). Qed.

(** What JSON can still change in a sanitized record: the fields its writer
    chose, not the ones a caller supplied as free text. *)
Lemma json_Sanitized r :
  Forall (λ s, valid_string s = true) [r_SchemaVersion r; r_Action r; r_Decision r; r_StableKey r; r_LedgerKey r] →
  json_record (Sanitized r) = Sanitized r.
Proof.
  rewrite !Forall_cons. intros (Hv & Ha & Hd & Hk & Hl & _).
  unfold json_record, Sanitized. cbn -[json_text Sanitize.String_].
  rewrite !json_String, !json_text_valid by done.
  assert (∀ l, json_text <$> (Sanitize.String_ <$> l) = Sanitize.String_ <$> l) as ->; [|done].
  intros l. rewrite <- list_fmap_compose. apply list_fmap_ext. intros ? g _. apply json_String.
Qed.

Lemma Validate_Ok r :
  Validate r = Ok tt ↔
  r_Action r ∈ validActions ∧ r_Decision r ∈ validDecisions ∧ trim_space (r_StableKey r) ≠ "".
Proof.
  unfold Validate. repeat case_bool_decide; simpl; split; intros; go_simp; done.
Qed.

Lemma digest_inj l1 l2 :
  length l1 = length l2 → digest l1 = digest l2 →
  l1 = l2 ∨ sha256_collision (len_prefixed_all l1) (len_prefixed_all l2).
Proof.
  intros Hl [Heq|Hc]%sha256_hex_eq; [left|by right].
  apply (len_prefixed_all_inj l1 l2 Hl "" ""). by rewrite !str_app_nil_r.
Qed.

(** ** Theorems *)

(** A stable key is an identity.  Keys of admission requests and of
    automatic actions never coincide, two equal keys of one kind have the same
    three parts or exhibit a SHA-256 collision - the length prefix keeps
    shifted field boundaries apart - and a request without a UID has no key,
    which validation refuses. *)
Theorem StableKey_identity a b c a' b' c' :
  (a ≠ "" → StableKeyForAdmission a b c ≠ StableKeyForAutomatic a' b' c') ∧
  (StableKeyForAutomatic a b c = StableKeyForAutomatic a' b' c' →
   (a = a' ∧ b = b' ∧ c = c') ∨ ∃ x y, sha256_collision x y) ∧
  (a ≠ "" → a' ≠ "" → StableKeyForAdmission a b c = StableKeyForAdmission a' b' c' →
   (a = a' ∧ b = b' ∧ c = c') ∨ ∃ x y, sha256_collision x y) ∧
  (∀ r, r_StableKey r = StableKeyForAdmission "" b c → is_ok (Validate r) = false).
Proof.
  unfold StableKeyForAdmission, StableKeyForAutomatic. split_and!.
  - intros Ha. by rewrite bool_decide_eq_false_2.
  - intros [Heq|Hc]%str_app_inj_r%digest_inj; [|by right; eauto|done]. simplify_eq. by left.
  - intros Ha Ha'. rewrite !bool_decide_eq_false_2 by done.
    intros [Heq|Hc]%str_app_inj_r%digest_inj; [|by right; eauto|done]. simplify_eq. by left.
  - intros r Hr. destruct (Validate r) as [[]|] eqn:E; [|done].
    apply Validate_Ok in E as (_ & _ & Hk). by rewrite Hr in Hk.
Qed.

Lemma StableKey_identity_witness :
  StableKeyForAdmission "u" "a" "b" ≠ StableKeyForAutomatic "u" "a" "b" ∧
  is_ok (Validate (mkRecord "" 0 ActionArtifactDownload DecisionAllowed "" "" (mkActor "" "" [])
    (mkResource "" "" "" "" "") "" "" "" "" 0)) = false.
Proof.
  destruct (StableKey_identity "u" "a" "b" "u" "a" "b") as (H1 & _ & _ & H2).
  split; [by apply H1|by apply H2].
Defined.

End AuditModel.
