(* ===== verification/AuditSink.v ===== *)
(** * The audit ledger, internal/audit/sink.go

    [Commit] is a program over the object store's calls.  A commit writes two objects, the claim of its stable key and the record the
    claim points at; nothing makes the pair atomic, so the theorems are about
    any interleaving of any number of commits.  [encode] and [decode] are the
    JSON of a record.  The error texts keep their fixed part; the sanitized
    cause that follows it is dropped. *)

From S2P Require Import Prelude GoTime GoString Sha256 Sanitize Prog Storage AuditModel.

Module AuditSink.
Import Storage AuditModel.

Definition indexInfix : str := "index/".
Definition recordInfix : str := "records/".

Record Sink := mkSink { sk_prefix : str; sk_retention : duration }.

(** [NewSink]'s checks and default. *)
Definition NewSink (prefix : str) (retention : duration) : result str Sink :=
  if retention <=? 0 then Err "audit sink requires a positive retention"
  else Ok (mkSink (if bool_decide (prefix = "") then DefaultPrefix else prefix) retention).

Record CommitResult := mkCommitResult {
  cr_Result : CommitOutcome;
  cr_LedgerKey : str;
  cr_CommittedAt : time;
}.

(** [time.Format] of the layout "20060102T150405.000000000Z" in UTC. *)
Definition stamp (t : time) : str :=
  let d := civil t in
  let ns := day_ns t in
  pad0 4 (dt_year d) +:+ pad0 2 (dt_month d) +:+ pad0 2 (dt_day d) +:+ "T" +:+
  pad0 2 (ns / hour) +:+ pad0 2 (ns / minute mod 60) +:+ pad0 2 (ns / second mod 60) +:+ "." +:+
  pad0 9 (ns mod second) +:+ "Z".

Definition indexKeyFor (s : Sink) (rec : Record_) : str :=
  sk_prefix s +:+ indexInfix +:+ Sanitize.DiagnosticHash (r_StableKey rec).

Definition recordKeyFor (s : Sink) (rec : Record_) : str :=
  sk_prefix s +:+ recordInfix +:+ stamp (r_RecordedAt rec) +:+ "-" +:+
  Sanitize.DiagnosticHash (r_StableKey rec) +:+ ".json".

Definition with_ledger (r : Record_) (recordedAt : time) (key : str) (committedAt : time)
    (version : str) : Record_ :=
  mkRecord version recordedAt (r_Action r) (r_Decision r) (r_Reason r) (r_Message r) (r_Actor r)
    (r_Resource r) (r_RequestID r) (r_StableKey r) (r_InitiatedBy r) key committedAt.

(** [rec.LedgerKey = key] *)
Definition set_key (r : Record_) (key : str) : Record_ :=
  with_ledger r (r_RecordedAt r) key (r_CommittedAt r) (r_SchemaVersion r).

(** The record a commit writes, before its key: sanitized and stamped. *)
Definition stamped (rec : Record_) (committedAt : time) : Record_ :=
  let rec := Sanitized rec in
  with_ledger rec (if is_zero (r_RecordedAt rec) then committedAt else r_RecordedAt rec)
    (r_LedgerKey rec) committedAt SchemaVersion.

Definition prepared (s : Sink) (rec : Record_) (committedAt : time) : Record_ :=
  let rec := stamped rec committedAt in set_key rec (recordKeyFor s rec).

(** The fields [sameAction] compares. *)
Definition action_of (r : Record_) : Record_ := with_ledger r 0 "" 0 (r_SchemaVersion r).

Section json.
Context (encode : Record_ → option str) (decode : str → option Record_).

Definition sameAction (a b : Record_) : bool :=
  match encode (action_of a), encode (action_of b) with
  | Some ab, Some bb => bool_decide (ab = bb)
  | _, _ => false
  end.

Abbreviation outcome := (CommitResult * option str)%type (only parsing).

Definition unresolved (r : CommitOutcome) (e : str) : outcome := (mkCommitResult r "" 0, Some e).

Definition writeRecord (s : Sink) (key body : str) (committedAt : time) (res : CommitOutcome) :
    prog storeE outcome :=
  let! put := call (Put key body
    (mkPutOptions false (t_add committedAt (sk_retention s)) "application/json" None 0)) in
  match put with
  | Err _ => Ret (unresolved ResultUnavailable "committing audit record")
  | Ok _ =>
      let! head := call (Head key) in
      match head with
      | Err _ => Ret (unresolved ResultUnavailable "audit record could not be verified after write")
      | Ok _ => Ret (mkCommitResult res key committedAt, None)
      end
  end.

Definition resolveExisting (s : Sink) (indexKey : str) (rec : Record_) (body : str)
    (committedAt : time) : prog storeE outcome :=
  let! pointer := call (Get indexKey) in
  match pointer with
  | Err _ => Ret (unresolved ResultUnavailable "reading audit stable-key claim")
  | Ok recordKey =>
      let! existingBytes := call (Get recordKey) in
      match existingBytes with
      | Err ErrNotFound =>
          match encode (set_key rec recordKey) with
          | None => Ret (unresolved ResultConflict "encoding audit record")
          | Some completed => writeRecord s recordKey completed committedAt ResultSuccess
          end
      | Err _ => Ret (unresolved ResultUnavailable "reading existing audit record")
      | Ok bytes =>
          match decode bytes with
          | None => Ret (unresolved ResultConflict "existing audit record is unreadable")
          | Some existing =>
              match decode body with
              | None => Ret (unresolved ResultConflict "decoding audit record")
              | Some candidate =>
                  if negb (sameAction existing candidate) then
                    Ret (unresolved ResultConflict
                      "audit record conflict: stable key already holds different content")
                  else Ret (mkCommitResult ResultRetry recordKey (r_CommittedAt existing), None)
              end
          end
      end
  end.

(** [Commit], its clock reading [committedAt] an argument. *)
Definition Commit (s : Sink) (committedAt : time) (rec : Record_) : prog storeE outcome :=
  match Validate (Sanitized rec) with
  | Err e => Ret (unresolved ResultConflict e)
  | Ok _ =>
      let indexKey := indexKeyFor s (stamped rec committedAt) in
      let recordKey := recordKeyFor s (stamped rec committedAt) in
      let rec := prepared s rec committedAt in
      match encode rec with
      | None => Ret (unresolved ResultConflict "encoding audit record")
      | Some body =>
          let! claim := call (Put indexKey recordKey
            (mkPutOptions true (t_add committedAt (sk_retention s)) "text/plain" None 0)) in
          match claim with
          | Ok _ => writeRecord s recordKey body committedAt ResultSuccess
          | Err ErrAlreadyExists => resolveExisting s indexKey rec body committedAt
          | Err _ => Ret (unresolved ResultUnavailable "claiming audit stable key")
          end
      end
  end.

(** ** Commits of one action, interleaved in any way

    The family is any set of attempts - first try, retries, other replicas -
    to record one action under one stable key. *)

Section family.
Context {S : Type} {good : S → Prop} {step : ∀ X, storeE X → S → X → S → Prop}
  {bodies : S → gmap string string} `{!StoreLaws good step bodies}.
Context (sk : Sink) (action : str) (K : str) (attempts : list (time * Record_)).

Definition ikey : str := sk_prefix sk +:+ indexInfix +:+ Sanitize.DiagnosticHash K.

(** The keys the record may end up under. *)
Definition record_keys : list str :=
  (λ '(t, r), recordKeyFor sk (stamped r t)) <$> attempts.

(** The encoder accepts the record under any of these keys, and what it writes
    is read back as it was. *)
Definition codec_ok (t : time) (r : Record_) : Prop :=
  ∀ key body, key ∈ record_keys → encode (set_key (stamped r t) key) = Some body →
    decode body = Some (set_key (stamped r t) key).

Definition attempt_ok (t : time) (r : Record_) : Prop :=
  r_StableKey r = K ∧ encode (action_of (stamped r t)) = Some action ∧ codec_ok t r.

(** Bytes that decode to this action. *)
Definition records_action (body : str) : Prop :=
  ∃ e, decode body = Some e ∧ encode (action_of e) = Some action.

Definition ledger_inv (c : gmap string string) : Prop :=
  (∀ rk, c !! ikey = Some rk → rk ∈ record_keys) ∧
  (∀ rk body, rk ∈ record_keys → c !! rk = Some body → records_action body).

(** What every commit of the family - and anything else that keeps the
    invariant - may do meanwhile. *)
Definition ledger_le (c c' : gmap string string) : Prop :=
  (∀ rk, c !! ikey = Some rk → c' !! ikey = Some rk) ∧
  (∀ rk, rk ∈ record_keys → c !! rk ≠ None → c' !! rk ≠ None).

Definition rely (s s' : S) : Prop :=
  good s ∧ ledger_inv (bodies s) → good s' ∧ ledger_inv (bodies s') ∧ ledger_le (bodies s) (bodies s').

#[local] Instance ledger_le_preorder : PreOrder ledger_le.
Proof.
  split.
  - by intros c.
  - intros c1 c2 c3 [H1 H2] [H3 H4]. split; [auto|]. intros rk Hrk Hne. apply H4, H2; done.
Qed.

#[local] Instance rely_preorder : PreOrder rely.
Proof.
  split.
  - intros s [? ?]. by split_and!.
  - intros s1 s2 s3 H12 H23 H1. destruct (H12 H1) as (Hg & Hi & Hle).
    destruct (H23 (conj Hg Hi)) as (? & ? & Hle'). split_and!; [done..|by etrans].
Qed.

(** What an acknowledged commit leaves in the ledger. *)
Definition committed (o : CommitResult * option str) (s : S) : Prop :=
  o.2 = None →
  bodies s !! ikey = Some (cr_LedgerKey o.1) ∧ cr_LedgerKey o.1 ∈ record_keys ∧
  ∃ body, bodies s !! cr_LedgerKey o.1 = Some body ∧ records_action body.

Definition stable_safe {A} (p : prog storeE A) (Q : A → S → Prop) (s : S) : Prop :=
  safe step rely p Q s.

Lemma key_apart rk : rk ∈ record_keys → rk ≠ ikey.
Proof.
  unfold record_keys, ikey, recordKeyFor. intros ([t r] & -> & _)%list_elem_of_fmap.
  intros H%str_app_inj_r. discriminate.
Qed.

Lemma attempt_key t r : (t, r) ∈ attempts → recordKeyFor sk (stamped r t) ∈ record_keys.
Proof. intros Hin. apply list_elem_of_fmap. by exists (t, r). Qed.

Lemma attempt_body t r key body :
  attempt_ok t r → key ∈ record_keys → encode (set_key (stamped r t) key) = Some body →
  records_action body.
Proof. intros (_ & Ha & Hc) Hk Hb. exists (set_key (stamped r t) key). by rewrite (Hc key body). Qed.

Lemma rely_same s s' :
  (good s → good s') → bodies s' = bodies s → rely s s'.
Proof. intros Hg E [Hs Hi]. rewrite E. by split_and!; [apply Hg|..]. Qed.

Lemma stable_ret (o : CommitResult * option str) s :
  good s → ledger_inv (bodies s) → committed o s → stable_safe (Ret o) committed s.
Proof.
  intros Hg Hi Hc s1 HR. destruct (HR (conj Hg Hi)) as (_ & Hi1 & Hl & Hr). intros He.
  destruct (Hc He) as (Hk & Hin & body & Hb & _).
  assert (bodies s1 !! cr_LedgerKey o.1 ≠ None) as Hne by (apply Hr; [done|by rewrite Hb]).
  destruct (bodies s1 !! cr_LedgerKey o.1) as [body'|] eqn:E; [|done].
  split_and!; [by apply Hl|done|]. exists body'. split; [done|]. by eapply Hi1.
Qed.

Lemma stable_err e r s : stable_safe (Ret (unresolved r e)) committed s.
Proof. by intros s1 _. Qed.

Lemma writeRecord_safe key body t res s :
  good s → ledger_inv (bodies s) → bodies s !! ikey = Some key → key ∈ record_keys →
  records_action body → stable_safe (writeRecord sk key body t res) committed s.
Proof.
  intros Hg Hi Hix Hk Hb s1 HR1. destruct (HR1 (conj Hg Hi)) as (Hg1 & Hi1 & Hl1 & _).
  apply Hl1 in Hix. intros put s2 Hst. destruct (store_keeps _ _ _ _ _ Hg1 Hst) as [Hsp Hg2].
  assert (ledger_inv (<[key := body]> (bodies s1))) as Hins.
  { split.
    - intros rk. rewrite lookup_insert_ne by (by apply key_apart). apply Hi1.
    - intros rk b Hrk [[<- <-]|[_ Hlk]]%lookup_insert_Some; [done|by eapply Hi1]. }
  assert (rely s1 s2) as HR2.
  { intros _. split; [done|]. simpl in Hsp.
    assert (bodies s2 = bodies s1 ∨ bodies s2 = <[key := body]> (bodies s1)) as [E|E]
      by (destruct put as [|[]]; naive_solver); rewrite E.
    - by split_and!.
    - split; [done|]. split.
      + intros rk. by rewrite lookup_insert_ne by (by apply key_apart).
      + intros rk _ Hne. destruct (decide (rk = key)) as [->|]; [by rewrite lookup_insert_eq|].
        by rewrite lookup_insert_ne. }
  split; [done|]. destruct put as [info|err]; [|apply stable_err].
  destruct Hsp as (_ & _ & E2). simpl.
  assert (bodies s2 !! ikey = Some key ∧ bodies s2 !! key = Some body) as [Hx2 Hk2].
  { rewrite E2, lookup_insert_eq, lookup_insert_ne by (by apply key_apart). done. }
  assert (ledger_inv (bodies s2)) as Hi2 by by rewrite E2.
  intros s3 HR3. destruct (HR3 (conj Hg2 Hi2)) as (Hg3 & Hi3 & Hl3 & Hr3).
  intros head s4 Hst4. destruct (store_keeps _ _ _ _ _ Hg3 Hst4) as [[E4 _] Hg4].
  split; [by apply rely_same|]. destruct head as [info'|err']; [|apply stable_err].
  apply stable_ret; [done|by rewrite E4|]. intros _. rewrite E4. simpl.
  assert (bodies s3 !! key ≠ None) as Hne by (apply Hr3; [done|by rewrite Hk2]).
  destruct (bodies s3 !! key) as [b3|] eqn:E3; [|done].
  split_and!; [by apply Hl3|done|]. exists b3. split; [done|]. by eapply Hi3.
Qed.

Lemma resolveExisting_safe t r body s :
  good s → ledger_inv (bodies s) → bodies s !! ikey ≠ None → attempt_ok t r →
  stable_safe (resolveExisting sk ikey (prepared sk r t) body t) committed s.
Proof.
  intros Hg Hi Hix Hok s1 HR1. destruct (HR1 (conj Hg Hi)) as (Hg1 & Hi1 & Hl1 & _).
  apply option_not_None in Hix as [rk Erk]. apply Hl1 in Erk.
  intros pointer s2 Hst. destruct (store_keeps _ _ _ _ _ Hg1 Hst) as [[E2 Hp] Hg2].
  split; [by apply rely_same|]. destruct pointer as [rk'|err]; [|apply stable_err].
  rewrite Erk in Hp. simplify_eq. assert (rk' ∈ record_keys) as Hin by by apply Hi1.
  rewrite <-E2 in Erk, Hi1.
  intros s3 HR3. destruct (HR3 (conj Hg2 Hi1)) as (Hg3 & Hi3 & Hl3 & _). apply Hl3 in Erk.
  intros existing s4 Hst4. destruct (store_keeps _ _ _ _ _ Hg3 Hst4) as [[E4 Hx] Hg4].
  split; [by apply rely_same|]. rewrite <-E4 in Erk, Hi3.
  destruct existing as [bytes|[| |msg]]; [|apply stable_err| |apply stable_err].
  - simpl. destruct (decode bytes) as [ex|] eqn:Ed; [|apply stable_err].
    destruct (decode body) as [cand|]; [|apply stable_err].
    destruct (sameAction ex cand); simpl; [|apply stable_err].
    apply stable_ret; [done..|]. intros _. simpl. split_and!; [done|done|].
    exists bytes. rewrite E4. split; [done|]. eapply Hi3; [done|]. by rewrite E4.
  - simpl. change (set_key (prepared sk r t) rk') with (set_key (stamped r t) rk').
    destruct (encode (set_key (stamped r t) rk')) as [completed|] eqn:Ec; [|apply stable_err].
    apply writeRecord_safe; try done. by eapply attempt_body.
Qed.

Lemma Commit_safe t r s :
  (t, r) ∈ attempts → attempt_ok t r → good s → ledger_inv (bodies s) →
  stable_safe (Commit sk t r) committed s.
Proof.
  intros Hin Hok Hg Hi. unfold Commit.
  destruct (Validate (Sanitized r)) as [[]|e]; [|apply stable_err].
  assert (indexKeyFor sk (stamped r t) = ikey) as -> by (unfold ikey; by rewrite <-(proj1 Hok)).
  destruct (encode (prepared sk r t)) as [body|] eqn:Eb; [|apply stable_err].
  pose proof (attempt_key t r Hin) as Hkey.
  assert (records_action body) as Hbody by (by eapply attempt_body).
  set (rk := recordKeyFor sk (stamped r t)) in *.
  intros s1 HR1. destruct (HR1 (conj Hg Hi)) as (Hg1 & Hi1 & _ & _).
  intros claim s2 Hst. destruct (store_keeps _ _ _ _ _ Hg1 Hst) as [Hsp Hg2]. simpl in Hsp.
  assert (bodies s1 !! ikey = None → ledger_inv (<[ikey := rk]> (bodies s1)) ∧
    ledger_le (bodies s1) (<[ikey := rk]> (bodies s1))) as Hins.
  { intros Hnone. split; split.
    - intros rk'. rewrite lookup_insert_eq. by intros [= <-].
    - intros rk' b Hrk'. rewrite lookup_insert_ne by (by apply not_eq_sym, key_apart). by apply Hi1.
    - intros rk'. by rewrite Hnone.
    - intros rk' Hrk'. by rewrite lookup_insert_ne by (by apply not_eq_sym, key_apart). }
  unfold absent_if in Hsp. simpl in Hsp. destruct claim as [info|[| |msg]].
  - destruct Hsp as (Hnone & _ & E2). specialize (Hnone eq_refl). destruct (Hins Hnone).
    split; [intros _; by rewrite E2|]. apply writeRecord_safe; try done; rewrite E2; [done|].
    by rewrite lookup_insert_eq.
  - destruct Hsp as (_ & Hne & E2). split; [by apply rely_same|].
    apply resolveExisting_safe; try done; by rewrite E2.
  - done.
  - split; [|apply stable_err]. destruct Hsp as [E2|[Hnone E2]]; [by apply rely_same|].
    destruct (Hins (Hnone eq_refl)). intros _. by rewrite E2.
Qed.

(** C18: Commits of one action - retries, other replicas, a retry that races its
    original - interleaved call by call in any way, over any store that keeps
    its promise and may fail or lose any call.  A commit is acknowledged only
    once the claim of its stable key points at the key it returns and a record
    of exactly this action is stored there; so all that are acknowledged agree
    on the one record, and nothing they do later takes it back. *)
Theorem concurrent_commits s0 ps s i o :
  (∀ t r, (t, r) ∈ attempts → attempt_ok t r) →
  good s0 → ledger_inv (bodies s0) →
  rtc (pool_step step) (uncurry (Commit sk) <$> attempts, s0) (ps, s) →
  ps !! i = Some (Ret o) → o.2 = None →
  bodies s !! ikey = Some (cr_LedgerKey o.1) ∧ cr_LedgerKey o.1 ∈ record_keys ∧
  ∃ body, bodies s !! cr_LedgerKey o.1 = Some body ∧ records_action body.
Proof.
  intros Hok Hg Hi Hsteps Hps.
  destruct (pool_safe step rely committed _ _ _ _ Hsteps) as [Hall _].
  - apply Forall_fmap, Forall_forall. intros [t r] Hin. simpl. apply Commit_safe; auto.
  - rewrite Forall_lookup in Hall. exact (safe_ret step rely o _ _ (Hall i _ Hps)).
Qed.

End family.

(** *** A claimed identity

    Once a record is stored under a claim, a commit of different content under
    the same identity is refused, and changes nothing. *)
Section claimed.
Context {S : Type} {good : S → Prop} {step : ∀ X, storeE X → S → X → S → Prop}
  {bodies : S → gmap string string} `{!StoreLaws good step bodies}.

Lemma Commit_claimed sk t rec s rk body existing :
  good s →
  bodies s !! indexKeyFor sk (stamped rec t) = Some rk → bodies s !! rk = Some body →
  decode body = Some existing →
  (∀ b candidate, encode (prepared sk rec t) = Some b → decode b = Some candidate →
     sameAction existing candidate = false) →
  wp step (Commit sk t rec) (λ o s', o.2 ≠ None ∧ bodies s' = bodies s) s.
Proof.
  intros Hg Hi Hr Hd Hdiff. unfold Commit. destruct (Validate _); [|done].
  destruct (encode (prepared sk rec t)) as [b|] eqn:Eb; [|done].
  intros claim s1 Hst. destruct (store_keeps _ _ _ _ _ Hg Hst) as [Hspec Hg1]. cbn in Hspec.
  destruct claim as [info|[| |text]].
  - destruct Hspec as (Habs & _). unfold absent_if in Habs. rewrite Habs in Hi; done.
  - destruct Hspec as (_ & _ & E1). unfold resolveExisting.
    intros pointer s2 Hst2. destruct (store_keeps _ _ _ _ _ Hg1 Hst2) as [[E2 Hp] Hg2].
    destruct pointer as [rk'|[]]; try (split; [done|congruence]).
    rewrite E1, Hi in Hp. injection Hp as <-.
    intros bytes s3 Hst3. destruct (store_keeps _ _ _ _ _ Hg2 Hst3) as [[E3 Hb] _].
    destruct bytes as [bytes|[]]; try (split; [done|congruence]); [|by rewrite E2, E1, Hr in Hb].
    rewrite E2, E1, Hr in Hb. simplify_eq. cbn. rewrite Hd.
    destruct (decode b) as [candidate|] eqn:Ec; [|split; [done|congruence]].
    rewrite (Hdiff b candidate eq_refl Ec). split; [done|congruence].
  - done.
  - destruct Hspec as [E|[Habs _]]; [split; [done|exact E]|].
    unfold absent_if in Habs. rewrite Habs in Hi; done.
Qed.
End claimed.

End json.
(** ** Two different actions under one stable key *)

Definition example_record (message : str) : Record_ :=
  mkRecord "" 0 ActionCaptureJobTransition DecisionSucceeded "" message
    (mkActor "" "" []) (mkResource "" "" "" "" "") "" "automatic/k" "" "" 0.

(** A codec that keeps the message only. *)
Definition message_encode (r : Record_) : option str := Some (r_Message r).
Definition message_decode (s : str) : option Record_ := Some (example_record s).

Definition example_sink : Sink := mkSink "audit/" hour.

(** The claim of the first commit, then the second commit from start to end -
    it finds the claim, no record behind it, and completes it - and then the
    rest of the first. *)
Definition crossing : list nat := [0; 1; 1; 1; 1; 1; 0; 0]%nat.

Definition crossed : list (prog storeE (CommitResult * option str)) * Fake :=
  run_schedule fake_handle crossing
    [Commit message_encode message_decode example_sink 1 (example_record "first");
     Commit message_encode message_decode example_sink 2 (example_record "second")] (NewFake 0).

(** The claim alone does not decide between different actions.  Two commits
    of different content under one stable key, run one after the other, end in
    a conflict; interleaved so that the second meets the claim before the
    record is written, both are acknowledged as successes under one key, and
    the record of the second is overwritten by the first. *)
Theorem conflicting_commits_lost :
  rtc (pool_step (handles fake_handle))
    ([Commit message_encode message_decode example_sink 1 (example_record "first");
      Commit message_encode message_decode example_sink 2 (example_record "second")], NewFake 0)
    crossed ∧
  (∃ o1 o2, crossed.1 = [Ret (o1, None); Ret (o2, None)] ∧
     cr_Result o1 = ResultSuccess ∧ cr_Result o2 = ResultSuccess ∧
     cr_LedgerKey o1 = cr_LedgerKey o2 ∧
     fake_bodies crossed.2 !! cr_LedgerKey o2 = Some "first") ∧
  sameAction message_encode (example_record "first") (example_record "second") = false ∧
  (run fake_handle (Commit message_encode message_decode example_sink 2 (example_record "second"))
     (run fake_handle (Commit message_encode message_decode example_sink 1 (example_record "first"))
        (NewFake 0)).2).1 =
    (unresolved ResultConflict "audit record conflict: stable key already holds different content").
Proof.
  split; [apply run_schedule_steps|]. split; [|split; [reflexivity|vm_compute; reflexivity]].
  eexists _, _. split; [vm_compute; reflexivity|]. split_and!; vm_compute; reflexivity.
Qed.

(** ** Key order is the order of the recording times *)

(** Hours, minutes, seconds and nanoseconds of a time of day. *)
Definition clock (n : Z) : Z * Z * Z * Z :=
  (n / hour, n / minute mod 60, n / second mod 60, n mod second).

Lemma clock_parts n :
  0 ≤ n < day → let '(h, m, s, f) := clock n in
  n = ((h * 60 + m) * 60 + s) * second + f ∧
  0 ≤ h < 24 ∧ 0 ≤ m < 60 ∧ 0 ≤ s < 60 ∧ 0 ≤ f < second.
Proof.
  intros Hn. unfold clock.
  assert (n / minute = n / second / 60) as Em by (rewrite Z.div_div by done; reflexivity).
  assert (n / hour = n / minute / 60) as Eh by (rewrite Z.div_div by done; reflexivity).
  pose proof (Z.div_mod n second ltac:(done)). pose proof (Z.mod_pos_bound n second ltac:(done)).
  pose proof (Z.div_mod (n / second) 60 ltac:(done)). pose proof (Z.mod_pos_bound (n / second) 60 ltac:(done)).
  pose proof (Z.div_mod (n / minute) 60 ltac:(done)). pose proof (Z.mod_pos_bound (n / minute) 60 ltac:(done)).
  assert (n / hour < 24) by (apply Z.div_lt_upper_bound; [done|]; change day with (hour * 24) in Hn; lia).
  pose proof (Z.div_pos n hour ltac:(lia) ltac:(done)). rewrite <-Em in *. rewrite <-Eh in *.
  split_and!; try lia.
Qed.

Lemma stamp_ltb t1 t2 r1 r2 :
  0 ≤ t1 < t2 → dt_year (civil t2) < 10000 →
  str_ltb (stamp t1 +:+ r1) (stamp t2 +:+ r2) = true.
Proof.
  intros Ht Hy2. pose proof (civil_ok t1) as [M1 D1]. pose proof (civil_ok t2) as [M2 D2].
  pose proof (civil_year_nonneg t1 ltac:(lia)) as Y1.
  assert (0 < day) as Hday by done.
  pose proof (clock_parts (day_ns t1) (Z.mod_pos_bound t1 day Hday)) as C1.
  pose proof (clock_parts (day_ns t2) (Z.mod_pos_bound t2 day Hday)) as C2.
  assert (date_ltb (civil t1) (civil t2) = true ∨ civil t1 = civil t2 ∧ day_ns t1 < day_ns t2) as Hlt.
  { pose proof (Z.div_le_mono t1 t2 day Hday ltac:(lia)).
    destruct (Z.eq_dec (t1 / day) (t2 / day)) as [E|]; [right|left; apply civil_mono; lia].
    split; [unfold civil; by rewrite E|]. unfold day_ns. rewrite !Z.mod_eq by done. rewrite E. lia. }
  rewrite date_ltb_lt in Hlt. unfold month_index in Hlt.
  assert (dt_year (civil t1) ≤ dt_year (civil t2)) as Hyle by (destruct Hlt as [?|[-> _]]; lia).
  unfold clock in C1, C2. destruct C1 as (E1 & H1 & I1 & S1 & F1). destruct C2 as (E2 & H2 & I2 & S2 & F2).
  unfold stamp. rewrite !str_app_assoc. change second with 1000000000 in *.
  rewrite (pad0_ltb 4) by (change (10 ^ Z.of_nat 4) with 10000; lia).
  rewrite (pad0_ltb 2) by (change (10 ^ Z.of_nat 2) with 100; lia).
  rewrite (pad0_ltb 2) by (change (10 ^ Z.of_nat 2) with 100; lia). rewrite str_ltb_app.
  rewrite !(pad0_ltb 2) by (change (10 ^ Z.of_nat 2) with 100; lia). rewrite str_ltb_app.
  rewrite (pad0_ltb 9) by (change (10 ^ Z.of_nat 9) with 1000000000; lia).
  clear -Hlt Hyle M1 M2 E1 E2 H1 H2 I1 I2 S1 S2 F1 F2.
  destruct Hlt as [Hlt|[-> Hlt]]; lia.
Qed.

(** The key order replay relies on is chronological: of two records, the one
    recorded earlier has the smaller key, whatever their stable keys, in any
    year Go writes with four digits. *)
Theorem ledger_chronological sk a b :
  0 ≤ r_RecordedAt a < r_RecordedAt b → dt_year (civil (r_RecordedAt b)) < 10000 →
  str_ltb (recordKeyFor sk a) (recordKeyFor sk b) = true.
Proof. intros Ht Hy. unfold recordKeyFor. rewrite !str_ltb_app. by apply stamp_ltb. Qed.

(** *** Witnesses *)

Definition one_attempt : list (time * Record_) := [(1, example_record "first")].
Definition one_decode (s : str) : option Record_ := Some (prepared example_sink (example_record "first") 1).

Lemma concurrent_commits_witness :
  let '(ps, s) := run_schedule fake_handle [0; 0; 0]%nat
    (uncurry (Commit message_encode one_decode example_sink) <$> one_attempt) (NewFake 0) in
  ∃ o, ps !! 0%nat = Some (Ret o) ∧ o.2 = None ∧
    fake_bodies s !! ikey example_sink "automatic/k" = Some (cr_LedgerKey o.1).
Proof.
  destruct (run_schedule _ _ _ _) as [ps s] eqn:Erun.
  assert (∃ o, ps !! 0%nat = Some (Ret o) ∧ o.2 = None) as (o & Hps & Ho).
  { apply (f_equal fst) in Erun. simpl fst in Erun at 2. rewrite <-Erun. vm_compute. eauto. }
  exists o. split; [done|]. split; [done|].
  apply (concurrent_commits message_encode one_decode (bodies := fake_bodies) (good := honest)
    example_sink "first" "automatic/k" one_attempt (NewFake 0) ps s 0 o); try done.
  - intros t r Hin. apply list_elem_of_singleton in Hin as [= -> ->]. split_and!; [done|done|].
    intros key body Hkey _. apply list_elem_of_singleton in Hkey as ->. done.
  - rewrite <-Erun. apply run_schedule_steps.
Defined.

Lemma ledger_chronological_witness :
  str_ltb (recordKeyFor example_sink (stamped (example_record "b") 1)) (recordKeyFor example_sink (stamped (example_record "a") hour)) = true.
Proof. apply ledger_chronological; [split; vm_compute; done|vm_compute; done]. Defined.

End AuditSink.
