(* ===== verification/AuditReplay.v ===== *)
(** * Audit replay, the rest of internal/audit/sink.go and internal/audit/replayer.go

    A sweep forwards the ledger's records to the searchable stream in key
    order, a page at a time, and saves a cursor after each page.  [ReplayBatch]
    is one page; [Replay] is the loop.  The theorems are about a ledger nobody
    writes to meanwhile, any call of which may fail, and about the key order
    itself: what a record committed behind the cursor meets.  [decode] is the
    JSON of a record. *)

From S2P Require Import Prelude GoTime GoString Sha256 Sanitize Prog Storage AuditModel AuditSink.

Module AuditReplay.
Import Storage AuditModel AuditSink.

Section json.
Context (decode : str → option Record_).

Inductive replay_error :=
  | ReplayLimit
  | ReplayListing
  | ReplayRead (key : str)
  | ReplayDecode (key : str)
  | ReplayForward.

Record ReplayBacklog := mkReplayBacklog { rb_Objects : Z; rb_Oldest : time }.

Record ReplayBatchResult := mkReplayBatchResult {
  rbr_Delivered : Z;
  rbr_LastDelivered : str;
  rbr_Backlog : option ReplayBacklog;
  rbr_NextStart : str;
}.

Definition beyondCursor (objects : list ObjectInfo) (cursor : str) : list ObjectInfo :=
  match objects with
  | o :: rest =>
      if negb (bool_decide (cursor = "")) && bool_decide (oi_Key o = cursor) then rest else objects
  | [] => []
  end.

Definition exactReplayBacklog (objects : list ObjectInfo) (next : str) : option ReplayBacklog :=
  if negb (bool_decide (next = "")) then None else
  match objects with
  | [] => Some (mkReplayBacklog 0 0)
  | o :: rest => Some (mkReplayBacklog (Z.of_nat (length objects))
      (foldl (λ oldest o, if t_before (oi_LastModified o) oldest then oi_LastModified o else oldest)
        (oi_LastModified o) rest))
  end.

(** The stream records are delivered to and the place the cursor is kept are
    other services: a sweep makes store calls, deliveries, and loads and saves
    of the cursor.  An answer of false or None is that service's error. *)
Inductive replayE : Type → Type :=
  | Store {X} (e : storeE X) : replayE X
  | Deliver (rec : Record_) : replayE bool
  | LoadCursor : replayE (option str)
  | SaveCursor (cursor : str) : replayE bool.

(** The loop over the page, with the deliveries made so far. *)
Fixpoint replay_loop (objects : list ObjectInfo) (next : str) (delivered : Z) (last : str) :
    prog replayE (ReplayBatchResult * option replay_error) :=
  let stop e := Ret (mkReplayBatchResult delivered last (exactReplayBacklog objects next) next, e) in
  match objects with
  | [] => stop None
  | obj :: rest =>
      let! body := call (Store (Get (oi_Key obj))) in
      match body with
      | Err _ => stop (Some (ReplayRead (oi_Key obj)))
      | Ok body =>
          match decode body with
          | None => stop (Some (ReplayDecode (oi_Key obj)))
          | Some rec =>
              let! accepted := call (Deliver rec) in
              if negb accepted then stop (Some ReplayForward)
              else replay_loop rest next (delivered + 1) (oi_Key obj)
          end
      end
  end.

(** How much of a listed page one batch examines, and the key after it. *)
Definition batch_window (page : ListPage) (cursor : str) (limit : Z) : list ObjectInfo * str :=
  let objects := beyondCursor (lp_Objects page) cursor in
  match objects !! Z.to_nat limit with
  | Some o => (take (Z.to_nat limit) objects, oi_Key o)
  | None => (objects, lp_NextStart page)
  end.

Definition ReplayBatch (s : Sink) (cursor : str) (limit : Z) :
    prog replayE (ReplayBatchResult * option replay_error) :=
  if limit <=? 0 then Ret (mkReplayBatchResult 0 "" None "", Some ReplayLimit) else
  let! page := call (Store (ListPageE (sk_prefix s +:+ recordInfix) cursor (limit + 1))) in
  match page with
  | Err _ => Ret (mkReplayBatchResult 0 "" None "", Some ReplayListing)
  | Ok page =>
      let '(objects, next) := batch_window page cursor limit in
      replay_loop objects next 0 ""
  end.


(** ** The sweep *)

Record ReplayOutcome := mkReplayOutcome {
  ro_Delivered : Z;
  ro_LastDelivered : str;
  ro_PersistedCursor : str;
  ro_Backlog : option ReplayBacklog;
  ro_replayErr : option replay_error;
  ro_cursorErr : bool;
}.

Definition DefaultReplayBatchSize : Z := 500.

(** [NewReplayer]'s default for the batch size. *)
Definition replayer_batchSize (requested : Z) : Z :=
  if requested <=? 0 then DefaultReplayBatchSize else requested.

(** The loop of [Replay] over batches, at most [fuel] of them. *)
Fixpoint Replay_loop (fuel : nat) (s : Sink) (batchSize : Z) (persisted : str) (delivered : Z)
    (last : str) : prog replayE (option ReplayOutcome) :=
  match fuel with
  | O => Ret None
  | S fuel =>
      let! res := ReplayBatch s persisted batchSize in
      let '(batch, err) := res in
      let delivered := delivered + rbr_Delivered batch in
      let last := if negb (bool_decide (rbr_LastDelivered batch = "")) then rbr_LastDelivered batch
                  else last in
      let continue (persisted : str) : prog replayE (option ReplayOutcome) :=
        if is_Some_b err then
          Ret (Some (mkReplayOutcome delivered last persisted (rbr_Backlog batch) err false))
        else if bool_decide (rbr_NextStart batch = "") then
          Ret (Some (mkReplayOutcome delivered last persisted (rbr_Backlog batch) None false))
        else Replay_loop fuel s batchSize persisted delivered last in
      if negb (bool_decide (rbr_LastDelivered batch = "")) &&
         negb (bool_decide (rbr_LastDelivered batch = persisted)) then
        let! saved := call (SaveCursor (rbr_LastDelivered batch)) in
        if negb saved then Ret (Some (mkReplayOutcome delivered last persisted None None true))
        else continue (rbr_LastDelivered batch)
      else continue persisted
  end.

Definition Replay (fuel : nat) (s : Sink) (batchSize : Z) : prog replayE (option ReplayOutcome) :=
  let! cursor := call LoadCursor in
  match cursor with
  | None => Ret (Some (mkReplayOutcome 0 "" "" None None true))
  | Some cursor => Replay_loop fuel s batchSize cursor 0 ""
  end.

(** ** Pages *)

Definition record_prefix (sk : Sink) : str := sk_prefix sk +:+ recordInfix.

(** The ledger keys a sweep from the cursor has to forward, in order. *)
Definition unforwarded (sk : Sink) (cursor : str) (c : gmap string string) : list str :=
  after (record_prefix sk) cursor (keys_of c).

(** The ledger keys after the cursor, in order. *)
Definition beyond (keys : list str) (cursor : str) : list str :=
  match keys with
  | k :: rest => if negb (bool_decide (cursor = "")) && bool_decide (k = cursor) then rest else keys
  | [] => []
  end.

Lemma beyondCursor_keys objects cursor :
  oi_Key <$> beyondCursor objects cursor = beyond (oi_Key <$> objects) cursor.
Proof. destruct objects as [|o rest]; [done|]. simpl. by destruct (_ && _). Qed.

Lemma batch_window_keys page cursor limit keys :
  0 < limit → oi_Key <$> lp_Objects page = take (Z.to_nat (limit + 1)) keys →
  lp_NextStart page = default "" (keys !! Z.to_nat (limit + 1)) →
  oi_Key <$> (batch_window page cursor limit).1 = take (Z.to_nat limit) (beyond keys cursor) ∧
  (batch_window page cursor limit).2 = default "" (beyond keys cursor !! Z.to_nat limit).
Proof.
  intros Hl Ho Hn. unfold batch_window.
  assert (Z.to_nat (limit + 1) = S (Z.to_nat limit)) as Hsucc by lia. rewrite Hsucc in *.
  set (n := Z.to_nat limit) in *. assert (0 < n)%nat as Hpos by lia.
  set (objs := beyondCursor (lp_Objects page) cursor) in *.
  pose proof (beyondCursor_keys (lp_Objects page) cursor) as Hb. rewrite Ho in Hb. fold objs in Hb.
  assert (objs !! n = None ∨ ∃ o, objs !! n = Some o) as Hcase by (destruct (objs !! n); eauto).
  assert ((oi_Key <$> objs) !! n = oi_Key <$> objs !! n) as Hlk by apply list_lookup_fmap.
  destruct keys as [|k keys]; simpl in Hb.
  { destruct Hcase as [E|(o & E)]; rewrite E; [|by rewrite Hb, E in Hlk]. simpl. by rewrite Hb, Hn, !take_nil. }
  unfold beyond. destruct (negb _ && _) eqn:Ec.
  - rewrite Hb in Hlk. rewrite lookup_take_ge in Hlk by lia.
    destruct Hcase as [E|(o & E)]; rewrite E in *; [|done]. simpl. by rewrite Hb, Hn.
  - destruct Hcase as [E|(o & E)]; rewrite E in *; simpl.
    + rewrite Hb, Hn. rewrite Hb in Hlk. destruct n as [|n']; [lia|].
      change (take (S n') keys !! n' = None) in Hlk. rewrite lookup_take_lt in Hlk by lia.
      change (k :: take (S n') keys = k :: take n' keys ∧
        default "" (keys !! S n') = default "" (keys !! n')).
      pose proof (lookup_ge_None_1 _ _ Hlk) as Hge.
      rewrite Hlk, (lookup_ge_None_2 keys (S n')) by lia. by rewrite !take_ge by lia.
    + rewrite fmap_take, Hb. rewrite Hb in Hlk. destruct n as [|n']; [lia|].
      change (take (S n') keys !! n' = Some (oi_Key o)) in Hlk.
      rewrite lookup_take_lt in Hlk by lia. simpl. rewrite Hlk. split; [|done]. f_equal.
      rewrite take_take. f_equal. lia.
Qed.


(** Listing from a cursor and dropping the cursor's own object is the strict
    suffix of the order. *)
Lemma beyond_listing prefix cursor keys :
  prefix ≠ "" → NoDup keys →
  beyond (listing prefix cursor keys) cursor = after prefix cursor keys.
Proof.
  intros Hp Hnd. unfold listing, after, in_listing. rewrite (bool_decide_eq_false_2 (prefix = "")) by done.
  pose proof (sort_keys_sorted _ Hnd) as Hs. simpl.
  assert (∀ k, has_prefix k prefix = true → k ≠ "") as Hne by (intros [] ?; [by destruct prefix|done]).
  case_bool_decide as Hc; simpl.
  - subst cursor. clear Hs. unfold beyond. rewrite bool_decide_eq_true_2 by done. simpl.
    trans (List.filter (λ k, has_prefix k prefix && true) (sort_keys keys)); [by destruct (List.filter _ _)|].
    induction (sort_keys keys) as [|k l IH]; [done|]. simpl.
    destruct (has_prefix k prefix) eqn:E; simpl; [|done].
    rewrite str_ltb_empty by by apply Hne. by f_equal.
  - induction Hs as [|k l Hs IH Hk]; [done|]. simpl.
    destruct (has_prefix k prefix) eqn:E; simpl; [|done].
    destruct (decide (k = cursor)) as [->|Hkc].
    + rewrite str_ltb_irrefl. simpl. rewrite (bool_decide_eq_true_2 (cursor = cursor)), (bool_decide_eq_false_2 (cursor = "")) by done. simpl.
      clear -Hk. induction Hk as [|x l Hx _ IH]; [done|]. simpl. apply Is_true_true_1 in Hx.
      rewrite (str_ltb_flip cursor x), Hx, IH; [done|]. intros ->. by rewrite str_ltb_irrefl in Hx.
    + rewrite (str_ltb_flip k cursor) by done. destruct (str_ltb k cursor) eqn:Ekc; simpl; [done|].
      rewrite (bool_decide_eq_false_2 (k = cursor)), andb_false_r by done. f_equal.
      assert (str_ltb cursor k = true) as Hck by (rewrite (str_ltb_flip k cursor), Ekc; done).
      clear -Hk Hck. induction Hk as [|x l Hx _ IH]; [done|]. simpl. apply Is_true_true_1 in Hx.
      assert (str_ltb cursor x = true) as Hcx by by eapply str_ltb_trans.
      rewrite (str_ltb_flip cursor x), Hcx, IH; [done|]. intros ->. by rewrite str_ltb_irrefl in Hcx.
Qed.

(** ** A ledger nobody writes to meanwhile *)

Section static.
Context {S : Type} {good : S → Prop} {step : ∀ X, storeE X → S → X → S → Prop}
  {bodies : S → gmap string string} `{!StoreLaws good step bodies}.

(** The store, what the stream accepted, the cursor kept. *)
Record world := mkWorld { w_store : S; w_log : list Record_; w_cursor : str }.

(** Any call may fail; a failed save may have taken effect. *)
Definition replay_step (X : Type) (e : replayE X) (w : world) : X → world → Prop :=
  match e with
  | Store e => λ x w', step _ e (w_store w) x (w_store w') ∧
      w_log w' = w_log w ∧ w_cursor w' = w_cursor w
  | Deliver rec => λ accepted w', w_store w' = w_store w ∧ w_cursor w' = w_cursor w ∧
      w_log w' = w_log w ++ (if accepted : bool then [rec] else [])
  | LoadCursor => λ c w', w' = w ∧ (c = Some (w_cursor w) ∨ c = None)
  | SaveCursor c => λ saved w', w_store w' = w_store w ∧ w_log w' = w_log w ∧
      (w_cursor w' = c ∨ (saved : bool) = false ∧ w_cursor w' = w_cursor w)
  end.

(** The records are what the ledger holds under these keys. *)
Definition reads_as (c : gmap string string) (keys : list str) (recs : list Record_) : Prop :=
  Forall2 (λ k rec, ∃ body, c !! k = Some body ∧ decode body = Some rec) keys recs.

Definition blocked_at (keys : list str) (n : nat) (e : option replay_error) : Prop :=
  match e with
  | None => n = length keys
  | Some (ReplayRead k) | Some (ReplayDecode k) => keys !! n = Some k
  | Some ReplayForward => (n < length keys)%nat
  | Some _ => False
  end.

Lemma blocked_at_cons k keys n e : blocked_at keys n e → blocked_at (k :: keys) (Datatypes.S n) e.
Proof. destruct e as [[]|]; simpl; intros; try done; lia. Qed.

(** [n] of these keys were forwarded, and nothing else changed. *)
Definition forwarded (w : world) (keys : list str) (n : nat) (w' : world) : Prop :=
  good (w_store w') ∧ bodies (w_store w') = bodies (w_store w) ∧ (n ≤ length keys)%nat ∧
  ∃ recs, w_log w' = w_log w ++ recs ∧ reads_as (bodies (w_store w)) (take n keys) recs.

Lemma forwarded_0 w keys : good (w_store w) → forwarded w keys 0 w.
Proof.
  intros Hg. split_and!; [done..|lia|]. exists []. rewrite app_nil_r. split; [done|]. by constructor.
Qed.

Lemma forwarded_trans w keys n w1 m w2 :
  forwarded w keys n w1 → forwarded w1 (drop n keys) m w2 → forwarded w keys (n + m) w2.
Proof.
  intros (Hg1 & Eb1 & Hn & r1 & El1 & Hr1) (Hg2 & Eb2 & Hm & r2 & El2 & Hr2).
  rewrite length_drop in Hm. split_and!; [done|congruence|lia|].
  exists (r1 ++ r2). rewrite El2, El1, app_assoc. split; [done|].
  rewrite Eb1 in Hr2. unfold reads_as. rewrite <-take_take_drop. by apply Forall2_app.
Qed.

Lemma forwarded_more w keys keys' n w' : forwarded w keys n w' → forwarded w (keys ++ keys') n w'.
Proof.
  intros (Hg & Eb & Hn & recs & El & Hr). unfold forwarded. rewrite length_app. split_and!; [done..|lia|].
  exists recs. by rewrite take_app_le.
Qed.

Lemma replay_loop_wp objects next d last w :
  good (w_store w) →
  wp replay_step (replay_loop objects next d last)
    (λ '(res, e) w', w_cursor w' = w_cursor w ∧ ∃ n,
      forwarded w (oi_Key <$> objects) n w' ∧ blocked_at (oi_Key <$> objects) n e ∧
      rbr_Delivered res = d + Z.of_nat n ∧
      rbr_LastDelivered res = default last (list.last (take n (oi_Key <$> objects))) ∧
      rbr_NextStart res = next ∧
      rbr_Backlog res = exactReplayBacklog (drop n objects) next) w.
Proof.
  revert d last w. induction objects as [|o objects IH]; intros d last w Hg; cbn [replay_loop].
  { split; [done|]. exists O. rewrite Z.add_0_r. by split; [apply forwarded_0|]. }
  assert (∀ e, blocked_at (oi_Key <$> o :: objects) 0 (Some e) → ∀ w', good (w_store w') →
    bodies (w_store w') = bodies (w_store w) → w_log w' = w_log w → w_cursor w' = w_cursor w →
    wp replay_step (Ret (mkReplayBatchResult d last (exactReplayBacklog (o :: objects) next) next, Some e))
    (λ '(res, e) w', w_cursor w' = w_cursor w ∧ ∃ n,
      forwarded w (oi_Key <$> o :: objects) n w' ∧ blocked_at (oi_Key <$> o :: objects) n e ∧
      rbr_Delivered res = d + Z.of_nat n ∧
      rbr_LastDelivered res = default last (list.last (take n (oi_Key <$> o :: objects))) ∧
      rbr_NextStart res = next ∧
      rbr_Backlog res = exactReplayBacklog (drop n (o :: objects)) next) w') as Hstop.
  { intros e He w' Hg' Eb El Ec. split; [done|]. exists O. rewrite Z.add_0_r. split; [|by split_and!].
    split_and!; [done..|lia|]. exists []. rewrite app_nil_r. split; [done|]. by constructor. }
  apply wp_call. intros [body|err] w1 (Hst & El1 & Ec1);
    destruct (store_keeps _ _ _ _ _ Hg Hst) as [[Eb1 Hbody] Hg1]; [|by apply Hstop].
  destruct (decode body) as [rec|] eqn:Ed; [|by apply Hstop].
  apply wp_call. intros [|] w2 (Es2 & Ec2 & El2); cbn [negb].
  - assert (good (w_store w2)) as Hg2 by by rewrite Es2.
    eapply wp_mono; [|by apply IH]. intros [res e] w3 (Ec3 & n & Hf & Hb & Hd & Hl & Hn & Hbl).
    split; [congruence|]. exists (Datatypes.S n).
    split; [|split; [exact (blocked_at_cons (oi_Key o) _ n e Hb)|split; [lia|split; [|done]]]].
    + apply (forwarded_trans w _ 1 w2); [|simpl; by rewrite drop_0]. split_and!; [done|congruence|simpl; lia|].
      exists [rec]. rewrite El2, El1. split; [done|]. constructor; [|constructor]. by exists body.
    + rewrite Hl. change (oi_Key <$> o :: objects) with (oi_Key o :: (oi_Key <$> objects)).
      rewrite firstn_cons, last_cons. by destruct (list.last _).
  - apply Hstop; [simpl; lia|by rewrite Es2|congruence| |congruence]. by rewrite El2, app_nil_r.
Qed.

Lemma after_cursor_ne prefix cursor keys k : k ∈ after prefix cursor keys → k ≠ "" ∧ k ≠ cursor.
Proof.
  intros [_ [_ Hk]%andb_true_iff]%list_elem_of_In%filter_In.
  split; [by destruct cursor, k|]. intros ->. by rewrite str_ltb_irrefl in Hk.
Qed.

Lemma last_elem (l : list str) n k : list.last (take n l) = Some k → k ∈ l.
Proof. intros (l' & E)%last_Some. rewrite <-(take_drop n l), E. set_solver. Qed.

Lemma next_empty prefix cursor keys n :
  default "" (after prefix cursor keys !! n) = "" ↔ (length (after prefix cursor keys) ≤ n)%nat.
Proof.
  rewrite <-lookup_ge_None. destruct (_ !! n) as [k|] eqn:E; [|done]. simpl.
  apply list_elem_of_lookup_2, after_cursor_ne in E. naive_solver.
Qed.

Lemma default_last_app (l : list str) c n m :
  default (default c (list.last (take n l))) (list.last (take m (drop n l))) =
  default c (list.last (take (n + m) l)).
Proof. rewrite <-take_take_drop, last_app. by destruct (list.last (take m _)). Qed.

Lemma exactReplayBacklog_spec objects next b :
  exactReplayBacklog objects next = Some b →
  next = "" ∧ rb_Objects b = Z.of_nat (length objects) ∧ (objects = [] → rb_Oldest b = 0).
Proof.
  unfold exactReplayBacklog. case_bool_decide; [|done].
  destruct objects; intros [= <-]; naive_solver.
Qed.

(** How a page that forwarded [n] keys ended. *)
Definition page_end (ks : list str) (limit n : nat) (batch : ReplayBatchResult)
    (err : option replay_error) : Prop :=
  err = Some ReplayListing ∧ n = O ∧ rbr_Backlog batch = None ∨
  blocked_at (take limit ks) n err ∧
  rbr_NextStart batch = default "" (ks !! limit) ∧
  (rbr_NextStart batch = "" → ∃ b, rbr_Backlog batch = Some b) ∧
  (∀ b, rbr_Backlog batch = Some b →
     rb_Objects b = Z.of_nat (length ks - n) ∧ (n = length ks → rb_Oldest b = 0)).

(** What one page does. *)
Definition page_post (w : world) (ks : list str) (limit : nat)
    (r : ReplayBatchResult * option replay_error) (w' : world) : Prop :=
  w_cursor w' = w_cursor w ∧ ∃ n,
    forwarded w ks n w' ∧ (n ≤ limit)%nat ∧
    rbr_Delivered r.1 = Z.of_nat n ∧
    rbr_LastDelivered r.1 = default "" (list.last (take n ks)) ∧
    page_end ks limit n r.1 r.2.

Lemma ReplayBatch_wp sk cursor limit w :
  good (w_store w) → 0 < limit →
  wp replay_step (ReplayBatch sk cursor limit)
    (page_post w (unforwarded sk cursor (bodies (w_store w))) (Z.to_nat limit)) w.
Proof.
  intros Hg Hl. unfold ReplayBatch. rewrite (proj2 (Z.leb_gt limit 0) Hl).
  apply wp_call. intros [page|err] w1 (Hst & El1 & Ec1);
    destruct (store_keeps _ _ _ _ _ Hg Hst) as [[Eb1 Hpage] Hg1].
  2:{ split; [done|]. exists O. split; [|split; [lia|split_and!; [done..|by left]]].
      split_and!; [done..|lia|]. exists []. rewrite app_nil_r. split; [done|]. by constructor. }
  destruct Hpage as (_ & Hkeys & Hnext).
  destruct (batch_window_keys page cursor limit _ Hl Hkeys Hnext) as [Hwin Hwn].
  assert (record_prefix sk ≠ "") as Hp by (unfold record_prefix; by destruct (sk_prefix sk)).
  change (sk_prefix sk +:+ recordInfix) with (record_prefix sk) in *.
  rewrite (beyond_listing _ _ _ Hp (keys_of_NoDup _)) in Hwin, Hwn.
  fold (unforwarded sk cursor (bodies (w_store w))) in Hwin, Hwn.
  set (ks := unforwarded sk cursor (bodies (w_store w))) in *.
  destruct (batch_window page cursor limit) as [objects next]. simpl in Hwin, Hwn. subst next.
  eapply wp_mono; [|by apply replay_loop_wp].
  intros [res e] w2 (Ec2 & n & Hf & Hb & Hd & Hla & Hn & Hbl). split; [by rewrite Ec2, Ec1|].
  rewrite Hwin in Hf, Hb, Hla. exists n.
  assert (n ≤ Z.to_nat limit ∧ n ≤ length ks)%nat as [Hnl Hnk].
  { destruct Hf as (_ & _ & Hn' & _). rewrite length_take in Hn'. lia. }
  rewrite take_take, Nat.min_l in Hla by done.
  split.
  { rewrite <-(take_drop (Z.to_nat limit) ks). apply forwarded_more.
    apply (forwarded_trans w _ 0 w1 n); [|by rewrite drop_0]. split_and!; [done..|lia|].
    exists []. rewrite app_nil_r. split; [done|]. by constructor. }
  split; [done|]. split; [done|]. split; [done|]. right. split; [done|]. split; [done|].
  cbn [fst]. rewrite Hn, Hbl. split.
  - intros ->. unfold exactReplayBacklog. simpl. by destruct (drop n objects); eauto.
  - intros b (Hne & Hob & Hold)%exactReplayBacklog_spec.
    apply next_empty in Hne. fold ks in Hne.
    assert (length objects = length ks) as Hlen.
    { rewrite <-(length_fmap oi_Key), Hwin, length_take. fold ks. unfold ks, unforwarded in *. lia. }
    rewrite Hob, length_drop, Hlen. split; [done|]. intros ->. apply Hold. by rewrite drop_ge by lia.
Qed.

(** What a sweep from [persisted] over the keys [ks] leaves: [n] records
    forwarded, the reported cursor at [m], the kept cursor at [c]. *)
Definition sweep_facts (w : world) (persisted : str) (ks : list str) (delivered : Z) (last : str)
    (out : ReplayOutcome) (w' : world) (n m c : nat) : Prop :=
  forwarded w ks n w' ∧ (m ≤ c ≤ n)%nat ∧
  ro_Delivered out = delivered + Z.of_nat n ∧
  ro_LastDelivered out = default last (list.last (take n ks)) ∧
  ro_PersistedCursor out = default persisted (list.last (take m ks)) ∧
  w_cursor w' = default persisted (list.last (take c ks)) ∧
  (ro_cursorErr out = false → m = n) ∧
  (ro_cursorErr out = false → ro_replayErr out = None →
   n = length ks ∧ ro_Backlog out = Some (mkReplayBacklog 0 0)) ∧
  (∀ b, ro_Backlog out = Some b → rb_Objects b = Z.of_nat (length ks - m)).

Definition sweep_post (w : world) (persisted : str) (ks : list str) (delivered : Z) (last : str)
    (r : option ReplayOutcome) (w' : world) : Prop :=
  ∃ out n m c, r = Some out ∧ sweep_facts w persisted ks delivered last out w' n m c.

(** A page that stops, its cursor at what it delivered. *)
Lemma sweep_stop w w' persisted ks limit delivered last batch err n cur d' l' :
  (0 < limit)%nat → forwarded w ks n w' →
  d' = delivered + Z.of_nat n → l' = default last (list.last (take n ks)) →
  w_cursor w' = cur → cur = default persisted (list.last (take n ks)) →
  page_end ks limit n batch err →
  (err = None → rbr_NextStart batch = "" ∧ (length ks ≤ limit)%nat) →
  sweep_post w persisted ks delivered last
    (Some (mkReplayOutcome d' l' cur (rbr_Backlog batch) err false)) w'.
Proof.
  intros Hlim Hf -> -> Hc -> Hr Hend. exists (mkReplayOutcome (delivered + Z.of_nat n) (default last (list.last (take n ks)))
    (default persisted (list.last (take n ks))) (rbr_Backlog batch) err false), n, n, n.
  split; [done|]. split; [done|]. cbn. repeat (split; [done|]). split; [|].
  - intros _ ->. destruct Hr as [[? _]|(Hb & _ & Hsome & Hobj)]; [done|].
    destruct (Hend eq_refl) as [He Hle]. simpl in Hb. rewrite length_take in Hb.
    assert (n = length ks) as -> by lia. split; [done|].
    destruct (Hsome He) as [[o t] Eb]. destruct (Hobj _ Eb) as [Ho Ht]. simpl in *.
    rewrite Eb, (Ht eq_refl), Ho. by rewrite Nat.sub_diag.
  - intros b Eb. destruct Hr as [(_ & _ & En)|(_ & _ & _ & Hobj)]; [by rewrite En in Eb|by apply Hobj].
Qed.

(** A page, its cursor saved, and the sweep from there. *)
Lemma sweep_continue w w' w'' persisted ks delivered last n k r :
  forwarded w ks n w' → list.last (take n ks) = Some k →
  sweep_post w' k (drop n ks) (delivered + Z.of_nat n) k r w'' →
  sweep_post w persisted ks delivered last r w''.
Proof.
  intros Hf Elast (out & n' & m & c & -> & Hf' & Hmc & Hd & Hl & Hp & Hc & Hmn & Hend & Hob).
  pose proof (default_last_app ks last n n') as Happ_n.
  pose proof (default_last_app ks persisted n m) as Happ_m.
  pose proof (default_last_app ks persisted n c) as Happ_c.
  rewrite Elast in Happ_n, Happ_m, Happ_c. simpl in *.
  exists out, (n + n')%nat, (n + m)%nat, (n + c)%nat. rewrite length_drop in *.
  assert (n ≤ length ks)%nat by apply Hf. split; [done|].
  split; [by eapply forwarded_trans|]. split; [lia|]. split; [lia|].
  split; [by rewrite Hl, Happ_n|]. split; [by rewrite Hp|]. split; [by rewrite Hc|].
  split; [intros He; by rewrite (Hmn He)|]. split.
  - intros He Hr. destruct (Hend He Hr) as [-> ?]. split; [lia|done].
  - intros b Hb. rewrite (Hob b Hb). lia.
Qed.

Lemma Replay_loop_wp sk batchSize fuel persisted delivered last w :
  good (w_store w) → 0 < batchSize → w_cursor w = persisted →
  (length (unforwarded sk persisted (bodies (w_store w))) < fuel)%nat →
  wp replay_step (Replay_loop fuel sk batchSize persisted delivered last)
    (sweep_post w persisted (unforwarded sk persisted (bodies (w_store w))) delivered last) w.
Proof.
  intros Hg Hb. revert persisted delivered last w Hg.
  induction fuel as [|fuel IH]; intros persisted delivered last w Hg Hcur Hfuel; [lia|].
  cbn [Replay_loop]. apply wp_bind. eapply wp_mono; [|by apply ReplayBatch_wp].
  set (ks := unforwarded sk persisted (bodies (w_store w))) in *.
  intros [batch err] w1 (Ec1 & n & Hf & Hnl & Hd & Hla & Hr). cbn [fst snd] in *.
  assert (err = None → rbr_NextStart batch = default "" (ks !! Z.to_nat batchSize)) as Hnext
    by (intros ->; by destruct Hr as [[? _]|(_ & En & _)]).
  assert (err = None → rbr_NextStart batch = "" → (length ks ≤ Z.to_nat batchSize)%nat) as Hdone.
  { intros He Hn. rewrite (Hnext He) in Hn. by apply next_empty in Hn. }
  destruct (list.last (take n ks)) as [k|] eqn:Elast; simpl in Hla; rewrite Hla.
  - pose proof (last_elem _ _ _ Elast) as Hin. destruct (after_cursor_ne _ _ _ _ Hin) as [Hk1 Hk2].
    rewrite (bool_decide_eq_false_2 (k = "")), (bool_decide_eq_false_2 (k = persisted)) by done.
    cbn [negb andb]. apply wp_call. intros saved w2 (Es2 & El2 & Hc2).
    assert (forwarded w ks n w2) as Hf2.
    { destruct Hf as (? & ? & ? & ?). unfold forwarded. by rewrite Es2, El2. }
    destruct saved; cbn [negb].
    + destruct Hc2 as [Hc2|[? _]]; [|done].
      destruct err as [e|]; cbn [is_Some_b]; [|case_bool_decide as Hn].
      * eapply sweep_stop; [|done|by rewrite Hd|by rewrite Elast|done|by rewrite Elast|done|done]. lia.
      * eapply sweep_stop; [|done|by rewrite Hd|by rewrite Elast|done|by rewrite Elast|done|by auto]. lia.
      * rewrite Hd. assert (unforwarded sk k (bodies (w_store w2)) = drop n ks) as Eks.
        { destruct Hf2 as (_ & Eb2 & Hnk & _). unfold unforwarded. rewrite Eb2.
          rewrite last_lookup, length_take, Nat.min_l in Elast by done.
          apply lookup_take_Some in Elast as [Elast Hpos].
          destruct n as [|n]; [by apply Nat.lt_irrefl in Hpos|]. apply after_resume; [apply keys_of_NoDup|done]. }
        eapply wp_mono; [|apply IH; [apply Hf2|done|]]; rewrite Eks.
        -- intros r w3. by apply sweep_continue.
        -- rewrite length_drop. destruct Hf2 as (_ & _ & Hnk & _). destruct n; [done|lia].
    + eexists _, n, O, (if decide (w_cursor w2 = k) then n else O). split; [done|]. split; [done|]. cbn.
      split; [by destruct (decide _); lia|]. rewrite Hd. split; [done|]. rewrite Elast. split; [done|].
      split; [done|]. split; [|done]. destruct (decide _) as [Ek|]; [by rewrite Elast|].
      destruct Hc2 as [|[_ ->]]; [done|]. by rewrite Ec1.
  - assert (n = O) as ->.
    { apply last_None in Elast. destruct Hf as (_ & _ & Hn & _).
      apply (f_equal length) in Elast. rewrite length_take in Elast. simpl in Elast. lia. }
    cbn [negb andb bool_decide]. rewrite bool_decide_eq_true_2 by done. cbn [negb andb].
    destruct err as [e|]; cbn [is_Some_b]; [|case_bool_decide as Hn].
    + eapply sweep_stop; [|done|by rewrite Hd|done|by rewrite Ec1|done|done|done]. lia.
    + eapply sweep_stop; [|done|by rewrite Hd|done|by rewrite Ec1|done|done|by auto]. lia.
    + destruct Hn. rewrite Hnext by done. destruct Hr as [[? _]|(Hbl & _)]; [done|]. simpl in Hbl.
      rewrite length_take in Hbl. by rewrite lookup_ge_None_2 by lia.
Qed.

Lemma unforwarded_size sk cursor c : (length (unforwarded sk cursor c) ≤ size c)%nat.
Proof.
  unfold unforwarded, after. etrans; [apply List.filter_length_le|].
  rewrite sort_keys_perm. unfold keys_of. by rewrite length_fmap, length_map_to_list.
Qed.

(** C20: One sweep of a ledger nobody writes to meanwhile, any call of which may
    fail.  It always ends, within one page more than the ledger has records.
    It forwards, in key order, exactly a prefix of the records after the
    cursor: none is skipped and none is sent twice.  The cursor kept never
    passes a record the stream has not accepted, the reported cursor and
    counts are the real ones, the backlog is reported only when it is exact,
    and a sweep that reports no failure has forwarded everything. *)
Theorem Replay_spec fuel sk batchSize w :
  good (w_store w) → 0 < batchSize → (size (bodies (w_store w)) < fuel)%nat →
  wp replay_step (Replay fuel sk batchSize)
    (λ r w', (w' = w ∧ r = Some (mkReplayOutcome 0 "" "" None None true)) ∨
       ∃ out n m c, r = Some out ∧
         sweep_facts w (w_cursor w) (unforwarded sk (w_cursor w) (bodies (w_store w))) 0 "" out w' n m c) w.
Proof.
  intros Hg Hb Hfuel. unfold Replay. apply wp_call. intros cursor w' [-> [->| ->]]; [|by left].
  pose proof (unforwarded_size sk (w_cursor w) (bodies (w_store w))).
  eapply wp_mono; [|apply Replay_loop_wp; [done..|lia]]. intros r w' Hp. by right.
Qed.

End static.
End json.

(** The order is that of the times records carry, not of their commits.  A
    record whose caller stamped it before the newest record the stream has,
    and which is committed after the sweep passed, at whatever time, is behind
    the cursor: no later sweep forwards it. *)
Theorem late_record_skipped sk a ta b tb c :
  0 < r_RecordedAt a < r_RecordedAt b → dt_year (civil (r_RecordedAt b)) < 10000 →
  r_LedgerKey (prepared sk a ta) ∉ unforwarded sk (r_LedgerKey (prepared sk b tb)) c.
Proof.
  intros Ht Hy [_ [_ Hlt]%andb_true_iff]%list_elem_of_In%filter_In. revert Hlt.
  unfold prepared, set_key, stamped, with_ledger, is_zero. cbn [r_LedgerKey r_RecordedAt Sanitized].
  rewrite !(proj2 (Z.eqb_neq _ 0)) by lia. unfold recordKeyFor. rewrite !str_ltb_app.
  cbn [r_RecordedAt]. intros Hlt. apply (str_ltb_asym _ _ Hlt), stamp_ltb; [lia|done].
Qed.

(** *** Witnesses *)

Definition example_record (key : str) (recordedAt : time) : Record_ :=
  mkRecord SchemaVersion recordedAt ActionCaptureJobTransition DecisionSucceeded "" ""
    (mkActor "" "" []) (mkResource "" "" "" "" "") "" key "" "" 0.

(** A codec that keeps only the stable key. *)
Definition example_encode (r : Record_) : option str := Some (r_StableKey r).
Definition example_decode (s : str) : option Record_ := Some (example_record s 0).

Definition example_sink : Sink := mkSink "audit/" hour.
Definition example_world : world :=
  mkWorld (with_objects (NewFake 0) (<["audit/records/1" :=
    mkFakeObject "k" (mkObjectInfo "audit/records/1" 1 "" 0 None) 0]> ∅) 1) [] "".

Lemma example_honest : honest (w_store example_world).
Proof.
  split_and!; try done. intros k obj Ho. cbn in Ho. apply lookup_insert_Some in Ho as [[<- <-]|[_ Ho]]; [done|].
  by rewrite lookup_empty in Ho.
Qed.

Lemma Replay_spec_witness :
  wp (replay_step (step := handles fake_handle)) (Replay example_decode 3 example_sink 1)
    (λ r w', ∃ out, r = Some out ∧ (ro_cursorErr out = true ∨ w_cursor w' = "audit/records/1" ∨
      ro_replayErr out ≠ None)) example_world.
Proof.
  eapply wp_mono; [|apply (Replay_spec example_decode (bodies := fake_bodies) (good := honest));
    [apply example_honest|done|apply Nat.ltb_lt; vm_compute; reflexivity]].
  intros r w' [[_ ->]|(out & n & m & c & -> & _ & Hmc & _ & _ & _ & Hc & Hm & Hend & _)]; [by eexists; split; [|left]|].
  exists out. split; [done|]. destruct (ro_cursorErr out) eqn:Ec; [by left|right].
  destruct (ro_replayErr out) as [e|] eqn:Er; [by right|left].
  destruct (Hend eq_refl eq_refl) as [-> _]. rewrite (Hm eq_refl) in *.
  assert (c = length (unforwarded example_sink (w_cursor example_world) (fake_bodies (w_store example_world)))) as -> by lia.
  rewrite Hc. vm_compute. reflexivity.
Defined.

Lemma late_record_skipped_witness :
  r_LedgerKey (prepared example_sink (example_record "late" minute) day) ∉
    unforwarded example_sink (r_LedgerKey (prepared example_sink (example_record "first" hour) hour)) ∅.
Proof. apply late_record_skipped; [split; vm_compute; done|vm_compute; done]. Defined.

End AuditReplay.
