(* ===== verification/Engine.v ===== *)
(** * The policy engine, internal/controller/capturepolicy_engine.go

    One observation is offered to every policy armed against its source; a
    match ends in at most one CaptureJob.  The engine is a program over its
    calls - the caches it lists, the API server it reads and writes, the audit
    committer, the clock - with the threshold windows as its own state.  The
    trigger type is a closed enum here, so the branch for an unknown one is
    not modelled, and neither are the metrics.  Errors keep their kind, and
    their text where the text reaches the ledger. *)

From S2P Require Import Prelude GoTime GoString Sha256 Sanitize Api Status.
From S2P Require Import CaptureState Observation Policy Template Prog AuditModel AuditSink.

Module Engine.
Import Observation Policy Template AuditModel AuditSink.

Inductive PolicyOutcome :=
  | OutcomeNotMatched | OutcomeDisarmed | OutcomeCreated | OutcomeDuplicate
  | OutcomeRateLimited | OutcomeFailed.

Definition TelemetryDecision (o : PolicyOutcome) : str :=
  match o with
  | OutcomeNotMatched => "not_matched"
  | OutcomeDisarmed => "disarmed"
  | OutcomeCreated => "created"
  | OutcomeDuplicate => "duplicate"
  | OutcomeRateLimited => "rate_limited"
  | OutcomeFailed => "failed"
  end.

(** What a call to the API server answers besides a result, with its text. *)
Inductive api_error := NotFound (text : str) | AlreadyExists (text : str) | ApiError (text : str).

Inductive engine_error :=
  | NoTriggerBody (t : CaptureTriggerType)
  | ReadingPolicy (e : api_error)
  | TapMissing (name : str)
  | ReadingTap (e : api_error)
  | TapDeleting (name : str)
  | TapNotObserving (name : str)
  | ReadingJob (e : api_error)
  | ListingJobs (e : api_error)
  | Snapshot (text : str)
  | Filter (e : template_error)
  | AuditCommit (text : str)
  | Creating (text : str).

Record PolicyResult := mkResult {
  res_Policy : str * str;
  res_PolicyUID : str;
  res_Generation : Z;
  res_TriggerType : CaptureTriggerType;
  res_TapUID : str;
  res_Outcome : PolicyOutcome;
  res_Reason : NotMatchedReason;
  res_FailureReason : str;
  res_CaptureName : str;
  res_TriggerTime : time;
  res_Err : option engine_error;
}.

(** The calls.  Each answer is the service's; [Commit] is the audit
    committer's and its error its text. *)
Inductive engineE : Type → Type :=
  | ListPolicies (namespace : str) (t : CaptureTriggerType) : engineE (result api_error (list CapturePolicy))
  | GetPolicy (namespace name : str) : engineE (result api_error CapturePolicy)
  | GetTap (namespace name : str) : engineE (result api_error NetworkTap)
  | GetJob (namespace name : str) : engineE (result api_error CaptureJob)
  | ListJobs (namespace uid : str) : engineE (result api_error (list CaptureJob))
  | CreateJob (job : CaptureJob) : engineE (result api_error unit)
  | CommitRecord (rec : Record_) : engineE (result str unit)
  | Now : engineE time.

(** [CaptureJobPolicyUIDIndexValues], [CapturePolicyTriggerTypeIndexValues] *)
Definition CaptureJobPolicyUIDIndexValues (job : CaptureJob) : list str :=
  match cjs_PolicyRef (cj_Spec job) with
  | None => []
  | Some ref => if bool_decide (pr_UID ref = "") then [] else [pr_UID ref]
  end.

(** The source pins a window to the rendered threshold, the count in decimal,
    a slash and the duration's text; both renderings are one to one, so the
    pair itself is kept. *)
Record policyWindow := mkPolicyWindow { pw_threshold : Z * duration; pw_window : ThresholdWindow }.

Abbreviation windows := (gmap string policyWindow) (only parsing).

Record EngineConfig := mkEngine { en_Actor : Actor; en_Namespace : str }.

(** ** Pure parts *)

Definition triggerTypeFor (obs : Observation) : option CaptureTriggerType :=
  if is_Some_b (d_Signature (ob_Details obs)) && bool_decide (src_Kind (ob_Source obs) = SourceSuricata)
  then Some CaptureTriggerSuricataAlert
  else if is_Some_b (d_ClusterFlow (ob_Details obs)) && bool_decide (src_Kind (ob_Source obs) = SourceHubble)
  then Some CaptureTriggerHubbleDrop
  else None.

Definition triggerTypeLabel (t : CaptureTriggerType) : str :=
  match t with CaptureTriggerHubbleDrop => "hubble" | CaptureTriggerSuricataAlert => "suricata" end.

Definition observedByTap (obs : Observation) (namespace name : str) : bool :=
  match ob_Tap obs with
  | None => false
  | Some tap => bool_decide (tap_Namespace tap = namespace) && bool_decide (tap_Name tap = name)
  end.

Definition deduplicationTime (obs : Observation) : time :=
  if bool_decide (src_Kind (ob_Source obs) = SourceHubble) then ob_EventTime obs else ob_ObservedAt obs.

Definition snapshotCount (n : Z) : Z := if n <? 0 then 0 else if max_int32 <? n then max_int32 else n.

Definition armed (p : CapturePolicy) : bool := cps_Armed (cp_Spec p).
Definition trigger (p : CapturePolicy) : CapturePolicyTrigger := cps_Trigger (cp_Spec p).
Definition is_suricata (p : CapturePolicy) : bool := bool_decide (cpt_Type (trigger p) = CaptureTriggerSuricataAlert).

Definition base_result (p : CapturePolicy) : PolicyResult :=
  mkResult (m_Namespace (cp_Meta p), m_Name (cp_Meta p)) (m_UID (cp_Meta p)) (m_Generation (cp_Meta p))
    (cpt_Type (trigger p)) "" OutcomeNotMatched ReasonNone "" "" 0 None.

(** Setters for the fields an evaluation fills in. *)
Definition with_outcome (r : PolicyResult) (o : PolicyOutcome) : PolicyResult :=
  mkResult (res_Policy r) (res_PolicyUID r) (res_Generation r) (res_TriggerType r) (res_TapUID r)
    o (res_Reason r) (res_FailureReason r) (res_CaptureName r) (res_TriggerTime r) (res_Err r).
Definition with_capture (r : PolicyResult) (o : PolicyOutcome) (name : str) (err : option engine_error) : PolicyResult :=
  mkResult (res_Policy r) (res_PolicyUID r) (res_Generation r) (res_TriggerType r) (res_TapUID r)
    o (res_Reason r) (res_FailureReason r) name (res_TriggerTime r) err.
Definition with_trigger_time (r : PolicyResult) (t : time) : PolicyResult :=
  mkResult (res_Policy r) (res_PolicyUID r) (res_Generation r) (res_TriggerType r) (res_TapUID r)
    (res_Outcome r) (res_Reason r) (res_FailureReason r) (res_CaptureName r) t (res_Err r).
Definition with_tap (r : PolicyResult) (uid : str) : PolicyResult :=
  mkResult (res_Policy r) (res_PolicyUID r) (res_Generation r) (res_TriggerType r) uid
    (res_Outcome r) (res_Reason r) (res_FailureReason r) (res_CaptureName r) (res_TriggerTime r) (res_Err r).

Definition notMatched (res : PolicyResult) (p : CapturePolicy) (reason : NotMatchedReason) : option PolicyResult :=
  if negb (armed p) then None
  else Some (mkResult (res_Policy res) (res_PolicyUID res) (res_Generation res) (res_TriggerType res)
    (res_TapUID res) OutcomeNotMatched reason (res_FailureReason res) (res_CaptureName res)
    (res_TriggerTime res) (res_Err res)).

Definition failed (res : PolicyResult) (reason : str) (err : engine_error) : PolicyResult :=
  mkResult (res_Policy res) (res_PolicyUID res) (res_Generation res) (res_TriggerType res)
    (res_TapUID res) OutcomeFailed (res_Reason res) reason (res_CaptureName res)
    (res_TriggerTime res) (Some err).

(** ** Threshold windows *)

Definition window_for (p : CapturePolicy) (t : DropThreshold) (ws : windows) : policyWindow :=
  let threshold := (dt_Count t, dt_Window t) in
  let fresh := mkPolicyWindow threshold (NewThresholdWindow (dt_Count t) (dt_Window t)) in
  match ws !! m_UID (cp_Meta p) with
  | Some held => if bool_decide (pw_threshold held = threshold) then held else fresh
  | None => fresh
  end.

(** [window] and the [Observe] of what it returns, which changes the window in
    the map. *)
Definition observe_window (p : CapturePolicy) (t : DropThreshold) (obs : Observation) (ws : windows) :
    windows * ThresholdCount :=
  let held := window_for p t ws in
  let '(w, count) := Observe (pw_window held) obs in
  (<[m_UID (cp_Meta p) := mkPolicyWindow (pw_threshold held) w]> ws, count).

Definition pruneWindows (policies : list CapturePolicy) (ws : windows) : windows :=
  filter (λ kv, kv.1 ∈ ((λ p, m_UID (cp_Meta p)) <$> policies)) ws.

(** [match], a keyword here. *)
Definition match_ (p : CapturePolicy) (obs : Observation) (ws : windows) :
    result engine_error (Decision * Z) * windows :=
  match cpt_Type (trigger p) with
  | CaptureTriggerSuricataAlert =>
      match cpt_SuricataAlert (trigger p) with
      | None => (Err (NoTriggerBody CaptureTriggerSuricataAlert), ws)
      | Some t => (Ok (MatchSuricata t obs, 1), ws)
      end
  | CaptureTriggerHubbleDrop =>
      match cpt_HubbleDrop (trigger p) with
      | None => (Err (NoTriggerBody CaptureTriggerHubbleDrop), ws)
      | Some t =>
          let decision := MatchHubbleDrop t obs in
          match hdt_Threshold t with
          | Some threshold =>
              if negb (dec_Matched decision) then (Ok (decision, 1), ws) else
              let '(ws, count) := observe_window p threshold obs ws in
              (Ok (if negb (tc_Reached count) then refused ReasonBelowThreshold else matched,
                   snapshotCount (tc_Count count)), ws)
          | None => (Ok (decision, 1), ws)
          end
      end
  end.

(** ** Calls *)

Definition armedPolicyIsCurrent (cached : CapturePolicy) : prog engineE (result engine_error bool) :=
  let! current := call (GetPolicy (m_Namespace (cp_Meta cached)) (m_Name (cp_Meta cached))) in
  Ret match current with
      | Err (NotFound _) => Ok false
      | Err e => Err (ReadingPolicy e)
      | Ok current =>
          Ok (bool_decide (m_UID (cp_Meta current) = m_UID (cp_Meta cached)) &&
              bool_decide (m_Generation (cp_Meta current) = m_Generation (cp_Meta cached)) &&
              armed current && deletion_is_zero (cp_Meta current))
      end.

Definition tap_observing (tap : NetworkTap) : bool :=
  match nts_Phase (nt_Status tap) with TapPhaseActive | TapPhaseDegraded => true | _ => false end &&
  Status.IsTrue (nts_Conditions (nt_Status tap)) Status.TypeAccepted (m_Generation (nt_Meta tap)).

(** [resolveTap], its reason with its error: what is made of the answer. *)
Definition resolved (p : CapturePolicy) (tap : result api_error NetworkTap) : result (str * engine_error) NetworkTap :=
  match tap with
  | Err (NotFound _) => Err (Status.ReasonTapNotFound, TapMissing (Sanitize.String_ (cps_TapRef (cp_Spec p))))
  | Err e => Err (Status.ReasonDependencyUnavailable, ReadingTap e)
  | Ok tap =>
      if negb (deletion_is_zero (nt_Meta tap)) then
        Err (Status.ReasonTapNotActive, TapDeleting (Sanitize.String_ (m_Name (nt_Meta tap))))
      else if negb (tap_observing tap) then
        Err (Status.ReasonTapNotActive, TapNotObserving (Sanitize.String_ (m_Name (nt_Meta tap))))
      else Ok tap
  end.

Definition resolveTap (p : CapturePolicy) : prog engineE (result (str * engine_error) NetworkTap) :=
  let! tap := call (GetTap (m_Namespace (cp_Meta p)) (cps_TapRef (cp_Spec p))) in
  Ret (resolved p tap).

Definition usage (p : CapturePolicy) : prog engineE (result engine_error Usage) :=
  let! jobs := call (ListJobs (m_Namespace (cp_Meta p)) (m_UID (cp_Meta p))) in
  match jobs with
  | Err e => Ret (Err (ListingJobs e))
  | Ok jobs => let! now := call Now in Ret (Ok (UsageFrom jobs (m_UID (cp_Meta p)) now))
  end.

Definition snapshot (p : CapturePolicy) (obs : Observation) (count : Z) : result str TriggerSnapshot :=
  let fingerprint := EventFingerprint obs in
  if is_suricata p then SuricataSnapshot obs fingerprint else HubbleSnapshot obs fingerprint count.

Definition target_fresh (node : str) (now : time) (t : TargetStatus) : bool :=
  bool_decide (tgt_NodeName t = node) && (t_sub now (tgt_HeartbeatTime t) <=? CaptureState.StaleHeartbeat).

Definition eligibleTarget (tap : NetworkTap) (node : str) : prog engineE str :=
  if bool_decide (node = "") then Ret "" else
  let! now := call Now in
  Ret (if existsb (target_fresh node now) (nts_Targets (nt_Status tap)) then node else "").

(** The job's content, its target chosen. *)
Definition policy_job (p : CapturePolicy) (tap : NetworkTap) (key name target filter : str)
    (snap : TriggerSnapshot) : CaptureJob :=
  let spec := cp_Spec p in
  mkCaptureJob
    (mkMeta name (m_Namespace (cp_Meta p)) "" 0 0 None ∅ [])
    (mkCaptureJobSpec CaptureRequestPolicy (m_Name (nt_Meta tap)) target filter
      (pcb_Duration (cps_Capture spec)) (pcb_Snaplen (cps_Capture spec)) (pcb_MaxSize (cps_Capture spec))
      (cps_Retention spec)
      (Some (mkPolicyRef (m_Name (cp_Meta p)) (m_UID (cp_Meta p)) (m_Generation (cp_Meta p))))
      (Some snap) key)
    zero_status.

Definition buildJob (p : CapturePolicy) (tap : NetworkTap) (obs : Observation) (key name : str)
    (count : Z) : prog engineE (result engine_error CaptureJob) :=
  match snapshot p obs count with
  | Err e => Ret (Err (Snapshot e))
  | Ok snap =>
      let template := pcb_FilterTemplate (cps_Capture (cp_Spec p)) in
      match (if bool_decide (template = "") then Ok "" else RenderFilter template obs) with
      | Err e => Ret (Err (Filter e))
      | Ok filter =>
          let! target := eligibleTarget tap (tg_Node (ob_Target obs)) in
          Ret (Ok (policy_job p tap key name target filter snap))
      end
  end.

(** The record of one step of one capture, stamped [now]. *)
Definition policy_record (e : EngineConfig) (p : CapturePolicy) (job : CaptureJob)
    (decision step message : str) (now : time) : Record_ :=
  mkRecord SchemaVersion now ActionCaptureJobPolicyCreate decision "" message (en_Actor e)
    (mkResource "trawl.cloud" "CaptureJob" (m_Namespace (cj_Meta job)) (m_Name (cj_Meta job)) "")
    "" (StableKeyForAutomatic ActionCaptureJobPolicyCreate (cjs_DeduplicationKey (cj_Spec job))
          (step +:+ ":" +:+ decision +:+ ":" +:+ m_UID (cp_Meta p)))
    (m_Namespace (cp_Meta p) +:+ "/" +:+ m_Name (cp_Meta p)) "" 0.

Definition commit (e : EngineConfig) (p : CapturePolicy) (job : CaptureJob)
    (decision step message : str) : prog engineE (option engine_error) :=
  let! now := call Now in
  let! res := call (CommitRecord (policy_record e p job decision step message now)) in
  Ret match res with
      | Ok _ => None
      | Err text => Some (AuditCommit (Sanitize.Errorf "committing the capture audit record: " text))
      end.

Definition api_text (e : api_error) : str :=
  match e with NotFound t | AlreadyExists t | ApiError t => t end.

(** From the intent on. *)
Definition request (e : EngineConfig) (p : CapturePolicy) (res : PolicyResult) (job : CaptureJob)
    (name : str) : prog engineE PolicyResult :=
  let! intent := commit e p job DecisionAllowed "request" "" in
  match intent with
  | Some err => Ret (failed res Status.ReasonAuditUnavailable err)
  | None =>
      let! created := call (CreateJob job) in
      match created with
      | Err (AlreadyExists _) =>
          let! err := commit e p job DecisionSucceeded "outcome" "" in
          Ret (with_capture res OutcomeDuplicate name err)
      | Err api =>
          let failure := Sanitize.Errorf "creating the capture: " (api_text api) in
          let! _ := commit e p job DecisionFailed "outcome" failure in
          Ret (failed res Status.ReasonDependencyUnavailable (Creating failure))
      | Ok _ =>
          let! err := commit e p job DecisionSucceeded "outcome" "" in
          Ret (with_capture res OutcomeCreated name err)
      end
  end.

(** From the resolved tap on. *)
Definition propose (e : EngineConfig) (p : CapturePolicy) (obs : Observation) (res : PolicyResult)
    (tap : NetworkTap) (count : Z) : prog engineE PolicyResult :=
  let key := DeduplicationKey (m_UID (nt_Meta tap)) (ob_Flow obs) (deduplicationTime obs)
               (crl_Cooldown (cps_RateLimit (cp_Spec p))) in
  let name := CaptureJobName key in
  let! existing := call (GetJob (m_Namespace (cp_Meta p)) name) in
  match existing with
  | Ok _ => Ret (with_capture res OutcomeDuplicate name (res_Err res))
  | Err (NotFound _) =>
      let! use := usage p in
      match use with
      | Err err => Ret (failed res Status.ReasonDependencyUnavailable err)
      | Ok use =>
          match CheckLimits use (cps_RateLimit (cp_Spec p)) with
          | LimitRateLimited => Ret (with_outcome res OutcomeRateLimited)
          | LimitAllowed =>
              let! job := buildJob p tap obs key name count in
              match job with
              | Err err => Ret (failed res Status.ReasonFilterInvalid err)
              | Ok job => request e p res job name
              end
          end
      end
  | Err err => Ret (failed res Status.ReasonDependencyUnavailable (ReadingJob err))
  end.

(** From a match on: an armed policy is checked against the API server. *)
Definition on_match (e : EngineConfig) (p : CapturePolicy) (obs : Observation) (count : Z) :
    prog engineE (option PolicyResult) :=
  let res := base_result p in
  let armed_part :=
    let res := with_trigger_time res (ob_ObservedAt obs) in
    let! tap := resolveTap p in
    match tap with
    | Err (reason, err) => Ret (Some (failed res reason err))
    | Ok tap =>
        let res := with_tap res (m_UID (nt_Meta tap)) in
        if is_suricata p &&
           negb (bool_decide (tap_UID <$> ob_Tap obs = Some (m_UID (nt_Meta tap))))
        then Ret (notMatched res p ReasonDifferentTap)
        else let! r := propose e p obs res tap count in Ret (Some r)
    end in
  if armed p then
    let! current := armedPolicyIsCurrent p in
    match current with
    | Err err => Ret (Some (failed res Status.ReasonDependencyUnavailable err))
    | Ok false => Ret None
    | Ok true => armed_part
    end
  else Ret (Some (with_outcome (with_trigger_time res (ob_ObservedAt obs)) OutcomeDisarmed)).

Definition evaluateOne (e : EngineConfig) (p : CapturePolicy) (obs : Observation) (ws : windows) :
    prog engineE (option PolicyResult * windows) :=
  let res := base_result p in
  if is_suricata p && negb (observedByTap obs (m_Namespace (cp_Meta p)) (cps_TapRef (cp_Spec p)))
  then Ret (notMatched res p ReasonDifferentTap, ws) else
  match match_ p obs ws with
  | (Err err, ws) => Ret (Some (failed res Status.ReasonInvalidSpec err), ws)
  | (Ok (decision, count), ws) =>
      if negb (dec_Matched decision) then Ret (notMatched res p (dec_Reason decision), ws)
      else let! r := on_match e p obs count in Ret (r, ws)
  end.

(** The loop of [Evaluate]. *)
Fixpoint evaluate_loop (e : EngineConfig) (policies : list CapturePolicy) (obs : Observation)
    (ws : windows) : prog engineE (list PolicyResult * windows) :=
  match policies with
  | [] => Ret ([], ws)
  | p :: rest =>
      if negb (deletion_is_zero (cp_Meta p)) then evaluate_loop e rest obs ws else
      let! one := evaluateOne e p obs ws in
      let '(res, ws) := one in
      let! more := evaluate_loop e rest obs ws in
      let '(results, ws) := more in
      Ret (match res with Some r => r :: results | None => results end, ws)
  end.

Definition Evaluate (e : EngineConfig) (obs : Observation) (ws : windows) :
    prog engineE (result api_error (list PolicyResult) * windows) :=
  match triggerTypeFor obs with
  | None => Ret (Ok [], ws)
  | Some triggerType =>
      let! policies := call (ListPolicies (en_Namespace e) triggerType) in
      match policies with
      | Err err => Ret (Err err, ws)
      | Ok policies =>
          let ws := match triggerType with
                    | CaptureTriggerHubbleDrop => pruneWindows policies ws
                    | CaptureTriggerSuricataAlert => ws
                    end in
          let! out := evaluate_loop e policies obs ws in
          let '(results, ws) := out in
          Ret (Ok results, ws)
      end
  end.

(** ** What an evaluation does to the world

    The answers of every service are arbitrary; a run leaves the calls it made
    and the answers it got. *)

Definition event := event engineE.

(** The two calls that change anything outside. *)
Inductive effect :=
  | Recorded (rec : Record_) (acknowledged : bool)
  | Requested (job : CaptureJob) (answer : result api_error unit).

Definition effect_of (ev : event) : option effect :=
  match ev with
  | Ev e x =>
      match e in engineE X return X → option effect with
      | CommitRecord rec => λ x, Some (Recorded rec (is_ok x))
      | CreateJob job => λ x, Some (Requested job x)
      | _ => λ _, None
      end x
  end.

Definition effects (l : list event) : list effect := omap effect_of l.

(** The five ways a request goes, from its intent on. *)
Inductive episode (e : EngineConfig) (p : CapturePolicy) (job : CaptureJob) : PolicyResult → list effect → Prop :=
  | intent_refused r t :
      res_Outcome r = OutcomeFailed → res_FailureReason r = Status.ReasonAuditUnavailable →
      episode e p job r [Recorded (policy_record e p job DecisionAllowed "request" "" t) false]
  | capture_created r t t' b :
      res_Outcome r = OutcomeCreated → res_CaptureName r = m_Name (cj_Meta job) →
      (res_Err r = None ↔ b = true) →
      episode e p job r [Recorded (policy_record e p job DecisionAllowed "request" "" t) true;
        Requested job (Ok tt); Recorded (policy_record e p job DecisionSucceeded "outcome" "" t') b]
  | capture_raced r t t' b text :
      res_Outcome r = OutcomeDuplicate → res_CaptureName r = m_Name (cj_Meta job) →
      (res_Err r = None ↔ b = true) →
      episode e p job r [Recorded (policy_record e p job DecisionAllowed "request" "" t) true;
        Requested job (Err (AlreadyExists text)); Recorded (policy_record e p job DecisionSucceeded "outcome" "" t') b]
  | capture_failed r t t' b err :
      res_Outcome r = OutcomeFailed → res_FailureReason r = Status.ReasonDependencyUnavailable →
      (∀ text, err ≠ AlreadyExists text) →
      episode e p job r [Recorded (policy_record e p job DecisionAllowed "request" "" t) true;
        Requested job (Err err);
        Recorded (policy_record e p job DecisionFailed "outcome" (Sanitize.Errorf "creating the capture: " (api_text err)) t') b].

(** What the policy asks of a job for an observation on a tap. *)
Definition job_for (p : CapturePolicy) (obs : Observation) (tap : NetworkTap) (job : CaptureJob) : Prop :=
  let key := DeduplicationKey (m_UID (nt_Meta tap)) (ob_Flow obs) (deduplicationTime obs)
               (crl_Cooldown (cps_RateLimit (cp_Spec p))) in
  let template := pcb_FilterTemplate (cps_Capture (cp_Spec p)) in
  ∃ target filter snap, job = policy_job p tap key (CaptureJobName key) target filter snap ∧
    (target = "" ∨ target = tg_Node (ob_Target obs)) ∧
    (if bool_decide (template = "") then filter = "" else RenderFilter template obs = Ok filter).

(** The calls before the intent, and that each answered for the request. *)
Definition cleared (p : CapturePolicy) (obs : Observation) (tap : NetworkTap) (job : CaptureJob)
    (pre : list event) : Prop :=
  (∃ text, Ev (GetJob (m_Namespace (cp_Meta p)) (m_Name (cj_Meta job))) (Err (NotFound text)) ∈ pre) ∧
  (∃ jobs now, Ev (ListJobs (m_Namespace (cp_Meta p)) (m_UID (cp_Meta p))) (Ok jobs) ∈ pre ∧ Ev Now now ∈ pre ∧
     u_Hourly (UsageFrom jobs (m_UID (cp_Meta p)) now) < crl_MaxCapturesPerHour (cps_RateLimit (cp_Spec p))) ∧
  job_for p obs tap job.

Definition proposed (e : EngineConfig) (p : CapturePolicy) (obs : Observation) (tap : NetworkTap)
    (r : PolicyResult) (l : list event) : Prop :=
  (effects l = [] ∧ res_Outcome r ≠ OutcomeCreated) ∨
  ∃ job pre post, l = pre ++ post ∧ effects pre = [] ∧ cleared p obs tap job pre ∧
    episode e p job r (effects post).

(** The policy as the API server answered, and the tap. *)
Definition current (p : CapturePolicy) (pre : list event) : Prop :=
  armed p = true ∧
  ∃ cur, Ev (GetPolicy (m_Namespace (cp_Meta p)) (m_Name (cp_Meta p))) (Ok cur) ∈ pre ∧
    m_UID (cp_Meta cur) = m_UID (cp_Meta p) ∧ m_Generation (cp_Meta cur) = m_Generation (cp_Meta p) ∧
    armed cur = true ∧ deletion_is_zero (cp_Meta cur) = true.

Definition bound_tap (p : CapturePolicy) (obs : Observation) (tap : NetworkTap) (pre : list event) : Prop :=
  Ev (GetTap (m_Namespace (cp_Meta p)) (cps_TapRef (cp_Spec p))) (Ok tap) ∈ pre ∧
  deletion_is_zero (nt_Meta tap) = true ∧ tap_observing tap = true ∧
  (is_suricata p = true → tap_UID <$> ob_Tap obs = Some (m_UID (nt_Meta tap))).

Definition quiet (r : option PolicyResult) : Prop :=
  match r with None => True | Some r => res_Outcome r ≠ OutcomeCreated end.

Definition evaluated (e : EngineConfig) (p : CapturePolicy) (obs : Observation)
    (r : option PolicyResult) (l : list event) : Prop :=
  (effects l = [] ∧ quiet r) ∨
  ∃ res job tap pre post, r = Some res ∧ l = pre ++ post ∧ effects pre = [] ∧
    current p pre ∧ bound_tap p obs tap pre ∧ cleared p obs tap job pre ∧ episode e p job res (effects post).

(** *** Lemmas *)

Lemma effects_app l k : effects (l ++ k) = effects l ++ effects k.
Proof. apply omap_app. Qed.

Lemma commit_wp {A} e p job d st m (k : option engine_error → prog engineE A) Q log :
  (∀ t b err, (err = None ↔ b = true) →
     ∀ l, effects l = [Recorded (policy_record e p job d st m t) b] →
     wp (@logged engineE) (k err) Q (log ++ l)) →
  wp (@logged engineE) (prog_bind (commit e p job d st m) k) Q log.
Proof.
  intros H now log1 -> res log2 ->. rewrite <-app_assoc. cbn [app].
  apply (H now (is_ok res)); [|by destruct res].
  destruct res; split; done.
Qed.

Lemma request_wp e p res job log :
  wp (@logged engineE) (request e p res job (m_Name (cj_Meta job)))
    (λ r log', ∃ l, log' = log ++ l ∧ episode e p job r (effects l)) log.
Proof.
  unfold request. apply commit_wp. intros t b err Herr l1 E1. destruct err as [err|].
  { assert (b = false) as -> by (destruct b; [discriminate (proj2 Herr eq_refl)|done]). exists l1. rewrite E1. split; [done|]. by constructor. }
  assert (b = true) as -> by exact (proj1 Herr eq_refl). apply wp_logged. intros created.
  destruct created as [[]|err]; [|destruct err as [text|text|text]];
    apply commit_wp; intros t' b' err' Herr' l2 E2; rewrite <-!app_assoc; eexists; (split; [done|]);
    rewrite !effects_app, E1, E2; cbn; by constructor.
Qed.

Lemma buildJob_wp p tap obs key count log :
  wp (@logged engineE) (buildJob p tap obs key (CaptureJobName key) count)
    (λ r log', ∃ l, log' = log ++ l ∧ effects l = [] ∧ ∀ job, r = Ok job →
      ∃ target filter snap, job = policy_job p tap key (CaptureJobName key) target filter snap ∧
        (target = "" ∨ target = tg_Node (ob_Target obs)) ∧
        (if bool_decide (pcb_FilterTemplate (cps_Capture (cp_Spec p)) = "") then filter = ""
         else RenderFilter (pcb_FilterTemplate (cps_Capture (cp_Spec p))) obs = Ok filter)) log.
Proof.
  unfold buildJob, eligibleTarget.
  destruct (snapshot p obs count) as [snap|err]; [|exists []; by rewrite app_nil_r].
  destruct (if bool_decide _ then _ else _) as [filter|err] eqn:Ef; [|exists []; by rewrite app_nil_r].
  assert (if bool_decide (pcb_FilterTemplate (cps_Capture (cp_Spec p)) = "") then filter = ""
    else RenderFilter (pcb_FilterTemplate (cps_Capture (cp_Spec p))) obs = Ok filter) as Hf
    by (case_bool_decide; congruence).
  destruct (bool_decide (tg_Node (ob_Target obs) = "")).
  - exists []. rewrite app_nil_r. split_and!; [done..|]. intros job [= <-]. eauto 10.
  - intros now log' ->. exists [Ev Now now]. split_and!; [done..|]. intros job [= <-].
    eexists _, _, _. split; [done|]. split; [|done]. destruct (existsb _ _); auto.
Qed.

Lemma propose_wp e p obs res tap count log :
  res_Outcome res ≠ OutcomeCreated →
  wp (@logged engineE) (propose e p obs res tap count)
    (λ r log', ∃ l, log' = log ++ l ∧ proposed e p obs tap r l) log.
Proof.
  intros Hres. unfold propose. set (key := DeduplicationKey _ _ _ _). cbv zeta.
  assert (∀ r l, effects l = [] → res_Outcome r ≠ OutcomeCreated →
    ∃ l', log ++ l = log ++ l' ∧ proposed e p obs tap r l') as Hquiet
    by (intros r l ? ?; exists l; split; [done|by left]).
  apply wp_logged. intros [existing|[text|text|text]]; try (by apply Hquiet).
  unfold usage. apply wp_logged. intros [jobs|err]; [|rewrite <-app_assoc; by apply Hquiet].
  apply wp_logged. intros now. rewrite <-!app_assoc. cbn [app]. unfold CheckLimits.
  destruct (Z.leb_spec (crl_MaxCapturesPerHour (cps_RateLimit (cp_Spec p)))
    (u_Hourly (UsageFrom jobs (m_UID (cp_Meta p)) now))) as [|Hlim]; [by apply Hquiet|].
  apply wp_bind. eapply wp_mono; [|apply buildJob_wp].
  intros built log1 (l1 & -> & El1 & Hjob). rewrite <-app_assoc. destruct built as [job|err].
  2: { apply Hquiet; [by rewrite effects_app, El1|done]. }
  destruct (Hjob job eq_refl) as (target & filter & snap & Ejob & Hrest). 
  assert (CaptureJobName key = m_Name (cj_Meta job)) as En by by rewrite Ejob.
  rewrite En. eapply wp_mono; [|apply request_wp]. intros r log2 (l2 & -> & Hep).
  rewrite <-app_assoc. eexists. split; [done|]. right. exists job.
  eexists _, l2. split; [done|]. split; [by rewrite effects_app, El1|]. split; [|done].
  split; [|split].
  - exists text. rewrite <-En. set_solver.
  - exists jobs, now. split_and!; [set_solver..|done].
  - by eexists _, _, _.
Qed.

Lemma on_match_wp e p obs count log :
  wp (@logged engineE) (on_match e p obs count)
    (λ r log', ∃ l, log' = log ++ l ∧ evaluated e p obs r l) log.
Proof.
  unfold on_match, armedPolicyIsCurrent, resolveTap, resolved. cbv zeta.
  assert (∀ r l, effects l = [] → quiet r → ∃ l', log ++ l = log ++ l' ∧ evaluated e p obs r l') as Hquiet
    by (intros r l ? ?; exists l; split; [done|by left]).
  destruct (armed p) eqn:Ea; [|exists []; rewrite app_nil_r; split; [done|by left]].
  apply wp_logged. intros cur. cbn [prog_bind]. destruct cur as [cur|[text|text|text]]; try by apply Hquiet.
  destruct (_ && deletion_is_zero (cp_Meta cur)) eqn:Ecur; [|by apply Hquiet].
  rewrite !andb_true_iff, !bool_decide_eq_true in Ecur. destruct Ecur as [[[Hu Hg] Harm] Hdel].
  apply wp_logged. intros tap. cbn [prog_bind]. rewrite <-app_assoc.
  destruct tap as [tap|[text|text|text]]; try by apply Hquiet.
  destruct (negb (deletion_is_zero (nt_Meta tap))) eqn:Ed; [by apply Hquiet|].
  destruct (negb (tap_observing tap)) eqn:Eo; [by apply Hquiet|].
  apply negb_false_iff in Ed, Eo.
  destruct (is_suricata p && _) eqn:Es.
  { apply Hquiet; [done|]. unfold notMatched. by rewrite Ea. }
  apply wp_bind. eapply wp_mono; [|by apply propose_wp].
  intros r log1 (l1 & -> & [[El Hr]|(job & pre & post & -> & Epre & Hcl & Hep)]); rewrite <-!app_assoc.
  { apply (Hquiet (Some r)); [|done]. by rewrite !effects_app, El. }
  eexists. split; [done|]. right. exists r, job, tap. rewrite !app_assoc. eexists _, post.
  split; [done|]. split; [done|]. split; [by rewrite !effects_app, Epre|].
  split; [|split; [|split; [|done]]].
  - split; [done|]. exists cur. split_and!; try done. set_solver.
  - split; [set_solver|]. split_and!; [done..|]. intros Hs. rewrite Hs in Es. cbn [andb] in Es.
    by apply negb_false_iff, bool_decide_eq_true in Es.
  - destruct Hcl as ((text & Hj) & (jobs & now & Hl & Hn & Hlim) & Hfor).
    split; [exists text; set_solver|]. split; [|done]. exists jobs, now. split_and!; [set_solver..|done].
Qed.

Lemma evaluateOne_wp e p obs ws log :
  wp (@logged engineE) (evaluateOne e p obs ws)
    (λ '(r, ws') log', ∃ l, log' = log ++ l ∧
      ((effects l = [] ∧ quiet r) ∨
       evaluated e p obs r l ∧ ∃ count, (match_ p obs ws).1 = Ok (matched, count)) ∧
      (ws' = ws ∨ ws' = (match_ p obs ws).2)) log.
Proof.
  unfold evaluateOne. cbv zeta.
  assert (∀ r ws', quiet r → (ws' = ws ∨ ws' = (match_ p obs ws).2) →
    ∃ l, log = log ++ l ∧ ((effects l = [] ∧ quiet r) ∨
       evaluated e p obs r l ∧ ∃ count, (match_ p obs ws).1 = Ok (matched, count)) ∧
      (ws' = ws ∨ ws' = (match_ p obs ws).2)) as Hquiet.
  { intros r ws' Hr Hw. exists []. rewrite app_nil_r. split; [done|]. split; [by left|done]. }
  assert (∀ reason, quiet (notMatched (base_result p) p reason)) as Hnm
    by (intros; unfold notMatched; by destruct (negb (armed p))).
  destruct (is_suricata p && _); [by apply Hquiet; [|left]|].
  destruct (match_ p obs ws) as [[[d count]|err] ws'] eqn:Em; [|by apply Hquiet; [|right]].
  destruct (negb (dec_Matched d)) eqn:Ed; [by apply Hquiet; [|right]|].
  assert (d = matched) as ->.
  { apply negb_false_iff in Ed. revert Em. unfold match_, MatchSuricata, MatchHubbleDrop.
    intros Em. destruct d as [dm dr]. simpl in Ed. subst dm.
    repeat (case_match; simplify_eq/=; try done). }
  apply wp_bind. eapply wp_mono; [|apply on_match_wp]. intros r log1 (l & -> & Hev).
  exists l. split; [done|]. split; [|by right]. right. split; [done|]. by exists count.
Qed.

(** ** Theorems *)

(** C16: Intent before work, and an outcome for every intent.  Whatever the API
    server, the ledger and the other workers answer, evaluating one policy
    changes the world in one of six ways: not at all; an intent the ledger
    refused, and then nothing; or an acknowledged intent, one create request,
    and the record of that request's outcome - succeeded when the capture was
    created or another worker had created it first, failed otherwise.  The
    result says which, and names the audit failure when the outcome record was
    refused.  So no capture is requested that the ledger did not acknowledge
    first, there is at most one, and no intent is left without an outcome. *)
Theorem evaluateOne_effects e p obs ws :
  wp (@logged engineE) (evaluateOne e p obs ws)
    (λ '(r, _) log,
      (effects log = [] ∧ quiet r) ∨
      ∃ res job, r = Some res ∧ episode e p job res (effects log)) [].
Proof.
  eapply wp_mono; [|apply evaluateOne_wp].
  intros [r ws'] log (l & -> & [[El Hq]|[[[El Hq]|(res & job & tap & pre & post & -> & -> & Epre & _ & _ & _ & Hep)] _]] & _);
    [by left|by left|]. right. exists res, job. split; [done|]. cbn [app]. by rewrite effects_app, Epre.
Qed.

(** C28: What a capture request presupposes.  If an evaluation asks for a capture
    at all, the observation matched the trigger, the policy was armed, and the
    API server - not a cache - answered that this very policy, at this
    generation, is still armed and not being deleted; the tap named by the
    policy exists, is observing, and is the one the alert came from; no capture
    of this name existed; the captures listed for the policy were below its
    hourly limit; and the job is the one the policy describes for this
    observation, with a target only if the observing node's sensor reports,
    and no filter only if the policy has none. *)
Theorem evaluateOne_authorized e p obs ws :
  wp (@logged engineE) (evaluateOne e p obs ws)
    (λ _ log, ∀ job answer, Requested job answer ∈ effects log →
      (∃ count, (match_ p obs ws).1 = Ok (matched, count)) ∧
      current p log ∧ ∃ tap, bound_tap p obs tap log ∧ cleared p obs tap job log) [].
Proof.
  eapply wp_mono; [|apply evaluateOne_wp].
  intros [r ws'] log (l & -> & Hl & _) job answer Hin. cbn [app] in *.
  destruct Hl as [[El _]|[[[El _]|(res & job' & tap & pre & post & -> & -> & Epre & Hcur & Htap & Hcl & Hep)] Hm]].
  { rewrite El in Hin. by apply elem_of_nil in Hin. }
  { rewrite El in Hin. by apply elem_of_nil in Hin. }
  rewrite effects_app, Epre in Hin. cbn [app] in Hin.
  assert (job = job') as <-.
  { destruct Hep; rewrite !elem_of_cons, elem_of_nil in Hin; naive_solver. }
  assert (∀ ev, ev ∈ pre → ev ∈ pre ++ post) as Hsub by (intros; apply elem_of_app; by left).
  split; [done|]. split.
  - destruct Hcur as (? & cur & ? & ?). split; [done|]. exists cur. split; [by apply Hsub|done].
  - exists tap. split; [destruct Htap as [? ?]; split; [by apply Hsub|done]|].
    destruct Hcl as ((text & ?) & (jobs & now & ? & ? & ?) & ?).
    split; [exists text; by apply Hsub|]. split; [|done]. exists jobs, now. auto.
Qed.

(** *** Identity of the records *)

(** A job's fields that its records name. *)
Definition names_job (p : CapturePolicy) (key : str) (job : CaptureJob) : Prop :=
  m_Namespace (cj_Meta job) = m_Namespace (cp_Meta p) ∧ m_Name (cj_Meta job) = CaptureJobName key ∧
  cjs_DeduplicationKey (cj_Spec job) = key.

Lemma step_inj st d uid st' d' uid' :
  st ∈ ["request"; "outcome"] → st' ∈ ["request"; "outcome"] →
  d ∈ validDecisions → d' ∈ validDecisions →
  st +:+ ":" +:+ d +:+ ":" +:+ uid = st' +:+ ":" +:+ d' +:+ ":" +:+ uid' →
  st = st' ∧ d = d' ∧ uid = uid'.
Proof.
  unfold validDecisions. rewrite !elem_of_cons, !elem_of_nil.
  intros [->|[->|[]]] [->|[->|[]]] Hd Hd' H; try discriminate H;
    apply str_app_inj_r, str_app_inj_r in H; (split; [done|]);
    destruct Hd as [->|[->|[->|[->|[]]]]], Hd' as [->|[->|[->|[->|[]]]]]; try discriminate H;
    by apply str_app_inj_r, str_app_inj_r in H.
Qed.

(** Workers that never spoke converge in the ledger.  The records two workers
    write for one step of one capture - whatever filter, target, time or
    generation either had - carry one stable key and, as the sink compares
    records, one content exactly when their messages agree: always for the
    intent and the succeeded outcome, whose message is empty; but two failed
    outcomes with different error texts claim one identity with different
    content.  And records of different captures, policies, steps or decisions
    never share a key, unless SHA-256 collides. *)
Theorem policy_records_identity e p key job job' d st m m' t t' c c' p' key' job2 d' st' :
  names_job p key job → names_job p key job' → names_job p' key' job2 →
  st ∈ ["request"; "outcome"] → st' ∈ ["request"; "outcome"] →
  d ∈ validDecisions → d' ∈ validDecisions →
  let r := policy_record e p job d st m t in
  let r' := policy_record e p job' d st m' t' in
  let r2 := policy_record e p' job2 d' st' m' t' in
  r_StableKey r = r_StableKey r' ∧
  (action_of (stamped r c) = action_of (stamped r' c') ↔ Sanitize.String_ m = Sanitize.String_ m') ∧
  (r_StableKey r = r_StableKey r2 →
   (key = key' ∧ st = st' ∧ d = d' ∧ m_UID (cp_Meta p) = m_UID (cp_Meta p')) ∨
   ∃ x y, sha256_collision x y).
Proof.
  intros (N1 & M1 & K1) (N2 & M2 & K2) (N3 & M3 & K3) Hst Hst' Hd Hd' r r' r2.
  unfold r, r', r2, policy_record. cbn [r_StableKey]. rewrite N1, N2, K1, K2, K3, M1, M2.
  split; [done|]. split.
  - unfold action_of, stamped, with_ledger, Sanitized.
    cbn [r_SchemaVersion r_RecordedAt r_Action r_Decision r_Reason r_Message r_Actor r_Resource
      r_RequestID r_StableKey r_InitiatedBy r_LedgerKey r_CommittedAt].
    split; [intros H; exact (f_equal r_Message H)|intros ->; reflexivity].
  - unfold StableKeyForAutomatic. intros [H|Hc]%str_app_inj_r%digest_inj; [left|right; by eauto|done].
    injection H as -> H. by apply step_inj in H as (-> & -> & ->).
Qed.

(** *** Windows *)

Definition uids (policies : list CapturePolicy) : list str := (λ p, m_UID (cp_Meta p)) <$> policies.

Definition threshold_of (p : CapturePolicy) : option (Z * duration) :=
  match cpt_HubbleDrop (trigger p) with
  | Some t => (λ th, (dt_Count th, dt_Window th)) <$> hdt_Threshold t
  | None => None
  end.

Lemma alert_not_dropped t obs :
  triggerTypeFor obs = Some CaptureTriggerSuricataAlert → dec_Matched (MatchHubbleDrop t obs) = false.
Proof.
  unfold triggerTypeFor, MatchHubbleDrop. destruct (d_ClusterFlow (ob_Details obs)); [|done].
  case_bool_decide as Hs; [|rewrite andb_false_r; by destruct (_ && _)]. by rewrite Hs.
Qed.

Lemma match_windows_alert p obs ws :
  triggerTypeFor obs = Some CaptureTriggerSuricataAlert → (match_ p obs ws).2 = ws.
Proof.
  intros Ht. unfold match_. destruct (cpt_Type (trigger p)).
  { by destruct (cpt_SuricataAlert (trigger p)). }
  destruct (cpt_HubbleDrop (trigger p)) as [t|]; [|done]. rewrite (alert_not_dropped t obs Ht).
  by destruct (hdt_Threshold t).
Qed.

Lemma match_windows p obs ws uid w :
  (match_ p obs ws).2 !! uid = Some w →
  ws !! uid = Some w ∨ uid = m_UID (cp_Meta p) ∧ Some (pw_threshold w) = threshold_of p.
Proof.
  unfold match_, threshold_of. destruct (cpt_Type (trigger p)).
  { destruct (cpt_SuricataAlert (trigger p)); auto. }
  destruct (cpt_HubbleDrop (trigger p)) as [t|]; [|auto].
  destruct (hdt_Threshold t) as [th|]; [|auto].
  destruct (negb (dec_Matched (MatchHubbleDrop t obs))); [auto|].
  unfold observe_window, window_for. set (held := match ws !! _ with Some _ => _ | None => _ end).
  destruct (Observe (pw_window held) obs) as [w' count]. cbn [snd].
  intros [[<- <-]|[_ ?]]%lookup_insert_Some; [right|by left]. split; [done|].
  unfold held. destruct (ws !! m_UID (cp_Meta p)) as [h|]; [|done].
  case_bool_decide as Hh; [|done]. cbn. by rewrite Hh.
Qed.

Lemma evaluate_loop_windows e policies obs ws log (P : windows → Prop) :
  (∀ p ws, p ∈ policies → P ws → P (match_ p obs ws).2) → P ws →
  wp (@logged engineE) (evaluate_loop e policies obs ws)
    (λ '(_, ws') log', P ws' ∧ ∃ l, log' = log ++ l) log.
Proof.
  intros Hstep. revert ws log. induction policies as [|p policies IH]; intros ws log HP; cbn [evaluate_loop].
  { split; [done|]. exists []. by rewrite app_nil_r. }
  assert (∀ q ws, q ∈ policies → P ws → P (match_ q obs ws).2) as Hrest by (intros; apply Hstep; [by right|done]).
  destruct (negb _); [by apply IH|]. apply wp_bind.
  eapply wp_mono; [|apply evaluateOne_wp]. intros [r ws1] log1 (l1 & -> & _ & Hws).
  assert (P ws1) as HP1 by (destruct Hws as [->| ->]; [done|]; apply Hstep; [left|done]).
  apply wp_bind. eapply wp_mono; [|by apply IH]. intros [rs ws2] log2 [HP2 [l2 ->]].
  split; [done|]. exists (l1 ++ l2). by rewrite app_assoc.
Qed.

(** The only state the engine keeps stays bounded and current.  An
    observation of no trigger changes nothing and calls nothing; an alert leaves
    every threshold window as it was; a dropped flow leaves windows of listed
    policies only, each either untouched or pinned to the threshold its policy
    now has.  The error is kept for a listing that failed, in which case the
    windows are untouched too. *)
Theorem Evaluate_windows e obs ws :
  wp (@logged engineE) (Evaluate e obs ws)
    (λ '(res, ws') log,
      match triggerTypeFor obs with
      | None => res = Ok [] ∧ ws' = ws ∧ log = []
      | Some t =>
          ∃ listed rest, log = Ev (ListPolicies (en_Namespace e) t) listed :: rest ∧
          match listed with
          | Err err => res = Err err ∧ ws' = ws ∧ rest = []
          | Ok policies =>
              is_ok res = true ∧
              match t with
              | CaptureTriggerSuricataAlert => ws' = ws
              | CaptureTriggerHubbleDrop =>
                  ∀ uid w, ws' !! uid = Some w → uid ∈ uids policies ∧
                    (ws !! uid = Some w ∨
                     ∃ p, p ∈ policies ∧ m_UID (cp_Meta p) = uid ∧ Some (pw_threshold w) = threshold_of p)
              end
          end
      end) [].
Proof.
  unfold Evaluate. destruct (triggerTypeFor obs) as [t|] eqn:Et; [|done].
  apply wp_logged. intros listed. cbn [app]. destruct listed as [policies|err]; [|by eexists _, _].
  set (start := match t with CaptureTriggerSuricataAlert => ws | CaptureTriggerHubbleDrop => pruneWindows policies ws end).
  apply wp_bind. eapply wp_mono; [|apply (evaluate_loop_windows e policies obs start _
    (λ ws', match t with
      | CaptureTriggerSuricataAlert => ws' = ws
      | CaptureTriggerHubbleDrop =>
          ∀ uid w, ws' !! uid = Some w → uid ∈ uids policies ∧
            (ws !! uid = Some w ∨
             ∃ p, p ∈ policies ∧ m_UID (cp_Meta p) = uid ∧ Some (pw_threshold w) = threshold_of p)
      end))].
  - intros [results ws'] log [HP [l ->]]. eexists _, l. split; [done|]. by split.
  - intros p ws1 Hp HP. destruct t.
    + subst ws1. by apply match_windows_alert.
    + intros uid w [Hw|[-> Hth]]%match_windows; [by apply HP|].
      split; [unfold uids; set_solver|]. right. by exists p.
  - unfold start. destruct t; [done|]. intros uid w [Hw Hin]%map_lookup_filter_Some. simpl in Hin.
    split; [done|by left].
Qed.

(** ** Witnesses and a run *)

Definition example_engine : EngineConfig := mkEngine (mkActor "system:worker" "" []) "trawl".

Definition example_policy (uid : str) : CapturePolicy :=
  mkCapturePolicy (mkMeta "alerts" "trawl" uid 3 0 None ∅ [])
    (mkCapturePolicySpec "edge" true
      (mkPolicyTrigger CaptureTriggerSuricataAlert (Some (mkSuricataTrigger [1; 2] [] [])) None)
      (mkPolicyBounds "60s" "host {{source.ip}}" 0 (bytes_quantity 1048576)) "7d" (mkRateLimit 2 (5 * minute))).

Definition example_tap : NetworkTap :=
  mkNetworkTap (mkMeta "edge" "trawl" "tap-1" 1 0 None ∅ [])
    (mkNetworkTapSpec TapModePassive TapSourceNodeInterface None
      (Some (mkInterfaceSource "eth0" false (mkSelector {["role" := "edge"]} [])))
      (mkAnalyzers (mkAnalyzerConfig false None None) (mkAnalyzerConfig false None None)))
    (mkNetworkTapStatus 1 TapPhaseActive 1 1 None
      [mkTargetStatus "node-a" "eth0" None "" (10 * minute) None 0 None None DuplicationUnknown 0 []]
      [mkCondition "Accepted" ConditionTrue 1 0 "" ""]).

Definition example_alert : Observation :=
  mkObs "" "id-1" (10 * minute) (10 * minute) (mkSource SourceSuricata "") (Some (mkTap "trawl" "edge" "tap-1"))
    (mkTarget "node-a" "eth0" "") TypeSignature
    (Some (mkFlow "" "" "tcp" None (mkEndpoint "192.0.2.7" (Some 40000) "" "" "" "")
      (mkEndpoint "192.0.2.8" (Some 443) "" "" "" "")))
    (mkDetails (Some (mkSignature 2024001 None 1 "trojan" "message" "")) None None None None None None None None None).

(** A cluster where everything answers. *)
Definition example_cluster (X : Type) (e : engineE X) (log : list effect) : X * list effect :=
  match e with
  | ListPolicies _ _ => (Ok [example_policy "p-1"], log)
  | GetPolicy _ _ => (Ok (example_policy "p-1"), log)
  | GetTap _ _ => (Ok example_tap, log)
  | GetJob _ _ => (Err (NotFound ""), log)
  | ListJobs _ _ => (Ok [], log)
  | CreateJob job => (Ok tt, log ++ [Requested job (Ok tt)])
  | CommitRecord rec => (Ok tt, log ++ [Recorded rec true])
  | Now => (11 * minute, log)
  end.

(** An alert becomes one capture of its conversation on the node that saw it. *)
Example alert_captured :
  let '((res, _), log) := run example_cluster (Evaluate example_engine example_alert ∅) [] in
  (match res with Ok rs => res_Outcome <$> rs | Err _ => [] end) = [OutcomeCreated] ∧
  (match log with
   | [Recorded i true; Requested job (Ok _); Recorded o true] =>
       (r_Decision i, cjs_Filter (cj_Spec job), cjs_TargetNode (cj_Spec job), r_Decision o)
   | _ => ("", "", "", "")
   end) = (DecisionAllowed, "host 192.0.2.7", "node-a", DecisionSucceeded).
Proof. vm_compute. split; reflexivity. Qed.

Lemma policy_records_identity_witness :
  let p := example_policy "p-1" in
  let job := policy_job p example_tap "sha256:00" (CaptureJobName "sha256:00") "" "" (mkTriggerSnapshot
    TriggerSourceSuricataAlert "" 0 0 None None None) in
  let job' := policy_job p example_tap "sha256:00" (CaptureJobName "sha256:00") "node-a" "tcp" (mkTriggerSnapshot
    TriggerSourceSuricataAlert "" 0 0 None None None) in
  action_of (stamped (policy_record example_engine p job DecisionAllowed "request" "" 1) 1) =
  action_of (stamped (policy_record example_engine p job' DecisionAllowed "request" "" 2) 3).
Proof.
  intros p job job'.
  apply (policy_records_identity example_engine p "sha256:00" job job' DecisionAllowed "request" "" "" 1 2 1 3
    p "sha256:00" job' DecisionAllowed "request");
    first [by split_and!|by left|by (right; left)|by (left; reflexivity)|reflexivity|idtac].
Defined.

End Engine.
