(* ===== verification/Admission.v ===== *)
(** * Admission, internal/admission

    The gate every mutation passes (server.go) and the webhooks of CaptureJob
    and CapturePolicy.  A webhook is a program over its calls: the audit
    committer and the clock.  The object is what the API server decoded; the
    request, when there is one, carries the caller's authenticated identity.
    [sanitize] and the wording of an invalid-object error are the API
    machinery's to render, so a field error keeps its kind, path and texts. *)

From S2P Require Import Prelude GoTime GoString Utf8 Sha256 Sanitize Api Duration Bounds.
From S2P Require Import CaptureState Observation Policy Template Prog AuditModel Engine.

Module Admission.
Import AuditModel Template.

(** ** server.go *)

Inductive Operation := Create | Update | Delete | Connect.

Record Request := mkRequest {
  rq_UID : str;
  rq_Group : str;
  rq_Kind : str;
  rq_Operation : Operation;
  rq_Namespace : str;
  rq_Name : str;
  rq_Username : str;
  rq_UserUID : str;
  rq_Groups : list str;
  rq_Object : str;
  rq_OldObject : str;
}.

Inductive field_error :=
  | TooLong (path : str) (limit : Z)
  | Invalid (path value detail : str)
  | ForbiddenField (path detail : str)
  | Required (path detail : str)
  | NotSupported (path value : str) (supported : list str)
  | Duplicate (path value : str)
  | InvalidTemplate (path : str) (e : template_error).

Inductive admission_error :=
  | WrongNamespace (system namespace : str)
  | InvalidObject (errs : list field_error)
  | NotRetentionAdmin
  | NoAuditAction (kind : str) (op : Operation)
  | AuditUnavailable (cause : str).

Inductive admissionE : Type → Type :=
  | CommitRecord (rec : Record_) : admissionE (result str unit)
  | Now : admissionE time.

(** [g_HasAudit] is [g.Audit != nil]. *)
Record Gate := mkGate { g_SystemNamespace : str; g_HasAudit : bool }.

Definition CheckNamespace (g : Gate) (namespace : str) : option admission_error :=
  if bool_decide (namespace = g_SystemNamespace g) then None
  else Some (WrongNamespace (g_SystemNamespace g) (Sanitize.String_ namespace)).

Definition ActorFrom (req : Request) : Actor := mkActor (rq_Username req) (rq_UserUID req) (rq_Groups req).

Definition ActionFor (kind : str) (op : Operation) : result admission_error str :=
  let by_op create update delete :=
    match op with
    | Create => Ok create
    | Update => Ok update
    | Delete => Ok delete
    | Connect => Err (NoAuditAction kind op)
    end in
  if bool_decide (kind = "NetworkTap") then by_op "networktap.create" "networktap.update" "networktap.delete"
  else if bool_decide (kind = "CapturePolicy")
  then by_op "capturepolicy.create" "capturepolicy.update" "capturepolicy.delete"
  else if bool_decide (kind = "PortMirror") then by_op "portmirror.create" "portmirror.update" "portmirror.delete"
  else if bool_decide (kind = "CaptureJob") then
    match op with
    | Create => Ok ActionCaptureJobManualCreate
    | Update => Ok ActionRetentionChange
    | _ => Err (NoAuditAction kind op)
    end
  else Err (NoAuditAction kind op).

Definition reply : Type := option admission_error.

Section json.
(** encoding/json's reading of [metadata.uid]: nothing when the bytes are not
    such an object. *)
Context (decode_uid : str → option str).

Fixpoint first_uid (raws : list str) : str :=
  match raws with
  | [] => ""
  | raw :: rest =>
      if bool_decide (raw = "") then first_uid rest else
      match decode_uid raw with
      | None => first_uid rest
      | Some uid => if bool_decide (uid = "") then first_uid rest else uid
      end
  end.

Definition objectUID (req : Request) : str := first_uid [rq_Object req; rq_OldObject req].

Definition ResourceFrom (req : Request) : Resource :=
  mkResource (rq_Group req) (rq_Kind req) (rq_Namespace req) (rq_Name req) (objectUID req).

Definition admission_record (req : Request) (action decision reason : str) : Record_ :=
  mkRecord "" 0 action decision reason "" (ActorFrom req) (ResourceFrom req) (rq_UID req)
    (StableKeyForAdmission (rq_UID req) action decision) "" "" 0.

Definition CommitMutationAs (g : Gate) (req : Request) (action decision reason : str) : prog admissionE reply :=
  if negb (g_HasAudit g) then Ret (Some (AuditUnavailable "")) else
  let! res := call (CommitRecord (admission_record req action decision reason)) in
  Ret match res with
      | Ok _ => None
      | Err text => Some (AuditUnavailable (Sanitize.String_ text))
      end.

Definition CommitMutation (g : Gate) (req : Request) (decision reason : str) : prog admissionE reply :=
  match ActionFor (rq_Kind req) (rq_Operation req) with
  | Err e => Ret (Some e)
  | Ok action => CommitMutationAs g req action decision reason
  end.

(** ** Retention texts, shared by two webhooks *)

Definition retentionExceeds (retention : str) (ceiling : duration) : bool :=
  match Config.ParseDuration retention with
  | Err _ => false
  | Ok d => ceiling <? d
  end.

Definition formatRetention (d : duration) : str :=
  if (0 <? d) && (Z.rem d (24 * hour) =? 0) then itoa (Z.quot d (24 * hour)) +:+ "d"
  else GoDuration.String_ d.

(** What the webhooks read of the installation's configuration. *)
Record InstallConfig := mkInstallConfig {
  ic_CaptureRetentionCeiling : duration;
  ic_EventWorkerServiceAccount : str;
  ic_RetentionAdminUsers : list str;
  ic_RetentionAdminGroups : list str;
}.

Definition retentionCeiling (config : option InstallConfig) : duration :=
  match config with
  | None => Config.DefaultCaptureRetentionCeiling
  | Some c =>
      if ic_CaptureRetentionCeiling c <=? 0 then Config.DefaultCaptureRetentionCeiling
      else ic_CaptureRetentionCeiling c
  end.

(** [Default]'s two steps, the same for both kinds. *)
Definition clamp_retention (ceiling : duration) (retention : str) : str :=
  if bool_decide (retention = "") || retentionExceeds retention ceiling
  then formatRetention ceiling else retention.

Definition requester (m : ObjectMeta) : str := default "" (m_Annotations m !! AnnotationRequester).

Definition stamp_requester (req : option Request) (m : ObjectMeta) : ObjectMeta :=
  match req with
  | Some req =>
      match rq_Operation req with
      | Create =>
          if bool_decide (requester m = "") then
            mkMeta (m_Name m) (m_Namespace m) (m_UID m) (m_Generation m) (m_CreationTimestamp m)
              (m_DeletionTimestamp m) (<[AnnotationRequester := rq_Username req]> (m_Annotations m))
              (m_Finalizers m)
          else m
      | _ => m
      end
  | None => m
  end.

(** ** capturejob_webhook.go *)

Definition minCaptureDuration : duration := second.
Definition maxCaptureDuration : duration := hour.
Definition minSnaplen : Z := 64.
Definition maxSnaplen : Z := 262144.
Definition minRetention : duration := hour.
Definition maxFilterBytes : Z := 1024.
Definition minCaptureSize : Quantity := bytes_quantity 1048576.
Definition maxCaptureSize : Quantity := bytes_quantity 1073741824.

(** The checks both kinds make, at the paths of each. *)
Definition check_duration (path s : str) : list field_error :=
  match GoDuration.ParseDuration s with
  | None => [Invalid path s "must be a duration such as 30s or 5m"]
  | Some d =>
      if (d <? minCaptureDuration) || (maxCaptureDuration <? d)
      then [Invalid path s "must be between 1s and 1h"] else []
  end.

Definition check_snaplen (path : str) (n : Z) : list field_error :=
  if negb (n =? 0) && ((n <? minSnaplen) || (maxSnaplen <? n))
  then [Invalid path (itoa n) "must be 0 or between 64 and 262144"] else [].

Definition check_size (path : str) (q : Quantity) : list field_error :=
  match q_Cmp q minCaptureSize, q_Cmp q maxCaptureSize with
  | Lt, _ | _, Gt => [Invalid path (q_text q) "must be between 1Mi and 1Gi"]
  | _, _ => []
  end.

Definition check_retention (path s : str) (ceiling : duration) : list field_error :=
  match Config.ParseDuration s with
  | Err _ => [Invalid path s "must be a duration such as 12h or 7d"]
  | Ok r =>
      if (r <? minRetention) || (ceiling <? r)
      then [Invalid path s ("must be between 1h and the installation ceiling of " +:+ formatRetention ceiling)]
      else []
  end.

(** A rune that is not printable ASCII has a byte that is not, and conversely:
    every byte past 127 decodes to a rune past it. *)
Definition check_filter (path s : str) : list field_error :=
  if maxFilterBytes <? slen s then [TooLong path maxFilterBytes]
  else if negb (str_forallb Bounds.printable s) then [Invalid path "" "filter must be printable ASCII"] else [].

Definition ValidateCaptureJobSpec (spec : CaptureJobSpec) (ceiling : duration) : list field_error :=
  check_filter "spec.filter" (cjs_Filter spec) ++
  check_duration "spec.duration" (cjs_Duration spec) ++
  check_snaplen "spec.snaplen" (cjs_Snaplen spec) ++
  check_size "spec.maxSize" (cjs_MaxSize spec) ++
  check_retention "spec.retention" (cjs_Retention spec) ceiling.

Record CaptureJobWebhook := mkCaptureJobWebhook { cw_Gate : Gate; cw_Config : option InstallConfig }.

Definition with_request (spec : CaptureJobSpec) (type : CaptureRequestType) (retention : str) : CaptureJobSpec :=
  mkCaptureJobSpec type (cjs_TapRef spec) (cjs_TargetNode spec) (cjs_Filter spec) (cjs_Duration spec)
    (cjs_Snaplen spec) (cjs_MaxSize spec) retention (cjs_PolicyRef spec) (cjs_Trigger spec)
    (cjs_DeduplicationKey spec).

Definition Default (w : CaptureJobWebhook) (req : option Request) (job : CaptureJob) : CaptureJob :=
  let type := match cjs_RequestType (cj_Spec job) with
              | CaptureRequestUnset => CaptureRequestManual
              | t => t
              end in
  mkCaptureJob (stamp_requester req (cj_Meta job))
    (with_request (cj_Spec job) type
       (clamp_retention (retentionCeiling (cw_Config w)) (cjs_Retention (cj_Spec job))))
    (cj_Status job).

Definition eventWorkerIdentity (w : CaptureJobWebhook) : str :=
  let sa := match cw_Config w with
            | Some c => if bool_decide (ic_EventWorkerServiceAccount c = "") then "event-worker"
                        else ic_EventWorkerServiceAccount c
            | None => "event-worker"
            end in
  "system:serviceaccount:" +:+ g_SystemNamespace (cw_Gate w) +:+ ":" +:+ sa.

Definition isRetentionAdmin (w : CaptureJobWebhook) (req : Request) : bool :=
  match cw_Config w with
  | None => false
  | Some c =>
      bool_decide (rq_Username req ∈ ic_RetentionAdminUsers c) ||
      existsb (λ g, bool_decide (g ∈ ic_RetentionAdminGroups c)) (rq_Groups req)
  end.

Definition ValidateCreate (w : CaptureJobWebhook) (req : option Request) (job : CaptureJob) : prog admissionE reply :=
  match CheckNamespace (cw_Gate w) (m_Namespace (cj_Meta job)) with
  | Some e => Ret (Some e)
  | None =>
      match ValidateCaptureJobSpec (cj_Spec job) (retentionCeiling (cw_Config w)), req with
      | (_ :: _) as errs, _ => Ret (Some (InvalidObject errs))
      | [], None => Ret None
      | [], Some req =>
          match cjs_RequestType (cj_Spec job) with
          | CaptureRequestPolicy =>
              if negb (bool_decide (rq_Username req = eventWorkerIdentity w))
              then Ret (Some (InvalidObject [ForbiddenField "spec.requestType"
                     "requestType Policy may only be set by the event worker"]))
              else CommitMutationAs (cw_Gate w) req ActionCaptureJobPolicyCreate DecisionAllowed "Accepted"
          | _ => CommitMutationAs (cw_Gate w) req ActionCaptureJobManualCreate DecisionAllowed "Accepted"
          end
      end
  end.

(** The tail of [ValidateUpdate]: who may change a retention. *)
Definition authorize_retention (w : CaptureJobWebhook) (req : option Request) : prog admissionE reply :=
  match req with
  | None => Ret None
  | Some req =>
      if negb (isRetentionAdmin w req) then Ret (Some NotRetentionAdmin)
      else CommitMutationAs (cw_Gate w) req ActionRetentionChange DecisionAllowed "Accepted"
  end.

Definition ValidateUpdate (w : CaptureJobWebhook) (req : option Request) (old updated : CaptureJob) :
    prog admissionE reply :=
  match CheckNamespace (cw_Gate w) (m_Namespace (cj_Meta updated)) with
  | Some e => Ret (Some e)
  | None =>
      if negb (bool_decide (requester (cj_Meta old) = requester (cj_Meta updated)))
      then Ret (Some (InvalidObject [ForbiddenField ("metadata.annotations[" +:+ AnnotationRequester +:+ "]")
             "the requester is recorded at creation and cannot be changed"])) else
      if bool_decide (cjs_Retention (cj_Spec old) = cjs_Retention (cj_Spec updated)) then Ret None else
      match ValidateCaptureJobSpec (cj_Spec updated) (retentionCeiling (cw_Config w)) with
      | (_ :: _) as errs => Ret (Some (InvalidObject errs))
      | [] =>
          if bool_decide (cst_Phase (cj_Status old) = CapturePhaseExpired)
          then Ret (Some (InvalidObject [ForbiddenField "spec.retention"
                 "the artifact has expired; retention can no longer change"])) else
          match cst_RetentionDeadline (cj_Status old) with
          | None => authorize_retention w req
          | Some d =>
              let! now := call Now in
              if negb (t_before now d)
              then Ret (Some (InvalidObject [ForbiddenField "spec.retention"
                     "the retention deadline has passed; retention can no longer change"]))
              else authorize_retention w req
          end
      end
  end.

Definition ValidateDelete (w : CaptureJobWebhook) (job : CaptureJob) : reply :=
  CheckNamespace (cw_Gate w) (m_Namespace (cj_Meta job)).

(** ** capturepolicy_webhook.go *)

Definition minCapturesPerHour : Z := 1.
Definition maxCapturesPerHour : Z := 100.
Definition minCooldown : duration := second.
Definition maxCooldown : duration := hour.

Definition ValidateCapturePolicySpec (spec : CapturePolicySpec) (ceiling : duration) : list field_error :=
  let capture := cps_Capture spec in
  let n := crl_MaxCapturesPerHour (cps_RateLimit spec) in
  let d := crl_Cooldown (cps_RateLimit spec) in
  match ValidateFilterTemplate (pcb_FilterTemplate capture) with
  | Err e => [InvalidTemplate "spec.capture.filterTemplate" e]
  | Ok _ => []
  end ++
  check_duration "spec.capture.duration" (pcb_Duration capture) ++
  check_snaplen "spec.capture.snaplen" (pcb_Snaplen capture) ++
  check_size "spec.capture.maxSize" (pcb_MaxSize capture) ++
  check_retention "spec.retention" (cps_Retention spec) ceiling ++
  (if (n <? minCapturesPerHour) || (maxCapturesPerHour <? n)
   then [Invalid "spec.rateLimit.maxCapturesPerHour" (itoa n) "must be between 1 and 100"] else []) ++
  (if (d <? minCooldown) || (maxCooldown <? d)
   then [Invalid "spec.rateLimit.cooldown" (GoDuration.String_ d) "must be between 1s and 1h"] else []).

Definition policy_Default (config : option InstallConfig) (req : option Request) (p : CapturePolicy) : CapturePolicy :=
  let spec := cp_Spec p in
  mkCapturePolicy (stamp_requester req (cp_Meta p))
    (mkCapturePolicySpec (cps_TapRef spec) (cps_Armed spec) (cps_Trigger spec) (cps_Capture spec)
       (clamp_retention (retentionCeiling config) (cps_Retention spec)) (cps_RateLimit spec)).

Definition policy_ValidateCreate (g : Gate) (config : option InstallConfig) (req : option Request)
    (p : CapturePolicy) : prog admissionE reply :=
  match CheckNamespace g (m_Namespace (cp_Meta p)) with
  | Some e => Ret (Some e)
  | None =>
      match ValidateCapturePolicySpec (cp_Spec p) (retentionCeiling config), req with
      | (_ :: _) as errs, _ => Ret (Some (InvalidObject errs))
      | [], None => Ret None
      | [], Some req =>
          CommitMutationAs g req (if cps_Armed (cp_Spec p) then "capturepolicy.arm" else "capturepolicy.create")
            DecisionAllowed "Accepted"
      end
  end.

Definition update_action (old updated : CapturePolicy) : str :=
  match cps_Armed (cp_Spec old), cps_Armed (cp_Spec updated) with
  | false, true => "capturepolicy.arm"
  | true, false => "capturepolicy.disarm"
  | _, _ => "capturepolicy.update"
  end.

Definition policy_ValidateUpdate (g : Gate) (config : option InstallConfig) (req : option Request)
    (old updated : CapturePolicy) : prog admissionE reply :=
  match CheckNamespace g (m_Namespace (cp_Meta updated)) with
  | Some e => Ret (Some e)
  | None =>
      match ValidateCapturePolicySpec (cp_Spec updated) (retentionCeiling config), req with
      | (_ :: _) as errs, _ => Ret (Some (InvalidObject errs))
      | [], None => Ret None
      | [], Some req =>
          if negb (bool_decide (requester (cp_Meta old) = requester (cp_Meta updated)))
          then Ret (Some (InvalidObject [ForbiddenField ("metadata.annotations." +:+ AnnotationRequester)
                 "the requester annotation is set on create and cannot be changed"]))
          else CommitMutationAs g req (update_action old updated) DecisionAllowed "Accepted"
      end
  end.

Definition policy_ValidateDelete (g : Gate) (req : option Request) (p : CapturePolicy) : prog admissionE reply :=
  match CheckNamespace g (m_Namespace (cp_Meta p)), req with
  | Some e, _ => Ret (Some e)
  | None, None => Ret None
  | None, Some req => CommitMutationAs g req "capturepolicy.delete" DecisionAllowed "Accepted"
  end.

(** ** Lemmas *)

Lemma CheckNamespace_spec g ns :
  CheckNamespace g ns = None ↔ ns = g_SystemNamespace g.
Proof. unfold CheckNamespace. case_bool_decide; naive_solver. Qed.

(** Admitted through the gate: one acknowledged record, the caller's. *)
Definition recorded (req : Request) (action : str) (log : list (event admissionE)) : Prop :=
  log = [Ev (CommitRecord (admission_record req action DecisionAllowed "Accepted")) (Ok tt)].

Lemma CommitMutationAs_wp g req action log :
  wp (@logged admissionE) (CommitMutationAs g req action DecisionAllowed "Accepted")
    (λ r log', r = None → ∃ l, log' = log ++ l ∧ recorded req action l) log.
Proof.
  unfold CommitMutationAs. destruct (g_HasAudit g); [|done]. apply wp_logged. intros [[]|text]; [|done].
  intros _. by eexists.
Qed.

Lemma CommitMutationAs_empty g req action :
  wp (@logged admissionE) (CommitMutationAs g req action DecisionAllowed "Accepted")
    (λ r log, r = None → recorded req action log) [].
Proof.
  eapply wp_mono; [|apply CommitMutationAs_wp]. intros r log Hr Hn. by destruct (Hr Hn) as (l & -> & Hl).
Qed.

Lemma check_duration_ok path s :
  check_duration path s = [] → ∃ d, Config.ParseDuration s = Ok d ∧ second ≤ d ≤ hour.
Proof.
  unfold check_duration, minCaptureDuration, maxCaptureDuration.
  destruct (GoDuration.ParseDuration s) as [d|] eqn:E; [|done]. intros H. go_cases.
  exists d. split; [|lia]. apply DurationText.ParseDuration_config; [done|].
  assert (0 < second) by done. lia.
Qed.

Lemma check_snaplen_ok path n : check_snaplen path n = [] → n = 0 ∨ 64 ≤ n ≤ 262144.
Proof. clear decode_uid. unfold check_snaplen, minSnaplen, maxSnaplen. intros H. go_cases; naive_solver lia. Qed.

Lemma check_size_ok path q :
  check_size path q = [] → 1048576 * 1000000000 ≤ q_nano q ≤ 1073741824 * 1000000000.
Proof.
  unfold check_size, q_Cmp. simpl. destruct (Z.compare_spec (q_nano q) (1048576 * 1000000000)),
    (Z.compare_spec (q_nano q) (1073741824 * 1000000000)); try done; intros _; lia.
Qed.

Lemma check_retention_ok path s ceiling :
  check_retention path s ceiling = [] → ∃ r, Config.ParseDuration s = Ok r ∧ hour ≤ r ≤ ceiling.
Proof.
  unfold check_retention, minRetention. destruct (Config.ParseDuration s) as [r|] eqn:E; [|done].
  intros H. go_cases. eexists. split; [done|]. lia.
Qed.

Lemma check_filter_ok path s :
  check_filter path s = [] ↔ slen s ≤ 1024 ∧ str_forallb Bounds.printable s = true.
Proof.
  clear decode_uid. unfold check_filter, maxFilterBytes. destruct (Z.ltb_spec 1024 (slen s)); [naive_solver lia|].
  destruct (str_forallb _ _); naive_solver lia.
Qed.

Lemma formatRetention_parses d :
  0 < d ≤ max_int64 → d mod second = 0 → Config.ParseDuration (formatRetention d) = Ok d.
Proof.
  intros Hd Hs. unfold formatRetention. rewrite (proj2 (Z.ltb_lt _ _)) by lia. cbn [andb].
  assert (0 < 24 * hour) as Hday by done.
  rewrite Z.rem_mod_nonneg, Z.quot_div_nonneg by lia.
  destruct (Z.eqb_spec (d mod (24 * hour)) 0) as [E|_].
  - assert (d = d / (24 * hour) * (24 * hour)) as Ed by (rewrite (Z.div_mod d (24 * hour)) at 1 by done; lia).
    assert (0 ≤ d / (24 * hour)) by (apply Z.div_pos; lia).
    assert (d / (24 * hour) ≤ 106751).
    { apply Z.lt_succ_r, Z.div_lt_upper_bound; [done|]. change (24 * hour) with 86400000000000.
      unfold max_int64 in Hd. lia. }
    rewrite ConfigLemmas.ParseDuration_days_raw by (unfold max_int64; lia).
    rewrite ConfigLemmas.day_form_value by lia. f_equal. rewrite Ed at 2. lia.
  - apply DurationText.ParseDuration_config; [|lia]. by apply DurationText.String_roundtrip.
Qed.

(** A retention change that was let through. *)
Definition retention_authorized (w : CaptureJobWebhook) (req : Request) (old updated : CaptureJob)
    (log : list (event admissionE)) : Prop :=
  isRetentionAdmin w req = true ∧
  ValidateCaptureJobSpec (cj_Spec updated) (retentionCeiling (cw_Config w)) = [] ∧
  cst_Phase (cj_Status old) ≠ CapturePhaseExpired ∧
  ∃ pre l, log = pre ++ l ∧ recorded req ActionRetentionChange l ∧
    match cst_RetentionDeadline (cj_Status old) with
    | None => pre = []
    | Some d => ∃ now, pre = [Ev Now now] ∧ now < d
    end.

Lemma ValidateCreate_wp w req job :
  wp (@logged admissionE) (ValidateCreate w (Some req) job)
    (λ r log, r = None →
      m_Namespace (cj_Meta job) = g_SystemNamespace (cw_Gate w) ∧
      ValidateCaptureJobSpec (cj_Spec job) (retentionCeiling (cw_Config w)) = [] ∧
      if bool_decide (cjs_RequestType (cj_Spec job) = CaptureRequestPolicy)
      then rq_Username req = eventWorkerIdentity w ∧ recorded req ActionCaptureJobPolicyCreate log
      else recorded req ActionCaptureJobManualCreate log) [].
Proof.
  unfold ValidateCreate. destruct (CheckNamespace _ _) eqn:En; [done|]. apply CheckNamespace_spec in En.
  destruct (ValidateCaptureJobSpec _ _) eqn:Es; [|done].
  destruct (cjs_RequestType (cj_Spec job)) eqn:Et; case_bool_decide; try done;
    try (eapply wp_mono; [|apply CommitMutationAs_empty]; intros r log Hr Hn; split_and!; auto; done).
  case_bool_decide as Hu; [|done]. cbn [negb].
  eapply wp_mono; [|apply CommitMutationAs_empty]. intros r log Hr Hn. split_and!; auto.
Qed.

Lemma authorize_retention_wp w req log :
  wp (@logged admissionE) (authorize_retention w (Some req))
    (λ r log', r = None → isRetentionAdmin w req = true ∧ ∃ l, log' = log ++ l ∧ recorded req ActionRetentionChange l) log.
Proof.
  unfold authorize_retention. destruct (isRetentionAdmin w req); [|done].
  eapply wp_mono; [|apply CommitMutationAs_wp]. intros r log' Hr Hn. split; auto.
Qed.

Lemma ValidateUpdate_wp w req old updated :
  wp (@logged admissionE) (ValidateUpdate w (Some req) old updated)
    (λ r log, r = None →
      m_Namespace (cj_Meta updated) = g_SystemNamespace (cw_Gate w) ∧
      requester (cj_Meta old) = requester (cj_Meta updated) ∧
      (cjs_Retention (cj_Spec old) = cjs_Retention (cj_Spec updated) ∧ log = [] ∨
       cjs_Retention (cj_Spec old) ≠ cjs_Retention (cj_Spec updated) ∧
       retention_authorized w req old updated log)) [].
Proof.
  unfold ValidateUpdate. destruct (CheckNamespace _ _) eqn:En; [done|]. apply CheckNamespace_spec in En.
  case_bool_decide as Hq; [|done]. cbn [negb]. case_bool_decide as Hr; [intros _; auto|].
  destruct (ValidateCaptureJobSpec _ _) eqn:Es; [|done]. case_bool_decide as Hp; [done|].
  destruct (cst_RetentionDeadline (cj_Status old)) as [d|] eqn:Ed.
  - apply wp_logged. intros now. destruct (t_before now d) eqn:Ht; [|done]. cbn [negb].
    eapply wp_mono; [|apply authorize_retention_wp]. intros r log Hres Hn.
    destruct (Hres Hn) as (Ha & l & -> & Hl). split_and!; [done..|]. right. split; [done|].
    unfold retention_authorized. rewrite Ed. split_and!; [done..|]. exists [Ev Now now], l.
    split_and!; [done..|]. exists now. split; [done|]. by apply Z.ltb_lt.
  - eapply wp_mono; [|apply authorize_retention_wp]. intros r log Hres Hn.
    destruct (Hres Hn) as (Ha & l & -> & Hl). split_and!; [done..|]. right. split; [done|].
    unfold retention_authorized. rewrite Ed. split_and!; [done..|]. by exists [], l.
Qed.

Lemma policy_ValidateCreate_wp g config req p :
  wp (@logged admissionE) (policy_ValidateCreate g config (Some req) p)
    (λ r log, r = None →
      m_Namespace (cp_Meta p) = g_SystemNamespace g ∧
      ValidateCapturePolicySpec (cp_Spec p) (retentionCeiling config) = [] ∧
      recorded req (if cps_Armed (cp_Spec p) then "capturepolicy.arm" else "capturepolicy.create") log) [].
Proof.
  unfold policy_ValidateCreate. destruct (CheckNamespace _ _) eqn:En; [done|]. apply CheckNamespace_spec in En.
  destruct (ValidateCapturePolicySpec _ _) eqn:Es; [|done].
  eapply wp_mono; [|apply CommitMutationAs_empty]. intros r log Hr Hn. split_and!; auto.
Qed.

Lemma policy_ValidateUpdate_wp g config req old updated :
  wp (@logged admissionE) (policy_ValidateUpdate g config (Some req) old updated)
    (λ r log, r = None →
      m_Namespace (cp_Meta updated) = g_SystemNamespace g ∧
      ValidateCapturePolicySpec (cp_Spec updated) (retentionCeiling config) = [] ∧
      requester (cp_Meta old) = requester (cp_Meta updated) ∧
      recorded req (update_action old updated) log) [].
Proof.
  unfold policy_ValidateUpdate. destruct (CheckNamespace _ _) eqn:En; [done|]. apply CheckNamespace_spec in En.
  destruct (ValidateCapturePolicySpec _ _) eqn:Es; [|done]. case_bool_decide as Hq; [|done]. cbn [negb].
  eapply wp_mono; [|apply CommitMutationAs_empty]. intros r log Hr Hn. split_and!; auto.
Qed.

Lemma policy_ValidateDelete_wp g req p :
  wp (@logged admissionE) (policy_ValidateDelete g (Some req) p)
    (λ r log, r = None → m_Namespace (cp_Meta p) = g_SystemNamespace g ∧ recorded req "capturepolicy.delete" log) [].
Proof.
  unfold policy_ValidateDelete. destruct (CheckNamespace _ _) eqn:En; [done|]. apply CheckNamespace_spec in En.
  eapply wp_mono; [|apply CommitMutationAs_empty]. intros r log Hr Hn. split_and!; auto.
Qed.

(** ** Theorems *)

(** C35: No unrecorded change to a capture or a policy.  Whatever the ledger
    answers, a create, a retention change, a policy edit, an arming or a
    deletion that is admitted lies in the system namespace, is valid, and has
    its own acknowledged record carrying the API server's identity of the
    caller; a Policy-typed capture comes from the event worker; a retention
    change comes from a retention admin, strictly before the deadline and
    before expiry. *)
Theorem mutations_recorded w g config req job old updated p p_old p_new :
  wp (@logged admissionE) (ValidateCreate w (Some req) job)
    (λ r log, r = None →
      m_Namespace (cj_Meta job) = g_SystemNamespace (cw_Gate w) ∧
      ValidateCaptureJobSpec (cj_Spec job) (retentionCeiling (cw_Config w)) = [] ∧
      if bool_decide (cjs_RequestType (cj_Spec job) = CaptureRequestPolicy)
      then rq_Username req = eventWorkerIdentity w ∧ recorded req ActionCaptureJobPolicyCreate log
      else recorded req ActionCaptureJobManualCreate log) [] ∧
  wp (@logged admissionE) (ValidateUpdate w (Some req) old updated)
    (λ r log, r = None →
      m_Namespace (cj_Meta updated) = g_SystemNamespace (cw_Gate w) ∧
      requester (cj_Meta old) = requester (cj_Meta updated) ∧
      (cjs_Retention (cj_Spec old) = cjs_Retention (cj_Spec updated) ∧ log = [] ∨
       cjs_Retention (cj_Spec old) ≠ cjs_Retention (cj_Spec updated) ∧
       retention_authorized w req old updated log)) [] ∧
  wp (@logged admissionE) (policy_ValidateCreate g config (Some req) p)
    (λ r log, r = None →
      m_Namespace (cp_Meta p) = g_SystemNamespace g ∧
      ValidateCapturePolicySpec (cp_Spec p) (retentionCeiling config) = [] ∧
      recorded req (if cps_Armed (cp_Spec p) then "capturepolicy.arm" else "capturepolicy.create") log) [] ∧
  wp (@logged admissionE) (policy_ValidateUpdate g config (Some req) p_old p_new)
    (λ r log, r = None →
      m_Namespace (cp_Meta p_new) = g_SystemNamespace g ∧
      ValidateCapturePolicySpec (cp_Spec p_new) (retentionCeiling config) = [] ∧
      requester (cp_Meta p_old) = requester (cp_Meta p_new) ∧
      recorded req (update_action p_old p_new) log) [] ∧
  wp (@logged admissionE) (policy_ValidateDelete g (Some req) p)
    (λ r log, r = None → m_Namespace (cp_Meta p) = g_SystemNamespace g ∧ recorded req "capturepolicy.delete" log) [].
Proof.
  split_and!.
  - apply ValidateCreate_wp.
  - apply ValidateUpdate_wp.
  - apply policy_ValidateCreate_wp.
  - apply policy_ValidateUpdate_wp.
  - apply policy_ValidateDelete_wp.
Qed.

(** Raising what admission accepts is never needed for its own default.  A
    ceiling of whole seconds is written so that it parses back to itself, so
    a retention left blank or above the ceiling becomes one that passes, and
    an explicit retention within bounds is kept. *)
Theorem clamped_retention_admitted ceiling retention path :
  hour ≤ ceiling ≤ max_int64 → ceiling mod second = 0 →
  Config.ParseDuration (formatRetention ceiling) = Ok ceiling ∧
  (retention = "" ∨ retentionExceeds retention ceiling = true →
   clamp_retention ceiling retention = formatRetention ceiling ∧
   check_retention path (clamp_retention ceiling retention) ceiling = []) ∧
  (check_retention path retention ceiling = [] → clamp_retention ceiling retention = retention).
Proof.
  intros Hc Hs. assert (0 < hour) by done. pose proof (formatRetention_parses ceiling ltac:(lia) Hs) as Hp.
  split; [done|]. unfold clamp_retention. split.
  - intros Hr. assert (bool_decide (retention = "") || retentionExceeds retention ceiling = true) as ->.
    { destruct Hr as [->| ->]; [done|]. apply orb_true_r. }
    split; [done|]. unfold check_retention. rewrite Hp. unfold minRetention.
    by rewrite !(proj2 (Z.ltb_ge _ _)) by lia.
  - intros Hok. apply check_retention_ok in Hok as (r & Hr & Hb). unfold retentionExceeds. rewrite Hr.
    rewrite (proj2 (Z.ltb_ge _ _)) by lia. by rewrite bool_decide_eq_false_2 by (intros ->; done).
Qed.

(** Lowering the installation's ceiling freezes the captures above it.  The
    defaulting webhook runs on every update and clamps their retention, the
    validating webhook then sees a retention change nobody asked for, and
    refuses it from anyone but a retention admin, and from everyone once the
    capture has expired - the controller's removal of its own finalizer
    included. *)
Theorem lowered_ceiling_freezes w req old updated :
  let ceiling := retentionCeiling (cw_Config w) in
  0 < ceiling ≤ max_int64 → ceiling mod second = 0 →
  rq_Operation req = Update →
  cjs_Retention (cj_Spec updated) = cjs_Retention (cj_Spec old) →
  retentionExceeds (cjs_Retention (cj_Spec old)) ceiling = true →
  isRetentionAdmin w req = false ∨ cst_Phase (cj_Status old) = CapturePhaseExpired →
  wp (@logged admissionE) (ValidateUpdate w (Some req) old (Default w (Some req) updated))
    (λ r log, r ≠ None ∧ ∀ rec, Ev (CommitRecord rec) (Ok tt) ∉ log) [].
Proof.
  intros ceiling Hc Hs Hop Hsame Hex Hwho.
  assert (cjs_Retention (cj_Spec (Default w (Some req) updated)) = formatRetention ceiling) as Hnew.
  { unfold Default, with_request, clamp_retention. cbn [cj_Spec cjs_Retention]. fold ceiling.
    by rewrite Hsame, Hex, orb_true_r. }
  assert (cjs_Retention (cj_Spec old) ≠ formatRetention ceiling) as Hne.
  { intros E. rewrite E in Hex. unfold retentionExceeds in Hex. rewrite formatRetention_parses in Hex by done.
    by rewrite Z.ltb_irrefl in Hex. }
  assert (∀ rec, Ev (CommitRecord rec) (Ok tt) ∉ @nil (event admissionE)) as Hnil by set_solver.
  unfold ValidateUpdate. destruct (CheckNamespace _ _); [done|]. case_bool_decide; [|done]. cbn [negb].
  rewrite bool_decide_eq_false_2 by by rewrite Hnew.
  destruct (ValidateCaptureJobSpec _ _); [|done]. case_bool_decide as Hph; [done|].
  destruct Hwho as [Hwho|?]; [|done].
  assert (∀ log, (∀ rec, Ev (CommitRecord rec) (Ok tt) ∉ log) →
    wp (@logged admissionE) (authorize_retention w (Some req))
      (λ r log', r ≠ None ∧ ∀ rec, Ev (CommitRecord rec) (Ok tt) ∉ log') log) as Ha.
  { intros log Hlog. unfold authorize_retention. by rewrite Hwho. }
  destruct (cst_RetentionDeadline _) as [d|]; [|by apply Ha]. apply wp_logged. intros now.
  assert (∀ rec, Ev (CommitRecord rec) (Ok tt) ∉ [Ev Now now]) as Hnow.
  { intros rec [Heq|?%elem_of_nil]%elem_of_cons; [|done]. inversion Heq. }
  destruct (negb _); [done|]. by apply Ha.
Qed.

End json.

(** What admission accepts can run.  A spec the webhook and the controller
    accept has runnable bounds, the ones written in it, a filter dumpcap can
    be given and a retention deadline - provided its size is a whole number of
    bytes.  A size that is not passes the check too and has no bounds: the
    controller then reports its runner as unavailable on every pass. *)
Theorem admitted_spec_runs spec ceiling :
  ValidateCaptureJobSpec spec ceiling = [] → quantity_exact (cjs_MaxSize spec) →
  Bounds.ValidateFilterSyntax (cjs_Filter spec) = Ok tt ∧
  (∀ completedAt, ∃ r, CaptureState.RetentionDeadline completedAt (cjs_Retention spec) = Ok (t_add completedAt r) ∧
     hour ≤ r ≤ ceiling) ∧
  match q_int64 (cjs_MaxSize spec) with
  | Some size => ∃ b, Bounds.ParseBounds spec = Ok b ∧ Bounds.b_MaxSizeBytes b = size
  | None => Bounds.ParseBounds spec = Err "maxSize: must be a whole number of bytes"
  end.
Proof.
  unfold ValidateCaptureJobSpec. intros [Hf [Hd [Hn [Hs Hr]%app_nil]%app_nil]%app_nil]%app_nil Hq.
  apply check_filter_ok in Hf. apply check_duration_ok in Hd as (d & Hd & Hdb).
  apply check_snaplen_ok in Hn. apply check_size_ok in Hs. apply check_retention_ok in Hr as (r & Hr & Hrb).
  split; [by apply Bounds.ValidateFilterSyntax_Ok|]. split.
  { intros t. exists r. unfold CaptureState.RetentionDeadline. by rewrite Hr. }
  destruct (q_int64 _) as [size|] eqn:Eq.
  - exists (Bounds.mkBounds d size (cjs_Snaplen spec)). split; [|done]. apply Bounds.ParseBounds_Ok. simpl.
    apply Hq in Eq as Hnano. split_and!; [done..|]. unfold Bounds.valid_bounds. simpl.
    unfold Bounds.MinDuration, Bounds.MaxDuration, Bounds.MinSizeBytes, Bounds.MaxSizeBytes,
      Bounds.MinSnaplen, Bounds.MaxSnaplen. split_and!; (lia || done).
  - unfold Bounds.ParseBounds. rewrite Hd, Eq. unfold Bounds.MinDuration, Bounds.MaxDuration.
    by rewrite !(proj2 (Z.ltb_ge _ _)) by lia.
Qed.

(** The two webhooks agree.  Every capture the engine builds for an admitted
    policy is one the CaptureJob webhook and the controller accept, whatever
    the observation put into its filter. *)
Theorem policy_captures_admitted p tap obs key name target filter snap ceiling :
  ValidateCapturePolicySpec (cp_Spec p) ceiling = [] →
  (if bool_decide (pcb_FilterTemplate (cps_Capture (cp_Spec p)) = "") then Ok ""
   else RenderFilter (pcb_FilterTemplate (cps_Capture (cp_Spec p))) obs) = Ok filter →
  ValidateCaptureJobSpec (cj_Spec (Engine.policy_job p tap key name target filter snap)) ceiling = [].
Proof.
  unfold ValidateCapturePolicySpec, ValidateCaptureJobSpec. cbn [Engine.policy_job cj_Spec cjs_Filter
    cjs_Duration cjs_Snaplen cjs_MaxSize cjs_Retention].
  intros [_ [Hd [Hn [Hs [Hr _]%app_nil]%app_nil]%app_nil]%app_nil]%app_nil Hfilter.
  assert (check_filter "spec.filter" filter = []) as ->.
  { apply check_filter_ok. case_bool_decide; [by simplify_eq|]. by apply RenderFilter_valid in Hfilter. }
  revert Hd Hn Hs Hr. unfold check_duration, check_snaplen, check_size, check_retention.
  repeat case_match; try done.
Qed.

(** ** Witnesses *)

Definition example_webhook : CaptureJobWebhook :=
  mkCaptureJobWebhook (mkGate "trawl-system" true) (Some (mkInstallConfig (168 * hour) "" [] [])).

(** A capture stored under the default ceiling of thirty days. *)
Definition example_capture : CaptureJob :=
  mkCaptureJob (mkMeta "c" "trawl-system" "uid" 1 0 (Some 5) ∅ ["trawl.cloud/capturejob-cleanup"])
    (mkCaptureJobSpec CaptureRequestManual "edge" "node-a" "tcp" "30s" 96 (bytes_quantity 1048576) "30d" None None "")
    zero_status.

(** Its finalizer removed. *)
Definition example_released : CaptureJob :=
  mkCaptureJob (mkMeta "c" "trawl-system" "uid" 1 0 (Some 5) ∅ []) (cj_Spec example_capture) zero_status.

Definition example_update : Request :=
  mkRequest "req" "trawl.cloud" "CaptureJob" Update "trawl-system" "c"
    "system:serviceaccount:trawl-system:trawl-controller-manager" "" [] "" "".

Lemma clamped_retention_admitted_witness :
  clamp_retention (36 * hour) "30d" = "36h0m0s" ∧ check_retention "spec.retention" "36h0m0s" (36 * hour) = [].
Proof.
  destruct (clamped_retention_admitted (36 * hour) "30d" "spec.retention") as (_ & Hc & _);
    [vm_compute; split; discriminate|reflexivity|].
  apply Hc. right. vm_compute. reflexivity.
Defined.

Lemma lowered_ceiling_freezes_witness :
  wp (@logged admissionE)
    (ValidateUpdate (λ _, None) example_webhook (Some example_update) example_capture
       (Default example_webhook (Some example_update) example_released))
    (λ r log, r ≠ None ∧ ∀ rec, Ev (CommitRecord rec) (Ok tt) ∉ log) [].
Proof.
  apply lowered_ceiling_freezes; try reflexivity.
  - vm_compute. split; [reflexivity|discriminate].
  - by left.
Defined.

Lemma admitted_spec_runs_witness :
  Bounds.ValidateFilterSyntax "tcp" = Ok tt ∧
  Bounds.ParseBounds (mkCaptureJobSpec CaptureRequestManual "edge" "node-a" "tcp" "30s" 96
    (mkQuantity 1048576500000000 None "1048576500m") "30d" None None "") =
  Err "maxSize: must be a whole number of bytes".
Proof.
  edestruct (admitted_spec_runs (mkCaptureJobSpec CaptureRequestManual "edge" "node-a" "tcp" "30s" 96
    (mkQuantity 1048576500000000 None "1048576500m") "30d" None None "") (720 * hour)) as (H1 & _ & H3);
    [vm_compute; reflexivity|by intros n Hn|].
  split; [exact H1|exact H3].
Defined.

Lemma policy_captures_admitted_witness :
  ValidateCaptureJobSpec
    (cj_Spec (Engine.policy_job (Engine.example_policy "p-1") Engine.example_tap "k" "n" "node-a" "host 192.0.2.7"
       (mkTriggerSnapshot TriggerSourceSuricataAlert "f" 0 0 None None None))) (720 * hour) = [].
Proof.
  apply (policy_captures_admitted _ _ Engine.example_alert); vm_compute; reflexivity.
Defined.

End Admission.
