(* ===== verification/PortMirror.v ===== *)
(** * Port mirrors, api/v1alpha1/portmirror_types.go and
    internal/admission/portmirror_webhook.go

    The resource that asks a switch for a mirror, the rules its spec is held
    to, and its webhook: a program over admission's calls, as the other
    webhooks are.  [mirror_of] is the driver's request a spec stands for. *)

From S2P Require Import Prelude GoTime GoString Sanitize Api Prog AuditModel Admission Fabric.

Module PortMirror.
Import Admission AuditModel.

(** ** portmirror_types.go *)

Definition MirrorProviderMikroTikRouterOS7 : str := "MikroTikRouterOS7".
Definition MirrorProviderMikroTikRouterOS7SSH : str := "MikroTikRouterOS7SSH".

Definition MirrorDirectionBoth : str := "Both".
Definition MirrorDirectionIngress : str := "Ingress".
Definition MirrorDirectionEgress : str := "Egress".

Inductive PortMirrorPhase := PortMirrorUnset | PortMirrorPending | PortMirrorActive | PortMirrorDegraded | PortMirrorError.

(** [pms_DeviceRef] is the name in the reference. *)
Record PortMirrorSpec := mkSpec {
  pms_Provider : str;
  pms_DeviceRef : str;
  pms_Sources : list str;
  pms_Target : str;
  pms_Direction : str;
}.

Record PortMirrorStatus := mkStatus {
  pmt_ObservedGeneration : Z;
  pmt_Phase : PortMirrorPhase;
  pmt_ObservedSources : list str;
  pmt_ObservedTarget : str;
  pmt_ObservedDirections : gmap string str;
  pmt_DeviceIdentity : str;
  pmt_LastVerifiedTime : option time;
  pmt_Conditions : list Condition;
}.

Record PortMirror := mkPortMirror {
  pm_Meta : ObjectMeta;
  pm_Spec : PortMirrorSpec;
  pm_Status : PortMirrorStatus;
}.

Definition mirror_of (spec : PortMirrorSpec) : Fabric.Mirror :=
  Fabric.mkMirror (pms_Sources spec) (pms_Target spec) (pms_Direction spec).

(** ** portmirror_webhook.go *)

Definition truncate (s : str) (n : nat) : str :=
  if slen s <=? Z.of_nat n then s else str_take n s +:+ "...".

Definition known_provider (p : str) : bool :=
  bool_decide (p = MirrorProviderMikroTikRouterOS7) || bool_decide (p = MirrorProviderMikroTikRouterOS7SSH).

Definition knownMirrorDirection (d : str) : bool :=
  bool_decide (d = MirrorDirectionBoth) || bool_decide (d = MirrorDirectionIngress) ||
  bool_decide (d = MirrorDirectionEgress).

(** [slices.Index] *)
Fixpoint slices_index (l : list str) (x : str) : Z :=
  match l with
  | [] => -1
  | y :: rest =>
      if bool_decide (y = x) then 0 else
      let i := slices_index rest x in
      if i =? -1 then -1 else i + 1
  end.

Definition source_path (i : Z) : str := "spec.sources[" +:+ itoa i +:+ "]".

(** The loop over [spec.Sources], from index [i] on. *)
Fixpoint validate_sources (all : list str) (i : Z) (l : list str) : list field_error :=
  match l with
  | [] => []
  | src :: rest =>
      (if bool_decide (src = "") then [Required (source_path i) "a port name is required"]
       else if negb (slices_index all src =? i) then [Duplicate (source_path i) (truncate src 64)]
       else []) ++ validate_sources all (i + 1) rest
  end.

Definition ValidatePortMirrorSpec (spec : PortMirrorSpec) : list field_error :=
  (if negb (known_provider (pms_Provider spec))
   then [NotSupported "spec.provider" (pms_Provider spec)
           [MirrorProviderMikroTikRouterOS7; MirrorProviderMikroTikRouterOS7SSH]] else []) ++
  (if bool_decide (pms_DeviceRef spec = "")
   then [Required "spec.deviceRef.name"
           "a device Secret name is required; the mirror has no address or credential without it"] else []) ++
  (if bool_decide (pms_Sources spec = [])
   then [Required "spec.sources" "at least one source port is required; a mirror with no sources copies nothing"]
   else []) ++
  validate_sources (pms_Sources spec) 0 (pms_Sources spec) ++
  (if bool_decide (pms_Target spec = "")
   then [Required "spec.target" "a target port is required; the copies have nowhere to go without it"]
   else if bool_decide (pms_Target spec ∈ pms_Sources spec)
   then [Invalid "spec.target" (truncate (pms_Target spec) 64) "target must not also be a source"] else []) ++
  (if negb (bool_decide (pms_Direction spec = "")) && negb (knownMirrorDirection (pms_Direction spec))
   then [NotSupported "spec.direction" (pms_Direction spec)
           [MirrorDirectionBoth; MirrorDirectionIngress; MirrorDirectionEgress]] else []).

Definition validateImmutableMirrorFields (old updated : PortMirror) : list field_error :=
  (if negb (bool_decide (pms_Provider (pm_Spec old) = pms_Provider (pm_Spec updated)))
   then [ForbiddenField "spec.provider"
           ("provider is immutable; delete this PortMirror so its device is reverted, " +:+
            "then create one for the new device")] else []) ++
  (if negb (bool_decide (pms_DeviceRef (pm_Spec old) = pms_DeviceRef (pm_Spec updated)))
   then [ForbiddenField "spec.deviceRef.name"
           ("deviceRef is immutable; repointing it would leave the previous device mirroring " +:+
            "with nothing in the cluster recording it. Delete this PortMirror so the device " +:+
            "is reverted, then create one for the new device")] else []).

Section webhook.
Context (decode_uid : str → option str).

(** Without a request in the context there is nothing to audit. *)
Definition commit (g : Gate) (req : option Request) : prog admissionE reply :=
  match req with
  | None => Ret None
  | Some req => CommitMutation decode_uid g req DecisionAllowed "Accepted"
  end.

Definition validate (g : Gate) (req : option Request) (mirror : PortMirror) (old : option PortMirror) :
    prog admissionE reply :=
  match CheckNamespace g (m_Namespace (pm_Meta mirror)) with
  | Some e => Ret (Some e)
  | None =>
      match ValidatePortMirrorSpec (pm_Spec mirror) with
      | (_ :: _) as errs => Ret (Some (InvalidObject errs))
      | [] =>
          match (if old is Some old then validateImmutableMirrorFields old mirror else []) with
          | (_ :: _) as errs => Ret (Some (InvalidObject errs))
          | [] => commit g req
          end
      end
  end.

Definition ValidateCreate (g : Gate) (req : option Request) (mirror : PortMirror) : prog admissionE reply :=
  validate g req mirror None.

Definition ValidateUpdate (g : Gate) (req : option Request) (old updated : PortMirror) : prog admissionE reply :=
  validate g req updated (Some old).

Definition ValidateDelete (g : Gate) (req : option Request) (mirror : PortMirror) : prog admissionE reply :=
  match CheckNamespace g (m_Namespace (pm_Meta mirror)) with
  | Some e => Ret (Some e)
  | None => commit g req
  end.

End webhook.

(** ** Lemmas *)

Lemma slices_index_range l x : -1 ≤ slices_index l x < Z.of_nat (length l).
Proof. induction l as [|y l IH]; simpl; [lia|]. case_bool_decide; [lia|]. case_match; lia. Qed.

Lemma slices_index_first pre x rest :
  slices_index (pre ++ x :: rest) x = Z.of_nat (length pre) ↔ x ∉ pre.
Proof.
  induction pre as [|y pre IH]; simpl.
  { rewrite bool_decide_eq_true_2 by done. split; [intros _; apply not_elem_of_nil|done]. }
  case_bool_decide as Hy; [subst; split; [lia|intros Hn; set_solver]|].
  pose proof (slices_index_range (pre ++ x :: rest) x).
  case_match eqn:E; [apply Z.eqb_eq in E|apply Z.eqb_neq in E]; rewrite not_elem_of_cons, <-IH; split.
  - lia.
  - intros [_ E']. lia.
  - intros E'. split; [done|]. lia.
  - intros [_ E']. lia.
Qed.

Lemma validate_sources_spec pre l :
  validate_sources (pre ++ l) (Z.of_nat (length pre)) l = [] ↔
  "" ∉ l ∧ NoDup l ∧ ∀ x, x ∈ l → x ∉ pre.
Proof.
  revert pre. induction l as [|s rest IH]; intros pre; simpl.
  { split; [intros _|done]. split_and!; [apply not_elem_of_nil|constructor|by intros x ?%elem_of_nil]. }
  specialize (IH (pre ++ [s])). rewrite <-app_assoc, length_app in IH. simpl in IH.
  replace (Z.of_nat (length pre + 1)) with (Z.of_nat (length pre) + 1) in IH by lia.
  case_bool_decide as Hs; [subst; split; [done|]; intros (Hn & _); set_solver|].
  rewrite NoDup_cons. destruct (slices_index (pre ++ s :: rest) s =? Z.of_nat (length pre)) eqn:Ei; simpl.
  - apply Z.eqb_eq, slices_index_first in Ei. rewrite IH. set_solver.
  - apply Z.eqb_neq in Ei. split; [done|]. intros (_ & _ & Hp). destruct Ei. apply slices_index_first, Hp. left.
Qed.

Lemma known_directions d :
  Fabric.known_direction d = bool_decide (d = "") || knownMirrorDirection d.
Proof.
  apply Bool.eq_true_iff_eq. unfold Fabric.known_direction, knownMirrorDirection.
  rewrite !orb_true_iff, !bool_decide_eq_true. set_solver.
Qed.

(** The device a mirror is about. *)
Definition same_device (old updated : PortMirror) : Prop :=
  pms_Provider (pm_Spec old) = pms_Provider (pm_Spec updated) ∧
  pms_DeviceRef (pm_Spec old) = pms_DeviceRef (pm_Spec updated).

Lemma validateImmutable_spec old updated : validateImmutableMirrorFields old updated = [] ↔ same_device old updated.
Proof. unfold validateImmutableMirrorFields, same_device. do 2 case_bool_decide; naive_solver. Qed.

Lemma mirror_commit_wp decode_uid g req :
  wp (@logged admissionE) (commit decode_uid g (Some req))
    (λ r log, r = None → ∃ action, ActionFor (rq_Kind req) (rq_Operation req) = Ok action ∧
       recorded decode_uid req action log) [].
Proof.
  unfold commit, CommitMutation. destruct (ActionFor _ _) as [action|]; [|done].
  eapply wp_mono; [|apply CommitMutationAs_empty]. intros r log Hr Hn. exists action. auto.
Qed.

Lemma mirror_validate_wp decode_uid g req mirror old :
  wp (@logged admissionE) (validate decode_uid g (Some req) mirror old)
    (λ r log, r = None →
       m_Namespace (pm_Meta mirror) = g_SystemNamespace g ∧ ValidatePortMirrorSpec (pm_Spec mirror) = [] ∧
       (∀ o, old = Some o → same_device o mirror) ∧
       ∃ action, ActionFor (rq_Kind req) (rq_Operation req) = Ok action ∧ recorded decode_uid req action log) [].
Proof.
  unfold validate. destruct (CheckNamespace _ _) eqn:En; [done|]. apply (CheckNamespace_spec decode_uid) in En.
  destruct (ValidatePortMirrorSpec _); [|done].
  destruct (if old is Some old then _ else _) eqn:Ei; [|done].
  eapply wp_mono; [|apply mirror_commit_wp]. intros r log Hr Hn. split_and!; [done|done| |by apply Hr].
  intros o ->. by apply validateImmutable_spec.
Qed.

(** What a spec without errors is. *)
Lemma ValidatePortMirrorSpec_spec spec :
  ValidatePortMirrorSpec spec = [] ↔
  known_provider (pms_Provider spec) = true ∧ pms_DeviceRef spec ≠ "" ∧ Fabric.sound (mirror_of spec).
Proof.
  unfold ValidatePortMirrorSpec, Fabric.sound, mirror_of. 
  cbn [Fabric.mi_Sources Fabric.mi_Target Fabric.mi_Direction].
  rewrite known_directions, !app_nil.
  pose proof (validate_sources_spec [] (pms_Sources spec)) as Hv. simpl in Hv. rewrite Hv.
  assert (∀ x : str, x ∉ []) as Hnil by (intros x; apply not_elem_of_nil).
  destruct (known_provider _); simpl; [|naive_solver].
  case_bool_decide; [naive_solver|]. case_bool_decide; [naive_solver|].
  case_bool_decide; [naive_solver|]. case_bool_decide; [naive_solver|].
  case_bool_decide; [naive_solver|]. destruct (knownMirrorDirection _); naive_solver.
Qed.

(** ** Theorems *)

(** The webhook, the controller and the driver agree on what a mirror
    request is.  A spec passes [ValidatePortMirrorSpec] exactly when it names
    one of the two drivers and a device, and the driver's own [Validate]
    accepts the request it stands for: what admission lets through never fails
    the driver's own check, and the other way round. *)
Theorem mirror_validation_agrees quote spec :
  ValidatePortMirrorSpec spec = [] ↔
  known_provider (pms_Provider spec) = true ∧ pms_DeviceRef spec ≠ "" ∧ Fabric.Validate quote (mirror_of spec) = None.
Proof. by rewrite Fabric.Validate_sound, ValidatePortMirrorSpec_spec. Qed.

(** No unrecorded change to a mirror, and none that moves it.  Whatever the
    ledger answers, a create, an edit or a deletion that is admitted lies in
    the system namespace and has its own acknowledged record under the
    caller's identity; what is created or edited is valid; and an edit keeps
    the device, so the revert at deletion goes to the switch that was
    configured. *)
Theorem mirror_mutations_recorded decode_uid g req mirror old updated :
  wp (@logged admissionE) (ValidateCreate decode_uid g (Some req) mirror)
    (λ r log, r = None →
      m_Namespace (pm_Meta mirror) = g_SystemNamespace g ∧ ValidatePortMirrorSpec (pm_Spec mirror) = [] ∧
      ∃ action, ActionFor (rq_Kind req) (rq_Operation req) = Ok action ∧ recorded decode_uid req action log) [] ∧
  wp (@logged admissionE) (ValidateUpdate decode_uid g (Some req) old updated)
    (λ r log, r = None →
      m_Namespace (pm_Meta updated) = g_SystemNamespace g ∧ ValidatePortMirrorSpec (pm_Spec updated) = [] ∧
      same_device old updated ∧
      ∃ action, ActionFor (rq_Kind req) (rq_Operation req) = Ok action ∧ recorded decode_uid req action log) [] ∧
  wp (@logged admissionE) (ValidateDelete decode_uid g (Some req) mirror)
    (λ r log, r = None →
      m_Namespace (pm_Meta mirror) = g_SystemNamespace g ∧
      ∃ action, ActionFor (rq_Kind req) (rq_Operation req) = Ok action ∧ recorded decode_uid req action log) [].
Proof.
  split_and!.
  - eapply wp_mono; [|apply mirror_validate_wp]. intros r log Hr Hn. destruct (Hr Hn) as (? & ? & _ & ?). by split_and!.
  - eapply wp_mono; [|apply mirror_validate_wp]. intros r log Hr Hn. destruct (Hr Hn) as (? & ? & Hs & ?).
    split_and!; [done|done|by apply Hs|done].
  - unfold ValidateDelete. destruct (CheckNamespace _ _) eqn:En; [done|]. apply (CheckNamespace_spec decode_uid) in En.
    eapply wp_mono; [|apply mirror_commit_wp]. intros r log Hr Hn. auto.
Qed.

End PortMirror.
