(* ===== verification/TapWebhook.v ===== *)
(** * Network tap admission, internal/admission/networktap_webhook.go

    The rules a tap's spec is held to, their defaults, and the webhook: a
    program over admission's calls, as the others are.  The digest-pinned
    references of custom content are internal/content/content.go's. *)

From Stdlib Require Import Ascii.
From S2P Require Import Prelude GoTime GoString Sanitize Api Manifest Prog AuditModel Admission PortMirror.

Module TapWebhook.
Import Admission AuditModel.

(** ** content.go: [ParseReference] *)

Record Reference := mkReference { ref_Repository : str; ref_Digest : str }.

(** [strings.Cut(s, "@")] *)
Fixpoint cut_at (s : str) : option (str * str) :=
  match s with
  | EmptyString => None
  | String c rest =>
      if Ascii.eqb c "@"%char then Some (EmptyString, rest) else
      match cut_at rest with
      | Some (a, b) => Some (String c a, b)
      | None => None
      end
  end.

(** [^sha256:[0-9a-f]{64}$] *)
Definition digest_matches (s : str) : bool := has_prefix s "sha256:" && Manifest.isSHA256Hex (trim_prefix s "sha256:").

Definition ParseReference (quote : str → str) (s : str) : result str Reference :=
  if bool_decide (s = "") then Err "content reference is empty" else
  match cut_at s with
  | None => Err ("content reference " +:+ quote s +:+ " must be digest-pinned (repository@sha256:...)")
  | Some (repo, digest) =>
      if bool_decide (repo = "") then Err "content reference has no repository" else
      if negb (digest_matches digest)
      then Err ("content reference " +:+ quote s +:+ " does not carry a valid sha256 digest")
      else Ok (mkReference repo digest)
  end.

(** ** networktap_webhook.go *)

Definition Default (spec : NetworkTapSpec) : NetworkTapSpec :=
  let mode := if bool_decide (tps_Mode spec = "") then TapModePassive else tps_Mode spec in
  let mirror :=
    if bool_decide (tps_Type spec = TapSourceMirrorInterface) then
      (λ s, mkInterfaceSource (is_Interface s) true (is_NodeSelector s)) <$> tps_MirrorInterface spec
    else tps_MirrorInterface spec in
  mkNetworkTapSpec mode (tps_Type spec) mirror (tps_NodeInterface spec) (tps_Analyzers spec).

Definition knownSourceType (t : str) : bool :=
  bool_decide (t = TapSourceMirrorInterface) || bool_decide (t = TapSourceNodeInterface).

Definition inactiveSource (spec : NetworkTapSpec) : option InterfaceSource * str :=
  if bool_decide (tps_Type spec = TapSourceMirrorInterface) then (tps_NodeInterface spec, "spec.nodeInterface")
  else if bool_decide (tps_Type spec = TapSourceNodeInterface) then (tps_MirrorInterface spec, "spec.mirrorInterface")
  else (None, "spec").

Definition activeSource (spec : NetworkTapSpec) : option InterfaceSource * str :=
  if bool_decide (tps_Type spec = TapSourceMirrorInterface) then (tps_MirrorInterface spec, "spec.mirrorInterface")
  else if bool_decide (tps_Type spec = TapSourceNodeInterface) then (tps_NodeInterface spec, "spec.nodeInterface")
  else (None, "spec").

Definition empty_selector (sel : LabelSelector) : bool :=
  bool_decide (ls_MatchLabels sel = ∅) && bool_decide (length (ls_MatchExpressions sel) = 0%nat).

Definition validateInterfaceSource (src : InterfaceSource) (path : str) : list field_error :=
  if empty_selector (is_NodeSelector src)
  then [Required (path +:+ ".nodeSelector")
          "a non-empty node selector is required; an empty selector would match every node"] else [].

Section content.
Context (quote : str → str).

(** One resource of an enabled analyzer. *)
Definition check_resource (rr : ResourceRequirements) (path name : str) : list field_error :=
  let request := rr_Requests rr !! name in
  let limit := rr_Limits rr !! name in
  (if request is None then [Required (path +:+ ".resources.requests." +:+ name)
                              ("an enabled analyzer requires a " +:+ name +:+ " request")] else []) ++
  (if limit is None then [Required (path +:+ ".resources.limits." +:+ name)
                            ("an enabled analyzer requires a " +:+ name +:+ " limit")] else []) ++
  match request, limit with
  | Some q, Some l =>
      match q_Cmp q l with
      | Gt => [Invalid (path +:+ ".resources.requests." +:+ name) (q_text q) "request must not exceed limit"]
      | _ => []
      end
  | _, _ => []
  end.

Definition validateAnalyzer (cfg : AnalyzerConfig) (path : str) : list field_error :=
  if negb (ac_Enabled cfg) then [] else
  match ac_Resources cfg with
  | None => [Required (path +:+ ".resources") "an enabled analyzer requires resource requests and limits"]
  | Some rr =>
      check_resource rr path "cpu" ++ check_resource rr path "memory" ++
      match ac_CustomContent cfg with
      | None => []
      | Some ref =>
          match ParseReference quote ref with
          | Err _ => [Invalid (path +:+ ".customContent.reference") (PortMirror.truncate ref 128)
                        "custom content must be digest-pinned (repository@sha256:...)"]
          | Ok _ => []
          end
      end
  end.

Definition ValidateNetworkTapSpec (spec : NetworkTapSpec) : list field_error :=
  (if negb (bool_decide (tps_Mode spec = TapModePassive))
   then [NotSupported "spec.mode" (tps_Mode spec) [TapModePassive]] else []) ++
  (if negb (knownSourceType (tps_Type spec))
   then [NotSupported "spec.type" (tps_Type spec) [TapSourceMirrorInterface; TapSourceNodeInterface]]
   else match activeSource spec with
        | (None, path) => [Required path ("type " +:+ tps_Type spec +:+ " requires this source")]
        | (Some source, path) => validateInterfaceSource source path
        end) ++
  (match inactiveSource spec with
   | (Some _, path) => [ForbiddenField path ("type " +:+ tps_Type spec +:+ " does not use this source")]
   | (None, _) => []
   end) ++
  validateAnalyzer (as_Suricata (tps_Analyzers spec)) "spec.analyzers.suricata" ++
  validateAnalyzer (as_Zeek (tps_Analyzers spec)) "spec.analyzers.zeek".

Definition validateImmutableFields (old updated : NetworkTapSpec) : list field_error :=
  (if negb (bool_decide (tps_Type old = tps_Type updated))
   then [ForbiddenField "spec.type" "source type is immutable; create a new NetworkTap instead"] else []) ++
  match activeSource old, activeSource updated with
  | (Some oldSrc, _), (Some newSrc, path) =>
      if negb (bool_decide (is_Interface oldSrc = is_Interface newSrc))
      then [ForbiddenField (path +:+ ".interface") "interface is immutable; create a new NetworkTap instead"] else []
  | _, _ => []
  end.

Context (decode_uid : str → option str).

Definition commit (g : Gate) (req : option Request) : prog admissionE reply :=
  match req with
  | None => Ret None
  | Some req => CommitMutation decode_uid g req DecisionAllowed "Accepted"
  end.

Definition validate (g : Gate) (req : option Request) (tap : NetworkTap) (old : option NetworkTap) : prog admissionE reply :=
  match CheckNamespace g (m_Namespace (nt_Meta tap)) with
  | Some e => Ret (Some e)
  | None =>
      match ValidateNetworkTapSpec (nt_Spec tap) with
      | (_ :: _) as errs => Ret (Some (InvalidObject errs))
      | [] =>
          match (if old is Some old then validateImmutableFields (nt_Spec old) (nt_Spec tap) else []) with
          | (_ :: _) as errs => Ret (Some (InvalidObject errs))
          | [] => commit g req
          end
      end
  end.

Definition ValidateCreate (g : Gate) (req : option Request) (tap : NetworkTap) : prog admissionE reply :=
  validate g req tap None.

Definition ValidateUpdate (g : Gate) (req : option Request) (old updated : NetworkTap) : prog admissionE reply :=
  validate g req updated (Some old).

Definition ValidateDelete (g : Gate) (req : option Request) (tap : NetworkTap) : prog admissionE reply :=
  match CheckNamespace g (m_Namespace (nt_Meta tap)) with
  | Some e => Ret (Some e)
  | None => commit g req
  end.

End content.

(** ** What the rules say *)

Definition limited (rr : ResourceRequirements) (name : str) : Prop :=
  ∃ q l, rr_Requests rr !! name = Some q ∧ rr_Limits rr !! name = Some l ∧ q_nano q ≤ q_nano l.

Definition pinned (ref : str) : Prop :=
  ∃ repo hex, ref = repo +:+ "@sha256:" +:+ hex ∧ repo ≠ "" ∧ lacks "@" repo = true ∧ Manifest.isSHA256Hex hex = true.

(** An analyzer that is off may say anything. *)
Definition sound_analyzer (cfg : AnalyzerConfig) : Prop :=
  ac_Enabled cfg = true →
  ∃ rr, ac_Resources cfg = Some rr ∧ limited rr "cpu" ∧ limited rr "memory" ∧
    ∀ ref, ac_CustomContent cfg = Some ref → pinned ref.

Definition selects (sel : LabelSelector) : Prop := ls_MatchLabels sel ≠ ∅ ∨ ls_MatchExpressions sel ≠ [].

(** One source, the one the type names, and it selects nodes. *)
Definition one_source (spec : NetworkTapSpec) : Prop :=
  tps_Type spec = TapSourceMirrorInterface ∧ tps_NodeInterface spec = None ∧
    (∃ s, tps_MirrorInterface spec = Some s ∧ selects (is_NodeSelector s)) ∨
  tps_Type spec = TapSourceNodeInterface ∧ tps_MirrorInterface spec = None ∧
    (∃ s, tps_NodeInterface spec = Some s ∧ selects (is_NodeSelector s)).

Lemma lacks_cons c d s : lacks c (String d s) = true ↔ d ≠ c ∧ lacks c s = true.
Proof. unfold lacks. cbn [str_forallb]. by rewrite andb_true_iff, negb_true_iff, bool_decide_eq_false. Qed.

Lemma cut_at_app a b : lacks "@" a = true → cut_at (a +:+ String "@" b) = Some (a, b).
Proof.
  induction a as [|c a IH]; intros Hl; [done|]. apply lacks_cons in Hl as [Hc Hl]. simpl.
  rewrite (proj2 (Ascii.eqb_neq c "@") Hc). by rewrite IH.
Qed.

Lemma cut_at_Some s a b : cut_at s = Some (a, b) → s = a +:+ String "@" b ∧ lacks "@" a = true.
Proof.
  revert a. induction s as [|c s IH]; intros a; simpl; [done|].
  destruct (Ascii.eqb_spec c "@"%char) as [->|Hc]; [by intros [= <- <-]|].
  destruct (cut_at s) as [[a' b']|]; [|done]. intros [= <- <-]. destruct (IH a' eq_refl) as [-> Hl].
  split; [done|]. by apply lacks_cons.
Qed.

Lemma has_prefix_trim s p : has_prefix s p = true → s = p +:+ trim_prefix s p.
Proof. intros [r ->]%has_prefix_spec. by rewrite trim_prefix_app. Qed.

Lemma ParseReference_pinned quote s : is_ok (ParseReference quote s) = true ↔ pinned s.
Proof.
  unfold ParseReference, pinned. case_bool_decide as Hs.
  { subst. split; [done|]. intros (repo & hex & E & Hne & _). destruct repo; discriminate E. }
  destruct (cut_at s) as [[repo digest]|] eqn:Ec; simpl.
  - apply cut_at_Some in Ec as [-> Hl]. case_bool_decide as Hr.
    { subst repo. split; [done|]. intros (repo & hex & E & Hne & Hl' & _). destruct repo as [|c repo]; [done|].
      injection E as <- _. by apply lacks_cons in Hl' as []. }
    unfold digest_matches. destruct (has_prefix digest "sha256:") eqn:Ep; simpl.
    + pose proof (has_prefix_trim _ _ Ep) as Ed. set (hex := trim_prefix digest "sha256:") in *.
      destruct (Manifest.isSHA256Hex hex) eqn:Eh; simpl.
      * split; [intros _|done]. exists repo, hex. by rewrite Ed.
      * split; [done|]. intros (r' & h' & E & Hne & Hl' & Hh).
        pose proof (cut_at_app repo digest Hl) as E1. pose proof (cut_at_app r' ("sha256:" +:+ h') Hl') as E2.
        assert (repo +:+ String "@" digest = r' +:+ String "@" ("sha256:" +:+ h')) as E' by exact E.
        rewrite <-E', E1 in E2. injection E2 as -> E2. 
        assert (hex = h') as Eq by (unfold hex; rewrite E2; exact (trim_prefix_app "sha256:" h')). congruence.
    + split; [done|]. intros (r' & h' & E & Hne & Hl' & Hh).
      pose proof (cut_at_app repo digest Hl) as E1. pose proof (cut_at_app r' ("sha256:" +:+ h') Hl') as E2.
      assert (repo +:+ String "@" digest = r' +:+ String "@" ("sha256:" +:+ h')) as E' by exact E.
      rewrite <-E', E1 in E2. injection E2 as _ ->. pose proof (has_prefix_app "sha256:" h') as Ep'. exact (eq_trans (eq_sym Ep) Ep' : false = true).
  - split; [done|]. intros (repo & hex & -> & _ & Hl & _).
    change ("@sha256:" +:+ hex) with (String "@" ("sha256:" +:+ hex)) in Ec. by rewrite cut_at_app in Ec.
Qed.

Lemma check_resource_spec rr path name : check_resource rr path name = [] ↔ limited rr name.
Proof.
  unfold check_resource, limited, q_Cmp. destruct (rr_Requests rr !! name) as [q|], (rr_Limits rr !! name) as [l|]; simpl;
    [|naive_solver..].
  destruct (Z.compare_spec (q_nano q) (q_nano l)); (split; [intros ?|intros (? & ? & [= <-] & [= <-] & ?)]); try done; try lia;
    exists q, l; split_and!; try done; lia.
Qed.

Lemma validateAnalyzer_spec quote cfg path : validateAnalyzer quote cfg path = [] ↔ sound_analyzer cfg.
Proof.
  unfold validateAnalyzer, sound_analyzer. destruct (ac_Enabled cfg); simpl; [|naive_solver].
  destruct (ac_Resources cfg) as [rr|]; [|naive_solver].
  rewrite !app_nil, !check_resource_spec.
  assert (match ac_CustomContent cfg with
          | None => []
          | Some ref => match ParseReference quote ref with Err _ => [Invalid (path +:+ ".customContent.reference")
              (PortMirror.truncate ref 128) "custom content must be digest-pinned (repository@sha256:...)"] | Ok _ => [] end
          end = [] ↔ ∀ ref, ac_CustomContent cfg = Some ref → pinned ref) as Hc.
  { destruct (ac_CustomContent cfg) as [ref|]; [|naive_solver]. assert ((∀ r, Some ref = Some r → pinned r) ↔ pinned ref) as -> by naive_solver.
    rewrite <-(ParseReference_pinned quote). by destruct (ParseReference quote ref). }
  rewrite Hc. naive_solver.
Qed.

Lemma validateInterfaceSource_spec src path : validateInterfaceSource src path = [] ↔ selects (is_NodeSelector src).
Proof.
  unfold validateInterfaceSource, empty_selector, selects. case_bool_decide as Hl; simpl; [|naive_solver].
  case_bool_decide as He; [apply nil_length_inv in He; naive_solver|].
  split; [|done]. intros _. right. intros E. by rewrite E in He.
Qed.

(** The checks of the source. *)
Definition source_errors (spec : NetworkTapSpec) : list field_error :=
  (if negb (knownSourceType (tps_Type spec))
   then [NotSupported "spec.type" (tps_Type spec) [TapSourceMirrorInterface; TapSourceNodeInterface]]
   else match activeSource spec with
        | (None, path) => [Required path ("type " +:+ tps_Type spec +:+ " requires this source")]
        | (Some source, path) => validateInterfaceSource source path
        end) ++
  (match inactiveSource spec with
   | (Some _, path) => [ForbiddenField path ("type " +:+ tps_Type spec +:+ " does not use this source")]
   | (None, _) => []
   end).

Lemma one_source_checked spec : source_errors spec = [] ↔ one_source spec.
Proof.
  assert (TapSourceMirrorInterface ≠ TapSourceNodeInterface) as Hne by done.
  unfold source_errors, one_source, knownSourceType, activeSource, inactiveSource.
  destruct (decide (tps_Type spec = TapSourceMirrorInterface)) as [Hm|Hm].
  - rewrite !(bool_decide_eq_true_2 _ Hm). simpl.
    destruct (tps_NodeInterface spec), (tps_MirrorInterface spec) as [s|]; rewrite ?app_nil, ?validateInterfaceSource_spec;
      split; intros H'; try (by destruct H'); try congruence;
      repeat match goal with H : _ ∨ _ |- _ => destruct H | H : _ ∧ _ |- _ => destruct H | H : ∃ _, _ |- _ => destruct H end;
      simplify_eq; try congruence; eauto 10.
  - rewrite !(bool_decide_eq_false_2 _ Hm). destruct (decide (tps_Type spec = TapSourceNodeInterface)) as [Hn|Hn].
    + rewrite !(bool_decide_eq_true_2 _ Hn). simpl.
      destruct (tps_MirrorInterface spec), (tps_NodeInterface spec) as [s|]; rewrite ?app_nil, ?validateInterfaceSource_spec;
        split; intros H'; try (by destruct H'); try congruence;
        repeat match goal with H : _ ∨ _ |- _ => destruct H | H : _ ∧ _ |- _ => destruct H | H : ∃ _, _ |- _ => destruct H end;
        simplify_eq; try congruence; eauto 10.
    + rewrite !(bool_decide_eq_false_2 _ Hn). simpl. split; [done|]. intros [[? _]|[? _]]; done.
Qed.

(** A spec the rules accept. *)
Definition sound_tap (spec : NetworkTapSpec) : Prop :=
  tps_Mode spec = TapModePassive ∧ one_source spec ∧
  sound_analyzer (as_Suricata (tps_Analyzers spec)) ∧ sound_analyzer (as_Zeek (tps_Analyzers spec)).

Lemma ValidateNetworkTapSpec_sound quote spec : ValidateNetworkTapSpec quote spec = [] ↔ sound_tap spec.
Proof.
  unfold ValidateNetworkTapSpec, sound_tap. rewrite !app_nil, !validateAnalyzer_spec, <-one_source_checked.
  unfold source_errors. rewrite app_nil. case_bool_decide; simpl; naive_solver.
Qed.

(** What an edit keeps, between two specs that each name a source. *)
Definition same_traffic (old updated : NetworkTapSpec) : Prop :=
  tps_Type old = tps_Type updated ∧
  ∀ a b, (activeSource old).1 = Some a → (activeSource updated).1 = Some b → is_Interface a = is_Interface b.

Lemma validateImmutableFields_spec old updated : validateImmutableFields old updated = [] ↔ same_traffic old updated.
Proof.
  unfold validateImmutableFields, same_traffic. case_bool_decide; simpl; [|naive_solver].
  destruct (activeSource old) as [[a|] pa], (activeSource updated) as [[b|] pb]; simpl; [|naive_solver..].
  case_bool_decide; simpl; naive_solver.
Qed.

Lemma tap_validate_wp quote decode_uid g req tap old :
  wp (@logged admissionE) (validate quote decode_uid g (Some req) tap old)
    (λ r log, r = None →
       m_Namespace (nt_Meta tap) = g_SystemNamespace g ∧ sound_tap (nt_Spec tap) ∧
       (∀ o, old = Some o → same_traffic (nt_Spec o) (nt_Spec tap)) ∧
       ∃ action, ActionFor (rq_Kind req) (rq_Operation req) = Ok action ∧ recorded decode_uid req action log) [].
Proof.
  unfold validate. destruct (CheckNamespace _ _) eqn:En; [done|]. apply (CheckNamespace_spec decode_uid) in En.
  destruct (ValidateNetworkTapSpec _ _) eqn:Ev; [|done]. apply ValidateNetworkTapSpec_sound in Ev.
  destruct (if old is Some old then _ else _) eqn:Ei; [|done].
  eapply wp_mono; [|apply (PortMirror.mirror_commit_wp decode_uid g req)]. intros r log Hr Hn.
  split_and!; [done|done| |by apply Hr]. intros o ->. by apply validateImmutableFields_spec.
Qed.

(** ** Theorems *)

(** What a tap may ask for.  A spec is accepted exactly when it is passive,
    names one source and only that one, selects nodes rather than all of them
    by an empty selector, bounds the cpu and memory of every enabled analyzer
    by a request no larger than its limit, and pins the content of each by its
    digest; one that is off may say anything. *)
Theorem ValidateNetworkTapSpec_spec quote spec :
  ValidateNetworkTapSpec quote spec = [] ↔
  tps_Mode spec = TapModePassive ∧ one_source spec ∧
  sound_analyzer (as_Suricata (tps_Analyzers spec)) ∧ sound_analyzer (as_Zeek (tps_Analyzers spec)).
Proof. apply ValidateNetworkTapSpec_sound. Qed.

(** No unrecorded change to what is watched, and none that repoints a tap.
    Whatever the ledger answers, a create, an edit or a deletion of a tap that
    is admitted lies in the system namespace and has its own acknowledged
    record; what is created or edited is valid; and an edit keeps the source
    type and its interface, so stored observations stay attributed to the
    traffic they describe. *)
Theorem tap_mutations_recorded quote decode_uid g req tap old updated :
  wp (@logged admissionE) (ValidateCreate quote decode_uid g (Some req) tap)
    (λ r log, r = None →
      m_Namespace (nt_Meta tap) = g_SystemNamespace g ∧ sound_tap (nt_Spec tap) ∧
      ∃ action, ActionFor (rq_Kind req) (rq_Operation req) = Ok action ∧ recorded decode_uid req action log) [] ∧
  wp (@logged admissionE) (ValidateUpdate quote decode_uid g (Some req) old updated)
    (λ r log, r = None →
      m_Namespace (nt_Meta updated) = g_SystemNamespace g ∧ sound_tap (nt_Spec updated) ∧
      same_traffic (nt_Spec old) (nt_Spec updated) ∧
      ∃ action, ActionFor (rq_Kind req) (rq_Operation req) = Ok action ∧ recorded decode_uid req action log) [] ∧
  wp (@logged admissionE) (ValidateDelete decode_uid g (Some req) tap)
    (λ r log, r = None →
      m_Namespace (nt_Meta tap) = g_SystemNamespace g ∧
      ∃ action, ActionFor (rq_Kind req) (rq_Operation req) = Ok action ∧ recorded decode_uid req action log) [].
Proof.
  split_and!.
  - eapply wp_mono; [|apply tap_validate_wp]. intros r log Hr Hn. destruct (Hr Hn) as (? & ? & _ & ?). by split_and!.
  - eapply wp_mono; [|apply tap_validate_wp]. intros r log Hr Hn. destruct (Hr Hn) as (? & ? & Hs & ?).
    split_and!; [done|done|by apply Hs|done].
  - unfold ValidateDelete. destruct (CheckNamespace _ _) eqn:En; [done|]. apply (CheckNamespace_spec decode_uid) in En.
    eapply wp_mono; [|apply (PortMirror.mirror_commit_wp decode_uid g req)]. intros r log Hr Hn. auto.
Qed.

(** Defaulting changes the mode it fills in and turns a mirror's port
    promiscuous; doing it twice is doing it once. *)
Theorem Default_idempotent spec :
  Default (Default spec) = Default spec ∧ tps_Type (Default spec) = tps_Type spec ∧
  tps_NodeInterface (Default spec) = tps_NodeInterface spec ∧ tps_Analyzers (Default spec) = tps_Analyzers spec.
Proof.
  split_and!; [|done..]. destruct spec as [mode type mirror node an]. unfold Default. cbn [tps_Mode tps_Type tps_MirrorInterface].
  f_equal; repeat case_bool_decide; try done. by destruct mirror.
Qed.

End TapWebhook.
