(* ===== verification/ContentInit.v ===== *)
(** * The content init container, cmd/content-init

    The two commands, from their parsed flags: the upstream layer fetched and
    written, and the custom layer overlaid on what is there.  The fetchers run
    tools - suricata-update, git, oras - and read what those left in a staging
    directory.  Parsing URLs is an argument. *)

From Stdlib Require Import Ascii.
From S2P Require Import Prelude GoTime GoString Utf8 Paths Sanitize Prog Content TapWebhook.

Module ContentInit.
Import Paths Content.

Section content_init.
Context (quote : str → str) (range : gmap string str → list (str * str)).
Context (marshal : ContentStatus → result str str) (unmarshal : str → result str ContentStatus).
(** [url.Parse]: the scheme and the host. *)
Context (url_parse : str → result str (str * str)).

(** ** content.go: [ValidateFeedURL] *)

Definition ValidateFeedURL (raw : str) : option str :=
  if bool_decide (trim_space raw = "") then Some "feed URL is empty" else
  match url_parse raw with
  | Err err => Some ("feed URL is not a valid URL: " +:+ err)
  | Ok (scheme, host) =>
      if negb (bool_decide (scheme = "https")) then Some ("feed URL scheme " +:+ quote scheme +:+ " is not https") else
      if bool_decide (host = "") then Some "feed URL has no host" else None
  end.

(** ** The fetchers *)

Definition deferred {A} (p : str) (m : prog fsE A) : prog fsE A :=
  let! a := m in
  let! _ := call (RemoveAll p) in
  Ret a.

(** What a tool left, as a layer. *)
Definition fetched_layer (staging : str) : prog fsE (result str Layer) :=
  let!? files := Read quote staging in
  let! now := call Now in
  Ret (Ok (mkLayer LayerUpstream files now "")).

Definition run_tool (failed : str) (args : list str) (output : str) : prog fsE (result str unit) :=
  let! res := call (Exec args output) in
  Ret (match res with Ok _ => Ok tt | Err err => Err (Sanitize.Errorf failed err) end).

Definition suricataUpdateFetcher (feedURL : str) : Fetcher := λ dir,
  let staging := dir +:+ ".fetch" in
  let!? _ := attempt "creating fetch directory: " (MkdirAll staging) in
  deferred staging
    (let!? _ := run_tool "suricata-update failed: "
       ["suricata-update"; "--no-test"; "--no-reload"; "--url"; feedURL; "--data-dir"; staging] staging in
     fetched_layer staging).

Definition zeekScriptFetcher (repo : str) : Fetcher := λ dir,
  let staging := dir +:+ ".fetch" in
  let! _ := call (RemoveAll staging) in
  let!? _ := run_tool "cloning Zeek scripts failed: " ["git"; "clone"; "--depth"; "1"; repo; staging] staging in
  deferred staging
    (let! _ := call (RemoveAll (Join [staging; ".git"])) in
     fetched_layer staging).

Definition reference_text (ref : TapWebhook.Reference) : str := TapWebhook.ref_Repository ref +:+ "@" +:+ TapWebhook.ref_Digest ref.

Definition orasFetcher (ref : TapWebhook.Reference) : Fetcher := λ dir,
  let staging := dir +:+ ".custom" in
  let!? _ := attempt "creating custom content directory: " (MkdirAll staging) in
  deferred staging
    (let!? _ := run_tool "pulling custom content failed: " ["oras"; "pull"; reference_text ref; "--output"; staging] staging in
     let!? files := Read quote staging in
     Ret (if bool_decide (files = ∅) then Err "custom content artifact is empty"
          else Ok (mkLayer LayerCustom files 0 (TapWebhook.ref_Digest ref)))).

Definition staticFetcher (layer : Layer) : Fetcher := λ _, Ret (Ok layer).

(** ** The commands *)

(** The resolved content, written with its status. *)
Definition install_content (r : Resolver) (target : str) : prog fsE (result str unit) :=
  let!? merged := Resolve quote range r target in
  let!? _ := Write quote range merged target in
  WriteStatus marshal target (status_of merged).

Definition upstream_fetcher (analyzer feedURL scriptRepo : str) : result str Fetcher :=
  if bool_decide (analyzer = "Suricata") then
    match ValidateFeedURL feedURL with Some err => Err err | None => Ok (suricataUpdateFetcher feedURL) end
  else if bool_decide (analyzer = "Zeek") then
    match ValidateFeedURL scriptRepo with Some err => Err err | None => Ok (zeekScriptFetcher scriptRepo) end
  else Err ("unsupported analyzer " +:+ quote analyzer).

Definition fetchUpstream (analyzer dir feedURL scriptRepo : str) : prog fsE (result str unit) :=
  if bool_decide (dir = "") || bool_decide (analyzer = "") then Ret (Err "--analyzer and --content-dir are required") else
  match upstream_fetcher analyzer feedURL scriptRepo with
  | Err err => Ret (Err err)
  | Ok fetcher => install_content (mkResolver (Some fetcher) None false) (Join [dir; analyzer])
  end.

(** The overlay from what an earlier container left. *)
Definition overlay_on (ref : TapWebhook.Reference) (target : str) : prog fsE (result str unit) :=
  let!? existing := Read quote target in
  let!? previous := ReadStatus unmarshal target in
  install_content
    (mkResolver (Some (staticFetcher (mkLayer LayerUpstream existing (cst_UpstreamFetchedAt previous) "")))
       (Some (orasFetcher ref)) true) target.

Definition overlayCustom (analyzer dir reference : str) : prog fsE (result str unit) :=
  if bool_decide (dir = "") || bool_decide (analyzer = "") || bool_decide (reference = "")
  then Ret (Err "--analyzer, --content-dir and --reference are required") else
  match TapWebhook.ParseReference quote reference with
  | Err err => Ret (Err err)
  | Ok ref => overlay_on ref (Join [dir; analyzer])
  end.

Definition exit_code (r : result str unit) : Z := match r with Ok _ => 0 | Err _ => 1 end.

End content_init.

(** ** Lemmas *)

(** The registry and the feeds cannot be reached; what else is called is kept
    in a log, whatever it answers. *)
Definition offline (X : Type) (e : fsE X) (log : list (event fsE)) (x : X) (log' : list (event fsE)) : Prop :=
  logged e log x log' ∧ match e in fsE X return X → Prop with Exec _ _ => λ x, ∃ err, x = Err err | _ => λ _, True end x.

(** What is said stays said. *)
Definition extends (log log' : list (event fsE)) : Prop := ∀ ev, ev ∈ log → ev ∈ log'.

Lemma offline_extends {A} (p : prog fsE A) log0 log : extends log0 log → wp offline p (λ _ log', extends log0 log') log.
Proof.
  revert log. induction p as [a|X e k IH]; intros log H; [done|]. intros x log' [-> _]. apply IH.
  intros ev Hev. apply elem_of_app. left. by apply H.
Qed.

Lemma said {X} (e : fsE X) x log : Ev e x ∈ log ++ [Ev e x].
Proof. apply elem_of_app. right. by apply list_elem_of_singleton. Qed.

(** The files a directory was found to hold. *)
Definition found (dir : str) (files : gmap string str) (log : list (event fsE)) : Prop :=
  ∃ entries, Ev (WalkDir dir) (entries, None) ∈ log ∧
    (∀ rel, (rel, false) ∈ entries → is_Some (files !! rel)) ∧
    ∀ rel body, files !! rel = Some body → Ev (ReadFile (Join [dir; rel])) (Ok body) ∈ log.

Lemma read_entries_found quote dir entries : ∀ files log,
  (∀ rel body, files !! rel = Some body → Ev (ReadFile (Join [dir; rel])) (Ok body) ∈ log) →
  wp offline (read_entries quote dir entries files) (λ r log',
    extends log log' ∧ ∀ files', r = Ok files' →
      (∀ rel, is_Some (files !! rel) ∨ (rel, false) ∈ entries → is_Some (files' !! rel)) ∧
      ∀ rel body, files' !! rel = Some body → Ev (ReadFile (Join [dir; rel])) (Ok body) ∈ log') log.
Proof.
  induction entries as [|[rel isDir] entries IH]; intros files log H; simpl.
  { split; [by intros ev|]. intros files' [= <-]. split; [|done]. intros rel [|Hin]; [done|]. by apply elem_of_nil in Hin. }
  destruct isDir.
  { eapply wp_mono; [|by apply IH]. intros r log' [He Hr]. split; [done|]. intros files' E. destruct (Hr files' E) as [H1 H2].
    split; [|done]. intros rel' [|[Hin|Hin]%elem_of_cons]; [apply H1; by left|done|apply H1; by right]. }
  destruct (validateContentPath quote rel); [by split; [by intros ev|]|].
  intros x log1 [-> _]. assert (extends log (log ++ [Ev (ReadFile (Join [dir; rel])) x])) as He1 by (intros ev Hev; apply elem_of_app; by left).
  destruct x as [body|err]; [|done]. eapply wp_mono; [|apply IH].
  - intros r log' [He Hr]. split; [intros ev Hev; by apply He, He1|]. intros files' E. destruct (Hr files' E) as [H1 H2].
    split; [|done]. intros rel' Hin. apply H1. destruct (decide (rel' = rel)) as [->|Hne]; [left; by rewrite lookup_insert_eq|].
    rewrite lookup_insert_ne by done. destruct Hin as [|[Hin|Hin]%elem_of_cons]; [by left|by simplify_eq|by right].
  - intros rel' body' [[<- <-]|[_ Hl]]%lookup_insert_Some; [apply said|by apply He1, H].
Qed.

Lemma Read_found quote dir log :
  wp offline (Read quote dir) (λ r log', extends log log' ∧ ∀ files, r = Ok files → found dir files log') log.
Proof.
  intros [entries failed] log1 [-> _]. apply (wp_bind offline (read_entries quote dir entries ∅)).
  eapply wp_mono; [|apply (read_entries_found quote dir entries ∅); intros ? ? Hl; by rewrite lookup_empty in Hl].
  intros r log' [He Hr]. split; [intros ev Hev; apply He, elem_of_app; by left|]. intros files.
  destruct r as [files'|err]; [|done]. destruct failed as [err|]; [done|]. intros [= ->].
  destruct (Hr files eq_refl) as [H1 H2]. exists entries. split; [apply He, said|]. split; [|done]. intros rel Hin. apply H1. by right.
Qed.

Lemma write_files_said quote staging files : ∀ log,
  wp offline (write_files quote staging files) (λ r log', extends log log' ∧
    (r = Ok tt → ∀ name body, (name, body) ∈ files → Ev (WriteFile (Join [staging; name]) body) (Ok tt) ∈ log')) log.
Proof.
  induction files as [|[name body] files IH]; intros log; simpl.
  { split; [by intros ev|]. intros _ name body Hin. by apply elem_of_nil in Hin. }
  destruct (validateContentPath quote name); [by split; [by intros ev|]|].
  intros x log1 [-> _]. destruct x as [u|err]; [|split; [intros ev Hev; apply elem_of_app; by left|done]].
  intros y log2 [-> _]. set (log2 := (log ++ _) ++ _).
  assert (extends log log2) as He by (intros ev Hev; apply elem_of_app; left; apply elem_of_app; by left).
  destruct y as [[]|err]; [|by split]. eapply wp_mono; [|apply IH]. intros r log' [He' Hr]. split; [intros ev Hev; by apply He', He|].
  intros E name' body' [Hin|Hin]%elem_of_cons; [|by apply Hr]. simplify_eq. apply He', said.
Qed.

Lemma extends_trans log1 log2 log3 : extends log1 log2 → extends log2 log3 → extends log1 log3.
Proof. intros H1 H2 ev Hev. by apply H2, H1. Qed.

Lemma extends_snoc log (ev : event fsE) : extends log (log ++ [ev]).
Proof. intros ev' Hev. apply elem_of_app. by left. Qed.

(** What the rest of a program says is added to what was said. *)
Lemma offline_keeps {A} (p : prog fsE A) (Q : A → list (event fsE) → Prop) log :
  wp offline p Q log → wp offline p (λ a log', extends log log' ∧ Q a log') log.
Proof. intros H. apply wp_and; [by apply offline_extends|done]. Qed.

Lemma orasFetcher_offline quote ref dir log : wp offline (orasFetcher quote ref dir) (λ r _, ∃ err, r = Err err) log.
Proof.
  intros x log1 _. destruct x as [u|err]; [|by eexists]. intros y log2 [_ [err ->]].
  intros z log3 _. by eexists.
Qed.

Lemma Resolve_offline quote range ref target upstream log :
  (∀ m, range m ≡ₚ map_to_list m) →
  wp offline (Resolve quote range (mkResolver (Some (staticFetcher upstream)) (Some (orasFetcher quote ref)) true) target)
    (λ r _, ∀ m, r = Ok m → mg_Files m = ly_Files upstream ∧ mg_CustomDigest m = "" ∧ mg_CustomApplied m = false) log.
Proof.
  intros Hr. unfold Resolve. cbn [rv_Upstream staticFetcher prog_bind].
  assert (∀ up log, ly_Files up = ly_Files upstream →
    wp offline (overlay quote range (mkResolver (Some (staticFetcher upstream)) (Some (orasFetcher quote ref)) true) target up)
      (λ r _, ∀ m, r = Ok m → mg_Files m = ly_Files upstream ∧ mg_CustomDigest m = "" ∧ mg_CustomApplied m = false) log) as Hrest.
  { intros up log' Hf. unfold overlay. cbn [rv_Custom]. apply wp_bind. eapply wp_mono; [|apply orasFetcher_offline].
    intros c log1 [err ->]. intros [] log2 _ m Hm. pose proof (Merge_spec quote range Hr up None) as HM. rewrite Hm in HM.
    destruct HM as (_ & _ & [(Ha & Hfs & Hd & _)|(c & [=] & _)]). split; [congruence|done]. }
  destruct (is_zero (ly_FetchedAt upstream)); [intros now log1 _|]; by apply Hrest.
Qed.

Lemma Write_said quote range merged target log :
  (∀ m, range m ≡ₚ map_to_list m) →
  wp offline (Write quote range merged target) (λ r log', r = Ok tt →
    ∀ name body, mg_Files merged !! name = Some body → Ev (WriteFile (Join [target +:+ ".staging"; name]) body) (Ok tt) ∈ log') log.
Proof.
  intros Hr. unfold Write. intros x log1 _. destruct x as [u|err]; [|done]. intros y log2 _. destruct y as [u'|err]; [|done].
  apply wp_try. eapply wp_mono; [|apply write_files_said]. intros r log3 [_ Hw]. destruct r as [[]|err]; [|done].
  eapply wp_mono; [|apply offline_extends; by intros ev]. intros r log4 He _ name body Hin. apply He, Hw; [done|].
  rewrite (Hr _). by apply elem_of_map_to_list.
Qed.

Lemma read_entries_still quote dir entries : ∀ files s,
  wp fs_step (read_entries quote dir entries files) (λ _ s', s' = s) s.
Proof.
  induction entries as [|[rel isDir] entries IH]; intros files s; simpl; [done|].
  destruct isDir; [apply IH|]. destruct (validateContentPath quote rel); [done|].
  intros x s1 [-> _]. destruct x; [apply IH|done].
Qed.

(** Programs that run only tools allowed. *)
Definition runs_only {A} (P : list str → str → Prop) (p : prog fsE A) : Prop :=
  ∀ log, obeys (@logged fsE) (λ X e _, match e with Exec args output => P args output | _ => True end) p log.

Lemma runs_ret {A} P (a : A) : runs_only P (Ret a).
Proof. done. Qed.

Lemma runs_bind {A B} P (m : prog fsE A) (f : A → prog fsE B) : runs_only P m → (∀ a, runs_only P (f a)) → runs_only P (prog_bind m f).
Proof. intros Hm Hf log. apply obeys_bind; [apply Hm|]. apply wp_any. intros a s. apply Hf. Qed.

Lemma runs_try {Er A B} P (m : prog fsE (result Er A)) (f : A → prog fsE (result Er B)) :
  runs_only P m → (∀ a, runs_only P (f a)) → runs_only P (prog_try m f).
Proof. intros Hm Hf. apply runs_bind; [done|]. intros [a|e]; [apply Hf|apply runs_ret]. Qed.

Lemma runs_call {X} P (e : fsE X) : match e with Exec args output => P args output | _ => True end → runs_only P (call e).
Proof. by split. Qed.


Lemma runs_read P quote dir : runs_only P (Read quote dir).
Proof.
  apply runs_bind; [by apply runs_call|]. intros [entries failed]. apply runs_bind; [|intros files; apply runs_ret].
  generalize (∅ : gmap string str). induction entries as [|[rel isDir] entries IH]; intros files; cbn [read_entries]; [apply runs_ret|].
  destruct isDir; [apply IH|]. destruct (validateContentPath quote rel); [apply runs_ret|].
  apply runs_bind; [by apply runs_call|]. intros [body|err]; [apply IH|apply runs_ret].
Qed.

Lemma runs_attempt {A} P text (e : fsE (result fs_error A)) :
  match e with Exec args output => P args output | _ => True end → runs_only P (attempt text e).
Proof. intros H. apply runs_bind; [by apply runs_call|]. intros x. apply runs_ret. Qed.

Lemma runs_write P quote range merged dir : runs_only P (Write quote range merged dir).
Proof.
  unfold Write. apply runs_try; [by apply runs_attempt|]. intros _. apply runs_try; [by apply runs_attempt|]. intros _. apply runs_try.
  - induction (range (mg_Files merged)) as [|[name body] files IH]; [apply runs_ret|]. cbn [write_files].
    destruct (validateContentPath quote name); [apply runs_ret|].
    apply runs_try; [by apply runs_attempt|]. intros _. apply runs_try; [by apply runs_attempt|]. intros _. apply IH.
  - intros _. apply runs_bind; [by apply runs_call|]. intros _. apply runs_bind; [by apply runs_call|].
    intros [u|[t|t]]; [| |apply runs_ret]; (apply runs_bind; [by apply runs_call|]);
      (intros [v|e]; (apply runs_bind; [by apply runs_call|intros w; apply runs_ret])).
Qed.

Lemma runs_install P quote range marshal r target :
  (∀ fetch, rv_Upstream r = Some fetch ∨ rv_Custom r = Some fetch → runs_only P (fetch target)) →
  runs_only P (install_content quote range marshal r target).
Proof.
  intros Hf. unfold install_content. apply runs_try; [|intros m; apply runs_try; [apply runs_write|]].
  - unfold Resolve. destruct (rv_Upstream r) as [fu|]; [|apply runs_ret]. apply runs_bind; [apply Hf; by left|].
    intros [l|e]; [|apply runs_ret]. apply runs_bind.
    { destruct (is_zero _); [|apply runs_ret]. apply runs_bind; [by apply runs_call|intros; apply runs_ret]. }
    intros l'. unfold overlay. destruct (rv_Custom r) as [fc|]; [|apply runs_ret]. apply runs_bind; [apply Hf; by right|].
    assert (∀ err, runs_only P (reportCustomFailure r err)) as Hrep.
    { intros err. unfold reportCustomFailure. destruct (rv_Reports r); [by apply runs_call|apply runs_ret]. }
    intros [c|err]; [destruct (Merge quote range l' (Some c)); [apply runs_ret|]|]; (apply runs_bind; [apply Hrep|intros; apply runs_ret]).
  - intros _. unfold WriteStatus. destruct (marshalStatus marshal _); [by apply runs_attempt|apply runs_ret].
Qed.

Lemma runs_deferred {A} P p (m : prog fsE A) : runs_only P m → runs_only P (deferred p m).
Proof. intros H. apply runs_bind; [done|]. intros a. apply runs_bind; [by apply runs_call|intros; apply runs_ret]. Qed.

Lemma runs_tool P failed args output : P args output → runs_only P (run_tool failed args output).
Proof. intros H. apply runs_bind; [by apply runs_call|intros; apply runs_ret]. Qed.

Lemma runs_fetched P quote staging : runs_only P (fetched_layer quote staging).
Proof. apply runs_try; [apply runs_read|]. intros files. apply runs_bind; [by apply runs_call|intros; apply runs_ret]. Qed.

Lemma ValidateFeedURL_https quote url_parse raw :
  ValidateFeedURL quote url_parse raw = None → ∃ host, url_parse raw = Ok ("https", host) ∧ host ≠ "".
Proof.
  unfold ValidateFeedURL. case_bool_decide; [done|]. destruct (url_parse raw) as [[scheme host]|err]; [|done].
  case_bool_decide; [|done]. simpl. case_bool_decide; [done|]. subst. intros _. by exists host.
Qed.

Lemma cut_at_spec s a b : TapWebhook.cut_at s = Some (a, b) → s = a +:+ "@" +:+ b.
Proof.
  revert a b. induction s as [|c s IH]; intros a b; simpl; [done|].
  destruct (Ascii.eqb_spec c "@"%char) as [->|_]; [by intros [= <- <-]|].
  destruct (TapWebhook.cut_at s) as [[a' b']|]; [|done]. intros [= <- <-]. simpl. by rewrite (IH a' b').
Qed.

Lemma ParseReference_spec quote s ref :
  TapWebhook.ParseReference quote s = Ok ref → s = reference_text ref ∧ TapWebhook.digest_matches (TapWebhook.ref_Digest ref) = true.
Proof.
  unfold TapWebhook.ParseReference. case_bool_decide; [done|]. destruct (TapWebhook.cut_at s) as [[repo digest]|] eqn:E; [|done].
  case_bool_decide; [done|]. destruct (TapWebhook.digest_matches digest) eqn:Ed; [|done]. simpl. intros [= <-].
  split; [by apply cut_at_spec|done].
Qed.

(** ** Theorems *)

(** an overlay that cannot be pulled relabels what it finds.  Without the
    registry an overlay that succeeds has read the whole content directory,
    written every file it found there again, custom ones an earlier attempt
    left included, and recorded a status that says no custom content is
    applied. *)
Theorem failed_pull_relabels quote range marshal unmarshal ref target :
  (∀ m, range m ≡ₚ map_to_list m) →
  wp offline (overlay_on quote range marshal unmarshal ref target) (λ r log, r = Ok tt →
    ∃ existing fetched data, found target existing log ∧
      (∀ name body, existing !! name = Some body → Ev (WriteFile (Join [target +:+ ".staging"; name]) body) (Ok tt) ∈ log) ∧
      marshal (mkContentStatus fetched "" false) = Ok data ∧ Ev (WriteFile (Join [target; StatusFile]) data) (Ok tt) ∈ log) [].
Proof.
  intros Hr. unfold overlay_on. apply wp_try. eapply wp_mono; [|apply Read_found]. intros r log1 [_ Hfound].
  destruct r as [existing|err]; [|done]. specialize (Hfound existing eq_refl).
  apply wp_try. eapply wp_mono; [|apply (offline_extends _ log1); by intros ev]. intros st log2 He2. destruct st as [st|err]; [|done].
  unfold install_content. apply wp_try. eapply wp_mono; [|apply offline_keeps, Resolve_offline, Hr]. intros m log3 [He3 Hm].
  destruct m as [m|err]; [|done]. destruct (Hm m eq_refl) as (Hf & Hd & Ha). cbn [ly_Files] in Hf.
  apply wp_try. eapply wp_mono; [|apply offline_keeps, Write_said, Hr]. intros w log4 [He4 Hw]. destruct w as [[]|err]; [|done].
  unfold WriteStatus, marshalStatus. destruct (marshal (status_of m)) as [data|err] eqn:EM; [|done].
  intros x log5 [-> _] Hx. destruct x as [[]|err]; [|done].
  exists existing, (mg_UpstreamFetchedAt m), data. unfold status_of in EM. rewrite Hd, Ha in EM. split_and!; [|  |done|apply said].
  - destruct Hfound as (entries & H1 & H2 & H3). exists entries.
    assert (extends log1 (log4 ++ [Ev (WriteFile (Join [target; StatusFile]) data) (Ok ())])) as He
      by (eauto using extends_trans, extends_snoc).
    split_and!; [by apply He|done|intros rel body Hl; by apply He, H3].
  - intros name body Hl. apply extends_snoc, Hw; [done|]. by rewrite Hf.
Qed.

(** a write cut between its two renames strands the overlay.  While the
    content directory is missing, an overlay ends with an error and leaves
    everything as it is: neither the content set aside beside it nor the one
    staged is put in place. *)
Theorem missing_content_strands quote range marshal unmarshal ref target s :
  s !! key target = None →
  wp fs_step (overlay_on quote range marshal unmarshal ref target) (λ r s', exit_code r = 1 ∧ s' = s) s.
Proof.
  intros Hmiss. unfold overlay_on. apply wp_try. unfold Read.
  intros [entries failed] s1 [-> Hwalk]. apply (wp_bind fs_step (read_entries quote target entries ∅)).
  eapply wp_mono; [|apply read_entries_still]. intros r s1 ->.
  destruct failed as [err|]; [destruct r; by split|]. by destruct (Hwalk eq_refl).
Qed.

(** only what is pinned or encrypted is run.  Every tool the upstream
    command runs is suricata-update on a feed, or git on a repository, whose
    URL has the scheme https and a host; the overlay runs nothing but oras, on
    the reference it was given, digest and all; each leaves what it brings
    beside the content directory. *)
Theorem tools_run_pinned quote range marshal unmarshal url_parse analyzer dir feedURL scriptRepo reference log :
  let target := Join [dir; analyzer] in
  let https url := ∃ host, url_parse url = Ok ("https", host) ∧ host ≠ "" in
  obeys (@logged fsE) (λ X e _, match e with
      | Exec args output => output = target +:+ ".fetch" ∧
          (analyzer = "Suricata" ∧ https feedURL ∧
             args = ["suricata-update"; "--no-test"; "--no-reload"; "--url"; feedURL; "--data-dir"; output] ∨
           analyzer = "Zeek" ∧ https scriptRepo ∧ args = ["git"; "clone"; "--depth"; "1"; scriptRepo; output])
      | _ => True
      end) (fetchUpstream quote range marshal url_parse analyzer dir feedURL scriptRepo) log ∧
  obeys (@logged fsE) (λ X e _, match e with
      | Exec args output => output = target +:+ ".custom" ∧ args = ["oras"; "pull"; reference; "--output"; output] ∧
          ∃ repository digest, reference = repository +:+ "@" +:+ digest ∧ TapWebhook.digest_matches digest = true
      | _ => True
      end) (overlayCustom quote range marshal unmarshal analyzer dir reference) log.
Proof.
  intros target https. split.
  - unfold fetchUpstream. destruct (bool_decide (dir = "") || bool_decide (analyzer = "")); [done|].
    unfold upstream_fetcher. case_bool_decide as Hs.
    { destruct (ValidateFeedURL quote url_parse feedURL) eqn:E; [done|]. apply ValidateFeedURL_https in E.
      apply (runs_install (λ args output, _)). intros fetch [[= <-]|[=]]. apply runs_try; [by apply runs_attempt|]. intros _.
      apply runs_deferred, runs_try; [|intros _; apply runs_fetched]. apply runs_tool. split; [done|]. by left. }
    case_bool_decide as Hz; [|done]. destruct (ValidateFeedURL quote url_parse scriptRepo) eqn:E; [done|]. apply ValidateFeedURL_https in E.
    apply (runs_install (λ args output, _)). intros fetch [[= <-]|[=]]. apply runs_bind; [by apply runs_call|]. intros _.
    apply runs_try; [apply runs_tool; split; [done|]; by right|]. intros _. apply runs_deferred, runs_bind; [by apply runs_call|].
    intros _. apply runs_fetched.
  - unfold overlayCustom. destruct (_ || _ || _); [done|].
    destruct (TapWebhook.ParseReference quote reference) as [ref|err] eqn:E; [|done]. apply ParseReference_spec in E as [Href Hd].
    apply (runs_try (λ args output, _)); [apply runs_read|]. intros existing. apply runs_try.
    { apply runs_try; [by apply runs_attempt|intros; apply runs_ret]. }
    intros previous. apply runs_install. intros fetch [[= <-]|[= <-]]; [apply runs_ret|].
    apply runs_try; [by apply runs_attempt|]. intros _. apply runs_deferred, runs_try.
    + apply runs_tool. split; [done|]. rewrite Href. split; [done|]. by exists (TapWebhook.ref_Repository ref), (TapWebhook.ref_Digest ref).
    + intros _. apply runs_try; [apply runs_read|intros; apply runs_ret].
Qed.

(** ** Witnesses *)

(** A volume an overlay was applied to, and no registry; what is written is kept. *)
Definition after_overlay (X : Type) (e : fsE X) (wrote : list (str * str)) : X * list (str * str) :=
  match e in fsE X return X * list (str * str) with
  | WriteFile p body => (Ok tt, wrote ++ [(p, body)])
  | ReadFile p => (if bool_decide (p = "/c/Zeek/.trawl-content-status.json") then Ok "applied" else Ok ("body of " +:+ p), wrote)
  | WalkDir _ => (([(".", true); (".trawl-content-status.json", false); ("local.zeek", false)], None), wrote)
  | Exec _ _ => (Err "connection refused", wrote)
  | Now => (5, wrote)
  | OnCustomFailure _ => (tt, wrote)
  | RemoveAll _ | MkdirAll _ | Rename _ _ => (Ok tt, wrote)
  end.

Definition example_marshal (st : ContentStatus) : result str str := Ok (if cst_CustomApplied st then "applied" else "not applied").
Definition example_unmarshal (data : str) : result str ContentStatus := Ok (mkContentStatus 3 "sha256:0" (bool_decide (data = "applied"))).
Definition example_reference : TapWebhook.Reference := TapWebhook.mkReference "registry/rules" "sha256:0".

Lemma failed_pull_relabels_witness :
  run after_overlay (overlay_on (λ s, s) map_to_list example_marshal example_unmarshal example_reference "/c/Zeek") [] =
    (Ok tt, [("/c/Zeek.staging/.trawl-content-status.json", "applied"); ("/c/Zeek.staging/local.zeek", "body of /c/Zeek/local.zeek");
             ("/c/Zeek/.trawl-content-status.json", "not applied")]) ∧
  wp offline (overlay_on (λ s, s) map_to_list example_marshal example_unmarshal example_reference "/c/Zeek") (λ r log, r = Ok tt →
    ∃ existing fetched data, found "/c/Zeek" existing log ∧
      (∀ name body, existing !! name = Some body → Ev (WriteFile (Join ["/c/Zeek" +:+ ".staging"; name]) body) (Ok tt) ∈ log) ∧
      example_marshal (mkContentStatus fetched "" false) = Ok data ∧ Ev (WriteFile (Join ["/c/Zeek"; StatusFile]) data) (Ok tt) ∈ log) [].
Proof.
  split; [vm_compute; reflexivity|].
  by apply (failed_pull_relabels (λ s, s) map_to_list example_marshal example_unmarshal example_reference "/c/Zeek").
Defined.

Lemma missing_content_strands_witness :
  let s : fs := {[ ["/"] := Directory; ["/"; "c"] := Directory; ["/"; "c"; "Zeek.previous"] := Directory;
                   ["/"; "c"; "Zeek.previous"; "a.zeek"] := File "old"; ["/"; "c"; "Zeek.staging"] := Directory;
                   ["/"; "c"; "Zeek.staging"; "a.zeek"] := File "new" ]} in
  wp fs_step (overlay_on (λ s, s) map_to_list example_marshal example_unmarshal example_reference "/c/Zeek")
    (λ r s', exit_code r = 1 ∧ s' = s) s.
Proof.
  intros s. apply (missing_content_strands (λ s, s) map_to_list example_marshal example_unmarshal example_reference "/c/Zeek").
  vm_compute. reflexivity.
Defined.

End ContentInit.
