(* ===== verification/TapWorkload.v ===== *)
(** * The workload of a network tap, internal/controller/networktap_workload.go,
    networktap_objects.go and networktap_rbac.go

    Rendering is a function of the tap and the installation's configuration;
    nothing is a panic of the quantity parser.  The label selector's matching
    is the API machinery's and is a parameter of what is proved about it. *)

From S2P Require Import Prelude GoTime GoString Names Api Settings Objects Render PortMirror TapWebhook.

Module TapWorkload.
Import Objects Render.

Definition contentVolume : str := "analyzer-content".
Definition contentPath : str := "/var/lib/trawl/content".
Definition logsVolume : str := "analyzer-logs".
Definition logsPath : str := "/var/log/trawl".
Definition tokenVolume : str := "sensor-token".
Definition tmpVolume : str := "content-tmp".
Definition tmpPath : str := "/tmp".
Definition sensorProbePortBase : Z := 19100.
Definition sensorProbePortSpan : Z := 100.
Definition SourceTypeMirrorInterface : str := "mirror_interface".
Definition SourceTypeNodeInterface : str := "node_interface".

(** The workload's, the account's, the config map's and the role's. *)
Definition Names (tap : NetworkTap) : str * str * str * str :=
  let base := "trawl-tap-" +:+ shortUID (m_UID (nt_Meta tap)) in
  (base, base, base +:+ "-config", base +:+ "-status").

Definition Labels (tap : NetworkTap) : gmap string string :=
  list_to_map [("app.kubernetes.io/name", "trawl"); ("app.kubernetes.io/component", "sensor");
    ("app.kubernetes.io/managed-by", "trawl-controller-manager");
    ("trawl.cloud/tap", m_Name (nt_Meta tap)); ("trawl.cloud/tap-uid", m_UID (nt_Meta tap))].

Definition enabledAnalyzers (tap : NetworkTap) : list str :=
  (if ac_Enabled (as_Suricata (tps_Analyzers (nt_Spec tap))) then [AnalyzerSuricata] else []) ++
  (if ac_Enabled (as_Zeek (tps_Analyzers (nt_Spec tap))) then [AnalyzerZeek] else []).

Definition analyzerConfig (tap : NetworkTap) (name : str) : AnalyzerConfig :=
  if bool_decide (name = AnalyzerSuricata) then as_Suricata (tps_Analyzers (nt_Spec tap))
  else as_Zeek (tps_Analyzers (nt_Spec tap)).

Definition is_mirror (tap : NetworkTap) : bool := bool_decide (tps_Type (nt_Spec tap) = TapSourceMirrorInterface).

Definition sourceTypeLabel (tap : NetworkTap) : str :=
  if is_mirror tap then SourceTypeMirrorInterface else SourceTypeNodeInterface.

Definition sourceOf (tap : NetworkTap) : InterfaceSource :=
  let source := if is_mirror tap then tps_MirrorInterface (nt_Spec tap) else tps_NodeInterface (nt_Spec tap) in
  default zero_source source.

(** [fnv.New32a]: the hash of the bytes written to it. *)
Fixpoint fnv32a (h : Z) (s : str) : Z :=
  match s with
  | EmptyString => h
  | String c s' => fnv32a ((Z.lxor h (byte_of c) * 16777619) mod 2 ^ 32) s'
  end.

Definition SensorProbePort (tap : NetworkTap) : Z :=
  let sum := fnv32a 2166136261 (m_Namespace (nt_Meta tap) +:+ "/" +:+ m_Name (nt_Meta tap)) in
  wrap32 (sensorProbePortBase + wrap32 (sum mod sensorProbePortSpan)).

Section render.
Context `{Quantities} (cfg : Settings.Config).

(** ** The pod *)

Definition volumes (configMapName : str) : option (list Volume) :=
  content ← MustParse "512Mi"; logs ← MustParse "1Gi"; tmp ← MustParse "256Mi";
  Some [mkVolume contentVolume (EmptyDir content); mkVolume logsVolume (EmptyDir logs); mkVolume tmpVolume (EmptyDir tmp);
        mkVolume "analyzer-config" (ConfigMapVolume configMapName); token_volume tokenVolume].

Definition contentInitResources : option ResourceRequirements := resource_lists "50m" "64Mi" "500m" "512Mi".

Definition content_mounts : list VolumeMount :=
  [mkMount contentVolume contentPath false; mkMount tmpVolume tmpPath false].

(** A content container, with its resources. *)
Definition content_container (name : str) (args : list str) (resources : ResourceRequirements) : Container :=
  mkContainer name (Settings.im_ContentInit (Settings.c_Images cfg)) args [] restrictedSecurityContext resources
    content_mounts None None None.

Definition fetch_args (name : str) : list str :=
  ["fetch-upstream"; "--analyzer=" +:+ name; "--content-dir=" +:+ contentPath] ++
  (if bool_decide (name = AnalyzerSuricata)
   then ["--feed-url=" +:+ Settings.ct_SuricataFeedURL (Settings.c_Content cfg)]
   else if bool_decide (name = AnalyzerZeek)
   then ["--script-repo=" +:+ Settings.ct_ZeekScriptRepo (Settings.c_Content cfg)] else []).

Definition overlay_args (name reference : str) : list str :=
  ["overlay-custom"; "--analyzer=" +:+ name; "--content-dir=" +:+ contentPath; "--reference=" +:+ reference].

(** The loop body of [contentInitContainers]. *)
Definition content_of (tap : NetworkTap) (name : str) : option (list Container) :=
  resources ← contentInitResources;
  Some (content_container ("content-" +:+ str_lower name) (fetch_args name) resources ::
        match ac_CustomContent (analyzerConfig tap name) with
        | Some reference =>
            [content_container ("content-" +:+ str_lower name +:+ "-custom") (overlay_args name reference) resources]
        | None => []
        end).

Definition contentInitContainers (tap : NetworkTap) : option (list Container) :=
  lists ← mapM (content_of tap) (enabledAnalyzers tap); Some (concat lists).

(** The loop body of [containers]. *)
Definition analyzer_container (tap : NetworkTap) (src : InterfaceSource) (name : str) : Container :=
  mkContainer (str_lower name)
    (if bool_decide (name = AnalyzerZeek) then Settings.im_Zeek (Settings.c_Images cfg)
     else Settings.im_Suricata (Settings.c_Images cfg))
    ["--interface=" +:+ is_Interface src; "--content-dir=" +:+ contentPath; "--log-dir=" +:+ logsPath]
    [] analyzerSecurityContext
    (default (mkResources ∅ ∅) (ac_Resources (analyzerConfig tap name)))
    [mkMount contentVolume contentPath true; mkMount logsVolume logsPath false; mkMount "analyzer-config" "/etc/trawl" true]
    None None None.

Definition sensorResources : option ResourceRequirements := resourcesFrom (Settings.c_SensorAgentResources cfg).

(** The switches that turn the readers on. *)
Definition reader_args (tap : NetworkTap) : list str :=
  concat ((λ name,
    if bool_decide (name = AnalyzerZeek) then ["--zeek-log-dir=" +:+ logsPath +:+ "/zeek"]
    else if bool_decide (name = AnalyzerSuricata) then ["--suricata-log=" +:+ logsPath +:+ "/suricata/eve.json"]
    else []) <$> enabledAnalyzers tap).

Definition sensor_args (tap : NetworkTap) (src : InterfaceSource) : list str :=
  ["--tap-namespace=" +:+ m_Namespace (nt_Meta tap); "--tap-name=" +:+ m_Name (nt_Meta tap);
   "--tap-uid=" +:+ m_UID (nt_Meta tap); "--interface=" +:+ is_Interface src;
   "--source-type=" +:+ sourceTypeLabel tap; "--log-dir=" +:+ logsPath; "--content-dir=" +:+ contentPath;
   "--probe-addr=:" +:+ itoa (SensorProbePort tap); "--token-dir=" +:+ tokenPath] ++ reader_args tap.

Definition sensorContainer (tap : NetworkTap) (src : InterfaceSource) : option Container :=
  resources ← sensorResources;
  Some (mkContainer "sensor-agent" (Settings.im_SensorAgent (Settings.c_Images cfg)) (sensor_args tap src)
    [mkEnv "TRAWL_NODE_NAME" "spec.nodeName"; mkEnv "POD_NAME" "metadata.name"]
    restrictedSecurityContext resources
    [mkMount logsVolume logsPath true; mkMount contentVolume contentPath true; mkMount tokenVolume tokenPath true]
    (Some (mkProbe "/readyz" (SensorProbePort tap) 5 10)) (Some (mkProbe "/healthz" (SensorProbePort tap) 10 20)) None).

Definition containers (tap : NetworkTap) (src : InterfaceSource) : option (list Container) :=
  sensor ← sensorContainer tap src;
  Some ((analyzer_container tap src <$> enabledAnalyzers tap) ++ [sensor]).

Definition PodSpec_ (tap : NetworkTap) : option PodSpec :=
  let '(_, saName, configMapName, _) := Names tap in
  vols ← volumes configMapName;
  inits ← contentInitContainers tap;
  conts ← containers tap (sourceOf tap);
  Some (mkPodSpec saName true "ClusterFirstWithHostNet" "" "RuntimeDefault" false None vols inits conts ∅
          [mkToleration "Exists"]).

(** ** networktap_objects.go *)

Definition tap_meta (tap : NetworkTap) (name : str) : ObjectMeta_ :=
  mkObjectMeta name (m_Namespace (nt_Meta tap)) (Labels tap).

Definition with_selector (p : PodSpec) (sel : gmap string string) : PodSpec :=
  mkPodSpec (ps_ServiceAccountName p) (ps_HostNetwork p) (ps_DNSPolicy p) (ps_RestartPolicy p) (ps_SeccompProfile p)
    (ps_AutomountServiceAccountToken p) (ps_TerminationGracePeriodSeconds p) (ps_Volumes p) (ps_InitContainers p)
    (ps_Containers p) sel (ps_Tolerations p).

Definition pod_template (tap : NetworkTap) : option PodTemplate :=
  pod ← PodSpec_ tap;
  Some (mkPodTemplate (Labels tap) {[ "trawl.cloud/spec-generation" := itoa (m_Generation (nt_Meta tap)) ]}
          (with_selector pod (ls_MatchLabels (is_NodeSelector (sourceOf tap))))).

(** One of a Deployment and a DaemonSet. *)
Definition Workload (tap : NetworkTap) : option Object_ :=
  let '(name, _, _, _) := Names tap in
  let selector := {[ "trawl.cloud/tap-uid" := m_UID (nt_Meta tap) ]} in
  t ← pod_template tap;
  Some (if is_mirror tap
        then DeploymentObject (tap_meta tap name) 1 selector "Recreate" t
        else DaemonSetObject (tap_meta tap name) selector "RollingUpdate" 1 t).

Definition boolString (b : bool) : str := if b then "true" else "false".

Definition ConfigMap (tap : NetworkTap) : Object_ :=
  let '(_, _, cmName, _) := Names tap in
  let src := sourceOf tap in
  ConfigMapObject (tap_meta tap cmName)
    (list_to_map [("interface", is_Interface src); ("promiscuous", boolString (is_Promiscuous src));
       ("tap-uid", m_UID (nt_Meta tap)); ("cluster", Settings.c_ClusterID cfg)]).

End render.

(** ** networktap_rbac.go *)

Definition ServiceAccount (tap : NetworkTap) : Object_ :=
  let '(_, saName, _, _) := Names tap in ServiceAccountObject (tap_meta tap saName) false.

Definition role_rules (tap : NetworkTap) : list PolicyRule :=
  [mkRule ["trawl.cloud"] ["networktaps/status"] [m_Name (nt_Meta tap)] [verbGet; verbPatch; "update"];
   mkRule ["trawl.cloud"] ["networktaps"] [m_Name (nt_Meta tap)] [verbGet]].

Definition StatusRole (tap : NetworkTap) : Object_ :=
  let '(_, _, _, roleName) := Names tap in RoleObject (tap_meta tap roleName) (role_rules tap).

Definition StatusRoleBinding (tap : NetworkTap) : Object_ :=
  let '(_, saName, _, roleName) := Names tap in
  RoleBindingObject (tap_meta tap roleName) [mkSubject "ServiceAccount" saName (m_Namespace (nt_Meta tap))]
    (mkRoleRef "rbac.authorization.k8s.io" "Role" roleName).

(** ** Lemmas *)

Section lemmas.
Context `{Quantities} (cfg : Settings.Config).

(** A rendered pod, field by field. *)
Lemma PodSpec_fields tap pod :
  PodSpec_ cfg tap = Some pod →
  ∃ vols inits sensor,
    volumes (Names tap).1.2 = Some vols ∧ contentInitContainers cfg tap = Some inits ∧
    sensorContainer cfg tap (sourceOf tap) = Some sensor ∧
    pod = mkPodSpec (Names tap).1.1.2 true "ClusterFirstWithHostNet" "" "RuntimeDefault" false None vols inits
            ((analyzer_container cfg tap (sourceOf tap) <$> enabledAnalyzers tap) ++ [sensor]) ∅ [mkToleration "Exists"].
Proof.
  unfold PodSpec_, Names. cbn [fst snd]. rewrite bind_Some. intros (vols & Ev & Hr).
  apply bind_Some in Hr as (inits & Ei & Hr). apply bind_Some in Hr as (conts & Ec & Hr).
  unfold containers in Ec. apply bind_Some in Ec as (sensor & Es & Ec). injection Ec as <-. injection Hr as <-.
  by exists vols, inits, sensor.
Qed.

Lemma content_containers tap inits c :
  contentInitContainers cfg tap = Some inits → c ∈ inits →
  co_SecurityContext c = restrictedSecurityContext ∧ co_VolumeMounts c = content_mounts.
Proof.
  unfold contentInitContainers. intros (lists & El & [= <-])%bind_Some (l & Hl & Hc)%list_elem_of_In%in_concat.
  apply list_elem_of_In in Hl. apply mapM_Some in El. apply list_elem_of_lookup in Hl as (i & Hi).
  destruct (Forall2_lookup_r _ _ _ _ _ El Hi) as (name & _ & Hn). unfold content_of in Hn.
  apply bind_Some in Hn as (r & _ & [= <-]). apply list_elem_of_In in Hc.
  destruct (ac_CustomContent (analyzerConfig tap name)); set_solver.
Qed.

Lemma sensor_fields tap src c :
  sensorContainer cfg tap src = Some c →
  co_SecurityContext c = restrictedSecurityContext ∧
  co_VolumeMounts c = [mkMount logsVolume logsPath true; mkMount contentVolume contentPath true;
                       mkMount tokenVolume tokenPath true].
Proof. unfold sensorContainer. by intros (r & _ & [= <-])%bind_Some. Qed.

Lemma volumes_fields name vols :
  volumes name = Some vols →
  ∃ content logs tmp, vols = [mkVolume contentVolume (EmptyDir content); mkVolume logsVolume (EmptyDir logs);
    mkVolume tmpVolume (EmptyDir tmp); mkVolume "analyzer-config" (ConfigMapVolume name); token_volume tokenVolume].
Proof.
  unfold volumes. intros (content & _ & (logs & _ & (tmp & _ & [= <-])%bind_Some)%bind_Some)%bind_Some. eauto.
Qed.

(** A template is the pod with the source's match labels. *)
Lemma pod_template_fields tap t :
  pod_template cfg tap = Some t →
  ∃ pod, PodSpec_ cfg tap = Some pod ∧
    pt_Spec t = with_selector pod (ls_MatchLabels (is_NodeSelector (sourceOf tap))).
Proof. unfold pod_template. intros (pod & Ep & [= <-])%bind_Some. by exists pod. Qed.

Lemma Workload_template tap o :
  Workload cfg tap = Some o → ∃ t, pod_template cfg tap = Some t ∧ object_template o = Some t ∧
    object_meta o = tap_meta tap (Names tap).1.1.1.
Proof.
  unfold Workload, Names. cbn [fst snd]. intros (t & Et & [= <-])%bind_Some. exists t. by destruct (is_mirror tap).
Qed.

(** Every text the renderer hands to [MustParse] parses: the constants, and the
    sizing a validated configuration has. *)
Definition constants_parse : Prop :=
  Forall (λ s, is_Some (ParseQuantity s)) ["512Mi"; "1Gi"; "256Mi"; "50m"; "64Mi"; "500m"].

Lemma volumes_Some name : constants_parse → is_Some (volumes name).
Proof.
  unfold constants_parse. rewrite !Forall_cons. intros ([q1 E1] & [q2 E2] & [q3 E3] & _). unfold volumes, MustParse.
  rewrite E1, E2, E3. by eexists.
Qed.

Lemma content_Some tap : constants_parse → is_Some (contentInitContainers cfg tap).
Proof.
  unfold constants_parse. rewrite !Forall_cons. intros (H1 & _ & _ & H2 & H3 & H4 & _).
  destruct (resource_lists_Some "50m" "64Mi" "500m" "512Mi") as [r Er]; [done..|].
  assert (is_Some (mapM (content_of cfg tap) (enabledAnalyzers tap))) as [ls El].
  { apply mapM_is_Some, Forall_forall. intros name _. unfold content_of, contentInitResources. rewrite Er. by eexists. }
  unfold contentInitContainers. rewrite El. by eexists.
Qed.

Lemma Workload_Some tap :
  constants_parse → Settings.valid_resources ParseQuantity (Settings.c_SensorAgentResources cfg) → is_Some (Workload cfg tap).
Proof.
  intros Hc [r Er]%resourcesFrom_Some. destruct (content_Some tap Hc) as [i Ei].
  unfold Workload, pod_template, PodSpec_. destruct (Names tap) as [[[name sa] cm] role].
  destruct (volumes_Some cm Hc) as [v ->]. rewrite Ei. unfold containers, sensorContainer, sensorResources. rewrite Er.
  by eexists.
Qed.

End lemmas.

(** No volume of a tap's pod holds a Secret, and only the token volume holds a
    token. *)
Lemma token_mounts `{Quantities} name vols pod c :
  volumes name = Some vols → ps_Volumes pod = vols →
  mounts holds_token pod c = existsb (λ m, bool_decide (vm_Name m = tokenVolume)) (co_VolumeMounts c) ∧
  mounts holds_secret pod c = false.
Proof.
  intros (content & logs & tmp & ->)%volumes_fields E. unfold mounts. rewrite E. cbn. by rewrite orb_false_r.
Qed.

Lemma wrap32_small z : 0 ≤ z < 2 ^ 31 → wrap32 z = z.
Proof. intros Hz. apply wrap32_id. unfold in_int32, min_int32, max_int32. lia. Qed.

(** The names of the content containers. *)
Lemma content_names `{Quantities} cfg tap inits :
  contentInitContainers cfg tap = Some inits →
  co_Name <$> inits = concat ((λ name, ("content-" +:+ str_lower name) ::
    match ac_CustomContent (analyzerConfig tap name) with
    | Some _ => ["content-" +:+ str_lower name +:+ "-custom"] | None => [] end) <$> enabledAnalyzers tap).
Proof.
  unfold contentInitContainers. intros (lists & El%mapM_Some & [= <-])%bind_Some.
  induction El as [|name l names lists Hn El IH]; [done|]. cbn [concat fmap list_fmap]. rewrite fmap_app, IH. f_equal.
  unfold content_of in Hn. apply bind_Some in Hn as (r & _ & [= <-]).
  by destruct (ac_CustomContent (analyzerConfig tap name)).
Qed.

Lemma sensor_name `{Quantities} cfg tap src c : sensorContainer cfg tap src = Some c → co_Name c = "sensor-agent".
Proof. unfold sensorContainer. by intros (r & _ & [= <-])%bind_Some. Qed.

Lemma tap_pod_well_formed `{Quantities} cfg tap pod : PodSpec_ cfg tap = Some pod → pod_well_formed pod.
Proof.
  intros (vols & inits & sensor & Ev & Ei & Es & ->)%PodSpec_fields.
  apply volumes_fields in Ev as (content & logs & tmp & ->). unfold pod_well_formed. cbn [ps_Volumes ps_InitContainers ps_Containers].
  split_and!.
  - by apply (bool_decide_unpack _).
  - rewrite !fmap_app, (content_names _ _ _ Ei). cbn [fmap list_fmap]. rewrite (sensor_name _ _ _ _ Es).
    unfold enabledAnalyzers.
    destruct (ac_Enabled (as_Suricata _)), (ac_Enabled (as_Zeek _)); cbn; unfold analyzerConfig; cbn;
      repeat case_match; by apply (bool_decide_unpack _).
  - intros c m [Hc|[(name & -> & _)%list_elem_of_fmap|Hc]%elem_of_app]%elem_of_app Hm.
    + destruct (content_containers _ _ _ _ Ei Hc) as [_ E]. rewrite E in Hm. revert Hm. cbn. set_solver.
    + revert Hm. cbn. set_solver.
    + apply list_elem_of_singleton in Hc as ->. destruct (sensor_fields _ _ _ _ Es) as [_ E]. rewrite E in Hm.
      revert Hm. cbn. set_solver.
Qed.

(** ** Theorems *)

(** C31: The split of privilege in a sensor pod.  Whatever the tap asks for, no
    container of it is privileged or can become so, none writes its own image,
    and every capability is dropped but the two of packet capture, which only
    the analyzers hold; the analyzers and the content fetchers mount no token,
    and the one container that does is the sensor, without root or any
    capability; no pod mounts a Secret or a token by itself. *)
Theorem tap_privileges_split `{Quantities} cfg tap o :
  Workload cfg tap = Some o →
  ∃ t analyzers sensor, object_template o = Some t ∧
    let pod := pt_Spec t in
    ps_AutomountServiceAccountToken pod = false ∧ ps_Containers pod = analyzers ++ [sensor] ∧
    (∀ c, c ∈ ps_InitContainers pod → unprivileged c ∧ mounts holds_token pod c = false) ∧
    (∀ c, c ∈ analyzers → confined [capNetRaw; capNetAdmin] c ∧ mounts holds_token pod c = false ∧
       mkMount contentVolume contentPath true ∈ co_VolumeMounts c) ∧
    unprivileged sensor ∧ mounts holds_token pod sensor = true ∧
    (∀ c, c ∈ ps_InitContainers pod ++ ps_Containers pod → mounts holds_secret pod c = false).
Proof.
  intros (t & (pod & (vols & inits & sensor & Ev & Ei & Es & ->)%PodSpec_fields & Et)%pod_template_fields & Eo & _)%Workload_template.
  exists t, (analyzer_container cfg tap (sourceOf tap) <$> enabledAnalyzers tap), sensor.
  pose proof (λ c, token_mounts _ _ (pt_Spec t) c Ev ltac:(by rewrite Et)) as Hm.
  destruct (sensor_fields _ _ _ _ Es) as [Hs Hsm]. cbv zeta. split_and!; [done|by rewrite Et|by rewrite Et|..].
  - intros c Hc. rewrite Et in Hc. destruct (content_containers cfg tap inits c Ei Hc) as [Hr Hcm].
    split; [by apply restricted_unprivileged|]. rewrite (proj1 (Hm c)), Hcm. done.
  - intros c (name & -> & _)%list_elem_of_fmap. split_and!; [by apply analyzer_confined| |].
    + by rewrite (proj1 (Hm _)).
    + cbn. left.
  - by apply restricted_unprivileged.
  - by rewrite (proj1 (Hm _)), Hsm.
  - intros c _. apply Hm.
Qed.

(** What a sensor's account may do.  The rules of a tap's role allow exactly
    reading, patching and updating the status of that tap and reading that tap,
    by name: no other object, and no other verb; and the role is bound to the
    account the tap's own pod runs as. *)
Theorem status_role_confined tap verb group resource name :
  (role_allows (role_rules tap) verb group resource name = true ↔
   group = "trawl.cloud" ∧ name = m_Name (nt_Meta tap) ∧
   (resource = "networktaps/status" ∧ verb ∈ ["get"; "patch"; "update"] ∨ resource = "networktaps" ∧ verb = "get")) ∧
  StatusRole tap = RoleObject (tap_meta tap (Names tap).2) (role_rules tap) ∧
  StatusRoleBinding tap = RoleBindingObject (tap_meta tap (Names tap).2)
    [mkSubject "ServiceAccount" (Names tap).1.1.2 (m_Namespace (nt_Meta tap))]
    (mkRoleRef "rbac.authorization.k8s.io" "Role" (Names tap).2).
Proof.
  split; [|done]. unfold role_allows, role_rules, rule_allows. cbn [existsb pl_APIGroups pl_Resources pl_ResourceNames pl_Verbs].
  rewrite orb_false_r, orb_true_iff, !andb_true_iff, !orb_true_iff, !bool_decide_eq_true. unfold verbGet, verbPatch.
  rewrite !list_elem_of_singleton. naive_solver.
Qed.

(** What a node selector asks of a node's labels. *)
Definition pod_fits (pod : PodSpec) (labels : gmap string string) : bool := bool_decide (ps_NodeSelector pod ⊆ labels).

(** Where the workload may run.  With [matches] the API machinery's reading
    of a label selector, of which only what it documents of one without
    expressions is assumed: a pod of a tap that selects by labels fits exactly
    the nodes the controller counts as its targets; a tap that selects by
    expressions alone, which admission accepts, is rendered without a node
    selector, and its pods fit every node. *)
Theorem expressions_dropped `{Quantities} cfg tap o t (matches : LabelSelector → gmap string string → bool) :
  (∀ sel labels, ls_MatchExpressions sel = [] → matches sel labels = bool_decide (ls_MatchLabels sel ⊆ labels)) →
  Workload cfg tap = Some o → object_template o = Some t →
  let sel := is_NodeSelector (sourceOf tap) in
  (ls_MatchExpressions sel = [] → ∀ labels, pod_fits (pt_Spec t) labels = matches sel labels) ∧
  (ls_MatchLabels sel = ∅ → ∀ labels, pod_fits (pt_Spec t) labels = true).
Proof.
  intros Hmatches (t' & (pod & _ & Et)%pod_template_fields & Eo & _)%Workload_template Et'.
  rewrite Eo in Et'. injection Et' as ->. unfold pod_fits. rewrite Et. cbn. split.
  - intros He labels. by rewrite Hmatches.
  - intros -> labels. apply bool_decide_eq_true. apply map_empty_subseteq.
Qed.

(** A validated configuration never panics the renderer.  Whatever the tap
    holds, its workload is rendered - every text handed to [MustParse] is a
    constant or was parsed when the configuration was loaded - and its pod is
    one: volumes and containers are named apart and every mount names a
    volume. *)
Theorem tap_workload_well_formed `{Quantities} cfg tap :
  constants_parse → Settings.valid_config ParseQuantity cfg →
  ∃ o t, Workload cfg tap = Some o ∧ object_template o = Some t ∧ pod_well_formed (pt_Spec t).
Proof.
  intros Hc Hv. destruct Hv as (_ & _ & _ & _ & _ & _ & _ & _ & Hr & _).
  destruct (Workload_Some cfg tap Hc Hr) as [o Eo]. exists o.
  destruct (Workload_template _ _ _ Eo) as (t & (pod & Ep & Et)%pod_template_fields & Ho & _). exists t.
  split; [done|]. split; [done|]. apply (tap_pod_well_formed cfg tap) in Ep. by rewrite Et.
Qed.

(** The probe port.  It lies in the hundred ports from 19100, whatever the
    tap is called, and the sensor listens where both its probes look. *)
Theorem probe_port_bounds `{Quantities} cfg tap src c :
  sensorContainer cfg tap src = Some c →
  sensorProbePortBase ≤ SensorProbePort tap < sensorProbePortBase + sensorProbePortSpan ∧
  ("--probe-addr=:" +:+ itoa (SensorProbePort tap)) ∈ co_Args c ∧
  (pr_Port <$> co_ReadinessProbe c) = Some (SensorProbePort tap) ∧
  (pr_Port <$> co_LivenessProbe c) = Some (SensorProbePort tap).
Proof.
  unfold sensorContainer. intros (r & _ & [= <-])%bind_Some. split; [|split; [cbn; set_solver|done]].
  unfold SensorProbePort, sensorProbePortBase, sensorProbePortSpan. set (h := fnv32a _ _). clearbody h.
  pose proof (Z.mod_pos_bound h 100 ltac:(lia)). rewrite !wrap32_small; rewrite ?wrap32_small; lia.
Qed.

(** ** Witnesses *)

Definition quantity_of (s : str) : Quantity := mkQuantity 1 None s.

(** A library that knows every text. *)
Definition example_library : Quantities := {|
  ParseQuantity s := Some (quantity_of s);
  NewQuantity n := bytes_quantity n;
  AddQuantity a b := mkQuantity (q_nano a + q_nano b) None "";
|}.

Definition example_resources : ResourceRequirements :=
  mkResources (<["cpu" := quantity_of "1"]> (<["memory" := quantity_of "1Gi"]> ∅))
    (<["cpu" := quantity_of "1"]> (<["memory" := quantity_of "1Gi"]> ∅)).

(** A tap that selects its nodes by an expression. *)
Definition example_tap : NetworkTap :=
  mkNetworkTap (mkMeta "edge" "trawl-system" "0123456789" 1 0 None ∅ [])
    (mkNetworkTapSpec TapModePassive TapSourceNodeInterface None
      (Some (mkInterfaceSource "eth0" true (mkSelector ∅ [mkRequirement "zone" "In" ["edge"]])))
      (mkAnalyzers (mkAnalyzerConfig false None None) (mkAnalyzerConfig true (Some example_resources) None)))
    (mkNetworkTapStatus 0 TapPhaseUnset 0 0 None [] []).

(** The one expression of the example, and labels. *)
Definition example_matches (sel : LabelSelector) (labels : gmap string string) : bool :=
  bool_decide (ls_MatchLabels sel ⊆ labels) &&
  (bool_decide (ls_MatchExpressions sel = []) || bool_decide (labels !! "zone" = Some "edge")).

Definition example_config : Settings.Config := Settings.ApplyDefaults Settings.example_written.

Lemma example_constants : @constants_parse example_library.
Proof. repeat constructor; by eexists. Qed.

Lemma example_rendered : is_Some (@Workload example_library example_config example_tap).
Proof.
  apply (@Workload_Some example_library); [exact example_constants|].
  repeat split; first [discriminate|by eexists].
Qed.

Lemma tap_privileges_split_witness :
  ∃ o t, @Workload example_library example_config example_tap = Some o ∧ object_template o = Some t ∧
    ps_AutomountServiceAccountToken (pt_Spec t) = false.
Proof.
  destruct example_rendered as [o Eo]. exists o.
  destruct (@tap_privileges_split example_library example_config example_tap o Eo) as (t & _ & _ & Et & Ha & _).
  exists t. split; [exact Eo|]. split; [exact Et|exact Ha].
Defined.

(** The tap is admitted, its expression excludes a node, and its pods fit that
    node. *)
Lemma expressions_dropped_witness :
  TapWebhook.ValidateNetworkTapSpec (λ s, s) (nt_Spec example_tap) = [] ∧
  example_matches (is_NodeSelector (sourceOf example_tap)) ∅ = false ∧
  ∃ o t, @Workload example_library example_config example_tap = Some o ∧ object_template o = Some t ∧
    pod_fits (pt_Spec t) ∅ = true.
Proof.
  split; [vm_compute; reflexivity|]. split; [vm_compute; reflexivity|]. destruct example_rendered as [o Eo].
  destruct (Workload_template _ _ _ Eo) as (t & _ & Et & _). exists o, t. split; [exact Eo|]. split; [exact Et|].
  assert (∀ sel labels, ls_MatchExpressions sel = [] →
    example_matches sel labels = bool_decide (ls_MatchLabels sel ⊆ labels)) as Hm.
  { intros sel labels He. unfold example_matches. rewrite He. simpl. apply andb_true_r. }
  exact (proj2 (@expressions_dropped example_library example_config example_tap o t example_matches Hm Eo Et)
    eq_refl ∅).
Defined.

Lemma tap_workload_well_formed_witness :
  Settings.Validate (@ParseQuantity example_library) (λ l, l) example_config = None ∧
  ∃ o t, @Workload example_library example_config example_tap = Some o ∧ object_template o = Some t ∧
    pod_well_formed (pt_Spec t).
Proof.
  assert (Settings.Validate (@ParseQuantity example_library) (λ l, l) example_config = None) as Hv by (vm_compute; reflexivity).
  split; [exact Hv|]. apply (@tap_workload_well_formed example_library); [exact example_constants|].
  apply (Settings.problems_nil (@ParseQuantity example_library) (λ l, l)); [done|]. vm_compute. reflexivity.
Defined.

Lemma probe_port_bounds_witness :
  ∃ c, @sensorContainer example_library example_config example_tap (sourceOf example_tap) = Some c ∧
    19100 ≤ SensorProbePort example_tap < 19200.
Proof.
  eexists. split; [reflexivity|].
  exact (proj1 (@probe_port_bounds example_library example_config example_tap (sourceOf example_tap) _ eq_refl)).
Defined.

End TapWorkload.
