(* ===== verification/CaptureWorkload.v ===== *)
(** * The workload of a capture, internal/controller/capturejob_workload.go

    The runner Job and what it runs as, as functions of the capture, its
    parsed bounds, the interface its tap reported, and the configuration;
    nothing is a panic of the quantity parser.  [CaptureNames] is in Render:
    the controller finds the Job by it. *)

From S2P Require Import Prelude GoTime GoString Duration Api Bounds Settings Objects Render Protocol.

Module CaptureWorkload.
Import Objects Render.

Definition runnerContainerName : str := "capture-runner".
Definition captureWorkVolume : str := "work".
Definition captureWorkPath : str := "/var/lib/trawl/capture".
Definition captureProgressVolume : str := "progress".
Definition captureCredentialsVolume : str := "artifact-credentials".
Definition captureCredentialsPath : str := "/var/run/secrets/trawl-artifacts".
Definition captureTokenVolume : str := "reporter-token".
Definition captureTerminationGrace : Z := 30.
Definition captureCredentialsMode : Z := 256.
Definition LabelHostname : str := "kubernetes.io/hostname".
Definition DefaultProgressDir : str := "/var/run/trawl/capture".

Definition CaptureLabels (job : CaptureJob) : gmap string string :=
  list_to_map [("app.kubernetes.io/name", "trawl"); ("app.kubernetes.io/component", runnerContainerName);
    ("app.kubernetes.io/managed-by", "trawl-controller-manager");
    ("trawl.cloud/capturejob", m_Name (cj_Meta job)); ("trawl.cloud/capturejob-uid", m_UID (cj_Meta job))].

Definition capture_meta (job : CaptureJob) (name : str) : ObjectMeta_ :=
  mkObjectMeta name (m_Namespace (cj_Meta job)) (CaptureLabels job).

(** ** The reporter's identity *)

Definition ServiceAccount (job : CaptureJob) : Object_ :=
  let '(_, saName, _) := CaptureNames job in ServiceAccountObject (capture_meta job saName) false.

Definition role_rules (job : CaptureJob) : list PolicyRule :=
  [mkRule ["trawl.cloud"] ["capturejobs/status"] [m_Name (cj_Meta job)] [verbPatch]].

Definition StatusRole (job : CaptureJob) : Object_ :=
  let '(_, _, roleName) := CaptureNames job in RoleObject (capture_meta job roleName) (role_rules job).

Definition StatusRoleBinding (job : CaptureJob) : Object_ :=
  let '(_, saName, roleName) := CaptureNames job in
  RoleBindingObject (capture_meta job roleName) [mkSubject "ServiceAccount" saName (m_Namespace (cj_Meta job))]
    (mkRoleRef "rbac.authorization.k8s.io" "Role" roleName).

(** ** The runner Job *)

Section render.
Context `{Quantities} (cfg : Settings.Config).

Definition captureProgressVolumeSize : option Quantity := MustParse "1Mi".
Definition captureEphemeralHeadroom : option Quantity := MustParse "64Mi".

Definition volumes (bounds : Bounds.Bounds) : option (list Volume) :=
  progress ← captureProgressVolumeSize;
  Some [mkVolume captureWorkVolume (EmptyDir (NewQuantity (Bounds.WorkVolumeBytes bounds)));
        mkVolume captureProgressVolume (EmptyDir progress);
        mkVolume captureCredentialsVolume
          (SecretVolume (Settings.cap_CredentialsSecret (Settings.c_Capture cfg)) captureCredentialsMode);
        token_volume captureTokenVolume].

Definition boolString (b : bool) : str := if b then "true" else "false".

Definition runner_args (job : CaptureJob) (bounds : Bounds.Bounds) (iface : str) : list str :=
  let artifacts := Settings.c_Artifacts cfg in
  ["--namespace=" +:+ m_Namespace (cj_Meta job); "--name=" +:+ m_Name (cj_Meta job); "--uid=" +:+ m_UID (cj_Meta job);
   "--interface=" +:+ iface; "--filter=" +:+ cjs_Filter (cj_Spec job);
   "--duration=" +:+ GoDuration.String_ (Bounds.b_Duration bounds);
   "--max-size=" +:+ itoa (Bounds.b_MaxSizeBytes bounds); "--snaplen=" +:+ itoa (Bounds.b_Snaplen bounds);
   "--work-dir=" +:+ captureWorkPath; "--progress-dir=" +:+ DefaultProgressDir;
   "--artifact-endpoint=" +:+ Settings.bk_Endpoint artifacts; "--artifact-bucket=" +:+ Settings.bk_Bucket artifacts;
   "--artifact-region=" +:+ Settings.bk_Region artifacts; "--artifact-tls=" +:+ boolString (Settings.bk_UseTLS artifacts);
   "--artifact-credentials-dir=" +:+ captureCredentialsPath].

(** The work volume, the progress volume and headroom. *)
Definition ephemeral_storage (bounds : Bounds.Bounds) : option Quantity :=
  progress ← captureProgressVolumeSize;
  headroom ← captureEphemeralHeadroom;
  Some (AddQuantity (AddQuantity (NewQuantity (Bounds.WorkVolumeBytes bounds)) progress) headroom).

Definition with_ephemeral (rr : ResourceRequirements) (q : Quantity) : ResourceRequirements :=
  mkResources (<["ephemeral-storage" := q]> (rr_Requests rr)) (<["ephemeral-storage" := q]> (rr_Limits rr)).

Definition runnerContainer (job : CaptureJob) (bounds : Bounds.Bounds) (iface : str) : option Container :=
  ephemeral ← ephemeral_storage bounds;
  resources ← resourcesFrom (Settings.cap_RunnerResources (Settings.c_Capture cfg));
  Some (mkContainer runnerContainerName (Settings.im_CaptureRunner (Settings.c_Images cfg))
    (runner_args job bounds iface) [] analyzerSecurityContext (with_ephemeral resources ephemeral)
    [mkMount captureWorkVolume captureWorkPath false; mkMount captureProgressVolume DefaultProgressDir false;
     mkMount captureCredentialsVolume captureCredentialsPath true]
    None None None).

Definition reporter_args (job : CaptureJob) : list str :=
  ["--namespace=" +:+ m_Namespace (cj_Meta job); "--name=" +:+ m_Name (cj_Meta job); "--uid=" +:+ m_UID (cj_Meta job);
   "--generation=" +:+ itoa (m_Generation (cj_Meta job)); "--progress-dir=" +:+ DefaultProgressDir;
   "--token-dir=" +:+ tokenPath].

Definition reporterContainer (job : CaptureJob) : option Container :=
  resources ← resourcesFrom (Settings.cap_ReporterResources (Settings.c_Capture cfg));
  Some (mkContainer "capture-reporter" (Settings.im_CaptureReporter (Settings.c_Images cfg)) (reporter_args job) []
    restrictedSecurityContext resources
    [mkMount captureProgressVolume DefaultProgressDir true; mkMount captureTokenVolume tokenPath true]
    None None (Some "Always")).

Definition PodSpec_ (job : CaptureJob) (bounds : Bounds.Bounds) (iface : str) : option PodSpec :=
  let '(_, saName, _) := CaptureNames job in
  vols ← volumes bounds;
  reporter ← reporterContainer job;
  runner ← runnerContainer job bounds iface;
  Some (mkPodSpec saName true "ClusterFirstWithHostNet" "Never" "RuntimeDefault" false (Some captureTerminationGrace)
    vols [reporter] [runner] {[ LabelHostname := cjs_TargetNode (cj_Spec job) ]} [mkToleration "Exists"]).

Definition deadline_seconds (bounds : Bounds.Bounds) : Z :=
  d_seconds_int (Bounds.ActiveDeadline bounds (Settings.cap_StartupBudget (Settings.c_Capture cfg))
    (Settings.cap_UploadBudget (Settings.c_Capture cfg))).

Definition Job (job : CaptureJob) (bounds : Bounds.Bounds) (iface : str) : option Object_ :=
  let '(name, _, _) := CaptureNames job in
  pod ← PodSpec_ job bounds iface;
  Some (JobObject (capture_meta job name) 0 1 1 (deadline_seconds bounds) "Failed"
    (mkPodTemplate (CaptureLabels job) {[ "trawl.cloud/spec-generation" := itoa (m_Generation (cj_Meta job)) ]} pod)).

End render.

(** ** Lemmas *)

Section lemmas.
Context `{Quantities} (cfg : Settings.Config).

(** A rendered pod, field by field. *)
Lemma capture_pod_fields job bounds iface pod :
  PodSpec_ cfg job bounds iface = Some pod →
  ∃ progress runner reporter,
    captureProgressVolumeSize = Some progress ∧ runnerContainer cfg job bounds iface = Some runner ∧
    reporterContainer cfg job = Some reporter ∧
    ps_Volumes pod = [mkVolume captureWorkVolume (EmptyDir (NewQuantity (Bounds.WorkVolumeBytes bounds)));
      mkVolume captureProgressVolume (EmptyDir progress);
      mkVolume captureCredentialsVolume
        (SecretVolume (Settings.cap_CredentialsSecret (Settings.c_Capture cfg)) captureCredentialsMode);
      token_volume captureTokenVolume] ∧
    ps_InitContainers pod = [reporter] ∧ ps_Containers pod = [runner] ∧ ps_RestartPolicy pod = "Never" ∧
    ps_AutomountServiceAccountToken pod = false ∧ ps_ServiceAccountName pod = (CaptureNames job).1.2 ∧
    ps_NodeSelector pod = {[ LabelHostname := cjs_TargetNode (cj_Spec job) ]}.
Proof.
  unfold PodSpec_, CaptureNames. cbn [fst snd].
  intros (vols & Ev & (reporter & Er & (runner & En & [= <-])%bind_Some)%bind_Some)%bind_Some.
  unfold volumes in Ev. apply bind_Some in Ev as (progress & Ep & [= <-]). by exists progress, runner, reporter.
Qed.

Lemma runner_fields job bounds iface c :
  runnerContainer cfg job bounds iface = Some c →
  ∃ rr q, resourcesFrom (Settings.cap_RunnerResources (Settings.c_Capture cfg)) = Some rr ∧
    ephemeral_storage bounds = Some q ∧ co_Name c = runnerContainerName ∧
    co_SecurityContext c = analyzerSecurityContext ∧ co_Resources c = with_ephemeral rr q ∧
    co_Args c = runner_args cfg job bounds iface ∧
    co_VolumeMounts c = [mkMount captureWorkVolume captureWorkPath false;
      mkMount captureProgressVolume DefaultProgressDir false; mkMount captureCredentialsVolume captureCredentialsPath true].
Proof.
  unfold runnerContainer. intros (q & Eq & (rr & Er & [= <-])%bind_Some)%bind_Some. exists rr, q; split_and!; done.
Qed.

Lemma reporter_fields job c :
  reporterContainer cfg job = Some c →
  co_Name c = "capture-reporter" ∧ co_SecurityContext c = restrictedSecurityContext ∧ co_RestartPolicy c = Some "Always" ∧
  co_VolumeMounts c = [mkMount captureProgressVolume DefaultProgressDir true; mkMount captureTokenVolume tokenPath true].
Proof. unfold reporterContainer. by intros (r & _ & [= <-])%bind_Some. Qed.

Lemma Job_fields job bounds iface o :
  Job cfg job bounds iface = Some o →
  ∃ t, PodSpec_ cfg job bounds iface = Some (pt_Spec t) ∧
    o = JobObject (capture_meta job (CaptureNames job).1.1) 0 1 1 (deadline_seconds cfg bounds) "Failed" t.
Proof. unfold Job, CaptureNames. cbn [fst snd]. intros (pod & Ep & [= <-])%bind_Some. by exists (mkPodTemplate (CaptureLabels job) {[ "trawl.cloud/spec-generation" := itoa (m_Generation (cj_Meta job)) ]} pod). Qed.

Definition constants_parse : Prop := is_Some (ParseQuantity "1Mi") ∧ is_Some (ParseQuantity "64Mi").

Lemma Job_Some job bounds iface :
  constants_parse → Settings.valid_resources ParseQuantity (Settings.cap_RunnerResources (Settings.c_Capture cfg)) →
  Settings.valid_resources ParseQuantity (Settings.cap_ReporterResources (Settings.c_Capture cfg)) →
  is_Some (Job cfg job bounds iface).
Proof.
  intros [[p Ep] [h Eh]] [r1 E1]%resourcesFrom_Some [r2 E2]%resourcesFrom_Some.
  unfold Job, PodSpec_, volumes, runnerContainer, reporterContainer, ephemeral_storage, captureProgressVolumeSize,
    captureEphemeralHeadroom, MustParse. rewrite Ep, Eh, E1, E2. by eexists.
Qed.

End lemmas.

(** ** Theorems *)

(** The split of privilege in a capture pod.  Whatever the capture asks for,
    the pod runs one runner, once, beside one reporter: neither is privileged
    or can become so; the runner holds the two capabilities of packet capture
    and the bucket's credentials and no token; the reporter holds the token
    and neither root, nor a capability, nor the credentials, and can only read
    what the runner reports; and the pod asks for the node the capture names. *)
Theorem capture_privileges_split `{Quantities} cfg job bounds iface o :
  Job cfg job bounds iface = Some o →
  ∃ t runner reporter, object_template o = Some t ∧
    let pod := pt_Spec t in
    ps_Containers pod = [runner] ∧ ps_InitContainers pod = [reporter] ∧
    ps_RestartPolicy pod = "Never" ∧ co_RestartPolicy reporter = Some "Always" ∧
    ps_AutomountServiceAccountToken pod = false ∧
    ps_NodeSelector pod = {[ LabelHostname := cjs_TargetNode (cj_Spec job) ]} ∧
    (confined [capNetRaw; capNetAdmin] runner ∧ mounts holds_token pod runner = false ∧
     mounts holds_secret pod runner = true) ∧
    (unprivileged reporter ∧ mounts holds_token pod reporter = true ∧ mounts holds_secret pod reporter = false ∧
     ∀ m, m ∈ co_VolumeMounts reporter → vm_ReadOnly m = true).
Proof.
  intros (t & (progress & runner & reporter & _ & Er & Ep & Ev & Ei & Ec & Erp & Ea & _ & En)%capture_pod_fields & ->)%Job_fields.
  exists t, runner, reporter. apply runner_fields in Er as (rr & q & _ & _ & _ & Es & _ & _ & Em).
  apply reporter_fields in Ep as (_ & Ers & Er & Erm). cbv zeta.
  assert (∀ p c, mounts p (pt_Spec t) c = existsb (λ v, p v && existsb (λ m, bool_decide (vm_Name m = vol_Name v)) (co_VolumeMounts c)) (ps_Volumes (pt_Spec t))) as Hm by done.
  split_and!; try done.
  - by apply analyzer_confined.
  - rewrite Hm, Ev, Em. done.
  - rewrite Hm, Ev, Em. done.
  - by apply restricted_unprivileged.
  - rewrite Hm, Ev, Erm. done.
  - rewrite Hm, Ev, Erm. done.
  - rewrite Erm. set_solver.
Qed.

(** What a reporter's account may do: patch the status of the one capture,
    and nothing else. *)
Theorem capture_role_confined job verb group resource name :
  (role_allows (role_rules job) verb group resource name = true ↔
   group = "trawl.cloud" ∧ resource = "capturejobs/status" ∧ name = m_Name (cj_Meta job) ∧ verb = "patch") ∧
  StatusRole job = RoleObject (capture_meta job (CaptureNames job).2) (role_rules job) ∧
  StatusRoleBinding job = RoleBindingObject (capture_meta job (CaptureNames job).2)
    [mkSubject "ServiceAccount" (CaptureNames job).1.2 (m_Namespace (cj_Meta job))]
    (mkRoleRef "rbac.authorization.k8s.io" "Role" (CaptureNames job).2).
Proof.
  split; [|done]. unfold role_allows, role_rules, rule_allows. cbn [existsb pl_APIGroups pl_Resources pl_ResourceNames pl_Verbs].
  rewrite orb_false_r, !andb_true_iff, orb_true_iff, !bool_decide_eq_true. unfold verbPatch.
  rewrite !list_elem_of_singleton. naive_solver.
Qed.

(** A month of nanoseconds, far below what wraps. *)
Definition month : duration := 30 * 24 * hour.

Lemma deadline_exact cfg bounds :
  Bounds.valid_bounds bounds →
  0 < Settings.cap_StartupBudget (Settings.c_Capture cfg) ≤ month →
  0 < Settings.cap_UploadBudget (Settings.c_Capture cfg) ≤ month →
  let total := Settings.cap_StartupBudget (Settings.c_Capture cfg) + Bounds.b_Duration bounds +
               Settings.cap_UploadBudget (Settings.c_Capture cfg) in
  total - second < deadline_seconds cfg bounds * second ≤ total.
Proof.
  intros Hb Hs Hu. cbv zeta. unfold deadline_seconds, d_seconds_int, Bounds.ActiveDeadline.
  set (s := Settings.cap_StartupBudget _) in *. set (u := Settings.cap_UploadBudget _) in *. clearbody s u.
  unfold month in *. assert (0 < Bounds.b_Duration bounds ≤ 3600 * second) as Hd by (revert Hb; Bounds.bounds_lia).
  set (d := Bounds.b_Duration bounds) in *. clearbody d. unfold hour, minute, second in *.
  rewrite !wrap64_id; unfold in_int64, min_int64, max_int64 in *; [|lia..|rewrite ?wrap64_id; unfold in_int64, min_int64, max_int64; lia].
  rewrite Z.quot_div_nonneg by lia. pose proof (Z.div_mod (s + d + u) 1000000000 ltac:(lia)).
  pose proof (Z.mod_pos_bound (s + d + u) 1000000000 ltac:(lia)). lia.
Qed.

(** C38: A runner ends, and cannot fill its node.  Of a capture whose bounds
    parse, under budgets of up to a month, the Job is tried once and given as
    many whole seconds as the capture and both budgets take; its work volume
    holds the capture's size and the headroom, and its ephemeral storage is
    limited to what its volumes and a margin add up to, and is requested in
    full. *)
Theorem runner_bounded {q : Quantities} {L : QuantityLaws q} cfg job bounds iface o :
  Bounds.ParseBounds (cj_Spec job) = Ok bounds →
  0 < Settings.cap_StartupBudget (Settings.c_Capture cfg) ≤ month →
  0 < Settings.cap_UploadBudget (Settings.c_Capture cfg) ≤ month →
  Job cfg job bounds iface = Some o →
  ∃ m d t runner work progress headroom storage,
    o = JobObject m 0 1 1 d "Failed" t ∧
    (let total := Settings.cap_StartupBudget (Settings.c_Capture cfg) + Bounds.b_Duration bounds +
                  Settings.cap_UploadBudget (Settings.c_Capture cfg) in
     total - second < d * second ≤ total) ∧
    mkVolume captureWorkVolume (EmptyDir work) ∈ ps_Volumes (pt_Spec t) ∧
    mkVolume captureProgressVolume (EmptyDir progress) ∈ ps_Volumes (pt_Spec t) ∧
    q_nano work = (Bounds.b_MaxSizeBytes bounds + Bounds.WorkVolumeHeadroomBytes) * 1000000000 ∧
    ps_Containers (pt_Spec t) = [runner] ∧
    rr_Limits (co_Resources runner) !! "ephemeral-storage" = Some storage ∧
    rr_Requests (co_Resources runner) !! "ephemeral-storage" = Some storage ∧
    ParseQuantity "64Mi" = Some headroom ∧
    q_nano storage = q_nano work + q_nano progress + q_nano headroom.
Proof.
  intros Hb%Bounds.ParseBounds_valid Hs Hu
    (t & (progress & runner & reporter & Epr & Er & _ & Ev & _ & Ec & _)%capture_pod_fields & ->)%Job_fields.
  apply runner_fields in Er as (rr & st & _ & Est & _ & _ & Err & _).
  unfold ephemeral_storage in Est. apply bind_Some in Est as (p' & Ep' & (h & Eh & [= <-])%bind_Some).
  rewrite Epr in Ep'. injection Ep' as <-.
  exists (capture_meta job (CaptureNames job).1.1), (deadline_seconds cfg bounds), t, runner,
    (NewQuantity (Bounds.WorkVolumeBytes bounds)), progress, h,
    (AddQuantity (AddQuantity (NewQuantity (Bounds.WorkVolumeBytes bounds)) progress) h).
  split_and!; try done.
  - by apply deadline_exact.
  - rewrite Ev. left.
  - rewrite Ev. right. left.
  - rewrite NewQuantity_value. by rewrite Bounds.WorkVolumeBytes_exact.
  - rewrite Err. cbn. apply lookup_insert_eq.
  - rewrite Err. cbn. apply lookup_insert_eq.
  - by rewrite !AddQuantity_value.
Qed.

(** The Job of a capture is rendered whatever the capture holds, under a
    configuration that was validated, and what is rendered is a pod: volumes
    and containers are named apart and every mount names a volume. *)
Theorem capture_job_well_formed `{Quantities} cfg job bounds iface :
  constants_parse → Settings.valid_config ParseQuantity cfg →
  ∃ o t, Job cfg job bounds iface = Some o ∧ object_template o = Some t ∧ pod_well_formed (pt_Spec t).
Proof.
  intros Hc Hv. destruct Hv as (_ & _ & _ & _ & _ & _ & _ & _ & _ & (_ & _ & _ & _ & Hr1 & Hr2) & _).
  destruct (Job_Some cfg job bounds iface Hc Hr1 Hr2) as [o Eo]. exists o.
  destruct (Job_fields _ _ _ _ _ Eo) as (t & (progress & runner & reporter & _ & Er & Ep & Ev & Ei & Ecs & _)%capture_pod_fields & ->).
  exists t. split; [done|]. split; [done|].
  apply runner_fields in Er as (rr & q & _ & _ & En & _ & _ & _ & Em). apply reporter_fields in Ep as (En' & _ & _ & Em').
  unfold pod_well_formed. rewrite Ev, Ei, Ecs. cbn. rewrite En, En'. split_and!.
  - by apply (bool_decide_unpack _).
  - by apply (bool_decide_unpack _).
  - intros c m [->|[->|[]%elem_of_nil]%elem_of_cons]%elem_of_cons; rewrite ?Em, ?Em'; set_solver.
Qed.

(** ** Witnesses *)

Definition example_job : CaptureJob :=
  mkCaptureJob (mkMeta "job-1" "trawl-system" "0123456789" 1 0 None ∅ [])
    (mkCaptureJobSpec CaptureRequestManual "edge" "node-a" "tcp port 80" "60s" 0 (bytes_quantity 1048576) "7d" None None "")
    (mkCaptureJobStatus 1 CapturePhaseUnset "" "" None None None None None None None "" None None None None []).

Definition example_bounds : Bounds.Bounds := Bounds.mkBounds (60 * second) 1048576 0.

(** A library in which every text is one unit. *)
Definition example_library : Quantities := {|
  ParseQuantity s := Some (mkQuantity 1 None s);
  NewQuantity n := bytes_quantity n;
  AddQuantity a b := mkQuantity (q_nano a + q_nano b) None "";
|}.

#[local] Instance example_laws : QuantityLaws example_library.
Proof. by split. Qed.

Definition example_config : Settings.Config := Settings.ApplyDefaults Settings.example_written.

Lemma example_valid : Settings.valid_config (@ParseQuantity example_library) example_config.
Proof. apply (Settings.problems_nil (@ParseQuantity example_library) (λ l, l)); [done|]. vm_compute. reflexivity. Qed.

Lemma capture_constants : @constants_parse example_library.
Proof. split; by eexists. Qed.

Lemma capture_job_well_formed_witness :
  ∃ o t, @Job example_library example_config example_job example_bounds "eth0" = Some o ∧ object_template o = Some t ∧
    pod_well_formed (pt_Spec t).
Proof.
  exact (@capture_job_well_formed example_library example_config example_job example_bounds "eth0" capture_constants
    example_valid).
Defined.

Lemma capture_privileges_split_witness :
  ∃ o t, @Job example_library example_config example_job example_bounds "eth0" = Some o ∧ object_template o = Some t ∧
    ps_AutomountServiceAccountToken (pt_Spec t) = false.
Proof.
  eexists. assert (@Job example_library example_config example_job example_bounds "eth0" = Some _) as E by reflexivity.
  destruct (@capture_privileges_split example_library example_config example_job example_bounds "eth0" _ E)
    as (t & _ & _ & Et & _ & _ & _ & _ & Ha & _).
  exists t. split; [exact E|]. split; [exact Et|exact Ha].
Defined.

Lemma runner_bounded_witness :
  Bounds.ParseBounds (cj_Spec example_job) = Ok example_bounds ∧
  ∃ o m d t, @Job example_library example_config example_job example_bounds "eth0" = Some o ∧
    o = JobObject m 0 1 1 d "Failed" t ∧ 1260 * second - second < d * second ≤ 1260 * second.
Proof.
  split; [vm_compute; reflexivity|].
  eexists. assert (@Job example_library example_config example_job example_bounds "eth0" = Some _) as E by reflexivity.
  assert (0 < Settings.cap_StartupBudget (Settings.c_Capture example_config) ≤ month) as Hs by (split; vm_compute; easy).
  assert (0 < Settings.cap_UploadBudget (Settings.c_Capture example_config) ≤ month) as Hu by (split; vm_compute; easy).
  destruct (@runner_bounded example_library example_laws example_config example_job example_bounds "eth0" _
    ltac:(vm_compute; reflexivity) Hs Hu E) as (m & d & t & _ & _ & _ & _ & _ & Eo & Hd & _).
  exists m, d, t. split; [exact E|]. split; [exact Eo|exact Hd].
Defined.

End CaptureWorkload.
