(* ===== verification/Kube.v ===== *)
(** * The calls of the CaptureJob controllers

    The API server, the artifact bucket, the audit committer and the two
    clocks, as the capture controller and the retention controller call them.
    A Kubernetes object keeps the fields the program reads.  The API server
    refuses a write from a stale copy, so one that succeeds leaves the object
    as it was sent; the copy the caller holds stands for it from then on.
    Times keep their nanoseconds (the wire rounds to seconds).  Rendering the
    runner is a function of the object and the configuration, so a creation is
    named by what it is rendered from. *)

From S2P Require Import Prelude GoTime GoString Api Bounds Storage AuditModel Prog.

Module Kube.

(** The API machinery's predicates on errors, with the error's text. *)
Inductive kube_error :=
  | NotFound (text : str)
  | AlreadyExists (text : str)
  | InvalidObject (text : str)
  | Forbidden (text : str)
  | OtherError (text : str).

Definition kube_text (e : kube_error) : str :=
  match e with
  | NotFound t | AlreadyExists t | InvalidObject t | Forbidden t | OtherError t => t
  end.

Inductive JobConditionType := JobConditionComplete | JobConditionFailed | JobConditionOther.

Record JobCondition := mkJobCondition {
  jc_Type : JobConditionType;
  jc_Status : ConditionStatus;
  jc_Reason : str;
}.

(** A batch Job; [rj_ControllerUID] is the UID [GetControllerOf] finds. *)
Record RunnerJob := mkRunnerJob {
  rj_Name : str;
  rj_ControllerUID : option str;
  rj_Deleting : bool;
  rj_Conditions : list JobCondition;
}.

(** A container's name, and its exit code once it has terminated. *)
Record ContainerStatus := mkContainerStatus { ctr_Name : str; ctr_ExitCode : option Z }.

Record Pod := mkPod { pod_ContainerStatuses : list ContainerStatus }.

Inductive owned_kind := OwnedServiceAccount | OwnedRole | OwnedRoleBinding.

Inductive captureE : Type → Type :=
  | GetCaptureJob (namespace name : str) : captureE (result kube_error CaptureJob)
  | UpdateJob (job : CaptureJob) : captureE (result kube_error unit)
  | UpdateStatus (job : CaptureJob) : captureE (result kube_error unit)
  | GetRunner (namespace name : str) : captureE (result kube_error RunnerJob)
  | CreateRunner (job : CaptureJob) (bounds : Bounds.Bounds) (iface : str) : captureE (result kube_error RunnerJob)
  | DeleteRunner (namespace name : str) : captureE (result kube_error unit)
  | ListPods (namespace jobName : str) : captureE (result kube_error (list Pod))
  | GetTap (namespace name : str) : captureE (result kube_error NetworkTap)
  | SetControllerReference (job : CaptureJob) : captureE (result str unit)
  | GetOwned (kind : owned_kind) (namespace name : str) : captureE (result kube_error unit)
  | CreateOwned (kind : owned_kind) (job : CaptureJob) : captureE (result kube_error unit)
  | UpdateOwned (kind : owned_kind) (job : CaptureJob) : captureE (result kube_error unit)
  | Store {X} (e : Storage.storeE X) : captureE X
  | CommitRecord (rec : AuditModel.Record_) : captureE (result str unit)
  | Now : captureE time
  | ConditionNow : captureE time.

(** ** Setters for what the controllers change in an object *)

Definition with_status (job : CaptureJob) (s : CaptureJobStatus) : CaptureJob :=
  mkCaptureJob (cj_Meta job) (cj_Spec job) s.

Definition with_conditions (s : CaptureJobStatus) (conds : list Condition) : CaptureJobStatus :=
  mkCaptureJobStatus (cst_ObservedGeneration s) (cst_Phase s) (cst_ResolvedTapUID s) (cst_ResolvedInterface s)
    (cst_RunnerJobRef s) (cst_RequestedAt s) (cst_StartedAt s) (cst_CaptureEndedAt s) (cst_CompletedAt s)
    (cst_PacketCount s) (cst_SizeBytes s) (cst_SHA256 s) (cst_Artifact s) (cst_RetentionDeadline s)
    (cst_Failure s) (cst_RunnerResult s) conds.

Definition with_observed (s : CaptureJobStatus) (gen : Z) : CaptureJobStatus :=
  mkCaptureJobStatus gen (cst_Phase s) (cst_ResolvedTapUID s) (cst_ResolvedInterface s)
    (cst_RunnerJobRef s) (cst_RequestedAt s) (cst_StartedAt s) (cst_CaptureEndedAt s) (cst_CompletedAt s)
    (cst_PacketCount s) (cst_SizeBytes s) (cst_SHA256 s) (cst_Artifact s) (cst_RetentionDeadline s)
    (cst_Failure s) (cst_RunnerResult s) (cst_Conditions s).

Definition with_phase (s : CaptureJobStatus) (p : CapturePhase) : CaptureJobStatus :=
  mkCaptureJobStatus (cst_ObservedGeneration s) p (cst_ResolvedTapUID s) (cst_ResolvedInterface s)
    (cst_RunnerJobRef s) (cst_RequestedAt s) (cst_StartedAt s) (cst_CaptureEndedAt s) (cst_CompletedAt s)
    (cst_PacketCount s) (cst_SizeBytes s) (cst_SHA256 s) (cst_Artifact s) (cst_RetentionDeadline s)
    (cst_Failure s) (cst_RunnerResult s) (cst_Conditions s).

Definition with_failure (s : CaptureJobStatus) (f : option CaptureFailure) : CaptureJobStatus :=
  mkCaptureJobStatus (cst_ObservedGeneration s) (cst_Phase s) (cst_ResolvedTapUID s) (cst_ResolvedInterface s)
    (cst_RunnerJobRef s) (cst_RequestedAt s) (cst_StartedAt s) (cst_CaptureEndedAt s) (cst_CompletedAt s)
    (cst_PacketCount s) (cst_SizeBytes s) (cst_SHA256 s) (cst_Artifact s) (cst_RetentionDeadline s)
    f (cst_RunnerResult s) (cst_Conditions s).

Definition with_deadline (s : CaptureJobStatus) (d : option time) : CaptureJobStatus :=
  mkCaptureJobStatus (cst_ObservedGeneration s) (cst_Phase s) (cst_ResolvedTapUID s) (cst_ResolvedInterface s)
    (cst_RunnerJobRef s) (cst_RequestedAt s) (cst_StartedAt s) (cst_CaptureEndedAt s) (cst_CompletedAt s)
    (cst_PacketCount s) (cst_SizeBytes s) (cst_SHA256 s) (cst_Artifact s) d
    (cst_Failure s) (cst_RunnerResult s) (cst_Conditions s).

Definition with_finalizers (job : CaptureJob) (fs : list str) : CaptureJob :=
  let m := cj_Meta job in
  mkCaptureJob
    (mkMeta (m_Name m) (m_Namespace m) (m_UID m) (m_Generation m) (m_CreationTimestamp m)
       (m_DeletionTimestamp m) (m_Annotations m) fs)
    (cj_Spec job) (cj_Status job).

End Kube.
