(* ===== verification/Witness.v ===== *)
(** * The worker's heartbeat, internal/witness/witness.go

    The event worker renews a Lease after a flush that succeeded; the
    controller manager reads it.  Times keep their nanoseconds (the wire rounds
    to microseconds). *)

From S2P Require Import Prelude GoTime GoString Sanitize CaptureState Kube Prog.

Module Witness.
Import Kube.

(** The part of a coordination Lease the heartbeat uses; the field no one here
    reads, its transitions, is left as it is. *)
Record Lease := mkLease {
  le_Namespace : str;
  le_Name : str;
  le_HolderIdentity : option str;
  le_LeaseDurationSeconds : option Z;
  le_AcquireTime : option time;
  le_RenewTime : option time;
}.

Definition LeaseName : str := "trawl-event-worker-status".

Definition Stale : duration := CaptureState.StaleHeartbeat.

Record Heartbeat := mkHeartbeat { hb_Namespace : str; hb_Identity : str }.

Inductive leaseE : Type → Type :=
  | GetLease (namespace name : str) : leaseE (result kube_error Lease)
  | CreateLease (l : Lease) : leaseE (result kube_error unit)
  | UpdateLease (l : Lease) : leaseE (result kube_error unit)
  | Now : leaseE time.

(** [int32(Stale.Seconds())] *)
Definition lease_seconds : Z := wrap32 (Z.quot Stale second).

Definition first_lease (h : Heartbeat) (now : time) : Lease :=
  mkLease (hb_Namespace h) LeaseName (Some (hb_Identity h)) (Some lease_seconds) (Some now) (Some now).

Definition renewed (h : Heartbeat) (l : Lease) (now : time) : Lease :=
  mkLease (le_Namespace l) (le_Name l) (Some (hb_Identity h)) (Some lease_seconds)
    (if le_AcquireTime l is None then Some now else le_AcquireTime l) (Some now).

(** The error, if any. *)
Definition Renew (h : Heartbeat) : prog leaseE (option str) :=
  let! now := call Now in
  let! lease := call (GetLease (hb_Namespace h) LeaseName) in
  match lease with
  | Err (NotFound _) =>
      let! res := call (CreateLease (first_lease h now)) in
      Ret match res with
          | Err e => Some (Sanitize.Errorf "creating the worker heartbeat lease: " (kube_text e))
          | Ok _ => None
          end
  | Err e => Ret (Some (Sanitize.Errorf "reading the worker heartbeat lease: " (kube_text e)))
  | Ok l =>
      let! res := call (UpdateLease (renewed h l now)) in
      Ret match res with
          | Err e => Some (Sanitize.Errorf "renewing the worker heartbeat lease: " (kube_text e))
          | Ok _ => None
          end
  end.

Definition Fresh (lease : option Lease) (now : time) : bool :=
  match lease with
  | None => false
  | Some l => match le_RenewTime l with None => false | Some t => t_sub now t <=? Stale end
  end.

(** ** Lemmas *)

Lemma Stale_range : in_int64 Stale.
Proof. split; by vm_compute. Qed.

(** A heartbeat counts as fresh for as long as the window, and from the
    future always. *)
Lemma Fresh_spec lease now :
  Fresh lease now = true ↔ ∃ l t, lease = Some l ∧ le_RenewTime l = Some t ∧ now - t ≤ Stale.
Proof.
  unfold Fresh. destruct lease as [l|]; [|naive_solver]. destruct (le_RenewTime l) as [t|] eqn:Et; [|naive_solver].
  rewrite Z.leb_le, t_sub_le by (apply Stale_range || done). naive_solver.
Qed.

(** ** What a renewal leaves *)

Record beat := mkBeat { bt_now : option time; bt_read : option (result kube_error Lease); bt_stored : option Lease }.

Definition track (X : Type) (e : leaseE X) : X → beat → beat :=
  match e with
  | Now => λ x b, mkBeat (Some x) (bt_read b) (bt_stored b)
  | GetLease _ _ => λ x b, mkBeat (bt_now b) (Some x) (bt_stored b)
  | CreateLease l | UpdateLease l => λ x b,
      match x with Ok _ => mkBeat (bt_now b) (bt_read b) (Some l) | Err _ => b end
  end.

(** One lease is read and written: created when there is none, and otherwise
    the one read with a new renewal, acquired when it first was. *)
Definition may (h : Heartbeat) (X : Type) (e : leaseE X) (b : beat) : Prop :=
  match e with
  | Now => True
  | GetLease ns name => ns = hb_Namespace h ∧ name = LeaseName
  | CreateLease l => (∃ text, bt_read b = Some (Err (NotFound text))) ∧ le_Namespace l = hb_Namespace h ∧
      le_Name l = LeaseName ∧ le_RenewTime l = bt_now b ∧ le_AcquireTime l = bt_now b ∧ bt_stored b = None
  | UpdateLease l => ∃ old, bt_read b = Some (Ok old) ∧ le_Namespace l = le_Namespace old ∧ le_Name l = le_Name old ∧
      le_RenewTime l = bt_now b ∧ (is_Some (le_AcquireTime old) → le_AcquireTime l = le_AcquireTime old) ∧ bt_stored b = None
  end.

Definition any_answer (X : Type) (e : leaseE X) (x : X) : Prop := True.

(** a renewal that succeeds is a heartbeat of the moment it began, fresh
    for exactly the window from then; one that fails wrote nothing. *)
Theorem heartbeat_renewed h :
  conforms any_answer (may h) track (Renew h) (λ err b,
    match err with
    | Some _ => bt_stored b = None
    | None => ∃ now l, bt_now b = Some now ∧ bt_stored b = Some l ∧
        ∀ t, Fresh (Some l) t = true ↔ t - now ≤ Stale
    end) (mkBeat None None None).
Proof.
  assert (∀ l now t, le_RenewTime l = Some now → (Fresh (Some l) t = true ↔ t - now ≤ Stale)) as Hf.
  { intros l now t Hl. rewrite Fresh_spec. split; [intros (? & ? & [= <-] & ? & ?); congruence|eauto]. }
  split; [done|]. intros now _. split; [done|]. intros [l|e] _; cbn.
  - split; [exists l; split_and!; try done; intros [t ->]; done|]. intros [[]|e] _; [|done].
    exists now, (renewed h l now). split_and!; [done..|]. intros t. by apply Hf.
  - destruct e as [text|text|text|text|text]; try done. cbn. split; [split_and!; eauto|]. intros [[]|e] _; [|done].
    exists now, (first_lease h now). split_and!; [done..|]. intros t. by apply Hf.
Qed.

End Witness.
