(* ===== verification/PolicyStatus.v ===== *)
(** * Capture policy status

    internal/controller/capturepolicy_status.go, the tracker that accumulates
    the engine's decisions and writes them to policy status, and
    internal/controller/capturepolicy_controller.go, the reconciler that speaks
    for armed policies when the tracker's process is gone.  Both are programs
    over the API server, the clocks and - the tracker - its own map of pending
    batches, whose mutex makes [take] and [restore] one step each.  A policy is
    listed once, so a batch has one owner and is a value.  Metrics are left
    out; a trigger type is one of the two, so [health] is a function. *)

From S2P Require Import Prelude GoTime GoString Sanitize Api Status Observation Policy.
From S2P Require Import Prog Engine Kube Witness.

Module PolicyStatus.
Import Policy Engine Kube Witness.

Record PolicyObject := mkPolicyObject {
  po_Policy : CapturePolicy;
  po_ResourceVersion : Z;
  po_Status : CapturePolicyStatus;
}.

Definition uid_of (p : PolicyObject) : str := m_UID (cp_Meta (po_Policy p)).
Definition generation_of (p : PolicyObject) : Z := m_Generation (cp_Meta (po_Policy p)).

Definition with_status (p : PolicyObject) (s : CapturePolicyStatus) : PolicyObject :=
  mkPolicyObject (po_Policy p) (po_ResourceVersion p) s.

Record SourceHealth := mkSourceHealth { sh_Connected : bool; sh_Reason : str; sh_Message : str }.

Abbreviation health_map := (CaptureTriggerType → option SourceHealth) (only parsing).

Record decisionBatch := mkBatch {
  b_counters : PolicyDecisionCounters;
  b_captures : Z;
  b_lastTrigger : time;
  b_lastCapture : str;
  b_tapUID : str;
}.

Definition zero_counters : PolicyDecisionCounters := mkCounters 0 0 0 0 0.
Definition empty_batch : decisionBatch := mkBatch zero_counters 0 0 "" "".

Definition add_counters (a b : PolicyDecisionCounters) : PolicyDecisionCounters :=
  mkCounters (wrap64 (pdc_Matched a + pdc_Matched b)) (wrap64 (pdc_NotMatched a + pdc_NotMatched b))
    (wrap64 (pdc_Duplicate a + pdc_Duplicate b)) (wrap64 (pdc_RateLimited a + pdc_RateLimited b))
    (wrap64 (pdc_Failed a + pdc_Failed b)).

Definition merge (b other : decisionBatch) : decisionBatch :=
  mkBatch (add_counters (b_counters b) (b_counters other)) (wrap64 (b_captures b + b_captures other))
    (if t_after (b_lastTrigger other) (b_lastTrigger b) then b_lastTrigger other else b_lastTrigger b)
    (if bool_decide (b_lastCapture other = "") then b_lastCapture b else b_lastCapture other)
    (if bool_decide (b_tapUID other = "") then b_tapUID b else b_tapUID other).

Abbreviation pending_map := (gmap string decisionBatch) (only parsing).

(** One increment. *)
Definition one_matched : PolicyDecisionCounters := mkCounters 1 0 0 0 0.
Definition one_not_matched : PolicyDecisionCounters := mkCounters 0 1 0 0 0.
Definition one_duplicate : PolicyDecisionCounters := mkCounters 0 0 1 0 0.
Definition one_rate_limited : PolicyDecisionCounters := mkCounters 0 0 0 1 0.
Definition one_failed : PolicyDecisionCounters := mkCounters 0 0 0 0 1.

Definition count_outcome (b : decisionBatch) (res : PolicyResult) : decisionBatch :=
  let bump c := mkBatch (add_counters (b_counters b) c) in
  match res_Outcome res with
  | OutcomeCreated =>
      bump one_matched (wrap64 (b_captures b + 1)) (b_lastTrigger b) (res_CaptureName res) (b_tapUID b)
  | OutcomeDuplicate => bump one_duplicate (b_captures b) (b_lastTrigger b) (res_CaptureName res) (b_tapUID b)
  | OutcomeRateLimited => bump one_rate_limited (b_captures b) (b_lastTrigger b) (b_lastCapture b) (b_tapUID b)
  | OutcomeNotMatched => bump one_not_matched (b_captures b) (b_lastTrigger b) (b_lastCapture b) (b_tapUID b)
  | OutcomeFailed => bump one_failed (b_captures b) (b_lastTrigger b) (b_lastCapture b) (b_tapUID b)
  | OutcomeDisarmed => b
  end.

Definition record_in (b : decisionBatch) (res : PolicyResult) : decisionBatch :=
  let b := count_outcome b res in
  mkBatch (b_counters b) (b_captures b)
    (if t_after (res_TriggerTime res) (b_lastTrigger b) then res_TriggerTime res else b_lastTrigger b)
    (b_lastCapture b)
    (if bool_decide (res_TapUID res = "") then b_tapUID b else res_TapUID res).

(** [Record], a keyword here. *)
Definition Record_decision (pending : pending_map) (res : PolicyResult) : pending_map :=
  let uid := res_PolicyUID res in
  if bool_decide (uid = "") then pending
  else <[uid := record_in (default empty_batch (pending !! uid)) res]> pending.

(** [take]: what it returns, and what it leaves. *)
Definition take_batches (pending : pending_map) : pending_map * pending_map := (pending, ∅).

(** [restore], of a batch that is not nil. *)
Definition restore_batch (pending : pending_map) (uid : str) (batch : decisionBatch) : pending_map :=
  <[uid := match pending !! uid with Some current => merge batch current | None => batch end]> pending.

(** ** The calls *)

Inductive policyE : Type → Type :=
  | ListPolicies (namespace : str) : policyE (result kube_error (list PolicyObject))
  | ListCaptures (namespace : str) : policyE (result kube_error (list CaptureJob))
  | GetPolicy (namespace name : str) : policyE (result kube_error PolicyObject)
  | GetLease (namespace name : str) : policyE (result kube_error Lease)
  | Engine_ {X} (e : engineE X) : policyE X
  | UpdateStatus (p : PolicyObject) : policyE (result kube_error unit)
  | Take : policyE pending_map
  | Restore (uid : str) (batch : decisionBatch) : policyE unit
  | Now : policyE time
  | ConditionNow : policyE time.

(** ** Setters *)

Definition with_conditions (s : CapturePolicyStatus) (conds : list Condition) : CapturePolicyStatus :=
  mkPolicyStatus (cpst_ObservedGeneration s) (cpst_Phase s) (cpst_ResolvedTapUID s) (cpst_TotalCaptures s)
    (cpst_ActiveCaptures s) (cpst_LastTriggerTime s) (cpst_LastCaptureRef s) (cpst_Decisions s) conds.
Definition with_phase (s : CapturePolicyStatus) (ph : CapturePolicyPhase) : CapturePolicyStatus :=
  mkPolicyStatus (cpst_ObservedGeneration s) ph (cpst_ResolvedTapUID s) (cpst_TotalCaptures s)
    (cpst_ActiveCaptures s) (cpst_LastTriggerTime s) (cpst_LastCaptureRef s) (cpst_Decisions s) (cpst_Conditions s).
Definition with_tap_uid (s : CapturePolicyStatus) (uid : str) : CapturePolicyStatus :=
  mkPolicyStatus (cpst_ObservedGeneration s) (cpst_Phase s) uid (cpst_TotalCaptures s)
    (cpst_ActiveCaptures s) (cpst_LastTriggerTime s) (cpst_LastCaptureRef s) (cpst_Decisions s) (cpst_Conditions s).
Definition with_observed (s : CapturePolicyStatus) (generation active : Z) : CapturePolicyStatus :=
  mkPolicyStatus generation (cpst_Phase s) (cpst_ResolvedTapUID s) (cpst_TotalCaptures s)
    active (cpst_LastTriggerTime s) (cpst_LastCaptureRef s) (cpst_Decisions s) (cpst_Conditions s).

(** [status.Set] of a [status.New] stamped [now]. *)
Definition set (s : CapturePolicyStatus) (p : PolicyObject) (ty : str) (st : ConditionStatus) (reason msg : str)
    (now : time) : CapturePolicyStatus :=
  with_conditions s (Status.Set_ (cpst_Conditions s)
    (Status.New Sanitize.String_ now ty st reason msg (generation_of p))).

(** ** The phase *)

Definition phaseFor (p : PolicyObject) (tapReason sourceReason limitReason : str) : CapturePolicyPhase * str :=
  if negb (armed (po_Policy p)) then (CapturePolicyDisarmed, Status.ReasonDisarmed)
  else if negb (bool_decide (tapReason = "")) then (CapturePolicyDegraded, tapReason)
  else if negb (bool_decide (sourceReason = "")) then (CapturePolicyDegraded, sourceReason)
  else if negb (bool_decide (limitReason = "")) then (CapturePolicyRateLimited, limitReason)
  else (CapturePolicyArmed, Status.ReasonAccepted).

(** ** The conditions of a flush, each with its reason for not being true *)

Section conditions.
Context (quote : str → str).

(** The text of what [resolveTap] answers; it has no other errors. *)
Definition tap_error_text (e : engine_error) : str :=
  match e with
  | TapMissing name => "tap " +:+ quote name +:+ " does not exist"
  | ReadingTap e => Sanitize.Errorf "reading the tap: " (api_text e)
  | TapDeleting name => "tap " +:+ quote name +:+ " is being deleted"
  | TapNotObserving name => "tap " +:+ quote name +:+ " is not observing"
  | _ => ""
  end.

(** The two parts of [tapCondition] around its clock: what it found, and the
    status it leaves. *)
Definition tap_reason (tap : result (str * engine_error) NetworkTap) : str :=
  match tap with Err (reason, _) => reason | Ok _ => "" end.

Definition tap_status (p : PolicyObject) (tap : result (str * engine_error) NetworkTap) (now : time)
    (desired : CapturePolicyStatus) : CapturePolicyStatus :=
  match tap with
  | Err (reason, err) => set desired p Status.TypeTapResolved ConditionFalse reason (tap_error_text err) now
  | Ok tap =>
      set (with_tap_uid desired (m_UID (nt_Meta tap))) p Status.TypeTapResolved ConditionTrue Status.ReasonTapResolved
        ("observing on " +:+ m_Name (nt_Meta tap)) now
  end.

Definition tapCondition (p : PolicyObject) (desired : CapturePolicyStatus) : prog policyE (str * CapturePolicyStatus) :=
  let! tap := translate (@Engine_) (resolveTap (po_Policy p)) in
  let! now := call ConditionNow in
  Ret (tap_reason tap, tap_status p tap now desired).

(** [sourceCondition]: status, reason and message of the condition. *)
Definition source_verdict (p : PolicyObject) (health : health_map) : ConditionStatus * str * str :=
  match health (cpt_Type (trigger (po_Policy p))) with
  | None => (ConditionFalse, Status.ReasonSourceDisconnected, "the worker has not reported on this trigger source")
  | Some h =>
      if negb (sh_Connected h) then
        (ConditionFalse, if bool_decide (sh_Reason h = "") then Status.ReasonSourceDisconnected else sh_Reason h, sh_Message h)
      else (ConditionTrue, Status.ReasonSourceConnected, sh_Message h)
  end.

Definition sourceCondition (p : PolicyObject) (desired : CapturePolicyStatus) (health : health_map) :
    prog policyE (str * CapturePolicyStatus) :=
  let '(st, reason, msg) := source_verdict p health in
  let! now := call ConditionNow in
  Ret (if bool_decide (st = ConditionTrue) then "" else reason,
       set desired p Status.TypeSourceConnected st reason msg now).

Definition limit_verdict (p : PolicyObject) (use : Usage) : ConditionStatus * str * str :=
  match CheckLimits use (cps_RateLimit (cp_Spec (po_Policy p))) with
  | LimitRateLimited => (ConditionFalse, Status.ReasonRateLimited, "the hourly capture limit is reached")
  | LimitAllowed => (ConditionTrue, Status.ReasonWithinRateLimit, "")
  end.

Definition rateLimitCondition (p : PolicyObject) (desired : CapturePolicyStatus) (use : Usage) :
    prog policyE (str * CapturePolicyStatus) :=
  let '(st, reason, msg) := limit_verdict p use in
  let! now := call ConditionNow in
  Ret (if bool_decide (st = ConditionTrue) then "" else reason,
       set desired p Status.TypeWithinRateLimit st reason msg now).

Definition ready_verdict (phase : CapturePolicyPhase) (reason : str) : ConditionStatus * str * str :=
  if bool_decide (phase = CapturePolicyArmed) then (ConditionTrue, Status.ReasonAccepted, "armed and evaluating events")
  else (ConditionFalse, reason, "").

Definition readyCondition (p : PolicyObject) (desired : CapturePolicyStatus)
    (tapReason sourceReason limitReason : str) : prog policyE CapturePolicyStatus :=
  let '(phase, reason) := phaseFor p tapReason sourceReason limitReason in
  let '(st, reason, msg) := ready_verdict phase reason in
  let! now := call ConditionNow in
  Ret (set desired p Status.TypeReady st reason msg now).

(** ** The flush *)

(** What a batch adds to the status. *)
Definition add_batch (s : CapturePolicyStatus) (b : decisionBatch) : CapturePolicyStatus :=
  mkPolicyStatus (cpst_ObservedGeneration s) (cpst_Phase s) (cpst_ResolvedTapUID s)
    (wrap64 (cpst_TotalCaptures s + b_captures b)) (cpst_ActiveCaptures s)
    (if negb (bool_decide (b_lastTrigger b = 0)) &&
        match cpst_LastTriggerTime s with None => true | Some t => t_after (b_lastTrigger b) t end
     then Some (b_lastTrigger b) else cpst_LastTriggerTime s)
    (if bool_decide (b_lastCapture b = "") then cpst_LastCaptureRef s else Some (b_lastCapture b))
    (add_counters (cpst_Decisions s) (b_counters b)) (cpst_Conditions s).

Definition counted (p : PolicyObject) (batch : option decisionBatch) (use : Usage) : CapturePolicyStatus :=
  let s := with_observed (po_Status p) (generation_of p) (u_Active use) in
  match batch with None => s | Some b => add_batch s b end.

(** The error, if any. *)
Definition apply (p : PolicyObject) (batch : option decisionBatch) (use : Usage) (health : health_map) :
    prog policyE (option str) :=
  let desired := counted p batch use in
  let! (tapReason, desired) := tapCondition p desired in
  let! (sourceReason, desired) := sourceCondition p desired health in
  let! (limitReason, desired) := rateLimitCondition p desired use in
  let desired := with_phase desired (phaseFor p tapReason sourceReason limitReason).1 in
  let! desired := readyCondition p desired tapReason sourceReason limitReason in
  if bool_decide (po_Status p = desired) then Ret None else
  let! res := call (UpdateStatus (with_status p desired)) in
  Ret match res with
      | Err e => Some (Sanitize.Errorf "writing capture policy status: " (kube_text e))
      | Ok _ => None
      end.

Definition restore (uid : str) (batch : option decisionBatch) : prog policyE unit :=
  match batch with None => Ret tt | Some b => call (Restore uid b) end.

Fixpoint flush_loop (policies : list PolicyObject) (batches : pending_map) (uses : gmap string Usage)
    (health : health_map) : prog policyE (list str) :=
  match policies with
  | [] => Ret []
  | p :: policies =>
      let batch := batches !! uid_of p in
      if negb (deletion_is_zero (cp_Meta (po_Policy p))) then flush_loop policies batches uses health else
      let! err := apply p batch (default zero_usage (uses !! uid_of p)) health in
      match err with
      | None => flush_loop policies batches uses health
      | Some err =>
          let! _ := restore (uid_of p) batch in
          let! errs := flush_loop policies batches uses health in
          Ret (err :: errs)
      end
  end.

(** The errors [errors.Join] joins; none is nil. *)
Definition Flush (namespace : str) (health : health_map) : prog policyE (list str) :=
  let! policies := call (ListPolicies namespace) in
  match policies with
  | Err e => Ret [Sanitize.Errorf "listing capture policies: " (kube_text e)]
  | Ok policies =>
      let! jobs := call (ListCaptures namespace) in
      match jobs with
      | Err e => Ret [Sanitize.Errorf "listing captures: " (kube_text e)]
      | Ok jobs =>
          let! batches := call Take in
          let! now := call Now in
          flush_loop policies batches (UsageByPolicy jobs now) health
      end
  end.

End conditions.

(** ** The reconciler *)

Definition stale_message : str :=
  "no event worker has reported for longer than the heartbeat window, " +:+ "so this policy is not being evaluated".

(** What it reports, stamped at the two readings of the clock. *)
Definition stale_status (p : PolicyObject) (t1 t2 : time) : CapturePolicyStatus :=
  let desired := set (po_Status p) p Status.TypeSourceConnected ConditionFalse Status.ReasonWorkerStale stale_message t1 in
  let desired := set desired p Status.TypeReady ConditionFalse Status.ReasonWorkerStale "" t2 in
  with_phase desired (phaseFor p "" Status.ReasonWorkerStale "").1.

Definition reportStaleWorker (p : PolicyObject) : prog policyE (option str) :=
  let! t1 := call ConditionNow in
  let! t2 := call ConditionNow in
  let desired := stale_status p t1 t2 in
  if bool_decide (po_Status p = desired) then Ret None else
  let! res := call (UpdateStatus (with_status p desired)) in
  Ret match res with
      | Err e => Some (Sanitize.Errorf "reporting a stale event worker: " (kube_text e))
      | Ok _ => None
      end.

Definition workerIsFlushing (systemNamespace : str) : prog policyE (result str bool) :=
  let! lease := call (GetLease systemNamespace LeaseName) in
  match lease with
  | Err (NotFound _) => Ret (Ok false)
  | Err e => Ret (Err (Sanitize.Errorf "reading the worker heartbeat lease: " (kube_text e)))
  | Ok lease => let! now := call Now in Ret (Ok (Fresh (Some lease) now))
  end.

(** RequeueAfter, and the error. *)
Definition Reconcile (systemNamespace namespace name : str) : prog policyE (duration * option str) :=
  let! p := call (GetPolicy namespace name) in
  match p with
  | Err (NotFound _) => Ret (0, None)
  | Err e => Ret (0, Some (Sanitize.Errorf "reading the capture policy: " (kube_text e)))
  | Ok p =>
      if negb (bool_decide (m_Namespace (cp_Meta (po_Policy p)) = systemNamespace)) ||
         negb (deletion_is_zero (cp_Meta (po_Policy p)))
      then Ret (0, None)
      else if negb (armed (po_Policy p)) then Ret (0, None) else
      let! fresh := workerIsFlushing systemNamespace in
      match fresh with
      | Err e => Ret (0, Some e)
      | Ok true => Ret (Z.quot Witness.Stale 3, None)
      | Ok false =>
          let! err := reportStaleWorker p in
          Ret match err with
              | Some e => (0, Some e)
              | None => (Z.quot Witness.Stale 3, None)
              end
      end
  end.

(** ** What a status says *)

Definition tap_usable (p : PolicyObject) (tap : result api_error NetworkTap) : bool :=
  match resolved (po_Policy p) tap with Ok _ => true | Err _ => false end.

Definition source_up (p : PolicyObject) (health : health_map) : bool :=
  match health (cpt_Type (trigger (po_Policy p))) with Some h => sh_Connected h | None => false end.

Definition within_limit (p : PolicyObject) (use : Usage) : bool :=
  u_Hourly use <? crl_MaxCapturesPerHour (cps_RateLimit (cp_Spec (po_Policy p))).

(** The phase of a policy, without its reasons. *)
Definition phase_of (p : PolicyObject) (tap : result api_error NetworkTap) (health : health_map) (use : Usage) :
    CapturePolicyPhase :=
  if negb (armed (po_Policy p)) then CapturePolicyDisarmed
  else if negb (tap_usable p tap && source_up p health) then CapturePolicyDegraded
  else if negb (within_limit p use) then CapturePolicyRateLimited
  else CapturePolicyArmed.

Definition says (s : CapturePolicyStatus) (p : PolicyObject) (ty : str) (b : bool) : Prop :=
  Status.Get (cpst_Conditions s) ty ≠ None ∧ Status.IsTrue (cpst_Conditions s) ty (generation_of p) = b.

(** The fields only a batch moves. *)
Definition same_record (s s' : CapturePolicyStatus) : Prop :=
  cpst_Decisions s' = cpst_Decisions s ∧ cpst_TotalCaptures s' = cpst_TotalCaptures s ∧
  cpst_LastTriggerTime s' = cpst_LastTriggerTime s ∧ cpst_LastCaptureRef s' = cpst_LastCaptureRef s.

Definition reports (p : PolicyObject) (batch : option decisionBatch) (use : Usage) (health : health_map)
    (tap : result api_error NetworkTap) (s : CapturePolicyStatus) : Prop :=
  cpst_Phase s = phase_of p tap health use ∧
  says s p Status.TypeReady (bool_decide (phase_of p tap health use = CapturePolicyArmed)) ∧
  says s p Status.TypeTapResolved (tap_usable p tap) ∧
  says s p Status.TypeSourceConnected (source_up p health) ∧
  says s p Status.TypeWithinRateLimit (within_limit p use) ∧
  cpst_ObservedGeneration s = generation_of p ∧ cpst_ActiveCaptures s = u_Active use ∧
  cpst_ResolvedTapUID s = match resolved (po_Policy p) tap with
                          | Ok t => m_UID (nt_Meta t)
                          | Err _ => cpst_ResolvedTapUID (po_Status p)
                          end ∧
  same_record (counted p batch use) s.

(** The status a flush computes, with the clock's four readings. *)
Definition desired_of (quote : str → str) (p : PolicyObject) (batch : option decisionBatch) (use : Usage)
    (health : health_map) (tap : result api_error NetworkTap) (t1 t2 t3 t4 : time) : CapturePolicyStatus :=
  let tap := resolved (po_Policy p) tap in
  let '(st2, reason2, msg2) := source_verdict p health in
  let '(st3, reason3, msg3) := limit_verdict p use in
  let '(phase, reason) := phaseFor p (tap_reason tap) (if bool_decide (st2 = ConditionTrue) then "" else reason2)
                            (if bool_decide (st3 = ConditionTrue) then "" else reason3) in
  let '(st4, reason4, msg4) := ready_verdict phase reason in
  let s := tap_status quote p tap t1 (counted p batch use) in
  let s := set s p Status.TypeSourceConnected st2 reason2 msg2 t2 in
  let s := set s p Status.TypeWithinRateLimit st3 reason3 msg3 t3 in
  set (with_phase s phase) p Status.TypeReady st4 reason4 msg4 t4.

(** ** Lemmas *)

Lemma get_set s p ty st reason msg now ty' :
  ∃ t, Status.Get (cpst_Conditions (set s p ty st reason msg now)) ty' =
    if bool_decide (ty' = ty)
    then Some (Status.with_transition (Status.New Sanitize.String_ now ty st reason msg (generation_of p)) t)
    else Status.Get (cpst_Conditions s) ty'.
Proof.
  case_bool_decide as Ht; [subst ty'|exists 0; by apply Status.Get_Set_other].
  destruct (Status.Get_Set_same (cpst_Conditions s) (Status.New Sanitize.String_ now ty st reason msg (generation_of p)))
    as (t & Ht & _).
  exists t. exact Ht.
Qed.

Lemma says_set s p ty st reason msg now ty' b :
  (if bool_decide (ty' = ty) then b = bool_decide (st = ConditionTrue) else says s p ty' b) →
  says (set s p ty st reason msg now) p ty' b.
Proof.
  unfold says, Status.IsTrue. destruct (get_set s p ty st reason msg now ty') as (t & ->).
  case_bool_decide; [|done]. intros ->. split; [done|]. simpl. by rewrite Z.leb_refl, andb_true_r.
Qed.

Lemma says_phase s p ph ty b : says s p ty b → says (with_phase s ph) p ty b.
Proof. done. Qed.

Lemma says_tap quote p tap now s :
  says (tap_status quote p (resolved (po_Policy p) tap) now s) p Status.TypeTapResolved (tap_usable p tap).
Proof. unfold tap_status, tap_usable. destruct (resolved _ tap) as [?|[reason err]]; apply says_set; reflexivity. Qed.

(** The reasons say what the facts are. *)
Lemma tap_reason_usable p tap : bool_decide (tap_reason (resolved (po_Policy p) tap) = "") = tap_usable p tap.
Proof. unfold tap_usable, resolved. by repeat case_match. Qed.

Lemma source_verdict_up p health :
  let '(st, reason, _) := source_verdict p health in
  bool_decide (st = ConditionTrue) = source_up p health ∧ (source_up p health = false → reason ≠ "").
Proof.
  unfold source_verdict, source_up. destruct (health _) as [h|]; [|done].
  destruct (sh_Connected h); simpl; [done|]. by case_bool_decide.
Qed.

Lemma limit_verdict_within p use :
  let '(st, reason, _) := limit_verdict p use in
  bool_decide (st = ConditionTrue) = within_limit p use ∧ (within_limit p use = false → reason ≠ "").
Proof.
  unfold limit_verdict, within_limit, CheckLimits.
  destruct (Z.leb_spec (crl_MaxCapturesPerHour (cps_RateLimit (cp_Spec (po_Policy p)))) (u_Hourly use));
    destruct (Z.ltb_spec (u_Hourly use) (crl_MaxCapturesPerHour (cps_RateLimit (cp_Spec (po_Policy p))))); done || lia.
Qed.

Lemma phaseFor_of p tap health use r2 r3 :
  (bool_decide (r2 = "") = source_up p health) → (bool_decide (r3 = "") = within_limit p use) →
  (phaseFor p (tap_reason (resolved (po_Policy p) tap)) r2 r3).1 = phase_of p tap health use.
Proof.
  intros H2 H3. unfold phaseFor, phase_of. rewrite tap_reason_usable, H2, H3.
  destruct (armed _), (tap_usable p tap), (source_up p health), (within_limit p use); reflexivity.
Qed.

Lemma empty_unless b (st : ConditionStatus) reason :
  bool_decide (st = ConditionTrue) = b → (b = false → reason ≠ "") →
  bool_decide ((if bool_decide (st = ConditionTrue) then "" else reason) = "") = b.
Proof. intros -> Hr. destruct b; [done|]. apply bool_decide_eq_false. by apply Hr. Qed.

Lemma ready_verdict_armed phase reason :
  bool_decide ((ready_verdict phase reason).1.1 = ConditionTrue) = bool_decide (phase = CapturePolicyArmed).
Proof. unfold ready_verdict. destruct (bool_decide (phase = CapturePolicyArmed)); reflexivity. Qed.

Lemma desired_reports quote p batch use health tap t1 t2 t3 t4 :
  reports p batch use health tap (desired_of quote p batch use health tap t1 t2 t3 t4).
Proof.
  unfold desired_of. cbv zeta.
  pose proof (source_verdict_up p health) as Hs. destruct (source_verdict p health) as [[st2 reason2] msg2].
  pose proof (limit_verdict_within p use) as Hl. destruct (limit_verdict p use) as [[st3 reason3] msg3].
  destruct Hs as [Hs Hs'], Hl as [Hl Hl'].
  pose proof (phaseFor_of p tap health use _ _ (empty_unless _ _ _ Hs Hs') (empty_unless _ _ _ Hl Hl')) as Hp.
  destruct (phaseFor _ _ _ _) as [phase reason]. cbn [fst] in Hp. subst phase.
  set (ph := phase_of p tap health use). pose proof (ready_verdict_armed ph reason) as Hr.
  destruct (ready_verdict ph reason) as [[st4 reason4] msg4]. cbn [fst] in Hr.
  assert (∀ now s, same_record s (tap_status quote p (resolved (po_Policy p) tap) now s)) as Hsame
    by (intros now s; unfold tap_status; by destruct (resolved _ tap) as [?|[??]]).
  unfold reports. fold ph. split_and!.
  - reflexivity.
  - apply says_set. done.
  - apply says_set, says_phase, says_set, says_set, says_tap.
  - apply says_set, says_phase, says_set, says_set. done.
  - apply says_set, says_phase, says_set. done.
  - unfold tap_status, counted. by destruct (resolved _ tap) as [?|[??]], batch.
  - unfold tap_status, counted. by destruct (resolved _ tap) as [?|[??]], batch.
  - unfold tap_status, counted. by destruct (resolved _ tap) as [?|[??]], batch.
  - destruct (Hsame t1 (counted p batch use)) as (H1 & H2 & H3 & H4). by split_and!.
Qed.

(** What has been seen of the tap, and what the API server holds. *)
Record knowledge := mkKnowledge { k_tap : option (result api_error NetworkTap); k_stored : CapturePolicyStatus }.

Definition saw_tap (tap : result api_error NetworkTap) (k : knowledge) : knowledge := mkKnowledge (Some tap) (k_stored k).

Definition engine_seen {X} (e : engineE X) : X → knowledge → knowledge :=
  match e with Engine.GetTap _ _ => saw_tap | _ => λ _ k, k end.

Definition track (X : Type) (e : policyE X) : X → knowledge → knowledge :=
  match e with
  | Engine_ e => engine_seen e
  | UpdateStatus p => λ x k, match x with Ok _ => mkKnowledge (k_tap k) (po_Status p) | Err _ => k end
  | _ => λ _ k, k
  end.

Definition any_answer (X : Type) (e : policyE X) (x : X) : Prop := True.

(** A flush of [p] writes that policy alone, when what it says is new. *)
Definition may_report (p : PolicyObject) (batch : option decisionBatch) (use : Usage) (health : health_map)
    (X : Type) (e : policyE X) (k : knowledge) : Prop :=
  match e with
  | UpdateStatus p' => ∃ tap, k_tap k = Some tap ∧ p' = with_status p (po_Status p') ∧ po_Status p' ≠ po_Status p ∧
      reports p batch use health tap (po_Status p')
  | Restore _ _ | Take => False
  | _ => True
  end.

(** A flush of one policy is its calls around [desired_of]. *)
Lemma apply_conforms quote (honest : ∀ X, policyE X → X → Prop)
    (may : ∀ X, policyE X → knowledge → Prop) p batch use (health : health_map) (Q : option str → knowledge → Prop) k :
  may _ (Engine_ (Engine.GetTap (m_Namespace (cp_Meta (po_Policy p))) (cps_TapRef (cp_Spec (po_Policy p))))) k →
  (∀ tap, honest _ (Engine_ (Engine.GetTap (m_Namespace (cp_Meta (po_Policy p))) (cps_TapRef (cp_Spec (po_Policy p))))) tap →
    let k := mkKnowledge (Some tap) (k_stored k) in
    may _ ConditionNow k ∧
    ∀ t1 t2 t3 t4,
      let d := desired_of quote p batch use health tap t1 t2 t3 t4 : CapturePolicyStatus in
      (po_Status p = d → Q None k) ∧
      (po_Status p ≠ d → may _ (UpdateStatus (with_status p d)) k ∧
        ∀ x, honest _ (UpdateStatus (with_status p d)) x →
          match x with
          | Ok _ => Q None (mkKnowledge (Some tap) d)
          | Err e => Q (Some (Sanitize.Errorf "writing capture policy status: " (kube_text e))) k
          end)) →
  conforms honest may track (apply quote p batch use health) Q k.
Proof.
  intros Hget Hall. unfold apply, tapCondition, sourceCondition, rateLimitCondition, readyCondition. cbv zeta.
  split; [exact Hget|]. intros tap Htap. destruct (Hall tap Htap) as [Hnow Hrest]. cbn.
  split; [exact Hnow|]. intros t1 _. unfold desired_of in Hrest. cbv zeta in Hrest.
  destruct (source_verdict p health) as [[st2 reason2] msg2], (limit_verdict p use) as [[st3 reason3] msg3]. cbn.
  split; [exact Hnow|]. intros t2 _. cbn. split; [exact Hnow|]. intros t3 _. cbn.
  destruct (phaseFor _ _ _ _) as [phase reason]. cbn [fst].
  destruct (ready_verdict phase reason) as [[st4 reason4] msg4]. cbn.
  split; [exact Hnow|]. intros t4 _. destruct (Hrest t1 t2 t3 t4) as [Hq Hw]. cbn.
  case_bool_decide as Hd; [by apply Hq|]. destruct (Hw Hd) as [Hm Hx]. split; [exact Hm|].
  intros x Hhx. specialize (Hx x Hhx). destruct x; exact Hx.
Qed.

(** Setting a condition again is nothing new. *)
Definition there (s : CapturePolicyStatus) (p : PolicyObject) (ty : str) (st : ConditionStatus) (reason msg : str) : Prop :=
  ∃ t, Status.Get (cpst_Conditions s) ty =
    Some (Status.with_transition (Status.New Sanitize.String_ 0 ty st reason msg (generation_of p)) t).

Lemma set_idle s p ty st reason msg now : there s p ty st reason msg → set s p ty st reason msg now = s.
Proof.
  intros [t Ht]. unfold set. rewrite (Status.Set_idle _ _ t); [by destruct s|]. exact Ht.
Qed.

Lemma there_set s p ty st reason msg now ty' st' reason' msg' :
  (if bool_decide (ty' = ty) then (st', reason', msg') = (st, reason, msg) else there s p ty' st' reason' msg') →
  there (set s p ty st reason msg now) p ty' st' reason' msg'.
Proof.
  unfold there. destruct (get_set s p ty st reason msg now ty') as (t & ->).
  case_bool_decide; [subst|done]. intros [= -> -> ->]. by exists t.
Qed.

Lemma there_status p ph s ty st reason msg : there s p ty st reason msg → there (with_phase s ph) p ty st reason msg.
Proof. done. Qed.

Definition tap_told (quote : str → str) (s : CapturePolicyStatus) (p : PolicyObject)
    (tap : result (str * engine_error) NetworkTap) : Prop :=
  match tap with
  | Err (reason, err) => there s p Status.TypeTapResolved ConditionFalse reason (tap_error_text quote err)
  | Ok tap =>
      there s p Status.TypeTapResolved ConditionTrue Status.ReasonTapResolved ("observing on " +:+ m_Name (nt_Meta tap)) ∧
      cpst_ResolvedTapUID s = m_UID (nt_Meta tap)
  end.

Lemma tap_status_told quote p tap now s : tap_told quote (tap_status quote p tap now s) p tap.
Proof.
  unfold tap_told, tap_status. destruct tap as [tap|[reason err]]; [split; [|reflexivity]|]; by apply there_set.
Qed.

Lemma tap_status_idle quote s p tap now : tap_told quote s p tap → tap_status quote p tap now s = s.
Proof.
  unfold tap_told, tap_status. destruct tap as [tap|[reason err]]; [|by apply set_idle].
  intros [Ht Hu]. rewrite <-Hu. replace (with_tap_uid s (cpst_ResolvedTapUID s)) with s by by destruct s.
  by apply set_idle.
Qed.

(** A status computed again from the same facts is the same. *)
Lemma desired_idle quote p batch use health tap t1 t2 t3 t4 u1 u2 u3 u4 :
  let d := desired_of quote p batch use health tap t1 t2 t3 t4 in
  desired_of quote (with_status p d) None use health tap u1 u2 u3 u4 = d.
Proof.
  intros d.
  pose proof (desired_reports quote p batch use health tap t1 t2 t3 t4) as (_ & _ & _ & _ & _ & Hgen & Hact & _).
  fold d in Hgen, Hact.
  assert (counted (with_status p d) None use = d) as Hc.
  { unfold counted, with_observed. change (generation_of (with_status p d)) with (generation_of p).
    rewrite <-Hgen, <-Hact. by destruct d. }
  unfold desired_of. rewrite Hc. unfold d, desired_of. cbv zeta.
  change (source_verdict (with_status p _) health) with (source_verdict p health).
  change (limit_verdict (with_status p _) use) with (limit_verdict p use).
  change (po_Policy (with_status p _)) with (po_Policy p).
  destruct (source_verdict p health) as [[st2 reason2] msg2], (limit_verdict p use) as [[st3 reason3] msg3].
  change (phaseFor (with_status p _)) with (phaseFor p). destruct (phaseFor p _ _ _) as [phase reason].
  destruct (ready_verdict phase reason) as [[st4 reason4] msg4].
  set (s1 := tap_status _ _ _ t1 _). set (s2 := set s1 _ _ _ _ _ t2). set (s3 := set s2 _ _ _ _ _ t3).
  set (s4 := set _ _ _ _ _ _ t4).
  assert (tap_told quote s4 p (resolved (po_Policy p) tap)) as H1.
  { pose proof (tap_status_told quote p (resolved (po_Policy p) tap) t1 (counted p batch use)) as H. revert H.
    unfold tap_told. destruct (resolved _ tap) as [x|[r e]]; [intros [H ?]; split; [|done]|intros H];
      by apply there_set, there_status, there_set, there_set. }
  replace (tap_status quote (with_status p s4) (resolved (po_Policy p) tap) u1 s4) with s4
    by (symmetry; by apply tap_status_idle).
  assert (there s4 p Status.TypeSourceConnected st2 reason2 msg2) as H2
    by by apply there_set, there_status, there_set, there_set.
  assert (there s4 p Status.TypeWithinRateLimit st3 reason3 msg3) as H3 by by apply there_set, there_status, there_set.
  assert (there s4 p Status.TypeReady st4 reason4 msg4) as H4 by by apply there_set.
  rewrite (set_idle s4 (with_status p s4) _ _ _ _ u2) by exact H2.
  rewrite (set_idle s4 (with_status p s4) _ _ _ _ u3) by exact H3.
  change (with_phase s4 phase) with s4. by rewrite (set_idle s4 (with_status p s4) _ _ _ _ u4) by exact H4.
Qed.

(** The answers to a flush of [p] while its tap is [tap] and writes succeed. *)
Definition steady (tap : result api_error NetworkTap) (X : Type) (e : policyE X) : X → Prop :=
  match e with
  | Engine_ e => match e in engineE X return X → Prop with Engine.GetTap _ _ => λ x, x = tap | _ => λ _, True end
  | UpdateStatus _ => λ x, x = Ok tt
  | _ => λ _, True
  end.

Definition no_write (X : Type) (e : policyE X) (k : knowledge) : Prop :=
  match e with UpdateStatus _ => False | _ => True end.

(** ** What the reconciler knows *)

Record watch := mkWatch {
  wa_policy : option (result kube_error PolicyObject);
  wa_lease : option (result kube_error Lease);
  wa_now : option time;
  wa_stored : option CapturePolicyStatus;
}.

Definition unwatched : watch := mkWatch None None None None.

Definition watched (X : Type) (e : policyE X) : X → watch → watch :=
  match e with
  | GetPolicy _ _ => λ x w, mkWatch (Some x) (wa_lease w) (wa_now w) (wa_stored w)
  | GetLease _ _ => λ x w, mkWatch (wa_policy w) (Some x) (wa_now w) (wa_stored w)
  | Now => λ x w, mkWatch (wa_policy w) (wa_lease w) (Some x) (wa_stored w)
  | UpdateStatus p => λ x w, match x with
                             | Ok _ => mkWatch (wa_policy w) (wa_lease w) (wa_now w) (Some (po_Status p))
                             | Err _ => w
                             end
  | _ => λ _ w, w
  end.

(** No heartbeat was ever written, or the last one is older than the window. *)
Definition worker_gone (w : watch) : Prop :=
  match wa_lease w with
  | Some (Err (NotFound _)) => True
  | Some (Ok l) => ∃ now, wa_now w = Some now ∧ ∀ t, le_RenewTime l = Some t → Witness.Stale < now - t
  | _ => False
  end.

(** A policy that claims coverage, and that the system namespace serves. *)
Definition claims_coverage (systemNamespace : str) (p : PolicyObject) : Prop :=
  m_Namespace (cp_Meta (po_Policy p)) = systemNamespace ∧ deletion_is_zero (cp_Meta (po_Policy p)) = true ∧
  armed (po_Policy p) = true.

(** The statement that nobody is watching, and nothing else. *)
Definition says_unwatched (p : PolicyObject) (s : CapturePolicyStatus) : Prop :=
  cpst_Phase s = CapturePolicyDegraded ∧ says s p Status.TypeReady false ∧ says s p Status.TypeSourceConnected false ∧
  (∀ ty, ty ≠ Status.TypeReady → ty ≠ Status.TypeSourceConnected →
    Status.Get (cpst_Conditions s) ty = Status.Get (cpst_Conditions (po_Status p)) ty) ∧
  same_record (po_Status p) s ∧ cpst_ObservedGeneration s = cpst_ObservedGeneration (po_Status p) ∧
  cpst_ActiveCaptures s = cpst_ActiveCaptures (po_Status p) ∧ cpst_ResolvedTapUID s = cpst_ResolvedTapUID (po_Status p).

Lemma stale_status_says p t1 t2 : armed (po_Policy p) = true → says_unwatched p (stale_status p t1 t2).
Proof.
  intros Ha. unfold stale_status. cbv zeta. unfold phaseFor. rewrite Ha. cbn [negb].
  change (bool_decide ("" = "")) with true. change (bool_decide (Status.ReasonWorkerStale = "")) with false. cbn [negb fst].
  split_and!; [done|by apply says_phase, says_set|by apply says_phase, says_set, says_set| |done..].
  intros ty H1 H2. cbn [with_phase cpst_Conditions set with_conditions].
  rewrite Status.Get_Set_other by exact H1. by rewrite Status.Get_Set_other.
Qed.

Definition may_speak (systemNamespace namespace name : str) (X : Type) (e : policyE X) (w : watch) : Prop :=
  match e with
  | GetPolicy ns n => ns = namespace ∧ n = name
  | GetLease ns n => ns = systemNamespace ∧ n = LeaseName
  | Now | ConditionNow => True
  | UpdateStatus p' => ∃ p, wa_policy w = Some (Ok p) ∧ claims_coverage systemNamespace p ∧ worker_gone w ∧
      p' = with_status p (po_Status p') ∧ po_Status p' ≠ po_Status p ∧ says_unwatched p (po_Status p')
  | _ => False
  end.

Definition spoken (systemNamespace : str) (r : duration * option str) (w : watch) : Prop :=
  match r.2 with
  | Some _ => wa_stored w = None
  | None => ∀ p, wa_policy w = Some (Ok p) → claims_coverage systemNamespace p →
      r.1 = 30 * second ∧ (worker_gone w → says_unwatched p (default (po_Status p) (wa_stored w)))
  end.

Abbreviation speaks ns n := (conforms any_answer (may_speak ns n.1 n.2) watched) (only parsing).

Lemma reportStaleWorker_speaks sys n p w :
  wa_policy w = Some (Ok p) → claims_coverage sys p → worker_gone w → wa_stored w = None →
  speaks sys n (reportStaleWorker p) (λ err w', match err with
    | Some _ => w' = w
    | None => wa_policy w' = wa_policy w ∧ says_unwatched p (default (po_Status p) (wa_stored w'))
    end) w.
Proof.
  intros Hp Hc Hg Hs. split; [done|]. intros t1 _. split; [done|]. intros t2 _. cbv zeta.
  pose proof (stale_status_says p t1 t2 (proj2 (proj2 Hc))) as Hsay. cbn.
  case_bool_decide as Hd; cbn; [split; [done|]; rewrite Hs; simpl; rewrite Hd; exact Hsay|].
  split; [by exists p|]. intros [|e] _; done.
Qed.

(** ** Theorems *)

(** nobody watching is all the reconciler says.  Whatever it is
    answered, it writes at most the status of the policy it was asked about;
    only for an armed, live policy of the system namespace; only when the
    heartbeat lease does not exist or is older than its window, never when the
    lease could not be read; and what it writes is new, moves SourceConnected,
    Ready and Phase to say so, and leaves every other condition, the observed
    generation, the decisions, the captures and the bound tap as they were.
    Without an error, a policy that claims coverage is looked at again in
    thirty seconds, and one without a worker is reported. *)
Theorem stale_worker_confined systemNamespace namespace name :
  conforms any_answer (may_speak systemNamespace namespace name) watched (Reconcile systemNamespace namespace name)
    (spoken systemNamespace) unwatched.
Proof.
  unfold Reconcile, workerIsFlushing. split; [done|]. intros [p|e] _; cbn -[Fresh reportStaleWorker].
  2: { destruct e; done. }
  destruct (decide (claims_coverage systemNamespace p)) as [Hc|Hn].
  2: { assert (spoken systemNamespace (0, None) (mkWatch (Some (Ok p)) None None None)) as Hq by (intros q [= <-]; done).
       unfold claims_coverage in Hn. case_bool_decide; [|exact Hq]. destruct (deletion_is_zero _); [|exact Hq].
       destruct (armed _); [naive_solver|exact Hq]. }
  pose proof Hc as (H1 & H2 & H3). rewrite (bool_decide_eq_true_2 _ H1), H2, H3. cbn -[Fresh reportStaleWorker]. split; [done|].
  assert (∀ w, wa_policy w = Some (Ok p) → worker_gone w → wa_stored w = None →
    speaks systemNamespace (namespace, name) (let! err := reportStaleWorker p in
      Ret match err with Some e => (0, Some e) | None => (Z.quot Witness.Stale 3, None) end) (spoken systemNamespace) w) as Hrep.
  { intros w Hp Hg Hs. apply conforms_bind. eapply conforms_mono; [|by apply reportStaleWorker_speaks].
    intros [err|] w'; simpl; [by intros ->|]. intros [Hp' Hsay] q Hq _. rewrite Hp', Hp in Hq. simplify_eq. done. }
  intros [l|e] _; cbn -[Fresh reportStaleWorker]; [|destruct e; try done; by apply Hrep].
  split; [done|]. intros now _. cbn -[Fresh reportStaleWorker]. destruct (Fresh (Some l) now) eqn:Ef.
  - intros q [= <-] _. split; [reflexivity|]. intros (? & [= <-] & Hold). exfalso.
    apply Fresh_spec in Ef as (? & t & [= <-] & Ht & Hle). specialize (Hold t Ht). lia.
  - apply Hrep; [done| |done]. exists now. split; [done|]. intros t Ht.
    destruct (Z.lt_ge_cases Witness.Stale (now - t)); [done|]. exfalso.
    assert (Fresh (Some l) now = true) as Hf by (apply Fresh_spec; eauto with lia). congruence.
Qed.

(** C17: the status of a policy says what the flush saw.  Whatever the API
    server and the clocks answer, a flush writes at most this policy's status,
    only when it says something new, and what it writes reports this pass:
    Disarmed exactly for a disarmed policy; Degraded exactly for an armed one
    whose tap is not usable or whose source is not delivering; RateLimited
    exactly when only the hourly limit is in the way; Armed, and Ready true,
    exactly when nothing is; each condition true exactly when its fact holds,
    at this generation; the decisions, the captures and the last trigger moved
    by the batch and by nothing else.  Ended without an error, that is what the
    API server holds, and with one nothing was written; and another flush from
    the same facts, with nothing decided in between, writes nothing. *)
Theorem policy_status_truthful quote p batch use health :
  conforms any_answer (may_report p batch use health) track (apply quote p batch use health)
    (λ err k, match err with
              | None => ∃ tap, k_tap k = Some tap ∧ reports p batch use health tap (k_stored k)
              | Some _ => k_stored k = po_Status p
              end) (mkKnowledge None (po_Status p)) ∧
  ∀ tap, conforms (steady tap) (λ _ _ _, True) track (apply quote p batch use health)
    (λ err k, err = None ∧
      conforms (steady tap) no_write track (apply quote (with_status p (k_stored k)) None use health)
        (λ err _, err = None) k) (mkKnowledge None (po_Status p)).
Proof.
  split.
  - apply apply_conforms; [done|]. intros tap _. split; [done|]. intros t1 t2 t3 t4. cbv zeta.
    pose proof (desired_reports quote p batch use health tap t1 t2 t3 t4) as Hr. split.
    + intros Hd. exists tap. split; [done|]. simpl. by rewrite Hd.
    + intros Hd. split; [by exists tap|]. intros [|e] _; [by exists tap|done].
  - intros tap. apply apply_conforms; [done|]. intros tap' ->. split; [done|]. intros t1 t2 t3 t4. cbv zeta.
    set (d := desired_of quote p batch use health tap t1 t2 t3 t4).
    assert (∀ k, conforms (steady tap) no_write track (apply quote (with_status p d) None use health)
      (λ err _, err = None) k) as Hquiet.
    { intros k. apply apply_conforms; [done|]. intros tap' ->. split; [done|]. intros u1 u2 u3 u4. cbv zeta.
      unfold d. rewrite desired_idle. by split. }
    split; [intros Hd; split; [done|]; simpl; rewrite Hd; apply Hquiet|]. intros _. split; [done|]. by intros x ->.
Qed.

End PolicyStatus.
