(* ===== verification/PolicyLedger.v ===== *)
(** * Where decisions are, between the worker and the API server

    A world for the tracker and the reconciler of PolicyStatus: the stored
    policies, the tracker's pending batches and, for the statements, what the
    engine has decided.  Between any two calls the engine may record decisions
    and others may create, edit and delete policies; a listing or a read may be
    an old copy, and a listing incomplete.  The theorems say that no decision
    of a policy the flush listed is lost or counted twice as long as a failed
    write leaves nothing behind, what another loses, and exhibit the two ways
    in which one is lost or counted twice. *)

From S2P Require Import Prelude GoTime GoString Sanitize Api Status Observation Policy.
From S2P Require Import Prog Engine Kube Witness PolicyStatus.

Module PolicyLedger.
Import Policy Engine Kube Witness PolicyStatus.

(** ** Counters, as machine integers *)

Inductive counter := CountMatched | CountNotMatched | CountDuplicate | CountRateLimited | CountFailed | CountCaptures.

Definition tally (c : PolicyDecisionCounters) (captures : Z) (k : counter) : Z :=
  match k with
  | CountMatched => pdc_Matched c
  | CountNotMatched => pdc_NotMatched c
  | CountDuplicate => pdc_Duplicate c
  | CountRateLimited => pdc_RateLimited c
  | CountFailed => pdc_Failed c
  | CountCaptures => captures
  end.

Definition batch_count (b : option decisionBatch) (k : counter) : Z :=
  match b with Some b => tally (b_counters b) (b_captures b) k | None => 0 end.

Definition status_count (s : CapturePolicyStatus) (k : counter) : Z := tally (cpst_Decisions s) (cpst_TotalCaptures s) k.

(** What one decision is, in the API's counters. *)
Definition result_count (res : PolicyResult) (k : counter) : Z :=
  match res_Outcome res, k with
  | OutcomeCreated, (CountMatched | CountCaptures) => 1
  | OutcomeDuplicate, CountDuplicate => 1
  | OutcomeRateLimited, CountRateLimited => 1
  | OutcomeNotMatched, CountNotMatched => 1
  | OutcomeFailed, CountFailed => 1
  | _, _ => 0
  end.

Definition decided (uid : str) (l : list PolicyResult) (k : counter) : Z :=
  foldr (λ res n, (if bool_decide (res_PolicyUID res = uid) then result_count res k else 0) + n) 0 l.

(** Equal as 64-bit integers. *)
Definition same64 (x y : Z) : Prop := wrap64 x = wrap64 y.
Infix "≡₆₄" := same64 (at level 70) : golang_scope.

#[global] Instance same64_equivalence : Equivalence same64.
Proof. unfold same64. split; [done|by intros ?|by intros ??? -> ->]. Qed.

Lemma same64_spec x y : x ≡₆₄ y ↔ ∃ q, x = y + q * 2 ^ 64.
Proof.
  unfold same64, wrap64, wrap. set (c := 2 ^ (64 - 1)). set (m := 2 ^ 64). assert (m ≠ 0) as Hm by done. split.
  - intros H. exists ((x + c) / m - (y + c) / m).
    pose proof (Z.div_mod (x + c) m Hm). pose proof (Z.div_mod (y + c) m Hm). lia.
  - intros [q ->]. replace (y + q * m + c) with (y + c + q * m) by lia. by rewrite Z.mod_add.
Qed.

#[global] Instance same64_add : Proper (same64 ==> same64 ==> same64) Z.add.
Proof.
  intros x x' [p ->]%same64_spec y y' [q ->]%same64_spec. apply same64_spec. exists (p + q). lia.
Qed.

#[global] Instance same64_sub : Proper (same64 ==> same64 ==> same64) Z.sub.
Proof.
  intros x x' [p ->]%same64_spec y y' [q ->]%same64_spec. apply same64_spec. exists (p - q). lia.
Qed.

Lemma wrap64_same x : wrap64 x ≡₆₄ x.
Proof. unfold same64. apply wrap64_id, wrap64_range. Qed.

Lemma same64_unmoved x y : x ≡₆₄ x + y → y ≡₆₄ 0.
Proof. intros [q Hq]%same64_spec. apply same64_spec. exists (- q). lia. Qed.

Lemma decided_app uid l l' k : decided uid (l ++ l') k = decided uid l k + decided uid l' k.
Proof. unfold decided. induction l as [|r l IH]; simpl; [done|]. rewrite IH. lia. Qed.

Lemma merge_count a b k : batch_count (Some (merge a b)) k ≡₆₄ batch_count (Some a) k + batch_count (Some b) k.
Proof. destruct k; apply wrap64_same. Qed.

Lemma add_batch_count s b k : status_count (add_batch s b) k ≡₆₄ status_count s k + batch_count (Some b) k.
Proof. destruct k; apply wrap64_same. Qed.

Lemma record_count b res k : batch_count (Some (record_in b res)) k ≡₆₄ batch_count (Some b) k + result_count res k.
Proof.
  unfold record_in, count_outcome, result_count, batch_count.
  destruct (res_Outcome res), k; cbn; rewrite ?wrap64_same, ?Z.add_0_r; reflexivity.
Qed.

Lemma Record_decision_count pending res uid k :
  uid ≠ "" → batch_count (Record_decision pending res !! uid) k ≡₆₄
    batch_count (pending !! uid) k + (if bool_decide (res_PolicyUID res = uid) then result_count res k else 0).
Proof.
  intros Hu. unfold Record_decision. destruct (decide (res_PolicyUID res = uid)) as [->|Hne].
  - rewrite !bool_decide_eq_false_2 by done. rewrite bool_decide_eq_true_2 by done.
    rewrite lookup_insert_eq, record_count. destruct (pending !! uid); [reflexivity|]. by destruct k.
  - rewrite (bool_decide_eq_false_2 (_ = uid)) by done. rewrite Z.add_0_r.
    case_bool_decide; [done|]. by rewrite lookup_insert_ne.
Qed.

Lemma restore_count pending uid b uid' k :
  batch_count (restore_batch pending uid b !! uid') k ≡₆₄
  batch_count (pending !! uid') k + (if bool_decide (uid' = uid) then batch_count (Some b) k else 0).
Proof.
  unfold restore_batch. destruct (decide (uid' = uid)) as [->|Hne].
  - rewrite bool_decide_eq_true_2 by done. rewrite lookup_insert_eq.
    destruct (pending !! uid) as [c|]; [rewrite merge_count; by rewrite Z.add_comm|reflexivity].
  - rewrite bool_decide_eq_false_2, lookup_insert_ne by done. by rewrite Z.add_0_r.
Qed.

(** ** The world *)

(** The policies of the system namespace by UID; one that was deleted stays as
    an object with a deletion timestamp, since a UID is not used again.  For
    the statements, what was decided and what the last listing showed. *)
Record world := mkWorld {
  w_store : gmap string PolicyObject;
  w_pending : gmap string decisionBatch;
  w_decided : list PolicyResult;
  w_listed : list str;
}.

Definition deleting (o : PolicyObject) : Prop := deletion_is_zero (cp_Meta (po_Policy o)) = false.

(** A copy of a stored object, at its version or an older one. *)
Definition copy_of (w : world) (o : PolicyObject) : Prop :=
  ∃ cur, w_store w !! uid_of o = Some cur ∧ po_ResourceVersion o ≤ po_ResourceVersion cur ∧
    (po_ResourceVersion o = po_ResourceVersion cur → o = cur) ∧ (deleting o → deleting cur).

Definition put (w : world) (o : PolicyObject) : world :=
  mkWorld (<[uid_of o := o]> (w_store w)) (w_pending w) (w_decided w) (w_listed w).

(** What others do: the engine records, anyone creates, edits and deletes; no
    one but the tracker moves the counters. *)
Inductive others : world → world → Prop :=
  | others_decide w res :
      others w (mkWorld (w_store w) (Record_decision (w_pending w) res) (w_decided w ++ [res]) (w_listed w))
  | others_create w o : w_store w !! uid_of o = None → others w (put w o)
  | others_edit w o o' :
      w_store w !! uid_of o = Some o → uid_of o' = uid_of o →
      po_ResourceVersion o < po_ResourceVersion o' → same_record (po_Status o) (po_Status o') →
      (deleting o → deleting o') → others w (put w o').

(** The status subresource written: the rest of the object stays. *)
Definition stored_as (cur o : PolicyObject) : PolicyObject :=
  mkPolicyObject (po_Policy cur) (po_ResourceVersion cur + 1) (po_Status o).

Definition written (w : world) (o : PolicyObject) (w' : world) : Prop :=
  ∃ cur, w_store w !! uid_of o = Some cur ∧ po_ResourceVersion o = po_ResourceVersion cur ∧
    w' = put w (stored_as cur o).

(** One call, when nothing interferes.  A listing or a read answers from the
    manager's cache: each object it shows is an old copy of one that is stored,
    and it need not show every one.  [ambiguous] lets a write that is
    reported as failed take effect. *)
Definition act (ambiguous : bool) (X : Type) (e : policyE X) (w : world) : X → world → Prop :=
  match e with
  | ListPolicies _ => λ x w',
      match x with
      | Err _ => w' = w
      | Ok l => NoDup (uid_of <$> l) ∧ Forall (copy_of w) l ∧
          w' = mkWorld (w_store w) (w_pending w) (w_decided w) (uid_of <$> l)
      end
  | GetPolicy _ _ => λ x w', w' = w ∧ match x with Ok o => copy_of w o | Err _ => True end
  | UpdateStatus o => λ x w',
      match x with
      | Ok _ => written w o w'
      | Err _ => w' = w ∨ ambiguous = true ∧ written w o w'
      end
  | Take => λ x w', let '(batches, rest) := take_batches (w_pending w) in
      x = batches ∧ w' = mkWorld (w_store w) rest (w_decided w) (w_listed w)
  | Restore uid b => λ _ w', w' = mkWorld (w_store w) (restore_batch (w_pending w) uid b) (w_decided w) (w_listed w)
  | _ => λ _ w', w' = w
  end.

Definition step (ambiguous : bool) (X : Type) (e : policyE X) (w : world) (x : X) (w' : world) : Prop :=
  ∃ w1, rtc others w w1 ∧ act ambiguous X e w1 x w'.

(** ** Accounts *)

Definition stored_count (w : world) (uid : str) (k : counter) : Z :=
  match w_store w !! uid with Some o => status_count (po_Status o) k | None => 0 end.

(** Decisions still in the tracker's hands or on the API server, less those
    that were ever made. *)
Definition balance (w : world) (uid : str) (k : counter) : Z :=
  stored_count w uid k + batch_count (w_pending w !! uid) k - decided uid (w_decided w) k.

Definition live (w : world) (uid : str) : Prop := ∃ o, w_store w !! uid = Some o ∧ ¬ deleting o.

Definition dead (w : world) (uid : str) : Prop := ∃ o, w_store w !! uid = Some o ∧ deleting o.

(** What is accounted for, with a batch in flight; a policy on its way out is
    not followed. *)
Definition settled (uid : str) (B : counter → Z) (f : option decisionBatch) (w : world) : Prop :=
  is_Some (w_store w !! uid) ∧ (dead w uid ∨ ∀ k, balance w uid k + batch_count f k ≡₆₄ B k).

(** What is pending grew by what was decided since [w0]. *)
Definition accrued (uid : str) (w0 w : world) : Prop :=
  ∃ l, w_decided w = w_decided w0 ++ l ∧
    ∀ k, batch_count (w_pending w !! uid) k ≡₆₄ batch_count (w_pending w0 !! uid) k + decided uid l k.

(** Only what was decided after [l0] is still pending. *)
Definition recent_only (uid : str) (l0 : list PolicyResult) (w : world) : Prop :=
  ∃ l, w_decided w = l0 ++ l ∧ ∀ k, batch_count (w_pending w !! uid) k ≡₆₄ decided uid l k.

(** ** Lemmas: what others do *)

Lemma same_record_count s s' k : same_record s s' → status_count s' k = status_count s k.
Proof. intros (Hd & Ht & _). unfold status_count. by rewrite Hd, Ht. Qed.

Lemma others_copy w w' o : others w w' → copy_of w o → copy_of w' o.
Proof.
  intros Ho (cur & Hcur & Hv & Heq & Hd). destruct Ho as [w res|w n Hn|w c c' Hc Hu Hlt _ Hdel].
  - by exists cur.
  - exists cur. split_and!; [|done..]. simpl. rewrite lookup_insert_ne; [done|]. intros Hx. rewrite <-Hx in Hcur. congruence.
  - destruct (decide (uid_of c' = uid_of o)) as [Hx|Hx].
    2: { exists cur. split_and!; [|done..]. simpl. by rewrite lookup_insert_ne. }
    rewrite <-Hx, Hu, Hc in Hcur. simplify_eq. exists c'. split_and!; [simpl; by rewrite Hx, lookup_insert_eq|lia|lia|auto].
Qed.

Lemma others_settled w w' uid B f : uid ≠ "" → others w w' → settled uid B f w → settled uid B f w'.
Proof.
  intros Hu Ho [[o Hs] Hb]. unfold settled, dead, balance, stored_count in *. destruct Ho as [w res|w n Hn|w c c' Hc Huid Hlt Hsame Hdel]; simpl.
  - split; [by exists o|]. destruct Hb as [Hb|Hb]; [by left|right]. intros k. rewrite <-(Hb k), Record_decision_count, decided_app by done.
    cbn [decided foldr]. apply eq_subrelation; [apply _|]. lia.
  - rewrite lookup_insert_ne by (intros <-; congruence). split; [by exists o|done].
  - destruct (decide (uid_of c' = uid)) as [<-|Hx]; [|rewrite lookup_insert_ne by done; split; [by exists o|done]].
    rewrite <-Huid, Hs in Hc. injection Hc as <-.
    rewrite lookup_insert_eq. split; [by eexists|]. destruct Hb as [(x & Hx & Hxd)|Hb].
    + left. rewrite Hs in Hx. simplify_eq. eauto.
    + right. intros k. rewrite <-(Hb k), Hs, (same_record_count _ _ k Hsame). reflexivity.
Qed.

Lemma others_recent w w' uid l0 : uid ≠ "" → others w w' → recent_only uid l0 w → recent_only uid l0 w'.
Proof.
  intros Hu Ho (l & Hl & Hk). destruct Ho as [w res|w n Hn|w c c' Hc Huid Hlt Hsame Hdel]; try by exists l.
  exists (l ++ [res]). simpl. split; [by rewrite Hl, app_assoc|]. intros k.
  rewrite Record_decision_count, decided_app, (Hk k) by done. cbn [decided foldr]. apply eq_subrelation; [apply _|]. lia.
Qed.

Lemma others_pending w0 w w' uid : uid ≠ "" → others w w' → accrued uid w0 w → accrued uid w0 w'.
Proof.
  intros Hu Ho (l & Hl & Hk). destruct Ho as [w res|w n Hn|w c c' Hc Huid Hlt Hsame Hdel]; try by exists l.
  exists (l ++ [res]). simpl. split; [by rewrite Hl, app_assoc|]. intros k.
  rewrite Record_decision_count, decided_app, (Hk k) by done. cbn [decided foldr]. apply eq_subrelation; [apply _|]. lia.
Qed.

Lemma others_decided w w' : others w w' → w_decided w `prefix_of` w_decided w'.
Proof. destruct 1; simpl; [by eexists|reflexivity..]. Qed.

(** What each of them keeps, any number keep. *)
Lemma others_keep (I : world → Prop) w w' : (∀ w w', others w w' → I w → I w') → rtc others w w' → I w → I w'.
Proof. intros Hk. induction 1; eauto. Qed.

(** ** Lemmas: a flush *)

(** The calls that only ask, of what is no part of the world. *)
Definition only_asks {X} (e : policyE X) : Prop :=
  match e with Engine_ _ | ConditionNow | Now | GetLease _ _ | ListCaptures _ => True | _ => False end.

(** Those of one policy's flush. *)
Definition flush_asks {X} (e : policyE X) : Prop := match e with Engine_ _ | ConditionNow => True | _ => False end.

Lemma flush_asks_only X (e : policyE X) : flush_asks e → only_asks e.
Proof. by destruct e. Qed.

Lemma only_asks_act b X (e : policyE X) w x w' : only_asks e → act b X e w x w' → w' = w.
Proof. by destruct e. Qed.

Lemma apply_wp {S} (step : ∀ X, policyE X → S → X → S → Prop) quote p batch use health (I : S → Prop) Q s :
  (∀ X (e : policyE X) s x s', step X e s x s' → flush_asks e → I s → I s') →
  I s →
  (∀ s tap t1 t2 t3 t4, I s →
    let d := desired_of quote p batch use health tap t1 t2 t3 t4 : CapturePolicyStatus in
    (po_Status p = d → Q None s) ∧
    ∀ x s', step _ (UpdateStatus (with_status p d)) s x s' →
      Q (match x with Err e => Some (Sanitize.Errorf "writing capture policy status: " (kube_text e)) | Ok _ => None end) s') →
  wp step (apply quote p batch use health) Q s.
Proof.
  intros HI Hs HQ. unfold apply, tapCondition, sourceCondition, rateLimitCondition, readyCondition. cbv zeta.
  intros tap s0 H0. cbn. assert (I s0) as I0 by by eapply HI.
  intros t1 s1 H1. unfold desired_of in HQ. cbv zeta in HQ. assert (I s1) as I1 by by eapply HI.
  destruct (source_verdict p health) as [[st2 reason2] msg2], (limit_verdict p use) as [[st3 reason3] msg3]. cbn.
  intros t2 s2 H2. assert (I s2) as I2 by by eapply HI. cbn.
  intros t3 s3 H3. assert (I s3) as I3 by by eapply HI. cbn.
  destruct (phaseFor _ _ _ _) as [phase reason] eqn:Ep. cbn [fst].
  destruct (ready_verdict phase reason) as [[st4 reason4] msg4] eqn:Er. cbn.
  intros t4 s4 H4. assert (I s4) as I4 by by eapply HI. cbn.
  specialize (HQ s4 tap t1 t2 t3 t4 I4). rewrite Ep in HQ. cbv beta iota in HQ. rewrite Er in HQ. cbn in HQ.
  destruct HQ as [Hq Hw]. destruct (bool_decide (po_Status p = _)) eqn:Hd.
  - apply Hq. by apply bool_decide_eq_true in Hd.
  - intros x s' Hx. exact (Hw x s' Hx).
Qed.

Lemma apply_exec {S} (step : ∀ X, policyE X → S → X → S → Prop) quote p batch use (health : CaptureTriggerType → option SourceHealth) tap t1 t2 t3 t4 x s s' :
  let d := desired_of quote p batch use health tap t1 t2 t3 t4 in
  step _ (Engine_ (Engine.GetTap (m_Namespace (cp_Meta (po_Policy p))) (cps_TapRef (cp_Spec (po_Policy p))))) s tap s →
  step _ ConditionNow s t1 s → step _ ConditionNow s t2 s → step _ ConditionNow s t3 s → step _ ConditionNow s t4 s →
  po_Status p ≠ d → step _ (UpdateStatus (with_status p d)) s x s' →
  exec step (apply quote p batch use health) s
    (match x with Err e => Some (Sanitize.Errorf "writing capture policy status: " (kube_text e)) | Ok _ => None end) s'.
Proof.
  unfold desired_of. cbv zeta. intros H0 H1 H2 H3 H4 Hd Hx.
  unfold apply, tapCondition, sourceCondition, rateLimitCondition, readyCondition. cbv zeta.
  destruct (source_verdict p health) as [[st2 reason2] msg2], (limit_verdict p use) as [[st3 reason3] msg3].
  eapply exec_vis; [exact H0|]. cbn. eapply exec_vis; [exact H1|]. eapply exec_vis; [exact H2|]. eapply exec_vis; [exact H3|]. cbn.
  destruct (phaseFor _ _ _ _) as [phase reason]. destruct (ready_verdict phase reason) as [[st4 reason4] msg4]. cbn.
  eapply exec_vis; [exact H4|]. cbn. rewrite bool_decide_eq_false_2 by exact Hd. eapply exec_vis; [exact Hx|]. constructor.
Qed.

(** The counters of the status a flush computes. *)
Lemma desired_count quote p batch use health tap t1 t2 t3 t4 k :
  status_count (desired_of quote p batch use health tap t1 t2 t3 t4) k ≡₆₄ status_count (po_Status p) k + batch_count batch k.
Proof.
  pose proof (desired_reports quote p batch use health tap t1 t2 t3 t4) as (_ & _ & _ & _ & _ & _ & _ & _ & Hsame).
  rewrite (same_record_count _ _ k Hsame). unfold counted. destruct batch as [b|]; [by rewrite add_batch_count|].
  by rewrite Z.add_0_r.
Qed.

(** Writing another object leaves the account and the copies alone. *)
Lemma put_other_settled w o uid B f : uid_of o ≠ uid → settled uid B f w → settled uid B f (put w o).
Proof.
  intros Hne. unfold settled, dead, balance, stored_count. simpl. by rewrite lookup_insert_ne.
Qed.

Lemma put_other_copy w o c : uid_of o ≠ uid_of c → copy_of w c → copy_of (put w o) c.
Proof. intros Hne. unfold copy_of. simpl. by rewrite lookup_insert_ne. Qed.

(** A write that is taken was computed from the object as it is. *)
Lemma written_current w w' p s :
  copy_of w p → written w (with_status p s) w' →
  w_store w !! uid_of p = Some p ∧ w' = put w (stored_as p (with_status p s)).
Proof.
  intros (cur & Hcur & _ & Heq & _) (cur' & Hcur' & Hv & ->).
  change (uid_of (with_status p s)) with (uid_of p) in Hcur'. rewrite Hcur in Hcur'. injection Hcur' as <-.
  change (po_ResourceVersion (with_status p s)) with (po_ResourceVersion p) in Hv.
  specialize (Heq Hv). by subst cur.
Qed.

(** Its batch has moved to the store. *)
Lemma written_settled w w' p s uid B batch f :
  copy_of w p → written w (with_status p s) w' →
  (∀ k, status_count s k ≡₆₄ status_count (po_Status p) k + batch_count batch k) →
  (uid_of p = uid → f = batch) →
  settled uid B f w → settled uid B (if bool_decide (uid_of p = uid) then None else f) w'.
Proof.
  intros Hc Hw Hs Hf Hset. destruct (written_current _ _ _ _ Hc Hw) as [Hcur ->].
  case_bool_decide as Hu; [|by apply put_other_settled]. rewrite Hf in Hset by done. subst uid. revert Hset.
  unfold settled, dead, balance, stored_count. intros [_ Hb]. simpl.
  change (uid_of (stored_as p (with_status p s))) with (uid_of p). rewrite lookup_insert_eq. split; [by eexists|].
  destruct Hb as [(x & Hx & Hd)|Hb]; [left|right].
  - rewrite Hcur in Hx. simplify_eq. by eexists.
  - intros k. rewrite <-(Hb k), Hcur. cbn [po_Status stored_as with_status batch_count]. rewrite (Hs k).
    apply eq_subrelation; [apply _|]. lia.
Qed.

Lemma settled_zero uid B f w : (∀ k, batch_count f k ≡₆₄ 0) → settled uid B f w → settled uid B None w.
Proof.
  intros Hz [Hk [Hd|Hb]]; (split; [done|]); [by left|right]. intros k. rewrite <-(Hb k), (Hz k). reflexivity.
Qed.

(** A batch put back is pending again. *)
Lemma restored_settled uid B w p b f :
  (p = uid → f = Some b) → settled uid B f w →
  settled uid B (if bool_decide (p = uid) then None else f)
    (mkWorld (w_store w) (restore_batch (w_pending w) p b) (w_decided w) (w_listed w)).
Proof.
  intros Hf [Hk [Hd|Hb]]; (split; [done|]); [by left|right]. intros k. rewrite <-(Hb k).
  unfold balance, stored_count. cbn [w_store w_pending w_decided]. rewrite restore_count.
  rewrite (bool_decide_ext (uid = p) (p = uid)) by done. case_bool_decide; [rewrite Hf by done|];
    cbn [batch_count]; apply eq_subrelation; [apply _| |apply _|]; lia.
Qed.

Section flush.
Context (quote : str → str) (health : CaptureTriggerType → option SourceHealth) (uid : str) (Huid : uid ≠ "").

(** What is known between two calls of the loop: copies of the policies left,
    the account of [uid] with its batch in flight, on [R] that nothing
    older than the flush is pending, and what the flush had listed and
    had before it. *)
Definition between (L : list str) (B : counter → Z) (f : option decisionBatch) (R : Prop) (l0 : list PolicyResult)
    (policies : list PolicyObject) (w : world) : Prop :=
  (w_listed w = L ∧ l0 `prefix_of` w_decided w) ∧ Forall (copy_of w) policies ∧ settled uid B f w ∧ (R → recent_only uid l0 w).

Lemma others_between L B f R l0 ps w w' : rtc others w w' → between L B f R l0 ps w → between L B f R l0 ps w'.
Proof.
  apply others_keep. clear w w'. intros w w' Ho ([HL Hl] & Hc & Hs & Hr). split_and!.
  - by destruct Ho.
  - etrans; [exact Hl|by apply others_decided].
  - eapply Forall_impl; [exact Hc|]. intros o. by apply others_copy.
  - by eapply others_settled.
  - intros H. by eapply others_recent; [..|apply Hr].
Qed.

Lemma asks_between L B f R l0 ps X (e : policyE X) w x w' :
  step false X e w x w' → only_asks e → between L B f R l0 ps w → between L B f R l0 ps w'.
Proof. intros (w1 & Ho & Ha) He Hb. apply only_asks_act in Ha as ->; [|done]. by eapply others_between. Qed.

(** One policy's flush: without an error its batch is on the server. *)
Lemma apply_between L B f R l0 p ps batch use w :
  uid_of p ∉ uid_of <$> ps → (uid_of p = uid → f = batch) → between L B f R l0 (p :: ps) w →
  wp (step false) (apply quote p batch use health) (λ err w', match err with
    | None => between L B (if bool_decide (uid_of p = uid) then None else f) R l0 ps w'
    | Some _ => between L B f R l0 ps w'
    end) w.
Proof.
  intros Hp Hf Hb. eapply apply_wp; [intros ????? Hst Ha; eapply asks_between; [exact Hst|by apply flush_asks_only]|exact Hb|]. clear w Hb.
  intros w tap t1 t2 t3 t4 Hb d. pose proof (desired_count quote p batch use health tap t1 t2 t3 t4) as Hd. fold d in Hd. split.
  - intros Heq. destruct Hb as (HL & Hc & Hs & Hr). apply Forall_cons in Hc as [_ Hc]. split; [done|]. split_and!; [done| |done].
    case_bool_decide as Hu; [|done]. eapply settled_zero; [|exact Hs]. rewrite Hf by done. intros k.
    specialize (Hd k). rewrite <-Heq in Hd. by apply same64_unmoved in Hd.
  - intros x w' (w1 & Ho & Ha). apply (others_between _ _ _ _ _ _ _ _ Ho) in Hb. destruct Hb as (HL & Hc & Hs & Hr).
    apply Forall_cons in Hc as [Hcp Hc]. destruct x as [[]|e]; simpl in Ha.
    + split; [by destruct (written_current _ _ _ _ Hcp Ha) as [_ ->]|].
      split_and!; [|by eapply written_settled|]; destruct (written_current _ _ _ _ Hcp Ha) as [_ ->]; [|exact Hr].
      rewrite Forall_forall in Hc |- *. intros o Ho'. apply put_other_copy; [|by apply Hc].
      change (uid_of (stored_as p (with_status p d))) with (uid_of p). intros Hx. apply Hp. rewrite Hx.
      by apply list_elem_of_fmap_2.
    + destruct Ha as [->|[? _]]; [|done]. split; [exact HL|by split_and!].
Qed.

Lemma restore_between L B f R l0 p ps batch w :
  (uid_of p = uid → f = batch) → between L B f R l0 ps w →
  wp (step false) (restore (uid_of p) batch)
    (λ _ w', between L B (if bool_decide (uid_of p = uid) then None else f) False l0 ps w') w.
Proof.
  intros Hf Hb. destruct batch as [b|]; simpl.
  - intros _ w' (w1 & Ho & ->). apply (others_between _ _ _ _ _ _ _ _ Ho) in Hb. destruct Hb as (HL & Hc & Hs & _).
    split; [exact HL|]. split_and!; [exact Hc|by apply restored_settled|done].
  - destruct Hb as (HL & Hc & Hs & _). split; [done|]. split_and!; [done| |done]. case_bool_decide as Hu; [by rewrite (Hf Hu) in Hs|done].
Qed.

(** The batch of [uid] while its policy is still to come. *)
Definition flight (batches : gmap string decisionBatch) (ps : list PolicyObject) : option decisionBatch :=
  if bool_decide (uid ∈ uid_of <$> ps) then batches !! uid else None.

Lemma flight_mine batches p ps : uid_of p = uid → flight batches (p :: ps) = batches !! uid_of p.
Proof. unfold flight. intros <-. rewrite bool_decide_eq_true_2; [done|]. rewrite fmap_cons. left. Qed.

Lemma flight_next batches p ps :
  uid_of p ∉ uid_of <$> ps → (if bool_decide (uid_of p = uid) then None else flight batches (p :: ps)) = flight batches ps.
Proof.
  intros Hp. unfold flight. case_bool_decide as Hu; [subst; by rewrite bool_decide_eq_false_2|].
  rewrite (bool_decide_ext (uid ∈ uid_of <$> p :: ps) (uid ∈ uid_of <$> ps)); [done|]. set_solver.
Qed.

Lemma flush_loop_between L B R l0 ps batches uses w :
  NoDup (uid_of <$> ps) → between L B (flight batches ps) R l0 ps w →
  wp (step false) (flush_loop quote ps batches uses health)
    (λ errs w', between L B None (errs = [] ∧ R) l0 [] w') w.
Proof.
  revert R w. induction ps as [|p ps IH]; intros R w Hnd Hb; [destruct Hb as (HL & _ & Hs & Hr); split_and!; [apply HL..|done|done|by intros []; apply Hr]|].
  rewrite fmap_cons in Hnd. apply NoDup_cons in Hnd as [Hp Hnd]. cbn [flush_loop].
  pose proof (flight_mine batches p ps) as Hf.
  destruct (negb _) eqn:Ed.
  { apply IH; [done|]. destruct Hb as (HL & Hc & Hs & Hr). apply Forall_cons in Hc as [(cur & Hcur & _ & _ & Hdead) Hc].
    split; [done|]. split_and!; [done| |done]. rewrite <-(flight_next _ p) by done. case_bool_decide as Hu; [|done].
    destruct Hs as [Hk _]. split; [done|]. left. exists cur. rewrite <-Hu. split; [done|]. apply Hdead.
    by apply negb_true_iff. }
  apply wp_bind. eapply wp_mono; [|by apply (apply_between _ _ _ _ _ _ _ _ _ _ Hp Hf Hb)].
  intros [err|] w' Hb'; [|apply IH; [done|]; by rewrite <-(flight_next _ p)].
  apply wp_bind. eapply wp_mono; [|by apply (restore_between _ _ _ _ _ _ _ _ _ Hf Hb')].
  intros [] w2 Hb2. apply wp_bind. rewrite flight_next in Hb2 by done.
  eapply wp_mono; [|by apply (IH False w2)]. intros errs w3 (HL & _ & Hs & _). cbn [wp].
  split; [exact HL|]. split_and!; [done|done|by intros []].
Qed.

Lemma others_dead w w' : rtc others w w' → dead w uid → dead w' uid.
Proof.
  apply (others_keep (λ w, dead w uid)). clear w w'. intros w w' Ho (o & Hs & Hd). unfold dead.
  destruct Ho as [w res|w n Hn|w c c' Hc Hu Hlt Hsame Hdel]; simpl; [by eexists| |].
  - rewrite lookup_insert_ne by congruence. by eexists.
  - destruct (decide (uid_of c' = uid)) as [Hx|Hx]; [|rewrite lookup_insert_ne by done; by eexists].
    rewrite Hx, lookup_insert_eq. rewrite <-Hu, Hx, Hs in Hc. simplify_eq. eauto.
Qed.

Lemma others_longer w w' : rtc others w w' → w_decided w `prefix_of` w_decided w'.
Proof. induction 1 as [|w w1 w2 Ho _ IH]; [done|]. etrans; [by apply others_decided|done]. Qed.

Lemma settled_ext B B' f w : (∀ k, B k ≡₆₄ B' k) → settled uid B f w → settled uid B' f w.
Proof. intros HB [Hk [Hd|Hb]]; (split; [done|]); [by left|right]. intros k. by rewrite <-(HB k). Qed.

(** Every batch taken is in flight, or dropped if its policy was not listed. *)
Definition after_take (B took : counter → Z) (ps : list PolicyObject) (k : counter) : Z :=
  if bool_decide (uid ∈ uid_of <$> ps) then B k else B k - took k.

Lemma take_between L B R l0 ps w :
  between L B None R l0 ps w →
  between L (after_take B (batch_count (w_pending w !! uid)) ps) (flight (w_pending w) ps) True (w_decided w) ps
    (mkWorld (w_store w) ∅ (w_decided w) (w_listed w)).
Proof.
  intros ([HL _] & Hc & [Hk Hb] & _). split; [by split|]. split_and!; [exact Hc| |].
  - split; [done|]. destruct Hb as [Hb|Hb]; [by left|right]. intros k. unfold flight, after_take.
    specialize (Hb k). apply same64_spec in Hb as [q Hb]. apply same64_spec. exists q. revert Hb.
    unfold balance, stored_count. simpl. rewrite lookup_empty. case_bool_decide; cbn [batch_count]; lia.
  - intros _. exists []. simpl. rewrite app_nil_r. split; [done|]. intros k. by rewrite lookup_empty.
Qed.

Lemma others_accrued w0 w w' : rtc others w w' → accrued uid w0 w → accrued uid w0 w'.
Proof. apply others_keep. intros. by eapply others_pending. Qed.

(** A whole flush: the account of a policy it listed stands, that of another
    lost at most what was pending when the batches were taken; and without an
    error only what was decided since is pending. *)
Lemma Flush_settled B namespace w :
  settled uid B None w →
  wp (step false) (Flush quote namespace health)
    (λ errs w', ∃ l1, let took k := batch_count (w_pending w !! uid) k + decided uid l1 k in
      w_decided w ++ l1 `prefix_of` w_decided w' ∧
      (settled uid B None w' ∨ uid ∉ w_listed w' ∧ settled uid (λ k, B k - took k) None w') ∧
      (errs = [] → recent_only uid (w_decided w ++ l1) w' ∧
         settled uid (λ k, if bool_decide (uid ∈ w_listed w') then B k else B k - took k) None w')) w.
Proof.
  intros Hs. unfold Flush. intros ps w' (w1 & Ho1 & Hps).
  assert (∀ (errs : list str) w', errs ≠ [] → (∃ L ps, between L B None False (w_decided w) ps w') →
    ∃ l1, let took k := batch_count (w_pending w !! uid) k + decided uid l1 k in
      w_decided w ++ l1 `prefix_of` w_decided w' ∧
      (settled uid B None w' ∨ uid ∉ w_listed w' ∧ settled uid (λ k, B k - took k) None w') ∧
      (errs = [] → recent_only uid (w_decided w ++ l1) w' ∧
         settled uid (λ k, if bool_decide (uid ∈ w_listed w') then B k else B k - took k) None w')) as Hfailed.
  { intros errs w2 He (L & ps' & [_ Hp] & _ & H & _). exists []. rewrite app_nil_r. split_and!; [done|by left|done]. }
  assert (between (w_listed w) B None False (w_decided w) [] w1) as Hb1
    by (eapply others_between; [exact Ho1|split; [by split|by split_and!]]).
  destruct ps as [ps|e]; cbn; [|cbn in Hps; subst w'; apply Hfailed; [done|eauto]].
  destruct Hps as (Hnd & Hc & ->). destruct Hb1 as ([_ Hl] & _ & Hs1 & _).
  set (w1' := mkWorld _ _ _ _).
  assert (between (uid_of <$> ps) B None False (w_decided w) ps w1') as Hb1 by (split; [by split|by split_and!]).
  assert (accrued uid w w1') as Ha1.
  { apply (others_accrued w) in Ho1; [exact Ho1|]. exists []. rewrite app_nil_r. split; [done|]. intros k. by rewrite Z.add_0_r. }
  intros jobs w' (w2 & Ho2 & ->). pose proof (others_between _ _ _ _ _ _ _ _ Ho2 Hb1) as Hb2.
  destruct jobs as [jobs|e]; cbn; [|apply Hfailed; [done|eauto]].
  intros batches w' (w3 & Ho3 & -> & ->). pose proof (others_between _ _ _ _ _ _ _ _ Ho3 Hb2) as Hb3.
  destruct (others_accrued w w1' w3) as (l1 & Hl1 & Hpend); [by etrans|done|].
  apply take_between in Hb3.
  intros now w' Hnow. apply asks_between with (1 := Hnow) in Hb3; [|done].
  eapply wp_mono; [|by apply flush_loop_between]. intros errs w4 ([HL Hpre] & _ & Hs4 & Hr).
  rewrite Hl1 in Hpre, Hr.
  assert (settled uid (λ k, if bool_decide (uid ∈ w_listed w4) then B k else
    B k - (batch_count (w_pending w !! uid) k + decided uid l1 k)) None w4) as Hset.
  { rewrite HL. eapply settled_ext; [|exact Hs4]. intros k. unfold after_take. case_bool_decide; [done|]. by rewrite (Hpend k). }
  exists l1. split_and!; [done| |intros He; split; [by apply Hr|done]].
  case_bool_decide; [by left|by right].
Qed.

Lemma Reconcile_settled B systemNamespace namespace name w :
  settled uid B None w →
  wp (step false) (Reconcile systemNamespace namespace name) (λ _ w', settled uid B None w') w.
Proof.
  intros Hs. unfold Reconcile, workerIsFlushing. intros p w' (w1 & Ho1 & -> & Hp).
  assert (∃ L, between L B None False [] [] w1) as [L Hb]
    by (exists (w_listed w); eapply others_between; [exact Ho1|split; [by split; [|apply prefix_nil]|by split_and!]]).
  assert (∀ ps w, between L B None False [] ps w → settled uid B None w) as Hout by (by intros ps w2 (_ & _ & H & _)).
  destruct p as [p|e]; cbn -[Fresh reportStaleWorker]; [|destruct e; by eapply Hout].
  assert (between L B None False [] [p] w1) as Hb1 by (destruct Hb as (HL & _ & H & _); split; [exact HL|]; split_and!; [by constructor|done|done]).
  destruct (_ || _); [by eapply Hout|]. destruct (negb (armed _)); [by eapply Hout|]. cbn -[Fresh reportStaleWorker].
  assert (∀ w, between L B None False [] [p] w → wp (step false) (let! err := reportStaleWorker p in
      Ret match err with Some e => (0, Some e) | None => (Z.quot Witness.Stale 3, None) end)
    (λ _ w', settled uid B None w') w) as Hrep.
  { clear w w1 Ho1 Hs Hb Hb1 Hp. intros w Hb. apply wp_bind. eapply wp_mono; [intros err w'; exact id|].
    unfold reportStaleWorker. intros t1 w1 H1. apply asks_between with (1 := H1) in Hb; [|done].
    intros t2 w2 H2. apply asks_between with (1 := H2) in Hb; [|done]. cbn.
    destruct (bool_decide _); [by eapply Hout|]. intros x w' (w3 & Ho & Ha).
    apply (others_between _ _ _ _ _ _ _ _ Ho) in Hb as (_ & Hc & Hset & _). apply Forall_cons in Hc as [Hc _].
    destruct x as [[]|e]; [|by destruct Ha as [->|[? _]]].
    assert (settled uid B (if bool_decide (uid_of p = uid) then None else None) w') as H; [|by case_bool_decide].
    eapply written_settled with (batch := None); [exact Hc|exact Ha| |done|done]. intros k.
    rewrite (same_record_count (po_Status p)); [by rewrite Z.add_0_r|done]. }
  intros l w2 H2. apply asks_between with (1 := H2) in Hb1; [|done].
  destruct l as [l|e]; cbn -[Fresh reportStaleWorker]; [|destruct e; try (by eapply Hout); by apply Hrep].
  intros now w3 H3. apply asks_between with (1 := H3) in Hb1; [|done]. cbn -[Fresh reportStaleWorker].
  destruct (Fresh _ _); [by eapply Hout|by apply Hrep].
Qed.

End flush.

(** ** Theorems *)

(** C9: decisions are conserved.  While others record decisions and edit,
    create and delete policies between any two calls, whatever old copies and
    however few of them the manager's cache lists, and whatever the API
    server answers as long as a write reported as failed was not made, a flush
    leaves every policy that it listed and that stays with exactly the
    decisions made: what the status counts, plus what is pending, less what was
    decided, is what it was (as 64-bit integers).  A policy that stays and was
    not listed is left so too, or has lost exactly what was pending when the
    batches were taken.  Ended without an error, the status of a listed policy
    has everything that was pending when the flush began and all that was
    decided until it took the batches, that of another has none of it, and only
    what was decided later is pending.  The reconciler, run beside it, moves
    none of this. *)
Theorem decisions_conserved quote health namespace name w uid p :
  uid ≠ "" → w_store w !! uid = Some p →
  wp (step false) (Flush quote namespace health) (λ errs w', live w' uid →
    ∃ l1 l2, w_decided w' = w_decided w ++ l1 ++ l2 ∧
    let took k := batch_count (w_pending w !! uid) k + decided uid l1 k in
    (uid ∈ w_listed w' → ∀ k, balance w' uid k ≡₆₄ balance w uid k) ∧
    (uid ∉ w_listed w' →
       (∀ k, balance w' uid k ≡₆₄ balance w uid k) ∨ ∀ k, balance w' uid k ≡₆₄ balance w uid k - took k) ∧
    (errs = [] → ∀ k,
      batch_count (w_pending w' !! uid) k ≡₆₄ decided uid l2 k ∧
      stored_count w' uid k ≡₆₄ stored_count w uid k + (if bool_decide (uid ∈ w_listed w') then took k else 0))) w ∧
  wp (step false) (Reconcile namespace namespace name) (λ _ w', live w' uid →
    ∀ k, balance w' uid k ≡₆₄ balance w uid k) w.
Proof.
  intros Hu Hp.
  assert (settled uid (balance w uid) None w) as Hs.
  { split; [by eexists|]. right. intros k. cbn [batch_count]. by rewrite Z.add_0_r. }
  assert (∀ B w', live w' uid → settled uid B None w' → ∀ k, balance w' uid k ≡₆₄ B k) as Hlive.
  { intros B w' (o & Ho & Hd) [_ [(o' & Ho' & Hd')|Hb]] k; [exfalso; congruence|]. rewrite <-(Hb k). cbn [batch_count]. by rewrite Z.add_0_r. }
  split; (eapply wp_mono; [|by eauto using Flush_settled, Reconcile_settled]).
  - intros errs w' (l1 & [l2 Hd] & Hset & Hr) Hl. exists l1, l2. rewrite <- app_assoc in Hd.
    split; [done|]. intros took. split_and!.
    + intros Hi. destruct Hset as [H|[Hn _]]; [by apply Hlive|done].
    + intros _. destruct Hset as [H|[_ H]]; [left|right]; exact (Hlive _ w' Hl H).
    + intros He k. destruct (Hr He) as [(l & Hd' & Hk) Hset'].
      assert (l = l2) as -> by (rewrite Hd, <- app_assoc in Hd'; by simplify_list_eq). split; [done|].
      pose proof (Hlive _ w' Hl Hset' k) as Hb. cbv beta in Hb. unfold balance in Hb. rewrite (Hk k), Hd, !decided_app in Hb.
      apply same64_spec in Hb as [q Hq]. apply same64_spec. exists q. unfold took. case_bool_decide; lia.
  - intros r w' Hs' Hl. by apply Hlive.
Qed.

(** ** Examples *)

Definition example_policy : PolicyObject :=
  mkPolicyObject
    (mkCapturePolicy (mkMeta "p" "trawl" "u" 1 0 None ∅ [])
       (mkCapturePolicySpec "tap" true (mkPolicyTrigger CaptureTriggerHubbleDrop None None)
          (mkPolicyBounds "30s" "" 0 (bytes_quantity 0)) "" (mkRateLimit 10 minute)))
    1 (mkPolicyStatus 0 CapturePolicyUnset "" 0 0 None None zero_counters []).

Definition example_result : PolicyResult :=
  mkResult ("trawl", "p") "u" 1 CaptureTriggerHubbleDrop "t" OutcomeCreated ReasonNone "" "job" 5 None.

(** The policy is stored, and one capture was decided. *)
Definition example_world : world :=
  mkWorld {["u" := example_policy]} (Record_decision ∅ example_result) [example_result] [].

Definition no_health (t : CaptureTriggerType) : option SourceHealth := None.

Lemma decisions_conserved_witness :
  wp (step false) (Flush id "trawl" no_health)
    (λ _ w', live w' "u" → "u" ∈ w_listed w' → ∀ k, balance w' "u" k ≡₆₄ 0) example_world.
Proof.
  destruct (decisions_conserved id no_health "trawl" "p" example_world "u" example_policy) as [H _];
    [discriminate|reflexivity|].
  eapply wp_mono; [|exact H]. intros errs w' Hw Hl Hi k. destruct (Hw Hl) as (l1 & l2 & _ & Hk & _). rewrite (Hk Hi k).
  destruct k; reflexivity.
Defined.

(** a decision about a policy the flush has not listed is lost.  The
    policies are listed before the batches are taken; a policy that appears,
    and is matched, in between has its batch taken and dropped as if it no
    longer existed, although the flush ends without an error. *)
Theorem late_decision_lost quote namespace health :
  ∃ w', exec (step false) (Flush quote namespace health) (mkWorld ∅ ∅ [] []) [] w' ∧ live w' "u" ∧
    w_decided w' = [example_result] ∧ stored_count w' "u" CountMatched = 0 ∧ w_pending w' !! "u" = None.
Proof.
  set (w1 := put (mkWorld ∅ ∅ [] []) example_policy).
  exists (mkWorld (w_store w1) ∅ [example_result] []). split.
  - eapply (exec_vis _ _ _ _ _ (Ok [])); [eexists; split; [apply rtc_refl|]; split_and!; [constructor|constructor|done]|].
    cbn. eapply (exec_vis _ _ _ _ _ (Ok [])); [|cbn].
    { exists (mkWorld (w_store w1) (Record_decision ∅ example_result) [example_result] []). split; [|done].
      eapply rtc_l; [by apply (others_create (mkWorld ∅ ∅ [] []) example_policy)|]. eapply rtc_l; [apply others_decide|].
      apply rtc_refl. }
    eapply exec_vis; [eexists; split; [apply rtc_refl|by split]|]. cbn.
    eapply (exec_vis _ _ _ _ _ 0); [eexists; split; [apply rtc_refl|done]|]. constructor.
  - split_and!; [by exists example_policy|done..].
Qed.

(** a write that took effect although it was reported as failed counts its
    batch twice: the status has it, and it is put back for the next flush. *)
Theorem ambiguous_write_counts_twice quote :
  ∃ err w', exec (step true) (Flush quote "trawl" no_health) example_world [err] w' ∧ live w' "u" ∧
    w_decided w' = [example_result] ∧ stored_count w' "u" CountMatched = 1 ∧
    batch_count (w_pending w' !! "u") CountMatched = 1.
Proof.
  set (b := record_in empty_batch example_result).
  set (d := desired_of quote example_policy (Some b) zero_usage no_health (Err (ApiError "")) 0 0 0 0).
  set (w1 := mkWorld (w_store (put example_world (stored_as example_policy (with_status example_policy d)))) ∅ [example_result] ["u"]).
  eexists (Sanitize.Errorf "writing capture policy status: " ""), (mkWorld (w_store w1) (restore_batch ∅ "u" b) [example_result] ["u"]). split.
  - eapply (exec_vis _ _ _ _ _ (Ok [example_policy])); [eexists; split; [apply rtc_refl|]; split_and!; [apply NoDup_singleton| |done]|].
    { constructor; [|constructor]. exists example_policy. by split_and!. }
    cbn. eapply (exec_vis _ _ _ _ _ (Ok [])); [eexists; split; [apply rtc_refl|done]|cbn].
    eapply exec_vis; [eexists; split; [apply rtc_refl|by split]|].
    eapply (exec_vis _ _ _ _ _ 0); [eexists; split; [apply rtc_refl|done]|].
    change (exec (step true) (let! err := apply quote example_policy (Some b) zero_usage no_health in
      match err with
      | None => Ret []
      | Some err => let! _ := restore "u" (Some b) in let! errs := Ret [] in Ret (err :: errs)
      end) (mkWorld {["u" := example_policy]} ∅ [example_result] ["u"])
      [Sanitize.Errorf "writing capture policy status: " ""]
      (mkWorld (w_store w1) (restore_batch ∅ "u" b) [example_result] ["u"])).
    eapply exec_bind.
    + eapply (apply_exec _ _ _ _ _ _ (Err (ApiError "")) 0 0 0 0 (Err (OtherError "")));
        [by eexists..|by intros H%(f_equal cpst_ObservedGeneration)|].
      exists (mkWorld {["u" := example_policy]} ∅ [example_result] ["u"]). split; [apply rtc_refl|]. right. split; [done|].
      by exists example_policy.
    + eapply (exec_vis _ _ _ _ _ tt); [eexists; split; [apply rtc_refl|reflexivity]|]. constructor.
  - split_and!; [|reflexivity..]. exists (stored_as example_policy (with_status example_policy d)). split; [reflexivity|]. discriminate.
Qed.

End PolicyLedger.
