(* ===== verification/CursorStore.v ===== *)
(** * Cursors in a ConfigMap, the stores of internal/events/loki and hubble

    Both packages keep their cursor as one JSON text in one ConfigMap, with
    the same code and two differences: what their errors call the cursor, and
    what a text that does not decode stands for.  [encode] and [decode] are the
    cursor's JSON encoding; the resource version a write is checked against is
    the API server's business. *)

From S2P Require Import Prelude GoString Sanitize Kube Prog.

Module CursorStore.
Import Kube.

Record ConfigMap := mkConfigMap { cm_Namespace : str; cm_Name : str; cm_Data : gmap string string }.

Definition with_data (cm : ConfigMap) (d : gmap string string) : ConfigMap :=
  mkConfigMap (cm_Namespace cm) (cm_Name cm) d.

Inductive cmE : Type → Type :=
  | GetConfigMap (namespace name : str) : cmE (result kube_error ConfigMap)
  | CreateConfigMap (cm : ConfigMap) : cmE (result kube_error unit)
  | UpdateConfigMap (cm : ConfigMap) : cmE (result kube_error unit).

Definition cursorKey : str := "cursor.json".

(** [cs_HasClient] is [Client != nil]. *)
Record ConfigMapStore := mkStore { cs_HasClient : bool; cs_Namespace : str; cs_Name : str }.

Section store.
Context {C : Type} (encode : C → result str str) (decode : str → result str C) (zero : C).

(** What the errors call the cursor, its ConfigMap unless named, and what an
    unreadable cursor is. *)
Context (package article DefaultCursorConfigMap : str) (unreadable : str → result str C).

Definition store_name (s : ConfigMapStore) : str :=
  if bool_decide (cs_Name s = "") then DefaultCursorConfigMap else cs_Name s.

Definition validate (s : ConfigMapStore) : option str :=
  if negb (cs_HasClient s) then Some (package +:+ " cursor: no client")
  else if bool_decide (cs_Namespace s = "") then Some (package +:+ " cursor: no namespace")
  else None.

Definition load (s : ConfigMapStore) : prog cmE (result str C) :=
  match validate s with
  | Some e => Ret (Err e)
  | None =>
      let! cm := call (GetConfigMap (cs_Namespace s) (store_name s)) in
      Ret match cm with
          | Err (NotFound _) => Ok zero
          | Err e => Err (Sanitize.Errorf ("reading the " +:+ article +:+ " cursor: ") (kube_text e))
          | Ok cm =>
              let raw := default "" (cm_Data cm !! cursorKey) in
              if bool_decide (raw = "") then Ok zero else
              match decode raw with Ok c => Ok c | Err e => unreadable e end
          end
  end.

(** The error, if any. *)
Definition save (s : ConfigMapStore) (c : C) : prog cmE (option str) :=
  match validate s with
  | Some e => Ret (Some e)
  | None =>
      match encode c with
      | Err e => Ret (Some (Sanitize.Errorf ("encoding the " +:+ article +:+ " cursor: ") e))
      | Ok encoded =>
          let! cm := call (GetConfigMap (cs_Namespace s) (store_name s)) in
          match cm with
          | Err (NotFound _) =>
              let! res := call (CreateConfigMap (mkConfigMap (cs_Namespace s) (store_name s) {[cursorKey := encoded]})) in
              Ret match res with
                  | Err e => Some (Sanitize.Errorf ("creating the " +:+ article +:+ " cursor: ") (kube_text e))
                  | Ok _ => None
                  end
          | Err e => Ret (Some (Sanitize.Errorf ("reading the " +:+ article +:+ " cursor: ") (kube_text e)))
          | Ok cm =>
              let! res := call (UpdateConfigMap (with_data cm (<[cursorKey := encoded]> (cm_Data cm)))) in
              Ret match res with
                  | Err e => Some (Sanitize.Errorf ("updating the " +:+ article +:+ " cursor: ") (kube_text e))
                  | Ok _ => None
                  end
          end
      end
  end.

(** ** The ConfigMap as a cell

    The object under the store's name, if it exists; a call may fail, and a
    write that fails changes nothing. *)
Definition cell (X : Type) (e : cmE X) (s : option ConfigMap) : X → option ConfigMap → Prop :=
  match e with
  | GetConfigMap _ _ => λ x s', s' = s ∧
      match x with Ok cm => s = Some cm | Err (NotFound _) => s = None | Err _ => True end
  | CreateConfigMap cm | UpdateConfigMap cm => λ x s', match x with Ok _ => s' = Some cm | Err _ => s' = s end
  end.

Definition data_of (s : option ConfigMap) : gmap string string := match s with Some cm => cm_Data cm | None => ∅ end.

(** A cursor saved without an error is the cursor loaded; the other keys of the
    ConfigMap stay, and a save that fails leaves everything. *)
Lemma save_load s c cm :
  (∀ raw, encode c = Ok raw → raw ≠ "" ∧ decode raw = Ok c) →
  wp cell (save s c) (λ err cm',
    match err with
    | Some _ => cm' = cm
    | None => (∀ key, key ≠ cursorKey → data_of cm' !! key = data_of cm !! key) ∧
        wp cell (load s) (λ res cm'', cm'' = cm' ∧ ∀ c', res = Ok c' → c' = c) cm'
    end) cm.
Proof.
  intros Hcodec. unfold save, load. destruct (validate s); [done|]. destruct (encode c) as [raw|e] eqn:Ee; [|done].
  destruct (Hcodec raw eq_refl) as [Hne Hd].
  assert (∀ new : ConfigMap, cm_Data new !! cursorKey = Some raw →
    wp cell (let! cm := call (GetConfigMap (cs_Namespace s) (store_name s)) in
      Ret match cm with
          | Err (NotFound _) => Ok zero
          | Err e => Err (Sanitize.Errorf ("reading the " +:+ article +:+ " cursor: ") (kube_text e))
          | Ok cm =>
              let raw := default "" (cm_Data cm !! cursorKey) in
              if bool_decide (raw = "") then Ok zero else
              match decode raw with Ok c => Ok c | Err e => unreadable e end
          end) (λ res cm'', cm'' = Some new ∧ ∀ c', res = Ok c' → c' = c) (Some new)) as Hload.
  { intros new Hnew x cm' [-> Hx]. split; [done|]. destruct x as [got|[text|text|text|text|text]]; try done.
    simplify_eq. rewrite Hnew. simpl. rewrite bool_decide_eq_false_2, Hd by done. by intros c' [= <-]. }
  intros x cm' [-> Hx]. destruct x as [got|e]; cbn.
  - subst cm. intros [[]|e] cm'; [intros ->|by intros ->]. split.
    + intros key Hk. simpl. by rewrite lookup_insert_ne.
    + apply Hload. simpl. by rewrite lookup_insert_eq.
  - destruct e as [text|text|text|text|text]; try done. subst cm. intros [[]|e] cm'; [intros ->|by intros ->]. split.
    + intros key Hk. simpl. by rewrite lookup_insert_ne.
    + apply Hload. cbn [cm_Data]. by rewrite lookup_insert_eq.
Qed.

End store.

End CursorStore.
