(* ===== verification/AuditTransport.v ===== *)
(** * Audit commits from elsewhere, internal/audit client.go, committer.go and cursor.go

    The mTLS client and the sink's handler as programs, joined by a network
    that may lose a request or a reply; the counting wrapper; and the replay
    cursor in its ConfigMap.  The TLS handshake has been made: a request
    carries the common name its certificate was verified to hold.  The JSON
    encodings are arguments; a body read under a limit is decoded from its
    first bytes.  An encoding that fails has no text of its own and [%q] no
    quotes.  Starting and stopping the listener is not modelled. *)

From Stdlib Require Import Ascii.
From S2P Require Import Prelude GoTime GoString Utf8 Sanitize Prog Storage AuditModel AuditSink AuditReplay Kube CursorStore.

Module AuditTransport.
Import AuditModel AuditSink Storage.

(** ** The wire *)

Record request := mkRequest { rq_Method : str; rq_CommonName : option str; rq_Body : str }.
Record response := mkResponse { rp_StatusCode : Z; rp_Body : str }.

(** A commit result as the client has it: its outcome is text. *)
Record remote_result := mkRemote { rr_Result : str; rr_LedgerKey : str; rr_CommittedAt : time }.

Definition outcome_text (r : CommitOutcome) : str :=
  match r with ResultSuccess => "success" | ResultRetry => "retry" | ResultUnavailable => "unavailable" | ResultConflict => "conflict" end.

Definition wire (r : CommitResult) : remote_result := mkRemote (outcome_text (cr_Result r)) (cr_LedgerKey r) (cr_CommittedAt r).

(** A result as its JSON decodes. *)
Definition json_result (r : remote_result) : remote_result :=
  mkRemote (json_text (rr_Result r)) (json_text (rr_LedgerKey r)) (rr_CommittedAt r).

Definition errConflict : str := "audit record conflict: stable key already holds different content".

Definition maxRecordBytes : nat := Z.to_nat 65536.
#[global] Opaque maxRecordBytes.

Section transport.
Context (encode : Record_ → option str) (decode : str → option Record_).
Context (encode_result : remote_result → option str) (decode_result : str → option remote_result).

(** ** [Handler] *)

Definition authorizedClient (allowed : list str) (commonName : option str) : bool :=
  match commonName with None => false | Some cn => bool_decide (cn ∈ allowed) end.

(** The status line is out before the body, and an encoder that fails has
    written nothing. *)
Definition writeJSON (status : Z) (v : remote_result) : response := mkResponse status (default "" (encode_result v)).

Definition answer (res : CommitResult) (err : option str) : response :=
  match err with
  | Some e =>
      if bool_decide (e = errConflict) then writeJSON 409 (wire res)
      else writeJSON 503 (mkRemote (outcome_text ResultUnavailable) "" 0)
  | None => writeJSON 200 (wire res)
  end.

Definition Handler (sink : Sink) (now : time) (allowedIdentities : list str) (r : request) : prog storeE response :=
  if negb (bool_decide (rq_Method r = "POST")) then Ret (mkResponse 405 "method not allowed") else
  if negb (authorizedClient allowedIdentities (rq_CommonName r)) then Ret (mkResponse 403 "forbidden") else
  match decode (str_take maxRecordBytes (rq_Body r)) with
  | None => Ret (mkResponse 400 "invalid audit record")
  | Some rec => let! (res, err) := Commit encode decode sink now rec in Ret (answer res err)
  end.

(** ** [Client.Commit] *)

Inductive httpE : Type → Type :=
  | Do (method body : str) : httpE (result str response).

(** [bad_endpoint]: why no request can be built for the endpoint. *)
Definition Client_Commit (bad_endpoint : option str) (rec : Record_) : prog httpE (remote_result * option str) :=
  let unresolved r e := Ret (mkRemote (outcome_text r) "" 0, Some e) in
  match encode (Sanitized rec) with
  | None => unresolved ResultConflict "encoding audit record"
  | Some body =>
      match bad_endpoint with
      | Some err => unresolved ResultUnavailable (Sanitize.Errorf "building audit request: " err)
      | None =>
          let! resp := call (Do "POST" body) in
          match resp with
          | Err err => unresolved ResultUnavailable (Sanitize.Errorf "submitting audit record: " err)
          | Ok resp =>
              if (rp_StatusCode resp =? 200) || (rp_StatusCode resp =? 201) then
                match decode_result (rp_Body resp) with
                | None => unresolved ResultUnavailable "decoding audit response"
                | Some out =>
                    if negb (bool_decide (rr_Result out ∈ [outcome_text ResultSuccess; outcome_text ResultRetry]))
                    then Ret (out, Some ("audit sink returned result " +:+ Sanitize.String_ (rr_Result out)))
                    else Ret (out, None)
                end
              else if rp_StatusCode resp =? 409 then unresolved ResultConflict errConflict
              else unresolved ResultUnavailable ("audit sink returned status " +:+ itoa (rp_StatusCode resp))
          end
      end
  end.

(** ** [observedCommitter] *)

(** What the two counters gain. *)
Record counted := mkCounted { ct_Total : list (str * str); ct_Conflicts : Z }.

Definition observe (m : counted) (rec : Record_) (res : remote_result) : counted :=
  let result := if bool_decide (rr_Result res = "") then outcome_text ResultUnavailable else rr_Result res in
  mkCounted (ct_Total m ++ [(r_Decision rec, result)])
    (if bool_decide (result = outcome_text ResultConflict) then ct_Conflicts m + 1 else ct_Conflicts m).

(** ** The network

    A request is delivered, is lost, or is delivered and its reply lost. *)

Inductive fate := Delivered | RequestLost (err : str) | ReplyLost (err : str).

Inductive linkE : Type → Type :=
  | Fate : linkE fate
  | Ledger {X} (e : storeE X) : linkE X.

Definition network (sink : Sink) (now : time) (allowed : list str) (commonName : option str)
    (X : Type) (e : httpE X) (u : unit) : prog linkE (X * unit) :=
  match e in httpE X return prog linkE (X * unit) with
  | Do method body =>
      let! f := call Fate in
      match f with
      | RequestLost err => Ret (Err err, u)
      | Delivered | ReplyLost _ =>
          let! resp := translate (@Ledger) (Handler sink now allowed (mkRequest method commonName body)) in
          Ret (match f with ReplyLost err => Err err | _ => Ok resp end, u)
      end
  end.

Definition remote_commit (sink : Sink) (now : time) (allowed : list str) (commonName : option str) (bad_endpoint : option str) (rec : Record_) :
    prog linkE (remote_result * option str) :=
  let! (out, _) := interp (network sink now allowed commonName) (Client_Commit bad_endpoint rec) tt in Ret out.

End transport.

(** ** [ConfigMapCursor] *)

Module ReplayCursor.
Import Kube CursorStore.

Definition DefaultCursorConfigMap : str := "trawl-audit-cursor".
Definition cursorKey : str := "cursor".

Record ConfigMapCursor := mkCursor { cc_HasClient : bool; cc_Namespace : str; cc_Name : str }.

Definition cursor_name (c : ConfigMapCursor) : str := if bool_decide (cc_Name c = "") then DefaultCursorConfigMap else cc_Name c.

Definition validate (c : ConfigMapCursor) : option str :=
  if negb (cc_HasClient c) then Some "audit replay cursor requires a client"
  else if bool_decide (cc_Namespace c = "") then Some "audit replay cursor requires a namespace"
  else None.

Definition Load (c : ConfigMapCursor) : prog cmE (result str str) :=
  match validate c with
  | Some err => Ret (Err err)
  | None =>
      let! cm := call (GetConfigMap (cc_Namespace c) (cursor_name c)) in
      Ret match cm with
          | Err (NotFound _) => Ok ""
          | Err e => Err (Sanitize.Errorf "reading the audit replay cursor: " (kube_text e))
          | Ok cm => Ok (default "" (cm_Data cm !! cursorKey))
          end
  end.

Definition Save (c : ConfigMapCursor) (cursor : str) : prog cmE (option str) :=
  match validate c with
  | Some err => Ret (Some err)
  | None =>
      let! cm := call (GetConfigMap (cc_Namespace c) (cursor_name c)) in
      match cm with
      | Err (NotFound _) =>
          let! res := call (CreateConfigMap (mkConfigMap (cc_Namespace c) (cursor_name c) {[cursorKey := cursor]})) in
          Ret match res with Err e => Some (Sanitize.Errorf "creating the audit replay cursor: " (kube_text e)) | Ok _ => None end
      | Err e => Ret (Some (Sanitize.Errorf "reading the audit replay cursor: " (kube_text e)))
      | Ok cm =>
          let! res := call (UpdateConfigMap (with_data cm (<[cursorKey := cursor]> (cm_Data cm)))) in
          Ret match res with Err e => Some (Sanitize.Errorf "updating the audit replay cursor: " (kube_text e)) | Ok _ => None end
      end
  end.

(** The ConfigMap as a cell whose failed writes may have taken effect. *)
Definition unsure_cell (X : Type) (e : cmE X) (s : option ConfigMap) : X → option ConfigMap → Prop :=
  match e with
  | GetConfigMap _ _ => λ x s', s' = s ∧
      match x with Ok cm => s = Some cm | Err (NotFound _) => s = None | Err _ => True end
  | CreateConfigMap cm | UpdateConfigMap cm => λ x s', match x with Ok _ => s' = Some cm | Err _ => s' = s ∨ s' = Some cm end
  end.

(** The cursor a ConfigMap holds. *)
Definition stored (s : option ConfigMap) : str := default "" (data_of s !! cursorKey).

End ReplayCursor.

(** ** Lemmas *)

Section link.
Context {S : Type} (step : ∀ X, storeE X → S → X → S → Prop).

Definition link_step (X : Type) (e : linkE X) (s : S) : X → S → Prop :=
  match e in linkE X return X → S → Prop with
  | Fate => λ _ s', s' = s
  | Ledger e => λ x s', step _ e s x s'
  end.

Context (encode : Record_ → option str) (decode : str → option Record_).
Context (encode_result : remote_result → option str) (decode_result : str → option remote_result).
Context (sink : Sink) (now : time) (allowed : list str).

(** What the handler answers, given what the sink does with the record. *)
Lemma Handler_answers commonName body rec (Q : CommitResult * option str → S → Prop) s :
  decode (str_take maxRecordBytes body) = Some rec ∨ decode (str_take maxRecordBytes body) = None →
  wp step (Commit encode decode sink now rec) Q s →
  wp step (Handler encode decode encode_result sink now allowed (mkRequest "POST" commonName body))
    (λ resp s', s' = s ∧ (rp_StatusCode resp = 400 ∨ rp_StatusCode resp = 403) ∨
       authorizedClient allowed commonName = true ∧ ∃ res err, Q (res, err) s' ∧ resp = answer encode_result res err) s.
Proof.
  intros Hd HQ. unfold Handler. rewrite bool_decide_eq_true_2 by done. cbn [negb rq_Method rq_CommonName rq_Body].
  destruct (authorizedClient allowed commonName); cbn [negb]; [|left; by split; [|right]].
  destruct Hd as [Hd|Hd]; rewrite Hd; [|left; by split; [|left]].
  apply wp_bind. eapply wp_mono; [|exact HQ]. intros [res err] s' H. right. split; [done|]. by exists res, err.
Qed.

(** A commit without an error is a success or a retry. *)
Lemma Commit_result rec s :
  wp step (Commit encode decode sink now rec) (λ o _, o.2 = None → cr_Result o.1 = ResultSuccess ∨ cr_Result o.1 = ResultRetry) s.
Proof.
  assert (∀ k b res s, res = ResultSuccess ∨ res = ResultRetry →
    wp step (writeRecord sink k b now res) (λ o _, o.2 = None → cr_Result o.1 = ResultSuccess ∨ cr_Result o.1 = ResultRetry) s) as Hw.
  { intros k b res s0 Hres x s1 _. destruct x; [|done]. intros y s2 _. destruct y; [intros _; exact Hres|done]. }
  unfold Commit. destruct (Validate _); [|done]. destruct (encode _) as [b|]; [|done].
  intros x s1 _. destruct x as [o|[| |m]]; [by apply Hw; left| |done|done].
  intros y s2 _. destruct y as [k|]; [|done]. intros z s3 _. destruct z as [bytes|[| |m]]; [|done| |done].
  - cbn [prog_bind]. destruct (decode bytes); [|done]. destruct (decode b); [|done]. destruct (negb _); [done|]. intros _. by right.
  - cbn [prog_bind]. destruct (encode _); [|done]. apply Hw. by left.
Qed.

End link.

(** ** Theorems *)

(** C19: a remote commit is the sink's or fails closed.  Over a network that
    may lose the request or the reply, and whatever promise the sink's commit
    of the record keeps - of the record as JSON carries it, in which invalid
    UTF-8 of the key is replaced: a commit the client reports as done was done by the
    sink, for a certificate on its list, with the very result reported, as JSON
    carries it; a conflict it reports is the sink's, or the record could not be
    encoded; any other error, a result JSON cannot carry among them, leaves
    either nothing done or what the sink did, never a success invented on the
    way. *)
Theorem remote_commit_refines {S} (step : ∀ X, storeE X → S → X → S → Prop) encode decode encode_result decode_result
    sink now allowed commonName bad_endpoint rec (Q : CommitResult * option str → S → Prop) s :
  (∀ body, encode (Sanitized rec) = Some body →
    decode (str_take maxRecordBytes body) =
    if slen body <=? Z.of_nat maxRecordBytes then Some (json_record (Sanitized rec)) else None) →
  (∀ res body, encode_result res = Some body → decode_result body = Some (json_result res)) →
  decode_result "" = None →
  wp step (Commit encode decode sink now (json_record (Sanitized rec))) Q s →
  wp (link_step step) (remote_commit encode decode encode_result decode_result sink now allowed commonName bad_endpoint rec)
    (λ '(out, err) s',
      match err with
      | None => authorizedClient allowed commonName = true ∧ ∃ res, Q (res, None) s' ∧ out = json_result (wire res)
      | Some e =>
          (s' = s ∨ ∃ o, Q o s') ∧
          (rr_Result out = outcome_text ResultConflict → encode (Sanitized rec) = None ∨
             authorizedClient allowed commonName = true ∧ ∃ res, Q (res, Some errConflict) s')
      end) s.
Proof.
  intros Hcodec Hres Hempty HQ. unfold remote_commit, Client_Commit.
  destruct (encode (Sanitized rec)) as [body|] eqn:Ee; [|by split; [left|intros _; left]].
  specialize (Hcodec body eq_refl).
  destruct bad_endpoint as [err|]; [by split; [left|]|].
  pose proof (wp_and step _ _ _ s HQ (Commit_result step encode decode sink now (json_record (Sanitized rec)) s)) as HQ'.
  assert (decode (str_take maxRecordBytes body) = Some (json_record (Sanitized rec)) ∨ decode (str_take maxRecordBytes body) = None) as Hd
    by (rewrite Hcodec; destruct (slen body <=? _); auto).
  pose proof (Handler_answers step encode decode encode_result sink now allowed commonName body _ _ s Hd HQ') as HH.
  intros f s1 ->. destruct f as [|err|err]; [|by split; [left|]|].
  - cbn [network prog_bind]. apply wp_bind, wp_bind, wp_bind, wp_translate. eapply wp_mono; [|exact HH].
    intros resp s' [[-> Hst]|(Ha & res & err & [HQs Hok] & ->)]; cbn [prog_bind interp wp].
    + rewrite (proj2 (Z.eqb_neq _ 200)), (proj2 (Z.eqb_neq _ 201)), (proj2 (Z.eqb_neq _ 409)) by (destruct Hst; lia).
      by split; [left|].
    + unfold answer. destruct err as [e|].
      * case_bool_decide as He; [subst e|]; unfold writeJSON; cbn [rp_StatusCode rp_Body Z.eqb orb Pos.eqb prog_bind wp]; (split; [right; by eexists|]); [|done].
        intros _. right. split; [done|]. by exists res.
      * unfold writeJSON. cbn [rp_StatusCode rp_Body Z.eqb orb Pos.eqb].
        destruct (encode_result (wire res)) as [b|] eqn:Eb; cbn [default from_option];
          [|rewrite Hempty; by split; [right; by eexists|]].
        unfold id. rewrite (Hres _ _ Eb).
        assert (rr_Result (json_result (wire res)) ∈ [outcome_text ResultSuccess; outcome_text ResultRetry]) as Hin.
        { unfold wire, json_result. cbn [rr_Result].
          destruct (Hok eq_refl) as [E|E]; cbn in E; rewrite E; [by constructor|by do 2 constructor]. }
        rewrite bool_decide_eq_true_2 by done. split; [done|]. by exists res.
  - cbn [network prog_bind]. apply wp_bind, wp_bind, wp_bind, wp_translate. eapply wp_mono; [|exact HH].
    intros resp s' H. cbn [prog_bind interp wp]. split; [|done]. destruct H as [[-> _]|(_ & res & e & [HQs _] & _)]; [by left|right; by eexists].
Qed.

(** the ConfigMap keeps the cursor as the replayer is promised.  Loading
    gives the stored cursor or an error and changes nothing; saving stores it,
    or reports an error - which may come although it was stored - and no other
    key of the ConfigMap changes: both calls are steps of the world in which a
    sweep was shown to lose and skip nothing. *)
Theorem cursor_keeps_promise {S} (step : ∀ X, storeE X → S → X → S → Prop) c cm (w : @AuditReplay.world S) :
  AuditReplay.w_cursor w = ReplayCursor.stored cm →
  let now cm := AuditReplay.mkWorld (AuditReplay.w_store w) (AuditReplay.w_log w) (ReplayCursor.stored cm) in
  wp ReplayCursor.unsure_cell (ReplayCursor.Load c) (λ res cm',
    AuditReplay.replay_step (step := step) _ AuditReplay.LoadCursor w
      (match res with Ok cursor => Some cursor | Err _ => None end) (now cm')) cm ∧
  ∀ cursor, wp ReplayCursor.unsure_cell (ReplayCursor.Save c cursor) (λ err cm',
    AuditReplay.replay_step (step := step) _ (AuditReplay.SaveCursor cursor) w (bool_decide (err = None)) (now cm') ∧
    ∀ key, key ≠ ReplayCursor.cursorKey → CursorStore.data_of cm' !! key = CursorStore.data_of cm !! key) cm.
Proof.
  intros Hw now. assert (now cm = w) as Hnow by (unfold now; rewrite <- Hw; by destruct w).
  split.
  - unfold ReplayCursor.Load. destruct (ReplayCursor.validate c); [split; [done|by right]|].
    intros x cm' [-> Hx]. cbn. split; [done|]. destruct x as [got|[]]; try (by right); subst cm; left; by rewrite Hw.
  - intros cursor.
    assert (AuditReplay.replay_step (step := step) _ (AuditReplay.SaveCursor cursor) w false (now cm)) as Hfail
      by (cbn; split_and!; [done..|]; right; by split).
    assert (∀ new b, ReplayCursor.stored new = cursor → AuditReplay.replay_step (step := step) _ (AuditReplay.SaveCursor cursor) w b (now new)) as Hsaved
      by (intros new b Hnew; cbn; split_and!; [done..|]; by left).
    unfold ReplayCursor.Save. destruct (ReplayCursor.validate c) as [e|]; [by split|].
    intros x cm' [-> Hx]. destruct x as [got|[]]; try (by split); subst cm; intros y cm' Hy; cbn in Hy.
    + assert (ReplayCursor.stored (Some (CursorStore.with_data got (<[ReplayCursor.cursorKey:=cursor]> (CursorStore.cm_Data got)))) = cursor) as Hst
        by (unfold ReplayCursor.stored; cbn [CursorStore.data_of CursorStore.with_data CursorStore.cm_Data]; by rewrite lookup_insert_eq).
      assert (∀ key, key ≠ ReplayCursor.cursorKey → <[ReplayCursor.cursorKey:=cursor]> (CursorStore.cm_Data got) !! key = CursorStore.cm_Data got !! key) as Hother
        by (intros; by rewrite lookup_insert_ne).
      destruct y as [u|e]; [subst cm'|destruct Hy as [->| ->]]; (split; [by (apply Hfail || by apply Hsaved)|done || exact Hother]).
    + assert (∀ cm0 : CursorStore.ConfigMap, CursorStore.cm_Data cm0 = {[ReplayCursor.cursorKey := cursor]} → ReplayCursor.stored (Some cm0) = cursor) as Hst
        by (intros cm0 E; unfold ReplayCursor.stored; cbn [CursorStore.data_of]; rewrite E; by rewrite lookup_singleton_eq).
      assert (∀ key, key ≠ ReplayCursor.cursorKey → ({[ReplayCursor.cursorKey := cursor]} : gmap string string) !! key = None) as Hother
        by (intros; by rewrite lookup_singleton_ne).
      destruct y as [u|e]; [subst cm'|destruct Hy as [->| ->]]; (split; [first [exact Hfail|apply Hsaved; by apply Hst]|done || exact Hother]).
Qed.


(** ** Witnesses *)

(** A codec of results: any countable type has one in bits. *)
Fixpoint bits (p : positive) : str := match p with xH => "" | xO p => String "0"%char (bits p) | xI p => String "1"%char (bits p) end.
Fixpoint of_bits (s : str) : positive :=
  match s with EmptyString => xH | String c s => if bool_decide (c = "0"%char) then xO (of_bits s) else xI (of_bits s) end.

Lemma of_bits_bits p : of_bits (bits p) = p.
Proof. induction p as [p IH|p IH|]; simpl; by rewrite ?IH. Qed.

Definition encode_example (r : remote_result) : option str :=
  if bool_decide (dt_year (civil (rr_CommittedAt r)) ≤ 9999)
  then Some (String "{"%char (bits (countable.encode (json_text (rr_Result r), json_text (rr_LedgerKey r), rr_CommittedAt r))))
  else None.
Definition decode_example (s : str) : option remote_result :=
  match s with EmptyString => None | String _ s => (λ '(a, b, c), mkRemote a b c) <$> countable.decode (of_bits s) end.

Lemma decode_example_encode r b : encode_example r = Some b → decode_example b = Some (json_result r).
Proof.
  unfold encode_example. case_bool_decide; [|done]. intros [= <-].
  unfold decode_example. rewrite of_bits_bits, countable.decode_encode. by destruct r.
Qed.

Definition example_link (X : Type) (e : linkE X) (s : Fake) : X * Fake :=
  match e in linkE X return X * Fake with Fate => (Delivered, s) | Ledger e => fake_handle _ e s end.

Lemma remote_commit_refines_witness :
  let rec := example_record "first" in
  let remote cn := remote_commit message_encode message_decode encode_example decode_example example_sink 1 ["gateway"] cn None rec in
  (rr_Result (run example_link (remote (Some "gateway")) (NewFake 0)).1.1 = "success" ∧
   (run example_link (remote (Some "sensor")) (NewFake 0)).1.2 = Some "audit sink returned status 403") ∧
  wp (link_step (handles fake_handle)) (remote (Some "gateway"))
    (λ '(out, err) s', match err with
      | None => authorizedClient ["gateway"] (Some "gateway") = true ∧ ∃ res, True ∧ out = json_result (wire res)
      | Some e => (s' = NewFake 0 ∨ ∃ o : CommitResult * option str, True) ∧
          (rr_Result out = outcome_text ResultConflict → message_encode (Sanitized rec) = None ∨
             authorizedClient ["gateway"] (Some "gateway") = true ∧ ∃ res : CommitResult, True)
      end) (NewFake 0).
Proof.
  intros rec remote. split; [by vm_compute|].
  apply (remote_commit_refines (handles fake_handle) message_encode message_decode encode_example decode_example
    example_sink 1 ["gateway"] (Some "gateway") None rec (λ _ _, True) (NewFake 0)).
  - intros body E. vm_compute in E. injection E as <-. vm_compute. reflexivity.
  - apply decode_example_encode.
  - reflexivity.
  - by apply wp_any.
Defined.

Lemma cursor_keeps_promise_witness :
  let c := ReplayCursor.mkCursor true "trawl-system" "" in
  let w := AuditReplay.mkWorld (NewFake 0) [] "" in
  wp ReplayCursor.unsure_cell (ReplayCursor.Load c) (λ res cm',
    AuditReplay.replay_step (step := handles fake_handle) _ AuditReplay.LoadCursor w
      (match res with Ok cursor => Some cursor | Err _ => None end) (AuditReplay.mkWorld (NewFake 0) [] (ReplayCursor.stored cm'))) None.
Proof.
  intros c w. by destruct (cursor_keeps_promise (handles fake_handle) c None w eq_refl) as [H _].
Defined.

End AuditTransport.
