(* ===== verification/Loki.v ===== *)
(** * The alert stream, internal/events/loki

    cursor.go, alerts.go and store.go: where a poll resumes, what it asks
    Loki, what it makes of the answer, and how the cursor is kept.  The HTTP
    exchange is a call; the JSON forms of an observation and of a cursor are
    arguments. *)

From Stdlib Require Import Ascii.
From S2P Require Import Prelude GoTime GoString Sha256 Observation Kube Prog CursorStore.

Module Loki.
Import Observation.

(** ** cursor.go *)

Record Cursor := mkCursor { cu_Timestamp : time; cu_seen : gmap string time }.

Definition zero_cursor : Cursor := mkCursor 0 ∅.

Definition Advance (c : Cursor) (at_ : time) (id : str) : Cursor :=
  mkCursor (if t_after at_ (cu_Timestamp c) then at_ else cu_Timestamp c) (<[id := at_]> (cu_seen c)).

Definition Handled (c : Cursor) (id : str) : bool := is_Some_b (cu_seen c !! id).

Definition QueryStart (c : Cursor) (overlap : duration) : time := t_add (cu_Timestamp c) (- overlap).

(** Where the next query starts, and whether coverage was lost. *)
Definition Resume (c : Cursor) (now : time) (overlap maxLookback : duration) : time * bool :=
  let floor := t_add now (- maxLookback) in
  if is_zero (cu_Timestamp c) then (floor, true) else
  let start := QueryStart c overlap in
  if t_before start floor then (floor, true) else (start, false).

Definition Lag (c : Cursor) (now : time) : duration :=
  if is_zero (cu_Timestamp c) then 0 else t_sub now (cu_Timestamp c).

Definition Prune (c : Cursor) (overlap : duration) : Cursor :=
  let cutoff := t_add (cu_Timestamp c) (- overlap) in
  mkCursor (cu_Timestamp c) (filter (λ kv, t_before kv.2 cutoff = false) (cu_seen c)).

(** ** alerts.go *)

Definition dq : str := String (ascii_of_nat 34) "".

Definition AlertQuery : str :=
  "{service_name=" +:+ dq +:+ "trawl-observation" +:+ dq +:+ ", observation_type=" +:+ dq +:+ "signature" +:+ dq +:+
  ", source_kind=" +:+ dq +:+ "Suricata" +:+ dq +:+ "}".

Definition DefaultLimit : Z := 1000.

Record Client := mkClient { cl_endpoint : str; cl_tenantID : str; cl_Limit : Z }.

Definition trim_slash (s : str) : str :=
  if bool_decide (str_drop (String.length s - 1) s = "/") then str_take (String.length s - 1) s else s.

(** [NewClient], but for its default HTTP client. *)
Definition NewClient (endpoint tenantID : str) : Client := mkClient (trim_slash endpoint) tenantID 0.

(** An element of a row, as [encoding/json] decodes it into an [any]; the text
    of one that is not a string is its encoding again. *)
Inductive json_value := JString (s : str) | JOther (encoded : str).

(** Streams of rows of elements. *)
Definition queryRangeResponse : Type := list (list (list json_value)).

Record Row := mkRow { row_Timestamp : time; row_ID : str; row_Observation : option Observation }.

Record Result := mkResult {
  r_Rows : list Row;
  r_Observations : list Observation;
  r_Malformed : Z;
  r_Truncated : bool;
}.

Definition empty_result : Result := mkResult [] [] 0 false.

(** [strconv.ParseInt(s, 10, 64)]: a sign, digits, and a value that fits. *)
Definition digits (s : str) : option Z :=
  if bool_decide (s = "") || negb (str_forallb is_digit s) then None else Some (digits_value 0 s).
Definition ParseInt (s : str) : option Z :=
  let v := match s with
           | String "-" s => Z.opp <$> digits s
           | String "+" s => digits s
           | _ => digits s
           end in
  match v with
  | Some n => if (min_int64 <=? n) && (n <=? max_int64) then Some n else None
  | None => None
  end.

Definition t_of_unix_nano (n : Z) : time := unix_to_zero * second + n.

Definition nul : str := String (ascii_of_nat 0) "".

Definition malformedRowID (timestamp payload : str) : str := "loki-row-" +:+ sha256_hex (timestamp +:+ nul +:+ payload).

Section client.
(** [json.Unmarshal] into an observation. *)
Context (unmarshal : str → option Observation).

Definition row_error (row stream : Z) (what : str) : str :=
  "decoding alert response: row " +:+ itoa row +:+ " in stream " +:+ itoa stream +:+ " " +:+ what.

Definition with_row (r : Result) (row : Row) : Result :=
  mkResult (r_Rows r ++ [row])
    (match row_Observation row with Some o => r_Observations r ++ [o] | None => r_Observations r end)
    (if is_Some_b (row_Observation row) then r_Malformed r else r_Malformed r + 1) (r_Truncated r).

(** The row a line of text stands for. *)
Definition line_row (rawTimestamp : str) (at_ : time) (line : str) : Row :=
  match unmarshal line with
  | None => mkRow at_ (malformedRowID rawTimestamp line) None
  | Some obs => mkRow at_ (if bool_decide (ob_ID obs = "") then malformedRowID rawTimestamp line else ob_ID obs) (Some obs)
  end.

Definition decode_row (stream row : Z) (value : list json_value) : result str Row :=
  match value with
  | [] => Err (row_error row stream "has no timestamp")
  | JOther _ :: _ => Err (row_error row stream "has a non-string timestamp")
  | JString rawTimestamp :: rest =>
      match ParseInt rawTimestamp with
      | None => Err (row_error row stream "has an unusable timestamp")
      | Some nanoseconds =>
          if nanoseconds <? 0 then Err (row_error row stream "has an unusable timestamp") else
          let at_ := t_of_unix_nano nanoseconds in
          Ok match rest with
             | [] => mkRow at_ (malformedRowID rawTimestamp "missing-line") None
             | JOther encoded :: _ => mkRow at_ (malformedRowID rawTimestamp encoded) None
             | JString line :: _ => line_row rawTimestamp at_ line
             end
      end
  end.

Fixpoint decode_stream (stream row : Z) (values : list (list json_value)) (acc : Result) : result str Result :=
  match values with
  | [] => Ok acc
  | value :: values =>
      match decode_row stream row value with
      | Err e => Err e
      | Ok r => decode_stream stream (row + 1) values (with_row acc r)
      end
  end.

Fixpoint decode_streams (stream : Z) (streams : queryRangeResponse) (acc : Result) : result str Result :=
  match streams with
  | [] => Ok acc
  | values :: streams =>
      match decode_stream stream 0 values acc with
      | Err e => Err e
      | Ok acc => decode_streams (stream + 1) streams acc
      end
  end.

Definition entries (body : queryRangeResponse) : Z := Z.of_nat (length (concat body)).

Definition decode (body : queryRangeResponse) (limit : Z) : result str Result :=
  match decode_streams 0 body empty_result with
  | Err e => Err e
  | Ok r => Ok (mkResult (r_Rows r) (r_Observations r) (r_Malformed r) (limit <=? entries body))
  end.

(** A query: the path, its parameters, and the tenant header. *)
Record request := mkRequest { rq_url : str; rq_params : list (str * str); rq_tenant : option str }.

(** What becomes of it, with the text of what went wrong. *)
Inductive answer :=
  | NotBuilt (text : str)
  | NoAnswer (text : str)
  | BadStatus (status : str)
  | BadBody (text : str)
  | Body (b : queryRangeResponse).

Inductive lokiE : Type → Type := Get (r : request) : lokiE answer.

Definition limit_of (c : Client) : Z := if cl_Limit c <=? 0 then DefaultLimit else cl_Limit c.

Definition alert_request (c : Client) (start end_ : time) : request :=
  mkRequest (cl_endpoint c +:+ "/loki/api/v1/query_range")
    [("query", AlertQuery); ("start", itoa (t_unix_nano start)); ("end", itoa (t_unix_nano end_));
     ("limit", itoa (limit_of c)); ("direction", "forward")]
    (if bool_decide (cl_tenantID c = "") then None else Some (cl_tenantID c)).

Definition Alerts (c : Client) (start end_ : time) : prog lokiE (result str Result) :=
  let! a := call (Get (alert_request c start end_)) in
  Ret match a with
      | NotBuilt e => Err ("building alert query: " +:+ e)
      | NoAnswer e => Err ("querying alerts: " +:+ e)
      | BadStatus s => Err ("querying alerts: loki returned " +:+ s)
      | BadBody e => Err ("decoding alert response: " +:+ e)
      | Body b => decode b (limit_of c)
      end.

(** A decoded row is of the Unix era. *)
Lemma decode_row_positive stream row value r : decode_row stream row value = Ok r → 0 < row_Timestamp r.
Proof.
  unfold decode_row, line_row, t_of_unix_nano, unix_to_zero, second. intros H.
  repeat (case_match; simplify_eq; simpl); rewrite ?Z.ltb_ge in *; lia.
Qed.

Lemma decode_stream_rows stream values : ∀ row acc res,
  decode_stream stream row values acc = Ok res →
  ∃ rows, r_Rows res = r_Rows acc ++ rows ∧ length rows = length values ∧ Forall (λ r, 0 < row_Timestamp r) rows.
Proof.
  induction values as [|v values IH]; intros row acc res; cbn [decode_stream].
  { intros [= <-]. exists []. by rewrite app_nil_r. }
  destruct (decode_row stream row v) as [r|] eqn:Er; [|done]. intros (rows & H1 & H2 & H3)%IH.
  exists (r :: rows). split_and!; [rewrite H1; simpl; by rewrite <-app_assoc|simpl; by rewrite H2|].
  constructor; [by eapply decode_row_positive|done].
Qed.

Lemma decode_streams_rows body : ∀ stream acc res,
  decode_streams stream body acc = Ok res →
  ∃ rows, r_Rows res = r_Rows acc ++ rows ∧ length rows = length (concat body) ∧ Forall (λ r, 0 < row_Timestamp r) rows.
Proof.
  induction body as [|values body IH]; intros stream acc res; cbn [decode_streams].
  { intros [= <-]. exists []. by rewrite app_nil_r. }
  destruct (decode_stream stream 0 values acc) as [acc'|] eqn:Es; [|done].
  apply decode_stream_rows in Es as (rows & H1 & H2 & H3). intros (rows' & H4 & H5 & H6)%IH.
  exists (rows ++ rows'). simpl. rewrite !length_app, H2, H5, H4, H1, app_assoc. split_and!; [done..|by apply Forall_app].
Qed.

(** Every entry of an answer is a row, in order of the Unix era. *)
Lemma decode_rows body limit res :
  decode body limit = Ok res → Z.of_nat (length (r_Rows res)) = entries body ∧ Forall (λ r, 0 < row_Timestamp r) (r_Rows res).
Proof.
  unfold decode. destruct (decode_streams 0 body empty_result) as [r|] eqn:Ed; [|done]. intros [= <-].
  apply decode_streams_rows in Ed as (rows & H1 & H2 & H3). simpl in *. rewrite H1. unfold entries. by rewrite H2.
Qed.

End client.

(** ** store.go *)

Definition DefaultCursorConfigMap : str := "trawl-alert-cursor".

(** An unreadable cursor is no cursor. *)
Definition Load (decode_cursor : str → result str Cursor) : CursorStore.ConfigMapStore → prog CursorStore.cmE (result str Cursor) :=
  CursorStore.load decode_cursor zero_cursor "alert" "alert" DefaultCursorConfigMap (λ _, Ok zero_cursor).

Definition Save (encode_cursor : Cursor → result str str) : CursorStore.ConfigMapStore → Cursor → prog CursorStore.cmE (option str) :=
  CursorStore.save encode_cursor "alert" "alert" DefaultCursorConfigMap.

End Loki.
