(* ===== verification/Hubble.v ===== *)
(** * The flow stream, internal/events/hubble

    normalize.go, client.go, cursor.go and store.go.  A flow message is what
    its generated getters answer, an enum value its name.  The client is a
    program over the relay, the cursor store, the handler and the clock; the
    replay window, which the status loop sets under the same lock, is read by a
    call.  [Run] is given how many streams are opened and how many messages each
    receives before the context ends; the TLS material is left out. *)

From Stdlib Require Import Ascii.
From S2P Require Import Prelude GoTime GoString Sha256 RecordID Sanitize Observation Kube Prog CursorStore.

Module Hubble.
Import Observation.

(** ** normalize.go and id.go *)

Definition protoTCP : str := "tcp".
Definition protoUDP : str := "udp".
Definition protoICMP : str := "icmp".
Definition protoICMPv6 : str := "icmpv6".
Definition protoSCTP : str := "sctp".

Definition VerdictDropped : str := "DROPPED".

Inductive layer4 := NoLayer4 | TCP (sp dp : Z) | UDP (sp dp : Z) | ICMPv4 | ICMPv6 | SCTP (sp dp : Z).

Record PbEndpoint := mkPbEndpoint { pe_Namespace : str; pe_PodName : str; pe_Workloads : list str }.

(** [pf_HasIP] is whether the message carries addresses; the getters below
    it answer either way. *)
Record PbFlow := mkPbFlow {
  pf_Time : option time;
  pf_NodeName : str;
  pf_HasIP : bool;
  pf_IPSource : str;
  pf_IPDestination : str;
  pf_IPVersion : str;
  pf_Source : option PbEndpoint;
  pf_Destination : option PbEndpoint;
  pf_L4 : layer4;
  pf_Verdict : str;
  pf_TraceObservationPoint : str;
  pf_TrafficDirection : str;
  pf_EventType : option str;
  pf_IsReply : option bool;
  pf_DropReasonDesc : str;
}.

Record Normalizer := mkNormalizer { no_Version : str; no_Node : str }.

Definition protocolOf (f : PbFlow) : str :=
  match pf_L4 f with
  | TCP _ _ => protoTCP
  | UDP _ _ => protoUDP
  | ICMPv4 => protoICMP
  | ICMPv6 => protoICMPv6
  | SCTP _ _ => protoSCTP
  | NoLayer4 => str_lower (pf_IPVersion f)
  end.

(** [int32(v)] of a uint32. *)
Definition portPtr (v : Z) : option Z := Some (wrap32 v).

Definition sourcePort (f : PbFlow) : option Z :=
  match pf_L4 f with TCP sp _ | UDP sp _ | SCTP sp _ => portPtr sp | _ => None end.
Definition destinationPort (f : PbFlow) : option Z :=
  match pf_L4 f with TCP _ dp | UDP _ dp | SCTP _ dp => portPtr dp | _ => None end.

Definition flow_parts (f : PbFlow) : list str :=
  [pf_NodeName f; pf_IPSource f; pf_IPDestination f; pf_Verdict f; pf_TraceObservationPoint f; protocolOf f].

Definition flowID (f : PbFlow) (eventTime : time) : str :=
  RecordID.digest_id (RecordID.flow_text (flow_parts f) (sourcePort f) (destinationPort f) eventTime).

Definition dropReason (f : PbFlow) : str :=
  if negb (bool_decide (pf_Verdict f = VerdictDropped)) then ""
  else if negb (bool_decide (pf_DropReasonDesc f = "")) && negb (bool_decide (pf_DropReasonDesc f = "DROP_REASON_UNKNOWN"))
  then pf_DropReasonDesc f else "".

Definition eventTypeOf (f : PbFlow) : str := default "" (pf_EventType f).
Definition isReply (f : PbFlow) : option bool := pf_IsReply f.
Definition nodeName (f : PbFlow) (fallback : str) : str :=
  if bool_decide (pf_NodeName f = "") then fallback else pf_NodeName f.
Definition version (n : Normalizer) : str := if bool_decide (no_Version n = "") then "unknown" else no_Version n.

Definition endpointOf (ip : str) (ep : option PbEndpoint) (port : option Z) : Endpoint :=
  match ep with
  | None => mkEndpoint ip port "" "" "" ""
  | Some e =>
      mkEndpoint ip port "" (pe_Namespace e) (match pe_Workloads e with w :: _ => w | [] => "" end) (pe_PodName e)
  end.

Definition flowOf (f : PbFlow) : option Flow :=
  if negb (pf_HasIP f) then None else
  Some (mkFlow "" "" (protocolOf f) None
    (endpointOf (pf_IPSource f) (pf_Source f) (sourcePort f))
    (endpointOf (pf_IPDestination f) (pf_Destination f) (destinationPort f))).

Definition cluster_details (f : PbFlow) : Details :=
  mkDetails None None None None None None None None None
    (Some (mkClusterFlow (pf_Verdict f) (dropReason f) (pf_TrafficDirection f) (eventTypeOf f) (isReply f))).

(** [Normalize] of a flow that is there, with what [now] answers. *)
Definition Normalize (n : Normalizer) (f : PbFlow) (now : time) : result str Observation :=
  match pf_Time f with
  | None => Err "hubble flow has no timestamp"
  | Some eventTime => Ok
      (mkObs SchemaVersion (flowID f eventTime) eventTime now (mkSource SourceHubble (version n)) None
        (mkTarget (nodeName f (no_Node n)) "" (pf_TraceObservationPoint f)) TypeClusterFlow (flowOf f) (cluster_details f))
  end.

(** ** client.go *)

Definition initialBackoff : duration := second.
Definition maxBackoff : duration := 30 * second.
Definition replayOverlap : duration := 30 * second.
Definition maxReplay : duration := 30 * minute.
Definition GapUnrecoverable : str := "replay_window_exceeded".
Definition GapCursorUnavailable : str := "cursor_unavailable".
Definition RejectUnparseable : str := "unparseable".
Definition RejectSchema : str := "schema".

Record Cursor := mkCursor { hu_Watermark : time; hu_Handled : gmap string time }.
Definition zero_cursor : Cursor := mkCursor 0 ∅.

(** The client's fields under its lock, but for the window. *)
Record State := mkState {
  hc_connected : bool;
  hc_watermark : time;
  hc_handled : gmap string time;
  hc_cursorHealthy : bool;
  hc_cursorLoadFailed : bool;
}.

Definition initial : State := mkState false 0 ∅ false false.

Inductive message := LostEvents | OtherMessage | FlowMessage (f : PbFlow).
Inductive received := Received (m : message) | EndOfStream | ReceiveError (text : str).

Inductive hubbleE : Type → Type :=
  | LoadCursor : hubbleE (result str Cursor)
  | SaveCursor (c : Cursor) : hubbleE (result str unit)
  | Dial : hubbleE (result str unit)
  | GetFlows (since : option time) : hubbleE (result str unit)
  | Recv : hubbleE received
  | Handle (obs : Observation) : hubbleE (result str unit)
  | ReplayWindow : hubbleE duration
  | ContextDone : hubbleE bool
  | Sleep (d : duration) : hubbleE bool
  | Clock : hubbleE time
  | NormalizerNow : hubbleE time
  | ConnectionChange (connected : bool) : hubbleE unit
  | ReportGap (reason : str) : hubbleE unit
  | ReportReject (reason : str) : hubbleE unit
  | CursorError (operation text : str) : hubbleE unit.

Definition with_connected (s : State) (v : bool) : State :=
  mkState v (hc_watermark s) (hc_handled s) (hc_cursorHealthy s) (hc_cursorLoadFailed s).
Definition with_health (s : State) (healthy failed : bool) : State :=
  mkState (hc_connected s) (hc_watermark s) (hc_handled s) healthy failed.
Definition with_boundary (s : State) (watermark : time) (handled : gmap string time) : State :=
  mkState (hc_connected s) watermark handled (hc_cursorHealthy s) (hc_cursorLoadFailed s).

Definition horizon (window : duration) : duration := Z.max replayOverlap window.

(** [pruneHandledLocked] *)
Definition pruneHandled (s : State) (window : duration) : State :=
  let cutoff := t_add (hc_watermark s) (- horizon window) in
  with_boundary s (hc_watermark s) (filter (λ kv, t_before kv.2 cutoff = false) (hc_handled s)).

Definition wasHandled (s : State) (id : str) : bool := is_Some_b (hc_handled s !! id).

Definition advanceWatermark (s : State) (t : time) : State :=
  with_boundary s (if t_after t (hc_watermark s) then t else hc_watermark s) (hc_handled s).

Definition remember_at (s : State) (window : duration) (id : str) (at_ : time) : State :=
  pruneHandled (advanceWatermark (with_boundary s (hc_watermark s) (<[id := at_]> (hc_handled s))) at_) window.

Definition remember (s : State) (id : str) (at_ : time) : prog hubbleE State :=
  let! window := call ReplayWindow in Ret (remember_at s window id at_).

(** Zero when nothing was processed. *)
Definition resume_at (s : State) (window : duration) : option time :=
  if is_zero (hc_watermark s) then None else
  let since := t_add (hc_watermark s) (- horizon window) in
  if is_zero since then None else Some since.

Definition resumePoint (s : State) : prog hubbleE (option time) :=
  let! window := call ReplayWindow in Ret (resume_at s window).

Definition checkReplayable (s : State) : prog hubbleE unit :=
  if is_zero (hc_watermark s) then Ret tt else
  let! now := call Clock in
  if maxReplay <? t_sub now (hc_watermark s) then call (ReportGap GapUnrecoverable) else Ret tt.

Definition setConnected (s : State) (v : bool) : prog hubbleE State :=
  let changed := negb (Bool.eqb (hc_connected s) v) in
  let! _ := (if changed then call (ConnectionChange v) else Ret tt) in
  Ret (with_connected s v).

(** ** cursor.go *)

Section client.
Context (n : Normalizer) (valid : Observation → bool) (hasStore : bool).

Definition ReplaySafe (s : State) : bool := negb hasStore || hc_cursorHealthy s.

Definition loadCursor (s : State) : prog hubbleE State :=
  if negb hasStore then Ret s else
  let! cursor := call LoadCursor in
  match cursor with
  | Err e =>
      let! _ := call (ReportGap GapCursorUnavailable) in
      let! _ := call (CursorError "load" e) in
      Ret (with_health s false true)
  | Ok c =>
      let! window := call ReplayWindow in
      Ret (with_health (pruneHandled (with_boundary s (hu_Watermark c) (hu_Handled c)) window) true false)
  end.

Definition saveCursor (s : State) : prog hubbleE State :=
  if negb hasStore then Ret s else
  let! res := call (SaveCursor (mkCursor (hc_watermark s) (hc_handled s))) in
  match res with
  | Err e =>
      let! _ := call (ReportGap GapCursorUnavailable) in
      let! _ := call (CursorError "save" e) in
      Ret (with_health s false (hc_cursorLoadFailed s))
  | Ok _ => Ret (if negb (hc_cursorLoadFailed s) then with_health s true (hc_cursorLoadFailed s) else s)
  end.

(** ** client.go, the stream *)

Definition accept (f : PbFlow) : prog hubbleE (option Observation) :=
  let! now := call NormalizerNow in
  match Normalize n f now with
  | Err _ => let! _ := call (ReportReject RejectUnparseable) in Ret None
  | Ok obs => if valid obs then Ret (Some obs) else let! _ := call (ReportReject RejectSchema) in Ret None
  end.

Definition deliver (s : State) (obs : Observation) : prog hubbleE (option str * State) :=
  if wasHandled s (ob_ID obs) then Ret (None, s) else
  let! res := call (Handle obs) in
  match res with
  | Err e => Ret (Some e, s)
  | Ok _ =>
      let! s := remember s (ob_ID obs) (ob_EventTime obs) in
      let! s := saveCursor s in
      Ret (None, s)
  end.

Fixpoint recv_loop (messages : nat) (s : State) : prog hubbleE (option str * State) :=
  match messages with
  | O => Ret (None, s)
  | S messages =>
      let! r := call Recv in
      match r with
      | EndOfStream => Ret (None, s)
      | ReceiveError e =>
          let! done := call ContextDone in
          Ret (if done : bool then None else Some (Sanitize.Errorf "receiving hubble flow: " e), s)
      | Received LostEvents => let! _ := call (ReportGap "relay_lost_events") in recv_loop messages s
      | Received OtherMessage => recv_loop messages s
      | Received (FlowMessage f) =>
          let! obs := accept f in
          match obs with
          | None => recv_loop messages s
          | Some obs =>
              let! (err, s) := deliver s obs in
              match err with Some e => Ret (Some e, s) | None => recv_loop messages s end
          end
      end
  end.

Definition streamOnce (messages : nat) (s : State) : prog hubbleE (option str * State) :=
  let! dialled := call Dial in
  match dialled with
  | Err e => Ret (Some (Sanitize.Errorf "connecting to hubble: " e), s)
  | Ok _ =>
      let! since := resumePoint s in
      let! opened := call (GetFlows since) in
      match opened with
      | Err e => Ret (Some (Sanitize.Errorf "opening hubble flow stream: " e), s)
      | Ok _ => let! s := setConnected s true in recv_loop messages s
      end
  end.

Fixpoint run_loop (streams messages : nat) (backoff : duration) (s : State) : prog hubbleE State :=
  match streams with
  | O => Ret s
  | S streams =>
      let! done := call ContextDone in
      if done : bool then Ret s else
      let! _ := checkReplayable s in
      let! (err, s) := streamOnce messages s in
      let! s := setConnected s false in
      let! done := call ContextDone in
      if done : bool then Ret s else
      let! _ := call (ReportGap (if err is Some _ then "stream_error" else "stream_closed")) in
      let! slept := call (Sleep backoff) in
      if negb slept then Ret s else run_loop streams messages (Z.min (wrap64 (backoff * 2)) maxBackoff) s
  end.

Definition Run (streams messages : nat) (s : State) : prog hubbleE State :=
  let! s := loadCursor s in
  run_loop streams messages initialBackoff s.

End client.

(** ** store.go *)

Definition DefaultCursorConfigMap : str := "trawl-hubble-cursor".

(** An unreadable cursor is an error. *)
Definition Load (decode_cursor : str → result str Cursor) : CursorStore.ConfigMapStore → prog CursorStore.cmE (result str Cursor) :=
  CursorStore.load decode_cursor zero_cursor "hubble" "Hubble" DefaultCursorConfigMap
    (λ e, Err (Sanitize.Errorf "decoding the Hubble cursor: " e)).

Definition Save (encode_cursor : Cursor → result str str) : CursorStore.ConfigMapStore → Cursor → prog CursorStore.cmE (option str) :=
  CursorStore.save encode_cursor "hubble" "Hubble" DefaultCursorConfigMap.

End Hubble.
