(* ===== verification/EventWorker.v ===== *)
(** * The event worker, cmd/event-worker/worker.go

    Three loops: the flow stream, the alert poll and the status loop, each a
    program over the worker's calls - the policy engine's, the status
    tracker's and the heartbeat's own calls among them.  A loop is given how
    often its ticker fires before its context ends.  The rolling windows of the
    engine are threaded through the loop that evaluates; counters other than
    those of lost coverage, and logging, are left out. *)

From S2P Require Import Prelude GoTime GoString Sanitize Api Status Observation Policy Prog.
From S2P Require Import AuditModel Engine Kube Witness PolicyStatus PolicyLedger CursorStore Loki.

Module EventWorker.
Import Observation Engine PolicyStatus Loki.

Definition alertOverlap : duration := 2 * minute.
Definition maxAlertLookback : duration := hour.
Definition gapCursorLost : str := "cursor_beyond_lookback".
Definition gapQueryFailed : str := "alert_query_failed".

Inductive workerE : Type → Type :=
  | Loki_ {X} (e : lokiE X) : workerE X
  | Cm_ {X} (e : CursorStore.cmE X) : workerE X
  | Engine_ {X} (e : engineE X) : workerE X
  | Tracker_ {X} (e : policyE X) : workerE X
  | Heartbeat_ {X} (e : Witness.leaseE X) : workerE X
  | RecordDecision (res : PolicyResult) : workerE unit
  | ListArmed (namespace : str) : workerE (result Kube.kube_error (list CapturePolicy))
  | SetReplayWindow (d : duration) : workerE unit
  | FlowsConnected : workerE bool
  | FlowsReplaySafe : workerE bool
  | SetAlertHealth (h : SourceHealth) : workerE unit
  | AlertHealth : workerE SourceHealth
  | Emit (obs : Observation) : workerE (result str unit)
  | ReportGap (reason : str) : workerE unit
  | Now : workerE time.

Definition when (b : bool) (p : prog workerE unit) : prog workerE unit := if b then p else Ret tt.

(** ** Evaluation *)

Fixpoint record_all (results : list PolicyResult) : prog workerE unit :=
  match results with
  | [] => Ret tt
  | res :: results => let! _ := call (RecordDecision res) in record_all results
  end.

Definition evaluate (en : EngineConfig) (obs : Observation) (ws : gmap string policyWindow) :
    prog workerE (gmap string policyWindow) :=
  let! (results, ws) := translate (@Engine_) (Evaluate en obs ws) in
  match results with
  | Err _ => Ret ws
  | Ok results => let! _ := record_all results in Ret ws
  end.

(** ** Alerts *)

Section alerts.
(** What an evaluation is, with the state it carries. *)
Context {St : Type} (evaluate : Observation → St → prog workerE St).
Context (unmarshal : str → option Observation) (encode : Cursor → result str str) (decode_cursor : str → result str Cursor).
Context (alerts : Client) (cursors : CursorStore.ConfigMapStore).

Fixpoint rows_loop (rows : list Row) (cursor : Cursor) (st : St) : prog workerE (Cursor * St) :=
  match rows with
  | [] => Ret (cursor, st)
  | row :: rows =>
      if Handled cursor (row_ID row) then rows_loop rows cursor st else
      match row_Observation row with
      | None => rows_loop rows (Advance cursor (row_Timestamp row) (row_ID row)) st
      | Some obs =>
          let! st := evaluate obs st in
          rows_loop rows (Advance cursor (row_Timestamp row) (row_ID row)) st
      end
  end.

Definition disconnected_alerts : SourceHealth :=
  mkSourceHealth false Status.ReasonSourceDisconnected "the alert query did not answer".
Definition connected_alerts : SourceHealth := mkSourceHealth true "" "".

(** The error, the cursor it leaves, and the state. *)
Definition pollAlerts (cursor : Cursor) (st : St) : prog workerE (option str * Cursor * St) :=
  let! now := call Now in
  let '(start, gap) := Resume cursor now alertOverlap maxAlertLookback in
  let! _ := when gap (call (ReportGap gapCursorLost)) in
  let! result := translate (@Loki_) (Alerts unmarshal alerts start now) in
  match result with
  | Err e =>
      let! _ := call (SetAlertHealth disconnected_alerts) in
      let! _ := call (ReportGap gapQueryFailed) in
      Ret (Some e, cursor, st)
  | Ok result =>
      let! _ := call (SetAlertHealth connected_alerts) in
      let! (cursor, st) := rows_loop (r_Rows result) cursor st in
      let cursor := Prune cursor alertOverlap in
      let! err := translate (@Cm_) (Save encode cursors cursor) in
      Ret (err, cursor, st)
  end.

Fixpoint poll_loop (ticks : nat) (cursor : Cursor) (st : St) : prog workerE (Cursor * St) :=
  let! (_, cursor, st) := pollAlerts cursor st in
  match ticks with
  | O => Ret (cursor, st)
  | S ticks => poll_loop ticks cursor st
  end.

(** A cursor that cannot be read is the zero cursor. *)
Definition runAlerts (ticks : nat) (st : St) : prog workerE (Cursor * St) :=
  let! cursor := translate (@Cm_) (Load decode_cursor cursors) in
  poll_loop ticks (match cursor with Ok c => c | Err _ => zero_cursor end) st.

End alerts.

(** ** Flows *)

(** What the stream's handler does with one flow. *)
Definition handleFlow (en : EngineConfig) (obs : Observation) (ws : gmap string policyWindow) :
    prog workerE (result str unit * gmap string policyWindow) :=
  let! res := call (Emit obs) in
  match res with
  | Err e => Ret (Err e, ws)
  | Ok _ => let! ws := evaluate en obs ws in Ret (Ok tt, ws)
  end.

(** ** Status *)

Definition wider (widest : duration) (p : CapturePolicy) : duration :=
  match cpt_HubbleDrop (trigger p) with
  | Some t =>
      if negb (armed p) then widest else
      match hdt_Threshold t with
      | Some th => if widest <? dt_Window th then dt_Window th else widest
      | None => widest
      end
  | None => widest
  end.

Definition widestThresholdWindow (policies : list CapturePolicy) : duration := foldl wider 0 policies.

Definition refreshReplayWindow (namespace : str) : prog workerE unit :=
  let! policies := call (ListArmed namespace) in
  match policies with
  | Err _ => Ret tt
  | Ok policies => call (SetReplayWindow (widestThresholdWindow policies))
  end.

Definition drops_disconnected : SourceHealth :=
  mkSourceHealth false Status.ReasonSourceDisconnected "the Hubble flow stream is not connected".
Definition drops_unsafe : SourceHealth :=
  mkSourceHealth true Status.ReasonSourceGap "the Hubble replay cursor is unavailable".
Definition drops_connected : SourceHealth := mkSourceHealth true "" "".

Definition sourceHealth : prog workerE (CaptureTriggerType → option SourceHealth) :=
  let! alerts := call AlertHealth in
  let! connected := call FlowsConnected in
  let! drops :=
    (if negb connected then Ret drops_disconnected else
     let! safe := call FlowsReplaySafe in
     Ret (if negb safe then drops_unsafe else drops_connected)) in
  Ret (λ t, match t with CaptureTriggerSuricataAlert => Some alerts | CaptureTriggerHubbleDrop => Some drops end).

Section status.
Context (quote : str → str) (namespace : str) (heartbeat : Witness.Heartbeat).

Definition flush_status : prog workerE (list str) :=
  let! health := sourceHealth in
  translate (@Tracker_) (Flush quote namespace health).

(** One turn of [runStatus]. *)
Definition status_pass : prog workerE unit :=
  let! _ := refreshReplayWindow namespace in
  let! errs := flush_status in
  match errs with
  | [] => let! _ := translate (@Heartbeat_) (Witness.Renew heartbeat) in Ret tt
  | _ => Ret tt
  end.

Fixpoint runStatus (ticks : nat) : prog workerE unit :=
  let! _ := status_pass in
  match ticks with O => Ret tt | S ticks => runStatus ticks end.

(** What [Start] does once the loops have ended. *)
Definition final_flush : prog workerE unit := let! _ := flush_status in Ret tt.

End status.

(** ** What a poll evaluates

    The loop over an answer, without its effects: the rows it evaluates and the
    cursor it leaves. *)
Fixpoint plan (c : Cursor) (rows : list Row) : list Row * Cursor :=
  match rows with
  | [] => ([], c)
  | row :: rows =>
      if Handled c (row_ID row) then plan c rows else
      let '(l, c') := plan (Advance c (row_Timestamp row) (row_ID row)) rows in
      (match row_Observation row with Some _ => row :: l | None => l end, c')
  end.

(** One poll at a moment, with the rows of its answer or none. *)
Definition poll (c : Cursor) (p : time * option (list Row)) : list Row * Cursor :=
  match p.2 with
  | None => ([], c)
  | Some rows => let '(l, c') := plan c rows in (l, Prune c' alertOverlap)
  end.

Fixpoint polls (c : Cursor) (ps : list (time * option (list Row))) : list Row * Cursor :=
  match ps with
  | [] => ([], c)
  | p :: ps => let '(l, c') := poll c p in let '(l', c'') := polls c' ps in (l ++ l', c'')
  end.

Fixpoint evaluate_rows {St} (evaluate : Observation → St → prog workerE St) (rows : list Row) (st : St) : prog workerE St :=
  match rows with
  | [] => Ret st
  | row :: rows =>
      match row_Observation row with
      | Some obs => let! st := evaluate obs st in evaluate_rows evaluate rows st
      | None => evaluate_rows evaluate rows st
      end
  end.

Lemma rows_loop_plan {St} (evaluate : Observation → St → prog workerE St) rows c st :
  rows_loop evaluate rows c st ≈
  (let! st := evaluate_rows evaluate (plan c rows).1 st in Ret ((plan c rows).2, st)).
Proof.
  revert c st. induction rows as [|row rows IH]; intros c st; [reflexivity|]. cbn [rows_loop plan].
  destruct (Handled c (row_ID row)); [apply IH|]. specialize (IH (Advance c (row_Timestamp row) (row_ID row))).
  destruct (plan (Advance c (row_Timestamp row) (row_ID row)) rows) as [l c'].
  destruct (row_Observation row) as [obs|] eqn:Eo; [|apply IH]. cbn [fst snd evaluate_rows] in *. rewrite Eo.
  rewrite bind_assoc. f_equiv. intros st'. apply IH.
Qed.

Lemma Handled_true c id : Handled c id = true ↔ cu_seen c !! id ≠ None.
Proof. unfold Handled. rewrite is_Some_b_spec. destruct (cu_seen c !! id); naive_solver. Qed.

Lemma Advance_seen c t id id' : cu_seen c !! id' ≠ None → cu_seen (Advance c t id) !! id' ≠ None.
Proof. simpl. destruct (decide (id = id')) as [->|]; [by rewrite lookup_insert_eq|by rewrite lookup_insert_ne]. Qed.

Lemma Advance_later c t id : cu_Timestamp c ≤ cu_Timestamp (Advance c t id) ∧ t ≤ cu_Timestamp (Advance c t id).
Proof. simpl. unfold t_after. destruct (Z.ltb_spec (cu_Timestamp c) t); lia. Qed.

Lemma Resume_start c now :
  is_zero (cu_Timestamp c) = false → cu_Timestamp c - alertOverlap ≤ (Resume c now alertOverlap maxAlertLookback).1.
Proof.
  intros Hz. unfold Resume, QueryStart, t_before, t_add. rewrite Hz.
  destruct (Z.ltb_spec (cu_Timestamp c + - alertOverlap) (now + - maxAlertLookback)); simpl; lia.
Qed.

(** ** Once

    [ts_of] is the moment a row's identity belongs to. *)
Section once.
Context (ts_of : str → time).

(** Nothing older than the query's [start], and an identity means one moment. *)
Definition answers_from (start : time) (rows : list Row) : Prop :=
  Forall (λ r, row_Timestamp r = ts_of (row_ID r) ∧ start ≤ row_Timestamp r ∧ 0 < row_Timestamp r) rows.

(** What was done within the overlap is still known. *)
Definition knows (from : time) (c : Cursor) (done : list str) : Prop :=
  ∀ id, id ∈ done → from ≤ ts_of id → cu_seen c !! id = Some (ts_of id).

Lemma Advance_knows from c done row :
  row_Timestamp row = ts_of (row_ID row) → knows from c done →
  knows from (Advance c (row_Timestamp row) (row_ID row)) (row_ID row :: done).
Proof.
  intros Ht Hk id Hid Hfrom. simpl. destruct (decide (row_ID row = id)) as [<-|Hne].
  - by rewrite lookup_insert_eq, Ht.
  - rewrite lookup_insert_ne by done. apply Hk; [|done]. set_solver.
Qed.

(** A plan evaluates nothing twice, forgets nothing and goes forward. *)
Lemma plan_once from rows : ∀ c done,
  answers_from from rows → knows from c done →
  let '(l, c') := plan c rows in
  NoDup (row_ID <$> l) ∧ (∀ r, r ∈ l → row_ID r ∉ done ∧ r ∈ rows ∧ row_Timestamp r ≤ cu_Timestamp c') ∧
  knows from c' ((row_ID <$> l) ++ done) ∧ cu_Timestamp c ≤ cu_Timestamp c' ∧
  (∀ id, cu_seen c !! id ≠ None → cu_seen c' !! id ≠ None) ∧
  ∀ r, r ∈ rows → cu_seen c' !! row_ID r ≠ None ∧
    (row_Timestamp r ≤ cu_Timestamp c' ∨ cu_seen c !! row_ID r ≠ None).
Proof.
  induction rows as [|row rows IH]; intros c done Hans Hk; cbn [plan].
  { split_and!; [constructor|set_solver|done|lia|done|set_solver]. }
  apply Forall_cons in Hans as [(Ht & Hge & _) Hans].
  destruct (Handled c (row_ID row)) eqn:Eh.
  { apply Handled_true in Eh. specialize (IH c done Hans Hk). destruct (plan c rows) as [l c'].
    destruct IH as (H1 & H2 & H3 & H4 & H5 & H6). split_and!; try done.
    - intros r Hr. destruct (H2 r Hr) as (? & ? & ?). split_and!; [done|by right|done].
    - intros r [->|Hr]%elem_of_cons; [split; [by apply H5|by right]|by apply H6]. }
  assert (row_ID row ∉ done) as Hnew.
  { intros Hin. assert (Handled c (row_ID row) = true) by (apply Handled_true; rewrite Hk; [done..|by rewrite <-Ht]). congruence. }
  destruct (Advance_later c (row_Timestamp row) (row_ID row)) as [Hl1 Hl2].
  pose proof (Advance_knows from c done row Ht Hk) as Hk'.
  pose proof (λ id, Advance_seen c (row_Timestamp row) (row_ID row) id) as Hs.
  set (c1 := Advance c (row_Timestamp row) (row_ID row)) in *.
  specialize (IH c1 (row_ID row :: done) Hans Hk'). destruct (plan c1 rows) as [l c'].
  destruct IH as (H1 & H2 & H3 & H4 & H5 & H6).
  assert (cu_seen c' !! row_ID row ≠ None) as Hrow.
  { apply H5. unfold c1. simpl. by rewrite lookup_insert_eq. }
  assert (∀ r, r ∈ row :: rows → cu_seen c' !! row_ID r ≠ None ∧
    (row_Timestamp r ≤ cu_Timestamp c' ∨ cu_seen c !! row_ID r ≠ None)) as H7.
  { intros r [->|Hr]%elem_of_cons; [split; [done|left; lia]|]. destruct (H6 r Hr) as [? Hor]. split; [done|].
    destruct Hor as [?|Hor]; [by left|]. destruct (decide (row_ID r = row_ID row)) as [He|He].
    - left. rewrite Forall_forall in Hans. destruct (Hans r Hr) as (-> & _). rewrite He, <-Ht. lia.
    - right. revert Hor. unfold c1. simpl. by rewrite lookup_insert_ne. }
  destruct (row_Observation row) as [obs|]; (split_and!; [| | |lia|by auto|exact H7]).
  - rewrite fmap_cons. apply NoDup_cons. split; [|done]. intros (r & Hr & Hin)%list_elem_of_fmap.
    destruct (H2 r Hin) as [Hd _]. rewrite Hr in Hd. apply Hd. left.
  - intros r [->|Hr]%elem_of_cons; [split_and!; [done|left|lia]|]. destruct (H2 r Hr) as (? & ? & ?). split_and!; [set_solver|by right|done].
  - intros id Hid. apply H3. rewrite fmap_cons in Hid. set_solver.
  - done.
  - intros r Hr. destruct (H2 r Hr) as (? & ? & ?). split_and!; [set_solver|by right|done].
  - intros id Hid. apply H3. set_solver.
Qed.

(** Between polls: everything evaluated within the overlap is known. *)
Definition caught_up (c : Cursor) (done : list str) : Prop :=
  knows (cu_Timestamp c - alertOverlap) c done ∧ (done ≠ [] → 0 < cu_Timestamp c).

Lemma Prune_knows from c done :
  from ≤ cu_Timestamp c - alertOverlap → knows from c done → knows (cu_Timestamp c - alertOverlap) (Prune c alertOverlap) done.
Proof.
  intros Hf Hk id Hid Hts. apply map_lookup_filter_Some. split; [apply Hk; [done|lia]|].
  unfold t_before, t_add. simpl. apply Z.ltb_ge. lia.
Qed.

Lemma poll_once c p done :
  match p.2 with
  | Some rows => answers_from (Resume c p.1 alertOverlap maxAlertLookback).1 rows
  | None => True
  end → caught_up c done →
  let '(l, c') := poll c p in
  NoDup (row_ID <$> l) ∧ (∀ r, r ∈ l → row_ID r ∉ done) ∧ caught_up c' ((row_ID <$> l) ++ done).
Proof.
  intros Hans [Hk Hpos]. unfold poll. destruct p as [now [rows|]]; cbn [fst snd] in *.
  2: { split_and!; [constructor|by intros r Hr%not_elem_of_nil|by split]. }
  set (from := Z.min (Resume c now alertOverlap maxAlertLookback).1 (cu_Timestamp c - alertOverlap)).
  assert (knows from c done) as Hfrom.
  { intros id Hid Hts. apply Hk; [done|]. destruct (is_zero (cu_Timestamp c)) eqn:Ez.
    - apply Z.eqb_eq in Ez. assert (0 < cu_Timestamp c) by (apply Hpos; intros ->; by apply not_elem_of_nil in Hid). lia.
    - pose proof (Resume_start c now Ez). lia. }
  assert (answers_from from rows) as Hans'.
  { eapply Forall_impl; [exact Hans|]. simpl. intros r (? & ? & ?). split_and!; [done|lia|done]. }
  pose proof (plan_once from rows c done Hans' Hfrom) as Hp. destruct (plan c rows) as [l c'].
  destruct Hp as (H1 & H2 & H3 & H4 & _ & _). split_and!; [done|intros r Hr; by apply H2|]. split.
  - apply (Prune_knows from c'); [lia|done].
  - intros Hne. simpl. destruct l as [|r l]; [specialize (Hpos Hne); lia|].
    destruct (H2 r) as (_ & Hr & Hts); [left|]. unfold answers_from in Hans'. rewrite Forall_forall in Hans'. destruct (Hans' r Hr) as (_ & _ & ?). lia.
Qed.

Lemma caught_up_perm c done done' : done ≡ₚ done' → caught_up c done → caught_up c done'.
Proof.
  intros Hp [Hk Hpos]. split.
  - intros id Hid. apply Hk. by rewrite Hp.
  - intros Hne. apply Hpos. intros ->. by apply Permutation_nil_l in Hp.
Qed.

Context (unmarshal : str → option Observation).

(** The rows of an answer of Loki to a query from [start]. *)
Definition answered (start : time) (rows : list Row) : Prop :=
  (∃ body limit res, decode unmarshal body limit = Ok res ∧ rows = r_Rows res) ∧
  Forall (λ r, row_Timestamp r = ts_of (row_ID r) ∧ start ≤ row_Timestamp r) rows.

Lemma answered_from start rows : answered start rows → answers_from start rows.
Proof.
  intros [(body & limit & res & Hd & ->) Ha]. apply decode_rows in Hd as [_ Hpos].
  apply Forall_forall. intros r Hr. rewrite Forall_forall in Ha, Hpos. destruct (Ha r Hr). by split_and!; [| |apply Hpos].
Qed.

Fixpoint honest (c : Cursor) (ps : list (time * option (list Row))) : Prop :=
  match ps with
  | [] => True
  | p :: ps =>
      match p.2 with
      | Some rows => answered (Resume c p.1 alertOverlap maxAlertLookback).1 rows
      | None => True
      end ∧ honest (poll c p).2 ps
  end.

Lemma polls_once ps : ∀ c done,
  honest c ps → caught_up c done →
  let '(l, c') := polls c ps in
  NoDup (row_ID <$> l) ∧ (∀ r, r ∈ l → row_ID r ∉ done) ∧ caught_up c' ((row_ID <$> l) ++ done).
Proof.
  induction ps as [|p ps IH]; intros c done Hh Hc; cbn [polls].
  { split_and!; [constructor|by intros r Hr%not_elem_of_nil|done]. }
  destruct Hh as [Hp Hh].
  assert (match p.2 with Some rows => answers_from (Resume c p.1 alertOverlap maxAlertLookback).1 rows | None => True end) as Ha
    by (destruct p.2; [by apply answered_from|done]).
  pose proof (poll_once c p done Ha Hc) as H. destruct (poll c p) as [l c'].
  destruct H as (H1 & H2 & H3). specialize (IH c' _ Hh H3). destruct (polls c' ps) as [l' c''].
  destruct IH as (H4 & H5 & H6). split_and!.
  - rewrite fmap_app. apply NoDup_app. split_and!; [done| |done]. intros id Hid (r & -> & Hr)%list_elem_of_fmap.
    apply (H5 r Hr). apply elem_of_app. by left.
  - intros r [Hr|Hr]%elem_of_app; [by apply H2|]. intros Hd. apply (H5 r Hr). apply elem_of_app. by right.
  - eapply caught_up_perm; [|exact H6]. rewrite fmap_app. by rewrite (assoc_L (++)), (Permutation_app_comm (row_ID <$> l')).
Qed.

End once.

(** ** A full page

    Loki's answer: the first [limit] records from [start] on, of the records
    in order. *)
Definition page (limit : Z) (start : time) (store : list Row) : list Row :=
  take (Z.to_nat limit) (filter (λ r, start ≤ row_Timestamp r) store).

Lemma plan_handled c rows : Forall (λ r, Handled c (row_ID r) = true) rows → plan c rows = ([], c).
Proof. induction 1 as [|r rows Hr _ IH]; simpl; [done|]. by rewrite Hr. Qed.

Lemma page_app limit start base later :
  limit ≤ Z.of_nat (length (filter (λ r, start ≤ row_Timestamp r) base)) → page limit start (base ++ later) = page limit start base.
Proof. intros Hl. unfold page. rewrite filter_app, take_app_le by lia. done. Qed.

(** ** The heartbeat

    Whether the policies were listed, and which calls of the API server have
    failed since. *)
Inductive flush_call := PolicyListing | CaptureListing | TapRead | StatusWrite.
Record attested := mkAttested { at_listed : bool; at_failed : list flush_call }.

Definition answered_by (s : attested) (c : flush_call) (ok : bool) : attested :=
  if ok then s else mkAttested (at_listed s) (c :: at_failed s).

Definition tracker_seen {X} (e : policyE X) : X → attested → attested :=
  match e with
  | PolicyStatus.ListPolicies _ => λ x _, answered_by (mkAttested true []) PolicyListing (is_ok x)
  | ListCaptures _ => λ x s, answered_by s CaptureListing (is_ok x)
  | PolicyStatus.Engine_ e =>
      match e in Engine.engineE X return X → attested → attested with
      | Engine.GetTap _ _ => λ x s, answered_by s TapRead (is_ok x)
      | _ => λ _ s, s
      end
  | UpdateStatus _ => λ x s, answered_by s StatusWrite (is_ok x)
  | _ => λ _ s, s
  end.

(** Any answer, and what it adds. *)
Definition seen (X : Type) (e : workerE X) (s : attested) (x : X) (s' : attested) : Prop :=
  s' = match e in workerE X return X → attested with Tracker_ e => λ x, tracker_seen e x s | _ => λ _, s end x.

(** The policies were listed, and every call since succeeded but the reading of
    a tap, whose failure is a status. *)
Definition attests (s : attested) : Prop := at_listed s = true ∧ Forall (eq TapRead) (at_failed s).

(** The heartbeat speaks only for such a flush. *)
Definition may_beat (X : Type) (e : workerE X) (s : attested) : Prop :=
  match e with Heartbeat_ _ => attests s | _ => True end.

(** At the end of the worker's life it does not speak at all. *)
Definition no_beat (X : Type) (e : workerE X) (s : attested) : Prop :=
  match e with Heartbeat_ _ => False | _ => True end.

Definition tracker_step (X : Type) (e : policyE X) (s : attested) (x : X) (s' : attested) : Prop := seen X (Tracker_ e) s x s'.

Lemma asks_attests X (e : policyE X) s x s' : tracker_step X e s x s' → PolicyLedger.flush_asks e → attests s → attests s'.
Proof.
  intros Hst Ha [Hl Hf]. destruct e as [| | | |X e| | | | |]; try done; unfold tracker_step, seen in Hst; subst; [|by split].
  destruct e; try by split. simpl. destruct x; [by split|]. by split; [|constructor].
Qed.

Lemma flush_loop_attests quote ps batches uses health s :
  attests s →
  wp tracker_step (flush_loop quote ps batches uses health) (λ errs s', errs = [] → attests s') s.
Proof.
  revert s. induction ps as [|p ps IH]; intros s Hs; cbn [flush_loop]; [intros _; exact Hs|].
  destruct (negb _); [by apply IH|]. apply wp_bind.
  apply (PolicyLedger.apply_wp tracker_step _ _ _ _ _ attests); [exact asks_attests|done|].
  intros s1 tap t1 t2 t3 t4 H1 d. split; [intros _; exact (IH _ H1)|]. intros [[]|e] s2 ->; [exact (IH _ H1)|].
  apply wp_bind, wp_any. intros [] s3. apply wp_bind, wp_any. done.
Qed.

Lemma Flush_attests quote namespace health s :
  wp tracker_step (Flush quote namespace health) (λ errs s', errs = [] → attests s') s.
Proof.
  intros ps s1 ->. destruct ps as [ps|e]; cbn; [|done].
  intros jobs s2 ->. destruct jobs as [jobs|e]; cbn; [|done].
  intros batches s3 ->. intros now s4 ->. apply flush_loop_attests. by split.
Qed.

Lemma flush_status_attests quote namespace s :
  wp seen (flush_status quote namespace) (λ errs s', errs = [] → attests s') s.
Proof. apply wp_bind, wp_any. intros health s1. apply wp_translate, Flush_attests. Qed.

Lemma flush_status_obeys may quote namespace s :
  (∀ X (e : workerE X) s, match e with Heartbeat_ _ => True | _ => may X e s end) → obeys seen may (flush_status quote namespace) s.
Proof.
  intros Hm. apply obeys_bind; [|apply wp_any; intros health s1; apply obeys_translate, obeys_any; intros; apply (Hm _ (Tracker_ e))].
  unfold sourceHealth. split; [apply (Hm _ AlertHealth)|]. intros a s1 ->. split; [apply (Hm _ FlowsConnected)|].
  intros c s2 ->. destruct c; [|done]. split; [apply (Hm _ FlowsReplaySafe)|done].
Qed.

Lemma status_pass_obeys quote namespace heartbeat s : obeys seen may_beat (status_pass quote namespace heartbeat) s.
Proof.
  apply obeys_bind; [split; [done|]; intros [ps|e] s1 ->; [split; done|done]|]. apply wp_any. intros [] s1.
  apply obeys_bind; [apply flush_status_obeys; by intros X []|].
  eapply wp_mono; [|apply flush_status_attests]. intros [|err errs] s2 Hs; [|done]. specialize (Hs eq_refl).
  apply obeys_bind; [|by apply wp_any]. apply obeys_translate.
  assert (∀ (p : prog Witness.leaseE (option str)) s, attests s →
    obeys (λ X e, seen X (Heartbeat_ e)) (λ X e, may_beat X (Heartbeat_ e)) p s) as Hp; [|by apply Hp].
  intros p. induction p as [a|X e k IH]; intros s3 H3; [done|]. split; [done|]. intros x s4 ->. by apply IH.
Qed.

(** ** Theorems *)

(** C12: an alert is evaluated once.  The loop over an answer is: evaluate
    the rows of its plan in order, and leave the plan's cursor.  Over any
    sequence of polls, failed ones among them, against answers that hold
    nothing older than was asked for and give an identity one moment, no
    identity is evaluated twice, although every query overlaps the one before;
    and after a poll every row of its answer has been handled. *)
Theorem alerts_evaluated_once unmarshal ts_of c ps :
  honest ts_of unmarshal c ps →
  NoDup (row_ID <$> (polls c ps).1) ∧
  (∀ St (evaluate : Observation → St → prog workerE St) rows c st,
    rows_loop evaluate rows c st ≈
    (let! st := evaluate_rows evaluate (plan c rows).1 st in Ret ((plan c rows).2, st))) ∧
  (∀ now rows row, answered ts_of unmarshal (Resume c now alertOverlap maxAlertLookback).1 rows → row ∈ rows →
    Handled (plan c rows).2 (row_ID row) = true ∧
    (Handled c (row_ID row) = false → row_Timestamp row ≤ cu_Timestamp (poll c (now, Some rows)).2)).
Proof.
  intros Hh. split_and!.
  - assert (caught_up ts_of c []) as Hc by (split; [by intros id Hid%not_elem_of_nil|done]).
    pose proof (polls_once ts_of unmarshal ps c [] Hh Hc) as H. destruct (polls c ps) as [l c']. apply H.
  - intros. apply rows_loop_plan.
  - intros now rows row Ha Hr. apply answered_from in Ha. unfold poll. simpl.
    assert (∀ from, knows ts_of from c []) as Hk by (intros from id Hid; by apply not_elem_of_nil in Hid).
    pose proof (plan_once ts_of _ rows c [] Ha (Hk _)) as Hp. destruct (plan c rows) as [l c'].
    destruct Hp as (_ & _ & _ & _ & _ & Hp).
    destruct (Hp row Hr) as [H1 H2]. split; [by apply Handled_true|]. intros Hn. simpl. destruct H2 as [?|H2]; [done|].
    exfalso. apply Handled_true in H2. congruence.
Qed.

(** a full page of alerts stalls the poll.  When the overlap holds as
    many records as a page, and the page has been handled, every poll reads
    that page again: it evaluates nothing and leaves the cursor where it is,
    whatever alerts were written since, until the lookback of an hour has
    passed the cursor. *)
Theorem full_page_stalls c limit base ps :
  let start := QueryStart c alertOverlap in
  is_zero (cu_Timestamp c) = false → Prune c alertOverlap = c →
  limit ≤ Z.of_nat (length (filter (λ r, start ≤ row_Timestamp r) base)) →
  Forall (λ r, Handled c (row_ID r) = true) (page limit start base) →
  Forall (λ p, p.1 - maxAlertLookback ≤ start) ps →
  Forall (λ p, Resume c p.1 alertOverlap maxAlertLookback = (start, false)) ps ∧
  polls c ((λ p, (p.1, Some (page limit start (base ++ p.2)))) <$> ps) = ([], c).
Proof.
  intros start Hz Hprune Hlen Hhandled Hps. split.
  - eapply Forall_impl; [exact Hps|]. intros [now later] Hnow. unfold Resume. rewrite Hz. fold start.
    unfold t_before, t_add. simpl in *. destruct (Z.ltb_spec start (now + - maxAlertLookback)); [lia|done].
  - induction Hps as [|[now later] ps Hnow _ IH]; [done|]. rewrite fmap_cons. cbn [polls poll fst snd].
    unfold poll. cbn [fst snd]. rewrite page_app, (plan_handled c), Hprune by done. by rewrite IH.
Qed.

(** C13: the heartbeat attests to a flush that worked.  In any number of turns
    of the status loop, whatever is answered, the lease is read and written
    only when the policies were listed in that turn and no call of the flush
    since has failed but the reading of a tap, which the flush takes for a
    state of the policy; and the last flush of a departing leader renews
    nothing. *)
Theorem heartbeat_attests quote namespace heartbeat ticks s :
  obeys seen may_beat (runStatus quote namespace heartbeat ticks) s ∧
  obeys seen no_beat (final_flush quote namespace) s.
Proof.
  split.
  - revert s. induction ticks as [|ticks IH]; intros s; cbn [runStatus]; apply obeys_bind; try apply status_pass_obeys;
      apply wp_any; [done|]. intros []. apply IH.
  - apply obeys_bind; [|by apply wp_any]. apply flush_status_obeys. by intros X [].
Qed.

(** a gap is reported as a connection.  When the flow stream is up but its
    replay cursor could not be loaded or saved, the worker reports the source
    as connected, with the reason SourceGap; the tracker looks at the reason
    only when the source is not connected, so the policy says
    SourceConnected=True and, if nothing else is wrong, Armed. *)
Theorem gap_reported_as_connected quote p use t tap alerts :
  cpt_Type (trigger (po_Policy p)) = CaptureTriggerHubbleDrop → armed (po_Policy p) = true →
  tap_usable p (Ok tap) = true → within_limit p use = true →
  exec (λ X (e : workerE X) (s : unit) x (s' : unit), match e in workerE X return X → Prop with
      | AlertHealth => λ x, x = alerts
      | FlowsConnected => λ x, x = true
      | FlowsReplaySafe => λ x, x = false
      | _ => λ _, True
      end x) sourceHealth tt
    (λ t, match t with CaptureTriggerSuricataAlert => Some alerts | CaptureTriggerHubbleDrop => Some drops_unsafe end) tt ∧
  sh_Reason drops_unsafe = Status.ReasonSourceGap ∧
  let health t := match t with CaptureTriggerSuricataAlert => Some alerts | CaptureTriggerHubbleDrop => Some drops_unsafe end in
  let s := desired_of quote p None use health (Ok tap) t t t t in
  cpst_Phase s = CapturePolicyArmed ∧ says s p Status.TypeSourceConnected true.
Proof.
  intros Ht Ha Htap Hl. split; [|split; [done|]].
  - eapply (exec_vis _ _ _ _ _ alerts tt); [reflexivity|]. eapply (exec_vis _ _ _ _ _ true tt); [reflexivity|].
    eapply (exec_vis _ _ _ _ _ false tt); [reflexivity|]. constructor.
  - intros health s. destruct (desired_reports quote p None use health (Ok tap) t t t t) as (Hp & _ & _ & Hs & _).
    assert (source_up p health = true) as Hup by (unfold source_up, health; by rewrite Ht). rewrite Hup in Hs.
    split; [|exact Hs]. unfold s. rewrite Hp. unfold phase_of. by rewrite Ha, Htap, Hup, Hl.
Qed.

(** ** Examples *)

Lemma gap_reported_as_connected_witness :
  cpst_Phase (desired_of id PolicyLedger.example_policy None Policy.zero_usage
    (λ t, match t with CaptureTriggerSuricataAlert => Some connected_alerts | CaptureTriggerHubbleDrop => Some drops_unsafe end)
    (Ok Engine.example_tap) 0 0 0 0) = CapturePolicyArmed.
Proof.
  destruct (gap_reported_as_connected id PolicyLedger.example_policy Policy.zero_usage 0 Engine.example_tap connected_alerts)
    as (_ & _ & H & _); [reflexivity..|exact H].
Defined.

Definition example_unmarshal (line : str) : option Observation := Some (Policy.example_obs line 0).
Definition example_body : queryRangeResponse := [[[JString "1700000000000000000"; JString "a"]]].
Definition example_row : Row := mkRow (t_of_unix_nano 1700000000000000000) "a" (Some (Policy.example_obs "a" 0)).
Definition example_moment : time := t_of_unix_nano 1700000015000000000.

(** The alert is read by two polls fifteen seconds apart, and by a third that
    fails in between. *)
Definition example_polls : list (time * option (list Row)) :=
  [(example_moment, Some [example_row]); (example_moment + second, None); (example_moment + 15 * second, Some [example_row])].

Lemma example_answered start :
  start ≤ row_Timestamp example_row → answered (λ _, row_Timestamp example_row) example_unmarshal start [example_row].
Proof.
  intros Hs. split; [|by constructor].
  exists example_body, 1000, (mkResult [example_row] [Policy.example_obs "a" 0] 0 false). split; [vm_compute; reflexivity|done].
Qed.

Lemma alerts_evaluated_once_witness :
  (polls zero_cursor example_polls).1 = [example_row] ∧ NoDup (row_ID <$> (polls zero_cursor example_polls).1).
Proof.
  split; [vm_compute; reflexivity|].
  destruct (alerts_evaluated_once example_unmarshal (λ _, row_Timestamp example_row) zero_cursor example_polls) as [H _]; [|exact H].
  split; [|split; [exact Logic.I|split; [|exact Logic.I]]]; apply example_answered;
    apply (bool_decide_unpack _); vm_compute; exact Logic.I.
Defined.

(** Fifty alerts in five seconds, read fifty at a time. *)
Definition example_burst : list Row :=
  (λ n, mkRow (t_of_unix_nano (1700000000000000000 + Z.of_nat n * 100 * millisecond)) (itoa (Z.of_nat n))
    (example_unmarshal (itoa (Z.of_nat n)))) <$> seq 0 50.

Definition example_later : list Row := [mkRow (t_of_unix_nano 1700000101000000000) "later" (example_unmarshal "later")].

Definition after_burst : Cursor := (poll zero_cursor (t_of_unix_nano 1700000100000000000, Some example_burst)).2.

(** The burst is read in one poll; a minute and fifty minutes later the alert
    that followed it is still not seen. *)
Definition example_waits : list (time * list Row) :=
  [(t_of_unix_nano 1700000160000000000, example_later); (t_of_unix_nano 1700003160000000000, example_later)].

Lemma full_page_stalls_witness :
  page 50 (t_of_unix_nano 0) example_burst = example_burst ∧
  polls after_burst ((λ p, (p.1, Some (page 50 (QueryStart after_burst alertOverlap) (example_burst ++ p.2)))) <$> example_waits)
    = ([], after_burst) ∧ Handled after_burst "later" = false.
Proof.
  split; [vm_compute; reflexivity|]. split; [|vm_compute; reflexivity].
  apply (full_page_stalls after_burst 50 example_burst example_waits).
  - vm_compute. reflexivity.
  - vm_compute. reflexivity.
  - apply (bool_decide_unpack _). vm_compute. exact Logic.I.
  - apply (bool_decide_unpack _). vm_compute. exact Logic.I.
  - apply (bool_decide_unpack _). vm_compute. exact Logic.I.
Defined.

End EventWorker.
