(* ===== verification/HubbleReplay.v ===== *)
(** * Replay of the flow stream

    A restarted or reconnected stream asks for an overlap again; the client's
    cursor keeps what it already handled within that overlap.  [relay] is what
    the world around the client holds: the stored cursor, what was handled,
    how far back the open stream was asked to go and the newest flow it sent.
    The relay may send flows out of order, but none further behind the newest
    of its stream than the widest horizon, and none older than was asked for.
    The replay window is zero when a process starts and set by the status loop
    beside the stream, so each reading is any duration between two bounds. *)

From S2P Require Import Prelude GoTime GoString RecordID Sanitize Observation Policy Kube Prog Engine CursorStore Loki Hubble.
From S2P Require Import EventWorker.

Module HubbleReplay.
Import Observation Hubble.

(** ** runFlows

    The stream of the client with the worker's handler, worker.go. *)
Inductive flowsE : Type → Type :=
  | Hubble_ {X} (e : hubbleE X) : flowsE X
  | Worker_ {X} (e : EventWorker.workerE X) : flowsE X.

(** Each call of the client, the handler's being the worker's own. *)
Definition flow_call (en : Engine.EngineConfig) (X : Type) (e : hubbleE X) (ws : gmap string Engine.policyWindow) :
    prog flowsE (X * gmap string Engine.policyWindow) :=
  match e in hubbleE X return prog flowsE (X * gmap string Engine.policyWindow) with
  | Handle obs => translate (@Worker_) (EventWorker.handleFlow en obs ws)
  | e => let! x := call (Hubble_ e) in Ret (x, ws)
  end.

Definition runFlows (n : Normalizer) (valid : Observation → bool) (en : Engine.EngineConfig) (hasStore : bool)
    (streams messages : nat) (ws : gmap string Engine.policyWindow) : prog flowsE (State * gmap string Engine.policyWindow) :=
  interp (flow_call en) (Run n valid hasStore streams messages initial) ws.

(** [rl_kept] is what was handled when the stored cursor was saved. *)
Record relay := mkRelay {
  rl_stored : Cursor;
  rl_kept : list str;
  rl_done : list str;
  rl_since : time;
  rl_newest : time;
}.

Section replay.
(** The bounds of the replay windows read, and the moment of each identity. *)
Context (n : Normalizer) (valid : Observation → bool) (least widest : duration) (ts : str → time).

Definition sent (f : PbFlow) (w w' : relay) : Prop :=
  match pf_Time f with
  | None => w' = w
  | Some t =>
      t = ts (flowID f t) ∧ rl_since w ≤ t ∧ rl_newest w - horizon widest ≤ t ∧
      w' = mkRelay (rl_stored w) (rl_kept w) (rl_done w) (rl_since w) (Z.max (rl_newest w) t)
  end.

(** The environment.  A load that fails tells the client nothing of what its
    predecessors handled. *)
Definition serves (X : Type) (e : hubbleE X) (w : relay) : X → relay → Prop :=
  match e with
  | LoadCursor => λ x w',
      match x with
      | Ok c => c = rl_stored w ∧ w' = mkRelay (rl_stored w) (rl_kept w) (rl_kept w) (rl_since w) (rl_newest w)
      | Err _ => w' = mkRelay (rl_stored w) (rl_kept w) [] (rl_since w) (rl_newest w)
      end
  | SaveCursor c => λ x w',
      w' = if is_ok x then mkRelay c (rl_done w) (rl_done w) (rl_since w) (rl_newest w) else w
  | GetFlows since => λ x w',
      w' = if is_ok x then mkRelay (rl_stored w) (rl_kept w) (rl_done w) (default 0 since) (default 0 since) else w
  | Recv => λ x w', match x with Received (FlowMessage f) => sent f w w' | _ => w' = w end
  | Handle obs => λ x w',
      w' = if is_ok x then mkRelay (rl_stored w) (rl_kept w) (ob_ID obs :: rl_done w) (rl_since w) (rl_newest w) else w
  | ReplayWindow => λ x w', (least ≤ x ≤ widest) ∧ w' = w
  | _ => λ _ w', w' = w
  end.

(** The newest of the flows handled. *)
Definition newest_of (done : list str) : time := foldr (λ id t, Z.max (ts id) t) 0 done.

(** The watermark is that of what was handled, and the cursor remembers all of
    it that the narrowest window reaches back to, each at its moment. *)
Definition covers (watermark : time) (handled : gmap string time) (done : list str) : Prop :=
  (∀ id, id ∈ done → watermark - horizon least ≤ ts id → is_Some (handled !! id)) ∧
  (∀ id t, handled !! id = Some t → t = ts id ∧ t ≤ watermark) ∧
  watermark = newest_of done.

(** What a flow that is handled again must be: beyond the narrowest horizon
    behind the newest one handled, and within the widest. *)
Definition again (obs : Observation) (w : relay) : Prop :=
  ob_ID obs ∈ rl_done w → newest_of (rl_done w) - horizon widest ≤ ob_EventTime obs < newest_of (rl_done w) - horizon least.

(** What the client may do: handle a flow not handled before, or one between the
    horizons, and save a cursor that covers all that was handled, holding
    nothing beyond the widest horizon. *)
Definition once (X : Type) (e : hubbleE X) (w : relay) : Prop :=
  match e with
  | Handle obs => again obs w
  | SaveCursor c =>
      covers (hu_Watermark c) (hu_Handled c) (rl_done w) ∧
      ∀ id t, hu_Handled c !! id = Some t → hu_Watermark c - horizon widest ≤ t
  | _ => True
  end.

(** The stored cursor covers what was handled when it was saved. *)
Definition sound (w : relay) : Prop := covers (hu_Watermark (rl_stored w)) (hu_Handled (rl_stored w)) (rl_kept w).

Definition current (s : State) (w : relay) : Prop := covers (hc_watermark s) (hc_handled s) (rl_done w).

(** The client is not ahead of what the relay was asked for and has sent. *)
Definition abreast (s : State) (w : relay) : Prop :=
  hc_watermark s ≤ Z.max (rl_since w + horizon widest) (rl_newest w).

(** ** Lemmas *)

Lemma covers_empty : covers 0 ∅ [].
Proof. split_and!; [by intros id Hid%not_elem_of_nil|intros id t Hl; exfalso; exact (lookup_empty_Some id t Hl)|done]. Qed.

Lemma horizon_mono x y : x ≤ y → horizon x ≤ horizon y.
Proof. unfold horizon. lia. Qed.

Lemma covers_prune s done window :
  least ≤ window → covers (hc_watermark s) (hc_handled s) done →
  covers (hc_watermark (pruneHandled s window)) (hc_handled (pruneHandled s window)) done.
Proof.
  intros Hw%horizon_mono (Hd & Ht & Hn). split_and!; simpl; [..|done].
  - intros id Hid Hts. destruct (Hd id Hid Hts) as [t Hl]. exists t. apply map_lookup_filter_Some. split; [done|].
    simpl. destruct (Ht _ _ Hl) as [-> _]. unfold t_before, t_add. lia.
  - intros id t [Hl _]%map_lookup_filter_Some. by apply Ht.
Qed.

Lemma covers_remember s done id window :
  least ≤ window ≤ widest → covers (hc_watermark s) (hc_handled s) done →
  let s' := remember_at s window id (ts id) in
  covers (hc_watermark s') (hc_handled s') (id :: done) ∧ hc_watermark s' = Z.max (hc_watermark s) (ts id) ∧
  ∀ id' t, hc_handled s' !! id' = Some t → hc_watermark s' - horizon widest ≤ t.
Proof.
  intros [Hl1 Hu%horizon_mono] (Hd & Ht & Hn). simpl.
  set (s1 := advanceWatermark (with_boundary s (hc_watermark s) (<[id := ts id]> (hc_handled s))) (ts id)).
  assert (hc_watermark s1 = Z.max (hc_watermark s) (ts id)) as Hw.
  { unfold s1, advanceWatermark, t_after. simpl. destruct (Z.ltb_spec (hc_watermark s) (ts id)); lia. }
  split_and!; [|done|].
  - apply (covers_prune s1); [done|]. unfold covers. rewrite Hw. unfold s1. simpl. split_and!.
    + intros id' [->|Hid]%elem_of_cons Hts; [by rewrite lookup_insert_eq|].
      destruct (decide (id = id')) as [->|Hne]; [by rewrite lookup_insert_eq|]. rewrite lookup_insert_ne by done.
      apply Hd; [done|]. lia.
    + intros id' t [[<- <-]|[Hne Hl]]%lookup_insert_Some; [lia|]. destruct (Ht _ _ Hl). lia.
    + rewrite Hn. lia.
  - intros id' t [_ Hb]%map_lookup_filter_Some. simpl in Hb. unfold t_before, t_add in Hb. lia.
Qed.

Lemma resume_abreast s since window w :
  window ≤ widest → resume_at s window = since →
  abreast s (mkRelay (rl_stored w) (rl_kept w) (rl_done w) (default 0 since) (default 0 since)).
Proof.
  intros Hw%horizon_mono <-. unfold abreast, resume_at, is_zero, t_add. simpl.
  assert (0 < horizon widest) by (unfold horizon; assert (0 < replayOverlap) by done; lia).
  destruct (Z.eqb_spec (hc_watermark s) 0); simpl; [lia|].
  destruct (Z.eqb_spec (hc_watermark s + - horizon window) 0); simpl; lia.
Qed.

(** Whatever else a call says leaves the relay as it was. *)
Lemma meets_quiet {X A} (e : hubbleE X) (k : X → prog hubbleE A) Q w :
  (∀ x w', serves X e w x w' → w' = w) → once X e w → (∀ x, meets serves once (k x) Q w) →
  meets serves once (prog_bind (call e) k) Q w.
Proof. intros Hq Hm Hk. apply meets_call; [done|]. by intros x w' ->%Hq. Qed.

Lemma saveCursor_once s w (Q : State → relay → Prop) :
  current s w → (∀ id t, hc_handled s !! id = Some t → hc_watermark s - horizon widest ≤ t) →
  (∀ s' w', hc_watermark s' = hc_watermark s → hc_handled s' = hc_handled s → rl_done w' = rl_done w →
    rl_since w' = rl_since w → rl_newest w' = rl_newest w → Q s' w') →
  meets serves once (saveCursor true s) Q w.
Proof.
  intros Hc Hb HQ. apply meets_call; [by split|]. intros [[]|e] w' ->.
  - cbn. destruct (negb _); by apply HQ.
  - apply meets_quiet; [done..|]. intros []. apply meets_quiet; [done..|]. intros []. by apply HQ.
Qed.

Lemma deliver_once s w obs (Q : option str * State → relay → Prop) :
  current s w → abreast s w → ob_EventTime obs = ts (ob_ID obs) →
  hc_watermark s - horizon widest ≤ ob_EventTime obs → ob_EventTime obs ≤ rl_newest w →
  (∀ r w', current r.2 w' → abreast r.2 w' → Q r w') →
  meets serves once (deliver true s obs) Q w.
Proof.
  intros Hc Ha Ht Hold Hnew HQ. unfold deliver, wasHandled. destruct (is_Some_b _) eqn:Eh; [by apply HQ|].
  apply meets_call.
  { intros Hin. destruct Hc as (Hd & _ & <-). split; [done|]. rewrite Ht. apply Z.nle_gt. intros Hle.
    destruct (Hd _ Hin Hle) as [t Hl]. by rewrite Hl in Eh. }
  intros [[]|e] w' ->; [|by apply HQ]. split; [exact Logic.I|]. intros win w' [Hwin ->]. rewrite Ht.
  destruct (covers_remember s (rl_done w) (ob_ID obs) win Hwin Hc) as (H1 & H2 & H3).
  apply (meets_bind serves once (saveCursor true (remember_at s win (ob_ID obs) (ts (ob_ID obs)))) (λ s, Ret (None, s))).
  apply saveCursor_once; [done..|]. intros s' w' E1 E2 E3 E4 E5. apply HQ; simpl.
  - unfold current. by rewrite E1, E2, E3.
  - unfold abreast. rewrite E1, H2, E4, E5. unfold abreast in Ha. rewrite Ht in Hnew. simpl. lia.
Qed.

Lemma accept_once f w (Q : option Observation → relay → Prop) :
  Q None w →
  (∀ obs t, pf_Time f = Some t → ob_ID obs = flowID f t → ob_EventTime obs = t → Q (Some obs) w) →
  meets serves once (accept n valid f) Q w.
Proof.
  intros HN HS. apply meets_quiet; [done..|]. intros now. unfold Normalize. destruct (pf_Time f) as [t|] eqn:Et.
  - destruct (valid _); [by eapply HS|]. by apply meets_quiet.
  - by apply meets_quiet.
Qed.

Lemma recv_loop_once messages : ∀ s w,
  current s w → abreast s w →
  meets serves once (recv_loop n valid true messages s) (λ r w', current r.2 w') w.
Proof.
  induction messages as [|messages IH]; intros s w Hc Ha; cbn [recv_loop]; [done|].
  apply meets_call; [done|]. intros [[| |f]| |e] w' Hs; simpl in Hs; subst.
  - apply meets_quiet; [done..|]. intros []. by apply IH.
  - by apply IH.
  - assert (current s w') as Hc'.
    { unfold sent in Hs. destruct (pf_Time f); [|by subst]. destruct Hs as (_ & _ & _ & ->). exact Hc. }
    assert (abreast s w') as Ha'.
    { unfold sent in Hs. destruct (pf_Time f); [|by subst]. destruct Hs as (_ & _ & _ & ->). unfold abreast in *. simpl. lia. }
    apply meets_bind, accept_once; [by apply IH|]. intros obs t Et Hid Htime. unfold sent in Hs. rewrite Et in Hs.
    destruct Hs as (Hts & H1 & H2 & Hw'). apply meets_bind, deliver_once; try done.
    + by rewrite Htime, Hid.
    + rewrite Htime. unfold abreast in Ha. lia.
    + rewrite Htime, Hw'. simpl. lia.
    + intros [[e|] s'] w'' Hc'' Ha''; [done|]. by apply IH.
  - done.
  - by apply meets_quiet.
Qed.

Lemma setConnected_once s v w (Q : State → relay → Prop) :
  (∀ s', hc_watermark s' = hc_watermark s → hc_handled s' = hc_handled s → Q s' w) →
  meets serves once (setConnected s v) Q w.
Proof. intros HQ. unfold setConnected. destruct (negb _); [apply meets_quiet; [done..|]; intros []|]; by apply HQ. Qed.

Lemma streamOnce_once messages s w :
  current s w → meets serves once (streamOnce n valid true messages s) (λ r w', current r.2 w') w.
Proof.
  intros Hc. apply meets_quiet; [done..|]. intros [[]|e]; [|done].
  intros. split; [done|]. intros win w' [[_ Hwin] ->]. apply meets_call; [done|]. intros [[]|e] w' ->; [|done]. simpl.
  apply meets_bind, setConnected_once. intros s' E1 E2. apply recv_loop_once; [unfold current; by rewrite E1, E2|].
  unfold abreast. rewrite E1. by apply (resume_abreast s _ win w).
Qed.

Lemma run_loop_once streams messages : ∀ backoff s w,
  current s w → meets serves once (run_loop n valid true streams messages backoff s) (λ s' w', current s' w') w.
Proof.
  induction streams as [|streams IH]; intros backoff s w Hc; cbn [run_loop]; [done|].
  apply meets_quiet; [done..|]. intros [|]; [done|].
  apply meets_bind. assert (∀ w', w' = w → meets serves once (checkReplayable s) (λ _ w', w' = w) w') as Hck.
  { intros w' ->. unfold checkReplayable. destruct (is_zero _); [done|]. apply meets_quiet; [done..|]. intros now.
    destruct (_ <? _); [by apply meets_quiet|done]. }
  eapply meets_mono; [|by apply Hck]. intros _ w' ->.
  apply meets_bind. eapply meets_mono; [|by apply streamOnce_once]. intros [err s1] w1 Hc1. simpl in Hc1.
  apply meets_bind, setConnected_once. intros s2 E1 E2. assert (current s2 w1) as Hc2 by (unfold current; by rewrite E1, E2).
  apply meets_quiet; [done..|]. intros [|]; [done|]. apply meets_quiet; [done..|]. intros [].
  apply meets_quiet; [done..|]. intros [|]; [by apply IH|done].
Qed.

Lemma Run_once streams messages w :
  sound w → meets serves once (Run n valid true streams messages initial) (λ s' w', current s' w') w.
Proof.
  intros Hs. apply meets_bind, meets_call; [done|]. intros [c|e] w1.
  - intros [-> ->]. intros. split; [done|]. intros win w2 [[Hwin _] ->]. apply run_loop_once. by apply covers_prune.
  - intros ->. apply meets_quiet; [done..|]. intros []. apply meets_quiet; [done..|]. intros []. apply run_loop_once.
    apply covers_empty.
Qed.

Lemma once_sound X (e : hubbleE X) w x w' : once X e w → serves X e w x w' → sound w → sound w'.
Proof.
  intros Ho Hs Hw. destruct e; simpl in Hs; try by subst.
  - destruct x; [destruct Hs as [_ ->]|subst]; exact Hw.
  - subst. destruct (is_ok x); [apply Ho|done].
  - subst. by destruct (is_ok x).
  - destruct x as [[| |f]| |]; try by subst. unfold sent in Hs. destruct (pf_Time f); [|by subst]. destruct Hs as (_ & _ & _ & ->). exact Hw.
  - subst. by destruct (is_ok x).
  - by destruct Hs as [_ ->].
Qed.

(** The same for the calls of [runFlows]: a flow is handled once it is
    emitted. *)
Definition worker_relays (X : Type) (e : EventWorker.workerE X) (w : relay) : X → relay → Prop :=
  match e with EventWorker.Emit obs => serves _ (Handle obs) w | _ => λ _ w', w' = w end.

Definition relays (X : Type) (e : flowsE X) (w : relay) : X → relay → Prop :=
  match e with Hubble_ e => serves _ e w | Worker_ e => worker_relays _ e w end.

Definition emits_once (X : Type) (e : flowsE X) (w : relay) : Prop :=
  match e with
  | Hubble_ (Handle _) => False
  | Hubble_ e => once _ e w
  | Worker_ (EventWorker.Emit obs) => again obs w
  | Worker_ _ => True
  end.

(** No flow handled before is emitted. *)
Definition never_again (X : Type) (e : flowsE X) (w : relay) : Prop :=
  match e with Worker_ (EventWorker.Emit obs) => ob_ID obs ∉ rl_done w | _ => True end.

Lemma emits_never_again X (e : flowsE X) w : horizon least = horizon widest → emits_once X e w → never_again X e w.
Proof. intros Heq. destruct e as [X e|X e]; [done|]. destruct e; try done. simpl. unfold again. intros H Hin%H. lia. Qed.

Context (en : Engine.EngineConfig).

Lemma evaluate_keeps obs ws w (Q : gmap string Engine.policyWindow → relay → Prop) :
  (∀ ws', Q ws' w) →
  meets (λ X e, relays X (Worker_ e)) (λ X e, emits_once X (Worker_ e)) (EventWorker.evaluate en obs ws) Q w.
Proof.
  intros HQ. apply meets_bind.
  assert (∀ A (p : prog Engine.engineE A), meets (λ X e, relays X (Worker_ e)) (λ X e, emits_once X (Worker_ e))
    (translate (@EventWorker.Engine_) p) (λ _ w', w' = w) w) as Hp.
  { intros A p. induction p as [a|X e k IH]; [done|]. split; [done|]. by intros x w' ->. }
  eapply meets_mono; [|apply Hp]. intros [[results|e] ws'] w' ->; [|apply HQ]. apply meets_bind.
  assert (meets (λ X e, relays X (Worker_ e)) (λ X e, emits_once X (Worker_ e)) (EventWorker.record_all results) (λ _ w', w' = w) w) as Hr.
  { induction results as [|r results IH]; [done|]. split; [done|]. by intros x w' ->. }
  eapply meets_mono; [|exact Hr]. intros [] w' ->. apply HQ.
Qed.

Lemma meets_translate_worker {A} (p : prog EventWorker.workerE A) Q w :
  meets (λ X e, relays X (Worker_ e)) (λ X e, emits_once X (Worker_ e)) p Q w →
  meets relays emits_once (translate (@Worker_) p) Q w.
Proof. revert w. induction p as [a|X e k IH]; intros w; [done|]. intros [Hm Hk]. split; [done|]. auto. Qed.

Lemma flow_call_once X (e : hubbleE X) w ws :
  once X e w → meets relays emits_once (flow_call en X e ws) (λ r w', serves X e w r.1 w') w.
Proof.
  intros Ho. destruct e; try (by split; [exact Ho|intros x w' Hs]).
  apply meets_translate_worker, meets_call; [exact Ho|]. intros [[]|e] w' Hs; [|exact Hs].
  apply meets_bind, evaluate_keeps. intros ws'. exact Hs.
Qed.

Lemma runFlows_once streams messages ws w :
  sound w → meets relays emits_once (runFlows n valid en true streams messages ws) (λ r w', current r.1 w') w.
Proof. intros Hs. unfold runFlows. eapply meets_interp; [by intros; apply flow_call_once|]. by apply Run_once. Qed.

Lemma emits_sound X (e : flowsE X) w x w' : emits_once X e w → relays X e w x w' → sound w → sound w'.
Proof.
  destruct e as [X e|X e].
  - intros Ho. apply once_sound. by destruct e.
  - destruct e; intros Ho; simpl; try (by intros ->). apply (once_sound _ (Handle obs) w x w'). exact Ho.
Qed.

(** One process, killed anywhere. *)
Definition lives (w w' : relay) : Prop :=
  ∃ streams messages ws p, reached relays (runFlows n valid en true streams messages ws) w p w'.

Lemma lives_sound w w' : lives w w' → sound w → sound w'.
Proof.
  intros (streams & messages & ws & p & Hr) Hs. eapply always_reached; [|exact Hr].
  eapply obeys_always; [apply emits_sound|by eapply meets_obeys, runFlows_once|done].
Qed.

End replay.

(** ** What is reported

    A loss the client has noticed and not reported yet: a named one, or a
    stream that ended. *)
Inductive debt := Clear | Owes (reason : str) | Ended.

(** The debt, the connection as last announced, whether the cursor was loaded,
    and whether the last call of its store succeeded. *)
Record notices := mkNotices { nt_debt : debt; nt_shown : bool; nt_loaded : bool; nt_last : bool }.

Definition with_debt (s : notices) (d : debt) : notices := mkNotices d (nt_shown s) (nt_loaded s) (nt_last s).
Definition end_of_stream : list str := ["stream_error"; "stream_closed"].

Definition pays (reason : str) (d : debt) : bool :=
  match d with
  | Clear => false
  | Owes r => bool_decide (r = reason)
  | Ended => bool_decide (reason ∈ end_of_stream)
  end.

Definition failed (ok : bool) (d : debt) (s : notices) : notices := if ok then s else with_debt s d.

Definition noticed (X : Type) (e : hubbleE X) (s : notices) (x : X) (s' : notices) : Prop :=
  s' = match e in hubbleE X return X → notices with
       | LoadCursor => λ x, failed (is_ok x) (Owes GapCursorUnavailable) (mkNotices (nt_debt s) (nt_shown s) (is_ok x) (is_ok x))
       | SaveCursor _ => λ x, failed (is_ok x) (Owes GapCursorUnavailable) (mkNotices (nt_debt s) (nt_shown s) (nt_loaded s) (is_ok x))
       | Dial | GetFlows _ | Handle _ => λ x, failed (is_ok x) Ended s
       | Recv => λ x,
           match x with
           | Received LostEvents => with_debt s (Owes "relay_lost_events")
           | Received _ => s
           | EndOfStream | ReceiveError _ => with_debt s Ended
           end
       | ContextDone => λ x, if x then with_debt s Clear else s
       | ConnectionChange v => λ _, mkNotices (nt_debt s) v (nt_loaded s) (nt_last s)
       | ReportGap r => λ _, if pays r (nt_debt s) then with_debt s Clear else s
       | _ => λ _, s
       end x.

(** A named loss is reported before anything else is done, and only when there
    is one; the end of a stream before the client waits or dials again, and
    with no flow read meanwhile; the connection is announced while flows are
    read and only then. *)
Definition forthright (X : Type) (e : hubbleE X) (s : notices) : Prop :=
  match e with
  | ReportGap r => pays r (nt_debt s) = true ∨ nt_debt s = Clear ∧ r ∈ GapUnrecoverable :: end_of_stream
  | ConnectionChange v => (∀ r, nt_debt s ≠ Owes r) ∧ nt_shown s = negb v
  | ContextDone => ∀ r, nt_debt s ≠ Owes r
  | Recv => nt_debt s = Clear ∧ nt_shown s = true
  | Dial | Sleep _ => nt_debt s = Clear ∧ nt_shown s = false
  | _ => nt_debt s = Clear
  end.

Section reports.
Context (n : Normalizer) (valid : Observation → bool).

(** The client's flags are what the notices say. *)
Definition agrees (s : State) (w : notices) : Prop :=
  hc_connected s = nt_shown w ∧ hc_cursorLoadFailed s = negb (nt_loaded w) ∧
  hc_cursorHealthy s = nt_loaded w && nt_last w.

Lemma agrees_boundary s w watermark handled : agrees s w → agrees (with_boundary s watermark handled) w.
Proof. done. Qed.

Lemma quiet {X A} (e : hubbleE X) (k : X → prog hubbleE A) Q w :
  (∀ x w', noticed X e w x w' → w' = w) → forthright X e w → (∀ x, meets noticed forthright (k x) Q w) →
  meets noticed forthright (prog_bind (call e) k) Q w.
Proof. intros Hq Hm Hk. apply meets_call; [done|]. by intros x w' ->%Hq. Qed.

Lemma saveCursor_reports s w (Q : State → notices → Prop) :
  agrees s w → nt_debt w = Clear →
  (∀ s' w', agrees s' w' → nt_debt w' = Clear → nt_shown w' = nt_shown w → Q s' w') →
  meets noticed forthright (saveCursor true s) Q w.
Proof.
  intros (H1 & H2 & H3) Hc HQ. apply meets_call; [done|]. intros [[]|e] w' ->.
  - cbn. destruct (hc_cursorLoadFailed s) eqn:El; simpl; apply HQ; try done; rewrite ?Hc; unfold agrees; simpl.
    + destruct (nt_loaded w); [done|]. by rewrite H3.
    + destruct (nt_loaded w); done.
  - apply meets_call; [by left|]. intros [] w' ->. apply quiet; [by intros ?? ->|done|]. intros [].
    apply HQ; [|done..]. unfold agrees. simpl. by rewrite andb_false_r.
Qed.

Lemma deliver_reports s w obs (Q : option str * State → notices → Prop) :
  agrees s w → nt_debt w = Clear →
  (∀ r w', agrees r.2 w' → nt_debt w' = (if r.1 is Some _ then Ended else Clear) → nt_shown w' = nt_shown w → Q r w') →
  meets noticed forthright (deliver true s obs) Q w.
Proof.
  intros Ha Hc HQ. unfold deliver. destruct (wasHandled _ _); [by apply HQ|].
  apply meets_call; [done|]. intros [[]|e] w' ->; [|by apply HQ]. split; [done|]. intros win w' ->.
  apply (meets_bind noticed forthright (saveCursor true (remember_at s win (ob_ID obs) (ob_EventTime obs))) (λ s, Ret (None, s))).
  apply saveCursor_reports; [done..|]. intros s' w' Ha' Hc' Hs'. by apply HQ.
Qed.

Lemma accept_reports f w (Q : option Observation → notices → Prop) :
  nt_debt w = Clear → (∀ o, Q o w) → meets noticed forthright (accept n valid f) Q w.
Proof.
  intros Hc HQ. apply quiet; [by intros ?? ->|done|]. intros now.
  destruct (Normalize n f now) as [obs|e]; [destruct (valid obs); [apply HQ|]|]; (apply quiet; [by intros ?? ->|done|intros []; apply HQ]).
Qed.

(** How a stream leaves the notices: what is owed is the end of the stream, if
    anything. *)
Definition settled (s : State) (w : notices) : Prop := agrees s w ∧ ∀ r, nt_debt w ≠ Owes r.

Lemma recv_loop_reports messages : ∀ s w,
  agrees s w → nt_debt w = Clear → nt_shown w = true →
  meets noticed forthright (recv_loop n valid true messages s) (λ r w', settled r.2 w') w.
Proof.
  assert (∀ s w d, agrees s w → (∀ r, d ≠ Owes r) → settled s (with_debt w d)) as Hset by done.
  induction messages as [|messages IH]; intros s w Ha Hc Hs; cbn [recv_loop]; [split; [done|by rewrite Hc]|].
  apply meets_call; [done|]. intros [[| |f]| |e] w' ->.
  - apply meets_call; [by left|]. intros [] w' ->. by apply IH.
  - by apply IH.
  - apply meets_bind, accept_reports; [done|]. intros [obs|]; [|by apply IH].
    apply meets_bind, deliver_reports; [done..|]. intros [[e|] s'] w'; simpl; intros Ha' Hc' Hs'.
    + split; [done|by rewrite Hc'].
    + apply IH; congruence.
  - by apply Hset.
  - apply meets_call; [done|]. intros [|] w' ->; by apply Hset.
Qed.

Lemma setConnected_reports s v w (Q : State → notices → Prop) :
  settled s w →
  (∀ s' w', settled s' w' → nt_debt w' = nt_debt w → nt_shown w' = v → Q s' w') →
  meets noticed forthright (setConnected s v) Q w.
Proof.
  intros [(H1 & H2 & H3) Hn] HQ. unfold setConnected. destruct (Bool.eqb (hc_connected s) v) eqn:Ev; cbn [negb].
  - apply eqb_prop in Ev. apply HQ; [split; [split; [simpl; congruence|done]|done]|done|congruence].
  - assert (nt_shown w = negb v) as Hv by (rewrite <-H1; destruct (hc_connected s), v; done).
    apply meets_call; [done|]. intros [] w' ->. by apply HQ.
Qed.

Lemma streamOnce_reports messages s w :
  agrees s w → nt_debt w = Clear → nt_shown w = false →
  meets noticed forthright (streamOnce n valid true messages s) (λ r w', settled r.2 w') w.
Proof.
  intros Ha Hc Hs. apply meets_call; [done|]. intros [[]|e] w' ->; [|by split].
  split; [done|]. intros win w' ->. apply meets_call; [done|]. intros [[]|e] w' ->; [|by split].
  apply meets_bind, setConnected_reports; [split; [done|intros r; simpl; by rewrite Hc]|]. intros s' w' [Ha' _] Hc' Hs'.
  apply recv_loop_reports; [done|by rewrite Hc'|done].
Qed.

Lemma run_loop_reports streams messages : ∀ backoff s w,
  agrees s w → nt_debt w = Clear → nt_shown w = false →
  meets noticed forthright (run_loop n valid true streams messages backoff s) (λ s' w', agrees s' w' ∧ nt_debt w' = Clear ∧ nt_shown w' = false) w.
Proof.
  induction streams as [|streams IH]; intros backoff s w Ha Hc Hs; cbn [run_loop]; [done|].
  apply meets_call; [intros r; by rewrite Hc|]. intros [|] w' ->; [done|].
  assert (meets noticed forthright (checkReplayable s) (λ _ w', w' = w) w) as Hck.
  { unfold checkReplayable. destruct (is_zero _); [done|]. apply quiet; [by intros ?? ->|done|]. intros now.
    destruct (_ <? _); [|done]. split; [right; split; [done|left]|]. intros [] w' ->. simpl. by rewrite Hc. }
  apply meets_bind. eapply meets_mono; [|exact Hck]. intros _ w' ->.
  apply meets_bind. eapply meets_mono; [|by apply streamOnce_reports]. intros [err s1] w1 H1.
  apply meets_bind, setConnected_reports; [done|]. intros s2 w2 [Ha2 Hn2] _ Hs2.
  apply meets_call; [done|]. intros [|] w3 ->; [done|].
  assert (∀ reason, reason ∈ end_of_stream → forthright _ (ReportGap reason) w2 ∧
    nt_debt (if pays reason (nt_debt w2) then with_debt w2 Clear else w2) = Clear ∧
    agrees s2 (if pays reason (nt_debt w2) then with_debt w2 Clear else w2) ∧
    nt_shown (if pays reason (nt_debt w2) then with_debt w2 Clear else w2) = false) as Hgap.
  { intros reason Hr. simpl. destruct (nt_debt w2) as [|r|] eqn:Ed; simpl.
    - split_and!; [right; split; [done|by right]|done..].
    - by destruct (Hn2 r).
    - rewrite bool_decide_eq_true_2 by done. split_and!; [by left|done..]. }
  destruct (Hgap (if err is Some _ then "stream_error" else "stream_closed")) as (G1 & G2 & G3 & G4); [destruct err; set_solver|].
  apply meets_call; [exact G1|]. intros [] w3 ->. apply quiet; [by intros ?? ->|done|]. intros [|]; [by apply IH|done].
Qed.

End reports.
(** ** A window set after the load

    The relay of a restart: the cursor loads, the window reads zero the first
    time it is asked for and [wide] afterwards, and the one flow sent is [f]. *)
Definition restarting (c : Cursor) (f : PbFlow) (wide : duration) (X : Type) (e : hubbleE X) (set : bool) : X * bool :=
  match e in hubbleE X return X * bool with
  | LoadCursor => (Ok c, set)
  | SaveCursor _ | Dial | GetFlows _ | Handle _ => (Ok tt, set)
  | Recv => (Received (FlowMessage f), set)
  | ReplayWindow => (if set then wide else 0, true)
  | ContextDone => (false, set)
  | Sleep _ => (true, set)
  | Clock | NormalizerNow => (hu_Watermark c, set)
  | ConnectionChange _ | ReportGap _ | ReportReject _ | CursorError _ _ => (tt, set)
  end.

(** ** Theorems *)

(** C11: a flow reaches the policies once per horizon.  Over any number of
    processes, each killed anywhere or run to its end, whose streams all begin by
    loading the cursor, and whatever replay windows between [least] and
    [widest] they read - zero until the status loop has set one: a flow the
    handler emits although it was emitted before, within the process or before
    the cursor it loaded was saved, is older than the newest one emitted by more
    than the horizon of [least], which is never less than thirty seconds, and by
    no more than that of [widest]; none is when the window does not vary.
    Every cursor saved remembers what was handled within the former, and
    nothing beyond the latter.  The relay may send flows out of order within
    the widest horizon, and any call may fail. *)
Theorem flows_delivered_once n valid least widest ts en streams messages ws w w' :
  sound least ts w → rtc (lives n valid least widest ts en) w w' →
  let process := runFlows n valid en true streams messages ws in
  obeys (relays least widest ts) (emits_once least widest ts) process w' ∧ sound least ts w' ∧
  (horizon least = horizon widest → obeys (relays least widest ts) never_again process w').
Proof.
  intros Hs Hr process. assert (sound least ts w') as Hs' by (induction Hr; eauto using lives_sound).
  assert (obeys (relays least widest ts) (emits_once least widest ts) process w') as Ho
    by by eapply meets_obeys, runFlows_once.
  split_and!; [done..|]. intros Heq. eapply obeys_mono; [|exact Ho]. intros X e w0. by apply emits_never_again.
Qed.

(** lost coverage is said to be lost.  The client reports the relay's
    losses and a cursor it could not load or save before it does anything
    else, and the end of a stream before it waits or dials again; it reports
    neither of the first two otherwise.  It reads flows only while it is
    announced as connected, and waits and dials only while it is not.  When it
    returns nothing is left unreported, and the stream counts as safe to
    replay exactly if the cursor was loaded and the last save succeeded. *)
Theorem gaps_reported n valid streams messages :
  meets noticed forthright (Run n valid true streams messages initial)
    (λ s w, nt_debt w = Clear ∧ nt_shown w = false ∧ ReplaySafe true s = nt_loaded w && nt_last w)
    (mkNotices Clear false true false).
Proof.
  assert (∀ s w, agrees s w → nt_debt w = Clear → nt_shown w = false →
    meets noticed forthright (run_loop n valid true streams messages initialBackoff s)
      (λ s w, nt_debt w = Clear ∧ nt_shown w = false ∧ ReplaySafe true s = nt_loaded w && nt_last w) w) as Hrun.
  { intros s w Ha Hc Hs. eapply meets_mono; [|by apply run_loop_reports]. intros s' w' [(_ & _ & H) [Hd Hs']].
    by split_and!. }
  apply meets_bind, meets_call; [done|]. intros [c|e] w ->.
  - split; [done|]. intros win w ->. by apply Hrun.
  - apply meets_call; [by left|]. intros [] w ->. apply quiet; [by intros ?? ->|done|]. intros []. by apply Hrun.
Qed.

(** a restart forgets what the window was for.  The cursor is pruned when
    it is loaded, before the status loop has set the replay window, so only
    the last thirty seconds of it are kept; the stream then resumes at the
    full window, is sent a flow the cursor held, and hands it to the policies
    again, with the cursor reported as safe to replay throughout. *)
Theorem restart_forgets n c f t wide :
  pf_Time f = Some t → hu_Handled c !! flowID f t = Some t →
  hu_Watermark c - wide ≤ t < hu_Watermark c - replayOverlap → 0 < hu_Watermark c - wide →
  ∃ before between after obs,
    trace (restarting c f wide) (Run n (λ _, true) true 1 1 initial) false =
      before ++ Ev (GetFlows (Some (hu_Watermark c - wide))) (Ok tt) :: between ++ Ev (Handle obs) (Ok tt) :: after ∧
    ob_ID obs = flowID f t ∧
    ReplaySafe true (run (restarting c f wide) (loadCursor true initial) false).1 = true.
Proof.
  intros Ht Hc [Hw Hold] Hpos. assert (0 < replayOverlap) as Ho by done.
  set (s2 := with_health (pruneHandled (with_boundary initial (hu_Watermark c) (hu_Handled c)) 0) true false).
  assert (checkReplayable s2 = let! now := call Clock in
    if maxReplay <? t_sub now (hu_Watermark c) then call (ReportGap GapUnrecoverable) else Ret tt) as Hck.
  { unfold checkReplayable, is_zero. simpl. by rewrite (proj2 (Z.eqb_neq _ _)) by lia. }
  assert (t_sub (hu_Watermark c) (hu_Watermark c) = 0) as Hsub by (unfold t_sub, min_int64, max_int64; lia).
  assert (resume_at s2 wide = Some (hu_Watermark c - wide)) as Hres.
  { unfold resume_at, is_zero, t_add, horizon. simpl. rewrite !(proj2 (Z.eqb_neq _ _)) by lia. f_equal. lia. }
  assert (wasHandled (with_connected s2 true) (flowID f t) = false) as Hwas.
  { unfold wasHandled. destruct (is_Some_b _) eqn:E; [|done]. apply is_Some_b_spec in E as [u Hu]. simpl in Hu.
    apply map_lookup_filter_Some in Hu as [Hu Hk]. rewrite Hc in Hu. simplify_eq. simpl in Hk.
    unfold t_before, t_add, horizon in Hk. lia. }
  set (obs := mkObs SchemaVersion (flowID f t) t (hu_Watermark c) (mkSource SourceHubble (version n)) None
    (mkTarget (nodeName f (no_Node n)) "" (pf_TraceObservationPoint f)) TypeClusterFlow (flowOf f) (cluster_details f)).
  assert (Normalize n f (hu_Watermark c) = Ok obs) as Hn by (unfold Normalize; by rewrite Ht).
  eexists [_; _; _; _; _; _], [_; _; _], _, obs. split; [|done].
  cbn [Run loadCursor run_loop trace prog_bind call restarting negb]. fold s2. rewrite Hck.
  cbn [trace prog_bind call restarting]. rewrite Hsub. change (maxReplay <? 0) with false.
  cbn [trace prog_bind call restarting streamOnce resumePoint]. rewrite Hres.
  unfold setConnected at 1. change (hc_connected s2) with false.
  cbn [trace prog_bind call restarting recv_loop accept negb Bool.eqb]. rewrite Hn.
  cbn [trace prog_bind call restarting]. unfold deliver. change (ob_ID obs) with (flowID f t). rewrite Hwas. reflexivity.
Qed.

(** ** Witnesses *)

Definition example_time : time := Loki.t_of_unix_nano 1700000000000000000.

Definition example_flow : PbFlow :=
  mkPbFlow (Some example_time) "node-1" true "10.0.0.1" "10.0.0.2" "IPv4" (Some (mkPbEndpoint "shop" "cart-0" ["cart"])) None
    (TCP 40000 443) VerdictDropped "TO_ENDPOINT" "INGRESS" None (Some false) "POLICY_DENIED".

Definition example_normalizer : Normalizer := mkNormalizer "1.16" "".
Definition example_id : str := flowID example_flow example_time.

(** A relay that sends the same flow as often as it may, to a client whose
    every other call succeeds. *)
Definition example_relay (window : duration) (X : Type) (e : hubbleE X) (w : relay) : option (X * relay) :=
  match e in hubbleE X return option (X * relay) with
  | LoadCursor => Some (Ok (rl_stored w), mkRelay (rl_stored w) (rl_kept w) (rl_kept w) (rl_since w) (rl_newest w))
  | SaveCursor c => Some (Ok tt, mkRelay c (rl_done w) (rl_done w) (rl_since w) (rl_newest w))
  | Dial => Some (Ok tt, w)
  | GetFlows since => Some (Ok tt, mkRelay (rl_stored w) (rl_kept w) (rl_done w) (default 0 since) (default 0 since))
  | Recv =>
      if (rl_since w <=? example_time) && (rl_newest w - horizon window <=? example_time)
      then Some (Received (FlowMessage example_flow),
        mkRelay (rl_stored w) (rl_kept w) (rl_done w) (rl_since w) (Z.max (rl_newest w) example_time))
      else None
  | Handle obs => Some (Ok tt, mkRelay (rl_stored w) (rl_kept w) (ob_ID obs :: rl_done w) (rl_since w) (rl_newest w))
  | ReplayWindow => Some (window, w)
  | ContextDone => Some (false, w)
  | Sleep _ => Some (true, w)
  | Clock | NormalizerNow => Some (example_time, w)
  | ConnectionChange _ | ReportGap _ | ReportReject _ | CursorError _ _ => Some (tt, w)
  end.

Definition example_flows (window : duration) (X : Type) (e : flowsE X) (w : relay) : option (X * relay) :=
  match e in flowsE X return option (X * relay) with
  | Hubble_ e => example_relay window _ e w
  | Worker_ e =>
      match e in EventWorker.workerE X return option (X * relay) with
      | EventWorker.Emit obs => example_relay window _ (Handle obs) w
      | EventWorker.Engine_ e =>
          match e in Engine.engineE X return option (X * relay) with
          | Engine.ListPolicies _ _ => Some (Ok [], w)
          | _ => None
          end
      | _ => None
      end
  end.

Lemma example_flows_relays window X (e : flowsE X) w x w' :
  0 ≤ window → example_flows window X e w = Some (x, w') →
  relays 0 window (λ _, example_time) X e w x w' ∧ relays window window (λ _, example_time) X e w x w'.
Proof.
  intros Hwin He. destruct e as [X e|X e]; destruct e; simpl in *; try done; try (by simplify_eq);
    try (simplify_eq; split; (split; [lia|done])).
  - destruct (_ && _) eqn:Eb; [|done]. apply andb_prop in Eb as [H1 H2]. simplify_eq. unfold sent. simpl.
    split; (split_and!; [done|lia|lia|done]).
  - destruct e; try done; simplify_eq; by split.
Qed.

Definition empty_relay : relay := mkRelay zero_cursor [] [] 0 0.

(** A process killed after its first flow: emitted, and its cursor saved. *)
Definition example_process : prog flowsE (State * gmap string Engine.policyWindow) :=
  runFlows example_normalizer (λ _, true) Engine.example_engine true 1 2 ∅.

Definition after_first : relay :=
  match advance (example_flows hour) 13 example_process empty_relay with Some (_, w) => w | None => empty_relay end.

Lemma example_lives least :
  least = 0 ∨ least = hour →
  lives example_normalizer (λ _, true) least hour (λ _, example_time) Engine.example_engine empty_relay after_first.
Proof.
  intros Hl. unfold after_first. destruct (advance _ 13 _ _) as [[p w]|] eqn:Ea.
  - exists 1%nat, 2%nat, ∅, p. eapply advance_reached; [|exact Ea].
    intros X e w0 x w1 [H0 H1]%example_flows_relays; [|done]. by destruct Hl as [->| ->].
  - assert (is_Some_b (advance (example_flows hour) 13 example_process empty_relay) = true) as H by (vm_compute; reflexivity).
    by rewrite Ea in H.
Qed.

(** The flow is on the done list of the process that follows, and in its
    cursor. *)
Lemma flows_delivered_once_witness :
  rl_done after_first = [example_id] ∧ hu_Handled (rl_stored after_first) !! example_id = Some example_time ∧
  obeys (relays 0 hour (λ _, example_time)) (emits_once 0 hour (λ _, example_time)) example_process after_first ∧
  obeys (relays hour hour (λ _, example_time)) never_again example_process after_first.
Proof.
  split; [vm_compute; reflexivity|]. split; [vm_compute; reflexivity|]. split.
  - refine (proj1 (flows_delivered_once example_normalizer (λ _, true) 0 hour (λ _, example_time) Engine.example_engine 1 2 ∅
      empty_relay after_first _ _)); [apply covers_empty|].
    eapply rtc_l; [apply example_lives; by left|apply rtc_refl].
  - refine (proj2 (proj2 (flows_delivered_once example_normalizer (λ _, true) hour hour (λ _, example_time) Engine.example_engine 1 2 ∅
      empty_relay after_first _ _)) eq_refl); [apply covers_empty|].
    eapply rtc_l; [apply example_lives; by right|apply rtc_refl].
Defined.

(** The last flow but one of a cursor, a minute behind its watermark, under a
    policy that counts over an hour. *)
Definition example_cursor : Cursor := mkCursor (example_time + minute) {[example_id := example_time]}.

Lemma restart_forgets_witness :
  ∃ before between after obs,
    trace (restarting example_cursor example_flow hour) (Run example_normalizer (λ _, true) true 1 1 initial) false =
      before ++ Ev (GetFlows (Some (example_time + minute - hour))) (Ok tt) :: between ++ Ev (Handle obs) (Ok tt) :: after ∧
    ob_ID obs = example_id ∧
    ReplaySafe true (run (restarting example_cursor example_flow hour) (loadCursor true initial) false).1 = true.
Proof.
  apply (restart_forgets example_normalizer example_cursor example_flow example_time hour).
  - reflexivity.
  - unfold example_cursor. cbn [hu_Handled]. apply lookup_singleton_eq.
  - vm_compute. split; [discriminate|reflexivity].
  - reflexivity.
Defined.

End HubbleReplay.
