(* ===== verification/MirrorController.v ===== *)
(** * The port mirror controller, internal/controller/portmirror_controller.go

    [Reconcile] drives one PortMirror toward its switch.  It is a program over
    the API server, the audit committer, the clocks and the driver the registry
    finds; the three methods of a driver are calls here, and [Driver] is what
    the controller may take from one: the drivers' files prove it of theirs.
    An error is its text, [None] is nil, and a driver's error keeps the
    sentinel [errors.Is] finds. *)

From S2P Require Import Prelude GoTime GoString Sanitize Api Status Fabric.
From S2P Require Import Prog AuditModel Admission PortMirror Kube.

Module MirrorController.
Import AuditModel Kube PortMirror.

Definition portMirrorFinalizer : str := "trawl.cloud/portmirror-revert".
Definition mirrorResyncInterval : duration := 5 * minute.

(** [P] is a driver of the registry. *)
Inductive mirrorE (P : Type) : Type → Type :=
  | GetMirror (namespace name : str) : mirrorE P (result kube_error PortMirror)
  | ListMirrors (namespace : str) : mirrorE P (result kube_error (list PortMirror))
  | UpdateMirror (m : PortMirror) : mirrorE P (result kube_error unit)
  | UpdateMirrorStatus (m : PortMirror) : mirrorE P (result kube_error unit)
  | GetSecret (namespace name : str) : mirrorE P (result kube_error (gmap string string))
  | Observe (p : P) (d : Fabric.Device) : mirrorE P (result Fabric.fabric_error Fabric.State)
  | Configure (p : P) (d : Fabric.Device) (m : Fabric.Mirror) : mirrorE P (result Fabric.fabric_error unit)
  | Revert (p : P) (d : Fabric.Device) : mirrorE P (result Fabric.fabric_error unit)
  | CommitRecord (rec : Record_) : mirrorE P (result str unit)
  | ConditionNow : mirrorE P time
  | MetaNow : mirrorE P time.
Arguments GetMirror {P} namespace name.
Arguments ListMirrors {P} namespace.
Arguments UpdateMirror {P} m.
Arguments UpdateMirrorStatus {P} m.
Arguments GetSecret {P} namespace name.
Arguments Observe {P} p d.
Arguments Configure {P} p d m.
Arguments Revert {P} p d.
Arguments CommitRecord {P} rec.
Arguments ConditionNow {P}.
Arguments MetaNow {P}.

(** [mr_HasAudit] is [r.Audit != nil]; [mr_Actor] is what [r.Actor] answers
    when it is set. *)
Record Reconciler (P : Type) := mkReconciler {
  mr_Providers : gmap string P;
  mr_HasAudit : bool;
  mr_SystemNamespace : str;
  mr_Actor : option Actor;
}.
Arguments mkReconciler {P}.
Arguments mr_Providers {P}.
Arguments mr_HasAudit {P}.
Arguments mr_SystemNamespace {P}.
Arguments mr_Actor {P}.

(** RequeueAfter, and the error. *)
Definition Result : Type := duration * option str.

(** ** Setters for what the controller changes in an object *)

Definition with_status (m : PortMirror) (s : PortMirrorStatus) : PortMirror := mkPortMirror (pm_Meta m) (pm_Spec m) s.

Definition with_finalizers (m : PortMirror) (fs : list str) : PortMirror :=
  let mt := pm_Meta m in
  mkPortMirror
    (mkMeta (m_Name mt) (m_Namespace mt) (m_UID mt) (m_Generation mt) (m_CreationTimestamp mt)
       (m_DeletionTimestamp mt) (m_Annotations mt) fs)
    (pm_Spec m) (pm_Status m).

Definition with_phase (s : PortMirrorStatus) (generation : Z) (p : PortMirrorPhase) (conds : list Condition) :
    PortMirrorStatus :=
  mkStatus generation p (pmt_ObservedSources s) (pmt_ObservedTarget s) (pmt_ObservedDirections s)
    (pmt_DeviceIdentity s) (pmt_LastVerifiedTime s) conds.

Definition generation (m : PortMirror) : Z := m_Generation (pm_Meta m).
Definition uid (m : PortMirror) : str := m_UID (pm_Meta m).

Definition held (m : PortMirror) : bool := bool_decide (portMirrorFinalizer ∈ m_Finalizers (pm_Meta m)).
Definition hold (m : PortMirror) : PortMirror := with_finalizers m (m_Finalizers (pm_Meta m) ++ [portMirrorFinalizer]).
Definition release (m : PortMirror) : PortMirror :=
  with_finalizers m (filter (λ f, f ≠ portMirrorFinalizer) (m_Finalizers (pm_Meta m))).

(** ** Who holds a device *)

Definition olderClaim (other mine : ObjectMeta) : bool :=
  if negb (m_CreationTimestamp other =? m_CreationTimestamp mine)
  then t_before (m_CreationTimestamp other) (m_CreationTimestamp mine)
  else str_ltb (m_UID other) (m_UID mine).

(** The guards of [checkDeviceConflict]'s loop. *)
Definition contends (other mirror : PortMirror) : bool :=
  negb (bool_decide (uid other = uid mirror) || negb (deletion_is_zero (pm_Meta other))) &&
  bool_decide (pms_DeviceRef (pm_Spec other) = pms_DeviceRef (pm_Spec mirror)) &&
  olderClaim (pm_Meta other) (pm_Meta mirror).

Definition find_conflict (mirrors : list PortMirror) (mirror : PortMirror) : option PortMirror :=
  List.find (λ other, contends other mirror) mirrors.

(** ** Reasons and records *)

Definition deviceFailureReason (e : Fabric.fabric_error) : str :=
  match e with
  | Fabric.UnsupportedDevice _ => Status.ReasonDeviceUnsupported
  | Fabric.UntrustedDevice _ => Status.ReasonDeviceUntrusted
  | Fabric.DeviceError _ => Status.ReasonDeviceUnreachable
  end.

Definition deviceConfigureReason (e : Fabric.fabric_error) : str :=
  match e with
  | Fabric.UnsupportedDevice _ => Status.ReasonDeviceUnsupported
  | _ => Status.ReasonDeviceRefused
  end.

(** The condition a failure is recorded under. *)
Definition failed_condition (reason : str) : str :=
  if bool_decide (reason ∈ [Status.ReasonDeviceRefused; Status.ReasonDeviceUnsupported; Status.ReasonDeviceUntrusted;
       Status.ReasonAccepted; Status.ReasonDeviceConflict; Status.ReasonInvalidSpec; Status.ReasonWrongNamespace])
  then Status.TypeMirrorConfigured else Status.TypeDeviceReachable.

Definition defaultActor {P} (r : Reconciler P) : Actor :=
  mkActor ("system:serviceaccount:" +:+ mr_SystemNamespace r +:+ ":trawl-controller-manager") "" [].

Definition decision_step (decision : str) (m : PortMirror) : str := decision +:+ "/" +:+ itoa (generation m).

Definition device_record {P} (r : Reconciler P) (m : PortMirror) (action decision message : str) : Record_ :=
  mkRecord "" 0 action decision "PortMirrorReconcile" message (default (defaultActor r) (mr_Actor r))
    (mkResource "trawl.cloud" "PortMirror" (m_Namespace (pm_Meta m)) (m_Name (pm_Meta m)) (uid m)) ""
    (StableKeyForAutomatic action (uid m) (decision_step decision m)) "" "" 0.

(** fmt's [%v] of a list and of a map of strings. *)
Definition show_list (l : list str) : str := "[" +:+ str_join l " " +:+ "]".
Definition show_map (m : gmap string string) : str :=
  "map[" +:+ str_join ((λ k, k +:+ ":" +:+ default "" (m !! k)) <$> sort_keys (map_to_list m).*1) " " +:+ "]".

(** ** The credential Secret *)

Definition secret_field (data : gmap string string) (key : str) : str := default "" (data !! key).

Definition device_of (data : gmap string string) : Fabric.Device :=
  let f := secret_field data in
  Fabric.mkDevice (f "address") (f "username") (f "password") (f "sshHostKey") (f "sshPrivateKey") (f "ca.crt")
    (bool_decide (f "ca.crt" = "") && bool_decide (f "insecureSkipVerify" = "true")).

Definition missing_fields (provider : str) (d : Fabric.Device) : list str :=
  (if bool_decide (Fabric.dev_Address d = "") then ["address"] else []) ++
  (if bool_decide (Fabric.dev_Username d = "") then ["username"] else []) ++
  (if bool_decide (provider = MirrorProviderMikroTikRouterOS7SSH) then
     (if bool_decide (Fabric.dev_SSHHostKey d = "") then ["sshHostKey"] else []) ++
     (if bool_decide (Fabric.dev_SSHPrivateKey d = "") && bool_decide (Fabric.dev_Password d = "")
      then ["sshPrivateKey or password"] else [])
   else if bool_decide (Fabric.dev_Password d = "") then ["password"] else []).

(** ** The reconciler *)

Section reconcile.
Context {P : Type} (aggregate : list Admission.field_error → str) (quote : str → str).

Abbreviation prog_ := (prog (mirrorE P)) (only parsing).

Definition auditDevice (r : Reconciler P) (m : PortMirror) (action decision message : str) : prog_ (option str) :=
  if negb (mr_HasAudit r) then Ret (Some "no audit committer, so a device change cannot be recorded") else
  let! res := call (CommitRecord (device_record r m action decision message)) in
  Ret match res with Ok _ => None | Err text => Some text end.

Definition recordObservation (m : PortMirror) (observed : Fabric.State) : prog_ PortMirror :=
  let! now := call MetaNow in
  let s := pm_Status m in
  Ret (with_status m
    (mkStatus (pmt_ObservedGeneration s) (pmt_Phase s) (Fabric.st_Sources observed) (Fabric.st_Target observed)
       (Fabric.st_SourceDirections observed)
       (if bool_decide (Fabric.st_Identity observed = "") then pmt_DeviceIdentity s else Fabric.st_Identity observed)
       (Some now) (pmt_Conditions s))).

(** [status.Set] of [status.New], on the object. *)
Definition set_condition (m : PortMirror) (ty : str) (st : ConditionStatus) (reason message : str) : prog_ PortMirror :=
  let! now := call ConditionNow in
  let s := pm_Status m in
  Ret (with_status m (with_phase s (pmt_ObservedGeneration s) (pmt_Phase s)
    (Status.Set_ (pmt_Conditions s) (Status.New Sanitize.String_ now ty st reason message (generation m))))).

Definition set_phase (m : PortMirror) (p : PortMirrorPhase) : PortMirror :=
  with_status m (with_phase (pm_Status m) (pmt_ObservedGeneration (pm_Status m)) p (pmt_Conditions (pm_Status m))).

Definition set_observed (m : PortMirror) : PortMirror :=
  with_status m (with_phase (pm_Status m) (generation m) (pmt_Phase (pm_Status m)) (pmt_Conditions (pm_Status m))).

Definition write_status (m : PortMirror) : prog_ Result :=
  let! res := call (UpdateMirrorStatus m) in
  Ret match res with
      | Ok _ => (mirrorResyncInterval, None)
      | Err e => (0, Some (kube_text e))
      end.

Definition fail (m : PortMirror) (reason cause : str) : prog_ Result :=
  let! m := set_condition (set_observed (set_phase m PortMirrorError)) (failed_condition reason) ConditionFalse reason
              (Sanitize.String_ cause) in
  write_status m.

Definition drift_text (observed : Fabric.State) : str :=
  "the device reports target " +:+ quote (Fabric.st_Target observed) +:+ ", sources " +:+
  show_list (Fabric.st_Sources observed) +:+ " and directions " +:+ show_map (Fabric.st_SourceDirections observed).

Definition report (m : PortMirror) (observed : Fabric.State) (want : Fabric.Mirror) : prog_ Result :=
  let! m := recordObservation (set_observed m) observed in
  let! m := set_condition m Status.TypeDeviceReachable ConditionTrue Status.ReasonDeviceReachable
              (Fabric.st_Identity observed) in
  let! m :=
    if Fabric.Matches observed want then
      set_condition (set_phase m PortMirrorActive) Status.TypeMirrorConfigured ConditionTrue
        Status.ReasonMirrorConfigured "the device reports the requested mirror"
    else
      set_condition (set_phase m PortMirrorDegraded) Status.TypeMirrorConfigured ConditionFalse
        Status.ReasonMirrorDrifted (drift_text observed) in
  write_status m.

(** [device], with the text of its error. *)
Definition device (m : PortMirror) : prog_ (result str Fabric.Device) :=
  let name := pms_DeviceRef (pm_Spec m) in
  let! res := call (GetSecret (m_Namespace (pm_Meta m)) name) in
  Ret match res with
      | Err (NotFound _) => Err ("device Secret " +:+ quote (Sanitize.String_ name) +:+ " does not exist")
      | Err e => Err (kube_text e)
      | Ok data =>
          match missing_fields (pms_Provider (pm_Spec m)) (device_of data) with
          | [] => Ok (device_of data)
          | missing => Err ("device Secret " +:+ quote (Sanitize.String_ name) +:+ " is missing " +:+ show_list missing)
          end
      end.

(** The answer when the caller must stop, nothing when it may go on. *)
Definition checkDeviceConflict (r : Reconciler P) (m : PortMirror) : prog_ (option Result) :=
  let! res := call (ListMirrors (mr_SystemNamespace r)) in
  match res with
  | Err e =>
      let! (_, err) := fail m Status.ReasonDependencyUnavailable
                          ("listing PortMirrors to check for device contention: " +:+ kube_text e) in
      Ret (Some (mirrorResyncInterval, err))
  | Ok mirrors =>
      match find_conflict mirrors m with
      | None => Ret None
      | Some other =>
          let! (_, err) := fail m Status.ReasonDeviceConflict
            ("PortMirror " +:+ m_Namespace (pm_Meta other) +:+ "/" +:+ m_Name (pm_Meta other) +:+
             " already holds device " +:+ quote (Sanitize.String_ (pms_DeviceRef (pm_Spec other))) +:+
             "; a device has one mirror target, " +:+
             "so the older claim keeps it and this resource makes no device changes") in
          Ret (Some (mirrorResyncInterval, err))
      end
  end.

(** From a refused configuration. *)
Definition refused (r : Reconciler P) (p : P) (d : Fabric.Device) (m : PortMirror) (observed : Fabric.State)
    (e : Fabric.fabric_error) : prog_ Result :=
  let! audited := auditDevice r m ActionPortMirrorConfigure DecisionFailed (Sanitize.String_ (Fabric.error_text e)) in
  match audited with
  | Some text => fail m Status.ReasonAuditUnavailable text
  | None =>
      let! latest := call (Observe p d) in
      let observed := match latest with Ok s => s | Err _ => observed end in
      let! m := recordObservation m observed in
      fail m (deviceConfigureReason e)
        (Fabric.error_text e +:+ "; last observed target " +:+ quote (Fabric.st_Target observed) +:+ ", sources " +:+
         show_list (Fabric.st_Sources observed) +:+ " and directions " +:+ show_map (Fabric.st_SourceDirections observed))
  end.

(** From a device that does not have the mirror. *)
Definition correct (r : Reconciler P) (p : P) (d : Fabric.Device) (m : PortMirror) (observed : Fabric.State) :
    prog_ Result :=
  let want := mirror_of (pm_Spec m) in
  let! audited := auditDevice r m ActionPortMirrorConfigure DecisionAllowed "configuring the device mirror" in
  match audited with
  | Some text => fail m Status.ReasonAuditUnavailable text
  | None =>
      let! configured := call (Configure p d want) in
      match configured with
      | Err e => refused r p d m observed e
      | Ok _ =>
          let! res := call (Observe p d) in
          match res with
          | Err e => fail m (deviceFailureReason e) (Fabric.error_text e)
          | Ok observed =>
              let! audited := auditDevice r m ActionPortMirrorConfigure DecisionSucceeded
                                "the device reports the requested mirror" in
              match audited with
              | Some text => fail m Status.ReasonAuditUnavailable text
              | None => report m observed want
              end
          end
      end
  end.

(** From the finalizer on. *)
Definition drive (r : Reconciler P) (m : PortMirror) : prog_ Result :=
  match ValidatePortMirrorSpec (pm_Spec m) with
  | (_ :: _) as errs => fail m Status.ReasonInvalidSpec (aggregate errs)
  | [] =>
      match Fabric.GetProvider quote (mr_Providers r) (pms_Provider (pm_Spec m)) with
      | Err text => fail m Status.ReasonAccepted text
      | Ok p =>
          let! dev := device m in
          match dev with
          | Err text => fail m Status.ReasonCredentialMissing text
          | Ok d =>
              let! res := call (Observe p d) in
              match res with
              | Err e => fail m (deviceFailureReason e) (Fabric.error_text e)
              | Ok observed =>
                  if Fabric.Matches observed (mirror_of (pm_Spec m)) then report m observed (mirror_of (pm_Spec m))
                  else correct r p d m observed
              end
          end
      end
  end.

(** The device half of [revert]: the error that stopped it, if any, or the
    audit failure that ends the pass at once. *)
Definition revert_device (r : Reconciler P) (m : PortMirror) : prog_ (result str (option Fabric.fabric_error)) :=
  match Fabric.GetProvider quote (mr_Providers r) (pms_Provider (pm_Spec m)) with
  | Err text => Ret (Ok (Some (Fabric.DeviceError text)))
  | Ok p =>
      let! dev := device m in
      match dev with
      | Err text => Ret (Ok (Some (Fabric.DeviceError text)))
      | Ok d =>
          let! audited := auditDevice r m ActionPortMirrorRevert DecisionAllowed "removing the device mirror" in
          match audited with
          | Some text => Ret (Err text)
          | None =>
              let! res := call (Revert p d) in
              Ret (Ok match res with Ok _ => None | Err e => Some e end)
          end
      end
  end.

Definition revert (r : Reconciler P) (m : PortMirror) : prog_ Result :=
  if negb (held m) then Ret (0, None) else
  let! res := revert_device r m in
  match res with
  | Err text => Ret (0, Some text)
  | Ok (Some e) =>
      let! audited := auditDevice r m ActionPortMirrorRevert DecisionFailed (Sanitize.String_ (Fabric.error_text e)) in
      match audited with
      | Some text => Ret (0, Some text)
      | None =>
          fail m (deviceFailureReason e)
            ("the device mirror could not be removed, so this resource is kept: " +:+ Fabric.error_text e)
      end
  | Ok None =>
      let! audited := auditDevice r m ActionPortMirrorRevert DecisionSucceeded "the device mirror was removed" in
      match audited with
      | Some text => Ret (0, Some text)
      | None =>
          let! res := call (UpdateMirror (release m)) in
          Ret (0, match res with Ok _ => None | Err e => Some (kube_text e) end)
      end
  end.

Definition Reconcile (r : Reconciler P) (namespace name : str) : prog_ Result :=
  let! found := call (GetMirror namespace name) in
  match found with
  | Err (NotFound _) => Ret (0, None)
  | Err e => Ret (0, Some (kube_text e))
  | Ok m =>
      if negb (bool_decide (m_Namespace (pm_Meta m) = mr_SystemNamespace r)) then
        fail m Status.ReasonWrongNamespace ("PortMirror is only honoured in " +:+ mr_SystemNamespace r)
      else if negb (deletion_is_zero (pm_Meta m)) then revert r m
      else
        let! conflict := checkDeviceConflict r m in
        match conflict with
        | Some res => Ret res
        | None =>
            if held m then drive r m else
            let! res := call (UpdateMirror (hold m)) in
            match res with
            | Err e => Ret (0, Some (kube_text e))
            | Ok _ => drive r (hold m)
            end
        end
  end.

End reconcile.
End MirrorController.
