(* ===== verification/MirrorFleet.v ===== *)
(** * A cluster with a switch

    Port mirrors, their Secrets, a ledger, a clock and one RouterOS switch
    behind both drivers: a handler of the mirror controller's calls that
    answers each from what it holds, runs the drivers on the switch, and drops
    an object under deletion with its last finalizer.  The ledger answers a
    known stable key by comparing contents, as the sink does.  Runs of the
    controller against it are the examples of the theorems. *)

From S2P Require Import Prelude GoTime GoString Sha256 Api Status Fabric RouterOS.
From S2P Require Import Prog Mikrotik MikrotikSSH AuditModel Admission PortMirror Kube MirrorController.

Module MirrorFleet.
Import AuditModel Kube RouterOS PortMirror MirrorController.

Inductive driver := RestDriver | SSHDriver.

Record fleet := mkFleet {
  f_mirrors : list PortMirror;
  f_secrets : gmap string (gmap string string);
  f_ledger : list Record_;
  f_switch : Switch;
  f_now : time;
}.

Definition with_mirrors (f : fleet) (l : list PortMirror) : fleet :=
  mkFleet l (f_secrets f) (f_ledger f) (f_switch f) (f_now f).
Definition with_switch (f : fleet) (s : Switch) : fleet :=
  mkFleet (f_mirrors f) (f_secrets f) (f_ledger f) s (f_now f).
Definition with_record (f : fleet) (rec : Record_) : fleet :=
  mkFleet (f_mirrors f) (f_secrets f) (rec :: f_ledger f) (f_switch f) (f_now f).

Definition gone (m : PortMirror) : bool :=
  negb (deletion_is_zero (pm_Meta m)) && bool_decide (m_Finalizers (pm_Meta m) = []).

Definition store_mirror (m : PortMirror) (l : list PortMirror) : list PortMirror :=
  filter (λ x, gone x = false) ((λ x, if bool_decide (uid x = uid m) then m else x) <$> l).

Definition content (rec : Record_) : str * str * str * str := (r_Action rec, r_Decision rec, r_Message rec, r_Reason rec).

Definition find_record (key : str) (l : list Record_) : option Record_ :=
  List.find (λ rec, bool_decide (r_StableKey rec = key)) l.

Definition fleet_answer (X : Type) (e : mirrorE driver X) (f : fleet) : X * fleet :=
  match e with
  | GetMirror namespace name =>
      (match List.find (λ m, bool_decide (m_Namespace (pm_Meta m) = namespace ∧ m_Name (pm_Meta m) = name)) (f_mirrors f) with
       | Some m => Ok m
       | None => Err (NotFound "not found")
       end, f)
  | ListMirrors namespace => (Ok (filter (λ m, m_Namespace (pm_Meta m) = namespace) (f_mirrors f)), f)
  | UpdateMirror m => (Ok tt, with_mirrors f (store_mirror m (f_mirrors f)))
  | UpdateMirrorStatus m => (Ok tt, with_mirrors f (store_mirror m (f_mirrors f)))
  | GetSecret _ name =>
      (match f_secrets f !! name with Some data => Ok data | None => Err (NotFound "not found") end, f)
  | Observe p d =>
      let '(x, s) :=
        match p with
        | RestDriver => run Mikrotik.device_answer (Mikrotik.Observe (λ _, true) d) (f_switch f)
        | SSHDriver => run MikrotikSSH.device_answer (MikrotikSSH.Observe d) (f_switch f)
        end in (x, with_switch f s)
  | Configure p d m =>
      let '(x, s) :=
        match p with
        | RestDriver => run Mikrotik.device_answer (Mikrotik.Configure (λ s, s) (λ _, true) map_to_list d m) (f_switch f)
        | SSHDriver => run MikrotikSSH.device_answer (MikrotikSSH.Configure (λ s, s) d m) (f_switch f)
        end in (x, with_switch f s)
  | Revert p d =>
      let '(x, s) :=
        match p with
        | RestDriver => run Mikrotik.device_answer (Mikrotik.Revert (λ s, s) (λ _, true) d) (f_switch f)
        | SSHDriver => run MikrotikSSH.device_answer (MikrotikSSH.Revert d) (f_switch f)
        end in (x, with_switch f s)
  | CommitRecord rec =>
      match find_record (r_StableKey rec) (f_ledger f) with
      | Some old => (if bool_decide (content old = content rec) then Ok tt else Err "audit record conflict", f)
      | None => (Ok tt, with_record f rec)
      end
  | ConditionNow => (f_now f, f)
  | MetaNow => (f_now f, f)
  end.

(** One pass over one mirror. *)
Definition example_reconciler : Reconciler driver :=
  mkReconciler {[MirrorProviderMikroTikRouterOS7 := RestDriver; MirrorProviderMikroTikRouterOS7SSH := SSHDriver]}
    true "trawl-system" None.

Definition pass (name : str) : prog (mirrorE driver) Result :=
  Reconcile (λ _, "invalid") (λ s, s) example_reconciler "trawl-system" name.

Definition after (name : str) (f : fleet) : fleet := (run fleet_answer (pass name) f).2.

Definition find_named (name : str) (f : fleet) : option PortMirror :=
  List.find (λ m, bool_decide (m_Name (pm_Meta m) = name)) (f_mirrors f).

Definition phase_of (name : str) (f : fleet) : option PortMirrorPhase := pmt_Phase ∘ pm_Status <$> find_named name f.

(** ** Examples *)

Definition zero_status : PortMirrorStatus := mkStatus 0 PortMirrorUnset [] "" ∅ "" None [].

Definition example_meta (name uid : str) (created : time) : ObjectMeta :=
  mkMeta name "trawl-system" uid 1 created None ∅ [].

Definition example_spec (provider source target : str) : PortMirrorSpec := mkSpec provider "core-switch" [source] target "".

(** Two mirrors of one switch, the second one created an hour later. *)
Definition first_mirror : PortMirror :=
  mkPortMirror (example_meta "first" "u1" hour) (example_spec MirrorProviderMikroTikRouterOS7 "ether1" "ether23") zero_status.
Definition second_mirror : PortMirror :=
  mkPortMirror (example_meta "second" "u2" (2 * hour)) (example_spec MirrorProviderMikroTikRouterOS7 "ether2" "ether24") zero_status.

Definition example_port (id name : str) : Port := mkPort id (mkFlags name false false).

Definition example_switch : Switch :=
  mkSwitch "*0" "switch1" noMirrorTarget
    [example_port "*1" "ether1"; example_port "*2" "ether2"; example_port "*a" "ether23"; example_port "*b" "ether24"].

Definition example_fleet : fleet :=
  mkFleet [first_mirror; second_mirror]
    {["core-switch" := {["address" := "192.0.2.1"; "username" := "trawl"; "password" := "secret";
                         "sshHostKey" := "key"; "sshPrivateKey" := "key"]}]}
    [] example_switch (3 * hour).

(** The object deleted through the API: it keeps its finalizers. *)
Definition delete_mirror (name : str) (f : fleet) : fleet :=
  with_mirrors f
    ((λ m, if bool_decide (m_Name (pm_Meta m) = name) then
        let mt := pm_Meta m in
        mkPortMirror (mkMeta (m_Name mt) (m_Namespace mt) (m_UID mt) (m_Generation mt) (m_CreationTimestamp mt)
          (Some (f_now f)) (m_Annotations mt) (m_Finalizers mt)) (pm_Spec m) (pm_Status m)
      else m) <$> f_mirrors f).

(** ** What the controller does when a device changes hands *)

(** The first mirror was configured and is being deleted; before its pass the
    second one had its own, and then each had another. *)
Definition handed_over : fleet := after "second" (delete_mirror "first" (after "first" example_fleet)).
Definition torn_down : fleet := after "first" handed_over.
Definition repaired : fleet := after "second" torn_down.

(** A device handed over too early is torn down.  A mirror under deletion
    no longer counts as a claim although its finalizer still owes the revert:
    the younger mirror configures the switch and is Active, and the elder's
    revert then removes the younger's mirror from the switch while its status
    goes on saying Active, until the next resync. *)
Theorem handover_torn_down :
  phase_of "second" handed_over = Some PortMirrorActive ∧ sw_Target (f_switch handed_over) = "ether24" ∧
  phase_of "first" torn_down = None ∧ phase_of "second" torn_down = Some PortMirrorActive ∧
  sw_Target (f_switch torn_down) = noMirrorTarget ∧
  Forall (λ p, mirrored (pt_Flags p) = false) (sw_Ports (f_switch torn_down)).
Proof.
  split_and!; [vm_compute; reflexivity..|].
  assert (forallb (λ p, negb (mirrored (pt_Flags p))) (sw_Ports (f_switch torn_down)) = true) as Hf by (vm_compute; reflexivity).
  apply Forall_forall. intros p Hp%list_elem_of_In. rewrite forallb_forall in Hf. by apply negb_true_iff, Hf.
Qed.

(** A corrected drift leaves no record.  A device record's identity is the
    decision and the generation, so of all the changes a mirror makes to its
    switch in one generation the ledger keeps the first: here the switch is
    changed again and the ledger stays as it was. *)
Theorem correction_unrecorded :
  f_switch repaired ≠ f_switch torn_down ∧ sw_Target (f_switch repaired) = "ether24" ∧
  f_ledger repaired = f_ledger torn_down ∧ phase_of "second" repaired = Some PortMirrorActive.
Proof.
  assert (sw_Target (f_switch repaired) = "ether24") as Hr by (vm_compute; reflexivity).
  assert (sw_Target (f_switch torn_down) = noMirrorTarget) as Ht by (vm_compute; reflexivity).
  split_and!; [|exact Hr|vm_compute; reflexivity|vm_compute; reflexivity].
  intros E. rewrite E, Ht in Hr. clear E. discriminate Hr.
Qed.

Lemma fleet_partial {A} (p : prog (mirrorE driver) A) f : partial (λ _ _ _, True) p (trace fleet_answer p f).
Proof. by apply trace_partial. Qed.

End MirrorFleet.
