(* ===== verification/MirrorContract.v ===== *)
(** * What the port mirror controller may do, and when

    [knowledge] is what one pass has been told: the object as it stands, the
    mirrors listed, the device's credentials, the last observation, the records
    the ledger acknowledged and whether the device was reverted.  [may] is the
    contract: a switch is changed only for a valid mirror of the system
    namespace whose finalizer is on record, that no live older mirror of the
    same device precedes, that an observation has just contradicted, and whose
    change the ledger has acknowledged; it is reverted only for a mirror being
    deleted; the finalizer goes only after both the revert and its record; and
    [Active] is written only over an observation that matches. *)

From S2P Require Import Prelude GoTime GoString Api Status Fabric.
From S2P Require Import Prog AuditModel Admission PortMirror Kube MirrorController MirrorFleet.

Module MirrorContract.
Import AuditModel Kube PortMirror MirrorController.

Section contract.
Context {P : Type} (r : Reconciler P).

Record knowledge := mkKnowledge {
  k_mirror : option PortMirror;
  k_listed : option (list PortMirror);
  (** namespace and name of the Secret last read, and the device it describes *)
  k_device : option (str * str * Fabric.Device);
  k_observed : option Fabric.State;
  k_acked : list Record_;
  k_reverted : bool;
}.

Definition start : knowledge := mkKnowledge None None None None [] false.

(** ** What is known after an answer *)

Definition know_mirror (k : knowledge) (m : PortMirror) : knowledge :=
  mkKnowledge (Some m) (k_listed k) (k_device k) (k_observed k) (k_acked k) (k_reverted k).
Definition know_listed (k : knowledge) (l : list PortMirror) : knowledge :=
  mkKnowledge (k_mirror k) (Some l) (k_device k) (k_observed k) (k_acked k) (k_reverted k).
Definition know_device (k : knowledge) (d : str * str * Fabric.Device) : knowledge :=
  mkKnowledge (k_mirror k) (k_listed k) (Some d) (k_observed k) (k_acked k) (k_reverted k).
Definition know_observed (k : knowledge) (s : option Fabric.State) : knowledge :=
  mkKnowledge (k_mirror k) (k_listed k) (k_device k) s (k_acked k) (k_reverted k).
Definition know_acked (k : knowledge) (rec : Record_) : knowledge :=
  mkKnowledge (k_mirror k) (k_listed k) (k_device k) (k_observed k) (rec :: k_acked k) (k_reverted k).
Definition know_reverted (k : knowledge) : knowledge :=
  mkKnowledge (k_mirror k) (k_listed k) (k_device k) None (k_acked k) true.

Definition track (X : Type) (e : mirrorE P X) : X → knowledge → knowledge :=
  match e with
  | GetMirror _ _ => λ x k, match x with Ok m => know_mirror k m | Err _ => k end
  | ListMirrors _ => λ x k, match x with Ok l => know_listed k l | Err _ => k end
  | UpdateMirror m => λ x k, match x with Ok _ => know_mirror k m | Err _ => k end
  | UpdateMirrorStatus m => λ x k, match x with Ok _ => know_mirror k m | Err _ => k end
  | GetSecret namespace name => λ x k,
      match x with Ok data => know_device k (namespace, name, device_of data) | Err _ => k end
  | Observe _ _ => λ x k, match x with Ok s => know_observed k (Some s) | Err _ => k end
  | Configure _ _ _ => λ x k, know_observed k None
  | Revert _ _ => λ x k, match x with Ok _ => know_reverted k | Err _ => know_observed k None end
  | CommitRecord rec => λ x k, match x with Ok _ => know_acked k rec | Err _ => k end
  | ConditionNow | MetaNow => λ _ k, k
  end.

(** ** What is allowed *)

(** A record of this mirror, in this generation. *)
Definition acked (k : knowledge) (m : PortMirror) (action decision : str) : Prop :=
  ∃ rec, rec ∈ k_acked k ∧ r_Action rec = action ∧ r_Decision rec = decision ∧
    r_Resource rec = mkResource "trawl.cloud" "PortMirror" (m_Namespace (pm_Meta m)) (m_Name (pm_Meta m)) (uid m) ∧
    r_StableKey rec = StableKeyForAutomatic action (uid m) (decision_step decision m).

(** The driver and the device are those the mirror names. *)
Definition its_device (k : knowledge) (m : PortMirror) (p : P) (d : Fabric.Device) : Prop :=
  mr_Providers r !! pms_Provider (pm_Spec m) = Some p ∧
  k_device k = Some (m_Namespace (pm_Meta m), pms_DeviceRef (pm_Spec m), d) ∧
  missing_fields (pms_Provider (pm_Spec m)) d = [].

Definition honoured (m : PortMirror) : Prop :=
  m_Namespace (pm_Meta m) = mr_SystemNamespace r ∧ portMirrorFinalizer ∈ m_Finalizers (pm_Meta m).

(** A live claim that no older live claim on the device precedes, among the
    mirrors listed in this pass. *)
Definition claims (k : knowledge) (m : PortMirror) : Prop :=
  deletion_is_zero (pm_Meta m) = true ∧ ∃ l, k_listed k = Some l ∧ find_conflict l m = None.

Definition may_configure (k : knowledge) (p : P) (d : Fabric.Device) (w : Fabric.Mirror) : Prop :=
  ∃ m, k_mirror k = Some m ∧ honoured m ∧ claims k m ∧ its_device k m p d ∧
    ValidatePortMirrorSpec (pm_Spec m) = [] ∧ w = mirror_of (pm_Spec m) ∧
    (∃ s, k_observed k = Some s ∧ Fabric.Matches s w = false) ∧
    acked k m ActionPortMirrorConfigure DecisionAllowed.

Definition may_revert (k : knowledge) (p : P) (d : Fabric.Device) : Prop :=
  ∃ m, k_mirror k = Some m ∧ honoured m ∧ deletion_is_zero (pm_Meta m) = false ∧ its_device k m p d ∧
    acked k m ActionPortMirrorRevert DecisionAllowed.

Definition may_observe (k : knowledge) (p : P) (d : Fabric.Device) : Prop :=
  ∃ m, k_mirror k = Some m ∧ honoured m ∧ claims k m ∧ its_device k m p d.

(** Taking the finalizer, or giving it up. *)
Definition may_update (k : knowledge) (m' : PortMirror) : Prop :=
  ∃ m, k_mirror k = Some m ∧ m_Namespace (pm_Meta m) = mr_SystemNamespace r ∧
    (m' = hold m ∧ claims k m ∨
     m' = release m ∧ deletion_is_zero (pm_Meta m) = false ∧ k_reverted k = true ∧
       acked k m ActionPortMirrorRevert DecisionAllowed ∧ acked k m ActionPortMirrorRevert DecisionSucceeded).

(** Status only; and what it says of the device is what was last observed. *)
Definition may_status (k : knowledge) (m' : PortMirror) : Prop :=
  ∃ m, k_mirror k = Some m ∧ pm_Meta m' = pm_Meta m ∧ pm_Spec m' = pm_Spec m ∧
    pmt_ObservedGeneration (pm_Status m') = generation m ∧
    (pmt_Phase (pm_Status m') = PortMirrorActive →
     ∃ s, k_observed k = Some s ∧ Fabric.Matches s (mirror_of (pm_Spec m)) = true ∧
       pmt_ObservedSources (pm_Status m') = Fabric.st_Sources s ∧
       pmt_ObservedTarget (pm_Status m') = Fabric.st_Target s ∧
       pmt_ObservedDirections (pm_Status m') = Fabric.st_SourceDirections s).

Definition may (X : Type) (e : mirrorE P X) (k : knowledge) : Prop :=
  match e with
  | UpdateMirror m => may_update k m
  | UpdateMirrorStatus m => may_status k m
  | Observe p d => may_observe k p d
  | Configure p d w => may_configure k p d w
  | Revert p d => may_revert k p d
  | _ => True
  end.

(** Nothing is assumed of an answer. *)
Definition any_answer (X : Type) (e : mirrorE P X) (x : X) : Prop := True.

End contract.
Arguments acked k m action decision : clear implicits.

(** ** One live claim per device *)

Lemma olderClaim_irrefl a : olderClaim a a = false.
Proof. unfold olderClaim. rewrite Z.eqb_refl. apply str_ltb_irrefl. Qed.

Lemma olderClaim_trans a b c : olderClaim a b = true → olderClaim b c = true → olderClaim a c = true.
Proof.
  unfold olderClaim, t_before.
  destruct (m_CreationTimestamp a =? m_CreationTimestamp b) eqn:E1,
    (m_CreationTimestamp b =? m_CreationTimestamp c) eqn:E2; simpl.
  - apply Z.eqb_eq in E1, E2. rewrite E1, E2, Z.eqb_refl. apply str_ltb_trans.
  - apply Z.eqb_eq in E1. rewrite E1, E2. done.
  - apply Z.eqb_eq in E2. rewrite <-E2, E1. done.
  - intros H1%Z.ltb_lt H2%Z.ltb_lt. rewrite (proj2 (Z.eqb_neq _ _)) by lia. apply Z.ltb_lt. lia.
Qed.

Lemma olderClaim_total a b : m_UID a ≠ m_UID b → olderClaim a b = true ∨ olderClaim b a = true.
Proof.
  intros Hu. unfold olderClaim, t_before. rewrite (Z.eqb_sym (m_CreationTimestamp b)).
  destruct (m_CreationTimestamp a =? m_CreationTimestamp b) eqn:E; simpl.
  - rewrite (str_ltb_flip (m_UID a) (m_UID b)) by done. destruct (str_ltb _ _); [by left|by right].
  - apply Z.eqb_neq in E. destruct (Z.lt_total (m_CreationTimestamp a) (m_CreationTimestamp b)) as [?|[?|?]];
      [left; by apply Z.ltb_lt|done|right; by apply Z.ltb_lt].
Qed.

Definition live_on (dev : str) (m : PortMirror) : Prop :=
  deletion_is_zero (pm_Meta m) = true ∧ pms_DeviceRef (pm_Spec m) = dev.

Lemma contends_spec other m :
  contends other m = true ↔
  uid other ≠ uid m ∧ live_on (pms_DeviceRef (pm_Spec m)) other ∧ olderClaim (pm_Meta other) (pm_Meta m) = true.
Proof.
  unfold contends, live_on. rewrite !andb_true_iff, negb_true_iff, orb_false_iff, bool_decide_eq_false, negb_false_iff,
    bool_decide_eq_true. naive_solver.
Qed.

Lemma find_conflict_None l m : find_conflict l m = None ↔ ∀ other, other ∈ l → contends other m = false.
Proof.
  unfold find_conflict. split.
  - intros Hf other Hin%list_elem_of_In. by apply (List.find_none _ _ Hf).
  - intros Hall. destruct (List.find _ l) as [o|] eqn:E; [|done].
    apply List.find_some in E as [Hin%list_elem_of_In Hc]. by rewrite Hall in Hc.
Qed.

(** Whatever the list, some live claim on a device is the oldest. *)
Lemma oldest_claim (l : list PortMirror) dev m :
  m ∈ l → live_on dev m → ∃ o, o ∈ l ∧ live_on dev o ∧ ∀ x, x ∈ l → live_on dev x → olderClaim (pm_Meta x) (pm_Meta o) = false.
Proof.
  revert m. induction l as [|a l IH]; intros m Hin Hm; [by apply elem_of_nil in Hin|].
  assert (live_on dev a ∨ ¬ live_on dev a) as Ha.
  { unfold live_on. destruct (deletion_is_zero (pm_Meta a)); [|right; by intros []].
    destruct (decide (pms_DeviceRef (pm_Spec a) = dev)); [by left|right; by intros []]. }
  assert (Hrest : (∃ x, x ∈ l ∧ live_on dev x) ∨ ∀ x, x ∈ l → ¬ live_on dev x).
  { clear -l. induction l as [|b l IHl]; [right; by intros x ?%elem_of_nil|].
    destruct IHl as [(x & Hx & Hl)|Hno]; [left; exists x; split; [by right|done]|].
    destruct (decide (deletion_is_zero (pm_Meta b) = true ∧ pms_DeviceRef (pm_Spec b) = dev)) as [Hb|Hb];
      [left; exists b; split; [left|done]|right; intros x [->|Hx]%elem_of_cons; [done|by apply Hno]]. }
  destruct Hrest as [(x & Hx & Hlx)|Hno].
  - destruct (IH x Hx Hlx) as (o & Ho & Hlo & Hmin). destruct Ha as [Ha|Ha].
    + destruct (olderClaim (pm_Meta a) (pm_Meta o)) eqn:Eao.
      * exists a. split; [left|]. split; [done|]. intros y [->|Hy]%elem_of_cons Hly; [apply olderClaim_irrefl|].
        apply not_true_iff_false. intros Eya. specialize (Hmin y Hy Hly).
        by rewrite (olderClaim_trans _ _ _ Eya Eao) in Hmin.
      * exists o. split; [by right|]. split; [done|]. intros y [->|Hy]%elem_of_cons Hly; [done|by apply Hmin].
    + exists o. split; [by right|]. split; [done|]. intros y [->|Hy]%elem_of_cons Hly; [done|by apply Hmin].
  - apply elem_of_cons in Hin as [->|Hin]; [|by destruct (Hno m)].
    exists a. split; [left|]. split; [done|]. intros y [->|Hy]%elem_of_cons Hly; [apply olderClaim_irrefl|by destruct (Hno y)].
Qed.

(** A device is driven by one mirror.  Whatever mirrors are stored, when
    their UIDs differ and at least one live mirror names a device, exactly one
    of the live mirrors that name it finds no conflict in the list: contention
    neither drives a switch twice nor leaves it to nobody, whichever order the
    API server lists them in and whatever their clocks say. *)
Theorem one_claim_per_device (l : list PortMirror) dev m :
  NoDup (uid <$> l) → m ∈ l → live_on dev m →
  ∃ o, (o ∈ l ∧ live_on dev o ∧ find_conflict l o = None) ∧
    ∀ x, x ∈ l → live_on dev x → find_conflict l x = None → x = o.
Proof.
  intros Hnd Hin Hm. destruct (oldest_claim l dev m Hin Hm) as (o & Ho & Hlo & Hmin). exists o. split.
  - split_and!; [done..|]. apply find_conflict_None. intros x Hx. apply not_true_iff_false.
    intros (Hu & [Hd Hdev] & Hold)%contends_spec. destruct Hlo as [_ Hdo]. rewrite Hdo in Hdev.
    by rewrite Hmin in Hold.
  - intros x Hx Hlx Hf. rewrite find_conflict_None in Hf.
    assert (uid x = uid o) as Eu.
    { destruct (decide (uid x = uid o)) as [|Hne]; [done|]. exfalso.
      destruct (olderClaim_total (pm_Meta o) (pm_Meta x)) as [Hox|Hxo];
        [intros E; by apply Hne| |by rewrite Hmin in Hxo].
      specialize (Hf o Ho). apply not_true_iff_false in Hf. apply Hf, contends_spec.
      split; [congruence|]. destruct Hlx as [_ ->]. done. }
    apply list_elem_of_lookup in Hx as [i Hi], Ho as [j Hj].
    assert (i = j) as ->; [|congruence].
    apply (NoDup_lookup (uid <$> l) i j (uid o) Hnd); rewrite list_lookup_fmap.
    + rewrite Hi. simpl. by rewrite Eu.
    + by rewrite Hj.
Qed.

(** ** The controller keeps the contract *)

Section conforms.
Context {P : Type} (aggregate : list Admission.field_error → str) (quote : str → str) (r : Reconciler P).

Abbreviation ok := (λ p, conforms any_answer (may r) track p (λ _ _, True)) (only parsing).

Lemma ok_then {A B} (p : prog (mirrorE P) A) (f : A → prog (mirrorE P) B) k :
  ok p k → (∀ a k', ok (f a) k') → ok (prog_bind p f) k.
Proof. intros Hp Hf. apply conforms_bind. eapply conforms_mono; [|exact Hp]. intros a k' _. apply Hf. Qed.

(** The same object under another status. *)
Definition restated (m m' : PortMirror) : Prop := pm_Meta m' = pm_Meta m ∧ pm_Spec m' = pm_Spec m.

Lemma mirror_ok_condition {A} m ty st reason msg (f : PortMirror → prog (mirrorE P) A) k :
  (∀ conds, ok (f (with_status m (with_phase (pm_Status m) (pmt_ObservedGeneration (pm_Status m))
     (pmt_Phase (pm_Status m)) conds))) k) →
  ok (prog_bind (set_condition m ty st reason msg) f) k.
Proof. intros Hf. split; [done|]. intros t _. apply Hf. Qed.

Lemma mirror_ok_write m k : may_status k m → ok (write_status (P := P) m) k.
Proof. intros Hm. split; [exact Hm|done]. Qed.

Lemma ok_fail m0 m reason cause k : k_mirror k = Some m0 → restated m0 m → ok (fail (P := P) m reason cause) k.
Proof.
  intros Hk [Hm Hs]. unfold fail. apply mirror_ok_condition. intros conds. apply mirror_ok_write.
  exists m0. split_and!; [done|done|done| |done]. simpl. unfold generation. simpl. by rewrite Hm.
Qed.

(** The object with the observation in its status. *)
Definition observing (m : PortMirror) (s : Fabric.State) (m' : PortMirror) : Prop :=
  restated m m' ∧ pmt_ObservedGeneration (pm_Status m') = pmt_ObservedGeneration (pm_Status m) ∧
  pmt_ObservedSources (pm_Status m') = Fabric.st_Sources s ∧
  pmt_ObservedTarget (pm_Status m') = Fabric.st_Target s ∧
  pmt_ObservedDirections (pm_Status m') = Fabric.st_SourceDirections s.

Lemma ok_observation {A} m s (f : PortMirror → prog (mirrorE P) A) k :
  (∀ m', observing m s m' → ok (f m') k) → ok (prog_bind (recordObservation (P := P) m s) f) k.
Proof. intros Hf. split; [done|]. intros now _. apply Hf. by split_and!. Qed.

Lemma ok_report m s k :
  k_mirror k = Some m → k_observed k = Some s → ok (report (P := P) quote m s (mirror_of (pm_Spec m))) k.
Proof.
  intros Hk Hs. unfold report. apply ok_observation. intros m' ([Hm Hsp] & Hg & H1 & H2 & H3).
  apply mirror_ok_condition. intros conds. destruct (Fabric.Matches s (mirror_of (pm_Spec m))) eqn:Em;
    apply mirror_ok_condition; intros conds'; apply mirror_ok_write; exists m; split_and!; try done.
  intros _. exists s. by split_and!.
Qed.

(** Recording leaves the object and the device as known. *)
Lemma ok_audit {A} m action decision msg (f : option str → prog (mirrorE P) A) k :
  (∀ k', k_mirror k' = k_mirror k → k_listed k' = k_listed k → k_device k' = k_device k → k_observed k' = k_observed k →
     k_reverted k' = k_reverted k → k_acked k ⊆ k_acked k' → acked k' m action decision → ok (f None) k') →
  (∀ text, ok (f (Some text)) k) →
  ok (prog_bind (auditDevice r m action decision msg) f) k.
Proof.
  intros Hf Herr. unfold auditDevice. destruct (mr_HasAudit r); [|apply Herr]. split; [done|].
  intros [u|text] _; [|apply Herr]. apply Hf; try done; [intros x Hx; by right|].
  exists (device_record r m action decision msg). split; [left|done].
Qed.

Lemma mirror_acked_mono k k' m action decision : k_acked k ⊆ k_acked k' → acked k m action decision → acked k' m action decision.
Proof. intros Hsub (rec & Hin & Hrec). exists rec. split; [by apply Hsub|done]. Qed.

(** The device of a mirror, once read. *)
Lemma ok_device {A} m (f : result str Fabric.Device → prog (mirrorE P) A) k :
  (∀ d k', k_mirror k' = k_mirror k → k_listed k' = k_listed k → k_observed k' = k_observed k → k_reverted k' = k_reverted k →
     k_device k' = Some (m_Namespace (pm_Meta m), pms_DeviceRef (pm_Spec m), d) →
     missing_fields (pms_Provider (pm_Spec m)) d = [] → ok (f (Ok d)) k') →
  (∀ text k', k_mirror k' = k_mirror k → ok (f (Err text)) k') →
  ok (prog_bind (device (P := P) quote m) f) k.
Proof.
  intros Hf Herr. split; [done|]. intros [data|e] _; simpl; [|by destruct e; apply Herr].
  destruct (missing_fields _ _) eqn:Em; [by apply Hf|by apply Herr].
Qed.

(** ** Method by method *)

Lemma ok_refused p d m s e k :
  k_mirror k = Some m → may_observe r k p d → ok (refused quote r p d m s e) k.
Proof.
  intros Hk Ho. unfold refused. apply ok_audit; [|intros text; by apply (ok_fail m)].
  intros k' Em El Ed _ _ _ _. split.
  { revert Ho. cbn [may]. unfold may_observe, claims, its_device. by rewrite Em, El, Ed. }
  intros x _. apply ok_observation. intros m' [Hr _]. apply (ok_fail m); [|done].
  destruct x; simpl; congruence.
Qed.

Lemma ok_correct p d m s k :
  k_mirror k = Some m → honoured r m → claims k m → its_device r k m p d → ValidatePortMirrorSpec (pm_Spec m) = [] →
  k_observed k = Some s → Fabric.Matches s (mirror_of (pm_Spec m)) = false →
  ok (correct quote r p d m s) k.
Proof.
  intros Hk Hh Hc Hd Hv Hs Hm. unfold correct. apply ok_audit; [|intros text; by apply (ok_fail m)].
  intros k1 Em El Ed Eo _ _ Hack.
  assert (may_observe r k1 p d) as Hobs.
  { unfold may_observe, claims, its_device in *. rewrite Em, El, Ed. by exists m. }
  split.
  { exists m. unfold claims, its_device in *. rewrite Em, El, Ed, Eo. by eauto 12. }
  intros [u|e] _; [|apply ok_refused; [simpl; congruence|exact Hobs]].
  split; [exact Hobs|]. intros [s'|e] _; [|apply (ok_fail m); [simpl; congruence|done]].
  apply ok_audit; [|intros text; apply (ok_fail m); [simpl; congruence|done]].
  intros k2 Em2 _ _ Eo2 _ _ _. apply ok_report; [|by rewrite Eo2]. rewrite Em2. simpl. congruence.
Qed.

Lemma ok_drive m k : k_mirror k = Some m → honoured r m → claims k m → ok (drive aggregate quote r m) k.
Proof.
  intros Hk Hh Hc. unfold drive. destruct (ValidatePortMirrorSpec (pm_Spec m)) eqn:Ev; [|by apply (ok_fail m)].
  unfold Fabric.GetProvider. destruct (mr_Providers r !! pms_Provider (pm_Spec m)) as [p|] eqn:Ep; [|by apply (ok_fail m)].
  apply ok_device; [|intros text k' Em; apply (ok_fail m); [congruence|done]].
  intros d k1 Em El Eo _ Ed Hmiss.
  assert (claims k1 m) as Hc1 by (unfold claims in *; by rewrite El).
  split.
  { exists m. unfold its_device. rewrite Em, Ed. by eauto 8. }
  intros [s|e] _; [|apply (ok_fail m); [simpl; congruence|done]].
  cbn [prog_bind]. destruct (Fabric.Matches s (mirror_of (pm_Spec m))) eqn:Em'.
  - by apply ok_report; [simpl; congruence|].
  - apply ok_correct; try done. simpl. congruence.
Qed.

Lemma ok_conflict {A} m (f : option Result → prog (mirrorE P) A) k :
  k_mirror k = Some m → deletion_is_zero (pm_Meta m) = true →
  (∀ k', k_mirror k' = Some m → claims k' m → ok (f None) k') → (∀ res k', ok (f (Some res)) k') →
  ok (prog_bind (checkDeviceConflict quote r m) f) k.
Proof.
  intros Hk Hd Hf Hstop. split; [done|]. intros [l|e] _; cbn [prog_bind].
  - destruct (find_conflict l m) as [other|] eqn:Ef.
    + apply conforms_assoc. apply ok_then; [by apply (ok_fail m)|]. intros [t err] k'. apply Hstop.
    + apply Hf; [done|]. split; [done|]. by exists l.
  - apply conforms_assoc. apply ok_then; [by apply (ok_fail m)|]. intros [t err] k'. apply Hstop.
Qed.

Lemma ok_revert m k :
  k_mirror k = Some m → m_Namespace (pm_Meta m) = mr_SystemNamespace r → deletion_is_zero (pm_Meta m) = false →
  ok (revert quote r m) k.
Proof.
  intros Hk Hns Hdel. unfold revert, held. case_bool_decide as Hh; [|done]. cbn [negb].
  apply conforms_bind.
  eapply (conforms_mono _ _ _ _ (λ res k', k_mirror k' = Some m ∧
    (res = Ok None → k_reverted k' = true ∧ acked k' m ActionPortMirrorRevert DecisionAllowed))).
  - intros [[e|]|text] k1 [Em Hr]; [| |done].
    + apply ok_audit; [|done]. intros k2 E2 _ _ _ _ _ _. apply (ok_fail m); [congruence|done].
    + destruct (Hr eq_refl) as [Hrev Hack]. apply ok_audit; [|done]. intros k2 E2 _ _ _ Er Hsub Hack2.
      split; [|done]. exists m. split_and!; [congruence|done|]. right.
      split_and!; [done|done|congruence|by eapply mirror_acked_mono|done].
  - unfold revert_device, Fabric.GetProvider. destruct (mr_Providers r !! _) as [p|] eqn:Ep; [|done].
    split; [done|]. intros [data|e] _; [|by destruct e]. simpl.
    destruct (missing_fields _ _) eqn:Emiss; [|done]. unfold auditDevice.
    destruct (mr_HasAudit r); [|done]. split; [done|]. intros [u|text] _; [|done].
    assert (acked (know_acked (know_device k (m_Namespace (pm_Meta m), pms_DeviceRef (pm_Spec m), device_of data))
      (device_record r m ActionPortMirrorRevert DecisionAllowed "removing the device mirror")) m
      ActionPortMirrorRevert DecisionAllowed) as Hack by (eexists; split; [left|done]).
    split; [exists m; by split_and!|]. intros [u'|e] _; [|done]. split; [done|]. intros _. by split.
Qed.

End conforms.

(** C2: The controller keeps its contract.  Whatever the API server, the
    ledger, the switch and the clock answer, and wherever a pass is cut off:
    a switch is changed only for a valid mirror of the system namespace whose
    finalizer is held, that no older live mirror of that device precedes, after
    an observation that contradicts it and with the change acknowledged by the
    ledger; it is reverted only for a mirror under deletion, again on record;
    the finalizer is released only once the revert succeeded and its outcome
    is on record; the device spoken to is always the one the mirror names; and
    a mirror is reported Active only over what was last observed, and that
    matches. *)
Theorem mirror_refines_contract {P} aggregate quote (r : Reconciler P) namespace name l :
  partial any_answer (Reconcile aggregate quote r namespace name) l → accepts (may r) track start l.
Proof.
  apply (conforms_accepts any_answer (may r) track _ (λ _ _, True)). split; [done|].
  intros [m|e] _; [|by destruct e]. simpl. case_bool_decide as Hns; simpl; [|by apply (ok_fail r m)].
  destruct (deletion_is_zero (pm_Meta m)) eqn:Hd; [|by apply ok_revert].
  apply ok_conflict; [done|done| |done]. intros k Hk Hc. cbv beta iota. unfold held. case_bool_decide as Hh.
  - by apply ok_drive.
  - split; [exists m; split_and!; [done|done|by left]|]. intros [u|e] _; [|done].
    apply ok_drive; [done| |].
    + split; [exact Hns|]. simpl. apply elem_of_app. right. left.
    + destruct Hc as [Hd' (ms & Hl & Hf)]. split; [exact Hd'|]. exists ms. split; [exact Hl|].
      rewrite find_conflict_None in *. intros o Ho. by apply Hf.
Qed.

(** ** Witnesses *)

(** The pass that configures the switch, as far as its audit of the outcome. *)
Lemma mirror_refines_contract_witness :
  let l := trace MirrorFleet.fleet_answer (MirrorFleet.pass "first") MirrorFleet.example_fleet in
  length l = 13%nat ∧ accepts (may MirrorFleet.example_reconciler) track start l.
Proof.
  split; [vm_compute; reflexivity|].
  eapply mirror_refines_contract. apply (MirrorFleet.fleet_partial (MirrorFleet.pass "first")).
Defined.

Lemma one_claim_per_device_witness :
  ∃ o, (o ∈ [MirrorFleet.second_mirror; MirrorFleet.first_mirror] ∧ live_on "core-switch" o ∧
          find_conflict [MirrorFleet.second_mirror; MirrorFleet.first_mirror] o = None) ∧
    ∀ x, x ∈ [MirrorFleet.second_mirror; MirrorFleet.first_mirror] → live_on "core-switch" x →
      find_conflict [MirrorFleet.second_mirror; MirrorFleet.first_mirror] x = None → x = o.
Proof.
  apply (one_claim_per_device _ _ MirrorFleet.second_mirror); [|left|done].
  apply (bool_decide_unpack _). vm_compute. exact I.
Defined.

End MirrorContract.
