(* ===== verification/MirrorDevice.v ===== *)
(** * What a mirror's status says of the switch

    [Driver] is what the port mirror controller may take from a driver: how its
    three methods act on a device, what of the device a request describes, and
    the laws that tie the two.  The controller's claims about the hardware are
    proved against this interface; MirrorDrivers.v gives the two drivers. *)

From S2P Require Import Prelude GoTime GoString Api Fabric.
From S2P Require Import Prog AuditModel Admission PortMirror Kube MirrorController.

Module MirrorDevice.
Import Kube PortMirror MirrorController.

(** A driver [P] of devices [D]. *)
Class Driver (P D : Type) := {
  drv_ready : D → Prop;
  drv_carries : D → Fabric.Mirror → Prop;
  drv_bare : D → Prop;
  drv_observe : P → Fabric.Device → D → result Fabric.fabric_error Fabric.State → D → Prop;
  drv_configure : P → Fabric.Device → Fabric.Mirror → D → result Fabric.fabric_error unit → D → Prop;
  drv_revert : P → Fabric.Device → D → result Fabric.fabric_error unit → D → Prop;
}.

Class LawfulDriver P D `{Driver P D} : Prop := {
  observe_quiet p d s x s' : drv_ready s → drv_observe p d s x s' → s' = s;
  observe_true p d s st s' m :
    drv_ready s → drv_observe p d s (Ok st) s' → Fabric.sound m → Fabric.Matches st m = true → drv_carries s m;
  configure_ready p d m s x s' : drv_ready s → drv_configure p d m s x s' → drv_ready s';
  revert_ready p d s x s' : drv_ready s → drv_revert p d s x s' → drv_ready s';
  revert_bare p d s s' : drv_ready s → drv_revert p d s (Ok tt) s' → drv_bare s';
}.

Section truth.
Context {P D : Type} `{LawfulDriver P D}.

(** The device, and the last object and the last status the API server took in
    this pass. *)
Record world := mkWorld { w_device : D; w_object : option PortMirror; w_status : option PortMirror }.

Definition with_device (w : world) (s : D) : world := mkWorld s (w_object w) (w_status w).

(** The API server, the ledger and the clocks answer anything; the device is
    the driver's. *)
Definition pass_step (X : Type) (e : mirrorE P X) (w : world) : X → world → Prop :=
  match e with
  | UpdateMirror m => λ x w',
      w' = match x with Ok _ => mkWorld (w_device w) (Some m) (w_status w) | Err _ => w end
  | UpdateMirrorStatus m => λ x w',
      w' = match x with Ok _ => mkWorld (w_device w) (w_object w) (Some m) | Err _ => w end
  | Observe p d => λ x w', ∃ s, w' = with_device w s ∧ drv_observe p d (w_device w) x s
  | Configure p d m => λ x w', ∃ s, w' = with_device w s ∧ drv_configure p d m (w_device w) x s
  | Revert p d => λ x w', ∃ s, w' = with_device w s ∧ drv_revert p d (w_device w) x s
  | _ => λ _ w', w' = w
  end.

(** Active is true of the switch, and a mirror let go has left it. *)
Definition truthful (w : world) : Prop :=
  (∀ m, w_status w = Some m → pmt_Phase (pm_Status m) = PortMirrorActive →
     drv_carries (w_device w) (mirror_of (pm_Spec m))) ∧
  (∀ m, w_object w = Some m → portMirrorFinalizer ∉ m_Finalizers (pm_Meta m) → drv_bare (w_device w)).

(** Before anything was claimed. *)
Definition quiet (w : world) : Prop :=
  drv_ready (w_device w) ∧ w_status w = None ∧
  ∀ m, w_object w = Some m → portMirrorFinalizer ∈ m_Finalizers (pm_Meta m).

Lemma quiet_truthful w : quiet w → truthful w.
Proof. intros (_ & Hs & Ho). split; [congruence|]. intros m Hm Hn. by destruct (Hn (Ho m Hm)). Qed.

Abbreviation always_true := (always pass_step truthful) (only parsing).

(** A call that changes nothing. *)
Lemma true_step {X A} (e : mirrorE P X) (k : X → prog (mirrorE P) A) w :
  quiet w → (∀ x w', pass_step X e w x w' → w' = w) → (∀ x, always_true (k x) w) → always_true (Vis e k) w.
Proof. intros Hq He Hk. split; [by apply quiet_truthful|]. intros x w' Hst. by rewrite (He x w' Hst). Qed.

Lemma true_observe {A} p d (k : result Fabric.fabric_error Fabric.State → prog (mirrorE P) A) w :
  quiet w →
  (∀ e, always_true (k (Err e)) w) →
  (∀ st, (∀ m, Fabric.sound m → Fabric.Matches st m = true → drv_carries (w_device w) m) → always_true (k (Ok st)) w) →
  always_true (prog_bind (call (Observe p d)) k) w.
Proof.
  intros Hq Herr Hok. split; [by apply quiet_truthful|]. intros x w' (s & -> & Hs).
  assert (with_device w s = w) as ->.
  { destruct Hq as (Hr & _). rewrite (observe_quiet p d _ x s Hr Hs). by destruct w. }
  destruct x as [st|e]; [|apply Herr]. apply Hok. intros m Hm Hma. destruct Hq as (Hr & _).
  by eapply observe_true.
Qed.

(** Passing from one method to the next. *)
Definition stays {A} (p : prog (mirrorE P) A) (w : world) : Prop :=
  within pass_step truthful p (λ _ w', w' = w) w.

Lemma stays_bind {A B} (p : prog (mirrorE P) A) (f : A → prog (mirrorE P) B) w :
  stays p w → (∀ a, always_true (f a) w) → always_true (prog_bind p f) w.
Proof.
  intros Hp Hf. apply always_bind; [by eapply within_always|].
  eapply wp_mono; [|by eapply within_wp]. intros a w' -> _. apply Hf.
Qed.

Lemma stays_call {X} (e : mirrorE P X) w :
  quiet w → (∀ x w', pass_step X e w x w' → w' = w) → stays (call e) w.
Proof.
  intros Hq%quiet_truthful He. split; [done|]. intros x w' Hst. pose proof (He x w' Hst) as ->. by split.
Qed.

Lemma stays_ret {A B} (p : prog (mirrorE P) A) (f : A → B) w : stays p w → stays (prog_bind p (λ a, Ret (f a))) w.
Proof.
  intros Hp. apply within_bind. assert (truthful w) as Ht.
  { unfold stays in Hp. destruct p; by destruct Hp. }
  eapply within_mono; [|exact Hp]. intros a w' ->. by split.
Qed.

Lemma stays_audit r m action decision msg w : quiet w → stays (auditDevice r m action decision msg) w.
Proof.
  intros Hq. unfold auditDevice. destruct (mr_HasAudit r); cbn [negb]; [|split; [by apply quiet_truthful|done]].
  apply stays_ret. by apply stays_call; [|intros x w' ->].
Qed.

Lemma stays_device quote m w : quiet w → stays (device (P := P) quote m) w.
Proof. intros Hq. unfold device. apply stays_ret. by apply stays_call; [|intros x w' ->]. Qed.

Lemma true_condition {A} m ty st reason msg (f : PortMirror → prog (mirrorE P) A) w :
  quiet w →
  (∀ m', pm_Spec m' = pm_Spec m → pmt_Phase (pm_Status m') = pmt_Phase (pm_Status m) → always_true (f m') w) →
  always_true (prog_bind (set_condition m ty st reason msg) f) w.
Proof.
  intros Hq Hf. split; [by apply quiet_truthful|]. intros x w' ->. by apply Hf.
Qed.

Lemma true_write m w :
  quiet w → (pmt_Phase (pm_Status m) = PortMirrorActive → drv_carries (w_device w) (mirror_of (pm_Spec m))) →
  always_true (write_status (P := P) m) w.
Proof.
  intros Hq Hm. split; [by apply quiet_truthful|]. intros x w' ->. split; [|done].
  destruct x; [|by apply quiet_truthful]. split; [by intros m' [= <-]|].
  by destruct (quiet_truthful w Hq).
Qed.

Lemma true_fail m reason cause w : quiet w → always_true (fail (P := P) m reason cause) w.
Proof.
  intros Hq. unfold fail. apply true_condition; [done|]. intros m' _ Hp. apply true_write; [done|].
  rewrite Hp. done.
Qed.

Lemma true_observation {A} m s (f : PortMirror → prog (mirrorE P) A) w :
  quiet w → (∀ m', pm_Spec m' = pm_Spec m → always_true (f m') w) →
  always_true (prog_bind (recordObservation (P := P) m s) f) w.
Proof. intros Hq Hf. split; [by apply quiet_truthful|]. intros x w' ->. by apply Hf. Qed.

Lemma true_report quote m st w :
  quiet w → (Fabric.Matches st (mirror_of (pm_Spec m)) = true → drv_carries (w_device w) (mirror_of (pm_Spec m))) →
  always_true (report (P := P) quote m st (mirror_of (pm_Spec m))) w.
Proof.
  intros Hq Hc. unfold report. apply true_observation; [done|]. intros m1 E1.
  apply true_condition; [done|]. intros m2 E2 _.
  destruct (Fabric.Matches st (mirror_of (pm_Spec m))) eqn:Em; apply true_condition; try done; intros m3 E3 E4;
    apply true_write; try done.
  - intros _. rewrite E3. simpl. rewrite E2, E1. by apply Hc.
  - rewrite E4. done.
Qed.

(** ** Method by method *)

Section methods.
Context (aggregate : list Admission.field_error → str) (quote : str → str) (r : Reconciler P).

Lemma true_after_configure {A} p d m (k : result Fabric.fabric_error unit → prog (mirrorE P) A) w :
  quiet w → (∀ x w', quiet w' → always_true (k x) w') → always_true (prog_bind (call (Configure p d m)) k) w.
Proof.
  intros (Hr & Hs & Ho) Hk. split; [by apply quiet_truthful|]. intros x w' (s & -> & Hc).
  apply Hk. split_and!; [by eapply configure_ready|done|done].
Qed.

Lemma true_refused p d m s e w : quiet w → always_true (refused quote r p d m s e) w.
Proof.
  intros Hq. unfold refused. apply stays_bind; [by apply stays_audit|]. intros [text|]; [by apply true_fail|].
  apply true_observe; [done| |]; intros x; intros; apply true_observation; try done; intros m' _; by apply true_fail.
Qed.

Lemma true_correct p d m s w :
  quiet w → Fabric.sound (mirror_of (pm_Spec m)) → always_true (correct quote r p d m s) w.
Proof.
  intros Hq Hm. unfold correct. apply stays_bind; [by apply stays_audit|]. intros [text|]; [by apply true_fail|].
  apply true_after_configure; [done|]. clear w Hq. intros [[]|e] w Hq; [|by apply true_refused].
  apply true_observe; [done|intros e; by apply true_fail|]. intros st Hst.
  apply stays_bind; [by apply stays_audit|]. intros [text|]; [by apply true_fail|].
  apply true_report; [done|by apply Hst].
Qed.

Lemma true_drive m w : quiet w → always_true (drive aggregate quote r m) w.
Proof.
  intros Hq. unfold drive. destruct (ValidatePortMirrorSpec (pm_Spec m)) eqn:Ev; [|by apply true_fail].
  assert (Fabric.sound (mirror_of (pm_Spec m))) as Hm by by apply ValidatePortMirrorSpec_spec in Ev as (_ & _ & ?).
  destruct (Fabric.GetProvider _ _ _) as [p|text]; [|by apply true_fail].
  apply stays_bind; [by apply stays_device|]. intros [d|text]; [|by apply true_fail].
  apply true_observe; [done|intros e; by apply true_fail|]. intros st Hst.
  destruct (Fabric.Matches st (mirror_of (pm_Spec m))) eqn:Ema; [apply true_report|apply true_correct]; try done.
  intros _. by apply Hst.
Qed.

Lemma true_conflict {A} m (f : option Result → prog (mirrorE P) A) w :
  quiet w → (∀ res w', truthful w' → always_true (f (Some res)) w') → always_true (f None) w →
  always_true (prog_bind (checkDeviceConflict quote r m) f) w.
Proof.
  intros Hq Hret Hf. split; [by apply quiet_truthful|]. intros x w' ->.
  assert (∀ reason cause, always_true (prog_bind (let! (_, err) := fail (P := P) m reason cause in
    Ret (Some (mirrorResyncInterval, err))) f) w) as Hstop.
  { intros reason cause. apply always_bind.
    - apply always_bind; [by apply true_fail|]. eapply wp_mono; [|by apply wp_always, (true_fail m reason cause w Hq)].
      intros [t err] w' Ht _. by split.
    - apply wp_bind. eapply wp_mono; [|by apply wp_always, (true_fail m reason cause w Hq)].
      intros [t err] w' Ht _. by apply Hret. }
  destruct x as [l|e]; cbn [prog_bind]; [|apply Hstop].
  destruct (find_conflict l m); [apply Hstop|exact Hf].
Qed.

Lemma reverted_device m w :
  quiet w →
  within pass_step truthful (revert_device quote r m) (λ res w', quiet w' ∧ (res = Ok None → drv_bare (w_device w'))) w.
Proof.
  intros Hq. pose proof (quiet_truthful w Hq) as Ht. unfold revert_device.
  destruct (Fabric.GetProvider _ _ _) as [p|text]; [|by split].
  apply within_bind. eapply within_mono; [|by apply stays_device]. intros [d|text] w' ->; [|by split].
  apply within_bind. eapply within_mono; [|by apply stays_audit]. intros [text|] w' ->; [by split|].
  split; [done|]. intros x w' (s & -> & Hr). destruct Hq as (Hrdy & Hs & Ho).
  assert (quiet (with_device w s)) as Hq' by (split_and!; [by eapply revert_ready|done|done]).
  split; [by apply quiet_truthful|]. split; [done|]. destruct x as [[]|]; [|done]. intros _. by eapply revert_bare.
Qed.

Lemma true_revert m w : quiet w → always_true (revert quote r m) w.
Proof.
  intros Hq. unfold revert, held. case_bool_decide; cbn [negb]; [|split; [by apply quiet_truthful|done]].
  pose proof (reverted_device m w Hq) as Hr. apply always_bind; [by eapply within_always|].
  eapply wp_mono; [|by eapply within_wp]. clear w Hq Hr. intros [[e|]|text] w [Hq Hb] Ht; [| |by split].
  - apply stays_bind; [by apply stays_audit|]. intros [text|]; [by split|by apply true_fail].
  - apply stays_bind; [by apply stays_audit|]. intros [text|]; [by split|]. split; [done|].
    intros x w' ->. split; [|done]. destruct x; [|done]. destruct Ht as [Ht _]. split; [exact Ht|].
    intros m' [= <-] _. by apply Hb.
Qed.

Lemma true_Reconcile namespace name w : quiet w → always_true (Reconcile aggregate quote r namespace name) w.
Proof.
  intros Hq. pose proof (quiet_truthful w Hq) as Ht. split; [done|]. intros x w' ->. cbn [prog_bind].
  destruct x as [m|e]; [|by destruct e; split].
  destruct (negb (bool_decide _)); [by apply true_fail|].
  destruct (negb (deletion_is_zero _)); [by apply true_revert|].
  apply true_conflict; [done|by split|]. destruct (held m); [by apply true_drive|].
  split; [done|]. intros x w' ->. destruct x as [[]|e]; [|by split]. apply true_drive.
  destruct Hq as (Hr & Hs & Ho). split_and!; [done|done|]. intros m' [= <-]. simpl. apply elem_of_app. right. left.
Qed.

End methods.

End truth.
End MirrorDevice.
