(* ===== verification/MirrorDrivers.v ===== *)
(** * The two drivers, as the controller uses them

    Both drivers keep the laws of [MirrorDevice] on a switch nobody else is
    changing, whichever of its answers are lost: the controller's claims about
    the hardware hold with either, and together. *)

From S2P Require Import Prelude GoTime GoString Api Status Fabric RouterOS.
From S2P Require Import Prog Mikrotik MikrotikSSH AuditModel Admission PortMirror Kube.
From S2P Require Import MirrorController MirrorFleet MirrorDevice.

Module MirrorDrivers.
Import Fabric RouterOS PortMirror MirrorController MirrorFleet MirrorDevice.

(** What both need of a switch: names and ids that tell ports apart and pass
    the drivers' checks, and no port with the name of no target. *)
Definition ready (s : Switch) : Prop :=
  Mikrotik.well_formed s ∧ MikrotikSSH.well_formed s ∧ noMirrorTarget ∉ port_names s.

Definition reports_none (s : Switch) : Prop :=
  let st := state_of (sw_Target s) "" (pt_Flags <$> sw_Ports s) in st_Sources st = [] ∧ st_Target st = "".

Lemma ready_same s s' : same_ports s s' → ready s → ready s'.
Proof.
  intros Hs (H1 & H2 & H3). split_and!; [by eapply Mikrotik.well_formed_same|by eapply MikrotikSSH.ssh_well_formed_same|].
  by destruct Hs as (_ & _ & -> & _).
Qed.

Section laws.
Context (quote : str → str) (pem_ok : str → bool) (range : gmap string row → list (str * row)).
Hypothesis range_spec : ∀ rows, range rows ≡ₚ map_to_list rows.

#[export] Instance mikrotik_drivers : Driver driver Switch := {
  drv_ready := ready;
  drv_carries := carries;
  drv_bare := reports_none;
  drv_observe p d s x s' :=
    match p with
    | RestDriver => exec (Mikrotik.rest_step false) (Mikrotik.Observe pem_ok d) s x s'
    | SSHDriver => exec (MikrotikSSH.ssh_step false) (MikrotikSSH.Observe d) s x s'
    end;
  drv_configure p d m s x s' :=
    match p with
    | RestDriver => exec (Mikrotik.rest_step false) (Mikrotik.Configure quote pem_ok range d m) s x s'
    | SSHDriver => exec (MikrotikSSH.ssh_step false) (MikrotikSSH.Configure quote d m) s x s'
    end;
  drv_revert p d s x s' :=
    match p with
    | RestDriver => exec (Mikrotik.rest_step false) (Mikrotik.Revert quote pem_ok d) s x s'
    | SSHDriver => exec (MikrotikSSH.ssh_step false) (MikrotikSSH.Revert d) s x s'
    end;
}.

Lemma ssh_Observe_wp up d s :
  MikrotikSSH.well_formed s →
  wp (MikrotikSSH.ssh_step up) (MikrotikSSH.Observe d)
    (λ r s', s' = s ∧ ∀ st, r = Ok st → ∃ id, st = state_of (sw_Target s) id (pt_Flags <$> sw_Ports s)) s.
Proof.
  intros Hw. apply (within_wp _ (λ _, True)). split; [done|]. intros x s' [-> _]. destruct x as [u|e]; [|by split].
  apply within_try, MikrotikSSH.readSnapshot_within; [done|done| |by split].
  intros id. split; [done|]. split; [done|]. intros st [= <-]. by eexists.
Qed.

Lemma observed p d s x s' :
  ready s → drv_observe p d s x s' →
  s' = s ∧ ∀ st, x = Ok st → ∃ id, st = state_of (sw_Target s) id (pt_Flags <$> sw_Ports s).
Proof.
  intros (Hr & Hs & _) He. destruct p; simpl in He.
  - destruct (wp_exec _ _ _ _ _ _ He (Mikrotik.Observe_wp pem_ok false d s)) as (? & ? & _). done.
  - exact (wp_exec _ _ _ _ _ _ He (ssh_Observe_wp false d s Hs)).
Qed.

(** A request to mirror into "none" reaches no port. *)
Lemma ssh_Configure_none up d m s :
  MikrotikSSH.well_formed s → mi_Target m = noMirrorTarget → noMirrorTarget ∉ port_names s →
  wp (MikrotikSSH.ssh_step up) (MikrotikSSH.Configure quote d m) (λ _ s', s' = s) s.
Proof.
  intros Hw Ht Hn. apply (within_wp _ (λ _, True)). unfold MikrotikSSH.Configure.
  destruct (Validate quote m); [done|]. split; [done|]. intros x s' [-> _]. destruct x as [u|e]; [|done].
  apply within_try, MikrotikSSH.readSnapshot_within; [done|done| |done]. intros id. cbn [MikrotikSSH.sn_Ports].
  destruct (MikrotikSSH.port_map_on s !! mi_Target m) eqn:E; [|done].
  destruct Hn. rewrite <-Ht. apply MikrotikSSH.port_map_dom. by rewrite E.
Qed.

#[export] Instance mikrotik_lawful : LawfulDriver driver Switch.
Proof.
  split.
  - intros p d s x s' Hr He. by destruct (observed p d s x s' Hr He).
  - intros p d s st s' m Hr He Hm Hma. destruct (observed p d s _ s' Hr He) as [_ Hst].
    destruct (Hst st eq_refl) as [id ->]. destruct Hr as ((Hnd & _) & _). by eapply Matches_carries.
  - intros p d m s x s' Hr He. pose proof Hr as (H1 & H2 & H3). eapply ready_same; [|exact Hr]. destruct p; simpl in He.
    + by destruct (wp_exec _ _ _ _ _ _ He (Mikrotik.Configure_wp quote pem_ok range false range_spec d m s H1)) as [? _].
    + destruct (decide (mi_Target m = noMirrorTarget)) as [Hn|Hn].
      * pose proof (wp_exec _ _ _ _ _ _ He (ssh_Configure_none false d m s H2 Hn H3)) as E. simpl in E. subst s'.
        apply same_ports_refl.
      * pose proof (within_wp _ _ _ _ _ (MikrotikSSH.Configure_within quote false d m s H2 Hn)) as Hw.
        by destruct (wp_exec _ _ _ _ _ _ He Hw) as [? _].
  - intros p d s x s' Hr He. pose proof Hr as (H1 & H2 & H3). eapply ready_same; [|exact Hr]. destruct p; simpl in He.
    + by destruct (wp_exec _ _ _ _ _ _ He (Mikrotik.Revert_wp quote pem_ok false d s H1)) as [? _].
    + by destruct (wp_exec _ _ _ _ _ _ He (within_wp _ _ _ _ _ (MikrotikSSH.Revert_within false d s H2))) as [? _].
  - intros p d s s' Hr He. pose proof Hr as (H1 & H2 & H3). destruct p; simpl in He.
    + destruct (wp_exec _ _ _ _ _ _ He (Mikrotik.Revert_wp quote pem_ok false d s H1)) as (_ & Hb & _).
      by apply bare_state, Hb.
    + destruct (wp_exec _ _ _ _ _ _ He (within_wp _ _ _ _ _ (MikrotikSSH.Revert_within false d s H2))) as (_ & Hb & _).
      by apply Hb.
Qed.

(** C10: Status tells the truth about the hardware.  Whatever the API server, the
    ledger and the clocks answer, whichever requests to the switch fail or
    answers from it are lost, with either driver and at every point of a pass:
    a mirror that is recorded as Active is carried by the switch as its spec
    asks and nothing else is, and once a mirror's finalizer is gone the switch
    reports no mirror. *)
Theorem Active_is_true aggregate quote' (r : Reconciler driver) namespace name s :
  ready s →
  always pass_step
    (λ w, (∀ m, w_status w = Some m → pmt_Phase (pm_Status m) = PortMirrorActive →
             carries (w_device w) (mirror_of (pm_Spec m))) ∧
          (∀ m, w_object w = Some m → portMirrorFinalizer ∉ m_Finalizers (pm_Meta m) → reports_none (w_device w)))
    (Reconcile aggregate quote' r namespace name) (mkWorld s None None).
Proof. intros Hs. refine (true_Reconcile aggregate quote' r namespace name (mkWorld s None None) _). by split_and!. Qed.

End laws.

Lemma example_ready : ready example_switch.
Proof.
  split_and!.
  - split; [apply (bool_decide_unpack _); vm_compute; exact I|].
    split; [apply (bool_decide_unpack _); vm_compute; exact I|]. split; [done|]. by repeat constructor.
  - split; [apply (bool_decide_unpack _); vm_compute; exact I|]. split; [by repeat constructor|]. by split.
  - apply (bool_decide_unpack _). vm_compute. exact I.
Qed.

Lemma Active_is_true_witness :
  ready example_switch ∧
  always (@pass_step driver Switch (mikrotik_drivers (λ s, s) (λ _, true) map_to_list))
    (λ w, (∀ m, w_status w = Some m → pmt_Phase (pm_Status m) = PortMirrorActive →
             carries (w_device w) (mirror_of (pm_Spec m))) ∧
          (∀ m, w_object w = Some m → portMirrorFinalizer ∉ m_Finalizers (pm_Meta m) → reports_none (w_device w)))
    (pass "first") (mkWorld example_switch None None).
Proof.
  split; [exact example_ready|].
  by apply (Active_is_true (λ s, s) (λ _, true) map_to_list (λ _, reflexivity _)), example_ready.
Defined.

End MirrorDrivers.
