(* ===== verification/TapController.v ===== *)
(** * The network tap controller, internal/controller/networktap_controller.go

    [Reconcile] validates a tap, resolves its nodes, settles contention for the
    probe port, applies what the renderer gives and projects what it observes.
    It is a program over the API server and the clocks.  The conversion of a
    label selector is the API machinery's, and so is what makes it fail; a
    panic of the quantity parser is a call that is never answered.  Metrics and
    logging are left out; an error is its text and [None] is nil. *)

From S2P Require Import Prelude GoTime GoString Sanitize Api Status Settings Objects Render TapStatus.
From S2P Require Import Prog Admission TapWebhook TapWorkload Kube MirrorController.

Module TapController.
Import Objects Kube TapWorkload TapStatus.

Definition workloadReadyMessage : str := "workload ready".

(** What [workloadReady] reads of a Deployment and of a DaemonSet. *)
Record DeploymentStatus := mkDeploymentStatus {
  dp_Generation : Z; dp_ObservedGeneration : Z; dp_UpdatedReplicas : Z; dp_Replicas : Z; dp_ReadyReplicas : Z;
}.

Record DaemonSetStatus := mkDaemonSetStatus {
  ds_Generation : Z; ds_ObservedGeneration : Z; ds_UpdatedNumberScheduled : Z; ds_DesiredNumberScheduled : Z;
  ds_NumberReady : Z;
}.

(** A node is its name, the one field the controller reads. *)
Inductive tapE : Type → Type :=
  | GetTap (namespace name : str) : tapE (result kube_error NetworkTap)
  | ListTaps : tapE (result str (list NetworkTap))
  | ListNodes (sel : LabelSelector) : tapE (result str (list str))
  | SetControllerReference (tap : NetworkTap) (obj : Object_) : tapE (result str unit)
  | GVKForObject (obj : Object_) : tapE (result str unit)
  | ToUnstructured (obj : Object_) : tapE (result str unit)
  | Apply (obj : Object_) : tapE (result str unit)
  | GetDeployment (namespace name : str) : tapE (result kube_error DeploymentStatus)
  | GetDaemonSet (namespace name : str) : tapE (result kube_error DaemonSetStatus)
  | UpdateStatus (tap : NetworkTap) : tapE (result str NetworkTap)
  | ConditionNow : tapE time
  | Now : tapE time
  | Panic : tapE Empty_set.

(** RequeueAfter, and the error. *)
Definition Result : Type := duration * option str.

Definition with_status (tap : NetworkTap) (s : NetworkTapStatus) : NetworkTap :=
  mkNetworkTap (nt_Meta tap) (nt_Spec tap) s.

Definition with_conditions (s : NetworkTapStatus) (conds : list Condition) : NetworkTapStatus :=
  mkNetworkTapStatus (nts_ObservedGeneration s) (nts_Phase s) (nts_MatchedTargets s) (nts_ReadyTargets s)
    (nts_LastPacketTime s) (nts_Targets s) conds.

Definition generation (tap : NetworkTap) : Z := m_Generation (nt_Meta tap).
Definition uid (tap : NetworkTap) : str := m_UID (nt_Meta tap).

(** The conditions [markError] and [markUnavailable] loop over. *)
Definition other_conditions : list str :=
  [Status.TypeTargetsResolved; Status.TypeWorkloadReady; Status.TypeAnalyzersHealthy; Status.TypePacketsObserved].

(** The guards of [checkProbePortConflict] before a selector is resolved. *)
Definition incumbent (other tap : NetworkTap) : bool := MirrorController.olderClaim (nt_Meta other) (nt_Meta tap).

Section reconcile.
Context `{Quantities} (cfg : Settings.Config) (aggregate : list Admission.field_error → str) (quote : str → str)
  (rfc3339 : time → str) (selector_error : LabelSelector → option str).

Abbreviation valid := (TapWebhook.ValidateNetworkTapSpec quote) (only parsing).

Definition set_condition (s : NetworkTapStatus) (ty : str) (st : ConditionStatus) (reason message : str) (gen : Z) :
    prog tapE NetworkTapStatus :=
  let! now := call ConditionNow in
  Ret (with_conditions s (Status.Set_ (nts_Conditions s) (Status.New Sanitize.String_ now ty st reason message gen))).

Fixpoint set_conditions (s : NetworkTapStatus) (tys : list str) (st : ConditionStatus) (reason message : str) (gen : Z) :
    prog tapE NetworkTapStatus :=
  match tys with
  | [] => Ret s
  | ty :: tys =>
      let! s := set_condition s ty st reason message gen in
      set_conditions s tys st reason message gen
  end.

(** The tap afterwards: a write leaves the object the API server answered. *)
Definition writeStatusIfChanged (tap : NetworkTap) (previous : NetworkTapStatus) : prog tapE (result str NetworkTap) :=
  if bool_decide (previous = nt_Status tap) then Ret (Ok tap) else call (UpdateStatus tap).

(** [sanitize.Error] of the error there is. *)
Definition sanitized {A} (res : result str A) : option str :=
  match res with Ok _ => None | Err e => Some (Sanitize.String_ e) end.

Definition markError (tap : NetworkTap) (reason message : str) : prog tapE (option str) :=
  let gen := generation tap in
  let s := mkNetworkTapStatus gen TapPhaseError 0 0 (nts_LastPacketTime (nt_Status tap)) [] (nts_Conditions (nt_Status tap)) in
  let! s := set_condition s Status.TypeAccepted ConditionFalse reason message gen in
  let! s := set_conditions s other_conditions ConditionFalse reason message gen in
  let! written := writeStatusIfChanged (with_status tap s) (nt_Status tap) in
  Ret (sanitized written).

Definition markUnavailable (tap : NetworkTap) (message : str) : prog tapE (option str) :=
  let gen := generation tap in
  let s0 := nt_Status tap in
  let s := mkNetworkTapStatus gen TapPhaseError (nts_MatchedTargets s0) (nts_ReadyTargets s0) (nts_LastPacketTime s0)
             (nts_Targets s0) (nts_Conditions s0) in
  let! s := set_condition s Status.TypeAccepted ConditionTrue Status.ReasonAccepted "spec accepted" gen in
  let! s := set_conditions s other_conditions ConditionUnknown Status.ReasonDependencyUnavailable message gen in
  let! written := writeStatusIfChanged (with_status tap s) (nt_Status tap) in
  Ret (sanitized written).

(** The error it was called for. *)
Definition reportUnavailable (tap : NetworkTap) (doing cause : str) : prog tapE str :=
  let! _ := markUnavailable tap (doing +:+ ": " +:+ cause) in
  Ret (Sanitize.String_ cause).

Definition eligibleNodes (tap : NetworkTap) : prog tapE (result str (list str)) :=
  let sel := is_NodeSelector (sourceOf tap) in
  match selector_error sel with
  | Some err => Ret (Err (Sanitize.Errorf "invalid node selector: " err))
  | None =>
      let! res := call (ListNodes sel) in
      Ret match res with
          | Ok nodes => Ok nodes
          | Err err => Err (Sanitize.Errorf "listing nodes: " err)
          end
  end.

(** Nothing to go on; the error to stop with otherwise. *)
Definition checkTargetCardinality (tap : NetworkTap) (nodes : list str) : prog tapE (option (option str)) :=
  if bool_decide (length nodes = 0%nat) then
    let! err := markError tap Status.ReasonNoEligibleTargets "the node selector matched no nodes" in
    Ret (Some err)
  else if is_mirror tap && (1 <? Z.of_nat (length nodes)) then
    let! err := markError tap Status.ReasonAmbiguousTargets
                  ("a mirror source must match exactly one node; the selector matched " +:+ itoa (Z.of_nat (length nodes))) in
    Ret (Some err)
  else Ret None.

Definition skip_other (other tap : NetworkTap) : bool :=
  bool_decide (uid other = uid tap) || negb (deletion_is_zero (nt_Meta other)) ||
  (negb (SensorProbePort other =? SensorProbePort tap) || negb (incumbent other tap)) ||
  negb (bool_decide (valid (nt_Spec other) = [])).

Definition conflict_text (other : NetworkTap) (node : str) (port : Z) : str :=
  "tap " +:+ m_Namespace (nt_Meta other) +:+ "/" +:+ m_Name (nt_Meta other) +:+ " targets node " +:+ node +:+
  " and derives the same sensor probe port " +:+ itoa port +:+ "; " +:+
  "both sensors run on the host network, so only one can bind it".

Fixpoint conflict_loop (tap : NetworkTap) (mine : list str) (taps : list NetworkTap) : prog tapE (option (option str)) :=
  match taps with
  | [] => Ret None
  | other :: taps =>
      if skip_other other tap then conflict_loop tap mine taps else
      let! res := eligibleNodes other in
      match res with
      | Err _ => conflict_loop tap mine taps
      | Ok nodes =>
          match List.find (λ n, bool_decide (n ∈ mine)) nodes with
          | Some n =>
              let! err := markError tap Status.ReasonProbePortConflict (conflict_text other n (SensorProbePort tap)) in
              Ret (Some err)
          | None => conflict_loop tap mine taps
          end
      end
  end.

Definition checkProbePortConflict (tap : NetworkTap) (nodes : list str) : prog tapE (option (option str)) :=
  let! res := call ListTaps in
  match res with
  | Err e => let! err := reportUnavailable tap "listing taps to check probe ports" e in Ret (Some (Some err))
  | Ok taps => conflict_loop tap nodes taps
  end.

Definition applyOwned (tap : NetworkTap) (desired : Object_) : prog tapE (option str) :=
  let! res := call (SetControllerReference tap desired) in
  match res with
  | Err e => Ret (Some (Sanitize.Errorf "setting owner reference: " e))
  | Ok _ =>
      let! res := call (GVKForObject desired) in
      match res with
      | Err e => Ret (Some (Sanitize.Errorf "resolving owned resource kind: " e))
      | Ok _ =>
          let! res := call (ToUnstructured desired) in
          match res with
          | Err e => Ret (Some (Sanitize.Errorf "encoding owned resource for apply: " e))
          | Ok _ =>
              let! res := call (Apply desired) in
              Ret match res with
                  | Ok _ => None
                  | Err e => Some (Sanitize.Errorf "applying owned resource: " e)
                  end
          end
      end
  end.

Fixpoint apply_all (tap : NetworkTap) (objs : list Object_) : prog tapE (option str) :=
  match objs with
  | [] => Ret None
  | obj :: objs =>
      let! err := applyOwned tap obj in
      match err with
      | Some _ => Ret err
      | None => apply_all tap objs
      end
  end.

Definition supporting_objects (tap : NetworkTap) : list Object_ :=
  [ServiceAccount tap; StatusRole tap; StatusRoleBinding tap; ConfigMap cfg tap].

Definition applyOwnedResources (tap : NetworkTap) : prog tapE (option str) :=
  let! err := apply_all tap (supporting_objects tap) in
  match err with
  | Some _ => Ret err
  | None =>
      match Workload cfg tap with
      | None => let! never := call Panic in match never : Empty_set with end
      | Some workload => applyOwned tap workload
      end
  end.

(** *** [workloadReady] *)

Definition not_created : ConditionStatus * str * option str := (ConditionFalse, "workload not created yet", None).
Definition unreadable (text : str) : ConditionStatus * str * option str :=
  (ConditionUnknown, Sanitize.String_ ("could not read workload: " +:+ text), Some text).

Definition ratio (a b : Z) (what : str) : str := itoa a +:+ "/" +:+ itoa b +:+ what.
Definition observed_text (observed gen : Z) : str :=
  "controller has observed generation " +:+ itoa observed +:+ " of " +:+ itoa gen.

Definition deployment_ready (d : DeploymentStatus) : ConditionStatus * str * option str :=
  if negb (dp_ObservedGeneration d =? dp_Generation d)
  then (ConditionFalse, observed_text (dp_ObservedGeneration d) (dp_Generation d), None)
  else if dp_UpdatedReplicas d <? dp_Replicas d
  then (ConditionFalse, ratio (dp_UpdatedReplicas d) (dp_Replicas d) " replicas updated", None)
  else if dp_ReadyReplicas d <? 1
  then (ConditionFalse, ratio (dp_ReadyReplicas d) (dp_Replicas d) " replicas ready", None)
  else (ConditionTrue, workloadReadyMessage, None).

Definition daemonset_ready (d : DaemonSetStatus) : ConditionStatus * str * option str :=
  if negb (ds_ObservedGeneration d =? ds_Generation d)
  then (ConditionFalse, observed_text (ds_ObservedGeneration d) (ds_Generation d), None)
  else if ds_UpdatedNumberScheduled d <? ds_DesiredNumberScheduled d
  then (ConditionFalse, ratio (ds_UpdatedNumberScheduled d) (ds_DesiredNumberScheduled d) " nodes updated", None)
  else if (ds_NumberReady d <? ds_DesiredNumberScheduled d) || (ds_DesiredNumberScheduled d =? 0)
  then (ConditionFalse, ratio (ds_NumberReady d) (ds_DesiredNumberScheduled d) " nodes ready", None)
  else (ConditionTrue, workloadReadyMessage, None).

Definition read_workload {A} (ready : A → ConditionStatus * str * option str) (res : result kube_error A) :
    ConditionStatus * str * option str :=
  match res with
  | Ok d => ready d
  | Err (NotFound _) => not_created
  | Err e => unreadable (kube_text e)
  end.

Definition workloadReady (tap : NetworkTap) : prog tapE (ConditionStatus * str * option str) :=
  let '(name, _, _, _) := Names tap in
  if is_mirror tap then
    let! res := call (GetDeployment (m_Namespace (nt_Meta tap)) name) in
    Ret (read_workload deployment_ready res)
  else
    let! res := call (GetDaemonSet (m_Namespace (nt_Meta tap)) name) in
    Ret (read_workload daemonset_ready res).

Definition updateStatus (tap : NetworkTap) (matched : Z) (now : time) : prog tapE (result str NetworkTap) :=
  let! (ready, message, workloadErr) := workloadReady tap in
  let s := projectNetworkTapStatus rfc3339 (nt_Status tap) (mkFacts (generation tap) matched ready message now) in
  let! written := writeStatusIfChanged (with_status tap s) (nt_Status tap) in
  Ret match written, workloadErr with
      | Err e, _ | Ok _, Some e => Err e
      | Ok tap, None => Ok tap
      end.

(** From a tap that may proceed. *)
Definition converge (tap : NetworkTap) (nodes : list str) : prog tapE Result :=
  let! err := applyOwnedResources tap in
  match err with
  | Some e =>
      let! err := reportUnavailable tap "applying the tap's owned resources" e in Ret (0, Some err)
  | None =>
      let! now := call Now in
      let! updated := updateStatus tap (Z.of_nat (length nodes)) now in
      Ret match updated with
          | Err e => (0, Some (Sanitize.String_ e))
          | Ok tap => (nextHeartbeatExpiry (nts_Targets (nt_Status tap)) now, None)
          end
  end.

Definition Reconcile (namespace name : str) : prog tapE Result :=
  let! found := call (GetTap namespace name) in
  match found with
  | Err (NotFound _) => Ret (0, None)
  | Err e => Ret (0, Some (Sanitize.String_ (kube_text e)))
  | Ok tap =>
      if negb (bool_decide (m_Namespace (nt_Meta tap) = Settings.c_SystemNamespace cfg)) then
        let! err := markError tap Status.ReasonWrongNamespace
                      ("NetworkTap resources are reconciled only in " +:+ quote (Settings.c_SystemNamespace cfg)) in
        Ret (0, err)
      else if negb (deletion_is_zero (nt_Meta tap)) then Ret (0, None)
      else
        match valid (nt_Spec tap) with
        | (_ :: _) as errs =>
            let! err := markError tap Status.ReasonInvalidSpec (aggregate errs) in Ret (0, err)
        | [] =>
            let! res := eligibleNodes tap in
            match res with
            | Err e => let! err := reportUnavailable tap "resolving eligible nodes" e in Ret (0, Some err)
            | Ok nodes =>
                let! stop := checkTargetCardinality tap nodes in
                match stop with
                | Some err => Ret (0, err)
                | None =>
                    let! stop := checkProbePortConflict tap nodes in
                    match stop with
                    | Some err => Ret (0, err)
                    | None => converge tap nodes
                    end
                end
            end
        end
  end.

(** What a change of the node set wakes: every tap. *)
Definition tapsForNodeChange : prog tapE (list (str * str)) :=
  let! res := call ListTaps in
  Ret match res with
      | Err _ => []
      | Ok taps => map (λ t, (m_Namespace (nt_Meta t), m_Name (nt_Meta t))) taps
      end.

End reconcile.

(** ** What setting conditions leaves *)

Definition says (s : NetworkTapStatus) (ty : str) (st : ConditionStatus) (reason message : str) (gen : Z) : Prop :=
  ∃ t, Status.Get (nts_Conditions s) ty = Some (mkCondition ty st gen t reason (Sanitize.String_ message)).

(** Only the conditions move; each is heard, the others are still said, and
    what was said already is not said again. *)
Definition restated (tys : list str) (st : ConditionStatus) (reason message : str) (gen : Z) (s s' : NetworkTapStatus) : Prop :=
  s' = with_conditions s (nts_Conditions s') ∧ (∀ ty, ty ∈ tys → says s' ty st reason message gen) ∧
  (∀ ty st' reason' message' gen', ty ∉ tys → says s ty st' reason' message' gen' → says s' ty st' reason' message' gen') ∧
  ((∀ ty, ty ∈ tys → says s ty st reason message gen) → s' = s).

Lemma restated_trans ty tys st reason message gen s s1 s2 :
  restated [ty] st reason message gen s s1 → restated tys st reason message gen s1 s2 →
  restated (ty :: tys) st reason message gen s s2.
Proof.
  intros (E1 & H1 & K1 & I1) (E2 & H2 & K2 & I2). split_and!.
  - rewrite E2, E1. done.
  - intros ty' [->|Hin]%elem_of_cons; [|by apply H2]. destruct (decide (ty ∈ tys)) as [|Hn]; [by apply H2|].
    apply K2; [done|]. apply H1. left.
  - intros ty' st' r' m' g' [Hne Hni]%not_elem_of_cons Hs. apply K2; [done|]. apply K1; [|done].
    by intros ?%list_elem_of_singleton.
  - intros Hall. assert (s1 = s) as -> by (apply I1; intros ty' ->%list_elem_of_singleton; apply Hall; left).
    apply I2. intros ty' Hin. apply Hall. by right.
Qed.

(** Under any protocol that lets the clock be read and learns nothing of it. *)
Section conditions.
Context {S : Type} (honest : ∀ X, tapE X → X → Prop) (may : ∀ X, tapE X → S → Prop) (track : ∀ X, tapE X → X → S → S).
Context (may_now : ∀ k, may _ ConditionNow k) (track_now : ∀ t k, track _ ConditionNow t k = k).

Lemma set_condition_does s ty st reason message gen k :
  conforms honest may track (set_condition s ty st reason message gen)
    (λ s' k', k' = k ∧ restated [ty] st reason message gen s s') k.
Proof using may_now track_now.
  split; [apply may_now|]. intros now _. rewrite track_now. split; [done|]. split_and!; [done| | |].
  - intros ty' ->%list_elem_of_singleton.
    destruct (Status.Get_Set_same (nts_Conditions s) (Status.New Sanitize.String_ now ty st reason message gen))
      as (t & Ht & _). by exists t.
  - intros ty' st' r' m' g' Hne%not_elem_of_cons [t Ht]. exists t. simpl. by rewrite Status.Get_Set_other by naive_solver.
  - intros Hs. destruct (Hs ty) as [t Ht]; [left|].
    rewrite (Status.Set_idle _ (Status.New Sanitize.String_ now ty st reason message gen) t); [by destruct s|exact Ht].
Qed.

Lemma set_conditions_does s tys st reason message gen k :
  conforms honest may track (set_conditions s tys st reason message gen)
    (λ s' k', k' = k ∧ restated tys st reason message gen s s') k.
Proof using may_now track_now.
  revert s. induction tys as [|ty tys IH]; intros s.
  { split; [done|]. split_and!; [by destruct s|by intros ty ?%elem_of_nil|done|done]. }
  cbn [set_conditions]. apply conforms_bind. eapply conforms_mono; [|apply set_condition_does].
  intros s1 k1 [-> H1]. eapply conforms_mono; [|apply IH]. intros s2 k2 [-> H2].
  split; [done|]. by eapply restated_trans.
Qed.

End conditions.
End TapController.
