(* ===== verification/TapContract.v ===== *)
(** * What the network tap controller may do, and when

    [knowledge] is what one pass has been told: the tap as read, the answers to
    its node listings, the taps listed, the objects the API server took and
    what the workload's read said.  [may] is the contract: the objects of a tap
    are applied only for a live, valid tap of the system namespace whose
    selector found nodes and whose probe port nobody older is shown to hold on
    one of them; and a status is written only when it differs, and then it is
    a justified refusal, a report that a dependency was unavailable that leaves
    every observation alone, or the projection of what this pass saw after it
    had applied everything. *)

From S2P Require Import Prelude GoTime GoString Sanitize Api Status Settings Objects Render TapStatus.
From S2P Require Import Prog Admission TapWebhook TapWorkload Kube MirrorController TapController.

Module TapContract.
Import Objects Kube TapWorkload TapStatus TapController.

Section contract.
Context `{Quantities} (cfg : Settings.Config) (aggregate : list Admission.field_error → str) (quote : str → str)
  (rfc3339 : time → str) (selector_error : LabelSelector → option str).

Abbreviation valid := (TapWebhook.ValidateNetworkTapSpec quote) (only parsing).

Record knowledge := mkKnowledge {
  k_tap : option NetworkTap;
  k_listings : list (LabelSelector * result str (list str));
  k_taps : option (list NetworkTap);
  k_applied : list Object_;
  k_ready : option (ConditionStatus * str);
  k_now : option time;
}.

Definition start : knowledge := mkKnowledge None [] None [] None None.

Definition know_tap (k : knowledge) (t : NetworkTap) : knowledge :=
  mkKnowledge (Some t) (k_listings k) (k_taps k) (k_applied k) (k_ready k) (k_now k).
Definition know_listing (k : knowledge) (l : LabelSelector * result str (list str)) : knowledge :=
  mkKnowledge (k_tap k) (l :: k_listings k) (k_taps k) (k_applied k) (k_ready k) (k_now k).
Definition know_taps (k : knowledge) (l : list NetworkTap) : knowledge :=
  mkKnowledge (k_tap k) (k_listings k) (Some l) (k_applied k) (k_ready k) (k_now k).
Definition know_applied (k : knowledge) (o : Object_) : knowledge :=
  mkKnowledge (k_tap k) (k_listings k) (k_taps k) (o :: k_applied k) (k_ready k) (k_now k).
Definition know_ready (k : knowledge) (r : ConditionStatus * str) : knowledge :=
  mkKnowledge (k_tap k) (k_listings k) (k_taps k) (k_applied k) (Some r) (k_now k).
Definition know_now (k : knowledge) (t : time) : knowledge :=
  mkKnowledge (k_tap k) (k_listings k) (k_taps k) (k_applied k) (k_ready k) (Some t).

Definition track (X : Type) (e : tapE X) : X → knowledge → knowledge :=
  match e with
  | GetTap _ _ => λ x k, match x with Ok t => know_tap k t | Err _ => k end
  | ListTaps => λ x k, match x with Ok l => know_taps k l | Err _ => k end
  | ListNodes sel => λ x k, know_listing k (sel, x)
  | Apply o => λ x k, match x with Ok _ => know_applied k o | Err _ => k end
  | GetDeployment _ _ => λ x k, know_ready k (read_workload deployment_ready x).1
  | GetDaemonSet _ _ => λ x k, know_ready k (read_workload daemonset_ready x).1
  | Now => λ x k, know_now k x
  | SetControllerReference _ _ | GVKForObject _ | ToUnstructured _ | UpdateStatus _ => λ _ k, k
  | ConditionNow => λ _ k, k
  | Panic => λ _ k, k
  end.

(** ** What is allowed *)

(** A tap this controller serves. *)
Definition served (tap : NetworkTap) : Prop :=
  m_Namespace (nt_Meta tap) = Settings.c_SystemNamespace cfg ∧ deletion_is_zero (nt_Meta tap) = true ∧
  valid (nt_Spec tap) = [].

(** A live and valid tap with the older claim on the same port. *)
Definition contender (other tap : NetworkTap) : Prop :=
  uid other ≠ uid tap ∧ deletion_is_zero (nt_Meta other) = true ∧ SensorProbePort other = SensorProbePort tap ∧
  MirrorController.olderClaim (nt_Meta other) (nt_Meta tap) = true ∧ valid (nt_Spec other) = [].

Definition selector_of (tap : NetworkTap) : LabelSelector := is_NodeSelector (sourceOf tap).

(** Nothing shows that a tap holds its port on one of [nodes]. *)
Definition cleared (k : knowledge) (other : NetworkTap) (nodes : list str) : Prop :=
  is_Some (selector_error (selector_of other)) ∨ (∃ e, (selector_of other, Err e) ∈ k_listings k) ∨
  ∃ l, (selector_of other, Ok l) ∈ k_listings k ∧ ∀ n, n ∈ l → n ∉ nodes.

(** The tap may have its objects, on these nodes. *)
Definition may_run (k : knowledge) (tap : NetworkTap) (nodes : list str) : Prop :=
  k_tap k = Some tap ∧ served tap ∧ (selector_of tap, Ok nodes) ∈ k_listings k ∧ nodes ≠ [] ∧
  (tps_Type (nt_Spec tap) = TapSourceMirrorInterface → length nodes = 1%nat) ∧
  ∃ taps, k_taps k = Some taps ∧ ∀ other, other ∈ taps → contender other tap → cleared k other nodes.

(** What the tap owns comes first, its workload last. *)
Definition may_apply (k : knowledge) (o : Object_) : Prop :=
  ∃ tap nodes, may_run k tap nodes ∧
    (o ∈ supporting_objects cfg tap ∨ Workload cfg tap = Some o ∧ supporting_objects cfg tap ⊆ k_applied k).

(** Everything said of the targets is withdrawn, for one reason. *)
Definition withdrawn (tap : NetworkTap) (reason message : str) (s : NetworkTapStatus) : Prop :=
  nts_ObservedGeneration s = generation tap ∧ nts_Phase s = TapPhaseError ∧ nts_MatchedTargets s = 0 ∧
  nts_ReadyTargets s = 0 ∧ nts_Targets s = [] ∧ nts_LastPacketTime s = nts_LastPacketTime (nt_Status tap) ∧
  ∀ ty, ty ∈ Status.TypeAccepted :: other_conditions → says s ty ConditionFalse reason message (generation tap).

(** The observations stand, and nothing but acceptance is known. *)
Definition unavailable (tap : NetworkTap) (message : str) (s : NetworkTapStatus) : Prop :=
  nts_ObservedGeneration s = generation tap ∧ nts_Phase s = TapPhaseError ∧
  nts_MatchedTargets s = nts_MatchedTargets (nt_Status tap) ∧ nts_ReadyTargets s = nts_ReadyTargets (nt_Status tap) ∧
  nts_Targets s = nts_Targets (nt_Status tap) ∧ nts_LastPacketTime s = nts_LastPacketTime (nt_Status tap) ∧
  says s Status.TypeAccepted ConditionTrue Status.ReasonAccepted "spec accepted" (generation tap) ∧
  ∀ ty, ty ∈ other_conditions → says s ty ConditionUnknown Status.ReasonDependencyUnavailable message (generation tap).

(** Why a tap may be refused. *)
Definition refusable (k : knowledge) (tap : NetworkTap) (reason : str) : Prop :=
  reason = Status.ReasonWrongNamespace ∧ m_Namespace (nt_Meta tap) ≠ Settings.c_SystemNamespace cfg ∨
  reason = Status.ReasonInvalidSpec ∧ m_Namespace (nt_Meta tap) = Settings.c_SystemNamespace cfg ∧
    deletion_is_zero (nt_Meta tap) = true ∧ valid (nt_Spec tap) ≠ [] ∨
  reason = Status.ReasonNoEligibleTargets ∧ served tap ∧ (selector_of tap, Ok []) ∈ k_listings k ∨
  reason = Status.ReasonAmbiguousTargets ∧ served tap ∧ tps_Type (nt_Spec tap) = TapSourceMirrorInterface ∧
    (∃ nodes, (selector_of tap, Ok nodes) ∈ k_listings k ∧ (1 < length nodes)%nat) ∨
  reason = Status.ReasonProbePortConflict ∧ served tap ∧
    (∃ nodes l n taps other, (selector_of tap, Ok nodes) ∈ k_listings k ∧ k_taps k = Some taps ∧ other ∈ taps ∧
       contender other tap ∧ (selector_of other, Ok l) ∈ k_listings k ∧ n ∈ l ∧ n ∈ nodes).

(** The projection of what this pass saw. *)
Definition projected (k : knowledge) (tap : NetworkTap) (s : NetworkTapStatus) : Prop :=
  ∃ nodes w ready message now, may_run k tap nodes ∧ supporting_objects cfg tap ⊆ k_applied k ∧
    Workload cfg tap = Some w ∧ w ∈ k_applied k ∧ k_ready k = Some (ready, message) ∧ k_now k = Some now ∧
    s = projectNetworkTapStatus rfc3339 (nt_Status tap)
          (mkFacts (generation tap) (Z.of_nat (length nodes)) ready message now).

Definition may_write (k : knowledge) (tap' : NetworkTap) : Prop :=
  ∃ tap, k_tap k = Some tap ∧ nt_Meta tap' = nt_Meta tap ∧ nt_Spec tap' = nt_Spec tap ∧ nt_Status tap' ≠ nt_Status tap ∧
    ((∃ reason message, refusable k tap reason ∧ withdrawn tap reason message (nt_Status tap')) ∨
     (∃ message, served tap ∧ unavailable tap message (nt_Status tap')) ∨
     projected k tap (nt_Status tap')).

(** The tap's own workload, after it was applied. *)
Definition may_read (k : knowledge) (mirror : bool) (namespace name : str) : Prop :=
  ∃ tap w, k_tap k = Some tap ∧ is_mirror tap = mirror ∧ Workload cfg tap = Some w ∧ w ∈ k_applied k ∧
    om_Namespace (object_meta w) = namespace ∧ om_Name (object_meta w) = name.

Definition may (X : Type) (e : tapE X) (k : knowledge) : Prop :=
  match e with
  | Apply o => may_apply k o
  | UpdateStatus t => may_write k t
  | GetDeployment namespace name => may_read k true namespace name
  | GetDaemonSet namespace name => may_read k false namespace name
  | _ => True
  end.

Definition any_answer (X : Type) (e : tapE X) (x : X) : Prop := True.

(** ** The conditions a pass sets *)

Lemma skip_other_spec other tap : skip_other quote other tap = false ↔ contender other tap.
Proof.
  unfold skip_other, contender, incumbent. rewrite !orb_false_iff, !negb_false_iff, Z.eqb_eq, bool_decide_eq_false,
    bool_decide_eq_true. naive_solver.
Qed.

Abbreviation does := (conforms any_answer may track) (only parsing).

(** ** Writing the status *)

Lemma write_does tap s k :
  (s ≠ nt_Status tap → may_write k (with_status tap s)) →
  does (writeStatusIfChanged (with_status tap s) (nt_Status tap)) (λ _ k', k' = k) k.
Proof.
  intros Hw. unfold writeStatusIfChanged. case_bool_decide as E; [done|]. split; [|done].
  apply Hw. intros ->. by apply E.
Qed.

Lemma markError_does tap reason message k :
  k_tap k = Some tap → refusable k tap reason → does (markError tap reason message) (λ _ k', k' = k) k.
Proof.
  intros Hk Hr. unfold markError. apply conforms_bind. eapply conforms_mono; [|by apply set_condition_does].
  intros s1 k1 [-> (E1 & H1 & _ & _)]. apply conforms_bind. eapply conforms_mono; [|by apply set_conditions_does].
  intros s2 k2 [-> (E2 & H2 & K2 & _)]. apply conforms_bind. eapply conforms_mono; [|apply write_does].
  { intros err k' ->. done. }
  intros Hne. exists tap. split_and!; [done..|]. left. exists reason, message. split; [done|].
  cbn [with_status nt_Status]. rewrite E2, E1. split_and!; try done. rewrite <-E1, <-E2.
  intros ty [->|Hin]%elem_of_cons; [|by apply H2]. apply K2; [|apply H1; left].
  by apply (bool_decide_unpack _).
Qed.

Lemma reportUnavailable_does tap doing cause k :
  k_tap k = Some tap → served tap → does (reportUnavailable tap doing cause) (λ _ k', k' = k) k.
Proof.
  intros Hk Hs. unfold reportUnavailable, markUnavailable. do 2 apply conforms_bind.
  eapply conforms_mono; [|by apply set_condition_does].
  intros s1 k1 [-> (E1 & H1 & _ & _)]. apply conforms_bind. eapply conforms_mono; [|by apply set_conditions_does].
  intros s2 k2 [-> (E2 & H2 & K2 & _)]. apply conforms_bind. eapply conforms_mono; [|apply write_does].
  { intros err k' ->. done. }
  intros Hne. exists tap. split_and!; [done..|]. right. left. eexists. split; [done|].
  cbn [with_status nt_Status]. rewrite E2, E1. split_and!; try done; rewrite <-E1, <-E2.
  apply K2; [|apply H1; left]. by apply (bool_decide_unpack _).
Qed.

(** ** Resolving nodes *)

Lemma eligibleNodes_does tap k :
  does (eligibleNodes selector_error tap) (λ res k', match res with
    | Ok nodes => k' = know_listing k (selector_of tap, Ok nodes)
    | Err _ => k' = k ∧ is_Some (selector_error (selector_of tap)) ∨
               ∃ e, k' = know_listing k (selector_of tap, Err e)
    end) k.
Proof.
  unfold eligibleNodes, selector_of. destruct (selector_error _) as [e|] eqn:E; [left; by eexists|].
  split; [done|]. intros [nodes|e] _; [done|]. right. by exists e.
Qed.

(** ** What a pass learns it keeps *)

Definition grown (k k' : knowledge) : Prop :=
  k_tap k' = k_tap k ∧ k_taps k' = k_taps k ∧ k_listings k ⊆ k_listings k' ∧ k_applied k ⊆ k_applied k'.

#[local] Instance grown_preorder : PreOrder grown.
Proof.
  split; [intros k; by split_and!|]. intros k1 k2 k3 (? & ? & ? & ?) (? & ? & ? & ?).
  split_and!; [congruence|congruence|by etrans|by etrans].
Qed.

Lemma grown_listing k l : grown k (know_listing k l).
Proof. split_and!; [done|done|by intros x ?; right|done]. Qed.

Lemma grown_applied k o : grown k (know_applied k o).
Proof. split_and!; [done|done|done|by intros x ?; right]. Qed.

Lemma cleared_grown k k' other nodes : grown k k' → cleared k other nodes → cleared k' other nodes.
Proof.
  intros (_ & _ & Hl & _) [?|[[e He]|(l & Hin & Hd)]]; [by left|right; left|right; right].
  - exists e. by apply Hl.
  - exists l. split; [by apply Hl|done].
Qed.

Lemma may_run_grown k k' tap nodes : grown k k' → may_run k tap nodes → may_run k' tap nodes.
Proof.
  intros Hg (Hk & Hs & Hin & Hne & Hm & taps & Ht & Hc). pose proof Hg as (Et & Es & Hl & _).
  split_and!; [congruence|done|by apply Hl|done|done|]. exists taps. split; [congruence|].
  intros other Ho Hco. eapply cleared_grown; [done|by apply Hc].
Qed.

(** ** Contention *)

Lemma find_shared (nodes mine : list str) n :
  List.find (λ n, bool_decide (n ∈ mine)) nodes = Some n → n ∈ nodes ∧ n ∈ mine.
Proof. intros [Hin%list_elem_of_In Hm%bool_decide_eq_true]%List.find_some. done. Qed.

Lemma find_disjoint (nodes mine : list str) :
  List.find (λ n, bool_decide (n ∈ mine)) nodes = None → ∀ n, n ∈ nodes → n ∉ mine.
Proof. intros Hf n Hin%list_elem_of_In. by apply (List.find_none _ _ Hf), bool_decide_eq_false in Hin. Qed.

Lemma conflict_loop_does tap nodes all taps k :
  k_tap k = Some tap → served tap → (selector_of tap, Ok nodes) ∈ k_listings k → k_taps k = Some all → taps ⊆ all →
  does (conflict_loop quote selector_error tap nodes taps) (λ res k', grown k k' ∧
    (res = None → ∀ other, other ∈ taps → contender other tap → cleared k' other nodes)) k.
Proof.
  revert k. induction taps as [|other taps IH]; intros k Hk Hs Hn Ht Hsub.
  { split; [done|]. by intros _ other ?%elem_of_nil. }
  assert (taps ⊆ all) as Hsub' by (intros x Hx; apply Hsub; by right).
  assert (∀ k1 k', grown k k1 → (contender other tap → cleared k1 other nodes) → grown k1 k' →
    (∀ o, o ∈ taps → contender o tap → cleared k' o nodes) →
    ∀ o, o ∈ other :: taps → contender o tap → cleared k' o nodes) as Hcons.
  { intros k1 k' _ Hc Hg Hall o [->|Ho]%elem_of_cons Hco; [|by apply Hall]. by eapply cleared_grown, Hc. }
  assert (∀ k1, grown k k1 → (contender other tap → cleared k1 other nodes) →
    does (conflict_loop quote selector_error tap nodes taps) (λ res k', grown k k' ∧
      (res = None → ∀ o, o ∈ other :: taps → contender o tap → cleared k' o nodes)) k1) as Hgo.
  { intros k1 Hg Hc. pose proof Hg as (E1 & E2 & Hl & _).
    eapply conforms_mono; [|apply IH; [congruence|done|by apply Hl|congruence|done]].
    intros res k' [Hg' Hall]. split; [by etrans|]. intros Hr. by eapply (Hcons k1), Hall. }
  cbn [conflict_loop]. destruct (skip_other quote other tap) eqn:Esk.
  { apply Hgo; [done|]. intros Hc%skip_other_spec. congruence. }
  apply skip_other_spec in Esk. apply conforms_bind. eapply conforms_mono; [|apply eligibleNodes_does].
  intros [l|e] k1 Hr; cbn beta iota in Hr.
  - subst k1. pose proof (grown_listing k (selector_of other, Ok l)) as Hg. destruct (List.find _ l) as [n|] eqn:Ef.
    + apply find_shared in Ef as [Hnl Hnm]. apply conforms_bind. eapply conforms_mono; [|apply markError_does; [done|]].
      * intros err k' ->. split; [exact Hg|done].
      * do 4 right. split; [done|]. split; [done|]. exists nodes, l, n, all, other.
        split_and!; [by right|done|apply Hsub; left|done|left|done|done].
    + apply Hgo; [done|]. intros _. right. right. exists l. split; [left|by apply find_disjoint].
  - destruct Hr as [[-> He]|[e' ->]].
    + apply Hgo; [done|]. intros _. by left.
    + apply Hgo; [apply grown_listing|]. intros _. right. left. exists e'. left.
Qed.

(** ** Applying *)

Lemma applyOwned_does tap o k :
  may_apply k o → does (applyOwned tap o) (λ err k', grown k k' ∧ (err = None → o ∈ k_applied k')) k.
Proof.
  intros Hm. split; [done|]. intros [u|e] _; [|by split]. split; [done|]. intros [u1|e] _; [|by split].
  split; [done|]. intros [u2|e] _; [|by split]. split; [exact Hm|]. intros [u3|e] _; [|by split].
  split; [apply grown_applied|left].
Qed.

Lemma apply_all_does tap nodes objs k :
  may_run k tap nodes → objs ⊆ supporting_objects cfg tap →
  does (apply_all tap objs) (λ err k', grown k k' ∧ (err = None → objs ⊆ k_applied k')) k.
Proof.
  revert k. induction objs as [|o objs IH]; intros k Hr Hsub; [split; [done|]; by intros _ x ?%elem_of_nil|].
  cbn [apply_all]. apply conforms_bind. eapply conforms_mono; [|apply applyOwned_does].
  - intros [e|] k1 [Hg Ho]; [by split|]. eapply conforms_mono; [|apply IH].
    + intros err k2 [Hg2 Hall]. split; [by etrans|]. intros He x [->|Hx]%elem_of_cons; [|by apply Hall].
      destruct Hg2 as (_ & _ & _ & Ha). by apply Ha, Ho.
    + by eapply may_run_grown.
    + intros x Hx. apply Hsub. by right.
  - exists tap, nodes. split; [done|]. left. apply Hsub. left.
Qed.

Lemma applyOwnedResources_does tap nodes k :
  may_run k tap nodes →
  does (applyOwnedResources cfg tap) (λ err k', grown k k' ∧ (err = None → supporting_objects cfg tap ⊆ k_applied k' ∧
    ∃ w, Workload cfg tap = Some w ∧ w ∈ k_applied k')) k.
Proof.
  intros Hr. unfold applyOwnedResources. apply conforms_bind. eapply conforms_mono; [|by eapply apply_all_does].
  intros [e|] k1 [Hg Hsup]; [by split|]. specialize (Hsup eq_refl). destruct (Workload cfg tap) as [w|] eqn:Ew.
  - eapply conforms_mono; [|apply applyOwned_does].
    + intros err k2 [Hg2 Hw]. split; [by etrans|]. intros He. split; [|by eauto].
      destruct Hg2 as (_ & _ & _ & Ha). by etrans.
    + exists tap, nodes. split; [by eapply may_run_grown|]. by right.
  - split; [done|]. by intros [].
Qed.

(** ** The pass *)

Lemma workloadReady_does tap w k :
  k_tap k = Some tap → Workload cfg tap = Some w → w ∈ k_applied k →
  does (workloadReady tap) (λ res k', k' = know_ready k res.1) k.
Proof.
  intros Hk Hw Hin. pose proof (Workload_template _ _ _ Hw) as (t & _ & _ & Em).
  assert (∀ b, is_mirror tap = b → may_read k b (m_Namespace (nt_Meta tap)) (Names tap).1.1.1) as Hm.
  { intros b Eb. exists tap, w. by rewrite Em. }
  unfold workloadReady, Names in *. cbn [fst] in Hm. destruct (is_mirror tap); (split; [by apply Hm|]); by intros x _.
Qed.

Lemma converge_does tap nodes k : may_run k tap nodes → does (converge cfg rfc3339 tap nodes) (λ _ _, True) k.
Proof.
  intros Hr. unfold converge. apply conforms_bind. eapply conforms_mono; [|by eapply applyOwnedResources_does].
  intros [e|] k1 [Hg Ha].
  { apply conforms_bind. eapply conforms_mono; [|apply reportUnavailable_does]; [done| |].
    - by destruct (may_run_grown _ _ _ _ Hg Hr) as (? & _).
    - by destruct Hr as (_ & ? & _). }
  destruct (Ha eq_refl) as (Hsup & w & Hw & Hin). pose proof (may_run_grown _ _ _ _ Hg Hr) as Hr1.
  pose proof Hr1 as (Hk & _). split; [done|]. intros now _. cbn beta iota delta [prog_bind]. unfold updateStatus. do 2 apply conforms_bind.
  eapply conforms_mono; [|by eapply workloadReady_does]. intros [[ready message] werr] k2 ->. apply conforms_bind.
  eapply conforms_mono; [|apply write_does]; [done|]. intros Hne. exists tap. split_and!; [done..|].
  right. right. exists nodes, w, ready, message, now. by split_and!.
Qed.

Lemma refuse_does {A} tap reason message (f : option str → A) k :
  k_tap k = Some tap → refusable k tap reason →
  does (let! err := markError tap reason message in Ret (f err)) (λ a k', k' = k ∧ ∃ err, a = f err) k.
Proof.
  intros Hk Hr. apply conforms_bind. eapply conforms_mono; [|by apply markError_does].
  intros err k' ->. split; [done|by eexists].
Qed.

(** What lets a tap past the node checks. *)
Lemma cardinality_does tap nodes k :
  k_tap k = Some tap → served tap → (selector_of tap, Ok nodes) ∈ k_listings k →
  does (checkTargetCardinality tap nodes) (λ stop k', k' = k ∧
    (stop = None → nodes ≠ [] ∧ (tps_Type (nt_Spec tap) = TapSourceMirrorInterface → length nodes = 1%nat))) k.
Proof.
  intros Hk Hs Hn. unfold checkTargetCardinality. case_bool_decide as E.
  { apply length_zero_iff_nil in E. subst. eapply conforms_mono; [|apply refuse_does; [done|]].
    - by intros stop k' [-> [err ->]].
    - by do 2 right; left. }
  destruct (is_mirror tap && _) eqn:Em.
  - apply andb_true_iff in Em as [Hm%bool_decide_eq_true Hl%Z.ltb_lt]. eapply conforms_mono; [|apply refuse_does; [done|]].
    + by intros stop k' [-> [err ->]].
    + do 3 right. left. split_and!; [done..|]. exists nodes. split; [done|lia].
  - split; [done|]. intros _. split; [by intros ->|]. intros Hm. unfold is_mirror in Em.
    rewrite bool_decide_eq_true_2 in Em by done. apply Z.ltb_ge in Em. lia.
Qed.

Lemma conflict_does tap nodes k :
  k_tap k = Some tap → served tap → (selector_of tap, Ok nodes) ∈ k_listings k → nodes ≠ [] →
  (tps_Type (nt_Spec tap) = TapSourceMirrorInterface → length nodes = 1%nat) →
  does (checkProbePortConflict quote selector_error tap nodes) (λ stop k', stop = None → may_run k' tap nodes) k.
Proof.
  intros Hk Hs Hn Hne Hm. split; [done|]. intros [taps|e] _; cbn beta iota delta [prog_bind].
  - eapply conforms_mono; [|by eapply (conflict_loop_does _ _ taps)]. intros stop k' [(Ek & Et & Hl & _) Hall] Hstop.
    split_and!; [by rewrite Ek|done|by apply Hl|done|done|]. exists taps. split; [done|by apply Hall].
  - apply conforms_bind. eapply conforms_mono; [|by apply reportUnavailable_does]. done.
Qed.

Lemma reconcile_does namespace name :
  does (Reconcile cfg aggregate quote rfc3339 selector_error namespace name) (λ _ _, True) start.
Proof.
  split; [done|]. intros [tap|e] _; [|by destruct e]. cbn beta iota delta [prog_bind].
  set (k := know_tap start tap). case_bool_decide as Hns; cbn [negb].
  2:{ eapply conforms_mono; [|apply refuse_does; [done|by left]]. done. }
  destruct (deletion_is_zero (nt_Meta tap)) eqn:Hd; [|done]. cbn [negb].
  destruct (valid (nt_Spec tap)) eqn:Hv.
  2:{ eapply conforms_mono; [|apply refuse_does; [done|]]; [done|]. right. left. rewrite Hv. by split_and!. }
  assert (served tap) as Hs by by split_and!.
  apply conforms_bind. eapply conforms_mono; [|apply eligibleNodes_does]. intros [nodes|e] k1 Hr; cbn beta iota in Hr.
  2:{ apply conforms_bind. eapply conforms_mono; [|apply reportUnavailable_does]; [done| |done].
      by destruct Hr as [[-> _]|[e' ->]]. }
  subst k1. apply conforms_bind. eapply conforms_mono; [|apply cardinality_does; [done|done|left]].
  intros [err|] k2 [-> Hc]; [done|]. destruct (Hc eq_refl) as [Hne Hm].
  apply conforms_bind. eapply conforms_mono; [|apply conflict_does; [done|done|left|done|done]].
  intros [err|] k3 Hrun; [done|]. by apply converge_does, Hrun.
Qed.

End contract.

(** C3: The tap controller keeps its contract.  Whatever the API server and
    the clocks answer, and wherever a pass is cut off: an object is applied
    only for a live, valid tap of the system namespace whose selector, on this
    very pass, found nodes (one, for a mirror) and against which none of the
    taps just listed that is live, valid and older on the same probe port is
    shown to share one of those nodes; the workload goes last; the workload
    read is that tap's own, after it was applied; and a status is written only
    when it changed, as a refusal for a reason that holds, as an unavailable
    dependency that leaves every observation standing, or as the projection of
    what this pass observed once everything had been applied. *)
Theorem tap_refines_contract `{Quantities} cfg aggregate quote rfc3339 selector_error namespace name l :
  partial any_answer (Reconcile cfg aggregate quote rfc3339 selector_error namespace name) l →
  accepts (may cfg quote rfc3339 selector_error) track start l.
Proof. apply conforms_accepts with (Q := λ _ _, True). apply reconcile_does. Qed.

End TapContract.
