(* ===== verification/TapSettles.v ===== *)
(** * A tap's pass, decided and repeated

    [verdict_of] is what a pass makes of its surroundings, as a function of
    what the API server answers: the decisions of [Reconcile] without its
    writes.  A pass leaves the stored tap as its verdict says, and a pass over
    such a tap writes nothing: this is the idempotence networktap_controller.go
    claims for [Reconcile].  The end of the file is an example cluster. *)

From S2P Require Import Prelude GoTime GoString Sanitize Api Status Settings Objects Render TapStatus.
From S2P Require Import Prog Admission TapWebhook TapWorkload Kube MirrorController TapController TapContract.

Module TapSettles.
Import Objects Kube TapWorkload TapStatus TapController.

(** What the API server answers during a pass; a status update succeeds. *)
Record surroundings := mkSurroundings {
  su_taps : result str (list NetworkTap);
  su_nodes : LabelSelector → result str (list str);
  su_owner : Object_ → result str unit;
  su_gvk : Object_ → result str unit;
  su_unstructured : Object_ → result str unit;
  su_apply : Object_ → result str unit;
  su_deployment : str → str → result kube_error DeploymentStatus;
  su_daemonset : str → str → result kube_error DaemonSetStatus;
}.

(** The answers to a pass over [tap]: the clock reads [now] for the facts, and
    anything for a condition. *)
Definition answers (env : surroundings) (tap : NetworkTap) (now : time) (X : Type) (e : tapE X) : X → Prop :=
  match e with
  | GetTap _ _ => λ x, x = Ok tap
  | ListTaps => λ x, x = su_taps env
  | ListNodes sel => λ x, x = su_nodes env sel
  | SetControllerReference _ o => λ x, x = su_owner env o
  | GVKForObject o => λ x, x = su_gvk env o
  | ToUnstructured o => λ x, x = su_unstructured env o
  | Apply o => λ x, x = su_apply env o
  | GetDeployment namespace name => λ x, x = su_deployment env namespace name
  | GetDaemonSet namespace name => λ x, x = su_daemonset env namespace name
  | UpdateStatus _ => λ x, is_ok x = true
  | ConditionNow => λ _, True
  | Now => λ x, x = now
  | Panic => λ _, False
  end.

(** The tap as stored, and how often it was written. *)
Definition store (X : Type) (e : tapE X) (x : X) (s : NetworkTap * nat) : NetworkTap * nat :=
  match e with UpdateStatus t => (t, S s.2) | _ => s end.

Definition anything (X : Type) (e : tapE X) (s : NetworkTap * nat) : Prop := True.

Section verdicts.
Context `{Quantities} (cfg : Settings.Config) (aggregate : list Admission.field_error → str) (quote : str → str)
  (rfc3339 : time → str) (selector_error : LabelSelector → option str) (env : surroundings).

Abbreviation valid := (TapWebhook.ValidateNetworkTapSpec quote) (only parsing).

Inductive verdict :=
  | Leave
  | Refuse (reason message : str)
  | Unavailable (message : str)
  | Observe (matched : Z) (ready : ConditionStatus) (message : str).

Definition resolve (tap : NetworkTap) : result str (list str) :=
  match selector_error (TapContract.selector_of tap) with
  | Some err => Err (Sanitize.Errorf "invalid node selector: " err)
  | None =>
      match su_nodes env (TapContract.selector_of tap) with
      | Ok nodes => Ok nodes
      | Err err => Err (Sanitize.Errorf "listing nodes: " err)
      end
  end.

Fixpoint blocker (tap : NetworkTap) (mine : list str) (taps : list NetworkTap) : option (NetworkTap * str) :=
  match taps with
  | [] => None
  | other :: taps =>
      if skip_other quote other tap then blocker tap mine taps else
      match resolve other with
      | Err _ => blocker tap mine taps
      | Ok nodes =>
          match List.find (λ n, bool_decide (n ∈ mine)) nodes with
          | Some n => Some (other, n)
          | None => blocker tap mine taps
          end
      end
  end.

Definition applied (o : Object_) : option str :=
  match su_owner env o, su_gvk env o, su_unstructured env o, su_apply env o with
  | Err e, _, _, _ => Some (Sanitize.Errorf "setting owner reference: " e)
  | _, Err e, _, _ => Some (Sanitize.Errorf "resolving owned resource kind: " e)
  | _, _, Err e, _ => Some (Sanitize.Errorf "encoding owned resource for apply: " e)
  | _, _, _, Err e => Some (Sanitize.Errorf "applying owned resource: " e)
  | _, _, _, _ => None
  end.

(** The first object the API server does not take. *)
Fixpoint first_refused (objs : list Object_) : option str :=
  match objs with
  | [] => None
  | o :: objs => match applied o with Some e => Some e | None => first_refused objs end
  end.

Definition workload_seen (tap : NetworkTap) : ConditionStatus * str * option str :=
  let '(name, _, _, _) := Names tap in
  if is_mirror tap then read_workload deployment_ready (su_deployment env (m_Namespace (nt_Meta tap)) name)
  else read_workload daemonset_ready (su_daemonset env (m_Namespace (nt_Meta tap)) name).

Definition unavailable_message (doing cause : str) : str := doing +:+ ": " +:+ cause.

Definition apply_failure (e : str) : verdict := Unavailable (unavailable_message "applying the tap's owned resources" e).

(** A workload that cannot be rendered ends the pass in a panic. *)
Definition converged (tap : NetworkTap) (nodes : list str) : verdict :=
  match first_refused (supporting_objects cfg tap) with
  | Some e => apply_failure e
  | None =>
      match Workload cfg tap with
      | None => Leave
      | Some w =>
          match applied w with
          | Some e => apply_failure e
          | None => let '(ready, message, _) := workload_seen tap in Observe (Z.of_nat (length nodes)) ready message
          end
      end
  end.

Definition verdict_on (tap : NetworkTap) (nodes : list str) : verdict :=
  if bool_decide (length nodes = 0%nat)
  then Refuse Status.ReasonNoEligibleTargets "the node selector matched no nodes"
  else if is_mirror tap && (1 <? Z.of_nat (length nodes))
  then Refuse Status.ReasonAmbiguousTargets
         ("a mirror source must match exactly one node; the selector matched " +:+ itoa (Z.of_nat (length nodes)))
  else
    match su_taps env with
    | Err e => Unavailable (unavailable_message "listing taps to check probe ports" e)
    | Ok taps =>
        match blocker tap nodes taps with
        | Some (other, n) => Refuse Status.ReasonProbePortConflict (conflict_text other n (SensorProbePort tap))
        | None => converged tap nodes
        end
    end.

Definition verdict_of (tap : NetworkTap) : verdict :=
  if negb (bool_decide (m_Namespace (nt_Meta tap) = Settings.c_SystemNamespace cfg))
  then Refuse Status.ReasonWrongNamespace
         ("NetworkTap resources are reconciled only in " +:+ quote (Settings.c_SystemNamespace cfg))
  else if negb (deletion_is_zero (nt_Meta tap)) then Leave
  else
    match valid (nt_Spec tap) with
    | (_ :: _) as errs => Refuse Status.ReasonInvalidSpec (aggregate errs)
    | [] =>
        match resolve tap with
        | Err e => Unavailable (unavailable_message "resolving eligible nodes" e)
        | Ok nodes => verdict_on tap nodes
        end
    end.

(** The stored status says it already. *)
Definition stands (v : verdict) (now : time) (tap : NetworkTap) : Prop :=
  match v with
  | Leave => True
  | Refuse reason message => TapContract.withdrawn tap reason message (nt_Status tap)
  | Unavailable message => TapContract.unavailable tap message (nt_Status tap)
  | Observe matched ready message =>
      projectNetworkTapStatus rfc3339 (nt_Status tap) (mkFacts (generation tap) matched ready message now) = nt_Status tap
  end.

(** What a pass makes of the store: the same object, saying the verdict, and
    unwritten where it said so before. *)
Definition settled (v : verdict) (now : time) (tap : NetworkTap) (n : nat) (s : NetworkTap * nat) : Prop :=
  nt_Meta s.1 = nt_Meta tap ∧ nt_Spec s.1 = nt_Spec tap ∧ stands v now s.1 ∧ (stands v now tap → s.2 = n).

(** ** A pass reaches its verdict *)

Context (tap : NetworkTap) (now : time).
Abbreviation does := (conforms (answers env tap now) anything store) (only parsing).
Abbreviation at_rest := (λ n s, s = (tap, n)) (only parsing).

Lemma stands_refuse s reason message :
  nts_ObservedGeneration s = generation tap → nts_Phase s = TapPhaseError → nts_MatchedTargets s = 0 →
  nts_ReadyTargets s = 0 → nts_Targets s = [] →
  (∀ ty, ty ∈ Status.TypeAccepted :: other_conditions → says s ty ConditionFalse reason message (generation tap)) →
  stands (Refuse reason message) now (with_status tap s).
Proof. intros. by split_and!. Qed.

Lemma write_settles v s n :
  stands v now (with_status tap s) → (stands v now tap → s = nt_Status tap) →
  does (writeStatusIfChanged (with_status tap s) (nt_Status tap)) (λ _, settled v now tap n) (tap, n).
Proof.
  intros Hs Hi. unfold writeStatusIfChanged. case_bool_decide as E.
  - cbn [with_status nt_Status] in E. rewrite <-E in Hs. split_and!; [done|done| |done]. by destruct tap.
  - split; [done|]. intros x _. split_and!; [done|done|done|]. intros Hst. exfalso. apply E. by rewrite Hi.
Qed.

Lemma markError_settles reason message n :
  does (markError tap reason message) (λ _, settled (Refuse reason message) now tap n) (tap, n).
Proof.
  unfold markError. apply conforms_bind. eapply conforms_mono; [|by apply set_condition_does].
  intros s1 k1 [-> (E1 & H1 & _ & I1)]. apply conforms_bind. eapply conforms_mono; [|by apply set_conditions_does].
  intros s2 k2 [-> (E2 & H2 & K2 & I2)]. apply conforms_bind. eapply conforms_mono; [|apply write_settles].
  { intros err k' Hk. exact Hk. }
  - apply stands_refuse; [rewrite E2, E1; done..|]. intros ty [->|Hin]%elem_of_cons; [|by apply H2].
    apply K2; [by apply (bool_decide_unpack _)|apply H1; left].
  - intros (G & P & M & R & T & _ & C). assert (s1 = nt_Status tap) as ->.
    { rewrite I1. - destruct (nt_Status tap); simpl in *; congruence.
      - intros ty ->%list_elem_of_singleton. apply (C Status.TypeAccepted). left. }
    apply I2. intros ty Hin. apply C. by right.
Qed.

Lemma unavailable_settles doing cause n :
  does (reportUnavailable tap doing cause)
    (λ _, settled (Unavailable (unavailable_message doing cause)) now tap n) (tap, n).
Proof.
  unfold reportUnavailable, markUnavailable. do 2 apply conforms_bind.
  eapply conforms_mono; [|by apply set_condition_does].
  intros s1 k1 [-> (E1 & H1 & _ & I1)]. apply conforms_bind. eapply conforms_mono; [|by apply set_conditions_does].
  intros s2 k2 [-> (E2 & H2 & K2 & I2)]. apply conforms_bind. eapply conforms_mono; [|apply write_settles].
  { intros err k' Hk. exact Hk. }
  - split; [by rewrite E2, E1|]. split; [by rewrite E2, E1|]. do 4 (split; [done|]).
    split; [|exact H2]. apply K2; [by apply (bool_decide_unpack _)|apply H1; left].
  - intros (G & P & _ & _ & _ & _ & A & C). assert (s1 = nt_Status tap) as ->.
    { rewrite I1. - destruct (nt_Status tap); simpl in *; congruence.
      - intros ty ->%list_elem_of_singleton. exact A. }
    apply I2. intros ty Hin. by apply C.
Qed.

Lemma eligibleNodes_resolves t s :
  does (eligibleNodes selector_error t) (λ res s', s' = s ∧ res = resolve t) s.
Proof.
  unfold eligibleNodes, resolve, TapContract.selector_of. destruct (selector_error _); [done|]. split; [done|].
  intros x ->. by destruct (su_nodes env _).
Qed.

Lemma conflict_loop_blocks mine taps n :
  does (conflict_loop quote selector_error tap mine taps) (λ stop s,
    match blocker tap mine taps with
    | Some (other, node) => is_Some stop ∧
        settled (Refuse Status.ReasonProbePortConflict (conflict_text other node (SensorProbePort tap))) now tap n s
    | None => stop = None ∧ s = (tap, n)
    end) (tap, n).
Proof.
  induction taps as [|other taps IH]; [done|]. cbn [conflict_loop blocker].
  destruct (skip_other quote other tap); [exact IH|]. apply conforms_bind.
  eapply conforms_mono; [|apply eligibleNodes_resolves]. intros res k [-> ->].
  destruct (resolve other) as [nodes|e]; [|exact IH].
  destruct (List.find _ nodes) as [node|]; [|exact IH]. apply conforms_bind.
  eapply conforms_mono; [|apply markError_settles]. intros err k Hk. by split.
Qed.

Lemma applyOwned_applies o s : does (applyOwned tap o) (λ err s', s' = s ∧ err = applied o) s.
Proof.
  unfold applyOwned, applied. split; [done|]. intros x ->. destruct (su_owner env o); [|done].
  split; [done|]. intros x ->. destruct (su_gvk env o); [|done].
  split; [done|]. intros x ->. destruct (su_unstructured env o); [|done].
  split; [done|]. intros x ->. by destruct (su_apply env o).
Qed.

Lemma apply_all_applies objs s : does (apply_all tap objs) (λ err s', s' = s ∧ err = first_refused objs) s.
Proof.
  induction objs as [|o objs IH]; [done|]. cbn [apply_all first_refused]. apply conforms_bind.
  eapply conforms_mono; [|apply applyOwned_applies]. intros err k [-> ->]. by destruct (applied o).
Qed.

Lemma updateStatus_settles matched n :
  let '(ready, message, _) := workload_seen tap in
  does (updateStatus rfc3339 tap matched now) (λ _, settled (Observe matched ready message) now tap n) (tap, n).
Proof.
  assert (does (workloadReady tap) (λ res s, s = (tap, n) ∧ res = workload_seen tap) (tap, n)) as Hw.
  { unfold workloadReady, workload_seen, Names. destruct (is_mirror tap); (split; [done|]; by intros x ->). }
  destruct (workload_seen tap) as [[ready message] werr]. unfold updateStatus. apply conforms_bind.
  eapply conforms_mono; [|exact Hw]. intros res k [-> ->]. apply conforms_bind.
  eapply conforms_mono; [|apply write_settles]; [intros err k Hk; exact Hk| |intros Hs; exact Hs].
  exact (project_fresh rfc3339 (nt_Status tap) (mkFacts (generation tap) matched ready message now) now (λ t _, eq_refl)).
Qed.

Lemma converge_settles nodes n :
  does (converge cfg rfc3339 tap nodes) (λ _, settled (converged tap nodes) now tap n) (tap, n).
Proof.
  unfold converge, applyOwnedResources, converged. do 2 apply conforms_bind.
  eapply conforms_mono; [|apply apply_all_applies]. intros err k [-> ->]. destruct (first_refused _) as [e|].
  { apply conforms_bind. eapply conforms_mono; [|apply unavailable_settles]. done. }
  destruct (Workload cfg tap) as [w|]; [|by split].
  eapply conforms_mono; [|apply applyOwned_applies]. intros err k [-> ->]. destruct (applied w) as [e|].
  { apply conforms_bind. eapply conforms_mono; [|apply unavailable_settles]. done. }
  split; [done|]. intros x ->. pose proof (updateStatus_settles (Z.of_nat (length nodes)) n) as Hu.
  destruct (workload_seen tap) as [[ready message] werr]. cbn beta iota delta [prog_bind]. apply conforms_bind.
  eapply conforms_mono; [|exact Hu]. done.
Qed.

Lemma verdict_on_settles nodes n :
  does (let! stop := checkTargetCardinality tap nodes in
        match stop with
        | Some err => Ret (0, err)
        | None =>
            let! stop := checkProbePortConflict quote selector_error tap nodes in
            match stop with Some err => Ret (0, err) | None => converge cfg rfc3339 tap nodes end
        end) (λ _, settled (verdict_on tap nodes) now tap n) (tap, n).
Proof.
  assert (∀ reason message (f : option str → Result), does
    (prog_bind (let! err := markError tap reason message in Ret (Some err)) (λ stop, match stop with
       | Some err => Ret (f err) | None => let! stop := checkProbePortConflict quote selector_error tap nodes in
            match stop with Some err => Ret (0, err) | None => converge cfg rfc3339 tap nodes end end))
    (λ _, settled (Refuse reason message) now tap n) (tap, n)) as Hrefuse.
  { intros reason message f. do 2 apply conforms_bind. eapply conforms_mono; [|apply markError_settles]. done. }
  unfold verdict_on, checkTargetCardinality at 1. case_bool_decide; [apply Hrefuse|].
  destruct (is_mirror tap && _); [apply Hrefuse|]. split; [done|]. intros x ->.
  destruct (su_taps env) as [taps|e]; cbn beta iota delta [prog_bind]; apply conforms_bind.
  - eapply conforms_mono; [|apply conflict_loop_blocks]. intros stop k Hb.
    destruct (blocker tap nodes taps) as [[other node]|]; [by destruct Hb as [[err ->] Hb]|].
    destruct Hb as [-> ->]. apply converge_settles.
  - apply conforms_bind. eapply conforms_mono; [|apply unavailable_settles]. done.
Qed.

Lemma Reconcile_settles namespace name n :
  does (Reconcile cfg aggregate quote rfc3339 selector_error namespace name)
    (λ _, settled (verdict_of tap) now tap n) (tap, n).
Proof.
  split; [done|]. intros x ->. cbn beta iota delta [prog_bind]. unfold verdict_of. destruct (negb _).
  { apply conforms_bind. eapply conforms_mono; [|apply markError_settles]. done. }
  destruct (negb _); [by split|]. destruct (valid (nt_Spec tap)).
  2:{ apply conforms_bind. eapply conforms_mono; [|apply markError_settles]. done. }
  apply conforms_bind. eapply conforms_mono; [|apply eligibleNodes_resolves]. intros res k [-> ->].
  destruct (resolve tap) as [nodes|e]; [apply verdict_on_settles|].
  apply conforms_bind. eapply conforms_mono; [|apply unavailable_settles]. done.
Qed.

End verdicts.

(** ** Twice *)

Section twice.
Context `{Quantities} (cfg : Settings.Config) (aggregate : list Admission.field_error → str) (quote : str → str)
  (rfc3339 : time → str) (selector_error : LabelSelector → option str) (env : surroundings).

(** The verdict reads a tap's metadata and spec. *)
Lemma blocker_status m s st st' mine taps :
  blocker quote selector_error env (mkNetworkTap m s st) mine taps =
  blocker quote selector_error env (mkNetworkTap m s st') mine taps.
Proof. induction taps as [|o taps IH]; [done|]. cbn [blocker]. by rewrite IH. Qed.

Lemma verdict_status tap tap' :
  nt_Meta tap' = nt_Meta tap → nt_Spec tap' = nt_Spec tap →
  verdict_of cfg aggregate quote selector_error env tap' = verdict_of cfg aggregate quote selector_error env tap.
Proof.
  destruct tap as [m s st], tap' as [m' s' st']. cbn [nt_Meta nt_Spec]. intros -> ->.
  unfold verdict_of. cbn [nt_Meta nt_Spec]. destruct (negb _); [done|]. destruct (negb _); [done|].
  destruct (TapWebhook.ValidateNetworkTapSpec _ _); [|done].
  change (resolve selector_error env (mkNetworkTap m s st')) with (resolve selector_error env (mkNetworkTap m s st)).
  destruct (resolve _ _ _) as [nodes|]; [|done]. unfold verdict_on. case_bool_decide; [done|].
  change (is_mirror (mkNetworkTap m s st')) with (is_mirror (mkNetworkTap m s st)). destruct (is_mirror _ && _); [done|].
  destruct (su_taps env) as [taps|]; [|done]. rewrite (blocker_status m s st' st). destruct (blocker _ _ _ _ _ _) as [[]|]; done.
Qed.

(** Nothing said changes before the next report goes stale. *)
Lemma stands_until v now now' tap :
  let wake := nextHeartbeatExpiry (nts_Targets (nt_Status tap)) now in
  now ≤ now' → (wake = 0 ∨ now' < now + wake) → stands rfc3339 v now tap → stands rfc3339 v now' tap.
Proof.
  intros wake Hle Hw Hs. destruct v; [exact Hs..|]. cbn [stands] in *.
  pose proof (project_fresh rfc3339 (nt_Status tap) (mkFacts (generation tap) matched ready message now) now'
    (fresh_until _ _ _ Hle Hw)) as Hp. cbn zeta in Hp. rewrite Hs in Hp. exact Hp.
Qed.

(** The statuses a run wrote. *)
Fixpoint writes (l : list (event tapE)) : list NetworkTap :=
  match l with
  | [] => []
  | Ev (UpdateStatus t) _ :: l => t :: writes l
  | _ :: l => writes l
  end.

Definition stored (tap : NetworkTap) (l : list (event tapE)) : NetworkTap := List.last (writes l) tap.

Lemma last_cons_default {A} (x d : A) l : List.last (x :: l) d = List.last l x.
Proof.
  revert x d. induction l as [|y l IH]; intros x d; [done|]. 
  change (List.last (y :: l) d = List.last (y :: l) x). by rewrite !IH.
Qed.

Lemma tracked_writes tap n l : tracked store (tap, n) l = (stored tap l, (n + length (writes l))%nat).
Proof.
  revert tap n. unfold stored. induction l as [|[X e x] l IH]; intros tap n; [by rewrite Nat.add_0_r|].
  cbn [tracked foldl]. fold (tracked store (store X e x (tap, n)) l). destruct e; cbn [store writes]; rewrite IH; try done.
  cbn [snd length]. f_equal; [by rewrite last_cons_default|lia].
Qed.

End twice.

(** C14: Reconciling a tap is idempotent, as its documentation says.  Let a
    pass run to its end while the API server takes its writes, and let a second
    pass find the same surroundings, at any clock that the stored reports do
    not yet tell from the first: the second writes no status at all, whichever
    branch the first took, a refusal, an unavailable dependency or a
    projection.  So the watch event a pass's own write causes ends there. *)
Theorem tap_pass_settles `{Quantities} cfg aggregate quote rfc3339 selector_error env namespace name tap now l r now' l' r' :
  let pass := Reconcile cfg aggregate quote rfc3339 selector_error namespace name in
  let tap' := stored tap l in
  let wake := nextHeartbeatExpiry (nts_Targets (nt_Status tap')) now in
  returns (answers env tap now) pass l r →
  now ≤ now' → (wake = 0 ∨ now' < now + wake) →
  returns (answers env tap' now') pass l' r' →
  writes l' = [].
Proof.
  intros pass tap' wake Hr Hle Hw Hr'.
  pose proof (conforms_returns _ _ _ _ _ _ _ _ (Reconcile_settles cfg aggregate quote rfc3339 selector_error env tap now
    namespace name 0) Hr) as Hs. rewrite tracked_writes in Hs. destruct Hs as (Hm & Hsp & Hst & _).
  pose proof (conforms_returns _ _ _ _ _ _ _ _ (Reconcile_settles cfg aggregate quote rfc3339 selector_error env tap' now'
    namespace name 0) Hr') as Hs'. rewrite tracked_writes in Hs'. destruct Hs' as (_ & _ & _ & Hn).
  apply length_zero_iff_nil. apply Hn. cbn [fst] in *. rewrite (verdict_status _ _ _ _ _ tap tap' Hm Hsp).
  by apply (stands_until rfc3339 _ now).
Qed.


(** ** A claim from outside *)

Lemma blocker_found quote selector_error env tap mine taps other l n :
  other ∈ taps → TapContract.contender quote other tap → resolve selector_error env other = Ok l → n ∈ l → n ∈ mine →
  ∃ o n', blocker quote selector_error env tap mine taps = Some (o, n').
Proof.
  intros Hin Hc Hr Hl Hm. induction Hin as [taps|other t taps _ IH]; cbn [blocker].
  - apply TapContract.skip_other_spec in Hc. rewrite Hc, Hr. destruct (List.find _ l) as [x|] eqn:E; [by eauto|].
    by destruct (TapContract.find_disjoint _ _ E n Hl).
  - specialize (IH Hc Hr). destruct (skip_other _ _ _); [done|]. destruct (resolve _ _ t) as [l'|]; [|done].
    destruct (List.find _ l'); [by eauto|done].
Qed.

(** A tap that can never run blocks one that could.  The conflict check
    lists the taps of every namespace and passes over those being deleted or
    invalid, because they hold no port, but not over those outside the system
    namespace, which hold none either: each is refused as WrongNamespace and
    never gets a workload, and yet a served tap that shares its probe port and
    one of its nodes is refused with ProbePortConflict for as long as the older
    one exists. *)
Theorem foreign_claim_blocks `{Quantities} cfg aggregate quote selector_error env tap other nodes l n taps :
  TapContract.served cfg quote tap → resolve selector_error env tap = Ok nodes →
  (tps_Type (nt_Spec tap) = TapSourceMirrorInterface → length nodes = 1%nat) →
  su_taps env = Ok taps → other ∈ taps → TapContract.contender quote other tap →
  m_Namespace (nt_Meta other) ≠ Settings.c_SystemNamespace cfg →
  resolve selector_error env other = Ok l → n ∈ l → n ∈ nodes →
  (∃ message, verdict_of cfg aggregate quote selector_error env tap = Refuse Status.ReasonProbePortConflict message) ∧
  ∃ message, verdict_of cfg aggregate quote selector_error env other = Refuse Status.ReasonWrongNamespace message.
Proof.
  intros (Hns & Hd & Hv) Hr Hm Ht Hin Hc Hfar Hro Hl Hn. split.
  - unfold verdict_of. rewrite bool_decide_eq_true_2, Hd, Hv, Hr by done. cbn [negb]. unfold verdict_on.
    rewrite bool_decide_eq_false_2 by (destruct nodes; [by apply elem_of_nil in Hn|done]).
    destruct (is_mirror tap && _) eqn:E.
    { apply andb_true_iff in E as [Hmi%bool_decide_eq_true Hlen%Z.ltb_lt]. specialize (Hm Hmi). lia. }
    rewrite Ht. destruct (blocker_found quote selector_error env tap nodes taps other l n) as (o & n' & ->); [done..|].
    by eexists.
  - unfold verdict_of. rewrite bool_decide_eq_false_2 by done. by eexists.
Qed.

(** ** An example cluster *)

Definition example_foreign : NetworkTap :=
  mkNetworkTap (mkMeta "tap-138" "lab" "aaaa" 1 (-5) None ∅ []) (nt_Spec example_tap) (nt_Status example_tap).

Definition example_cluster (taps : list NetworkTap) : surroundings := {|
  su_taps := Ok taps;
  su_nodes _ := Ok ["node-a"; "node-b"];
  su_owner _ := Ok tt; su_gvk _ := Ok tt; su_unstructured _ := Ok tt; su_apply _ := Ok tt;
  su_deployment _ _ := Err (NotFound "none");
  su_daemonset _ _ := Ok (mkDaemonSetStatus 1 1 2 2 2);
|}.

(** Every call but a panic answered, each clock with [now]. *)
Definition answer (env : surroundings) (tap : NetworkTap) (now : time) (X : Type) (e : tapE X) : unit → option (X * unit) :=
  match e with
  | GetTap _ _ => λ s, Some (Ok tap, s)
  | ListTaps => λ s, Some (su_taps env, s)
  | ListNodes sel => λ s, Some (su_nodes env sel, s)
  | SetControllerReference _ o => λ s, Some (su_owner env o, s)
  | GVKForObject o => λ s, Some (su_gvk env o, s)
  | ToUnstructured o => λ s, Some (su_unstructured env o, s)
  | Apply o => λ s, Some (su_apply env o, s)
  | GetDeployment namespace name => λ s, Some (su_deployment env namespace name, s)
  | GetDaemonSet namespace name => λ s, Some (su_daemonset env namespace name, s)
  | UpdateStatus t => λ s, Some (Ok t, s)
  | ConditionNow | Now => λ s, Some (now, s)
  | Panic => λ _, None
  end.

Lemma tap_answer_honest env tap now X (e : tapE X) s x s' : answer env tap now X e s = Some (x, s') → answers env tap now X e x.
Proof. destruct e; cbn; intros [= <-]; done. Qed.

Definition example_pass (r : str) : prog tapE Result :=
  @Reconcile example_library example_config (λ _, "invalid") (λ s, s) (λ _, "then") (λ _, None) "trawl-system" r.

Definition example_run (tap : NetworkTap) (now : time) : list (event tapE) * option Result :=
  run_while (answer (example_cluster [example_tap]) tap now) (example_pass "edge") tt.

Lemma example_returns tap now r :
  (example_run tap now).2 = Some r →
  returns (answers (example_cluster [example_tap]) tap now) (example_pass "edge") (example_run tap now).1 r.
Proof. apply run_while_returns. intros X e s x s'. apply tap_answer_honest. Qed.

(** The first pass writes once, and its second not at all. *)
Lemma tap_pass_settles_witness :
  let first := (example_run example_tap 10).1 in
  length (writes first) = 1%nat ∧ writes (example_run (stored example_tap first) 20).1 = [].
Proof.
  cbv zeta. split; [vm_compute; reflexivity|].
  eapply (@tap_pass_settles example_library example_config (λ _, "invalid") (λ s, s) (λ _, "then") (λ _, None)
    (example_cluster [example_tap]) "trawl-system" "edge" example_tap 10 (example_run example_tap 10).1 _ 20).
  - apply example_returns. vm_compute. reflexivity.
  - lia.
  - left. vm_compute. reflexivity.
  - apply example_returns. vm_compute. reflexivity.
Defined.

(** The pass applies its five objects, and keeps its contract. *)
Lemma tap_refines_contract_witness :
  let l := (example_run example_tap 10).1 in
  length l = 26%nat ∧
  accepts (@TapContract.may example_library example_config (λ s, s) (λ _, "then") (λ _, None)) TapContract.track
    TapContract.start l.
Proof.
  split; [vm_compute; reflexivity|].
  eapply (@TapContract.tap_refines_contract example_library example_config (λ _, "invalid")).
  apply (run_while_partial _ (answer (example_cluster [example_tap]) example_tap 10) (example_pass "edge") tt). done.
Defined.

(** The two share a port and both nodes. *)
Lemma foreign_claim_blocks_witness :
  SensorProbePort example_foreign = SensorProbePort example_tap ∧
  ∃ message, @verdict_of example_library example_config (λ _, "invalid") (λ s, s) (λ _, None)
    (example_cluster [example_foreign; example_tap]) example_tap = Refuse Status.ReasonProbePortConflict message.
Proof.
  split; [vm_compute; reflexivity|].
  eapply (@foreign_claim_blocks example_library example_config (λ _, "invalid") (λ s, s) (λ _, None)
    (example_cluster [example_foreign; example_tap]) example_tap example_foreign ["node-a"; "node-b"]
    ["node-a"; "node-b"] "node-a" [example_foreign; example_tap]).
  - repeat split; vm_compute; reflexivity.
  - reflexivity.
  - discriminate.
  - reflexivity.
  - left.
  - split; [discriminate|]. repeat split; vm_compute; reflexivity.
  - discriminate.
  - reflexivity.
  - left.
  - left.
Defined.

End TapSettles.
