(* ===== verification/Custody.v ===== *)
(** * What a capture's controllers promise together

    The capture controller and the retention controller work on the same
    objects and the same bucket.  [custody] is what either of them knows in one
    pass - the object as it stands, the records the ledger acknowledged, what
    the bucket and the cluster answered - and [may] is what the contract then
    lets it do: move a capture only along the lifecycle and only once the
    ledger knows, complete it only on verified evidence, expire it only once
    both objects are confirmed absent, delete an object only where nothing can
    be reading or writing it and its deletion is on record, and release a
    deleted capture only when all of that is done.  Neither controller stores
    an object.  The controllers' files prove that each conforms. *)

From S2P Require Import Prelude GoTime GoString Api Status Duration Bounds Manifest CaptureState.
From S2P Require Import Storage AuditModel Prog Kube.

Module Custody.
Import Kube AuditModel.

Definition captureFinalizer : str := "trawl.cloud/capturejob-cleanup".

Record custody := mkCustody {
  c_job : option CaptureJob;
  c_acked : list Record_;
  c_now : option time;
  (** keys whose deletion the bucket acknowledged, since found absent *)
  c_deleted : list str;
  c_absent : list str;
  (** the runner Job was not found; no pod of it is left *)
  c_noRunner : bool;
  c_noPods : bool;
  c_head : option (str * Storage.ObjectInfo);
  c_body : option (str * str);
}.

Definition start : custody := mkCustody None [] None [] [] false false None None.

Section contract.
Context (decode : str → option Manifest.Manifest).

(** ** What is known after an answer *)

Definition with_job (s : custody) (job : CaptureJob) : custody :=
  mkCustody (Some job) (c_acked s) (c_now s) (c_deleted s) (c_absent s) (c_noRunner s) (c_noPods s) (c_head s) (c_body s).
Definition with_ack (s : custody) (rec : Record_) : custody :=
  mkCustody (c_job s) (rec :: c_acked s) (c_now s) (c_deleted s) (c_absent s) (c_noRunner s) (c_noPods s) (c_head s) (c_body s).
Definition with_now (s : custody) (t : time) : custody :=
  mkCustody (c_job s) (c_acked s) (Some t) (c_deleted s) (c_absent s) (c_noRunner s) (c_noPods s) (c_head s) (c_body s).
Definition with_deleted (s : custody) (key : str) : custody :=
  mkCustody (c_job s) (c_acked s) (c_now s) (key :: c_deleted s) (c_absent s) (c_noRunner s) (c_noPods s) (c_head s) (c_body s).
Definition with_absent (s : custody) (key : str) : custody :=
  mkCustody (c_job s) (c_acked s) (c_now s) (c_deleted s) (key :: c_absent s) (c_noRunner s) (c_noPods s) (c_head s) (c_body s).
Definition with_runner (s : custody) (none : bool) : custody :=
  mkCustody (c_job s) (c_acked s) (c_now s) (c_deleted s) (c_absent s) none (c_noPods s) (c_head s) (c_body s).
Definition with_pods (s : custody) (none : bool) : custody :=
  mkCustody (c_job s) (c_acked s) (c_now s) (c_deleted s) (c_absent s) (c_noRunner s) none (c_head s) (c_body s).
Definition with_head (s : custody) (h : option (str * Storage.ObjectInfo)) : custody :=
  mkCustody (c_job s) (c_acked s) (c_now s) (c_deleted s) (c_absent s) (c_noRunner s) (c_noPods s) h (c_body s).
Definition with_body (s : custody) (b : option (str * str)) : custody :=
  mkCustody (c_job s) (c_acked s) (c_now s) (c_deleted s) (c_absent s) (c_noRunner s) (c_noPods s) (c_head s) b.

Definition track_store {X} (e : Storage.storeE X) : X → custody → custody :=
  match e with
  | Storage.Delete key => λ x s,
      match x with
      | Ok _ | Err Storage.ErrNotFound => with_deleted s key
      | Err _ => s
      end
  | Storage.Head key => λ x s,
      match x with
      | Ok info => with_head s (Some (key, info))
      | Err Storage.ErrNotFound =>
          if bool_decide (key ∈ c_deleted s) then with_absent s key else s
      | Err _ => s
      end
  | Storage.Get key => λ x s,
      match x with Ok body => with_body s (Some (key, body)) | Err _ => s end
  | _ => λ _ s, s
  end.

Definition track (X : Type) (e : captureE X) : X → custody → custody :=
  match e with
  | GetCaptureJob _ _ => λ x s, match x with Ok job => with_job s job | Err _ => s end
  | UpdateJob job => λ x s, match x with Ok _ => with_job s job | Err _ => s end
  | UpdateStatus job => λ x s, match x with Ok _ => with_job s job | Err _ => s end
  | GetRunner _ _ => λ x s, match x with Err (NotFound _) => with_runner s true | _ => s end
  | ListPods _ _ => λ x s, match x with Ok [] => with_pods s true | _ => s end
  | CommitRecord rec => λ x s, match x with Ok _ => with_ack s rec | Err _ => s end
  | Store e => λ x s, track_store e x s
  | Now => λ t s, with_now s t
  | _ => λ _ s, s
  end.

(** ** What is allowed *)

Definition uid (job : CaptureJob) : str := m_UID (cj_Meta job).
Definition phase (job : CaptureJob) : CapturePhase := cst_Phase (cj_Status job).
Definition object_key (job : CaptureJob) : str := Manifest.ObjectKey (m_Namespace (cj_Meta job)) (uid job).
Definition manifest_key (job : CaptureJob) : str := Manifest.ManifestKey (m_Namespace (cj_Meta job)) (uid job).

(** A record of this capture under this identity. *)
Definition about (job : CaptureJob) (action step : str) (rec : Record_) : Prop :=
  r_Resource rec = mkResource "trawl.cloud" "CaptureJob" (m_Namespace (cj_Meta job)) (m_Name (cj_Meta job)) (uid job) ∧
  r_Action rec = action ∧ r_StableKey rec = StableKeyForAutomatic action (uid job) step.

Definition acked (s : custody) (job : CaptureJob) (action step : str) : Prop :=
  ∃ rec, rec ∈ c_acked s ∧ about job action step rec.

(** The identity under which entering a phase is recorded. *)
Definition announced (s : custody) (job : CaptureJob) (p : CapturePhase) : Prop :=
  match p with
  | CapturePhaseExpired => acked s job ActionArtifactExpire "artifact:expire:succeeded"
  | _ => acked s job ActionCaptureJobTransition (CaptureState.TransitionStep p)
  end.

(** The object and the manifest as the bucket answered in this pass, accepted
    against each other, and the completed status says what they say. *)
Definition evidence (s : custody) (job : CaptureJob) (st : CaptureJobStatus) : Prop :=
  ∃ info raw m, c_head s = Some (object_key job, info) ∧ c_body s = Some (manifest_key job, raw) ∧
    Manifest.ParseManifest decode raw = Ok m ∧
    Manifest.VerifyArtifact m (uid job) (Storage.oi_Size info) (default ∅ (Storage.oi_Metadata info)) = Ok tt ∧
    cst_SHA256 st = Manifest.mf_SHA256 m ∧ cst_SizeBytes st = Some (Manifest.mf_SizeBytes m) ∧
    cst_PacketCount st = Some (Manifest.mf_PacketCount m) ∧
    ar_Key <$> cst_Artifact st = Some (object_key job).

Definition both_absent (s : custody) (job : CaptureJob) : Prop :=
  object_key job ∈ c_absent s ∧ manifest_key job ∈ c_absent s.

Definition supported (s : custody) (job : CaptureJob) (st : CaptureJobStatus) : Prop :=
  match cst_Phase st with
  | CapturePhaseCompleted => evidence s job st
  | CapturePhaseExpired => both_absent s job
  | _ => True
  end.

Definition may_write (s : custody) (job job' : CaptureJob) : Prop :=
  cj_Meta job' = cj_Meta job ∧ cj_Spec job' = cj_Spec job ∧
  (phase job' = phase job ∨
   CaptureState.CanTransition (phase job) (phase job') = true ∧ announced s job (phase job') ∧
   supported s job (cj_Status job')).

(** A runner that is gone, and its interface with it. *)
Definition quiesced (s : custody) (job : CaptureJob) : Prop :=
  deletion_is_zero (cj_Meta job) = false ∧ c_noRunner s = true ∧ c_noPods s = true.

Definition refused (job : CaptureJob) : Prop :=
  ∃ c, Status.Get (cst_Conditions (cj_Status job)) Status.TypeDownloadable = Some c ∧
    cond_Status c = ConditionFalse ∧ cond_Reason c = Status.ReasonExpired ∧
    cond_ObservedGeneration c = m_Generation (cj_Meta job).

Definition may_delete (s : custody) (job : CaptureJob) (key : str) : Prop :=
  (key = object_key job ∨ key = manifest_key job) ∧
  (phase job = CapturePhaseFailed ∨
   quiesced s job ∧
     (cst_Artifact (cj_Status job) ≠ None → acked s job ActionArtifactExpire "delete-allowed") ∨
   phase job = CapturePhaseCompleted ∧ refused job ∧
     (∃ now, c_now s = Some now ∧ CaptureState.DecideDownload job now = CaptureState.DownloadExpired) ∧
     acked s job ActionArtifactExpire "artifact:expire:allowed").

(** Metadata writes touch the finalizer only; giving it up is the last act. *)
Definition may_release (s : custody) (job job' : CaptureJob) : Prop :=
  cj_Status job' = cj_Status job ∧ cj_Spec job' = cj_Spec job ∧ uid job' = uid job ∧
  (captureFinalizer ∈ m_Finalizers (cj_Meta job) → captureFinalizer ∉ m_Finalizers (cj_Meta job') →
   quiesced s job ∧ object_key job ∈ c_deleted s ∧ manifest_key job ∈ c_deleted s ∧
   (cst_Artifact (cj_Status job) ≠ None →
    acked s job ActionArtifactExpire "delete-allowed" ∧ acked s job ActionArtifactExpire "delete-succeeded")).

Definition may_create (s : custody) (job : CaptureJob) (bounds : Bounds.Bounds) : Prop :=
  CaptureState.IsTerminal (phase job) = false ∧ deletion_is_zero (cj_Meta job) = true ∧
  c_noRunner s = true ∧ cst_RunnerJobRef (cj_Status job) = None ∧
  Bounds.ParseBounds (cj_Spec job) = Ok bounds ∧ captureFinalizer ∈ m_Finalizers (cj_Meta job).

Definition may_store {X} (s : custody) (e : Storage.storeE X) : Prop :=
  match e with
  | Storage.Put _ _ _ => False
  | Storage.Delete key => ∃ job, c_job s = Some job ∧ may_delete s job key
  | _ => True
  end.

Definition may (X : Type) (e : captureE X) (s : custody) : Prop :=
  match e with
  | UpdateStatus job' => ∃ job, c_job s = Some job ∧ may_write s job job'
  | UpdateJob job' => ∃ job, c_job s = Some job ∧ may_release s job job'
  | CreateRunner job' bounds _ => ∃ job, c_job s = Some job ∧ job' = job ∧ may_create s job bounds
  | DeleteRunner _ _ => ∃ job, c_job s = Some job ∧ deletion_is_zero (cj_Meta job) = false
  | Store e => may_store s e
  | _ => True
  end.

End contract.

(** The API server answers about the object it was asked for. *)
Definition honest (X : Type) (e : captureE X) : X → Prop :=
  match e with
  | GetCaptureJob namespace name => λ x,
      match x with Ok job => m_Namespace (cj_Meta job) = namespace ∧ m_Name (cj_Meta job) = name | Err _ => True end
  | _ => λ _, True
  end.

End Custody.
