(* ===== verification/Cluster.v ===== *)
(** * A cluster that answers

    One CaptureJob, its runner and pods, the tap it names, a bucket, a ledger
    and a clock: a handler of the calls of [Kube] that answers each from what it
    holds and applies every write.  Runs of the controllers against it are the
    examples of the theorems, and the executions the error theorems exhibit. *)

From S2P Require Import Prelude GoTime GoString Sha256 Api Manifest Storage AuditModel Prog Kube Custody.

Module Cluster.
Import Kube AuditModel.

Record cluster := mkCluster {
  cl_job : option CaptureJob;
  cl_runner : option RunnerJob;
  cl_pods : list Pod;
  cl_tap : option NetworkTap;
  cl_bucket : Storage.Fake;
  cl_ledger : list Record_;
  cl_time : time;
}.

Definition set_job (c : cluster) (job : CaptureJob) : cluster :=
  mkCluster (Some job) (cl_runner c) (cl_pods c) (cl_tap c) (cl_bucket c) (cl_ledger c) (cl_time c).
Definition set_runner (c : cluster) (r : option RunnerJob) : cluster :=
  mkCluster (cl_job c) r (cl_pods c) (cl_tap c) (cl_bucket c) (cl_ledger c) (cl_time c).
Definition set_bucket (c : cluster) (f : Storage.Fake) : cluster :=
  mkCluster (cl_job c) (cl_runner c) (cl_pods c) (cl_tap c) f (cl_ledger c) (cl_time c).
Definition add_record (c : cluster) (rec : Record_) : cluster :=
  mkCluster (cl_job c) (cl_runner c) (cl_pods c) (cl_tap c) (cl_bucket c) (rec :: cl_ledger c) (cl_time c).

Definition named (m : ObjectMeta) (namespace name : str) : bool :=
  bool_decide (m_Namespace m = namespace) && bool_decide (m_Name m = name).

Definition find_job (c : cluster) (namespace name : str) : result kube_error CaptureJob :=
  match cl_job c with
  | Some job => if named (cj_Meta job) namespace name then Ok job else Err (NotFound "not found")
  | None => Err (NotFound "not found")
  end.

Definition find_runner (c : cluster) (name : str) : result kube_error RunnerJob :=
  match cl_runner c with
  | Some r => if bool_decide (rj_Name r = name) then Ok r else Err (NotFound "not found")
  | None => Err (NotFound "not found")
  end.

(** A runner it is asked to create runs under the name asked for. *)
Definition answer (X : Type) (e : captureE X) (c : cluster) : X * cluster :=
  match e with
  | GetCaptureJob namespace name => (find_job c namespace name, c)
  | UpdateJob job => (Ok tt, set_job c job)
  | UpdateStatus job => (Ok tt, set_job c job)
  | GetRunner _ name => (find_runner c name, c)
  | CreateRunner job _ _ =>
      let r := mkRunnerJob ("trawl-capture-" +:+ str_take 8 (m_UID (cj_Meta job))) (Some (m_UID (cj_Meta job))) false [] in
      (Ok r, set_runner c (Some r))
  | DeleteRunner _ name =>
      match find_runner c name with
      | Ok _ => (Ok tt, set_runner c None)
      | Err e => (Err e, c)
      end
  | ListPods _ _ => (Ok (cl_pods c), c)
  | GetTap namespace name =>
      (match cl_tap c with
       | Some tap => if named (nt_Meta tap) namespace name then Ok tap else Err (NotFound "not found")
       | None => Err (NotFound "not found")
       end, c)
  | SetControllerReference _ => (Ok tt, c)
  | GetOwned _ _ _ => (Err (NotFound "not found"), c)
  | CreateOwned _ _ => (Ok tt, c)
  | UpdateOwned _ _ => (Ok tt, c)
  | Store e => let '(x, f) := Storage.fake_handle _ e (cl_bucket c) in (x, set_bucket c f)
  | CommitRecord rec => (Ok tt, add_record c rec)
  | Now => (cl_time c, c)
  | ConditionNow => (cl_time c, c)
  end.

Lemma answer_honest X (e : captureE X) c : Custody.honest X e (answer X e c).1.
Proof.
  destruct e; try done. unfold answer, find_job, named. simpl. destruct (cl_job c) as [job|]; [|done].
  by repeat case_bool_decide.
Qed.

Lemma answer_partial {A} (p : prog captureE A) c : partial Custody.honest p (trace answer p c).
Proof. apply trace_partial, answer_honest. Qed.

(** ** An example

    A capture whose runner has completed, its object and manifest stored. *)

Definition example_meta : ObjectMeta := mkMeta "job" "prod" "u1" 1 hour None ∅ [Custody.captureFinalizer].

Definition example_spec : CaptureJobSpec :=
  mkCaptureJobSpec CaptureRequestManual "edge" "node-a" "tcp port 443" "30s" 96 (bytes_quantity 1048576) "24h"
    None None "".

Definition example_job (p : CapturePhase) : CaptureJob :=
  mkCaptureJob example_meta example_spec
    (mkCaptureJobStatus 1 p "t1" "eth0" (Some "trawl-capture-u1") (Some hour) None None None None None "" None None
       None None []).

Definition example_runner (uid : str) : RunnerJob :=
  mkRunnerJob "trawl-capture-u1" (Some uid) false [mkJobCondition JobConditionComplete ConditionTrue ""].

Definition example_decode (raw : str) : option Manifest.Manifest := Some (Manifest.example_manifest "x").

Definition example_bucket : Storage.Fake :=
  (Storage.fake_put
    (Storage.fake_put (Storage.NewFake 0) (Manifest.ObjectKey "prod" "u1") "x"
       (Storage.mkPutOptions true 0 "" (Some {[ Manifest.MetadataSHA256 := sha256_hex "x" ]}) 0)).2
    (Manifest.ManifestKey "prod" "u1") "{}" (Storage.mkPutOptions true 0 "" None 0)).2.

Definition example_cluster : cluster :=
  mkCluster (Some (example_job CapturePhaseStoring)) (Some (example_runner "u1")) [] None example_bucket []
    (2 * hour).

(** What became of the capture, how many records the ledger took, and how
    many objects are left. *)
Definition summary (c : cluster) : option CapturePhase * nat * nat :=
  (cst_Phase ∘ cj_Status <$> cl_job c, length (cl_ledger c), size (Storage.fk_objects (cl_bucket c))).

End Cluster.
