(* ===== verification/CaptureController.v ===== *)
(** * The capture controller, internal/controller/capturejob_controller.go

    [Reconcile] reads one CaptureJob, gathers the facts [CaptureState.Evaluate]
    decides on, does what the outcome asks, and persists it behind its audit
    record.  It is a program over the calls of [Kube]; a method that changes the
    object returns the changed object.  Metrics and logging are left out.  An
    error is its text, and [None] is nil. *)

From S2P Require Import Prelude GoTime GoString Sanitize Api Status Duration Bounds Manifest CaptureState.
From S2P Require Import Storage AuditModel Prog Admission Kube Custody Render.

Module CaptureController.
Import Render AuditModel Kube CaptureState.

Definition captureFinalizer : str := "trawl.cloud/capturejob-cleanup".
Definition captureRequeue : duration := 15 * second.
Definition jobDeletionRequeue : duration := 5 * second.
Definition runnerContainerName : str := "capture-runner".
Definition artifactProfile : str := "artifacts".

(** What the reconciler holds besides its clients. *)
Record Reconciler := mkReconciler {
  rc_SystemNamespace : str;
  rc_CaptureRetentionCeiling : duration;
  rc_HasAudit : bool;
}.

(** RequeueAfter, and the error. *)
Definition Result : Type := duration * option str.
Definition done_ : Result := (0, None).

Section controller.
(** The manifest's JSON decoder, and how the API machinery words a list of
    field errors, and fmt's [%q]. *)
Context (decode : str → option Manifest.Manifest) (aggregate : list Admission.field_error → str)
  (quote : str → str).

(** ** Names and records *)

Definition owned_name (kind : owned_kind) (job : CaptureJob) : str :=
  let '(_, serviceAccount, role) := CaptureNames job in
  match kind with OwnedServiceAccount => serviceAccount | _ => role end.

Definition actor (r : Reconciler) : Actor :=
  mkActor ("system:serviceaccount:" +:+ rc_SystemNamespace r +:+ ":trawl-controller-manager") "" [].

Definition resourceFor (job : CaptureJob) : Resource :=
  mkResource "trawl.cloud" "CaptureJob" (m_Namespace (cj_Meta job)) (m_Name (cj_Meta job)) (m_UID (cj_Meta job)).

Definition retentionCeiling (r : Reconciler) : duration :=
  if rc_CaptureRetentionCeiling r <=? 0 then Config.DefaultCaptureRetentionCeiling
  else rc_CaptureRetentionCeiling r.

Definition ErrAuditUnavailable : str := "audit ledger unavailable; mutation refused".

Definition commit (r : Reconciler) (rec : Record_) : prog captureE (option str) :=
  if negb (rc_HasAudit r) then Ret (Some ErrAuditUnavailable) else
  let! res := call (CommitRecord rec) in
  Ret match res with
      | Ok _ => None
      | Err text => Some (ErrAuditUnavailable +:+ ": " +:+ Sanitize.String_ text)
      end.

Definition transition_record (r : Reconciler) (job : CaptureJob) (o : Outcome) : Record_ :=
  let p := phase_string (o_Phase o) in
  let '(decision, reason, message) :=
    match o_Failure o with
    | Some f => (DecisionFailed, reason_string (cf_Reason f), cf_Message f)
    | None => (DecisionSucceeded, p, "the capture entered " +:+ p)
    end in
  mkRecord "" 0 ActionCaptureJobTransition decision reason message (actor r) (resourceFor job) ""
    (StableKeyForAutomatic ActionCaptureJobTransition (m_UID (cj_Meta job)) (TransitionStep (o_Phase o)))
    (Admission.requester (cj_Meta job)) "" 0.

Definition auditTransition (r : Reconciler) (job : CaptureJob) (o : Outcome) : prog captureE (option str) :=
  commit r (transition_record r job o).

Definition expiry_message (job : CaptureJob) : str :=
  if bool_decide (cst_Phase (cj_Status job) = CapturePhaseExpired)
  then "the capture record was deleted after its artifact had already expired; " +:+
       "the artifact was not destroyed by this deletion"
  else "the capture was deleted before its retention deadline; its artifact goes with it".

Definition expiry_record (r : Reconciler) (job : CaptureJob) (decision step : str) : Record_ :=
  mkRecord "" 0 ActionArtifactExpire decision "CaptureJobDeleted" (expiry_message job) (actor r)
    (resourceFor job) "" (StableKeyForAutomatic ActionArtifactExpire (m_UID (cj_Meta job)) step)
    (Admission.requester (cj_Meta job)) "" 0.

Definition auditExpiry (r : Reconciler) (job : CaptureJob) (decision step : str) : prog captureE (option str) :=
  commit r (expiry_record r job decision step).

(** ** Conditions and status writes *)

Definition set_condition (conds : list Condition) (type : str) (st : ConditionStatus) (reason message : str)
    (gen : Z) : prog captureE (list Condition) :=
  let! t := call ConditionNow in
  Ret (Status.Set_ conds (Status.New Sanitize.String_ t type st reason message gen)).

(** The same, on an object. *)
Definition set_job_condition (job : CaptureJob) (type : str) (st : ConditionStatus) (reason message : str) :
    prog captureE CaptureJob :=
  let! conds := set_condition (cst_Conditions (cj_Status job)) type st reason message (m_Generation (cj_Meta job)) in
  Ret (with_status job (with_conditions (cj_Status job) conds)).

Definition writeStatus (job : CaptureJob) : prog captureE (option str) :=
  let! res := call (UpdateStatus job) in
  Ret match res with Ok _ => None | Err e => Some (Sanitize.String_ (kube_text e)) end.

Definition setDownloadable (job : CaptureJob) : prog captureE CaptureJob :=
  let! now := call Now in
  match DecideDownload job now with
  | DownloadAllowed =>
      set_job_condition job Status.TypeDownloadable ConditionTrue Status.ReasonDownloadable
        "the artifact is verified and within its retention period"
  | DownloadExpired =>
      set_job_condition job Status.TypeDownloadable ConditionFalse Status.ReasonExpired
        "the artifact's retention period has ended"
  | DownloadNotReady =>
      if IsTerminal (cst_Phase (cj_Status job)) then
        set_job_condition job Status.TypeDownloadable ConditionFalse Status.ReasonNotDownloadable
          "the capture did not produce a verified artifact"
      else
        set_job_condition job Status.TypeDownloadable ConditionFalse Status.ReasonPending
          "the capture has not completed"
  end.

(** A transition whose record did not commit is announced in status and
    stays undone; the error returned is the ledger's. *)
Definition audit_failed (job : CaptureJob) (cause : str) : prog captureE (option str) :=
  let! job := set_job_condition job Status.TypeAccepted ConditionTrue Status.ReasonAuditUnavailable
                ("the transition is waiting for its audit record to commit: " +:+ cause) in
  let! _ := writeStatus job in
  Ret (Some cause).

Definition reportUnavailable (job : CaptureJob) (doing cause : str) : prog captureE (option str) :=
  let job := with_status job (with_observed (cj_Status job) (m_Generation (cj_Meta job))) in
  let! job := set_job_condition job Status.TypeAccepted ConditionTrue Status.ReasonDependencyUnavailable
                (doing +:+ ": " +:+ cause) in
  let! _ := writeStatus job in
  Ret (Some (Sanitize.String_ cause)).

(** ** Observation *)

Definition job_condition (o : JobObservation) (c : JobCondition) : JobObservation :=
  match jc_Status c with
  | ConditionTrue =>
      match jc_Type c with
      | JobConditionComplete => mkJobObservation JobSucceeded (jo_Reason o) (jo_ExitCode o)
      | JobConditionFailed => mkJobObservation JobFailed (jc_Reason c) (jo_ExitCode o)
      | JobConditionOther => o
      end
  | _ => o
  end.

Definition exit_code_of (pods : list Pod) : option Z :=
  head (omap (λ c, if bool_decide (ctr_Name c = runnerContainerName) then ctr_ExitCode c else None)
          (mjoin (pod_ContainerStatuses <$> pods))).

Definition runnerExitCode (namespace jobName : str) : prog captureE (result str (option Z)) :=
  let! pods := call (ListPods namespace jobName) in
  Ret match pods with
      | Err e => Err (Sanitize.Errorf "listing the runner's pods: " (kube_text e))
      | Ok pods => Ok (exit_code_of pods)
      end.

Definition observeJob (job : CaptureJob) : prog captureE (result str (JobObservation * option RunnerJob)) :=
  let namespace := m_Namespace (cj_Meta job) in
  let name := runner_name job in
  let! found := call (GetRunner namespace name) in
  match found with
  | Err (NotFound _) => Ret (Ok (mkJobObservation JobAbsent "" None, None))
  | Err e => Ret (Err (Sanitize.Errorf "reading the runner Job: " (kube_text e)))
  | Ok runner =>
      if negb (bool_decide (rj_ControllerUID runner = Some (m_UID (cj_Meta job))))
      then Ret (Ok (mkJobObservation JobFailed "ForeignOwner" None, None)) else
      let o := foldl job_condition (mkJobObservation JobActive "" None) (rj_Conditions runner) in
      match jo_State o with
      | JobActive => Ret (Ok (o, Some runner))
      | _ =>
          let! code := runnerExitCode namespace name in
          Ret (let? code := code in Ok (mkJobObservation (jo_State o) (jo_Reason o) code, Some runner))
      end
  end.

(** The loop over the tap's targets: the first entry of the node decides. *)
Fixpoint target_on (targets : list TargetStatus) (node : str) (now : time) (tapUID : str) : TargetObservation :=
  match targets with
  | [] => mkTargetObservation TargetUnavailable "" ""
  | t :: rest =>
      if negb (bool_decide (tgt_NodeName t = node)) then target_on rest node now tapUID
      else if StaleHeartbeat <? t_sub now (tgt_HeartbeatTime t)
      then mkTargetObservation TargetUnavailable "" ""
      else mkTargetObservation TargetEligible tapUID (tgt_Interface t)
  end.

Definition target_of (tap : NetworkTap) (job : CaptureJob) (now : time) : TargetObservation :=
  if negb (deletion_is_zero (nt_Meta tap)) then mkTargetObservation TargetTapDeleting "" "" else
  let active := match nts_Phase (nt_Status tap) with TapPhaseActive | TapPhaseDegraded => true | _ => false end in
  if negb active ||
     negb (Status.IsTrue (nts_Conditions (nt_Status tap)) Status.TypeAccepted (m_Generation (nt_Meta tap)))
  then mkTargetObservation TargetTapInactive "" ""
  else target_on (nts_Targets (nt_Status tap)) (cjs_TargetNode (cj_Spec job)) now (m_UID (nt_Meta tap)).

Definition observeTarget (job : CaptureJob) (now : time) : prog captureE (result str TargetObservation) :=
  let! tap := call (GetTap (m_Namespace (cj_Meta job)) (cjs_TapRef (cj_Spec job))) in
  Ret match tap with
      | Err (NotFound _) => Ok (mkTargetObservation TargetTapMissing "" "")
      | Err e => Err (Sanitize.Errorf "reading the tap: " (kube_text e))
      | Ok tap => Ok (target_of tap job now)
      end.

(** [lookupArtifact]: the state, the manifest, and the object's ETag. *)
Definition lookupArtifact (uid objectKey manifestKey : str) :
    prog captureE (ArtifactState * option Manifest.Manifest * str) :=
  let! info := call (Store (Storage.Head objectKey)) in
  match info with
  | Err Storage.ErrNotFound =>
      let! manifest := call (Store (Storage.Head manifestKey)) in
      Ret match manifest with
          | Err Storage.ErrNotFound => (ArtifactAbsent, None, "")
          | Err _ => (ArtifactUnavailable, None, "")
          | Ok _ => (ArtifactPresent, None, "")
          end
  | Err _ => Ret (ArtifactUnavailable, None, "")
  | Ok info =>
      let etag := Storage.oi_ETag info in
      let! raw := call (Store (Storage.Get manifestKey)) in
      Ret match raw with
          | Err Storage.ErrNotFound => (ArtifactPresent, None, etag)
          | Err _ => (ArtifactUnavailable, None, etag)
          | Ok raw =>
              match Manifest.ParseManifest decode raw with
              | Err _ => (ArtifactPresent, None, etag)
              | Ok m =>
                  match Manifest.VerifyArtifact m uid (Storage.oi_Size info) (default ∅ (Storage.oi_Metadata info)) with
                  | Err _ => (ArtifactMismatch, Some m, etag)
                  | Ok _ => (ArtifactVerified, Some m, etag)
                  end
              end
          end
  end.

Definition observeArtifact (job : CaptureJob) : prog captureE ArtifactObservation :=
  let objectKey := Custody.object_key job in
  let! found := lookupArtifact (m_UID (cj_Meta job)) objectKey (Custody.manifest_key job) in
  let '(state, manifest, etag) := found in
  Ret (mkArtifactObservation state manifest objectKey etag "").

Definition wants_artifact (job : CaptureJob) (o : JobObservation) : bool :=
  match jo_State o with JobSucceeded | JobFailed => true | _ => false end ||
  is_Some_b (cst_CaptureEndedAt (cj_Status job)) ||
  bool_decide (cst_Phase (cj_Status job) = CapturePhaseStoring).

Definition wants_target (job : CaptureJob) (o : JobObservation) : bool :=
  match jo_State o with JobAbsent => true | _ => false end && negb (is_Some_b (cst_RunnerJobRef (cj_Status job))).

Definition observe (job : CaptureJob) : prog captureE (result str (Observation * option RunnerJob)) :=
  let! now := call Now in
  let! seen := observeJob job in
  match seen with
  | Err e => Ret (Err e)
  | Ok (o, runner) =>
      let! target := if wants_target job o then observeTarget job now
                     else Ret (Ok (mkTargetObservation TargetUnknown "" "")) in
      match target with
      | Err e => Ret (Err e)
      | Ok target =>
          let! artifact := if wants_artifact job o then observeArtifact job
                           else Ret (mkArtifactObservation ArtifactUnknown None "" "" "") in
          Ret (Ok (mkObservation now target o artifact, runner))
      end
  end.

(** ** Side effects *)

Definition applyOwned (job : CaptureJob) (kind : owned_kind) : prog captureE (option str) :=
  let! owner := call (SetControllerReference job) in
  match owner with
  | Err e => Ret (Some (Sanitize.Errorf "setting owner reference: " e))
  | Ok _ =>
      let! existing := call (GetOwned kind (m_Namespace (cj_Meta job)) (owned_name kind job)) in
      match existing with
      | Err (NotFound _) =>
          let! created := call (CreateOwned kind job) in
          Ret match created with
              | Ok _ | Err (AlreadyExists _) => None
              | Err e => Some (Sanitize.Errorf "creating owned resource: " (kube_text e))
              end
      | Err e => Ret (Some (Sanitize.Errorf "reading owned resource: " (kube_text e)))
      | Ok _ =>
          let! updated := call (UpdateOwned kind job) in
          Ret match updated with
              | Ok _ => None
              | Err e => Some (Sanitize.Errorf "updating owned resource: " (kube_text e))
              end
      end
  end.

Fixpoint applyOwned_all (job : CaptureJob) (kinds : list owned_kind) : prog captureE (option str) :=
  match kinds with
  | [] => Ret None
  | kind :: rest =>
      let! err := applyOwned job kind in
      match err with Some e => Ret (Some e) | None => applyOwned_all job rest end
  end.

(** No Job and no error: the API server rejected it. *)
Definition createRunner (job : CaptureJob) (iface : str) : prog captureE (result str (option RunnerJob)) :=
  match Bounds.ParseBounds (cj_Spec job) with
  | Err e => Ret (Err e)
  | Ok bounds =>
      let! owned := applyOwned_all job [OwnedServiceAccount; OwnedRole; OwnedRoleBinding] in
      match owned with
      | Some e => Ret (Err e)
      | None =>
          let! owner := call (SetControllerReference job) in
          match owner with
          | Err e => Ret (Err (Sanitize.Errorf "setting owner reference: " e))
          | Ok _ =>
              let! created := call (CreateRunner job bounds iface) in
              match created with
              | Ok runner => Ret (Ok (Some runner))
              | Err (AlreadyExists _) =>
                  let! existing := call (GetRunner (m_Namespace (cj_Meta job)) (runner_name job)) in
                  Ret match existing with
                      | Ok runner => Ok (Some runner)
                      | Err e => Err (Sanitize.Errorf "reading the runner Job: " (kube_text e))
                      end
              | Err (InvalidObject _) | Err (Forbidden _) => Ret (Ok None)
              | Err e => Ret (Err (Sanitize.Errorf "creating the runner Job: " (kube_text e)))
              end
          end
      end
  end.

(** The outcome of a capture that failed for this reason in this phase. *)
Definition failed_in (phase : CapturePhase) (reason : FailureReason) (message : str) : Outcome :=
  let phase := if bool_decide (phase = CapturePhaseUnset) then CapturePhasePending else phase in
  mkOutcome CapturePhaseFailed (Some (mkCaptureFailure reason message phase 1)) None "" "" ActionNone false 0.

Definition rejectedRunner (phase : CapturePhase) : Outcome :=
  failed_in phase FailureRunnerCreateFailed
    "the apiserver rejected the runner Job; check the installation's images, credentials Secret, and quotas".

(** A Delete of an absent key, reported or not, is a success. *)
Definition delete_key (key : str) : prog captureE (option str) :=
  let! res := call (Store (Storage.Delete key)) in
  Ret match res with
      | Ok _ | Err Storage.ErrNotFound => None
      | Err Storage.ErrAlreadyExists => Some (Sanitize.Errorf "deleting artifact object: " "object already exists")
      | Err (Storage.ErrOther text) => Some (Sanitize.Errorf "deleting artifact object: " text)
      end.

Definition deleteArtifact (job : CaptureJob) : prog captureE (option str) :=
  let! err := delete_key (Custody.object_key job) in
  match err with
  | Some e => Ret (Some e)
  | None => delete_key (Custody.manifest_key job)
  end.

(** ** Persisting an outcome *)

Definition targetMessage (st : TargetState) : str :=
  match st with
  | TargetTapMissing => "the referenced tap does not exist"
  | TargetTapDeleting => "the referenced tap is being deleted"
  | TargetTapInactive => "the referenced tap is not Active or Degraded for its current spec"
  | _ => "the target node is not a target of the tap or its heartbeat is stale"
  end.

Definition setTargetReady (job : CaptureJob) (obs : Observation) (o : Outcome) : prog captureE CaptureJob :=
  match o_Action o, jo_State (obs_Job obs), to_State (obs_Target obs) with
  | ActionNone, JobAbsent, (TargetEligible | TargetUnknown)
  | ActionCleanupArtifact, JobAbsent, (TargetEligible | TargetUnknown) => Ret job
  | ActionNone, JobAbsent, st
  | ActionCleanupArtifact, JobAbsent, st =>
      set_job_condition job Status.TypeTargetReady ConditionFalse Status.ReasonTargetUnavailable (targetMessage st)
  | _, _, _ =>
      set_job_condition job Status.TypeTargetReady ConditionTrue Status.ReasonTargetReady
        "the tap reports the target node with a fresh heartbeat"
  end.

Definition setArtifactVerified (job : CaptureJob) (obs : Observation) (o : Outcome) : prog captureE CaptureJob :=
  let set := set_job_condition job Status.TypeArtifactVerified in
  if is_Some_b (o_Completion o) then
    set ConditionTrue Status.ReasonArtifactVerified "the stored object matches its manifest"
  else if o_StorageUnavailable o then
    set ConditionUnknown Status.ReasonStorageFailure
      "artifact storage could not be reached; the capture's phase is unchanged until it can"
  else match ao_State (obs_Artifact obs), o_Failure o with
  | ArtifactMismatch, _ =>
      set ConditionFalse Status.ReasonChecksumMismatch "the stored object does not match its manifest"
  | ArtifactPresent, Some _ =>
      set ConditionFalse Status.ReasonStorageFailure "the runner stored an object without a manifest"
  | _, Some _ =>
      set ConditionFalse Status.ReasonArtifactMissing "no verified artifact exists for this capture"
  | _, None => Ret job
  end.

(** [metaTime]: the zero time is no time. *)
Definition metaTime (t : time) : option time := if is_zero t then None else Some t.

(** The part of [applyOutcome] before the conditions. *)
Definition outcome_fields (job : CaptureJob) (o : Outcome) (runner : option RunnerJob) : CaptureJobStatus :=
  let s := cj_Status job in
  mkCaptureJobStatus (m_Generation (cj_Meta job)) (o_Phase o)
    (if bool_decide (o_ResolvedTapUID o = "") then cst_ResolvedTapUID s else o_ResolvedTapUID o)
    (cst_ResolvedInterface s)
    (match runner with Some r => Some (rj_Name r) | None => cst_RunnerJobRef s end)
    (match cst_RequestedAt s with None => Some (m_CreationTimestamp (cj_Meta job)) | t => t end)
    (cst_StartedAt s) (cst_CaptureEndedAt s) (cst_CompletedAt s) (cst_PacketCount s) (cst_SizeBytes s)
    (cst_SHA256 s) (cst_Artifact s) (cst_RetentionDeadline s) (cst_Failure s) (cst_RunnerResult s)
    (cst_Conditions s).

(** The part after: the failure, with the attempts before it, and the
    completion, whose manifest is the source for every field. *)
Definition failure_fields (s : CaptureJobStatus) (o : Outcome) : CaptureJobStatus :=
  match o_Failure o with
  | None => s
  | Some f =>
      let attempts := match cst_Failure s with Some f0 => wrap32 (cf_Attempts f0 + 1) | None => cf_Attempts f end in
      with_failure s (Some (mkCaptureFailure (cf_Reason f) (cf_Message f) (cf_FailedPhase f) attempts))
  end.

Definition completion_fields (s : CaptureJobStatus) (o : Outcome) : CaptureJobStatus :=
  match o_Completion o with
  | None => s
  | Some c =>
      let a := cmp_Artifact c in
      mkCaptureJobStatus (cst_ObservedGeneration s) (cst_Phase s) (cst_ResolvedTapUID s) (cmp_Interface c)
        (cst_RunnerJobRef s) (cst_RequestedAt s) (metaTime (cmp_StartedAt c)) (metaTime (cmp_EndedAt c))
        (metaTime (cmp_CompletedAt c)) (Some (cmp_PacketCount c)) (Some (cmp_SizeBytes c)) (cmp_SHA256 c)
        (Some (mkArtifactReference artifactProfile (ar_Key a) (ar_ETag a) (ar_VersionID a) (ar_VerifiedAt a)))
        (metaTime (cmp_RetentionDeadline c)) None (cst_RunnerResult s) (cst_Conditions s)
  end.

Definition applyOutcome (job : CaptureJob) (obs : Observation) (o : Outcome) (runner : option RunnerJob) :
    prog captureE CaptureJob :=
  let job := with_status job (outcome_fields job o runner) in
  let! job := set_job_condition job Status.TypeAccepted ConditionTrue Status.ReasonAccepted "spec accepted" in
  let! job := setTargetReady job obs o in
  let! job := setArtifactVerified job obs o in
  setDownloadable (with_status job (completion_fields (failure_fields (cj_Status job) o) o)).

(** From the acknowledged record on. *)
Definition persist_applied (job : CaptureJob) (obs : Observation) (o : Outcome) (runner : option RunnerJob) :
    prog captureE (option str) :=
  let! job' := applyOutcome job obs o runner in
  if bool_decide (cj_Status job = cj_Status job') then Ret None else writeStatus job'.

Definition persist (r : Reconciler) (job : CaptureJob) (obs : Observation) (o : Outcome)
    (runner : option RunnerJob) : prog captureE (option str) :=
  if bool_decide (o_Phase o = cst_Phase (cj_Status job)) then persist_applied job obs o runner else
  if negb (CanTransition (cst_Phase (cj_Status job)) (o_Phase o)) then Ret None else
  let! err := auditTransition r job o in
  match err with
  | Some cause => audit_failed job cause
  | None => persist_applied job obs o runner
  end.

Definition reject (r : Reconciler) (job : CaptureJob) (conditionReason : str) (failure : FailureReason)
    (message : str) : prog captureE (option str) :=
  let o := failed_in (cst_Phase (cj_Status job)) failure message in
  let! err := auditTransition r job o in
  match err with
  | Some cause => audit_failed job cause
  | None =>
      let s := with_failure (with_phase (with_observed (cj_Status job) (m_Generation (cj_Meta job)))
                 CapturePhaseFailed) (o_Failure o) in
      let! job := set_job_condition (with_status job s) Status.TypeAccepted ConditionFalse conditionReason message in
      let! job := setDownloadable job in
      writeStatus job
  end.

(** ** Reconcile *)

Definition returns (err : option str) : Result := (0, err).

Definition cleanupPending (job : CaptureJob) : bool :=
  match cst_Failure (cj_Status job) with
  | None => false
  | Some f => match cf_Reason f with FailureArtifactMismatch | FailureUploadFailed => true | _ => false end
  end.

(** What a retention edit changes in the status of a completed capture. *)
Definition redate (job : CaptureJob) (deadline : time) : CaptureJob :=
  let gen := m_Generation (cj_Meta job) in
  let s := with_deadline (with_observed (cj_Status job) gen) (metaTime deadline) in
  with_status job
    (with_conditions s (Status.CarryForward (cst_Conditions s) Status.TypeArtifactVerified gen).1).

Definition follow_retention (job : CaptureJob) : prog captureE (option str) :=
  let s := cj_Status job in
  if (cst_ObservedGeneration s =? m_Generation (cj_Meta job)) ||
     negb (bool_decide (cst_Phase s = CapturePhaseCompleted)) then Ret None else
  match cst_CompletedAt s with
  | None => Ret None
  | Some completedAt =>
      match RetentionDeadline completedAt (cjs_Retention (cj_Spec job)) with
      | Err _ => Ret None
      | Ok deadline =>
          let! job := setDownloadable (redate job deadline) in
          writeStatus job
      end
  end.

Definition reconcileTerminal (job : CaptureJob) : prog captureE (option str) :=
  if bool_decide (cst_Phase (cj_Status job) = CapturePhaseFailed) && cleanupPending job then
    let! err := deleteArtifact job in
    match err with Some e => Ret (Some e) | None => follow_retention job end
  else follow_retention job.

(** From a persisted outcome on. *)
Definition after_persist (job : CaptureJob) (o : Outcome) : prog captureE Result :=
  let! err := match o_Action o with ActionCleanupArtifact => deleteArtifact job | _ => Ret None end in
  match err with
  | Some e => Ret (returns (Some e))
  | None =>
      if IsTerminal (o_Phase o) then Ret done_ else
      let requeue := o_RequeueAfter o in
      Ret (if (requeue =? 0) || (captureRequeue <? requeue) then captureRequeue else requeue, None)
  end.

Definition persist_outcome (r : Reconciler) (job : CaptureJob) (obs : Observation) (o : Outcome)
    (runner : option RunnerJob) : prog captureE Result :=
  let! err := persist r job obs o runner in
  match err with
  | Some e => Ret (returns (Some e))
  | None => after_persist job o
  end.

(** A live capture of a valid spec, its finalizer in place. *)
Definition converge (r : Reconciler) (job : CaptureJob) : prog captureE Result :=
  let! seen := observe job in
  match seen with
  | Err e =>
      let! err := reportUnavailable job "observing the capture's dependencies" e in Ret (returns err)
  | Ok (obs, runner) =>
      match Evaluate job obs StaleHeartbeat with
      | Err e => Ret (returns (Some (Sanitize.String_ e)))
      | Ok o =>
          match o_Action o with
          | ActionCreateJob =>
              let! created := createRunner job (o_ResolvedInterface o) in
              match created with
              | Err e => let! err := reportUnavailable job "creating the runner Job" e in Ret (returns err)
              | Ok None => persist_outcome r job obs (rejectedRunner (cst_Phase (cj_Status job))) runner
              | Ok (Some runner) => persist_outcome r job obs o (Some runner)
              end
          | _ => persist_outcome r job obs o runner
          end
      end
  end.

(** From the finalizer on. *)
Definition reconcile_held (r : Reconciler) (job : CaptureJob) : prog captureE Result :=
  if IsTerminal (cst_Phase (cj_Status job)) then
    let! err := reconcileTerminal job in Ret (returns err)
  else
    match Admission.ValidateCaptureJobSpec (cj_Spec job) (retentionCeiling r) with
    | (_ :: _) as errs =>
        let! err := reject r job Status.ReasonInvalidSpec FailureInvalidBounds (aggregate errs) in
        Ret (returns err)
    | [] => converge r job
    end.

Definition has_finalizer (job : CaptureJob) : bool := bool_decide (captureFinalizer ∈ m_Finalizers (cj_Meta job)).

(** ** Finalizing *)

Definition release (job : CaptureJob) : CaptureJob :=
  with_finalizers job (filter (λ f, f ≠ captureFinalizer) (m_Finalizers (cj_Meta job))).

Definition fail_ (e : str) : Result := (0, Some (Sanitize.String_ e)).

(** The record that brackets the deletion, when there is an artifact. *)
Definition audit_if (had : bool) (r : Reconciler) (job : CaptureJob) (decision step : str) : prog captureE (option str) :=
  if had then auditExpiry r job decision step else Ret None.

(** From a runner that is gone with its pods. *)
Definition release_artifact (r : Reconciler) (job : CaptureJob) : prog captureE Result :=
  let had := is_Some_b (cst_Artifact (cj_Status job)) in
  let! err := audit_if had r job DecisionAllowed "delete-allowed" in
  match err with
  | Some e => Ret (fail_ e)
  | None =>
      let! err := deleteArtifact job in
      match err with
      | Some e => Ret (fail_ e)
      | None =>
          let! err := audit_if had r job DecisionSucceeded "delete-succeeded" in
          match err with
          | Some e => Ret (fail_ e)
          | None =>
              let! res := call (UpdateJob (release job)) in
              Ret match res with Ok _ => done_ | Err e => fail_ (kube_text e) end
          end
      end
  end.

Definition finalize (r : Reconciler) (job : CaptureJob) : prog captureE Result :=
  if negb (has_finalizer job) then Ret done_ else
  let namespace := m_Namespace (cj_Meta job) in
  let name := runner_name job in
  let! found := call (GetRunner namespace name) in
  match found with
  | Ok runner =>
      if rj_Deleting runner then Ret (jobDeletionRequeue, None) else
      let! res := call (DeleteRunner namespace (rj_Name runner)) in
      Ret match res with
          | Ok _ | Err (NotFound _) => (jobDeletionRequeue, None)
          | Err e => fail_ (kube_text e)
          end
  | Err (NotFound _) =>
      let! pods := call (ListPods namespace name) in
      match pods with
      | Err e => Ret (fail_ (kube_text e))
      | Ok (_ :: _) => Ret (jobDeletionRequeue, None)
      | Ok [] => release_artifact r job
      end
  | Err e => Ret (fail_ (kube_text e))
  end.

Definition Reconcile (r : Reconciler) (namespace name : str) : prog captureE Result :=
  let! found := call (GetCaptureJob namespace name) in
  match found with
  | Err (NotFound _) => Ret done_
  | Err e => Ret (fail_ (kube_text e))
  | Ok job =>
      if negb (deletion_is_zero (cj_Meta job)) then finalize r job else
      if negb (bool_decide (m_Namespace (cj_Meta job) = rc_SystemNamespace r)) then
        let! err := reject r job Status.ReasonWrongNamespace FailureInternalError
          ("CaptureJob resources are reconciled only in " +:+ quote (rc_SystemNamespace r)) in
        Ret (returns err)
      else if has_finalizer job then reconcile_held r job else
        let held := with_finalizers job (m_Finalizers (cj_Meta job) ++ [captureFinalizer]) in
        let! res := call (UpdateJob held) in
        match res with
        | Err e => Ret (fail_ (kube_text e))
        | Ok _ => reconcile_held r held
        end
  end.

End controller.
End CaptureController.
