(* ===== verification/CaptureEdge.v ===== *)
(** * Where the capture controller falls short

    Executions of [CaptureController] at the edges of its contract: a deletion
    whose record can no longer be repeated, a runner of another capture, and
    an object in the wrong namespace. *)

From S2P Require Import Prelude GoTime GoString Utf8 Sanitize Api Status Manifest CaptureState.
From S2P Require Import Storage AuditModel AuditSink Prog Admission Kube Custody Cluster Render CaptureController.

Module CaptureEdge.
Import Render AuditModel Kube CaptureController.

(** ** A deletion recorded twice *)

Section ledger.
Context {S : Type} {good : S → Prop} {step : ∀ X, Storage.storeE X → S → X → S → Prop}
  {bodies : S → gmap string string} `{!Storage.StoreLaws good step bodies}.
Context (encode : Record_ → option str) (decode : str → option Record_).

(** The JSON of a record decodes, its message with it when that is UTF-8. *)
Definition keeps_message : Prop :=
  ∀ r b, encode r = Some b → Utf8.valid_string (r_Message r) = true → ∃ r', decode b = Some r' ∧ r_Message r' = r_Message r.

Definition refused_by_ledger (log : list (event captureE)) : Prop :=
  ∀ rec, Ev (CommitRecord rec) (Ok tt) ∉ log.

Definition held_on (log : list (event captureE)) : Prop :=
  (∀ job x, Ev (UpdateJob job) x ∉ log) ∧
  ∀ key x, Ev (Store (Storage.Delete key)) x ∉ log.

Lemma sameAction_message a b :
  keeps_message → Utf8.valid_string (r_Message a) = true → Utf8.valid_string (r_Message b) = true →
  AuditSink.sameAction encode a b = true → r_Message a = r_Message b.
Proof.
  intros Hk Hva Hvb. unfold AuditSink.sameAction.
  destruct (encode (AuditSink.action_of a)) as [ab|] eqn:Ea; [|done].
  destruct (encode (AuditSink.action_of b)) as [bb|] eqn:Eb; [|done].
  intros ->%bool_decide_eq_true.
  destruct (Hk _ _ Ea Hva) as (ra & Hra & Ha). destruct (Hk _ _ Eb Hvb) as (rb & Hrb & Hb).
  change (r_Message a) with (r_Message (AuditSink.action_of a)).
  change (r_Message b) with (r_Message (AuditSink.action_of b)). congruence.
Qed.

(** The two texts of the one record. *)
Lemma expiry_messages_differ job job' :
  Custody.phase job ≠ CapturePhaseExpired → Custody.phase job' = CapturePhaseExpired →
  Sanitize.String_ (expiry_message job) ≠ Sanitize.String_ (expiry_message job').
Proof.
  unfold expiry_message, Custody.phase. intros Hp Hp'.
  rewrite (bool_decide_eq_false_2 _ Hp), (bool_decide_eq_true_2 _ Hp'). vm_compute. discriminate.
Qed.

(** C40: A deletion that retention overtakes never finishes.  The record that
    opens a capture's deletion has one stable key and two texts, by whether
    the artifact had already expired.  Once the ledger holds the text of the
    live artifact, and the capture has expired in the meantime, the record is
    refused every time - whatever the store does - and a pass whose records
    are all refused deletes nothing and keeps the finalizer.  Of the JSON of a
    record only this is used: a message that is valid UTF-8 decodes to itself. *)
Theorem expired_deletion_stuck r job job' sk t s rk body existing :
  keeps_message → good s →
  Custody.phase job ≠ CapturePhaseExpired → Custody.phase job' = CapturePhaseExpired →
  cst_Artifact (cj_Status job') ≠ None →
  let rec := expiry_record r job' DecisionAllowed "delete-allowed" in
  bodies s !! AuditSink.indexKeyFor sk (AuditSink.stamped rec t) = Some rk →
  bodies s !! rk = Some body → decode body = Some existing →
  r_Message existing = Sanitize.String_ (expiry_message job) →
  wp step (AuditSink.Commit encode decode sk t rec) (λ o s', o.2 ≠ None ∧ bodies s' = bodies s) s ∧
  wp (@logged captureE) (release_artifact r job') (λ _ log, refused_by_ledger log → held_on log) [].
Proof.
  intros Hk Hg Hp Hp' Hart rec Hi Hr Hd Hm. split.
  - apply (AuditSink.Commit_claimed encode decode sk t rec s rk body existing); try done.
    intros b candidate Eb Ec. apply not_true_iff_false. intros Hsame.
    assert (∀ m, Utf8.valid_string (Sanitize.String_ m) = true) as Hsafe by (intros m; by destruct (Sanitize.String_safe m)).
    destruct (Hk _ _ Eb (Hsafe _)) as (r' & Hr' & Hmsg). simplify_eq.
    apply sameAction_message in Hsame; [|done|rewrite Hm; apply Hsafe|rewrite Hmsg; apply Hsafe].
    apply (expiry_messages_differ job job' Hp Hp'). by rewrite <-Hm, Hsame, Hmsg.
  - unfold release_artifact. destruct (cst_Artifact (cj_Status job')) as [art|]; [|done].
    unfold audit_if, auditExpiry, commit. cbn [is_Some_b].
    assert (held_on []) as Hnil by (split; intros; apply not_elem_of_nil).
    destruct (rc_HasAudit r); [|by intros _]. cbn [negb].
    intros [[]|text] log ->; cbn [prog_bind app].
    + eapply wp_mono; [|by apply (wp_logged_keeps _ (Ev (CommitRecord rec) (Ok tt))), list_elem_of_singleton].
      intros a log' Hin Href. by destruct (Href _ Hin).
    + intros _. split; intros ? ? Hin%list_elem_of_singleton; discriminate Hin.
Qed.

End ledger.
(** ** Another capture's runner *)

(** Finalizing deletes the runner it finds by name, whoever owns it.  The
    name keeps eight bytes of the capture's UID, and [observeJob] refuses a
    runner of another controller; [finalize] does not look. *)
Theorem finalize_takes_foreign_runner decode aggregate quote r job runner c :
  Cluster.cl_job c = Some job → deletion_is_zero (cj_Meta job) = false →
  has_finalizer job = true → Cluster.cl_runner c = Some runner →
  rj_Name runner = runner_name job → rj_Deleting runner = false →
  rj_ControllerUID runner ≠ Some (m_UID (cj_Meta job)) →
  let pass := Reconcile decode aggregate quote r (m_Namespace (cj_Meta job)) (m_Name (cj_Meta job)) in
  Cluster.cl_runner (run Cluster.answer pass c).2 = None ∧
  (run Cluster.answer (observeJob job) c).1 = Ok (CaptureState.mkJobObservation CaptureState.JobFailed "ForeignOwner" None, None).
Proof.
  intros Hj Hd Hf Hr Hn Hdel Hown pass. split.
  - unfold pass, Reconcile, finalize. cbn [call prog_bind run Cluster.answer]. unfold Cluster.find_job, Cluster.named.
    rewrite Hj, !bool_decide_eq_true_2 by done. cbn [andb]. rewrite Hd, Hf. cbn [negb call prog_bind run Cluster.answer].
    assert (Cluster.find_runner c (runner_name job) = Ok runner) as Hfind.
    { unfold Cluster.find_runner. by rewrite Hr, bool_decide_eq_true_2. }
    rewrite Hfind, Hdel. cbn [call prog_bind run Cluster.answer]. by rewrite Hn, Hfind.
  - unfold observeJob. cbn [call prog_bind run Cluster.answer]. unfold Cluster.find_runner.
    rewrite Hr, bool_decide_eq_true_2 by done. by rewrite (bool_decide_eq_false_2 (_ = Some _)).
Qed.

(** ** The wrong namespace *)

(** [reject] does not ask the lifecycle.  A capture outside the system
    namespace is moved to Failed from whatever phase it is in, also from the
    terminal ones, which no transition leaves. *)
Theorem reject_leaves_terminal decode aggregate quote r job c :
  Cluster.cl_job c = Some job → deletion_is_zero (cj_Meta job) = true →
  m_Namespace (cj_Meta job) ≠ rc_SystemNamespace r → rc_HasAudit r = true →
  let pass := Reconcile decode aggregate quote r (m_Namespace (cj_Meta job)) (m_Name (cj_Meta job)) in
  Custody.phase <$> Cluster.cl_job (run Cluster.answer pass c).2 = Some CapturePhaseFailed ∧
  (CaptureState.IsTerminal (Custody.phase job) = true →
   CaptureState.CanTransition (Custody.phase job) CapturePhaseFailed = false).
Proof.
  intros Hj Hd Hn Ha pass. split; [|by destruct (Custody.phase job)].
  unfold pass, Reconcile. cbn [call prog_bind run Cluster.answer]. unfold Cluster.find_job, Cluster.named.
  rewrite Hj, !bool_decide_eq_true_2 by done. cbn [andb]. rewrite Hd. cbn [negb].
  rewrite (bool_decide_eq_false_2 (_ = rc_SystemNamespace r)) by done. cbn [negb].
  unfold reject, auditTransition, commit. rewrite Ha. cbn [negb].
  unfold set_job_condition, set_condition, setDownloadable, writeStatus.
  cbn [call prog_bind run Cluster.answer].
  destruct (CaptureState.DecideDownload _ _); cbn [call prog_bind run Cluster.answer]; try done.
Qed.

(** ** Witnesses *)

(** The example's capture, completed and being deleted; then expired. *)
Definition deleted_job (p : CapturePhase) : CaptureJob :=
  mkCaptureJob
    (mkMeta "job" "prod" "u1" 1 hour (Some (5 * hour)) ∅ [Custody.captureFinalizer]) Cluster.example_spec
    (mkCaptureJobStatus 1 p "t1" "eth0" (Some "trawl-capture-u1") (Some hour) None None (Some (2 * hour)) None None ""
       (Some (mkArtifactReference "artifacts" "k" "" "" (2 * hour))) (Some (4 * hour)) None None []).

Definition example_controller : Reconciler := mkReconciler "prod" (720 * hour) true.

Definition example_commit (p : CapturePhase) (t : time) :
    prog Storage.storeE (AuditSink.CommitResult * option str) :=
  AuditSink.Commit AuditSink.message_encode AuditSink.message_decode AuditSink.example_sink t
    (expiry_record example_controller (deleted_job p) DecisionAllowed "delete-allowed").

(** The ledger after the first pass's record. *)
Definition example_ledger : Storage.Fake :=
  (run Storage.fake_handle (example_commit CapturePhaseCompleted 1) (Storage.NewFake 0)).2.

Definition claimed_key : option string :=
  Storage.fake_bodies example_ledger !! AuditSink.indexKeyFor AuditSink.example_sink
    (AuditSink.stamped (expiry_record example_controller (deleted_job CapturePhaseExpired) DecisionAllowed "delete-allowed") 2).

Lemma expired_deletion_stuck_witness :
  let rec := expiry_record example_controller (deleted_job CapturePhaseExpired) DecisionAllowed "delete-allowed" in
  wp (handles Storage.fake_handle) (example_commit CapturePhaseExpired 2)
    (λ o s', o.2 ≠ None ∧ Storage.fake_bodies s' = Storage.fake_bodies example_ledger) example_ledger.
Proof.
  intros rec.
  edestruct (expired_deletion_stuck (good := Storage.honest) (bodies := Storage.fake_bodies) AuditSink.message_encode AuditSink.message_decode example_controller
    (deleted_job CapturePhaseCompleted) (deleted_job CapturePhaseExpired) AuditSink.example_sink 2 example_ledger
    (default "" claimed_key)
    (Sanitize.String_ (expiry_message (deleted_job CapturePhaseCompleted)))) as [H _]; [..|exact H].
  - intros r b [= <-] _. by eexists.
  - apply Storage.run_honest, Storage.NewFake_honest.
  - discriminate.
  - reflexivity.
  - discriminate.
  - vm_compute. reflexivity.
  - vm_compute. reflexivity.
  - vm_compute. reflexivity.
  - vm_compute. reflexivity.
Defined.

Lemma finalize_takes_foreign_runner_witness :
  Cluster.cl_runner (run Cluster.answer
    (Reconcile Cluster.example_decode (λ _, "") (λ s, s) example_controller "prod" "job")
    (Cluster.mkCluster (Some (deleted_job CapturePhaseCompleted)) (Some (Cluster.example_runner "u2")) [] None
       Cluster.example_bucket [] hour)).2 = None.
Proof.
  edestruct (finalize_takes_foreign_runner Cluster.example_decode (λ _, "") (λ s, s) example_controller
    (deleted_job CapturePhaseCompleted) (Cluster.example_runner "u2")) as [H _]; [..|exact H]; try reflexivity.
  discriminate.
Defined.

Lemma reject_leaves_terminal_witness :
  Custody.phase <$> Cluster.cl_job (run Cluster.answer
    (Reconcile Cluster.example_decode (λ _, "") (λ s, s) (mkReconciler "elsewhere" hour true) "prod" "job")
    (Cluster.mkCluster (Some (Cluster.example_job CapturePhaseCompleted)) None [] None Cluster.example_bucket [] hour)).2
  = Some CapturePhaseFailed.
Proof.
  edestruct (reject_leaves_terminal Cluster.example_decode (λ _, "") (λ s, s) (mkReconciler "elsewhere" hour true)
    (Cluster.example_job CapturePhaseCompleted)) as [H _]; [..|exact H]; try reflexivity.
  discriminate.
Defined.

End CaptureEdge.
