(* ===== verification/CaptureConforms.v ===== *)
(** * The capture controller keeps custody

    Every call [CaptureController.Reconcile] makes is one [Custody.may] allows
    where it makes it.  The lemmas follow the program: one per method, stated
    for whatever the method is followed by. *)

From S2P Require Import Prelude GoTime GoString Sanitize Api Status Duration Bounds Manifest CaptureState.
From S2P Require Import Storage AuditModel Prog Admission Kube Custody Cluster CaptureController.

Module CaptureConforms.
Import AuditModel Kube CaptureState Custody CaptureController.

Section proof.
Context (decode : str → option Manifest.Manifest) (aggregate : list Admission.field_error → str)
  (quote : str → str).

Definition ok {A} (p : prog captureE A) (s : custody) : Prop :=
  conforms honest (may decode) track p (λ _ _, True) s.

Lemma ok_ret {A} (a : A) s : ok (Ret a) s.
Proof. done. Qed.

Lemma ok_bind_assoc {A B C} (p : prog captureE A) (f : A → prog captureE B) (g : B → prog captureE C) s :
  ok (prog_bind p (λ a, prog_bind (f a) g)) s → ok (prog_bind (prog_bind p f) g) s.
Proof. apply conforms_assoc. Qed.

Lemma ok_call {X A} (e : captureE X) (k : X → prog captureE A) s :
  may decode X e s → (∀ x, honest X e x → ok (k x) (track X e x s)) → ok (prog_bind (call e) k) s.
Proof. apply conforms_call. Qed.

(** ** Objects that differ in their conditions only *)

Definition recond (job job' : CaptureJob) : Prop :=
  ∃ conds, job' = with_status job (with_conditions (cj_Status job) conds).

Lemma recond_refl job : recond job job.
Proof. exists (cst_Conditions (cj_Status job)). by destruct job as [m sp []]. Qed.

Lemma recond_trans a b c : recond a b → recond b c → recond a c.
Proof. intros [x ->] [y ->]. by exists y. Qed.

Lemma recond_facts job job' : recond job job' →
  cj_Meta job' = cj_Meta job ∧ cj_Spec job' = cj_Spec job ∧ phase job' = phase job ∧
  cst_SHA256 (cj_Status job') = cst_SHA256 (cj_Status job) ∧
  cst_SizeBytes (cj_Status job') = cst_SizeBytes (cj_Status job) ∧
  cst_PacketCount (cj_Status job') = cst_PacketCount (cj_Status job) ∧
  cst_Artifact (cj_Status job') = cst_Artifact (cj_Status job).
Proof. by intros [conds ->]. Qed.

(** ** Conditions and status writes *)

Lemma ok_condition {A} job type st reason msg (k : CaptureJob → prog captureE A) s :
  (∀ job', recond job job' → ok (k job') s) →
  ok (prog_bind (set_job_condition job type st reason msg) k) s.
Proof.
  intros Hk. apply ok_bind_assoc, ok_bind_assoc, ok_call; [done|]. intros t _. apply Hk. by eexists.
Qed.

Lemma ok_downloadable {A} job (k : CaptureJob → prog captureE A) s :
  (∀ job' t, recond job job' → ok (k job') (with_now s t)) →
  ok (prog_bind (setDownloadable job) k) s.
Proof.
  intros Hk. apply ok_bind_assoc, ok_call; [done|]. intros now _.
  destruct (DecideDownload job now); [|destruct (IsTerminal _)|]; apply ok_condition;
    intros job' Hr; by apply Hk.
Qed.

Lemma ok_write {A} job0 job (k : option str → prog captureE A) s :
  c_job s = Some job0 → may_write decode s job0 job →
  ok (k None) (with_job s job) → (∀ e, ok (k (Some e)) s) →
  ok (prog_bind (writeStatus job) k) s.
Proof.
  intros Hj Hm Hok Herr. apply ok_bind_assoc, ok_call; [by exists job0|]. intros [u|e] _; [exact Hok|apply Herr].
Qed.

Lemma ok_write_tail job0 job s :
  c_job s = Some job0 → may_write decode s job0 job → ok (writeStatus job) s.
Proof. intros Hj Hm. split; [by exists job0|]. by intros [u|e] _. Qed.

Lemma may_write_same s job job' :
  cj_Meta job' = cj_Meta job → cj_Spec job' = cj_Spec job → phase job' = phase job →
  may_write decode s job job'.
Proof. intros. split_and!; auto. Qed.

Lemma ok_commit {A} r rec (k : option str → prog captureE A) s :
  (ok (k None) (with_ack s rec)) → (∀ e, ok (k (Some e)) s) → ok (prog_bind (commit r rec) k) s.
Proof.
  intros Hok Herr. unfold commit. destruct (rc_HasAudit r); [|apply Herr].
  apply ok_bind_assoc, ok_call; [done|]. intros [u|e] _; [exact Hok|apply Herr].
Qed.

Lemma ok_audit_failed {A} job cause (k : option str → prog captureE A) s :
  c_job s = Some job → (∀ e s', ok (k (Some e)) s') → ok (prog_bind (audit_failed job cause) k) s.
Proof.
  intros Hj Hk. unfold audit_failed. apply ok_bind_assoc, ok_condition. intros job' Hr.
  apply recond_facts in Hr as (Hm & Hs & Hp & _). apply ok_bind_assoc.
  apply (ok_write job); [done|by apply may_write_same| |intros]; apply Hk.
Qed.

Lemma ok_unavailable {A} job doing cause (k : option str → prog captureE A) s :
  c_job s = Some job → (∀ e s', ok (k (Some e)) s') → ok (prog_bind (reportUnavailable job doing cause) k) s.
Proof.
  intros Hj Hk. unfold reportUnavailable. apply ok_bind_assoc, ok_condition. intros job' Hr.
  apply recond_facts in Hr as (Hm & Hs & Hp & _). apply ok_bind_assoc.
  apply (ok_write job); [done|by apply may_write_same| |intros]; apply Hk.
Qed.

(** ** Observation *)

(** What the cluster showed leaves the object and the ledger alone. *)
Definition observed (s s' : custody) : Prop :=
  c_job s' = c_job s ∧ c_acked s' = c_acked s ∧ c_deleted s' = c_deleted s.

Lemma observed_refl s : observed s s.
Proof. done. Qed.

Lemma observed_trans s1 s2 s3 : observed s1 s2 → observed s2 s3 → observed s1 s3.
Proof. intros (? & ? & ?) (? & ? & ?). split_and!; congruence. Qed.

Lemma job_condition_present conds o : jo_State o ≠ JobAbsent → jo_State (foldl job_condition o conds) ≠ JobAbsent.
Proof.
  revert o. induction conds as [|c conds IH]; intros o Ho; simpl; [done|]. apply IH.
  unfold job_condition. by repeat case_match.
Qed.

Lemma ok_observeJob {A} job (k : result str (JobObservation * option RunnerJob) → prog captureE A) s :
  (∀ e s', observed s s' → ok (k (Err e)) s') →
  (∀ o runner s', observed s s' → (jo_State o = JobAbsent → c_noRunner s' = true) →
     ok (k (Ok (o, runner))) s') →
  ok (prog_bind (observeJob job) k) s.
Proof.
  intros Herr Hok. apply ok_bind_assoc, ok_call; [done|]. intros [runner|e] _.
  2: { destruct e; simpl; try (apply Herr; done). by apply Hok. }
  case_match; [by apply Hok|].
  pose proof (job_condition_present (rj_Conditions runner) (mkJobObservation JobActive "" None) ltac:(done)) as Ho.
  remember (foldl job_condition _ _) as o eqn:Eo. clear Eo. cbv zeta.
  destruct (jo_State o) eqn:Es; [done|apply Hok; [done|by rewrite Es]|..].
  all: apply ok_bind_assoc, ok_bind_assoc, ok_call; [done|]; intros [[|pod pods]|e] _; cbn [prog_bind result_bind];
    (by apply Hok) || (by apply Herr).
Qed.

Lemma ok_observeTarget {A} job now (k : result str TargetObservation → prog captureE A) s :
  (∀ r, ok (k r) s) → ok (prog_bind (observeTarget job now) k) s.
Proof. intros Hk. apply ok_bind_assoc, ok_call; [done|]. intros tap _. apply Hk. Qed.

(** A verified artifact is what the bucket answered in this pass. *)
Definition seen (s : custody) (job : CaptureJob) (a : ArtifactObservation) : Prop :=
  ao_State a = ArtifactVerified →
  ao_Key a = object_key job ∧
  ∃ info raw m, c_head s = Some (object_key job, info) ∧ c_body s = Some (manifest_key job, raw) ∧
    Manifest.ParseManifest decode raw = Ok m ∧ ao_Manifest a = Some m ∧
    Manifest.VerifyArtifact m (uid job) (Storage.oi_Size info) (default ∅ (Storage.oi_Metadata info)) = Ok tt.

Lemma ok_observeArtifact {A} job (k : ArtifactObservation → prog captureE A) s :
  (∀ a s', observed s s' → c_noRunner s' = c_noRunner s → seen s' job a → ok (k a) s') →
  ok (prog_bind (observeArtifact decode job) k) s.
Proof.
  intros Hk. apply ok_bind_assoc, ok_bind_assoc, ok_call; [done|]. intros [info|[| |text]] _; cbn beta iota.
  - apply ok_bind_assoc, ok_call; [done|]. intros [raw|[| |text]] _; cbn beta iota; try by apply Hk.
    destruct (Manifest.ParseManifest decode raw) as [m|] eqn:Em; [|by apply Hk].
    destruct (Manifest.VerifyArtifact _ _ _ _) as [[]|] eqn:Ev; [|by apply Hk].
    apply Hk; [done..|]. intros _. split; [done|]. by exists info, raw, m.
  - by apply Hk.
  - apply ok_bind_assoc, ok_call; [done|].
    intros [m|[| |]] _; cbn -[bool_decide]; repeat case_match; by apply Hk.
  - by apply Hk.
Qed.

Lemma seen_unobserved s job : seen s job (mkArtifactObservation ArtifactUnknown None "" "" "").
Proof. done. Qed.

Lemma ok_observe {A} job (k : result str (Observation * option RunnerJob) → prog captureE A) s :
  c_job s = Some job →
  (∀ e s', c_job s' = Some job → ok (k (Err e)) s') →
  (∀ obs runner s', c_job s' = Some job →
     (jo_State (obs_Job obs) = JobAbsent → c_noRunner s' = true) → seen s' job (obs_Artifact obs) →
     ok (k (Ok (obs, runner))) s') →
  ok (prog_bind (observe decode job) k) s.
Proof.
  intros Hj Herr Hok. apply ok_bind_assoc, ok_call; [done|]. intros now _. cbn beta iota.
  apply ok_bind_assoc, ok_observeJob; [intros e s' [? _]; apply Herr; cbn in *; congruence|].
  intros o runner s1 [Hj1 _] Hno. assert (c_job s1 = Some job) as Hs1 by (cbn in *; congruence). cbn beta iota.
  apply ok_bind_assoc.
  assert (∀ r, ok (prog_bind (match r with
      | Err e => Ret (Err e)
      | Ok target =>
          let! artifact := if wants_artifact job o then observeArtifact decode job
                           else Ret (mkArtifactObservation ArtifactUnknown None "" "" "") in
          Ret (Ok (mkObservation now target o artifact, runner))
      end) k) s1) as Hrest.
  { intros [target|e]; [|by apply Herr]. apply ok_bind_assoc. destruct (wants_artifact job o).
    - apply ok_observeArtifact. intros a s2 [Hj2 _] Hno2 Ha. apply Hok; [congruence| |done].
      intros Habs. rewrite Hno2. by apply Hno.
    - by apply Hok. }
  destruct (wants_target job o); [apply ok_observeTarget; intros r; apply Hrest|apply (Hrest (Ok _))].
Qed.

(** ** Side effects *)

Lemma ok_applyOwned {A} job kind (k : option str → prog captureE A) s :
  (∀ r, ok (k r) s) → ok (prog_bind (applyOwned job kind) k) s.
Proof.
  intros Hk. apply ok_bind_assoc, ok_call; [done|]. intros [u|e] _; [|apply Hk].
  apply ok_bind_assoc, ok_call; [done|]. intros [u'|[]] _; try apply Hk;
    (apply ok_bind_assoc, ok_call; [done|]; intros r _; apply Hk).
Qed.

Lemma ok_applyOwned_all {A} job kinds (k : option str → prog captureE A) s :
  (∀ r, ok (k r) s) → ok (prog_bind (applyOwned_all job kinds) k) s.
Proof.
  intros Hk. induction kinds as [|kind kinds IH]; [apply Hk|]. apply ok_bind_assoc, ok_applyOwned.
  intros [e|]; [apply Hk|exact IH].
Qed.

(** A state in which the same object is held on the same evidence. *)
Definition held (s s' : custody) : Prop :=
  c_job s' = c_job s ∧ c_acked s' = c_acked s ∧ c_head s' = c_head s ∧ c_body s' = c_body s.

Lemma ok_createRunner {A} job iface (k : result str (option RunnerJob) → prog captureE A) s :
  c_job s = Some job → (∀ bounds, Bounds.ParseBounds (cj_Spec job) = Ok bounds → may_create s job bounds) →
  (∀ r s', held s s' → ok (k r) s') →
  ok (prog_bind (createRunner job iface) k) s.
Proof.
  intros Hj Hm Hk. unfold createRunner. destruct (Bounds.ParseBounds _) as [bounds|e] eqn:Eb; [|by apply Hk].
  apply ok_bind_assoc, ok_applyOwned_all. intros [e|]; [by apply Hk|].
  apply ok_bind_assoc, ok_call; [done|]. intros [u|e] _; [|by apply Hk].
  apply ok_bind_assoc, ok_call; [exists job; auto|]. intros [runner|[]] _; try by apply Hk.
  apply ok_bind_assoc, ok_call; [done|]. intros [runner|[]] _; by apply Hk.
Qed.

(** ** Deleting the artifact *)

Lemma ok_delete_key {A} job0 key (k : option str → prog captureE A) s :
  c_job s = Some job0 → may_delete s job0 key →
  ok (k None) (with_deleted s key) → (∀ e, ok (k (Some e)) s) → ok (prog_bind (delete_key key) k) s.
Proof.
  intros Hj Hm Hok Herr. apply ok_bind_assoc, ok_call; [by exists job0|].
  intros [u|[]] _; solve [exact Hok|apply Herr].
Qed.

Lemma ok_deleteArtifact {A} job0 job (k : option str → prog captureE A) s :
  c_job s = Some job0 → cj_Meta job = cj_Meta job0 →
  (∀ key, key = object_key job0 ∨ key = manifest_key job0 → may_delete s job0 key) →
  ok (k None) (with_deleted (with_deleted s (object_key job0)) (manifest_key job0)) →
  (∀ e s', ok (k (Some e)) s') →
  ok (prog_bind (deleteArtifact job) k) s.
Proof.
  intros Hj Em Hm Hok Herr. unfold deleteArtifact.
  assert (object_key job = object_key job0) as -> by (unfold object_key, uid; by rewrite Em).
  assert (manifest_key job = manifest_key job0) as -> by (unfold manifest_key, uid; by rewrite Em).
  apply ok_bind_assoc. apply (ok_delete_key job0); [done|by apply Hm; left| |intros; apply Herr].
  apply (ok_delete_key job0); [done|by apply (Hm (manifest_key job0)); right|done|intros; apply Herr].
Qed.

(** ** Persisting an outcome *)

(** The object an outcome leaves, up to its conditions. *)
Definition applied (job : CaptureJob) (o : Outcome) (runner : option RunnerJob) (job' : CaptureJob) : Prop :=
  recond (with_status job (completion_fields (failure_fields (outcome_fields job o runner) o) o)) job'.

Lemma fields_conditions s o conds :
  completion_fields (failure_fields (with_conditions s conds) o) o =
  with_conditions (completion_fields (failure_fields s o) o) conds.
Proof. unfold completion_fields, failure_fields. destruct (o_Failure o), (o_Completion o); done. Qed.

Lemma applied_facts job o runner job' : applied job o runner job' →
  cj_Meta job' = cj_Meta job ∧ cj_Spec job' = cj_Spec job ∧ phase job' = o_Phase o ∧
  ∀ c, o_Completion o = Some c →
    cst_SHA256 (cj_Status job') = cmp_SHA256 c ∧ cst_SizeBytes (cj_Status job') = Some (cmp_SizeBytes c) ∧
    cst_PacketCount (cj_Status job') = Some (cmp_PacketCount c) ∧
    ar_Key <$> cst_Artifact (cj_Status job') = Some (ar_Key (cmp_Artifact c)).
Proof.
  intros (-> & -> & -> & H1 & H2 & H3 & H4)%recond_facts. split_and!; [done..| |].
  - unfold phase, completion_fields, failure_fields. cbn [cj_Status with_status].
    by destruct (o_Failure o), (o_Completion o).
  - intros c Hc. rewrite H1, H2, H3, H4. unfold completion_fields. by rewrite Hc.
Qed.

(** What the controller writes past Pending has a recorded runner, as long as
    nothing is reported of a capture that has none. *)
Lemma consistent_kept job obs stale o runner job' :
  Evaluate job obs stale = Ok o → applied job o runner job' → consistent job →
  (cst_RunnerJobRef (cj_Status job) = None → cst_StartedAt (cj_Status job) = None ∧ cst_CaptureEndedAt (cj_Status job) = None) →
  consistent job'.
Proof.
  intros HE Happ Hc Hrep Hnone.
  assert (phase job' = o_Phase o) as Hphase by by apply applied_facts in Happ as (_ & _ & ? & _).
  assert (cst_RunnerJobRef (cj_Status job') = match runner with Some r => Some (rj_Name r) | None => cst_RunnerJobRef (cj_Status job) end) as Href.
  { destruct Happ as [conds ->]. unfold completion_fields, failure_fields. by destruct (o_Failure o), (o_Completion o). }
  rewrite Href in Hnone. destruct runner as [rn|]; [done|]. unfold phase in Hphase. rewrite Hphase.
  specialize (Hc Hnone). destruct (Hrep Hnone) as [Hs He]. clear Href Hphase Happ.
  assert (livePhase job ∉ [CapturePhaseCapturing; CapturePhaseStoring]) as Hlive.
  { unfold livePhase. rewrite Hs, He. case_match; [exact Hc|set_solver]. }
  destruct (IsTerminal (cst_Phase (cj_Status job))) eqn:Et.
  { rewrite (Evaluate_terminal job obs stale Et) in HE. by injection HE as <-. }
  destruct (Evaluate_phases job obs stale o Et HE) as [Hp|Hin]; [by rewrite Hp|].
  rewrite !elem_of_cons, elem_of_nil in *. destruct (o_Phase o); naive_solver.
Qed.

Lemma ok_setTargetReady {A} job obs o (k : CaptureJob → prog captureE A) s :
  (∀ job', recond job job' → ok (k job') s) → ok (prog_bind (setTargetReady job obs o) k) s.
Proof.
  intros Hk. unfold setTargetReady.
  destruct (o_Action o), (jo_State (obs_Job obs)), (to_State (obs_Target obs));
    solve [apply Hk, recond_refl|by apply ok_condition].
Qed.

Lemma ok_setArtifactVerified {A} job obs o (k : CaptureJob → prog captureE A) s :
  (∀ job', recond job job' → ok (k job') s) → ok (prog_bind (setArtifactVerified job obs o) k) s.
Proof.
  intros Hk. unfold setArtifactVerified. cbv zeta.
  repeat case_match; solve [apply Hk, recond_refl|by apply ok_condition].
Qed.

Lemma ok_applyOutcome {A} job obs o runner (k : CaptureJob → prog captureE A) s :
  (∀ job' s', held s s' → applied job o runner job' → ok (k job') s') →
  ok (prog_bind (applyOutcome job obs o runner) k) s.
Proof.
  intros Hk. unfold applyOutcome. cbv zeta. apply ok_bind_assoc, ok_condition. intros j1 H1.
  apply ok_bind_assoc, ok_setTargetReady. intros j2 H2.
  apply ok_bind_assoc, ok_setArtifactVerified. intros j3 H3.
  assert (recond (with_status job (outcome_fields job o runner)) j3) as [conds ->]
    by (eapply recond_trans; [exact H1|by eapply recond_trans]).
  apply ok_downloadable. intros j4 t H4. apply Hk; [done|]. cbn [cj_Status with_status] in H4.
  rewrite fields_conditions in H4. destruct H4 as [conds' ->]. by exists conds'.
Qed.

(** What makes an outcome safe to persist. *)
Definition sound_outcome (s : custody) (job : CaptureJob) (o : Outcome) : Prop :=
  IsTerminal (phase job) = false ∧ o_Phase o ≠ CapturePhaseExpired ∧
  (o_Action o = ActionCleanupArtifact → o_Phase o = CapturePhaseFailed) ∧
  (o_Phase o = CapturePhaseCompleted →
   ∃ c info raw m, o_Completion o = Some c ∧
     c_head s = Some (object_key job, info) ∧ c_body s = Some (manifest_key job, raw) ∧
     Manifest.ParseManifest decode raw = Ok m ∧
     Manifest.VerifyArtifact m (uid job) (Storage.oi_Size info) (default ∅ (Storage.oi_Metadata info)) = Ok tt ∧
     cmp_SHA256 c = Manifest.mf_SHA256 m ∧ cmp_SizeBytes c = Manifest.mf_SizeBytes m ∧
     cmp_PacketCount c = Manifest.mf_PacketCount m ∧ ar_Key (cmp_Artifact c) = object_key job).

Lemma sound_outcome_held s s' job o : held s s' → sound_outcome s job o → sound_outcome s' job o.
Proof.
  intros (_ & _ & Eh & Eb) (Ht & He & Ha & Hc). split_and!; [done..|]. by rewrite Eh, Eb.
Qed.

Lemma applied_may_write s job o runner job' :
  sound_outcome s job o → applied job o runner job' →
  phase job = o_Phase o ∨ CanTransition (phase job) (o_Phase o) = true ∧ announced s job (o_Phase o) →
  may_write decode s job job'.
Proof.
  intros (_ & Hne & _ & Hc) (Em & Es & Ep & Hf)%applied_facts Hor. split_and!; [done..|].
  destruct Hor as [Eq|[Ht Ha]]; [left; congruence|]. right. rewrite Ep. split_and!; [done..|].
  unfold supported. change (cst_Phase (cj_Status job')) with (phase job'). rewrite Ep.
  destruct (o_Phase o) eqn:Eo; try done.
  destruct (Hc eq_refl) as (c & info & raw & m & Hco & Hh & Hb & Hp & Hv & H1 & H2 & H3 & H4).
  destruct (Hf c Hco) as (F1 & F2 & F3 & F4). exists info, raw, m.
  by rewrite F1, F2, F3, F4, H1, H2, H3, H4.
Qed.

(** After a write: the object as it now stands. *)
Definition persisted (s : custody) (job : CaptureJob) (p : CapturePhase) : Prop :=
  ∃ job', c_job s = Some job' ∧ cj_Meta job' = cj_Meta job ∧ phase job' = p.

Lemma ok_persist_applied {A} job obs o runner (k : option str → prog captureE A) s :
  c_job s = Some job → sound_outcome s job o →
  phase job = o_Phase o ∨ CanTransition (phase job) (o_Phase o) = true ∧ announced s job (o_Phase o) →
  (∀ s', persisted s' job (o_Phase o) → ok (k None) s') → (∀ e s', ok (k (Some e)) s') →
  ok (prog_bind (persist_applied job obs o runner) k) s.
Proof.
  intros Hj Hs Hor Hk Herr. apply ok_bind_assoc, ok_applyOutcome. intros job' s' Hh Ha.
  pose proof (applied_facts _ _ _ _ Ha) as (Em & Es & Ep & _). pose proof Hh as (Hj' & Hack & _).
  case_bool_decide as Heq.
  - apply Hk. exists job. split_and!; [congruence|done|]. unfold phase in *. congruence.
  - apply (ok_write job); [congruence| |apply Hk; by exists job'|intros; apply Herr].
    eapply applied_may_write; [by eapply sound_outcome_held|done|].
    destruct Hor as [?|[? Han]]; [by left|right]. split; [done|].
    unfold announced, acked in *. by rewrite Hack.
Qed.

Lemma transition_announced r s job o :
  o_Phase o ≠ CapturePhaseExpired → announced (with_ack s (transition_record r job o)) job (o_Phase o).
Proof.
  intros Hne.
  assert (acked (with_ack s (transition_record r job o)) job ActionCaptureJobTransition (TransitionStep (o_Phase o))).
  { exists (transition_record r job o). split; [left|]. unfold transition_record, about. by destruct (o_Failure o). }
  unfold announced. by destruct (o_Phase o).
Qed.

Lemma ok_persist {A} r job obs o runner (k : option str → prog captureE A) s :
  c_job s = Some job → sound_outcome s job o →
  (∀ s', (o_Action o = ActionCleanupArtifact → persisted s' job CapturePhaseFailed) → ok (k None) s') →
  (∀ e s', ok (k (Some e)) s') →
  ok (prog_bind (persist r job obs o runner) k) s.
Proof.
  intros Hj Hs Hk Herr. pose proof Hs as (Ht & Hne & Hact & _).
  assert (∀ s', persisted s' job (o_Phase o) → ok (k None) s') as Hdone.
  { intros s' Hp. apply Hk. intros Ha. by rewrite <-(Hact Ha). }
  unfold persist. case_bool_decide as Heq.
  { apply ok_persist_applied; [done|done|by left|done|done]. }
  destruct (CanTransition _ _) eqn:Hc; cbn [negb].
  2: { apply Hk. intros Ha. rewrite (Hact Ha) in Hc. unfold CanTransition in Hc.
       rewrite bool_decide_eq_true_2 in Hc by done. unfold phase in Ht. by rewrite Ht in Hc. }
  apply ok_bind_assoc, ok_commit; [|intros e; by apply ok_audit_failed].
  apply ok_persist_applied; [done|by eapply sound_outcome_held| |done|done].
  right. split; [done|]. by apply transition_announced.
Qed.

Lemma ok_reject {A} r job reason failure msg (k : option str → prog captureE A) s :
  c_job s = Some job → IsTerminal (phase job) = false →
  (∀ e s', ok (k e) s') → ok (prog_bind (reject r job reason failure msg) k) s.
Proof.
  intros Hj Ht Hk. unfold reject. cbv zeta.
  set (o := failed_in _ _ _). assert (o_Phase o = CapturePhaseFailed) as Ho by done.
  apply ok_bind_assoc, ok_commit; [|intros e; apply ok_audit_failed; [done|intros; apply Hk]].
  apply ok_bind_assoc, ok_condition. intros j1 H1. apply ok_bind_assoc, ok_downloadable. intros j2 t H2.
  pose proof (recond_facts _ _ (recond_trans _ _ _ H1 H2)) as (Em & Es & Ep & _).
  apply (ok_write job); [done| |apply Hk|intros; apply Hk]. split_and!; [done..|]. right.
  rewrite Ep. unfold phase at 2, phase at 2. cbn [cj_Status with_status with_failure with_phase cst_Phase].
  split_and!.
  - unfold CanTransition. by rewrite bool_decide_eq_true_2, Ht.
  - pose proof (transition_announced r s job o ltac:(done)) as Ha. by rewrite Ho in Ha.
  - unfold supported. change (cst_Phase (cj_Status j2)) with (phase j2). by rewrite Ep.
Qed.

(** ** Reconcile *)

Lemma ok_follow_retention {A} job job0 (k : option str → prog captureE A) s :
  c_job s = Some job0 → job0 = job → (∀ e s', ok (k e) s') → ok (prog_bind (follow_retention job) k) s.
Proof.
  intros Hj -> Hk. unfold follow_retention. cbv zeta. case_match; [apply Hk|].
  destruct (cst_CompletedAt _); [|apply Hk]. destruct (RetentionDeadline _ _); [|apply Hk].
  apply ok_bind_assoc, ok_downloadable. intros j t Hr. apply recond_facts in Hr as (Em & Es & Ep & _).
  apply (ok_write job); [done|by apply may_write_same|apply Hk|intros; apply Hk].
Qed.

Lemma failed_may_delete s job key :
  phase job = CapturePhaseFailed → key = object_key job ∨ key = manifest_key job → may_delete s job key.
Proof. intros Hp Hk. split; [done|]. by left. Qed.

Lemma ok_reconcileTerminal {A} job (k : option str → prog captureE A) s :
  c_job s = Some job → (∀ e s', ok (k e) s') → ok (prog_bind (reconcileTerminal job) k) s.
Proof.
  intros Hj Hk. unfold reconcileTerminal. case_match eqn:Hf; [|by apply (ok_follow_retention job job)].
  apply andb_true_iff in Hf as [Hf _]. apply bool_decide_eq_true in Hf.
  apply ok_bind_assoc. apply (ok_deleteArtifact job); [done|done| | |intros; apply Hk].
  - intros key Hkey. by apply failed_may_delete.
  - by apply (ok_follow_retention job job).
Qed.

Lemma ok_after_persist job o s :
  (o_Action o = ActionCleanupArtifact → persisted s job CapturePhaseFailed) → ok (after_persist job o) s.
Proof.
  intros Hp. unfold after_persist. destruct (o_Action o); try done.
  - by destruct (IsTerminal _).
  - by destruct (IsTerminal _).
  - destruct (Hp eq_refl) as (job' & Hj & Em & Eph).
    apply (ok_deleteArtifact job'); [done|done| | |done]; [intros key; by apply failed_may_delete|].
    by destruct (IsTerminal _).
Qed.

Lemma ok_persist_outcome r job obs o runner s :
  c_job s = Some job → sound_outcome s job o → ok (persist_outcome r job obs o runner) s.
Proof. intros Hj Hs. apply ok_persist; [done|done| |done]. intros s' Hp. by apply ok_after_persist. Qed.

Lemma evaluated_sound s job obs o :
  IsTerminal (phase job) = false → seen s job (obs_Artifact obs) →
  Evaluate job obs StaleHeartbeat = Ok o → sound_outcome s job o.
Proof.
  intros Ht Hseen He. destruct (Evaluate_actions _ _ _ _ Ht He) as (Hne & Ha & _). split_and!; [done..|].
  intros Hp. destruct (Evaluate_completed _ _ _ _ Ht He Hp) as [Hv Hc].
  destruct (Hseen Hv) as (Hkey & info & raw & m & Hh & Hb & Hm & Hmm & Hver).
  unfold complete in Hc. rewrite Hmm in Hc. apply result_bind_Ok in Hc as (d & _ & [= <-]).
  eexists _, info, raw, m. split_and!; done.
Qed.

Lemma ok_converge r job s :
  c_job s = Some job → IsTerminal (phase job) = false → deletion_is_zero (cj_Meta job) = true →
  has_finalizer job = true → ok (converge decode r job) s.
Proof.
  intros Hj Ht Hd Hf. apply ok_observe; [done|intros e s1 Hj1; by apply ok_unavailable|].
  intros obs runner s1 Hj1 Hno Hseen. destruct (Evaluate _ _ _) as [o|e] eqn:He; [|done].
  pose proof (evaluated_sound _ _ _ _ Ht Hseen He) as Hsound.
  destruct (Evaluate_actions _ _ _ _ Ht He) as (_ & _ & Hcreate).
  destruct (o_Action o) eqn:Ea; try by apply ok_persist_outcome.
  destruct (Hcreate eq_refl) as [Habs Href]. apply bool_decide_eq_true in Hf.
  apply ok_createRunner; [done|intros bounds Hb; split_and!; auto; by apply Hno|].
  intros created s2 Hh. pose proof Hh as (Hj2 & _). rewrite Hj1 in Hj2.
  destruct created as [[runner'|]|e]; [| |by apply ok_unavailable].
  - apply ok_persist_outcome; [done|]. by eapply sound_outcome_held.
  - by apply ok_persist_outcome.
Qed.

Lemma ok_reconcile_held r job s :
  c_job s = Some job → deletion_is_zero (cj_Meta job) = true → has_finalizer job = true →
  ok (reconcile_held decode aggregate r job) s.
Proof.
  intros Hj Hd Hf. unfold reconcile_held. destruct (IsTerminal _) eqn:Ht.
  { by apply ok_reconcileTerminal. }
  destruct (Admission.ValidateCaptureJobSpec _ _); [by apply ok_converge|by apply ok_reject].
Qed.

(** ** Finalizing *)

Lemma expiry_acked r s job decision step :
  acked (with_ack s (expiry_record r job decision step)) job ActionArtifactExpire step.
Proof. eexists. split; [left|done]. Qed.

Lemma acked_mono s rec job action step : acked s job action step → acked (with_ack s rec) job action step.
Proof. intros (rec' & Hin & Hab). exists rec'. split; [by right|done]. Qed.

(** The bracketing record, if there is an artifact. *)
Lemma ok_audit_if {A} r job decision step (k : option str → prog captureE A) s :
  (∀ s', c_job s' = c_job s → c_noRunner s' = c_noRunner s → c_noPods s' = c_noPods s →
     c_deleted s' = c_deleted s → (∀ a st, acked s job a st → acked s' job a st) →
     (cst_Artifact (cj_Status job) ≠ None → acked s' job ActionArtifactExpire step) → ok (k None) s') →
  (∀ e s', ok (k (Some e)) s') →
  ok (prog_bind (audit_if (is_Some_b (cst_Artifact (cj_Status job))) r job decision step) k) s.
Proof.
  intros Hk Herr. unfold audit_if. destruct (cst_Artifact (cj_Status job)); cbn [is_Some_b]; [|by apply Hk].
  apply ok_commit; [|intros; apply Herr]. apply Hk; try done; [intros a' st; apply acked_mono|].
  intros _. apply expiry_acked.
Qed.

Lemma release_facts job :
  cj_Status (release job) = cj_Status job ∧ cj_Spec (release job) = cj_Spec job ∧ uid (release job) = uid job.
Proof. done. Qed.

Lemma ok_release_artifact r job s :
  c_job s = Some job → quiesced s job → ok (release_artifact r job) s.
Proof.
  intros Hj (Hd & Hr & Hp). unfold release_artifact. cbv zeta.
  apply ok_audit_if; [|done]. intros s1 Ej Er Ep Ed _ Hallowed.
  assert (c_job s1 = Some job) as Hj1 by congruence.
  assert (quiesced s1 job) as Hq1 by (split_and!; congruence).
  apply (ok_deleteArtifact job); [done|done| | |done].
  { intros key Hkey. split; [done|]. right. by left. }
  apply ok_audit_if; [|done]. intros s2 Ej2 Er2 Ep2 Ed2 Hmono Hsucc. apply ok_call; [|by intros [] _].
  exists job. split; [by rewrite Ej2|]. destruct (release_facts job) as (E1 & E2 & E3). split_and!; [done..|].
  intros _ _. unfold quiesced. rewrite Er2, Ep2, Ed2. destruct Hq1 as (? & ? & ?). split_and!; [done..| | |].
  - right. left.
  - left.
  - intros Hart. split; [|by apply Hsucc]. apply Hmono. by apply Hallowed.
Qed.

Lemma ok_finalize r job s :
  c_job s = Some job → deletion_is_zero (cj_Meta job) = false → ok (finalize r job) s.
Proof.
  intros Hj Hd. unfold finalize. cbv zeta. destruct (has_finalizer job); [|done]. cbn [negb].
  apply ok_call; [done|]. intros [runner|e] _.
  { destruct (rj_Deleting runner); [done|]. apply ok_call; [by exists job|]. by intros [] _. }
  destruct e; try done. apply ok_call; [done|]. intros [[|pod pods]|e] _; try done.
  by apply ok_release_artifact.
Qed.

(** ** Theorem *)

(** C1: The capture controller keeps custody of the captures it serves, those of
    the system namespace; one elsewhere is refused, from any phase, by
    [CaptureEdge.reject_leaves_terminal].  Whatever the cluster, the bucket,
    the ledger and the clocks answer, and wherever a pass is cut off, every
    call [Reconcile] made was allowed where it made it: a phase changes only
    along the lifecycle and behind its acknowledged record; a capture
    completes only on an object and a manifest read in the same pass and
    accepted against each other; a runner is created only for a live capture
    with none found and none recorded; objects are deleted only for a failed
    capture, or for a deleted one whose runner and pods are gone; and the
    finalizer goes last, behind both deletions and both records. *)
Theorem capture_refines_custody r name l :
  partial honest (Reconcile decode aggregate quote r (rc_SystemNamespace r) name) l →
  accepts (may decode) track start l.
Proof.
  apply conforms_accepts with (Q := λ _ _, True).
  change (ok (Reconcile decode aggregate quote r (rc_SystemNamespace r) name) start).
  apply ok_call; [done|]. intros [job|e] Hhon; [|by destruct e]. destruct Hhon as [Hns _].
  destruct (deletion_is_zero (cj_Meta job)) eqn:Hd; cbn [negb]; [|by apply ok_finalize].
  rewrite (bool_decide_eq_true_2 (_ = _)) by done. cbn [negb].
  destruct (has_finalizer job) eqn:Hf; [by apply ok_reconcile_held|]. cbv zeta.
  apply ok_call.
  - exists job. split; [done|]. split_and!; [done..|]. intros Hin. apply bool_decide_eq_false in Hf. done.
  - intros [u|e] _; [|done]. apply ok_reconcile_held; [done|done|]. apply bool_decide_eq_true.
    cbn. apply elem_of_app. right. left.
Qed.

End proof.

(** ** Witness *)

Definition example_controller : Reconciler := mkReconciler "prod" (720 * hour) true.

Definition example_pass : prog captureE Result :=
  Reconcile Cluster.example_decode (λ _, "") (λ s, s) example_controller (rc_SystemNamespace example_controller) "job".

Lemma capture_refines_custody_witness :
  Cluster.summary (run Cluster.answer example_pass Cluster.example_cluster).2 = (Some CapturePhaseCompleted, 1%nat, 2%nat) ∧
  accepts (may Cluster.example_decode) track start (trace Cluster.answer example_pass Cluster.example_cluster).
Proof.
  split; [vm_compute; reflexivity|].
  apply (capture_refines_custody Cluster.example_decode (λ _, "") (λ s, s) example_controller "job"
    (trace Cluster.answer example_pass Cluster.example_cluster)).
  apply Cluster.answer_partial.
Defined.

End CaptureConforms.
