(* ===== verification/Retention.v ===== *)
(** * Retention, internal/controller/retention.go

    The second controller over CaptureJobs: it deletes a capture's artifact
    once its deadline passes and records that it did.  Its calls, and the
    contract they keep, are those of [Kube] and [Custody]. *)

From S2P Require Import Prelude GoTime GoString Sanitize Api Status Duration Bounds Manifest CaptureState.
From S2P Require Import Storage AuditModel Prog Admission Kube Custody Cluster CaptureController CaptureConforms.

Module Retention.
Import AuditModel Kube CaptureState.

Definition retentionSweepInterval : duration := hour.
Definition retentionOverdueAfter : duration := 24 * hour.
Definition expireStep : str := "artifact:expire".

Abbreviation Result := CaptureController.Result (only parsing).

Definition RetentionOverdue (job : CaptureJob) (now : time) : bool :=
  match cst_RetentionDeadline (cj_Status job) with
  | None => false
  | Some deadline =>
      negb (bool_decide (cst_Phase (cj_Status job) = CapturePhaseExpired)) &&
      (retentionOverdueAfter <? t_sub now deadline)
  end.

Definition nextSweep (until : duration) : duration :=
  if retentionSweepInterval <? until then retentionSweepInterval else until.

Section retention.
(** RFC 3339 in UTC, as [time.Format] writes it. *)
Context (rfc3339 : time → str).

(** The reconciler holds what the capture controller's does, and the bucket
    may be missing. *)
Record Reconciler := mkReconciler { rt_SystemNamespace : str; rt_HasAudit : bool; rt_HasStore : bool }.

Definition actor (r : Reconciler) : Actor :=
  mkActor ("system:serviceaccount:" +:+ rt_SystemNamespace r +:+ ":trawl-controller-manager") "" [].

Definition expiry_record (r : Reconciler) (job : CaptureJob) (decision message : str) : Record_ :=
  mkRecord "" 0 ActionArtifactExpire decision Status.ReasonExpired message (actor r)
    (CaptureController.resourceFor job) ""
    (StableKeyForAutomatic ActionArtifactExpire (m_UID (cj_Meta job)) (expireStep +:+ ":" +:+ decision))
    (Admission.requester (cj_Meta job)) "" 0.

Definition auditExpiry (r : Reconciler) (job : CaptureJob) (decision message : str) : prog captureE (option str) :=
  if negb (rt_HasAudit r) then Ret (Some "no audit ledger configured") else
  let! res := call (CommitRecord (expiry_record r job decision message)) in
  Ret match res with
      | Ok _ => None
      | Err text => Some ("committing the expiry record: " +:+ Sanitize.String_ text)
      end.

Definition update_status (job : CaptureJob) : prog captureE (option str) :=
  let! res := call (UpdateStatus job) in
  Ret match res with Ok _ => None | Err e => Some (kube_text e) end.

(** The deadline of the recorded completion and the current spec, persisted
    when it moved; the object with it. *)
Definition observedDeadline (job : CaptureJob) : prog captureE (result str (time * CaptureJob)) :=
  match cst_CompletedAt (cj_Status job) with
  | None => Ret (Err "a completed capture has no completion time")
  | Some completedAt =>
      match RetentionDeadline completedAt (cjs_Retention (cj_Spec job)) with
      | Err e => Ret (Err (Sanitize.String_ e))
      | Ok want =>
          let want := t_truncate want second in
          if bool_decide (cst_RetentionDeadline (cj_Status job) = Some want) then Ret (Ok (want, job)) else
          let job := with_status job (with_deadline (cj_Status job) (Some want)) in
          let! err := update_status job in
          Ret match err with Some e => Err e | None => Ok (want, job) end
      end
  end.

Definition already_refused (job : CaptureJob) : bool :=
  match Status.Get (cst_Conditions (cj_Status job)) Status.TypeDownloadable with
  | None => false
  | Some c =>
      bool_decide (cond_Status c = ConditionFalse) && bool_decide (cond_Reason c = Status.ReasonExpired) &&
      (cond_ObservedGeneration c =? m_Generation (cj_Meta job))
  end.

Definition denyDownload (job : CaptureJob) (deadline : time) : prog captureE (result str CaptureJob) :=
  if already_refused job then Ret (Ok job) else
  let! job := CaptureController.set_job_condition job Status.TypeDownloadable ConditionFalse Status.ReasonExpired
                ("the retention deadline passed at " +:+ rfc3339 deadline) in
  let! err := update_status job in
  Ret match err with Some e => Err e | None => Ok job end.

Definition store_text (e : Storage.store_error) : str :=
  match e with
  | Storage.ErrAlreadyExists => "object already exists"
  | Storage.ErrNotFound => "object not found"
  | Storage.ErrOther text => text
  end.

(** One key: deleted, and then seen to be absent. *)
Definition remove_key (key : str) : prog captureE (option str) :=
  let! res := call (Store (Storage.Delete key)) in
  match res with
  | Err e => Ret (Some ("deleting the artifact: " +:+ Sanitize.String_ (store_text e)))
  | Ok _ =>
      let! info := call (Store (Storage.Head key)) in
      Ret match info with
          | Err Storage.ErrNotFound => None
          | Err e => Some ("verifying the deletion: " +:+ Sanitize.String_ (store_text e))
          | Ok _ => Some "the object is still present after a successful delete"
          end
  end.

Definition removeArtifact (r : Reconciler) (job : CaptureJob) : prog captureE (option str) :=
  if negb (rt_HasStore r) then Ret (Some "no artifact store configured") else
  let! err := remove_key (Custody.object_key job) in
  match err with
  | Some e => Ret (Some e)
  | None => remove_key (Custody.manifest_key job)
  end.

Definition overdue_message (job : CaptureJob) (deadline now : time) (cause : str) : str :=
  let late := t_sub now deadline in
  let late := GoDuration.String_ (late - Z.rem late second) in
  if RetentionOverdue job now
  then "the artifact is " +:+ late +:+ " past its deadline, beyond the " +:+
       GoDuration.String_ retentionOverdueAfter +:+ " bound, and has not been deleted: " +:+ Sanitize.String_ cause
  else "the artifact is " +:+ late +:+ " past its deadline and has not been deleted: " +:+ Sanitize.String_ cause.

Definition markRetentionFailed (job : CaptureJob) (deadline now : time) (cause : str) : prog captureE (option str) :=
  let! job := CaptureController.set_job_condition job Status.TypeRetentionEnforced ConditionFalse
                Status.ReasonRetentionFailed (overdue_message job deadline now cause) in
  update_status job.

Definition removal_failed (r : Reconciler) (job : CaptureJob) (deadline now : time) (cause : str) :
    prog captureE CaptureController.Result :=
  let! err := markRetentionFailed job deadline now cause in
  match err with
  | Some e => Ret (0, Some e)
  | None =>
      let! err := auditExpiry r job DecisionFailed (Sanitize.String_ cause) in
      match err with
      | Some e => Ret (0, Some e)
      | None => Ret (retentionSweepInterval, None)
      end
  end.

(** From the verified absence on. *)
Definition record_expiry (r : Reconciler) (job : CaptureJob) : prog captureE CaptureController.Result :=
  let! err := auditExpiry r job DecisionSucceeded "the artifact was deleted and its absence verified" in
  match err with
  | Some e => Ret (0, Some e)
  | None =>
      let job := with_status job (with_phase (cj_Status job) CapturePhaseExpired) in
      let! job := CaptureController.set_job_condition job Status.TypeRetentionEnforced ConditionTrue
                    Status.ReasonRetentionEnforced "the artifact was deleted and its absence verified" in
      let! job := CaptureController.set_job_condition job Status.TypeDownloadable ConditionFalse
                    Status.ReasonExpired "the retention deadline passed and the artifact was deleted" in
      let! err := update_status job in
      Ret (0, err)
  end.

Definition expire (r : Reconciler) (job : CaptureJob) (deadline now : time) : prog captureE CaptureController.Result :=
  let! denied := denyDownload job deadline in
  match denied with
  | Err e => Ret (0, Some e)
  | Ok job =>
      let! err := auditExpiry r job DecisionAllowed "the retention deadline passed" in
      match err with
      | Some e => Ret (0, Some e)
      | None =>
          let! err := removeArtifact r job in
          match err with
          | Some cause => removal_failed r job deadline now cause
          | None => record_expiry r job
          end
      end
  end.

Definition sweepOrphans (r : Reconciler) (job : CaptureJob) : prog captureE CaptureController.Result :=
  let! err := removeArtifact r job in
  Ret match err with Some _ => (retentionSweepInterval, None) | None => (0, None) end.

Definition enforce (r : Reconciler) (job : CaptureJob) : prog captureE CaptureController.Result :=
  let! seen := observedDeadline job in
  match seen with
  | Err e => Ret (0, Some e)
  | Ok (deadline, job) =>
      let! now := call Now in
      if t_before now deadline then Ret (nextSweep (t_sub deadline now), None)
      else expire r job deadline now
  end.

Definition Reconcile (r : Reconciler) (namespace name : str) : prog captureE CaptureController.Result :=
  let! found := call (GetCaptureJob namespace name) in
  match found with
  | Err (NotFound _) => Ret (0, None)
  | Err e => Ret (0, Some (kube_text e))
  | Ok job =>
      match cst_Phase (cj_Status job) with
      | CapturePhaseFailed => sweepOrphans r job
      | CapturePhaseCompleted => enforce r job
      | _ => Ret (0, None)
      end
  end.

(** ** The contract, method by method *)

Section conforms.
Context (decode : str → option Manifest.Manifest).
Import Custody CaptureConforms.

#[local] Abbreviation ok := (ok decode).

Lemma ok_update {A} job0 job (k : option str → prog captureE A) s :
  c_job s = Some job0 → may_write decode s job0 job →
  ok (k None) (with_job s job) → (∀ e, ok (k (Some e)) s) → ok (prog_bind (update_status job) k) s.
Proof.
  intros Hj Hm Hok Herr. apply ok_bind_assoc, ok_call; [by exists job0|].
  intros [u|e] _; [exact Hok|apply Herr].
Qed.

Lemma ok_auditExpiry {A} r job decision msg (k : option str → prog captureE A) s :
  (∀ s', c_job s' = c_job s → c_deleted s' = c_deleted s → c_absent s' = c_absent s → c_now s' = c_now s →
     acked s' job ActionArtifactExpire (expireStep +:+ ":" +:+ decision) →
     (∀ a st, acked s job a st → acked s' job a st) → ok (k None) s') →
  (∀ e, ok (k (Some e)) s) → ok (prog_bind (auditExpiry r job decision msg) k) s.
Proof.
  intros Hk Herr. unfold auditExpiry. destruct (rt_HasAudit r); [|apply Herr]. cbn [negb].
  apply ok_bind_assoc, ok_call; [done|]. intros [u|e] _; [|apply Herr].
  apply Hk; try done; [|intros a st; apply acked_mono].
  exists (expiry_record r job decision msg). split; [left|done].
Qed.

(** Where both keys may be deleted, removal ends with both confirmed absent. *)
Lemma ok_remove_key {A} job key (k : option str → prog captureE A) s :
  c_job s = Some job → may_delete s job key →
  (∀ s', c_job s' = c_job s → c_now s' = c_now s → c_acked s' = c_acked s → c_noRunner s' = c_noRunner s →
     c_noPods s' = c_noPods s → c_absent s ⊆ c_absent s' → key ∈ c_absent s' → ok (k None) s') →
  (∀ e s', c_job s' = c_job s → c_acked s' = c_acked s → ok (k (Some e)) s') →
  ok (prog_bind (remove_key key) k) s.
Proof.
  intros Hj Hm Hk Herr. apply ok_bind_assoc, ok_call; [by exists job|]. intros [u|e] _; [|by destruct e; apply Herr].
  apply ok_bind_assoc, ok_call; [done|]. intros [info|[| |text]] _; cbn; try by apply Herr.
  rewrite (bool_decide_eq_true_2 (key ∈ key :: c_deleted s)) by left. apply Hk; try done; [|left].
  intros x Hx. by right.
Qed.

Lemma may_delete_more s s' job key :
  c_acked s' = c_acked s → c_now s' = c_now s → c_noRunner s' = c_noRunner s → c_noPods s' = c_noPods s →
  may_delete s job key → may_delete s' job key.
Proof. unfold may_delete, quiesced, acked. by intros -> -> -> ->. Qed.

Lemma ok_removeArtifact {A} r job (k : option str → prog captureE A) s :
  c_job s = Some job →
  (∀ key, key = object_key job ∨ key = manifest_key job → may_delete s job key) →
  (∀ s', c_job s' = Some job → c_acked s' = c_acked s → both_absent s' job → ok (k None) s') →
  (∀ e s', c_job s' = Some job → ok (k (Some e)) s') →
  ok (prog_bind (removeArtifact r job) k) s.
Proof.
  intros Hj Hm Hk Herr. unfold removeArtifact. destruct (rt_HasStore r); [|by apply Herr]. cbn [negb].
  apply ok_bind_assoc. apply (ok_remove_key job); [done|by apply Hm; left| |intros e s' E _; apply Herr; congruence].
  intros s1 Ej En Ea Er Ep Hsub Hin.
  apply (ok_remove_key job); [congruence| | |intros e s' E _; apply Herr; congruence].
  { eapply may_delete_more; [exact Ea|exact En|exact Er|exact Ep|]. by apply Hm; right. }
  intros s2 Ej2 _ Ea2 _ _ Hsub2 Hin2. apply Hk; [congruence..|]. split; [by apply Hsub2|done].
Qed.

Lemma ok_removal_failed r job deadline now cause s : c_job s = Some job → ok (removal_failed r job deadline now cause) s.
Proof.
  intros Hj. unfold removal_failed. apply ok_bind_assoc, ok_condition. intros j Hr.
  apply recond_facts in Hr as (Em & Es & Ep & _).
  apply (ok_update job); [done|by apply may_write_same| |done]. by apply ok_auditExpiry.
Qed.

Lemma ok_record_expiry r job s :
  c_job s = Some job → phase job = CapturePhaseCompleted → both_absent s job → ok (record_expiry r job) s.
Proof.
  intros Hj Hp Habs. unfold record_expiry. apply ok_auditExpiry; [|done]. intros s1 Ej Ed Ea _ Hack _.
  apply ok_condition. intros j1 H1. apply ok_condition. intros j2 H2.
  pose proof (recond_facts _ _ (recond_trans _ _ _ H1 H2)) as (Em & Es & Eph & _).
  apply (ok_update job); [congruence| |done|done]. split_and!; [done..|]. right. rewrite Eph, Hp.
  split_and!; [done|exact Hack|]. unfold supported. change (cst_Phase (cj_Status j2)) with (phase j2).
  rewrite Eph. unfold both_absent. by rewrite Ea.
Qed.

Lemma already_refused_spec job : already_refused job = true → refused job.
Proof.
  unfold already_refused, refused. destruct (Status.Get _ _) as [c|]; [|done].
  intros [[H1 H2]%andb_true_iff H3%Z.eqb_eq]%andb_true_iff. apply bool_decide_eq_true in H1, H2. by exists c.
Qed.

(** What is refused stays so through the condition the refusal wrote. *)
Lemma ok_denyDownload {A} job deadline (k : result str CaptureJob → prog captureE A) s :
  c_job s = Some job →
  (∀ job' s', c_job s' = Some job' → c_now s' = c_now s → recond job job' → refused job' → ok (k (Ok job')) s') →
  (∀ e s', ok (k (Err e)) s') →
  ok (prog_bind (denyDownload job deadline) k) s.
Proof.
  intros Hj Hk Herr. unfold denyDownload. destruct (already_refused job) eqn:Hr.
  { apply Hk; [done|done|apply recond_refl|by apply already_refused_spec]. }
  apply ok_bind_assoc. unfold CaptureController.set_job_condition, CaptureController.set_condition.
  apply ok_bind_assoc, ok_bind_assoc, ok_call; [done|]. intros t _. cbn beta iota.
  apply ok_bind_assoc. set (c := Status.New _ _ _ _ _ _ _).
  set (job' := with_status job (with_conditions (cj_Status job) (Status.Set_ (cst_Conditions (cj_Status job)) c))).
  assert (recond job job') as Hrec by by eexists.
  apply (ok_update job); [done|by apply may_write_same| |intros; apply Herr].
  apply Hk; [done|done|done|].
  destruct (Status.Get_Set_same (cst_Conditions (cj_Status job)) c) as (t' & Hget & _). by eexists.
Qed.

Lemma ok_expire r job deadline now s :
  c_job s = Some job → phase job = CapturePhaseCompleted → c_now s = Some now →
  cst_RetentionDeadline (cj_Status job) = Some deadline → t_before now deadline = false →
  ok (expire r job deadline now) s.
Proof.
  intros Hj Hp Hn Hd Hlate. unfold expire. apply ok_denyDownload; [done| |done].
  intros job1 s1 Hj1 Hn1 Hrec Href. pose proof (recond_facts _ _ Hrec) as (Em & Es & Ep & _).
  apply ok_auditExpiry; [|done]. intros s2 Ej2 _ _ En2 Hack _.
  apply ok_removeArtifact; [congruence| | |intros e s3 Hj3; by apply ok_removal_failed].
  - intros key Hkey. split; [done|]. right. right. split; [congruence|]. split; [done|]. split; [|done].
    exists now. split; [congruence|]. destruct Hrec as [conds ->].
    unfold DecideDownload, deadline_passed. cbn [cj_Status with_status with_conditions cst_RetentionDeadline].
    rewrite Hd. by rewrite Hlate.
  - intros s3 Hj3 _ Habs. apply ok_record_expiry; [done|congruence|done].
Qed.

Lemma ok_enforce r job s : c_job s = Some job → phase job = CapturePhaseCompleted → ok (enforce r job) s.
Proof.
  intros Hj Hp. unfold enforce, observedDeadline. destruct (cst_CompletedAt _) as [t|]; [|done].
  destruct (RetentionDeadline _ _) as [want|e]; [|done]. cbv zeta. case_bool_decide as Hd.
  - apply ok_call; [done|]. intros now _. destruct (t_before _ _) eqn:Hb; [done|]. by apply ok_expire.
  - apply ok_bind_assoc. apply (ok_update job); [done|by apply may_write_same| |done].
    apply ok_call; [done|]. intros now _. destruct (t_before _ _) eqn:Hb; [done|]. by apply ok_expire.
Qed.

(** C4: Retention keeps the same custody.  Whatever the cluster, the bucket, the
    ledger and the clock answer, and wherever a pass is cut off: an object of
    a completed capture is deleted only after the status refuses its download,
    the deadline has passed on the clock last read - so that the gateway
    refuses it from then on - and the intent is acknowledged; the capture
    becomes Expired only when both keys were confirmed absent after their
    deletion and the outcome is acknowledged; a capture still in progress is
    never touched. *)
Theorem retention_refines_custody r namespace name l :
  partial honest (Reconcile r namespace name) l → accepts (may decode) track start l.
Proof.
  apply conforms_accepts with (Q := λ _ _, True).
  change (ok (Reconcile r namespace name) start).
  apply ok_call; [done|]. intros [job|e] _; [|by destruct e].
  destruct (cst_Phase (cj_Status job)) eqn:Hp; try done.
  - by apply ok_enforce.
  - unfold sweepOrphans. apply ok_removeArtifact; [done| |done|done].
    intros key Hkey. by apply failed_may_delete.
Qed.

End conforms.
End retention.

(** ** Witness

    The capture of the example, completed by the capture controller and looked
    at again two days later. *)

Definition later (c : Cluster.cluster) (t : time) : Cluster.cluster :=
  Cluster.mkCluster (Cluster.cl_job c) (Cluster.cl_runner c) (Cluster.cl_pods c) (Cluster.cl_tap c)
    (Cluster.cl_bucket c) (Cluster.cl_ledger c) t.

Definition example_overdue : Cluster.cluster :=
  later (run Cluster.answer CaptureConforms.example_pass Cluster.example_cluster).2 (48 * hour).

Definition example_sweep : prog captureE CaptureController.Result :=
  Reconcile (λ _, "") (mkReconciler "prod" true true) "prod" "job".

Lemma retention_refines_custody_witness :
  Cluster.summary (run Cluster.answer example_sweep example_overdue).2 = (Some CapturePhaseExpired, 3%nat, 0%nat) ∧
  accepts (Custody.may Cluster.example_decode) Custody.track Custody.start (trace Cluster.answer example_sweep example_overdue).
Proof.
  split; [vm_compute; reflexivity|].
  apply (retention_refines_custody (λ _, "") Cluster.example_decode (mkReconciler "prod" true true) "prod" "job"
    (trace Cluster.answer example_sweep example_overdue)).
  apply Cluster.answer_partial.
Defined.

End Retention.
