(* ===== verification/Gateway.v ===== *)
(** * The artifact gateway, internal/gateway/handler.go and ratelimit.go

    One route matters: a download is authenticated, authorized, checked
    against the capture and the object store, recorded in the ledger, and only
    then answered with a presigned URL.  The handler is a program over its
    collaborators; the path and header parsing and the per-caller limiter are
    its own.  The token bucket is golang.org/x/time/rate's and is a parameter:
    a bucket, and what one request at an instant does to it.  A request is routed by
    its path.  Metrics, the error log and the text of a probe's answer are not
    modelled. *)

From S2P Require Import Prelude GoTime GoString Paths Utf8 Regexp Names Sha256.
From S2P Require Import Sanitize Api CaptureState Prog Storage AuditModel.

Module Gateway.
Import AuditModel Names.

Definition CodeBadRequest : str := "BadRequest".
Definition CodeUnauthenticated : str := "Unauthenticated".
Definition CodeForbidden : str := "Forbidden".
Definition CodeNotFound : str := "NotFound".
Definition CodeNotDownloadable : str := "NotDownloadable".
Definition CodeExpired : str := "Expired".
Definition CodeRateLimited : str := "RateLimited".
Definition CodeUnavailable : str := "Unavailable".

Definition MaxPresignTTL : duration := 5 * minute.
Definition maxNamespaceLen : Z := 63.
Definition maxNameLen : Z := 253.
Definition unavailableRequestID : str := "unavailable".

(** ** authz.go *)

Record Identity := mkIdentity { id_Username : str; id_UID : str; id_Groups : list str }.
Record Attributes := mkAttributes {
  at_Namespace : str; at_Group : str; at_Resource : str;
  at_Subresource : str; at_Name : str; at_Verb : str;
}.
Record AuthzDecision := mkAuthzDecision { ad_Allowed : bool; ad_Reason : str }.

(** ** Parsing *)

Definition namespaceRE : regexp := anchored label_rune.
Definition nameRE : regexp := anchored name_rune.

Definition validNamespace (s : str) : bool :=
  (0 <? slen s) && (slen s <=? maxNamespaceLen) && match_string namespaceRE s.
Definition validName (s : str) : bool :=
  (0 <? slen s) && (slen s <=? maxNameLen) && match_string nameRE s.

(** [strings.Cut(s, " ")] *)
Fixpoint cut_space (s : str) : option (str * str) :=
  match s with
  | EmptyString => None
  | String c s' =>
      if byte_of c =? 32 then Some ("", s')
      else (λ p, (String c p.1, p.2)) <$> cut_space s'
  end.

(** The Authorization header to the token.  No letter of the scheme has a
    folding outside ASCII. *)
Definition bearerToken (header : str) : option str :=
  if bool_decide (header = "") then None else
  match cut_space header with
  | None => None
  | Some (scheme, token) =>
      if negb (bool_decide (str_lower scheme = "bearer")) then None else
      let token := trim_space token in
      if bool_decide (token = "") then None else Some token
  end.

(** ** ratelimit.go *)

Definition maxTrackedCallers : Z := 4096.
Definition callerIdleTimeout : duration := 10 * minute.

Section limits.
Context {bucket : Type} (newBucket : bucket) (allowN : bucket → time → bool * bucket).

Record callerLimit := mkCaller { cl_limiter : bucket; cl_lastSeen : time }.
Abbreviation callers := (gmap string callerLimit) (only parsing).

Definition caller_key (id : Identity) : str :=
  if bool_decide (id_UID id = "") then id_Username id else id_UID id.

Definition evictStale (m : callers) (now : time) : callers :=
  let m := filter (λ kv, t_sub now (cl_lastSeen kv.2) ≤ callerIdleTimeout) m in
  if maxTrackedCallers <=? Z.of_nat (size m) then ∅ else m.

Definition allow (m : callers) (id : Identity) (now : time) : bool * callers :=
  let key := caller_key id in
  let '(m, b) :=
    match m !! key with
    | Some entry => (m, cl_limiter entry)
    | None =>
        (if maxTrackedCallers <=? Z.of_nat (size m) then evictStale m now else m, newBucket)
    end in
  let '(ok, b) := allowN b now in
  (ok, <[key := mkCaller b now]> m).

(** What a handler keeps between requests. *)
Record Limits := mkLimits { lm_attempts : bucket; lm_callers : callers }.

(** ** The handler *)

Inductive authn_error := ErrUnauthenticated | AuthnOther (text : str).
Inductive job_error := ErrJobNotFound | JobOther (text : str).
Inductive presign_error := ErrPresignExpired | PresignOther (text : str).

Inductive gatewayE : Type → Type :=
  | RandomID : gatewayE (result str str)
  | Now : gatewayE time
  | Authenticate (token : str) : gatewayE (result authn_error Identity)
  | Authorize (id : Identity) (attrs : Attributes) : gatewayE (result str AuthzDecision)
  | GetCaptureJob (namespace name : str) : gatewayE (result job_error CaptureJob)
  | HeadArtifact (key : str) : gatewayE (result Storage.store_error Storage.ObjectInfo)
  | CommitRecord (rec : Record_) : gatewayE (result str unit)
  | PresignGet (key : str) (ttl : duration) : gatewayE (result presign_error str).

Record Response := mkResponse {
  rs_Status : Z;
  rs_RequestID : str;
  (** code and message of the error body *)
  rs_Error : option (str * str);
  rs_RetryAfter : option str;
  rs_Location : option str;
  rs_SHA256 : option str;
  rs_CacheControl : str;
}.

Definition writeError (requestID : str) (status : Z) (code message : str) (retry : option str) : Response :=
  mkResponse status requestID (Some (code, Sanitize.String_ message)) retry None None "no-store".

Definition deny (requestID : str) (status : Z) (code message : str) : Response :=
  writeError requestID status code message None.

Definition unavailable (requestID : str) : Response :=
  writeError requestID 503 CodeUnavailable "a dependency is unavailable; retry shortly" (Some "5").

Definition redirect (requestID url sha256 : str) : Response :=
  mkResponse 303 requestID None None (Some url) (Some sha256) "no-store".

Definition actorOf (id : Identity) : Actor := mkActor (id_Username id) (id_UID id) (id_Groups id).
Definition resourceOf (namespace name uid : str) : Resource :=
  mkResource "trawl.cloud" "CaptureJob" namespace name uid.

Definition download_attributes (namespace name : str) : Attributes :=
  mkAttributes namespace "trawl.cloud" "capturejobs" "download" name "get".

(** The record [auditGrant] commits at [now]. *)
Definition grant_record (requestID : str) (id : Identity) (job : CaptureJob) (now : time) : Record_ :=
  mkRecord SchemaVersion now ActionArtifactDownload DecisionAllowed "authorized by subject access review" ""
    (actorOf id) (resourceOf (m_Namespace (cj_Meta job)) (m_Name (cj_Meta job)) (m_UID (cj_Meta job)))
    requestID (StableKeyForAutomatic ActionArtifactDownload (m_UID (cj_Meta job)) requestID) "" "" 0.

Definition denial_record (requestID : str) (id : Identity) (namespace name reason : str) (now : time) : Record_ :=
  mkRecord SchemaVersion now ActionArtifactDownload DecisionDenied reason "" (actorOf id)
    (resourceOf namespace name "") requestID
    (StableKeyForAutomatic ActionArtifactDownload (namespace +:+ "/" +:+ name) requestID) "" "" 0.

Definition auditGrant (requestID : str) (id : Identity) (job : CaptureJob) : prog gatewayE bool :=
  let! now := call Now in
  let! res := call (CommitRecord (grant_record requestID id job now)) in
  Ret (is_ok res).

(** A request that dereferences a nil pointer is answered by nobody. *)
Definition reply := option Response.

(** From the decision that the capture may be downloaded. *)
Definition serve (requestID : str) (id : Identity) (job : CaptureJob) : prog gatewayE reply :=
  match cst_Artifact (cj_Status job) with
  | None => Ret None
  | Some artifact =>
      let key := ar_Key artifact in
      let! head := call (HeadArtifact key) in
      match head with
      | Err Storage.ErrNotFound =>
          Ret (Some (deny requestID 404 CodeNotFound "the capture's artifact is no longer stored"))
      | Err _ => Ret (Some (unavailable requestID))
      | Ok _ =>
          let! granted := auditGrant requestID id job in
          if negb granted then Ret (Some (unavailable requestID)) else
          match cst_RetentionDeadline (cj_Status job) with
          | None => Ret None
          | Some deadline =>
              let! now := call Now in
              let ttl := Z.min MaxPresignTTL (t_sub deadline now) in
              if ttl <=? 0 then
                Ret (Some (deny requestID 410 CodeExpired "the capture's retention deadline has passed"))
              else
                let! signed := call (PresignGet key ttl) in
                Ret (Some match signed with
                          | Err ErrPresignExpired =>
                              deny requestID 410 CodeExpired "the capture's retention deadline has passed"
                          | Err _ => unavailable requestID
                          | Ok url => redirect requestID url (cst_SHA256 (cj_Status job))
                          end)
          end
      end
  end.

(** From an authorized caller on. *)
Definition fetch (requestID : str) (id : Identity) (namespace name : str) : prog gatewayE reply :=
  let! job := call (GetCaptureJob namespace name) in
  match job with
  | Err ErrJobNotFound => Ret (Some (deny requestID 404 CodeNotFound "no such capture"))
  | Err _ => Ret (Some (unavailable requestID))
  | Ok job =>
      let! now := call Now in
      match CaptureState.DecideDownload job now with
      | CaptureState.DownloadExpired =>
          Ret (Some (deny requestID 410 CodeExpired "the capture's retention deadline has passed"))
      | CaptureState.DownloadNotReady =>
          Ret (Some (deny requestID 409 CodeNotDownloadable "the capture has no verified artifact to download"))
      | CaptureState.DownloadAllowed => serve requestID id job
      end
  end.

(** From an authenticated caller on. *)
Definition authorize (requestID : str) (id : Identity) (namespace name : str) : prog gatewayE reply :=
  let! decision := call (Authorize id (download_attributes namespace name)) in
  match decision with
  | Err _ => Ret (Some (unavailable requestID))
  | Ok decision =>
      if negb (ad_Allowed decision) then
        let! now := call Now in
        let! _ := call (CommitRecord (denial_record requestID id namespace name (ad_Reason decision) now)) in
        Ret (Some (deny requestID 403 CodeForbidden "the caller may not download this capture"))
      else fetch requestID id namespace name
  end.

Definition download (lim : Limits) (namespace name header : str) : prog gatewayE (reply * Limits) :=
  let! rid := call RandomID in
  match rid with
  | Err _ => Ret (Some (writeError unavailableRequestID 503 CodeUnavailable
               "a dependency is unavailable; retry shortly" None), lim)
  | Ok requestID =>
      if negb (validNamespace namespace) || negb (validName name) then
        Ret (Some (deny requestID 400 CodeBadRequest
               "namespace or name is not a valid Kubernetes identifier"), lim)
      else
      match bearerToken header with
      | None => Ret (Some (deny requestID 401 CodeUnauthenticated "a bearer token is required"), lim)
      | Some token =>
          let! now := call Now in
          let '(ok, attempts) := allowN (lm_attempts lim) now in
          let lim := mkLimits attempts (lm_callers lim) in
          if negb ok then
            Ret (Some (writeError requestID 429 CodeRateLimited
                   "too many authentication attempts; retry shortly" (Some "1")), lim)
          else
          let! identity := call (Authenticate token) in
          match identity with
          | Err ErrUnauthenticated =>
              Ret (Some (deny requestID 401 CodeUnauthenticated "the bearer token was not accepted"), lim)
          | Err _ => Ret (Some (unavailable requestID), lim)
          | Ok id =>
              let! now := call Now in
              let '(ok, m) := allow (lm_callers lim) id now in
              let lim := mkLimits (lm_attempts lim) m in
              if negb ok then
                Ret (Some (writeError requestID 429 CodeRateLimited
                       "too many download requests; retry shortly" (Some "1")), lim)
              else let! r := authorize requestID id namespace name in Ret (r, lim)
          end
      end
  end.

(** ** What a request leaves behind *)

Definition event := event gatewayE.

(** One symbolic step; the log is kept as one list. *)
Ltac gw_call :=
  apply wp_logged; let x := fresh "answer" in intros x; try rewrite <-app_assoc; cbn [app].

(** The URL is good for a positive time, at most the ceiling, and runs out at
    the deadline at the latest. *)
Definition lifetime_ok (ttl : duration) (now deadline : time) : Prop :=
  0 < ttl ≤ MaxPresignTTL ∧ now + ttl ≤ deadline.

Lemma ttl_lifetime now deadline :
  0 < Z.min MaxPresignTTL (t_sub deadline now) →
  lifetime_ok (Z.min MaxPresignTTL (t_sub deadline now)) now deadline.
Proof.
  unfold lifetime_ok, t_sub, max_int64, min_int64. lia.
Qed.

(** The calls of [serve] that end in a redirect. *)
Definition served (requestID : str) (id : Identity) (job : CaptureJob) (resp : Response) (l : list event) : Prop :=
  ∃ artifact deadline info t now ttl url,
    cst_Artifact (cj_Status job) = Some artifact ∧ cst_RetentionDeadline (cj_Status job) = Some deadline ∧
    lifetime_ok ttl now deadline ∧
    resp = redirect requestID url (cst_SHA256 (cj_Status job)) ∧
    l = [Ev (HeadArtifact (ar_Key artifact)) (Ok info);
         Ev Now t; Ev (CommitRecord (grant_record requestID id job t)) (Ok tt);
         Ev Now now; Ev (PresignGet (ar_Key artifact) ttl) (Ok url)].

(** A refusal of the contract, with everything but a URL. *)
Definition refusal (requestID : str) (resp : Response) : Prop :=
  rs_Location resp = None ∧ rs_SHA256 resp = None ∧ rs_CacheControl resp = "no-store" ∧
  rs_RequestID resp = requestID ∧
  ∃ message, (rs_Status resp, rs_Error resp) ∈
    (λ p, (p.1, Some (p.2, Sanitize.String_ message))) <$>
    [(400, CodeBadRequest); (401, CodeUnauthenticated); (403, CodeForbidden); (404, CodeNotFound);
     (409, CodeNotDownloadable); (410, CodeExpired); (429, CodeRateLimited); (503, CodeUnavailable)].

Lemma refusal_intro requestID status code message retry :
  (status, code) ∈ [(400, CodeBadRequest); (401, CodeUnauthenticated); (403, CodeForbidden); (404, CodeNotFound);
     (409, CodeNotDownloadable); (410, CodeExpired); (429, CodeRateLimited); (503, CodeUnavailable)] →
  refusal requestID (writeError requestID status code message retry).
Proof.
  intros Hin. split_and!; [done..|]. exists message. apply list_elem_of_fmap. by exists (status, code).
Qed.

Ltac refuse := apply refusal_intro; apply (bool_decide_unpack _); vm_compute; exact I.

Lemma serve_wp requestID id job log :
  cst_Artifact (cj_Status job) ≠ None → cst_RetentionDeadline (cj_Status job) ≠ None →
  wp (@logged gatewayE) (serve requestID id job)
    (λ r log', ∃ resp l, r = Some resp ∧ log' = log ++ l ∧
      (refusal requestID resp ∨ served requestID id job resp l)) log.
Proof.
  intros Ha Hd. unfold serve, auditGrant. destruct (cst_Artifact _) as [artifact|] eqn:Ea; [|done].
  assert (∀ resp l, refusal requestID resp → ∃ resp' l', Some resp = Some resp' ∧ log ++ l = log ++ l' ∧
    (refusal requestID resp' ∨ served requestID id job resp' l')) as Href by (intros resp l ?; exists resp, l; auto).
  gw_call. destruct answer as [info|[| |msg]]; try (apply Href; refuse).
  gw_call. gw_call. cbn [prog_bind]. destruct (is_ok answer0) eqn:Eok; [|apply Href; refuse].
  destruct answer0 as [[]|]; [|done]. cbn [negb].
  destruct (cst_RetentionDeadline _) as [deadline|] eqn:Ed; [|done].
  gw_call. cbv zeta. destruct (Z.leb_spec (Z.min MaxPresignTTL (t_sub deadline answer0)) 0); [apply Href; refuse|].
  gw_call. destruct answer1 as [url|[|msg]]; try (apply Href; refuse).
  eexists _, _. split; [done|]. split; [done|]. right.
  exists artifact, deadline, info, answer, answer0, (Z.min MaxPresignTTL (t_sub deadline answer0)), url.
  split_and!; [done|done| |done|done]. by apply ttl_lifetime.
Qed.

(** The calls from authentication on that end in a redirect. *)
Definition granted (requestID namespace name token : str) (resp : Response) (l : list event) : Prop :=
  ∃ id t1 reason job t2 l',
    l = [Ev (Authenticate token) (Ok id); Ev Now t1;
         Ev (Authorize id (download_attributes namespace name)) (Ok (mkAuthzDecision true reason));
         Ev (GetCaptureJob namespace name) (Ok job); Ev Now t2] ++ l' ∧
    CaptureState.DecideDownload job t2 = CaptureState.DownloadAllowed ∧ served requestID id job resp l'.

Lemma allowed_fields job now :
  CaptureState.DecideDownload job now = CaptureState.DownloadAllowed →
  cst_Artifact (cj_Status job) ≠ None ∧ cst_RetentionDeadline (cj_Status job) ≠ None.
Proof.
  intros (_ & _ & Ha & _ & (d & Hd & _) & _)%CaptureState.DecideDownload_allowed.
  split; [done|by rewrite Hd].
Qed.

(** Calls that tell whether a capture exists, or hand out its bytes. *)
Definition reveals (ev : event) : Prop :=
  match ev with
  | Ev e _ =>
      match e with
      | GetCaptureJob _ _ | HeadArtifact _ | PresignGet _ _ => True
      | _ => False
      end
  end.

Definition authorized (namespace name : str) (l : list event) : Prop :=
  ∃ id reason, Ev (Authorize id (download_attributes namespace name)) (Ok (mkAuthzDecision true reason)) ∈ l.

(** [authorize] and what it leaves; [pre] are the calls made so far. *)
Lemma authorize_wp requestID id namespace name log :
  wp (@logged gatewayE) (authorize requestID id namespace name)
    (λ r log', ∃ resp l, r = Some resp ∧ log' = log ++ l ∧
      ((refusal requestID resp ∧ (Exists reveals l → authorized namespace name l)) ∨
       ∃ reason job t2 l', l = [Ev (Authorize id (download_attributes namespace name)) (Ok (mkAuthzDecision true reason));
           Ev (GetCaptureJob namespace name) (Ok job); Ev Now t2] ++ l' ∧
         CaptureState.DecideDownload job t2 = CaptureState.DownloadAllowed ∧ served requestID id job resp l')) log.
Proof.
  unfold authorize, fetch.
  assert (∀ resp l, refusal requestID resp → ¬ Exists reveals l ∨ authorized namespace name l →
    ∃ resp' l', Some resp = Some resp' ∧ log ++ l = log ++ l' ∧
    ((refusal requestID resp' ∧ (Exists reveals l' → authorized namespace name l')) ∨
     ∃ reason job t2 l2, l' = [Ev (Authorize id (download_attributes namespace name)) (Ok (mkAuthzDecision true reason));
           Ev (GetCaptureJob namespace name) (Ok job); Ev Now t2] ++ l2 ∧
         CaptureState.DecideDownload job t2 = CaptureState.DownloadAllowed ∧ served requestID id job resp' l2)) as Href
    by (intros resp l ? Hor; exists resp, l; split_and!; [done..|left; split; [done|tauto]]).
  assert (∀ l, Forall (λ ev, ¬ reveals ev) l → ¬ Exists reveals l) as Hno.
  { intros l Hl Hex. rewrite Forall_forall in Hl. apply Exists_exists in Hex as (ev & Hin & Hev). by apply (Hl ev Hin). }
  gw_call. destruct answer as [[allowed reason]|err].
  2: { apply Href; [refuse|]. left. apply Hno. repeat constructor. tauto. }
  destruct allowed; cbn [ad_Allowed negb].
  2: { gw_call. gw_call. apply Href; [refuse|]. left. apply Hno. repeat constructor; tauto. }
  assert (∀ l, authorized namespace name
    (Ev (Authorize id (download_attributes namespace name)) (Ok (mkAuthzDecision true reason)) :: l)) as Hauth
    by (intros l; exists id, reason; left).
  gw_call. destruct answer as [job|[|text]]; try (apply Href; [refuse|right; apply Hauth]).
  gw_call. destruct (CaptureState.DecideDownload job answer) eqn:Edec;
    try (apply Href; [refuse|right; apply Hauth]).
  destruct (allowed_fields _ _ Edec) as [Ha Hd].
  eapply wp_mono; [|by apply serve_wp]. intros r log' (resp & l & -> & -> & [Hr|Hs]); rewrite <-app_assoc.
  - apply Href; [done|]. right. apply Hauth.
  - eexists resp, _. split; [done|]. split; [done|]. right. by exists reason, job, answer, l.
Qed.

Lemma download_wp lim namespace name header :
  wp (@logged gatewayE) (download lim namespace name header)
    (λ '(r, _) log, ∃ requestID resp, r = Some resp ∧
      (refusal requestID resp ∨
       ∃ token t0 l, validNamespace namespace = true ∧ validName name = true ∧
         bearerToken header = Some token ∧
         log = [Ev RandomID (Ok requestID); Ev Now t0] ++ l ∧
         granted requestID namespace name token resp l)) [].
Proof.
  unfold download. gw_call. destruct answer as [requestID|err].
  2: { exists unavailableRequestID. eexists. split; [done|]. left. refuse. }
  destruct (negb _ || negb _) eqn:Ev; [exists requestID; eexists; split; [done|]; left; refuse|].
  apply orb_false_iff in Ev as [Hns%negb_false_iff Hn%negb_false_iff].
  destruct (bearerToken header) as [token|]; [|exists requestID; eexists; split; [done|]; left; refuse].
  gw_call. destruct (allowN _ _) as [ok attempts]. destruct ok; cbn [negb];
    [|exists requestID; eexists; split; [done|]; left; refuse].
  gw_call. destruct answer0 as [id|[|text]]; try (exists requestID; eexists; split; [done|]; left; refuse).
  gw_call. cbn [lm_callers lm_attempts]. destruct (allow _ _ _) as [ok m]. destruct ok; cbn [negb];
    [|exists requestID; eexists; split; [done|]; left; refuse].
  apply wp_bind. eapply wp_mono; [|apply authorize_wp].
  intros r log' (resp & l & -> & -> & [[Hr _]|(reason & job & t2 & l' & -> & Hdec & Hs)]);
    exists requestID, resp; (split; [done|]); [by left|right].
  eexists token, answer, _. split_and!; [done..|].
  by exists id, answer0, reason, job, t2, l'.
Qed.


(** ** Theorems *)

(** Everything a redirect presupposes, in order.  Whatever the collaborators
    answer, a request ends either in a refusal of the contract - a fixed code,
    no URL, no checksum, no-store - or in a redirect, and then the calls were
    exactly these: a fresh request identifier, the two rate limits passed, the
    token of the Authorization header accepted, the caller authorized for the
    download of this capture, the capture read and found downloadable at that
    instant, its object found in the store, the grant acknowledged by the
    ledger, and a URL signed for that object whose life is positive, at most
    five minutes, and ends no later than the retention deadline.  A request
    never dereferences a nil artifact or deadline. *)
Theorem download_order lim namespace name header :
  wp (@logged gatewayE) (download lim namespace name header)
    (λ '(r, _) log, ∃ requestID resp, r = Some resp ∧
      (refusal requestID resp ∨
       ∃ token t0 l, validNamespace namespace = true ∧ validName name = true ∧
         bearerToken header = Some token ∧
         log = [Ev RandomID (Ok requestID); Ev Now t0] ++ l ∧
         granted requestID namespace name token resp l)) [].
Proof. apply download_wp. Qed.
(** A caller who may not download learns nothing.  The capture is read, its
    object looked up or a URL asked for only after the API server allowed this
    caller this download; in every other request - no token, a token refused,
    a limit reached, an authorization denied or unavailable - none of those
    calls is made, so the answer cannot depend on whether the name exists. *)
Theorem download_no_oracle lim namespace name header :
  wp (@logged gatewayE) (download lim namespace name header)
    (λ _ log, Exists reveals log → authorized namespace name log) [].
Proof.
  assert (∀ l, Forall (λ ev, ¬ reveals ev) l → Exists reveals l → authorized namespace name l) as Hno.
  { intros l Hl Hex. rewrite Forall_forall in Hl. apply Exists_exists in Hex as (ev & Hin & Hev). by destruct (Hl ev Hin). }
  unfold download. gw_call. destruct answer as [requestID|err]; [|refine (Hno _ _); repeat constructor; tauto].
  destruct (negb _ || negb _); [refine (Hno _ _); repeat constructor; tauto|].
  destruct (bearerToken header) as [token|]; [|refine (Hno _ _); repeat constructor; tauto].
  gw_call. destruct (allowN _ _) as [ok attempts]. destruct ok; cbn [negb]; [|refine (Hno _ _); repeat constructor; tauto].
  gw_call. destruct answer0 as [id|[|text]]; try (refine (Hno _ _); repeat constructor; tauto).
  gw_call. cbn [lm_callers lm_attempts]. destruct (allow _ _ _) as [ok m]. destruct ok; cbn [negb];
    [|refine (Hno _ _); repeat constructor; tauto].
  apply wp_bind. eapply wp_mono; [|apply authorize_wp].
  assert (∀ pre l, authorized namespace name l → authorized namespace name (pre ++ l)) as Happ
    by (intros pre l (i & re & ?); exists i, re; apply elem_of_app; by right).
  intros r log' (resp & l & -> & -> & [[_ Hr]|(reason & job & t2 & l' & -> & _)]) Hex; apply Happ.
  - apply Hr. apply Exists_app in Hex as [Hex|Hex]; [|done].
    rewrite !Exists_cons, Exists_nil in Hex. simpl in Hex. tauto.
  - exists id, reason. left.
Qed.

(** *** The limiter *)

(** Requests of any callers, one after another. *)
Fixpoint allow_all (m : callers) (reqs : list (Identity * time)) : list (str * bool) * callers :=
  match reqs with
  | [] => ([], m)
  | (id, now) :: rest =>
      let '(ok, m) := allow m id now in
      let '(oks, m) := allow_all m rest in
      ((caller_key id, ok) :: oks, m)
  end.

(** One bucket's answers to requests at these times. *)
Fixpoint bucket_all (b : bucket) (times : list time) : list bool :=
  match times with
  | [] => []
  | t :: rest => let '(ok, b) := allowN b t in ok :: bucket_all b rest
  end.

Definition times_of (k : str) (reqs : list (Identity * time)) : list time :=
  omap (λ r, if bool_decide (caller_key r.1 = k) then Some r.2 else None) reqs.
Definition verdicts_of (k : str) (oks : list (str * bool)) : list bool :=
  omap (λ r, if bool_decide (r.1 = k) then Some r.2 else None) oks.

Definition keys_in (reqs : list (Identity * time)) : gset string :=
  list_to_set ((λ r, caller_key r.1) <$> reqs).

Lemma evictStale_size m now : Z.of_nat (size (evictStale m now)) < maxTrackedCallers.
Proof.
  unfold evictStale. destruct (Z.leb_spec maxTrackedCallers (Z.of_nat (size (filter
    (λ kv : string * callerLimit, t_sub now (cl_lastSeen kv.2) ≤ callerIdleTimeout) m)))); [|done].
  rewrite map_size_empty. done.
Qed.

Lemma allow_size m id now :
  Z.of_nat (size m) ≤ maxTrackedCallers → Z.of_nat (size (allow m id now).2) ≤ maxTrackedCallers.
Proof.
  unfold allow. intros Hm. destruct (m !! caller_key id) as [entry|] eqn:Ek.
  - destruct (allowN _ _) as [ok b]. cbn [snd]. rewrite map_size_insert_Some by done. done.
  - set (m' := if _ <=? _ then _ else _).
    assert (Z.of_nat (size m') < maxTrackedCallers) as Hm'.
    { unfold m'. destruct (Z.leb_spec maxTrackedCallers (Z.of_nat (size m))); [apply evictStale_size|done]. }
    destruct (allowN _ _) as [ok b]. cbn [snd]. rewrite map_size_insert. destruct (m' !! _); simpl; lia.
Qed.

(** With room for every caller nothing is ever evicted. *)
Lemma allow_room m id now (ks : gset string) :
  dom m ⊆ ks → caller_key id ∈ ks → Z.of_nat (size ks) ≤ maxTrackedCallers →
  allow m id now =
    let '(ok, b) := allowN (default newBucket (cl_limiter <$> m !! caller_key id)) now in
    (ok, <[caller_key id := mkCaller b now]> m).
Proof.
  intros Hsub Hin Hks. unfold allow. destruct (m !! caller_key id) as [entry|] eqn:Ek; [done|].
  assert (size m < size ks)%nat as Hlt.
  { rewrite <-size_dom. apply subset_size. split; [done|]. intros Hrev.
    apply Hrev, elem_of_dom in Hin as [x Hx]. by rewrite Hx in Ek. }
  by rewrite (proj2 (Z.leb_gt _ _)) by lia.
Qed.

Lemma allow_all_isolates m reqs (ks : gset string) k :
  dom m ⊆ ks → keys_in reqs ⊆ ks → Z.of_nat (size ks) ≤ maxTrackedCallers →
  verdicts_of k (allow_all m reqs).1 =
  bucket_all (default newBucket (cl_limiter <$> m !! k)) (times_of k reqs).
Proof.
  intros Hm Hr Hks. revert m Hm. induction reqs as [|[id now] reqs IH]; intros m Hm; [done|].
  unfold keys_in in Hr. rewrite fmap_cons, list_to_set_cons in Hr. cbn [fst] in Hr.
  cbn [allow_all]. rewrite (allow_room m id now ks) by set_solver.
  destruct (allowN _ now) as [ok b] eqn:Eb. set (m' := <[_ := _]> m).
  assert (dom m' ⊆ ks) as Hm' by (unfold m'; rewrite dom_insert; set_solver).
  specialize (IH ltac:(set_solver) m' Hm').
  destruct (allow_all m' reqs) as [oks m2] eqn:Em. cbn [fst] in IH |- *.
  unfold verdicts_of, times_of in *. cbn [omap list_omap fst snd].
  destruct (decide (caller_key id = k)) as [<-|Hne].
  - rewrite !bool_decide_eq_true_2 by done. cbn [bucket_all]. rewrite Eb. f_equal. rewrite IH.
    unfold m'. by rewrite lookup_insert_eq.
  - rewrite !bool_decide_eq_false_2 by done. rewrite IH. unfold m'. by rewrite lookup_insert_ne.
Qed.

(** The per-caller limiter limits callers one by one and stays small.  After
    any requests it tracks at most 4096 callers; and as long as no more than
    that many have been seen, every caller - by UID, or by name when there is
    none - is answered exactly as by a bucket of its own, whatever the others
    do and however their requests interleave with it. *)
Theorem limiter_isolates reqs k :
  Z.of_nat (size (allow_all ∅ reqs).2) ≤ maxTrackedCallers ∧
  (Z.of_nat (size (keys_in reqs)) ≤ maxTrackedCallers →
   verdicts_of k (allow_all ∅ reqs).1 = bucket_all newBucket (times_of k reqs)).
Proof.
  split.
  - assert (∀ m, Z.of_nat (size m) ≤ maxTrackedCallers →
      Z.of_nat (size (allow_all m reqs).2) ≤ maxTrackedCallers) as Hall; [|by apply Hall; rewrite map_size_empty].
    induction reqs as [|[id now] reqs IH]; intros m Hm; [done|]. cbn [allow_all].
    pose proof (allow_size m id now Hm) as H1. destruct (allow m id now) as [ok m1]. cbn [snd] in H1.
    specialize (IH m1 H1). by destruct (allow_all m1 reqs).
  - intros Hks. rewrite (allow_all_isolates ∅ reqs (keys_in reqs) k) by (done || set_solver).
    by rewrite lookup_empty.
Qed.

End limits.

(** *** Routing *)

Definition readinessProbeKey : str := ".trawl-readiness-probe".

Definition healthz : Z := 200.

Definition readyz : prog gatewayE Z :=
  let! authenticated := call (Authenticate "readiness-probe") in
  match authenticated with
  | Err (AuthnOther _) => Ret 503
  | _ =>
      let! head := call (HeadArtifact readinessProbeKey) in
      Ret match head with Err Storage.ErrNotFound | Ok _ => 200 | Err _ => 503 end
  end.

Inductive route := ToDownload (namespace name : str) | ToHealthz | ToReadyz | MovedTo (location : str) | NotRouted.

(** The mux: an unclean path is redirected, a segment stands for a parameter
    unless it is empty or a slash. *)
Definition Routes (path : str) : route :=
  if negb (bool_decide (GoUrl.cleanPath path = path)) then MovedTo (GoUrl.escape (GoUrl.cleanPath path)) else
  match GoUrl.segments path with
  | [probe] => if bool_decide (probe = "healthz") then ToHealthz else if bool_decide (probe = "readyz") then ToReadyz else NotRouted
  | [api; v1; namespaces; namespace; capturejobs; name; download] =>
      if bool_decide ([api; v1; namespaces; capturejobs; download] = ["api"; "v1"; "namespaces"; "capturejobs"; "download"]) &&
         negb (bool_decide (namespace ∈ [""; "/"])) && negb (bool_decide (name ∈ [""; "/"]))
      then ToDownload namespace name else NotRouted
  | _ => NotRouted
  end.

(** A namespace or a name that is valid is a segment as it is. *)
Lemma valid_segment s : validNamespace s = true ∨ validName s = true → GoUrl.segment s.
Proof.
  intros Hv.
  assert (∃ inner, (∀ r, inner r = true → name_rune r = true) ∧ name_shape inner s) as (inner & Hin & c & Hc & Hs).
  { assert (∀ r, name_rune r = true → r < 128) as H128.
    { intros r. unfold name_rune, label_rune. rewrite !orb_true_iff. intros [[H|H]|H]; [by apply name_first_ascii|lia..]. }
    assert (∀ r, label_rune r = true → name_rune r = true) as Hlab by (intros r Hr; unfold name_rune; by rewrite Hr).
    destruct Hv as [Hv|Hv]; unfold validNamespace, validName in Hv; apply andb_true_iff in Hv as [_ Hv].
    - exists label_rune. split; [done|]. apply anchored_shape in Hv; [done|auto].
    - exists name_rune. split; [done|]. by apply anchored_shape in Hv. }
  assert (∀ d, name_rune (byte_of d) = true → GoUrl.path_byte d = true) as Hpath by (intros d; by destruct d as [[] [] [] [] [] [] [] []]).
  assert (∀ d, name_first (byte_of d) = true → name_rune (byte_of d) = true) as Hfirst
    by (intros d H; unfold name_rune, label_rune; by rewrite H).
  assert (str_forallb (λ d, name_rune (byte_of d)) s = true) as Hall.
  { destruct Hs as [->|(m & d & -> & Hm & Hd)]; cbn [str_forallb]; rewrite (Hfirst c) by done; [done|].
    cbn [andb]. rewrite str_forallb_app. cbn [str_forallb]. rewrite (Hfirst d) by done.
    rewrite (str_forallb_impl _ (λ x, name_rune (byte_of x)) m) by (exact Hm || intros x; apply Hin). done. }
  assert (has_prefix s "." = false) as Hdot.
  { assert (∀ t, has_prefix (String c t) "." = false) as H by (intros t; by destruct c as [[] [] [] [] [] [] [] []]).
    destruct Hs as [->|(m & d & -> & _)]; apply H. }
  split_and!; [|by intros ->|by eapply str_forallb_impl; [|exact Hall]].
  split_and!; [|by destruct Hs as [->|(m & d & -> & _)]|by intros ->].
  eapply str_forallb_impl; [|exact Hall]. intros d. by destruct d as [[] [] [] [] [] [] [] []].
Qed.

(** *** Names *)

(** What reaches the API server and the store as a name.  A path parameter
    passes exactly when it is a DNS label - at most 63 lower-case letters,
    digits and hyphens, a letter or digit at either end - for a namespace, and
    the same with dots, up to 253, for a name; in particular no slash, space,
    upper-case letter or byte outside ASCII ever gets through. *)
Theorem names_are_labels s :
  (validNamespace s = true ↔ slen s ≤ 63 ∧ name_shape label_rune s) ∧
  (validName s = true ↔ slen s ≤ 253 ∧ name_shape name_rune s).
Proof.
  assert (∀ r, label_rune r = true → r < 128) as Hl.
  { intros r. unfold label_rune. rewrite orb_true_iff. intros [H|H]; [by apply name_first_ascii|lia]. }
  assert (∀ r, name_rune r = true → r < 128) as Hn.
  { intros r. unfold name_rune. rewrite orb_true_iff. intros [H|H]; [by apply Hl|lia]. }
  assert (∀ inner, name_shape inner s → 0 < slen s) as Hpos.
  { intros inner (c & _ & [->|(m & d & -> & _)]); unfold slen; simpl; lia. }
  unfold validNamespace, validName, namespaceRE, nameRE, maxNamespaceLen, maxNameLen.
  split; rewrite !andb_true_iff, anchored_shape, Z.ltb_lt, Z.leb_le by done; naive_solver.
Qed.

(** ** A request, and a witness *)

Definition example_job : CaptureJob :=
  mkCaptureJob (mkMeta "job-1" "trawl" "uid-1" 1 0 None ∅ []) 
    (mkCaptureJobSpec CaptureRequestManual "edge" "node-a" "" "60s" 0 (bytes_quantity 1) "7d" None None "")
    (mkCaptureJobStatus 1 CapturePhaseCompleted "" "" None None None None None None None "abc"
      (Some (mkArtifactReference "" "captures/uid-1.pcapng" "" "" 0)) (Some (2 * minute)) None None
      [mkCondition "ArtifactVerified" ConditionTrue 1 0 "" ""]).

(** Collaborators that answer; the presigner spells out the lifetime. *)
Definition example_services (X : Type) (e : gatewayE X) (u : unit) : X * unit :=
  match e with
  | RandomID => (Ok "00ff", u)
  | Now => (minute, u)
  | Authenticate token => (if bool_decide (token = "good") then Ok (mkIdentity "ana" "" []) else Err ErrUnauthenticated, u)
  | Authorize _ _ => (Ok (mkAuthzDecision true ""), u)
  | GetCaptureJob _ _ => (Ok example_job, u)
  | HeadArtifact key => (Ok (Storage.mkObjectInfo key 1 "" 0 None), u)
  | CommitRecord _ => (Ok tt, u)
  | PresignGet key ttl => (Ok (key +:+ "?ttl=" +:+ itoa (ttl / second)), u)
  end.

(** Buckets that hold a number of requests and never refill. *)
Definition spend (b : nat) (_ : time) : bool * nat := match b with O => (false, O) | S b => (true, b) end.

Example download_redirects :
  (run example_services (download 1%nat spend (mkLimits 1%nat ∅) "trawl" "job-1" "bearer good") tt).1.1 =
  Some (redirect "00ff" "captures/uid-1.pcapng?ttl=60" "abc").
Proof. vm_compute. reflexivity. Qed.

Example download_unauthenticated :
  rs_Status <$> (run example_services (download 1%nat spend (mkLimits 1%nat ∅) "trawl" "job-1" "Bearer bad") tt).1.1 = Some 401.
Proof. vm_compute. reflexivity. Qed.

Lemma limiter_isolates_witness :
  verdicts_of "ana" (allow_all 1%nat spend ∅ [(mkIdentity "ana" "" [], 0); (mkIdentity "bob" "" [], 1);
    (mkIdentity "ana" "" [], 2)]).1 = [true; false].
Proof.
  rewrite (proj2 (limiter_isolates 1%nat spend _ "ana")); [vm_compute; reflexivity|].
  apply Z.leb_le. vm_compute. reflexivity.
Defined.

End Gateway.
