(* ===== verification/Trawlctl.v ===== *)
(** * Downloading a capture, internal/gateway/client.go and cmd/trawlctl

    The client of the gateway's two-hop download and the command around it:
    the token, the checksum, and the temporary file that becomes the output
    only when it is verified.  A URL's scheme and escaped path, certificates
    and the JSON of an error body are arguments; flags are given as the flag
    package parses them.
    The reads of a response body are given at once. *)

From Stdlib Require Import Ascii.
From S2P Require Import Prelude GoTime GoString Utf8 Paths Sha256 Sanitize Api CaptureState Prog Gateway.

Module Trawlctl.
Import Gateway.

(** ** client.go *)

(** A response of the gateway as the client reads it. *)
Record gateway_answer := mkAnswer {
  ga_StatusCode : Z;
  ga_Location : str;
  ga_SHA256 : str;
  ga_RequestID : str;
  ga_Body : str;
}.

Inductive download_error :=
  | APIError (status : Z) (code message requestID : str)
  | ErrChecksumMismatch (text : str)
  | OtherError (text : str).

(** What the file system may answer to the creation of a name. *)
Inductive open_error := OpenExists | OpenFailed (text : str).
Inductive link_error := Exists_ | LinkUnsupported | LinkFailed (text : str).

Inductive ctlE : Type → Type :=
  | CallGateway (path authorization : str) : ctlE (result str gateway_answer)
  | CallStorage (location : str) : ctlE (result str Z)
  | ReadBody : ctlE (list str * option str)
  | Lstat (p : str) : ctlE (result str bool)
  | ReadFile (p : str) : ctlE (result str str)
  | ReadStdin : ctlE (result str str)
  | RunCommand (argv : list str) : ctlE (list str * list str * option str)
  | OpenExcl (p : str) : ctlE (result open_error unit)
  | WriteOut (bytes : str) : ctlE (result str unit)
  | SyncOut : ctlE (result str unit)
  | CloseOut : ctlE (result str unit)
  | Link (p q : str) : ctlE (result link_error unit)
  | Rename (p q : str) : ctlE (result str unit)
  | Remove (p : str) : ctlE unit.

Section client.
Context (decode_error : str → option (str * str * str)) (bad_target : str → str → option str) (bad_location : str → option str)
  (url_path : str → str).

Definition maxErrorBodyBytes : nat := Z.to_nat 8192.

Definition apiErrorFrom (resp : gateway_answer) : download_error :=
  match decode_error (str_take maxErrorBodyBytes (ga_Body resp)) with
  | Some (code, message, requestID) =>
      if bool_decide (code = "") then APIError (ga_StatusCode resp) Gateway.CodeUnavailable
        ("gateway returned status " +:+ itoa (ga_StatusCode resp)) (ga_RequestID resp)
      else APIError (ga_StatusCode resp) code (Sanitize.String_ message)
        (if bool_decide (requestID = "") then ga_RequestID resp else requestID)
  | None => APIError (ga_StatusCode resp) Gateway.CodeUnavailable
      ("gateway returned status " +:+ itoa (ga_StatusCode resp)) (ga_RequestID resp)
  end.

(** [io.Copy] of the reads through the digest: what was hashed, and written. *)
Fixpoint copy (reads : list str) (hashed : str) (written : Z) : prog ctlE (result (str * Z) (str * Z)) :=
  match reads with
  | [] => Ret (Ok (hashed, written))
  | bytes :: reads =>
      let! res := call (WriteOut bytes) in
      match res with
      | Err err => Ret (Err (err, written))
      | Ok _ => copy reads (hashed +:+ bytes) (written + slen bytes)
      end
  end.

Definition verify (got want : str) : option download_error :=
  if bool_decide (want = "") then Some (ErrChecksumMismatch "gateway did not report a checksum: downloaded artifact does not match its recorded checksum")
  else if negb (bool_decide (str_lower got = str_lower want))
  then Some (ErrChecksumMismatch ("downloaded artifact does not match its recorded checksum: got " +:+ got +:+ ", want " +:+ want))
  else None.

Definition download_path (base namespace name : str) : str :=
  GoUrl.JoinPath base ["api"; "v1"; "namespaces"; namespace; "capturejobs"; name; "download"].

Definition Download (baseURL token namespace name : str) : prog ctlE (result (Z * download_error) Z) :=
  match bad_target namespace name with
  | Some err => Ret (Err (0, OtherError (Sanitize.Errorf "building the download request: " err)))
  | None =>
  let! resp := call (CallGateway (download_path (url_path baseURL) namespace name) ("Bearer " +:+ token)) in
  match resp with
  | Err err => Ret (Err (0, OtherError (Sanitize.Errorf "calling the gateway: " err)))
  | Ok resp =>
      if negb (ga_StatusCode resp =? 303) then Ret (Err (0, apiErrorFrom resp)) else
      if bool_decide (ga_Location resp = "") then Ret (Err (0, OtherError "gateway redirected without a location")) else
      match bad_location (ga_Location resp) with
      | Some err => Ret (Err (0, OtherError (Sanitize.Errorf "building the artifact request: " err)))
      | None =>
          let! object := call (CallStorage (ga_Location resp)) in
          match object with
          | Err err => Ret (Err (0, OtherError (Sanitize.Errorf "fetching the artifact: " err)))
          | Ok status =>
              if negb (status =? 200) then Ret (Err (0, OtherError ("artifact storage returned status " +:+ itoa status))) else
              let! (reads, failed) := call ReadBody in
              let! copied := copy reads "" 0 in
              match copied, failed with
              | Err (err, written), _ => Ret (Err (written, OtherError (Sanitize.Errorf "writing the artifact: " err)))
              | Ok (_, written), Some err => Ret (Err (written, OtherError (Sanitize.Errorf "writing the artifact: " err)))
              | Ok (hashed, written), None =>
                  Ret match verify (sha256_hex hashed) (ga_SHA256 resp) with Some err => Err (written, err) | None => Ok written end
              end
          end
      end
  end
  end.

(** ** main.go *)

Definition exitOK : Z := 0.
Definition exitFailure : Z := 1.
Definition exitUsage : Z := 2.
Definition maxTokenBytes : Z := 65536.
Definition maxDiagnosticBytes : Z := 4096.
Definition partSuffix : str := ".part".

Record downloadOptions := mkOptions {
  do_name : str;
  do_namespace : str;
  do_gateway : str;
  do_caFile : str;
  do_output : str;
  do_tokenStdin : bool;
  do_tokenExec : list str;
}.

(** The flags as parsed, with what the flag package left over. *)
Record parsed_flags := mkFlags {
  pf_namespace : str;
  pf_gateway : str;
  pf_ca : str;
  pf_output : str;
  pf_tokenStdin : bool;
  pf_tokenExec : str;
  pf_rest : list str;
}.

Fixpoint missing (required : list (str * str)) : option str :=
  match required with
  | [] => None
  | (flag, value) :: required => if bool_decide (trim_space value = "") then Some (flag +:+ " is required") else missing required
  end.

Definition parseDownload (quote : str → str) (args : list str) (flags : option parsed_flags) : result str downloadOptions :=
  match args with
  | [] => Err "capture download needs the name of a CaptureJob"
  | name :: _ =>
      if has_prefix name "-" then Err "capture download needs the name of a CaptureJob" else
      match flags with
      | None => Err "invalid arguments"
      | Some f =>
          let tokenExec := if bool_decide (pf_tokenExec f = "") then [] else pf_tokenExec f :: pf_rest f in
          match (if bool_decide (pf_tokenExec f = "") then pf_rest f else []) with
          | stray :: _ => Err ("unexpected argument " +:+ quote stray)
          | [] =>
              match missing [("<name>", name); ("--namespace", pf_namespace f); ("--gateway", pf_gateway f); ("--ca", pf_ca f); ("--output", pf_output f)] with
              | Some err => Err err
              | None =>
                  if Bool.eqb (pf_tokenStdin f) (negb (bool_decide (tokenExec = [])))
                  then Err "exactly one of --token-stdin and --token-exec is required"
                  else Ok (mkOptions name (pf_namespace f) (pf_gateway f) (pf_ca f) (pf_output f) (pf_tokenStdin f) tokenExec)
              end
          end
      end
  end.

Record boundedBuffer := mkBuffer { bb_buf : str; bb_limit : Z; bb_stopOnOverflow : bool; bb_overflowed : bool }.

(** The buffer after a write, and whether the write failed. *)
Definition buffer_Write (b : boundedBuffer) (p : str) : boundedBuffer * bool :=
  let room := bb_limit b - slen (bb_buf b) in
  if slen p <=? room then (mkBuffer (bb_buf b +:+ p) (bb_limit b) (bb_stopOnOverflow b) (bb_overflowed b), false)
  else (mkBuffer (if 0 <? room then bb_buf b +:+ str_take (Z.to_nat room) p else bb_buf b) (bb_limit b) (bb_stopOnOverflow b) true,
        bb_stopOnOverflow b).

(** A stream copied into the buffer; a write that fails closes the pipe. *)
Fixpoint buffer_copy (b : boundedBuffer) (stream : list str) : boundedBuffer :=
  match stream with
  | [] => b
  | p :: stream => let '(b, failed) := buffer_Write b p in if failed : bool then b else buffer_copy b stream
  end.

Definition execToken (argv : list str) : prog ctlE (result str str) :=
  let! (out, err_out, err) := call (RunCommand argv) in
  let out := buffer_copy (mkBuffer "" (maxTokenBytes + 1) true false) out in
  let stderr := buffer_copy (mkBuffer "" maxDiagnosticBytes false false) err_out in
  Ret (if bb_overflowed out
       then Err ("the token command printed more than " +:+ itoa maxTokenBytes +:+ " bytes; that is not a service account token")
       else match err with
            | Some err =>
                let diagnostic := trim_space (bb_buf stderr) in
                Err (if bool_decide (diagnostic = "") then Sanitize.Errorf "the token command failed: " err
                     else Sanitize.Errorf_args [("the token command failed: ", err); (": ", diagnostic)])
            | None => Ok (bb_buf out)
            end).

(** Reading stdin stops one byte past the bound. *)
Definition readToken (opts : downloadOptions) : prog ctlE (result str str) :=
  let!? raw := (if do_tokenStdin opts
                then let! r := call ReadStdin in
                     Ret (match r with
                          | Ok raw => Ok (str_take (Z.to_nat (maxTokenBytes + 1)) raw)
                          | Err err => Err (Sanitize.Errorf "reading the token from stdin: " err)
                          end)
                else execToken (do_tokenExec opts)) in
  Ret (if maxTokenBytes <? slen raw then Err ("the token is longer than " +:+ itoa maxTokenBytes +:+ " bytes; that is not a service account token") else
       let token := trim_space raw in
       if bool_decide (token = "") then
         Err (if do_tokenStdin opts then "no token on stdin; pipe one in, e.g. from `kubectl create token --audience=trawl-artifact-gateway`"
              else "the token command printed nothing")
       else Ok token).

Context (url_scheme : str → result str str) (usable_certs : str → bool).

Definition NewClient (baseURL caFile : str) : prog ctlE (result str str) :=
  if bool_decide (trim_space baseURL = "") then Ret (Err "gateway client requires a base URL") else
  match url_scheme baseURL with
  | Err err => Ret (Err (Sanitize.Errorf "parsing the gateway URL: " err))
  | Ok scheme =>
      if negb (bool_decide (scheme = "https")) then Ret (Err "gateway client requires an https URL") else
      if bool_decide (trim_space caFile = "") then Ret (Err "gateway client requires a CA bundle") else
      let! pem := call (ReadFile caFile) in
      Ret match pem with
          | Err err => Err (Sanitize.Errorf "reading the gateway CA: " err)
          | Ok pem => if usable_certs pem then Ok baseURL else Err "gateway CA file contains no usable certificate"
          end
  end.

(** The deferred close, and the removal of a part that was not committed. *)
Definition abandon {A} (part : str) (a : A) : prog ctlE A :=
  let! _ := call CloseOut in
  let! _ := call (Remove part) in
  Ret a.

(** The verified part put under the output's name. *)
Definition place (part output : str) (written : Z) : prog ctlE (result download_error Z) :=
  let! linked := call (Link part output) in
  match linked with
  | Ok _ => let! _ := call (Remove part) in let! _ := call CloseOut in Ret (Ok written)
  | Err Exists_ =>
      let! _ := call CloseOut in
      Ret (Err (OtherError (output +:+ " was created while the download ran; the artifact is in " +:+ part)))
  | Err LinkUnsupported =>
      let! renamed := call (Rename part output) in
      match renamed with
      | Err err => abandon part (Err (OtherError (Sanitize.Errorf_args [("renaming ", part); (": ", err)])))
      | Ok _ => let! _ := call CloseOut in Ret (Ok written)
      end
  | Err (LinkFailed err) => abandon part (Err (OtherError (Sanitize.Errorf_args [("linking ", part); (" to ", output); (": ", err)])))
  end.

Definition writeArtifact (client token : str) (opts : downloadOptions) : prog ctlE (result download_error Z) :=
  let part := do_output opts +:+ partSuffix in
  let! opened := call (OpenExcl part) in
  match opened with
  | Err OpenExists => Ret (Err (OtherError (part +:+ " already exists; another download is running, or one was interrupted - remove it if not")))
  | Err (OpenFailed err) => Ret (Err (OtherError (Sanitize.Errorf_args [("creating ", part); (": ", err)])))
  | Ok _ =>
      let! downloaded := Download client token (do_namespace opts) (do_name opts) in
      match downloaded with
      | Err (_, err) => abandon part (Err err)
      | Ok written =>
          let! synced := call SyncOut in
          match synced with
          | Err err => abandon part (Err (OtherError (Sanitize.Errorf_args [("flushing ", part); (": ", err)])))
          | Ok _ =>
              let! closed := call CloseOut in
              match closed with
              | Err err => abandon part (Err (OtherError (Sanitize.Errorf_args [("closing ", part); (": ", err)])))
              | Ok _ => place part (do_output opts) written
              end
          end
      end
  end.

Definition describe (err : download_error) : str :=
  match err with
  | APIError status code message requestID =>
      "the gateway refused the download: " +:+ code +:+ ": " +:+ message +:+ " (HTTP " +:+ itoa status +:+ ", request " +:+ requestID +:+ ")"
  | ErrChecksumMismatch text => text +:+ "; the downloaded bytes were discarded"
  | OtherError text => text
  end.

(** The exit code, with what is printed: to stdout if it is zero. *)
Definition download (quote : str → str) (args : list str) (flags : option parsed_flags) : prog ctlE (Z * str) :=
  match parseDownload quote args flags with
  | Err err => Ret (exitUsage, err)
  | Ok opts =>
      let! existing := call (Lstat (do_output opts)) in
      match existing with
      | Err err => Ret (exitFailure, "checking the output path: " +:+ Sanitize.String_ err)
      | Ok true => Ret (exitFailure, do_output opts +:+ " already exists; refusing to overwrite it")
      | Ok false =>
          let! token := readToken opts in
          match token with
          | Err err => Ret (exitFailure, err)
          | Ok token =>
              let! client := NewClient (do_gateway opts) (do_caFile opts) in
              match client with
              | Err err => Ret (exitUsage, err)
              | Ok client =>
                  let! written := writeArtifact client token opts in
                  Ret match written with
                      | Err err => (exitFailure, describe err)
                      | Ok written => (exitOK, "wrote " +:+ itoa written +:+ " bytes to " +:+ do_output opts +:+ " (sha256 verified against the gateway)")
                      end
              end
          end
      end
  end.

Definition run (quote : str → str) (args : list str) (flags : option parsed_flags) : prog ctlE (Z * str) :=
  match args with
  | "capture" :: "download" :: args => download quote args flags
  | [arg] => if bool_decide (arg ∈ ["help"; "-h"; "--help"]) then Ret (exitOK, "usage") else Ret (exitUsage, "usage")
  | _ => Ret (exitUsage, "usage")
  end.

End client.

(** ** The file system, and others on it

    A file is known by its name, its bytes and whether this download made it.
    Before every call others may have created, changed or removed files of
    their own.  Of the gateway only the calls it made in answering are kept,
    and what it promises of them. *)

Record world := mkWorld { w_files : gmap string (bool * str); w_log : list Gateway.event }.

Definition others (f f' : gmap string (bool * str)) : Prop := ∀ p b, f !! p = Some (true, b) ↔ f' !! p = Some (true, b).

(** The file being written is the one of the download's that is open. *)
Definition written_to (f : gmap string (bool * str)) (bytes : str) (f' : gmap string (bool * str)) : Prop :=
  ∃ p old, f !! p = Some (true, old) ∧ (∀ q b, f !! q = Some (true, b) → q = p) ∧ f' = <[p := (true, old +:+ bytes)]> f.

Section world.
Context (promise : str → str → gateway_answer → list Gateway.event → Prop).

Definition effect (X : Type) (e : ctlE X) (f : gmap string (bool * str)) (log : list Gateway.event) : X → gmap string (bool * str) → list Gateway.event → Prop :=
  match e in ctlE X return X → _ → _ → Prop with
  | CallGateway path auth => λ x f' log', f' = f ∧ ∃ l, log' = log ++ l ∧ match x with Ok a => promise path auth a l | Err _ => True end
  | OpenExcl p => λ x f' log', log' = log ∧
      match x with Ok _ => f !! p = None ∧ f' = <[p := (true, "")]> f | Err _ => f' = f end
  | WriteOut bytes => λ x f' log', log' = log ∧
      match x with Ok _ => written_to f bytes f' | Err _ => f' = f ∨ ∃ part, written_to f part f' end
  | Link p q => λ x f' log', log' = log ∧
      match x with Ok _ => ∃ v, f !! p = Some v ∧ f !! q = None ∧ f' = <[q := v]> f | Err _ => f' = f end
  | Rename p q => λ x f' log', log' = log ∧
      match x with Ok _ => ∃ v, f !! p = Some v ∧ f' = delete p (<[q := v]> f) | Err _ => f' = f end
  | Remove p => λ _ f' log', log' = log ∧ (f' = delete p f ∨ f' = f)
  | Lstat p => λ x f' log', log' = log ∧ f' = f ∧ match x with Ok there => there = bool_decide (is_Some (f !! p)) | Err _ => True end
  | _ => λ _ f' log', log' = log ∧ f' = f
  end.

Definition ctl_step (X : Type) (e : ctlE X) (w : world) (x : X) (w' : world) : Prop :=
  ∃ f, others (w_files w) f ∧ effect X e f (w_log w) x (w_files w') (w_log w').

(** Bytes whose digest is the one a redirect of the gateway named. *)
Definition verified (path : str) (w : world) (bytes : str) : Prop :=
  ∃ token a pre l post, w_log w = pre ++ l ++ post ∧ promise path ("Bearer " +:+ token) a l ∧ ga_StatusCode a = 303 ∧
    ga_SHA256 a ≠ "" ∧ str_lower (sha256_hex bytes) = str_lower (ga_SHA256 a).

(** The download's own files. *)
Definition owns (w : world) (files : list (str * str)) : Prop := ∀ p b, w_files w !! p = Some (true, b) ↔ (p, b) ∈ files.

Lemma verified_mono path w w' bytes l :
  w_log w' = w_log w ++ l → verified path w bytes → verified path w' bytes.
Proof.
  intros Hl (token & a & pre & l' & post & E & H). exists token, a, pre, l', (post ++ l).
  split; [|done]. by rewrite Hl, E, <- !app_assoc.
Qed.

(** Calls that leave the files alone. *)
Lemma quiet_step X (e : ctlE X) w x w' files :
  match e with
  | CallGateway _ _ | CallStorage _ | ReadBody | Lstat _ | ReadFile _ | ReadStdin | RunCommand _ | SyncOut | CloseOut => True
  | _ => False
  end → ctl_step X e w x w' → owns w files → owns w' files ∧ ∃ l, w_log w' = w_log w ++ l.
Proof.
  intros He (f & Ho & Hf) Hw.
  assert (∀ f', f' = f → w_files w' = f' → owns w' files) as Hk by (intros ? -> E p b; rewrite E, <- (Ho p b); apply Hw).
  destruct e; try done; simpl in Hf;
    try (destruct Hf as [Hl Hf]; split; [by eapply Hk|exists []; by rewrite app_nil_r]).
  2: { destruct Hf as (Hl & Hf & _). split; [by eapply Hk|exists []; by rewrite app_nil_r]. }
  destruct Hf as (Hf & l & Hl & _). split; [by eapply Hk|by exists l].
Qed.

(** The invariant: what is under the output's name and is the download's is verified. *)
Section run.
Context (path output : str).
Abbreviation part := (output +:+ partSuffix).

Definition output_verified (w : world) : Prop :=
  ∀ b, w_files w !! output = Some (true, b) → verified path w b.

Lemma part_apart : part ≠ output.
Proof. intros E. apply (f_equal String.length) in E. rewrite str_length_app in E. simpl in E. lia. Qed.

Lemma owns_nothing w : owns w [] → output_verified w.
Proof. intros H b Hb. apply H in Hb. by apply elem_of_nil in Hb. Qed.

Lemma owns_part w b : owns w [(part, b)] → output_verified w.
Proof. intros H b' Hb. apply H, list_elem_of_singleton in Hb as [= E _]. by destruct part_apart. Qed.

(** A quiet call, with what follows it. *)
Lemma within_quiet {X A} (e : ctlE X) (k : X → prog ctlE A) Q w files :
  match e with
  | CallGateway _ _ | CallStorage _ | ReadBody | Lstat _ | ReadFile _ | ReadStdin | RunCommand _ | SyncOut | CloseOut => True
  | _ => False
  end → output_verified w → owns w files →
  (∀ x w', ctl_step X e w x w' → owns w' files → (∃ l, w_log w' = w_log w ++ l) → within ctl_step output_verified (k x) Q w') →
  within ctl_step output_verified (prog_bind (call e) k) Q w.
Proof.
  intros He HI Hw Hk. split; [done|]. intros x w' Hst. destruct (quiet_step X e w x w' files He Hst Hw) as [Ho Hl]. by apply Hk.
Qed.

(** Every write goes to the part. *)
Lemma write_step bytes w x w' b :
  owns w [(part, b)] → ctl_step _ (WriteOut bytes) w x w' →
  w_log w' = w_log w ∧ ∃ b', owns w' [(part, b')] ∧ (is_ok x = true → b' = b +:+ bytes).
Proof.
  intros Hw (f & Ho & Hl & Hf). split; [done|].
  assert (∀ p c, f !! p = Some (true, c) ↔ (p, c) ∈ [(part, b)]) as Hfo by (intros p c; rewrite <- (Ho p c); apply Hw).
  assert (∀ bs f', written_to f bs f' → ∀ p c, f' !! p = Some (true, c) ↔ (p, c) ∈ [(part, b +:+ bs)]) as Hwr.
  { intros bs f' (p & old & Hp & Honly & ->) q c. apply Hfo, list_elem_of_singleton in Hp as [= -> ->].
    rewrite list_elem_of_singleton. destruct (decide (q = part)) as [->|Hne].
    - rewrite lookup_insert_eq. split; [by intros [= ->]|by intros [= ->]].
    - rewrite lookup_insert_ne by done. rewrite Hfo, list_elem_of_singleton. split; intros [= -> ->]; done. }
  destruct x as [u|e].
  - exists (b +:+ bytes). split; [exact (Hwr _ _ Hf)|done].
  - destruct Hf as [Hf|[bs Hf]]; [exists b; rewrite <- Hf in Hfo; by split|exists (b +:+ bs); split; [exact (Hwr _ _ Hf)|done]].
Qed.

Definition holding (w0 w : world) (b : str) : Prop := owns w [(part, b)] ∧ ∃ l, w_log w = w_log w0 ++ l.

Lemma copy_within w0 reads : ∀ hashed n w,
  holding w0 w hashed →
  within ctl_step output_verified (copy reads hashed n)
    (λ r w', match r with Ok (hashed', _) => holding w0 w' hashed' | Err _ => ∃ b, holding w0 w' b end) w.
Proof.
  induction reads as [|bytes reads IH]; intros hashed n w Hh; [split; [by eapply owns_part, Hh|done]|].
  destruct Hh as [Ho [l Hl]]. split; [by eapply owns_part|]. intros x w' Hst.
  destruct (write_step bytes w x w' hashed Ho Hst) as (Hl' & b' & Ho' & Hb).
  destruct x as [u|e]; [|split; [by eapply owns_part|exists b'; split; [done|exists l; by rewrite Hl']]].
  apply IH. rewrite <- Hb by done. split; [done|]. exists l. by rewrite Hl'.
Qed.

Definition downloaded (r : result (Z * download_error) Z) (w : world) : Prop :=
  ∃ b, owns w [(part, b)] ∧ (is_ok r = true → verified path w b).

Lemma Download_within decode_error bad_target bad_location url_path client token namespace name w :
  download_path (url_path client) namespace name = path → owns w [(part, "")] →
  within ctl_step output_verified (Download decode_error bad_target bad_location url_path client token namespace name) downloaded w.
Proof.
  intros Hpath Ho. unfold Download. rewrite Hpath.
  assert (∀ w e n, owns w [(part, "")] → within ctl_step output_verified (Ret (Err (n, e))) downloaded w) as Hfail
    by (intros w' e n Ho'; split; [by eapply owns_part|exists ""; by split]).
  destruct (bad_target namespace name); [by apply Hfail|].
  split; [by eapply owns_part|]. intros resp w1 Hst. destruct (quiet_step _ (CallGateway _ _) _ _ _ _ Logic.I Hst Ho) as [Ho1 _].
  destruct Hst as (f & _ & _ & l & Hl & Hprom). cbn [prog_bind]. destruct resp as [a|err]; [|by apply Hfail].
  destruct (Z.eqb_spec (ga_StatusCode a) 303) as [Hst|]; [cbn [negb]|by apply Hfail].
  case_bool_decide; [by apply Hfail|]. destruct (bad_location _); [by apply Hfail|].
  apply (within_quiet _ _ _ _ [(part, "")]); [done|by eapply owns_part|done|]. intros object w2 _ Ho2 [l2 Hl2]. cbn [prog_bind].
  destruct object as [status|err]; [|by apply Hfail]. destruct (negb (status =? 200)); [by apply Hfail|].
  apply (within_quiet _ _ _ _ [(part, "")]); [done|by eapply owns_part|done|]. intros [reads failed] w3 _ Ho3 [l3 Hl3].
  apply (within_bind ctl_step). eapply within_mono; [|apply (copy_within w3 reads "" 0 w3); split; [done|exists []; by rewrite app_nil_r]].
  intros copied w4 Hc. assert (∃ b, holding w3 w4 b ∧ ∀ h n, copied = Ok (h, n) → h = b) as (b & [Ho4 [l4 Hl4]] & Hb).
  { destruct copied as [[h n]|e]; [exists h; split; [done|by intros ? ? [= <-]]|destruct Hc as [b Hb]; by exists b]. }
  assert (∀ r, is_ok r = false → within ctl_step output_verified (Ret r) downloaded w4) as Hfail4.
  { intros r Hr. split; [by eapply owns_part|]. exists b. rewrite Hr. by split. }
  destruct copied as [[hashed n]|[err n]]; [|by apply Hfail4]. destruct failed as [err|]; [by apply Hfail4|].
  rewrite (Hb hashed n eq_refl). unfold verify. case_bool_decide as Hw; [by apply Hfail4|].
  case_bool_decide as Heq; [|by apply Hfail4]. cbn [negb]. split; [by eapply owns_part|]. exists b. split; [done|]. intros _.
  exists token, a, (w_log w), l, (l2 ++ l3 ++ l4). split; [by rewrite Hl4, Hl3, Hl2, Hl, <- !app_assoc|done].
Qed.

(** What a write of the artifact ends with. *)
Definition finished {Er} (r : result Er Z) (w : world) : Prop :=
  match r with
  | Ok _ => ∃ b, w_files w !! output = Some (true, b) ∧ verified path w b
  | Err _ => ∀ b, w_files w !! output ≠ Some (true, b)
  end.

Lemma owns_part_not w b : owns w [(part, b)] → ∀ b', w_files w !! output ≠ Some (true, b').
Proof. intros H b' Hb. apply H, list_elem_of_singleton in Hb as [= E _]. by destruct part_apart. Qed.

(** A step that changes nothing of the download's. *)
Lemma unchanged w w' files f :
  others (w_files w) f → w_files w' = f → owns w files → owns w' files.
Proof. intros Ho E Hw p b. rewrite E, <- (Ho p b). apply Hw. Qed.

Lemma abandon_within {Er} (r : result Er Z) w b :
  is_ok r = false → owns w [(part, b)] → within ctl_step output_verified (abandon part r) finished w.
Proof.
  intros Hr Ho. apply (within_quiet _ _ _ _ [(part, b)]); [done|by eapply owns_part|done|]. intros _ w1 _ Ho1 _.
  split; [by eapply owns_part|]. intros [] w2 (f & Hoth & _ & Hf).
  assert (∀ b', w_files w2 !! output ≠ Some (true, b')) as Hno.
  { intros b' Hb. assert (f !! output = Some (true, b')) as Hfo.
    { destruct Hf as [E|E]; rewrite E in Hb; [|done]. by apply lookup_delete_Some in Hb as [_ Hb]. }
    apply Hoth in Hfo. by eapply owns_part_not. }
  destruct r; [done|]. split; [intros b' Hb; by destruct (Hno b')|done].
Qed.

Lemma place_within n w b :
  owns w [(part, b)] → verified path w b → within ctl_step output_verified (place part output n) finished w.
Proof.
  intros Ho Hv. pose proof part_apart as Hne. split; [by eapply owns_part|]. intros x w1 (f & Hoth & Hl & Hf).
  assert (f !! part = Some (true, b)) as Hp by (apply Hoth, Ho; by constructor).
  assert (∀ w', w_log w' = w_log w → verified path w' b) as Hv'
    by (intros w' E; apply (verified_mono _ w w' b []); by rewrite ?app_nil_r).
  assert (∀ w', w_files w' !! output = Some (true, b) → w_log w' = w_log w → output_verified w') as HI.
  { intros w' E El b' Hb. rewrite E in Hb. simplify_eq. by apply Hv'. }
  destruct x as [u|err].
  - destruct Hf as (v & Hpv & _ & Hf). rewrite Hp in Hpv. injection Hpv as <-.
    assert (w_files w1 !! output = Some (true, b)) as H1 by (rewrite Hf; by rewrite lookup_insert_eq).
    split; [by apply HI|]. intros [] w2 (f2 & Hoth2 & Hl2 & Hf2).
    assert (w_files w2 !! output = Some (true, b)) as H2.
    { apply Hoth2 in H1. destruct Hf2 as [-> | ->]; [by rewrite lookup_delete_ne|done]. }
    split; [apply HI; [done|congruence]|]. intros y w3 (f3 & Hoth3 & Hl3 & Hf3).
    assert (w_files w3 !! output = Some (true, b)) as H3 by (rewrite Hf3; by apply Hoth3).
    split; [apply HI; [done|congruence]|]. exists b. split; [done|]. apply Hv'. congruence.
  - assert (owns w1 [(part, b)]) as Ho1 by (by eapply (unchanged w)).
    destruct err as [| |text].
    + apply (within_quiet _ _ _ _ [(part, b)]); [done|by eapply owns_part|done|]. intros _ w2 _ Ho2 _.
      split; [by eapply owns_part|]. exact (owns_part_not w2 b Ho2).
    + split; [by eapply owns_part|]. intros y w2 (f2 & Hoth2 & Hl2 & Hf2). destruct y as [u|err].
      * destruct Hf2 as (v & Hpv & Hf2).
        assert (f2 !! part = Some (true, b)) as Hp2 by (apply Hoth2, Ho1; by constructor).
        rewrite Hp2 in Hpv. injection Hpv as <-.
        assert (w_files w2 !! output = Some (true, b)) as H2 by (rewrite Hf2, lookup_delete_ne by done; by rewrite lookup_insert_eq).
        split; [apply HI; [done|congruence]|]. intros z w3 (f3 & Hoth3 & Hl3 & Hf3).
        assert (w_files w3 !! output = Some (true, b)) as H3 by (rewrite Hf3; by apply Hoth3).
        split; [apply HI; [done|congruence]|]. exists b. split; [done|]. apply Hv'. congruence.
      * eapply abandon_within; [done|]. by eapply (unchanged w1).
    + by eapply abandon_within.
Qed.

Lemma writeArtifact_within decode_error bad_target bad_location url_path client token opts w :
  download_path (url_path client) (do_namespace opts) (do_name opts) = path → do_output opts = output →
  owns w [] → within ctl_step output_verified (writeArtifact decode_error bad_target bad_location url_path client token opts) finished w.
Proof.
  intros Hpath Eo Ho. unfold writeArtifact. rewrite Eo.
  assert (∀ w (e : download_error), owns w [] → within ctl_step output_verified (Ret (Err e)) finished w) as Hfail.
  { intros w' e Ho'. split; [by apply owns_nothing|]. intros b Hb. apply Ho' in Hb. by apply elem_of_nil in Hb. }
  split; [by apply owns_nothing|]. intros x w1 (f & Hoth & Hl & Hf). cbn [prog_bind]. destruct x as [u|err].
  - destruct Hf as [Hfree Hf]. assert (owns w1 [(part, "")]) as Ho1.
    { intros p b. rewrite Hf, list_elem_of_singleton. destruct (decide (p = part)) as [->|Hne].
      - rewrite lookup_insert_eq. split; [by intros [= ->]|by intros [= ->]].
      - rewrite lookup_insert_ne by done. rewrite <- (Hoth p b), (Ho p b). split; [by intros ?%elem_of_nil|by intros [= -> _]]. }
    apply (within_bind ctl_step). eapply within_mono; [|by apply Download_within]. intros r w2 (b & Ho2 & Hv).
    destruct r as [n|[n e]]; [|by eapply abandon_within]. specialize (Hv eq_refl).
    apply (within_quiet _ _ _ _ [(part, b)]); [done|by eapply owns_part|done|]. intros synced w3 _ Ho3 [l3 Hl3].
    cbn [prog_bind]. destruct synced; [|by eapply abandon_within].
    apply (within_quiet _ _ _ _ [(part, b)]); [done|by eapply owns_part|done|]. intros closed w4 _ Ho4 [l4 Hl4].
    cbn [prog_bind]. destruct closed; [|by eapply abandon_within].
    apply (place_within _ _ b); [done|]. eapply verified_mono; [exact Hl4|]. by eapply verified_mono.
  - assert (owns w1 []) as Ho1 by (by eapply unchanged). destruct err; by apply Hfail.
Qed.

Lemma readToken_within {A} opts (k : result str str → prog ctlE A) Q w :
  owns w [] → (∀ r w', owns w' [] → within ctl_step output_verified (k r) Q w') →
  within ctl_step output_verified (prog_bind (readToken opts) k) Q w.
Proof.
  intros Ho Hk. unfold readToken, execToken. destruct (do_tokenStdin opts).
  - apply (within_quiet _ _ _ _ []); [done|by apply owns_nothing|done|]. intros r w1 _ Ho1 _. destruct r; by apply Hk.
  - apply (within_quiet _ _ _ _ []); [done|by apply owns_nothing|done|]. intros [[out err_out] err] w1 _ Ho1 _. cbn [prog_bind].
    destruct (bb_overflowed _); [by apply Hk|]. destruct err; by apply Hk.
Qed.

Lemma NewClient_within {A} url_scheme usable_certs baseURL caFile (k : result str str → prog ctlE A) Q w :
  owns w [] → (∀ r w', (∀ client, r = Ok client → client = baseURL) → owns w' [] → within ctl_step output_verified (k r) Q w') →
  within ctl_step output_verified (prog_bind (NewClient url_scheme usable_certs baseURL caFile) k) Q w.
Proof.
  intros Ho Hk. unfold NewClient. case_bool_decide; [by apply Hk|]. destruct (url_scheme baseURL); [|by apply Hk].
  destruct (negb _); [by apply Hk|]. case_bool_decide; [by apply Hk|].
  apply (within_quiet _ _ _ _ []); [done|by apply owns_nothing|done|]. intros r w1 _ Ho1 _. apply Hk; [|done].
  intros client. destruct r as [pem|]; [|done]. destruct (usable_certs pem); [by intros [= <-]|done].
Qed.

(** What the command ends with. *)
Definition exits (r : Z * str) (w : world) : Prop :=
  finished (if r.1 =? exitOK then Ok 0 : result unit Z else Err tt) w.

Lemma download_within decode_error bad_target bad_location url_path url_scheme usable_certs quote args flags opts w :
  parseDownload quote args flags = Ok opts →
  download_path (url_path (do_gateway opts)) (do_namespace opts) (do_name opts) = path → do_output opts = output → owns w [] →
  within ctl_step output_verified (download decode_error bad_target bad_location url_path url_scheme usable_certs quote args flags) exits w.
Proof.
  intros Hp Hpath Eo Ho. unfold download. rewrite Hp.
  assert (∀ w code msg, (code =? exitOK) = false → owns w [] → within ctl_step output_verified (Ret (code, msg)) exits w) as Hfail.
  { intros w' code msg Hc Ho'. split; [by apply owns_nothing|]. unfold exits. cbn [fst]. rewrite Hc. intros b Hb. apply Ho' in Hb. by apply elem_of_nil in Hb. }
  apply (within_quiet _ _ _ _ []); [done|by apply owns_nothing|done|]. intros there w1 _ Ho1 _. cbn [prog_bind].
  destruct there as [[|]|err]; [by apply Hfail| |by apply Hfail].
  apply readToken_within; [done|]. intros token w2 Ho2. destruct token as [token|err]; [|by apply Hfail].
  apply NewClient_within; [done|]. intros cl w3 Hcl Ho3. destruct cl as [client|]; [|by apply Hfail].
  rewrite (Hcl client eq_refl).
  apply (within_bind ctl_step). eapply within_mono; [|by apply writeArtifact_within].
  intros r w4 Hr. destruct r as [n|e]; (split; [|done]).
  - destruct Hr as (b & Hb & Hv). intros b' Hb'. rewrite Hb in Hb'. by simplify_eq.
  - intros b Hb. by destruct (Hr b).
Qed.

End run.

End world.

(** ** The command against the gateway

    The command's call of the gateway is the mux and the handlers of
    internal/gateway, their calls and the command's in one sequence; a reply
    may be lost.  The mux gets the path the client joined, so a name that is
    none may lead to another capture or another route.  [encode_error] is the
    JSON of an error body, [page] what the probes and the mux write. *)

Inductive wholeE : Type → Type :=
  | Gw {X} (e : gatewayE X) : wholeE X
  | Own {X} (e : ctlE X) : wholeE X
  | Lost : wholeE (option str).

Section whole.
Context (encode_error : option (str * str) → str) (page : Z → str).
Context {bucket : Type} (newBucket : bucket) (allowN : bucket → time → bool * bucket).

Definition answer_of (resp : Response) : gateway_answer :=
  mkAnswer (rs_Status resp) (default "" (rs_Location resp)) (default "" (rs_SHA256 resp)) (rs_RequestID resp) (encode_error (rs_Error resp)).

Definition page_of (status : Z) (location : str) : gateway_answer := mkAnswer status location "" "" (page status).

(** What [Routes] serves of a request. *)
Definition serve_path (lim : @Limits bucket) (path authorization : str) : prog gatewayE (option gateway_answer * @Limits bucket) :=
  match Routes path with
  | ToDownload namespace name =>
      let! (reply, lim) := Gateway.download newBucket allowN lim namespace name authorization in
      Ret (answer_of <$> reply, lim)
  | ToHealthz => Ret (Some (page_of healthz ""), lim)
  | ToReadyz => let! status := readyz in Ret (Some (page_of status ""), lim)
  | MovedTo location => Ret (Some (page_of 301 location), lim)
  | NotRouted => Ret (Some (page_of 404 ""), lim)
  end.

Definition serve_gateway (X : Type) (e : ctlE X) (lim : @Limits bucket) : prog wholeE (X * @Limits bucket) :=
  match e in ctlE X return prog wholeE (X * @Limits bucket) with
  | CallGateway path authorization =>
      let! (reply, lim) := translate (@Gw) (serve_path lim path authorization) in
      let! lost := call Lost in
      Ret (match lost, reply with Some err, _ => Err err | None, None => Err "EOF" | None, Some resp => Ok resp end, lim)
  | e => let! x := call (Own e) in Ret (x, lim)
  end.

(** What a redirect of the gateway stands for. *)
Definition gateway_promise (path authorization : str) (a : gateway_answer) (l : list Gateway.event) : Prop :=
  ga_StatusCode a = 303 →
  ∃ namespace name requestID resp token t0 l', Routes path = ToDownload namespace name ∧ bearerToken authorization = Some token ∧ l = [Ev RandomID (Ok requestID); Ev Now t0] ++ l' ∧
    granted requestID namespace name token resp l' ∧ ga_SHA256 a = default "" (rs_SHA256 resp).

Definition whole_step (X : Type) (e : wholeE X) (w : world) : X → world → Prop :=
  match e in wholeE X return X → world → Prop with
  | Gw e => λ x w', others (w_files w) (w_files w') ∧ w_log w' = w_log w ++ [Ev e x]
  | Own e => λ x w', ctl_step gateway_promise _ e w x w'
  | Lost => λ _ w', w' = w
  end.

(** Evidence: bytes with the digest a capture's status records, of a capture
    found downloadable, for a caller the API server allowed this download,
    granted in the ledger. *)
Definition evidence (namespace name : str) (log : list Gateway.event) (bytes : str) : Prop :=
  ∃ requestID id reason job t1 t2,
    Ev (Authorize id (download_attributes namespace name)) (Ok (mkAuthzDecision true reason)) ∈ log ∧
    Ev (GetCaptureJob namespace name) (Ok job) ∈ log ∧ CaptureState.DecideDownload job t1 = CaptureState.DownloadAllowed ∧
    Ev (CommitRecord (grant_record requestID id job t2)) (Ok tt) ∈ log ∧
    str_lower (sha256_hex bytes) = str_lower (cst_SHA256 (cj_Status job)).

Lemma others_refl f : others f f.
Proof. by split. Qed.

Lemma others_trans f1 f2 f3 : others f1 f2 → others f2 f3 → others f1 f3.
Proof. intros H1 H2 p b. by rewrite (H1 p b). Qed.

Lemma granted_redirect requestID namespace name token resp l :
  granted requestID namespace name token resp l →
  ∃ id reason job t1 t2, rs_SHA256 resp = Some (cst_SHA256 (cj_Status job)) ∧
    Ev (Authorize id (download_attributes namespace name)) (Ok (mkAuthzDecision true reason)) ∈ l ∧
    Ev (GetCaptureJob namespace name) (Ok job) ∈ l ∧ CaptureState.DecideDownload job t1 = CaptureState.DownloadAllowed ∧
    Ev (CommitRecord (grant_record requestID id job t2)) (Ok tt) ∈ l.
Proof.
  intros (id & t1 & reason & job & t2 & l' & -> & Hd & artifact & deadline & info & t & now & ttl & url & _ & _ & _ & -> & ->).
  exists id, reason, job, t2, t. split; [done|]. split; [by do 3 constructor|]. split; [by do 4 constructor|]. split; [done|].
  apply elem_of_app. right. by do 3 constructor.
Qed.

Lemma verified_evidence path w bytes :
  verified gateway_promise path w bytes → ∃ namespace name, Routes path = ToDownload namespace name ∧ evidence namespace name (w_log w) bytes.
Proof.
  intros (token & a & pre & l & post & Hlog & Hp & Hst & _ & Hsum).
  destruct (Hp Hst) as (namespace & name & requestID & resp & token' & t0 & l' & Hroute & _ & -> & Hg & Hsha).
  destruct (granted_redirect _ _ _ _ _ _ Hg) as (id & reason & job & t1 & t2 & Hs & H1 & H2 & H3 & H4).
  assert (∀ ev, ev ∈ l' → ev ∈ w_log w) as Hin.
  { intros ev Hev. rewrite Hlog. apply elem_of_app. right. apply elem_of_app. left. apply elem_of_app. by right. }
  exists namespace, name. split; [done|]. exists requestID, id, reason, job, t1, t2. split_and!; [by apply Hin..|done|by apply Hin|].
  by rewrite Hsum, Hsha, Hs.
Qed.

(** Only the download handler redirects with 303. *)
Lemma serve_path_wp lim path authorization :
  wp (@logged gatewayE) (serve_path lim path authorization)
    (λ '(r, _) l, ∃ a, r = Some a ∧ gateway_promise path authorization a l) [].
Proof.
  assert (∀ status location l, status ≠ 303 → wp (@logged gatewayE) (Ret (Some (page_of status location), lim))
    (λ '(r, _) l, ∃ a, r = Some a ∧ gateway_promise path authorization a l) l) as Hpage
    by (intros status location l Hne; exists (page_of status location); split; [done|intros Hst; by destruct Hne]).
  unfold serve_path. destruct (Routes path) as [namespace name| | |location|] eqn:Hr.
  - apply wp_bind. eapply wp_mono; [|apply download_wp]. intros [reply lim'] l (requestID & resp & -> & Hresp).
    eexists. split; [done|]. intros Hst. destruct Hresp as [(_ & _ & _ & _ & message & Hin)|(token & t0 & l' & _ & _ & Hb & -> & Hg)].
    + exfalso. cbn in Hst. rewrite Hst in Hin. simpl in Hin. repeat (apply elem_of_cons in Hin as [[=]|Hin]). by apply elem_of_nil in Hin.
    + by exists namespace, name, requestID, resp, token, t0, l'.
  - by apply Hpage.
  - intros authenticated l _. cbn [prog_bind].
    destruct authenticated as [id|[|text]]; try by apply Hpage.
    all: intros head l' _; apply Hpage; by destruct head as [info|[]].
  - by apply Hpage.
  - by apply Hpage.
Qed.

(** A request served while others work on the file system. *)
Lemma serve_within {A} I (p : prog gatewayE A) Q : ∀ base l w,
  (∀ w w' l, I w → others (w_files w) (w_files w') → w_log w' = w_log w ++ l → I w') →
  I w → w_log w = base ++ l → wp (@logged gatewayE) p Q l →
  within whole_step I (translate (@Gw) p) (λ a w', others (w_files w) (w_files w') ∧ ∃ l', w_log w' = base ++ l' ∧ Q a l' ∧ I w') w.
Proof.
  induction p as [a|X e k IH]; intros base l w HI Hw Hl Hq; simpl.
  - split; [done|]. split; [apply others_refl|]. by exists l.
  - split; [done|]. intros x w' [Ho Hl']. assert (I w') as Hw' by (by eapply HI).
    eapply within_mono; [|apply (IH x base (l ++ [Ev e x]) w'); [done|done|by rewrite Hl', Hl, app_assoc|by apply Hq]].
    intros a w2 [Ho2 H]. split; [by eapply others_trans|done].
Qed.

Lemma output_verified_stable path output w w' l :
  output_verified gateway_promise path output w → others (w_files w) (w_files w') → w_log w' = w_log w ++ l →
  output_verified gateway_promise path output w'.
Proof. intros HI Ho Hl b Hb. eapply verified_mono; [exact Hl|]. by apply HI, Ho. Qed.

Lemma serve_gateway_step path output X (e : ctlE X) w lim :
  output_verified gateway_promise path output w →
  (∀ x w', ctl_step gateway_promise X e w x w' → output_verified gateway_promise path output w') →
  within whole_step (output_verified gateway_promise path output) (serve_gateway X e lim)
    (λ r w', ctl_step gateway_promise X e w r.1 w') w.
Proof.
  intros HI Hk.
  assert (within whole_step (output_verified gateway_promise path output) (let! x := call (Own e) in Ret (x, lim))
      (λ r w', ctl_step gateway_promise X e w r.1 w') w) as Hown.
  { split; [done|]. intros x w2 Hst. split; [by eapply Hk|done]. }
  destruct e as [p auth| | | | | | | | | | | | |]; try exact Hown. clear Hown.
  apply (within_bind whole_step).
  eapply within_mono; [|apply (serve_within _ _ _ (w_log w) [] w (λ w w' l, output_verified_stable path output w w' l) HI
    (eq_sym (app_nil_r _)) (serve_path_wp lim p auth))].
  intros [reply lim'] w1 (Ho & l & Hl & (a & -> & Ha) & HI1).
  split; [done|]. intros lost w2 ->. split; [done|]. cbn [fst].
  exists (w_files w1). split; [done|]. split; [done|]. exists l. split; [done|]. by destruct lost.
Qed.

End whole.

(** Valid names lead to themselves, whatever the base. *)
Lemma valid_names_reached base namespace name namespace' name' :
  is_Some (GoUrl.unescape base) → validNamespace namespace = true → validName name = true →
  Routes (download_path base namespace name) = ToDownload namespace' name' → namespace' = namespace ∧ name' = name.
Proof.
  intros Hb Hns Hn. pose proof (valid_segment _ (or_introl Hns)) as Sns. pose proof (valid_segment _ (or_intror Hn)) as Sn.
  assert (Forall GoUrl.segment ["api"; "v1"; "namespaces"; namespace; "capturejobs"; name; "download"]) as Hs.
  { repeat (apply Forall_cons; split; [first [assumption|by split; [split; [|split]|split]]|]). constructor. }
  destruct (GoUrl.JoinPath_ends base _ Hb (not_eq_sym (@nil_cons _ _ _)) Hs) as (X & HX & E). unfold Routes, GoUrl.segments, download_path.
  destruct (negb _); [done|]. rewrite E. destruct X as [|x X]; [done|]. cbn [app tail]. rewrite fmap_app.
  assert (GoUrl.pathUnescape <$> ["api"; "v1"; "namespaces"; namespace; "capturejobs"; name; "download"] =
    ["api"; "v1"; "namespaces"; namespace; "capturejobs"; name; "download"]) as ->.
  { clear -Hs. induction Hs as [|c l (_ & _ & Hc) _ IH]; [done|]. cbn. unfold GoUrl.pathUnescape at 1. by rewrite GoUrl.unescape_plain, IH. }
  destruct X as [|x1 X]; [cbn; destruct (_ && _); [|done]; by intros [= -> ->]|].
  set (l := _ ++ _). assert (7 < length l)%nat as Hl by (subst l; rewrite length_app, length_fmap; simpl; lia).
  clearbody l. do 8 (destruct l as [|? l]; [simpl in Hl; lia|]). done.
Qed.

(** *** Bounded buffers *)

Definition bytes_of (chunks : list str) : str := foldr (λ p s, p +:+ s) "" chunks.

(** A buffer that was given [done] so far. *)
Definition keeps (b : boundedBuffer) (limit : Z) (stop : bool) (done : str) : Prop :=
  b = mkBuffer (str_take (Z.to_nat limit) done) limit stop (limit <? slen done).

Lemma slen_take n s : slen (str_take n s) = Z.min (Z.of_nat n) (slen s).
Proof. unfold slen. rewrite str_take_length. lia. Qed.

Lemma buffer_Write_keeps b limit stop done p :
  0 ≤ limit → keeps b limit stop done →
  keeps (buffer_Write b p).1 limit stop (done +:+ p) ∧
  (buffer_Write b p).2 = stop && (limit <? slen (done +:+ p)) && negb (bool_decide (p = "")) .
Proof.
  intros Hl ->. unfold buffer_Write, keeps. cbn [bb_buf bb_limit bb_stopOnOverflow bb_overflowed].
  rewrite slen_take, Z2Nat.id by done. rewrite slen_app.
  pose proof (slen_nonneg done) as Hd. pose proof (slen_nonneg p) as Hp.
  assert (p = "" ↔ slen p = 0) as He by (split; [by intros ->|destruct p; [done|unfold slen; simpl; lia]]).
  destruct (Z.leb_spec (slen p) (limit - Z.min limit (slen done))) as [Hfit|Hover]; cbn [fst snd].
  - destruct (Z.ltb_spec limit (slen done)) as [Hfull|Hroom].
    + assert (p = "") as -> by (apply He; lia). rewrite !str_app_nil_r. change (slen "") with 0.
      rewrite Z.add_0_r. rewrite (proj2 (Z.ltb_lt _ _)) by done. split; [done|]. by rewrite andb_false_r.
    + rewrite (str_take_ge _ done) by (unfold slen in *; lia).
      rewrite (str_take_ge _ (done +:+ p)) by (rewrite str_length_app; unfold slen in *; lia).
      rewrite (proj2 (Z.ltb_ge _ _)) by lia. split; [done|]. by rewrite andb_false_r.
  - rewrite (proj2 (Z.ltb_lt limit _)) by lia. rewrite (bool_decide_eq_false_2 (p = "")) by (intros E; apply He in E; lia).
    split; [|by rewrite !andb_true_r]. f_equal. destruct (Z.ltb_spec 0 (limit - Z.min limit (slen done))) as [Hroom|Hroom].
    + rewrite (str_take_ge _ done) by (unfold slen in *; lia).
      replace (Z.to_nat limit) with (String.length done + Z.to_nat (limit - Z.min limit (slen done)))%nat by (unfold slen in *; lia).
      by rewrite str_take_app_add.
    + symmetry. apply str_take_app_le. unfold slen in *. lia.
Qed.

Lemma buffer_copy_keeps limit stop chunks : ∀ b done,
  0 ≤ limit → keeps b limit stop done → keeps (buffer_copy b chunks) limit stop (done +:+ bytes_of chunks).
Proof.
  induction chunks as [|p chunks IH]; intros b done Hl Hb; [by rewrite str_app_nil_r|].
  cbn [buffer_copy bytes_of foldr]. destruct (buffer_Write_keeps b limit stop done p Hl Hb) as [Hk Hf].
  destruct (buffer_Write b p) as [b' failed]. cbn [fst snd] in *. destruct failed; [|rewrite <- str_app_assoc; by apply IH].
  symmetry in Hf. apply andb_true_iff in Hf as [[_ Hf%Z.ltb_lt]%andb_true_iff _]. unfold keeps in *. rewrite Hk. f_equal.
  - symmetry. rewrite <- str_app_assoc. apply str_take_app_le. unfold slen in Hf. lia.
  - rewrite (proj2 (Z.ltb_lt limit (slen (done +:+ p)))) by done. symmetry. apply Z.ltb_lt. rewrite <- str_app_assoc, slen_app.
    pose proof (slen_nonneg (foldr (λ p s, p +:+ s) "" chunks)). lia.
Qed.

(** The token of a command that printed [raw]. *)
Definition printed (raw : str) (err : option str) (r : result str str) : Prop :=
  match r with
  | Ok token => err = None ∧ slen raw ≤ maxTokenBytes ∧ token = trim_space raw ∧ token ≠ ""
  | Err _ => maxTokenBytes < slen raw ∨ err ≠ None ∨ trim_space raw = ""
  end.

(** ** Theorems *)

(** C8: a file that trawlctl leaves is the evidence.  The command against the
    gateway's handler, whatever its collaborators answer and whatever others do
    to the file system meanwhile, whether replies are lost or a call fails
    halfway: at every point, the cuts a crash makes included, what stands under
    the output's name and was put there by the command has the digest a
    capture's status records - of a capture the API server allowed the bearer
    of the token to download, found downloadable, and granted in the audit
    ledger.  That capture is the one the joined URL is routed to; for a valid
    namespace and name it is the one asked for.  The command exits with zero
    exactly if it has put it there. *)
Theorem downloaded_file_is_evidence {bucket} (newBucket : bucket) allowN encode_error page decode_error bad_target bad_location url_path url_scheme usable_certs
    quote args flags opts lim w :
  parseDownload quote args flags = Ok opts → owns w [] →
  let base := url_path (do_gateway opts) in
  let good w b := ∃ namespace name, evidence namespace name (w_log w) b ∧
    Routes (download_path base (do_namespace opts) (do_name opts)) = ToDownload namespace name ∧
    (is_Some (GoUrl.unescape base) → validNamespace (do_namespace opts) = true → validName (do_name opts) = true →
     namespace = do_namespace opts ∧ name = do_name opts) in
  within whole_step (λ w, ∀ b, w_files w !! do_output opts = Some (true, b) → good w b)
    (interp (serve_gateway encode_error page newBucket allowN)
       (download decode_error bad_target bad_location url_path url_scheme usable_certs quote args flags) lim)
    (λ r w', if r.1.1 =? exitOK then ∃ b, w_files w' !! do_output opts = Some (true, b) ∧ good w' b
             else ∀ b, w_files w' !! do_output opts ≠ Some (true, b)) w.
Proof.
  intros Hp Ho base good.
  assert (∀ w b, verified gateway_promise (download_path base (do_namespace opts) (do_name opts)) w b → good w b) as Hgood.
  { intros w' b (namespace & name & Hr & He)%verified_evidence. exists namespace, name. split_and!; [done..|].
    intros Hu Hns Hn. by eapply valid_names_reached. }
  eapply within_imp; [| |eapply (within_interp (ctl_step gateway_promise)); [|by eapply (download_within _ _ _ _ _ _ _ _ _ _ _ _ opts)]].
  - intros w' HI b Hb. by apply Hgood, HI.
  - intros [[code msg] lim'] w' H. unfold exits, finished in H. cbn [fst] in *. destruct (code =? exitOK); [|done].
    destruct H as (b & Hb & Hv). exists b. split; [done|]. by apply Hgood.
  - intros X e w' lim' HI Hk. by apply serve_gateway_step.
Qed.

(** a token command is bounded whatever it prints.  However its output is
    cut into writes, it is the token, trimmed, if the command exits well and
    what it printed is within the bound and not blank, and an error
    otherwise. *)
Theorem token_command_bounded {S} (step : ∀ X, ctlE X → S → X → S → Prop) opts s :
  do_tokenStdin opts = false →
  wp step (readToken opts) (λ r s', ∃ out err_out err, step _ (RunCommand (do_tokenExec opts)) s (out, err_out, err) s' ∧
    printed (bytes_of out) err r) s.
Proof.
  intros Hs. unfold readToken, execToken. rewrite Hs. intros [[out err_out] err] s' Hst. cbn [prog_bind].
  assert (keeps (mkBuffer "" (maxTokenBytes + 1) true false) (maxTokenBytes + 1) true "") as H0 by reflexivity.
  pose proof (buffer_copy_keeps (maxTokenBytes + 1) true out _ "" ltac:(done) H0) as Hb. unfold keeps in Hb. rewrite Hb. cbn [bb_overflowed bb_buf].
  change ("" +:+ bytes_of out) with (bytes_of out).
  assert (∀ r, printed (bytes_of out) err r → ∃ out' err_out err, step _ (RunCommand (do_tokenExec opts)) s (out', err_out, err) s' ∧
    printed (bytes_of out') err r) as Hret by (intros r Hr; by exists out, err_out, err).
  destruct (Z.ltb_spec (maxTokenBytes + 1) (slen (bytes_of out))) as [Hov|Hov]; [apply Hret; left; lia|].
  destruct err as [err|]; [apply Hret; right; by left|]. cbn [prog_try prog_bind].
  rewrite str_take_ge by (unfold slen in Hov; lia). apply Hret.
  destruct (Z.ltb_spec maxTokenBytes (slen (bytes_of out))) as [Hlong|Hlong]; [by left|].
  case_bool_decide as Hb'; [right; by right|done].
Qed.

(** ** Witnesses *)

Definition example_flags : parsed_flags := mkFlags "trawl" "https://gw" "ca.pem" "out.pcapng" false "token-helper" [].

Definition example_options : downloadOptions := mkOptions "job-1" "trawl" "https://gw" "ca.pem" "out.pcapng" false ["token-helper"].

(** Collaborators that answer; the helper prints the token in two writes. *)
Definition example_answers (sum : str) (X : Type) (e : ctlE X) (sent : list str) : X * list str :=
  match e with
  | CallGateway path authorization => (Ok (mkAnswer 303 "https://storage/x" sum "r" ""), sent ++ [path; authorization])
  | CallStorage _ => (Ok 200, sent)
  | ReadBody => (["pc"; "ap"], None, sent)
  | Lstat _ => (Ok false, sent)
  | ReadFile _ => (Ok "pem", sent)
  | ReadStdin => (Ok "", sent)
  | RunCommand _ => (["good"; "0a"], [], None, sent)
  | OpenExcl _ => (Ok tt, sent)
  | WriteOut _ => (Ok tt, sent)
  | SyncOut => (Ok tt, sent)
  | CloseOut => (Ok tt, sent)
  | Link _ _ => (Err LinkUnsupported, sent)
  | Rename _ _ => (Ok tt, sent)
  | Remove p => (tt, sent ++ ["rm " +:+ p])
  end.

Definition example_download (sum : str) : Z * str * list str :=
  Prog.run (example_answers sum)
    (run (λ _, None) (λ _ _, None) (λ _, None) (λ _, "") (λ _, Ok "https") (λ _, true) id ["capture"; "download"; "job-1"] (Some example_flags)) [].

Example download_places : example_download (sha256_hex "pcap") =
  (0, "wrote 4 bytes to out.pcapng (sha256 verified against the gateway)", ["/api/v1/namespaces/trawl/capturejobs/job-1/download"; "Bearer good0a"]).
Proof. vm_compute. reflexivity. Qed.

Example download_discards : (example_download "00").2 = ["/api/v1/namespaces/trawl/capturejobs/job-1/download"; "Bearer good0a"; "rm out.pcapng.part"] ∧ (example_download "00").1.1 = 1.
Proof. by vm_compute. Qed.

(** Dots, an escape and a space in a name, on the way to the mux. *)
Example routed_names :
  Routes (download_path "" "trawl" "job-1") = ToDownload "trawl" "job-1" ∧
  Routes (download_path "" "trawl" "../../other/capturejobs/job-2") = ToDownload "other" "job-2" ∧
  Routes (download_path "" "trawl" "job%2D1") = ToDownload "trawl" "job-1" ∧
  Routes (download_path "" "trawl" "job 1") = ToDownload "trawl" "job 1" ∧
  Routes (download_path "" "trawl" "..") = NotRouted ∧
  Routes (download_path "" "trawl" "a%2F..%2Fb c") = MovedTo "/api/v1/namespaces/trawl/capturejobs/b%2520c/download".
Proof. vm_compute. by split_and!. Qed.

Lemma downloaded_file_is_evidence_witness :
  let good w b := ∃ namespace name, evidence namespace name (w_log w) b ∧
    Routes (download_path "" "trawl" "job-1") = ToDownload namespace name ∧
    (is_Some (GoUrl.unescape "") → validNamespace "trawl" = true → validName "job-1" = true → namespace = "trawl" ∧ name = "job-1") in
  within whole_step (λ w, ∀ b, w_files w !! "out.pcapng" = Some (true, b) → good w b)
    (interp (serve_gateway (λ _, "{}") (λ _, "") 1%nat Gateway.spend)
       (download (λ _, None) (λ _ _, None) (λ _, None) (λ _, "") (λ _, Ok "https") (λ _, true) id ["job-1"] (Some example_flags)) (mkLimits 1%nat ∅))
    (λ r w', if r.1.1 =? exitOK then ∃ b, w_files w' !! "out.pcapng" = Some (true, b) ∧ good w' b
             else ∀ b, w_files w' !! "out.pcapng" ≠ Some (true, b)) (mkWorld ∅ []).
Proof.
  apply (downloaded_file_is_evidence 1%nat Gateway.spend (λ _, "{}") (λ _, "") (λ _, None) (λ _ _, None) (λ _, None) (λ _, "") (λ _, Ok "https") (λ _, true)
    id ["job-1"] (Some example_flags) example_options); [reflexivity|].
  intros p b. cbn [w_files]. rewrite lookup_empty. split; [discriminate|intros H; by apply elem_of_nil in H].
Defined.

Lemma token_command_bounded_witness :
  wp (λ X (e : ctlE X) (_ : unit) x (_ : unit), match e in ctlE X return X → Prop with
      RunCommand _ => λ out, out = (["go"; "od "], [], None) | _ => λ _, True end x)
    (readToken example_options)
    (λ r _, r = Ok "good") tt.
Proof.
  eapply wp_mono; [|apply (token_command_bounded _ example_options tt); reflexivity].
  intros r s' (out & err_out & err & Hout & Hr). injection Hout as -> -> ->. destruct r as [token|e].
  - destruct Hr as (_ & _ & -> & _). reflexivity.
  - exfalso. vm_compute in Hr. by destruct Hr as [Hr|[Hr|Hr]].
Defined.

End Trawlctl.
