(* ===== verification/Deployment.v ===== *)
(** * The gateway as it is deployed, cmd/artifact-gateway

    The gateway's handler with the collaborators its command gives it: token
    and access reviews (internal/authz/kubernetes.go), live reads of
    CaptureJobs (internal/gateway/kube.go), the S3 store and its presigner
    (internal/storage), and commits through the counted audit client.  The
    calls that are left are those of the Kubernetes client, of the MinIO
    library and of HTTP.  Certificates are in Certificates. *)

From S2P Require Import Prelude GoTime GoString Utf8 Sanitize Api CaptureState Prog Storage S3Store AuditModel AuditSink AuditTransport Kube Gateway.

Module Deployment.
Import AuditModel Gateway.

(** ** kubernetes.go *)

Record TokenReviewStatus := mkTokenReview { tr_Authenticated : bool; tr_User : Identity; tr_Audiences : list str }.

Record SubjectAccessReviewStatus := mkAccessReview { sr_Allowed : bool; sr_Denied : bool; sr_Reason : str; sr_EvaluationError : str }.

Inductive deployedE : Type → Type :=
  | Host {X} (e : gatewayE X) : deployedE X
  | CreateTokenReview (token : str) (audiences : list str) : deployedE (result str TokenReviewStatus)
  | CreateSubjectAccessReview (user uid : str) (groups : list str) (attrs : Attributes) : deployedE (result str SubjectAccessReviewStatus)
  | ReadCaptureJob (namespace name : str) : deployedE (result Kube.kube_error CaptureJob)
  | Minio {X} (e : S3Store.minioE X) : deployedE X
  | PresignedGetObject (bucket key : str) (ttl : duration) : deployedE (result str str)
  | Http {X} (e : AuditTransport.httpE X) : deployedE X.

Record KubernetesReviewer := mkReviewer { kr_audience : str }.

Definition NewKubernetesReviewer (hasClient : bool) (audience : str) : result str KubernetesReviewer :=
  if negb hasClient then Err "authz requires a Kubernetes client"
  else if bool_decide (trim_space audience = "") then Err "authz requires a token audience"
  else Ok (mkReviewer audience).

Definition ReviewToken (k : KubernetesReviewer) (token : str) : prog deployedE (result authn_error Identity) :=
  if bool_decide (trim_space token = "") then Ret (Err ErrUnauthenticated) else
  let! review := call (CreateTokenReview token [kr_audience k]) in
  Ret match review with
      | Err err => Err (AuthnOther (Sanitize.Errorf "submitting a token review: " err))
      | Ok status =>
          if negb (tr_Authenticated status) then Err ErrUnauthenticated
          else if negb (bool_decide (tr_Audiences status = [])) && negb (bool_decide (kr_audience k ∈ tr_Audiences status)) then Err ErrUnauthenticated
          else Ok (tr_User status)
      end.

Definition ReviewAccess (id : Identity) (attrs : Attributes) : prog deployedE (result str AuthzDecision) :=
  let! review := call (CreateSubjectAccessReview (id_Username id) (id_UID id) (id_Groups id) attrs) in
  Ret match review with
      | Err err => Err (Sanitize.Errorf "submitting a subject access review: " err)
      | Ok status =>
          if negb (bool_decide (sr_EvaluationError status = "")) && negb (sr_Allowed status)
          then Err (Sanitize.Errorf "authorization could not be evaluated: " (sr_EvaluationError status))
          else Ok (mkAuthzDecision (sr_Allowed status && negb (sr_Denied status)) (Sanitize.String_ (sr_Reason status)))
      end.

(** ** kube.go *)

Definition ReadJob (namespace name : str) : prog deployedE (result job_error CaptureJob) :=
  let! job := call (ReadCaptureJob namespace name) in
  Ret match job with
      | Err (Kube.NotFound _) => Err ErrJobNotFound
      | Err err => Err (JobOther (Sanitize.Errorf "reading capturejob: " (Kube.kube_text err)))
      | Ok job => Ok job
      end.

(** ** presign.go *)

Definition S3PresignGet (s : S3Store.S3Store) (key : str) (ttl : duration) : prog deployedE (result presign_error str) :=
  if ttl <=? 0 then Ret (Err ErrPresignExpired) else
  let ttl := if MaxPresignTTL <? ttl then MaxPresignTTL else ttl in
  let! signed := call (PresignedGetObject (S3Store.s3_bucket s) key ttl) in
  Ret match signed with
      | Err err => Err (PresignOther (Sanitize.Errorf_args [("presigning ", key); (": ", err)]))
      | Ok url => Ok url
      end.

(** ** The assembly *)

Section deployed.
Context (encode : Record_ → option str) (decode_result : str → option AuditTransport.remote_result) (bad_endpoint : option str).
Context (reviewer : KubernetesReviewer) (store : S3Store.S3Store).

(** The collaborators, with what the counters have. *)
Definition collaborate (X : Type) (e : gatewayE X) (m : AuditTransport.counted) : prog deployedE (X * AuditTransport.counted) :=
  match e in gatewayE X return prog deployedE (X * AuditTransport.counted) with
  | Authenticate token => let! x := ReviewToken reviewer token in Ret (x, m)
  | Authorize id attrs => let! x := ReviewAccess id attrs in Ret (x, m)
  | GetCaptureJob namespace name => let! x := ReadJob namespace name in Ret (x, m)
  | HeadArtifact key => let! x := translate (@Minio) (S3Store.S3Head store key) in Ret (x, m)
  | CommitRecord rec =>
      let! (res, err) := translate (@Http) (AuditTransport.Client_Commit encode decode_result bad_endpoint rec) in
      Ret (match err with Some err => Err err | None => Ok tt end, AuditTransport.observe m rec res)
  | PresignGet key ttl => let! x := S3PresignGet store key ttl in Ret (x, m)
  | e => let! x := call (Host e) in Ret (x, m)
  end.

Section limited.
Context {bucket : Type} (newBucket : bucket) (allowN : bucket → time → bool * bucket).

Definition deployed_download (lim : @Limits bucket) (namespace name header : str) (m : AuditTransport.counted) :
    prog deployedE (reply * @Limits bucket * AuditTransport.counted) :=
  interp collaborate (download newBucket allowN lim namespace name header) m.

End limited.

(** ** What a call of the handler was served by *)

Definition call_of := Prog.event deployedE.

(** An answer that is no failure, and the calls it came from. *)
Definition served_by (X : Type) (e : gatewayE X) : X → list call_of → Prop :=
  match e in gatewayE X return X → list call_of → Prop with
  | RandomID => λ x l, l = [Ev (Host RandomID) x]
  | Now => λ x l, l = [Ev (Host Now) x]
  | Authenticate token => λ x l, ∀ id, x = Ok id → ∃ status,
      l = [Ev (CreateTokenReview token [kr_audience reviewer]) (Ok status)] ∧ tr_Authenticated status = true ∧
      (tr_Audiences status = [] ∨ kr_audience reviewer ∈ tr_Audiences status) ∧ id = tr_User status
  | Authorize id attrs => λ x l, ∀ decision, x = Ok decision → ∃ status,
      l = [Ev (CreateSubjectAccessReview (id_Username id) (id_UID id) (id_Groups id) attrs) (Ok status)] ∧
      decision = mkAuthzDecision (sr_Allowed status && negb (sr_Denied status)) (Sanitize.String_ (sr_Reason status))
  | GetCaptureJob namespace name => λ x l, ∀ job, x = Ok job → l = [Ev (ReadCaptureJob namespace name) (Ok job)]
  | HeadArtifact key => λ x l, ∀ info, x = Ok info → ∃ stat, l = [Ev (Minio (S3Store.StatObject (S3Store.s3_bucket store) key)) (Ok stat)]
  | CommitRecord rec => λ x l, x = Ok tt → ∃ body resp out,
      encode (Sanitized rec) = Some body ∧ l = [Ev (Http (AuditTransport.Do "POST" body)) (Ok resp)] ∧
      AuditTransport.rp_StatusCode resp ∈ [200; 201] ∧ decode_result (AuditTransport.rp_Body resp) = Some out ∧
      AuditTransport.rr_Result out ∈ ["success"; "retry"]
  | PresignGet key ttl => λ x l, ∀ url, x = Ok url → 0 < ttl ∧
      l = [Ev (PresignedGetObject (S3Store.s3_bucket store) key (Z.min ttl MaxPresignTTL)) (Ok url)]
  end.

Definition answered (ev : event) (l : list call_of) : Prop := match ev with Ev e x => served_by _ e x l end.

(** A program's calls, each served by calls of its own. *)
Lemma interp_logged {E F : Type → Type} {St A} (h : ∀ X, E X → St → prog F (X * St)) (by_calls : Prog.event E → list (Prog.event F) → Prop)
    (p : prog E A) Q :
  (∀ X (e : E X) st fl, wp (@logged F) (h X e st) (λ r fl', ∃ seg, fl' = fl ++ seg ∧ by_calls (Ev e r.1) seg) fl) →
  ∀ st gl fl, wp (@logged E) p Q gl →
  wp (@logged F) (interp h p st) (λ r fl', ∃ gs segs, Q r.1 (gl ++ gs) ∧ Forall2 by_calls gs segs ∧ fl' = fl ++ concat segs) fl.
Proof.
  intros Hh. induction p as [a|X e k IH]; intros st gl fl Hp; simpl.
  - exists [], []. rewrite !app_nil_r. split_and!; [done|constructor|done].
  - apply wp_bind. eapply wp_mono; [|apply Hh]. intros [x st'] fl1 (seg & -> & Hseg).
    eapply wp_mono; [|by apply (IH x st' (gl ++ [Ev e x])), Hp].
    intros r fl2 (gs & segs & HQ & Hall & ->). exists (Ev e x :: gs), (seg :: segs). rewrite <-app_assoc in HQ.
    split_and!; [done|by constructor|]. by rewrite <-app_assoc.
Qed.

Lemma collaborate_answered X (e : gatewayE X) m fl :
  wp (@logged deployedE) (collaborate X e m) (λ r fl', ∃ seg, fl' = fl ++ seg ∧ answered (Ev e r.1) seg) fl.
Proof.
  destruct e as [| |token|id attrs|namespace name|key|rec|key ttl].
  - intros x l ->. by exists [Ev (Host RandomID) x].
  - intros x l ->. by exists [Ev (Host Now) x].
  - unfold collaborate, ReviewToken. case_bool_decide; [exists []; by rewrite app_nil_r|].
    intros x l ->. exists [Ev (CreateTokenReview token [kr_audience reviewer]) x]. split; [done|]. intros id Hid.
    destruct x as [status|]; [|done]. exists status. cbn in Hid. destruct (tr_Authenticated status); [|done]. cbn [negb] in Hid.
    case_bool_decide as Ha; [|case_bool_decide as Hin; [|done]]; cbn in Hid; simplify_eq; (split_and!; [done..|by (left + right)|done]).
  - intros x l ->. exists [Ev (CreateSubjectAccessReview (id_Username id) (id_UID id) (id_Groups id) attrs) x]. split; [done|].
    intros d Hd. destruct x as [status|]; [|done]. exists status. cbn in Hd. destruct (_ && _); [done|]. by injection Hd as <-.
  - intros x l ->. exists [Ev (ReadCaptureJob namespace name) x]. split; [done|]. intros job Hjob. destruct x as [?|[]]; cbn in Hjob; by simplify_eq.
  - intros x l ->. exists [Ev (Minio (S3Store.StatObject (S3Store.s3_bucket store) key)) x]. split; [done|].
    intros info Hi. destruct x as [stat|err]; [by exists stat|done].
  - unfold collaborate, AuditTransport.Client_Commit.
    destruct (encode (Sanitized rec)) as [body|] eqn:Eb; [|exists []; by rewrite app_nil_r].
    destruct bad_endpoint; [exists []; by rewrite app_nil_r|].
    intros x l ->. destruct x as [resp|err]; [|eexists; by split].
    cbn [translate prog_bind]. destruct (_ || _) eqn:Est.
    + destruct (decode_result _) as [out|] eqn:Eout; [|eexists; by split].
      destruct (bool_decide _) eqn:Ein; [|eexists; by split]. apply bool_decide_eq_true in Ein.
      eexists. split; [done|]. intros _. exists body, resp, out. split_and!; [done..| |done|done].
      apply orb_true_iff in Est as [->%Z.eqb_eq| ->%Z.eqb_eq]; [left|right; left].
    + destruct (_ =? 409); eexists; by split.
  - unfold collaborate, S3PresignGet. destruct (Z.leb_spec ttl 0); [exists []; by rewrite app_nil_r|].
    intros x l ->. eexists. split; [done|]. intros url Hurl. split; [done|]. destruct x as [u|]; [|done]. cbn in Hurl. injection Hurl as <-.
    do 2 f_equal. f_equal. destruct (Z.ltb_spec MaxPresignTTL ttl); lia.
Qed.

Ltac destruct_ex := repeat match goal with H : ∃ _, _ |- _ => destruct H | H : _ ∧ _ |- _ => destruct H end; simplify_eq.

(** Every call of a download that ends in a redirect, in order. *)
Definition evidence_chain (namespace name token requestID : str) (resp : Response) (log : list call_of) : Prop :=
  ∃ t0 review t1 access job t2 artifact deadline stat t body ack out now ttl url,
    log = [Ev (Host RandomID) (Ok requestID); Ev (Host Now) t0;
           Ev (CreateTokenReview token [kr_audience reviewer]) (Ok review); Ev (Host Now) t1;
           Ev (CreateSubjectAccessReview (id_Username (tr_User review)) (id_UID (tr_User review)) (id_Groups (tr_User review))
             (download_attributes namespace name)) (Ok access);
           Ev (ReadCaptureJob namespace name) (Ok job); Ev (Host Now) t2;
           Ev (Minio (S3Store.StatObject (S3Store.s3_bucket store) (ar_Key artifact))) (Ok stat); Ev (Host Now) t;
           Ev (Http (AuditTransport.Do "POST" body)) (Ok ack); Ev (Host Now) now;
           Ev (PresignedGetObject (S3Store.s3_bucket store) (ar_Key artifact) ttl) (Ok url)] ∧
    (tr_Authenticated review = true ∧ (tr_Audiences review = [] ∨ kr_audience reviewer ∈ tr_Audiences review)) ∧
    (sr_Allowed access = true ∧ sr_Denied access = false) ∧
    (CaptureState.DecideDownload job t2 = CaptureState.DownloadAllowed ∧
     cst_Artifact (cj_Status job) = Some artifact ∧ cst_RetentionDeadline (cj_Status job) = Some deadline) ∧
    (encode (Sanitized (grant_record requestID (tr_User review) job t)) = Some body ∧
     AuditTransport.rp_StatusCode ack ∈ [200; 201] ∧ decode_result (AuditTransport.rp_Body ack) = Some out ∧
     AuditTransport.rr_Result out ∈ ["success"; "retry"]) ∧
    lifetime_ok ttl now deadline ∧ resp = redirect requestID url (cst_SHA256 (cj_Status job)).

Lemma granted_chain namespace name token requestID t0 resp l segs :
  granted requestID namespace name token resp l →
  Forall2 answered ([Ev RandomID (Ok requestID); Ev Now t0] ++ l) segs →
  evidence_chain namespace name token requestID resp (concat segs).
Proof.
  intros (id & t1 & reason & job & t2 & l' & -> & Hdec & artifact & deadline & info & t & now & ttl & url & Ha & Hd & Hlife & Hresp & ->) Hall.
  cbn [app] in Hall.
  repeat match goal with H : Forall2 _ (_ :: _) _ |- _ => apply Forall2_cons_inv_l in H as (? & ? & ? & H & ->) end.
  apply Forall2_nil_inv_l in Hall as ->. unfold answered in *. cbn [served_by] in *.
  repeat match goal with
  | H : ∀ _, Ok _ = Ok _ → _ |- _ => specialize (H _ eq_refl)
  | H : Ok _ = Ok _ → _ |- _ => specialize (H eq_refl)
  end. destruct_ex.
  match goal with H : true = _ && negb _ |- _ => symmetry in H; apply andb_true_iff in H as [? ?%negb_true_iff] end.
  rewrite Z.min_l by (unfold lifetime_ok in Hlife; lia).
  do 16 eexists. split; [reflexivity|]. split_and!; done.
Qed.

End deployed.

(** ** Theorems *)

(** C5: a deployed gateway redirects on evidence alone.  Whatever the cluster,
    the bucket, the sink and the network answer, a download is refused without
    a URL, or the calls it made are exactly these: a review, for the gateway's
    own audience, that authenticated the bearer of the token; an access review
    of that caller for this very download, allowed and not denied; a live read
    of the capture, downloadable at that moment; a look at its artifact in the
    bucket; the record of the grant sent to the sink and acknowledged as
    written; and a signature of the artifact's key for at most five minutes,
    within the retention deadline. *)
Theorem deployed_redirect encode decode_result bad_endpoint reviewer store {bucket} (newBucket : bucket) allowN lim namespace name header m :
  wp (@logged deployedE) (deployed_download encode decode_result bad_endpoint reviewer store newBucket allowN lim namespace name header m)
    (λ '(r, _, _) log, ∃ requestID resp, r = Some resp ∧
      (refusal requestID resp ∨
       ∃ token, bearerToken header = Some token ∧
         evidence_chain encode decode_result reviewer store namespace name token requestID resp log)) [].
Proof.
  eapply wp_mono; [|apply (interp_logged _ (answered encode decode_result reviewer store)); [intros; apply collaborate_answered|apply download_wp]].
  intros [[r lim'] m'] log (gs & segs & (requestID & resp & -> & Hr) & Hall & ->). exists requestID, resp. split; [done|].
  destruct Hr as [Hr|(token & t0 & l & _ & _ & Hb & E & Hg)]; [by left|right]. exists token. split; [done|].
  cbn [app] in E. subst gs. eapply granted_chain; [exact Hg|exact Hall].
Qed.

(** A cluster that answers; the sink answers as told. *)
Definition example_cluster (denied : bool) (sunk : AuditTransport.response) (X : Type) (e : deployedE X) (sent : list str) : X * list str :=
  match e in deployedE X return X * list str with
  | Host e => ((example_services _ e tt).1, sent)
  | CreateTokenReview token audiences => (Ok (mkTokenReview true (mkIdentity "ana" "" []) audiences), sent)
  | CreateSubjectAccessReview user _ _ _ => (Ok (mkAccessReview true denied "" ""), sent ++ ["may " +:+ user])
  | ReadCaptureJob _ _ => (Ok example_job, sent)
  | Minio e => ((S3Store.example_minio _ e {["captures/uid-1.pcapng" := "pcap"]}).1, sent)
  | PresignedGetObject bucket key _ => (Ok (bucket +:+ "/" +:+ key), sent)
  | Http e => (match e in AuditTransport.httpE X return X with AuditTransport.Do _ _ => Ok sunk end, sent ++ ["commit"])
  end.

Definition example_redirect (denied : bool) (status : Z) : reply * list str :=
  let r := run (example_cluster denied (AuditTransport.mkResponse status "success"))
    (deployed_download (λ _, Some "{}") (λ s, Some (AuditTransport.mkRemote s "" 0)) None (mkReviewer "gateway") S3Store.example_store
       1%nat spend (mkLimits 1%nat ∅) "trawl" "job-1" "Bearer good" (AuditTransport.mkCounted [] 0)) [] in
  (r.1.1.1, r.2).

Example deployed_answers :
  (rs_Status <$> (example_redirect false 200).1, (example_redirect false 200).2) = (Some 303, ["may ana"; "commit"]) ∧
  (rs_Status <$> (example_redirect true 200).1, (example_redirect true 200).2) = (Some 403, ["may ana"; "commit"]) ∧
  rs_Status <$> (example_redirect false 503).1 = Some 503.
Proof. by vm_compute. Qed.

End Deployment.
